(* ===== verification/_CoqProject ===== *)
-Q . S2P
Prelude.v
Filepath.v
JournalState.v
JournalQueue.v
JournalAdmin.v
Staging.v
JournalCopy.v
JournalRecover.v
JournalTx.v
JournalInv.v
JournalSafety.v
JournalReach.v
JournalLife.v
JournalOrder.v
JournalRestart.v
Demo.v
JournalProps.v
Retry.v
RateLimit.v
Uploader.v
UploaderData.v
UploaderProps.v
UploaderOutcome.v
UploaderDemo.v
Health.v
GoLib.v
PathGlob.v
SqlText.v
PoolState.v
PoolMember.v
PoolPlacement.v
PoolIndex.v
PoolList.v
PoolRepair.v
PoolBalance.v
PoolRead.v
PoolWrite.v
PoolTree.v
PoolOps.v
PoolDelta.v
PoolStatus.v
PoolFrame.v
PoolRows.v
PoolInv.v
PoolKeep.v
PoolSafety.v
PoolLease.v
PoolPlaceOk.v
PoolUpload.v
PoolReplay.v
PoolTrial.v
MetaState.v
MetaTree.v
MetaListing.v
MetaCopy.v
MetaRows.v
MetaInv.v
MetaReach.v
MetaSteps.v
MetaCalls.v
MetaFence.v
MetaMerge.v
MetaProps.v
MetaTreeProps.v
MetaDemo.v
CacheBits.v
CacheState.v
CacheRoom.v
CacheWhole.v
CacheBlocks.v
CacheSub.v
CacheBehind.v
CacheFrame.v
CacheLinks.v
CacheCalls.v
CacheSizes.v
CacheInodes.v
CacheEvict.v
CacheRead.v
CacheProps.v
