(* ===== verification/Prelude.v ===== *)
(** * CloudFS: a verification of its uploads, pools, metadata and read cache

    CloudFS mounts cloud drives as a local file system.  A file written locally
    is staged on disk, entered in a durable queue and sent to its backend later,
    by workers that survive crashes, slow or angry servers and operators who
    stop, resume or discard transfers.  Several drives can form a pool that keeps
    copies of every file on some of them.  The tree the file system shows is
    cached in a metadata store, which listings of the backends and their change
    feeds keep up to date, and what is read is kept in a bounded cache on disk.
    This development models:

      - internal/journal: the durable queue.  SQLite tables (uploads and their
        parts, dead letters, cancellations, cleanup intents and receipts, copy
        jobs, server-side copies) and three directories of private files
        (staging/, objects/, copies/);
      - internal/net/retry and internal/net/ratelimit: what an error means, how
        long to wait, token buckets and circuit breakers;
      - internal/upload: the workers that claim an upload, send it through a
        backend (internal/provider) and settle the outcome in the journal;
      - internal/pool: pools of drives, their index of what is where, placement
        rules, listings, reads, uploads, tree operations, repair, rebalancing,
        trimming, draining, replay and scrub; with internal/provider/health.go
        and internal/pathglob;
      - internal/meta: the metadata store.  Inodes, directory states, listings
        staged and merged, change-feed events, the negative cache, the name
        index, backend ids, copy bindings and the cleanup of local versions;
      - internal/cache: the read cache.  Block files and partial block files with
        their claims, sparse files, complete files shared by hard links, leases
        and pins, admission and eviction, write-behind, hydration, restart.

    ** How the program is represented

    A database transaction is a function [Tx] from tables to an error or a value
    and new tables: a failed transaction leaves nothing.  An operation of a
    component is a state transformer [Op] that always leaves a state, also when
    it fails.  The journal's state [jstate] is the tables, the file system (names
    of canonical absolute paths to inodes, so hard links are visible), the
    in-memory reservations and the clock.  SQLite is taken as what the code uses
    it for: rows in rowid order, serialisable transactions.  Machine integers
    are Z, with wrap-around written out where the code can reach it (backoff
    shifts, part counts); float64 is Z-scaled in Retry and a class of roundings
    in RateLimit.  What lies outside the repository is a parameter: digests,
    UUID parsing, operating system refusals ([Config]), the text of an error,
    jitter draws, the wall-clock part of a conflict name.

    A pool's state [pst] is its index (the tables of db.go as finite maps), the
    run-time part of each member, the replica cache, the streams reserved, the
    notices and the world.  Everything outside, backends, clocks, the local disk,
    random numbers and texts, is the class [Env] over an arbitrary world, so each
    theorem about pools holds for backends that answer anything; configuration is
    the class [Pool].  Operations are [M]: functions of the state.  SQL statements
    of a pool do not fail, except where a unique key is violated; a transaction
    that returns an error restores the index.  LIKE, substr and length are
    SQLite's (SqlText): case-blind for ASCII letters, counting characters.
    Latencies, weights and scores are IEEE doubles (SpecFloat).  Members are asked
    one after the other where the code asks them in parallel, in the order in
    which they are declared; RepairOnce works its batch with one worker.  The JSON
    of operation arguments and cursors is left out.

    The metadata store's state is its database, the tables of schema.go as finite
    maps with the unique index, the inode sequence and the triggers inside the
    statements, together with the in-memory negative cache and the clock.  A
    recursive query is a closure iterated as often as there are rows.  A listing
    being collected is a value: its temporary tables belong to it alone, and a
    staged node is the node where the code stores its JSON.  strings.ToLower is
    the class [Fold].  Durations become whole seconds by integer division where
    the code goes through a float64, which is exact below 2^22 seconds.

    The cache's state [cache] is the in-memory index with its counters (blocks,
    files, objects, sparse files as finite maps; pointers compared by the code
    are numbers) and the disk: names to inodes, inodes to bytes, and the small
    text files beside them.  Its paths are values [cpath] of a kind, a file hash
    and an index; the walk of the directories at a restart sees these kinds,
    and that the names of block files parse back is proved in CacheBits.
    Operations are [CM].  Each system call takes the next number, and the class
    [CacheEnv] says for each number whether it fails (a failing write may leave
    any prefix), how much space is free and in which order a map is walked, so
    theorems hold for every schedule of faults.  A call that holds admitMu, or a
    lookup with its read, is one step; a flush is two steps, a hydration or a
    stream three, between which any call may come ([ccall], [run_calls]).
    Rewriting a temporary gives it a new inode where O_TRUNC keeps the old one,
    which nothing holds open.  Sums of byte counts are not wrapped at 64 bits;
    numbers parsed from files are.

    ** Files

      - Prelude: results, transaction and operation monads, record update.
      - Filepath: Go's path/filepath (Clean, Join, Abs, Base, Dir).
      - JournalState: tables, files, transactions, guards (journal.go, and the
        state parts of the other files of the package).
      - JournalQueue: queue operations (journal.go, publication.go, list.go, the
        insertion of group.go, the reference scan of cleanup_upload.go).
      - JournalAdmin: cancel.go, resume_upload.go, cleanup_upload.go.
      - Staging: staging.go; JournalCopy: copy.go, copy_cleanup.go,
        copy_recovery.go, server_copy.go, link_staging.go; JournalRecover:
        group.go, Recover and orphans.go.
      - JournalTx, JournalInv: each transaction as an event on the tables and
        the table invariant [DBInv] every event keeps.
      - JournalSafety, JournalReach: atomic steps [jstep] of any client, the
        state invariant [Inv] (what is needed is on disk), every public method
        as a sequence of steps.
      - JournalLife, JournalOrder, JournalRestart: life cycle of one upload
        under stop, resume and discard; group commit, queue order, listing,
        history, and the workers as one system over the tables; recovery.
      - Demo: a concrete journal; JournalProps: the guarantees.
      - Retry, RateLimit: retry.go and ratelimit.go with their theorems.
      - Uploader: uploader.go, cancel.go, flush.go over the journal, a limiter
        registry and an arbitrary backend.  UploaderData: what the backend ends
        up holding.  UploaderProps: the worker's effect on the journal, against a
        backend whose acceptances are watched.
        UploaderOutcome: publication, failures, cancellation, flush, worker
        pools.  UploaderDemo: a concrete backend.

      - Health, PathGlob: health.go and glob.go with their theorems.  GoLib:
        sort.SliceStable, Go strings.  SqlText: SQLite's LIKE and substr.
      - PoolState: tables, triggers, members, [Env], the state and its monad, ids
        and content tokens (db.go, ids.go, ctoken.go).  PoolMember: members.go.
        PoolPlacement: rules.go, placement.go.  PoolIndex: statements, holds.go.
        PoolList: list.go.  PoolRepair: repair.go.  PoolBalance: rebalance.go,
        drain.go, TrimOnce.  PoolRead: read.go, pick.go, replicacache.go.
        PoolWrite, PoolTree: write.go.  PoolOps: ops.go, ScrubOnce, the loops of
        health.go.  PoolDelta: delta.go.  PoolStatus: status.go, Capabilities.
      - PoolFrame, PoolRows: what operations leave alone; single statements.
        PoolInv, PoolKeep: the invariant of the index and its preservation by
        every operation.  PoolSafety: move, trim and drain.  PoolLease:
        reservations and the replica cache.  PoolPlaceOk: placement.
        PoolUpload: uploads.  PoolReplay: fan-out, replay, holds.  PoolTrial:
        concrete pools.

      - MetaState: tables, statements, transactions (schema.go, store.go,
        search_functions.go).  MetaTree: the rest of store.go, listing_fence.go,
        retarget.go, indexer.go, coverage.go, children_page.go, subtree_refs.go,
        walk_subtree.go.  MetaListing: PutDirChanged, directory_replace.go,
        remote_change.go, dir_listing.go.  MetaCopy: copy.go, upload_cleanup.go.
      - MetaRows: queries, subtrees, deletion.  MetaInv: the invariant [WF] and
        the events that keep it.  MetaReach, MetaSteps: transactions as events,
        for any kind of change (the classes [Effect] and [Prune]).  MetaCalls:
        every call, what its callers guarantee ([allowed]), reachable stores.
        MetaFence: what takes a name away is fenced.  MetaMerge: the merge of a
        listing compared with the tree it began on.  MetaProps, MetaTreeProps:
        the guarantees.  MetaDemo: a concrete store.

      - CacheBits: presence bits, their encodings, names (subblock.go, sparse.go,
        temps.go), with their round trips.  CacheState: index, disk, system
        calls, geometry, accounts.  CacheRoom: eviction and admission
        (blockcache.go, admission.go, disk.go).  CacheWhole: sparse.go, whole.go,
        Hydrate.  CacheBlocks: the rest of blockcache.go, settle.go.  CacheSub:
        subblock.go.  CacheBehind: writebehind.go, Close, New and reload.
      - CacheFrame: sums over the index and what keeps the counters equal to
        them.  CacheLinks: complete files tied to their keys.  CacheCalls: calls,
        any interleaving of them, a start on any directory.  CacheSizes: charges
        are not negative.  CacheInodes: inodes, generations and pointers only
        grow.  CacheEvict: the victim, the loops, what is spared.  CacheRead:
        what a Put stores and a Get finds.  CacheProps: the guarantees, a
        concrete cache, and two losses.

    ** What the theorems show

      - Retention: in every state reachable by any interleaving of clients and
        restarts, the bytes behind every queued upload, reservation and copy are
        on disk (journal_retains), and one run of a worker loses no upload that
        the backend did not accept (process_keeps_data); the tables stay
        consistent; an acknowledged commit is in the queue with
        its file (commit_ack), and batching commits changes no outcome
        (group_commit_sequential).
      - Order: who gets which upload (claim_oldest_due, claim_exclusive); over
        every interleaving of workers that ask before they send with everybody
        else's transactions ([fstep]), one version of a file is sent at a time
        and none after a newer one (one_version_at_a_time); complete paging and
        bounded history (list_pages_complete, prune_bounds).
      - Operators: stops are durable (stop_is_durable) and beat publication and
        stale resumes, resumes re-verify content and work once, discards are
        final (discard_is_final).
      - Restart: recovery leaves no half-done row and only verified payloads
        (recover_settles).
      - Content: staged digests are those of the bytes written; a resumed copy
        is exactly its verified prefix; a finished transfer has assembled the
        queued bytes on the backend; a session survives the journal.
      - Failures: error classes ignore wrapping, retries and delays are bounded,
        rates stay between their limits for the options the daemon builds
        (limiter_bounds), the breaker opens when it should, and
        each failure costs a worker what the code says it costs.

      - Pools: no operation loses a copy it should keep (move_keeps_file,
        drain_keeps_copy, trim_keeps_target); uploads change nothing before they
        are complete and then leave no old content in service (upload_leaves_tree,
        upload_commits); a tree operation visits the members in turn and
        each either took it, as its own answer says, or is owed it (fanout_owes),
        and a replay spares what has changed
        (replayed_delete_spares); the index stays well formed under every
        operation (pool_index_typed) and its totals exact (usage_exact); the
        replica cache answers as the index does under any interleaving
        (cache_is_transparent); a pick that waits is woken by the lease that ends a
        stream of its file (pick_wait_is_woken);
        placement follows the rules; holds keep to their budget.
      - Metadata: every reachable store is well formed (store_invariant); a
        listing never publishes over a change it did not see (listing_fenced),
        makes the directory what the backend listed (commit_mirrors), and leaves
        protected nodes, what is above them and newer events alone
        (commit_spares, event_beats_listing); paths name nodes (path_resolves);
        removing, renaming and retargeting change exactly the rows they should
        (remove_exact, rename_exact, retarget_exact); the index flush ends with
        an exact index (flush_index_complete); a copy is published once
        (copy_bound_once), a discarded upload is cleaned up whole (cleanup_exact).
      - Cache: in every reachable state the counters are the sums over the index
        they stand for, and complete files and their keys refer to each other
        (cache_accounts); admission ends within the caps or has nothing left to
        evict (room_within_caps, put_within_caps), takes the coldest first
        (coldest_goes_first) and never what is pinned, leased or in use
        (room_spares_protected); what was stored is what is read, in block files and
        in the sparse files of large objects alike, up to read errors
        (put_then_get); content made from blocks since replaced is not
        published (superseded_is_not_published); what is written for a restart
        is read back (claims_read_back).
      - PoolTrial, MetaDemo and CacheProps also run the corners in which the code does
        something else than its comments or callers expect.

    ** Bounds and fuel

    Loops over tables and part lists are structural.  [drain] is given as much
    fuel as requests are queued, which suffices because each batch takes at
    least one.  The conflict check takes a bound on the pages of a directory and
    is proved for every bound at least the number of pages; DrainAll and Flush
    take a bound on sweeps and polls, where the code relies on its caller's
    deadline.  A worker's schedule is an arbitrary finite stream; past its end
    the context is live and nobody else acts.  In a pool, listing a directory
    follows at most [page_fuel] pages, ensureDir recurses at most as often as the
    path has characters, repairPath at most [repair_fuel] rounds, each of which
    drops a candidate or makes a copy; the strict-mode wait and the waits of a
    fan-out get the number of rounds as an argument, where the code has a
    deadline or waits for others.  In the metadata store, the removal of a subtree
    recurses at most once per row and the index flush loops at most once per
    queued name, both shown to be enough; WalkSubtree, whose visits may change the
    tree, takes its fuel as an argument.  The eviction loops of the cache get one
    step more than there are entries to evict, shown to be enough because each
    eviction removes one; the pieces of a read and the missing bytes of a range
    are counted by its length.

    ** What is not modelled

    Taking the journal's file lock, opening SQLite and migrating old schemas;
    power failure inside a step (a step is a committed transaction or one file
    system call); goroutine scheduling other than as interleaving of steps; of
    pools, ownership markers, the status report that collects the modelled
    parts, and the tickers that drive the loops; of the metadata store, opening
    SQLite, upgrading old schemas, waiting for a listing slot, Vacuum and the
    search over the indexes.  The theorems about the metadata store assume what
    its callers guarantee ([allowed]): nodes go under inodes that were handed out
    and not under the root's own name, and a rename does not move a node below
    itself.  Of the cache, the timers that start a sweep or a hydration, the
    interruption of a hydration by foreground reads, SettleFile's waiting,
    HitRatio (a float) and the platform's file identity and statfs.  Of the rest
    of the program, the virtual file system over these components is not modelled,
    for it is mostly locking and kernel protocol around the calls proved here;
    the protocol front ends, backend drivers, control plane, indexing and
    configuration are outside these paths. *)
From stdpp Require Export base tactics list gmap strings sorting.
From Stdlib Require Export ZArith Lia.

(** ** Results and error-carrying state transformers *)

Inductive res (E A : Type) : Type :=
| Ok (a : A)
| Err (e : E).
Arguments Ok {E A} a.
Arguments Err {E A} e.

(** A database transaction body: it sees a state and either fails, in which
    case whatever it wrote is gone, or yields a value and the state to commit.
    This is the callback of [Journal.tx], run under BEGIN/COMMIT/ROLLBACK. *)
Definition Tx (S E A : Type) : Type := S -> res E (A * S).

(** An operation of a component: it always leaves a state behind, also when it
    reports an error (side effects before the error are kept). *)
Definition Op (S E A : Type) : Type := S -> res E A * S.

Section Monads.
Context {S E : Type}.

Definition tret {A} (a : A) : Tx S E A := fun s => Ok (a, s).
Definition tfail {A} (e : E) : Tx S E A := fun _ => Err e.
Definition tbind {A B} (m : Tx S E A) (k : A -> Tx S E B) : Tx S E B :=
  fun s => match m s with Ok (a, s') => k a s' | Err e => Err e end.
Definition tget : Tx S E S := fun s => Ok (s, s).
Definition tput (s : S) : Tx S E unit := fun _ => Ok (tt, s).
Definition tmodify (f : S -> S) : Tx S E unit := fun s => Ok (tt, f s).

Definition oret {A} (a : A) : Op S E A := fun s => (Ok a, s).
Definition ofail {A} (e : E) : Op S E A := fun s => (Err e, s).
Definition obind {A B} (m : Op S E A) (k : A -> Op S E B) : Op S E B :=
  fun s => match m s with (Ok a, s') => k a s' | (Err e, s') => (Err e, s') end.
(** [_ = m()]: run for the effect, drop the verdict. *)
Definition oignore {A} (m : Op S E A) : Op S E unit := fun s => (Ok tt, snd (m s)).
(** [v, err := m()] followed by a branch on [err]. *)
Definition otry {A} (m : Op S E A) : Op S E (res E A) :=
  fun s => let '(r, s') := m s in (Ok r, s').
Definition oget : Op S E S := fun s => (Ok s, s).
Definition omodify (f : S -> S) : Op S E unit := fun s => (Ok tt, f s).
End Monads.

Declare Scope cfs_scope.
Delimit Scope cfs_scope with cfs.
Open Scope cfs_scope.
Notation "'let!' x ':=' m 'in' k" := (tbind m (fun x => k))
  (at level 200, x name, m at level 100, k at level 200, right associativity) : cfs_scope.
Notation "'do!' m ';' k" := (tbind m (fun _ => k))
  (at level 200, m at level 100, k at level 200, right associativity) : cfs_scope.
Notation "'let*' x ':=' m 'in' k" := (obind m (fun x => k))
  (at level 200, x name, m at level 100, k at level 200, right associativity) : cfs_scope.
Notation "'do*' m ';' k" := (obind m (fun _ => k))
  (at level 200, m at level 100, k at level 200, right associativity) : cfs_scope.

Lemma tbind_Ok {S E A B} (m : Tx S E A) (k : A -> Tx S E B) s b s' :
  tbind m k s = Ok (b, s') <-> exists a s1, m s = Ok (a, s1) /\ k a s1 = Ok (b, s').
Proof.
  unfold tbind. destruct (m s) as [[a s1]|e]; split.
  - eauto.
  - intros (a' & s1' & [= <- <-] & H). exact H.
  - discriminate.
  - intros (? & ? & ? & _). discriminate.
Qed.

Lemma tbind_Err {S E A B} (m : Tx S E A) (k : A -> Tx S E B) s e :
  tbind m k s = Err e <->
  m s = Err e \/ exists a s1, m s = Ok (a, s1) /\ k a s1 = Err e.
Proof.
  unfold tbind. destruct (m s) as [[a s1]|e']; split; intros H.
  - right; eauto.
  - destruct H as [?|(a' & s1' & [= <- <-] & H)]; [discriminate|done].
  - left; congruence.
  - destruct H as [?|(? & ? & ? & _)]; congruence.
Qed.

(** ** Record update *)

Class Settable (R : Type) := eta_of : R -> R.
Class Setter {R F : Type} (g : R -> F) := upd : (F -> F) -> R -> R.
Arguments upd {R F} g {_} f r.

(** Abstracts the projection [g] out of the eta-expansion of its record. *)
Ltac derive_setter :=
  lazymatch goal with
  | |- @Setter ?R ?F ?g =>
      let inst := constr:(_ : Settable R) in
      let body := eval unfold eta_of in (@eta_of R inst) in
      let body := eval hnf in inst in
      let p := eval pattern g in body in
      lazymatch p with
      | ?f _ => let t := eval cbv beta in (fun (h : F -> F) (r : R) => f (fun r' => h (g r')) r) in
                exact t
      end
  end.
#[export] Hint Extern 1 (Setter _) => derive_setter : typeclass_instances.

Notation "r <| g ':=' v |>" := (upd g (fun _ => v) r)
  (at level 1, g at level 0, left associativity) : cfs_scope.
Notation "r <| g '::=' f |>" := (upd g f r)
  (at level 1, g at level 0, left associativity) : cfs_scope.
