(* ===== verification/Filepath.v ===== *)
(** * Go's path/filepath on Unix

    [Clean], [Join], [Dir], [Base] and [Abs] as the Go standard library
    defines them for '/'-separated paths.  The journal decides what it may
    unlink by comparing the results of these functions, so they are modelled
    on the strings themselves, not on an abstract path type. *)
From S2P Require Import Prelude.
From Stdlib Require Import Ascii.

Module Filepath.

(** ** Components *)

(** [strings.Split(s, "/")] *)
Fixpoint split (s : string) : list string :=
match s with
| EmptyString => [EmptyString]
| String c s' =>
    if decide (c = "/"%char) then EmptyString :: split s'
    else match split s' with
         | [] => [String c EmptyString]
         | x :: xs => String c x :: xs
         end
end.

(** [strings.Join(l, "/")] *)
Fixpoint joined (l : list string) : string :=
match l with
| [] => EmptyString
| [x] => x
| x :: xs => x +:+ String "/"%char (joined xs)
end.

Fixpoint noslash (s : string) : Prop :=
match s with
| EmptyString => True
| String c s' => c <> "/"%char /\ noslash s'
end.

(** ** Clean *)

Definition clean_step (rooted : bool) (stack : list string) (c : string) : list string :=
if decide (c = "" \/ c = ".") then stack
else if decide (c = "..") then
  match stack with
  | [] => if rooted then [] else [".."]
  | top :: rest => if decide (top = "..") then c :: stack else rest
  end
else c :: stack.

Definition clean_comps (rooted : bool) (l : list string) : list string :=
rev (fold_left (clean_step rooted) l []).

Definition IsAbs (p : string) : bool :=
match p with String c _ => bool_decide (c = "/"%char) | EmptyString => false end.

Definition Clean (p : string) : string :=
if decide (p = "") then "."
else let out := clean_comps (IsAbs p) (split p) in
     if IsAbs p then String "/"%char (joined out)
     else match out with [] => "." | _ => joined out end.

Fixpoint Join (elems : list string) : string :=
match elems with
| [] => ""
| e :: rest => if decide (e = "") then Join rest else Clean (joined elems)
end.

Definition Abs (cwd p : string) : string :=
if IsAbs p then Clean p else Join [cwd; p].

Fixpoint drop_empty (l : list string) : list string :=
match l with
| x :: xs => if decide (x = "") then drop_empty xs else l
| [] => []
end.

Definition Base (p : string) : string :=
if decide (p = "") then "."
else match drop_empty (rev (split p)) with
     | [] => "/"
     | x :: _ => x
     end.

Definition Dir (p : string) : string :=
match rev (split p) with
| [] | [_] => Clean ""
| _ :: init => Clean (joined (rev init) +:+ "/")
end.

(** [strings.TrimSuffix] *)
Definition TrimSuffix (s suf : string) : string :=
let n := (String.length s - String.length suf)%nat in
if decide (String.length suf <= String.length s)%nat then
  if decide (String.substring n (String.length suf) s = suf)
  then String.substring 0 n s else s
else s.

(** ** Canonical absolute paths *)

(** A component that [Clean] neither drops nor interprets. *)
Definition plain (c : string) : Prop :=
noslash c /\ c <> "" /\ c <> "." /\ c <> "..".

#[export] Instance noslash_dec s : Decision (noslash s).
Proof.
induction s as [|c s IH]; simpl; [left; done|].
destruct (decide (c = "/"%char)); [right; tauto|].
destruct IH; [left|right]; tauto.
Defined.

#[export] Instance plain_dec c : Decision (plain c).
Proof. unfold plain. apply _. Defined.

Definition canon (l : list string) : string := String "/"%char (joined l).

Lemma split_cons s : exists x xs, split s = x :: xs.
Proof.
destruct s as [|c s]; simpl; [eauto|].
destruct (decide _); [eauto|]. destruct (split s); eauto.
Qed.

Lemma split_noslash s : Forall noslash (split s).
Proof.
induction s as [|c s IH]; simpl; [by repeat constructor|].
destruct (decide _); [by constructor|].
destruct (split s) as [|x xs]; inversion_clear IH; repeat constructor; done.
Qed.

Lemma split_app_slash x s : noslash x -> split (x +:+ String "/"%char s) = x :: split s.
Proof.
induction x as [|c x IH]; simpl; intros H; [done|].
destruct H as [Hc Hx]. destruct (decide _); [done|]. by rewrite IH.
Qed.

Lemma split_single x : noslash x -> split x = [x].
Proof.
induction x as [|c x IH]; simpl; [done|]. intros [Hc Hx].
destruct (decide _); [done|]. by rewrite IH.
Qed.

Lemma split_joined l : l <> [] -> Forall noslash l -> split (joined l) = l.
Proof.
induction l as [|x [|y l] IH]; intros Hne Hall; [done| |].
- inversion_clear Hall. by apply split_single.
- inversion_clear Hall as [|? ? Hx Hl].
  change (joined (x :: y :: l)) with (x +:+ String "/"%char (joined (y :: l))).
  rewrite split_app_slash by done. by rewrite IH.
Qed.

Lemma plain_noslash l : Forall plain l -> Forall noslash l.
Proof. intros H. eapply Forall_impl; [exact H|]. by intros x [? _]. Qed.

Lemma split_canon l : Forall plain l -> split (canon l) = "" :: match l with [] => [""] | _ => l end.
Proof.
intros H. unfold canon. simpl.
destruct l as [|x l]; [done|].
rewrite split_joined; [done|done|by apply plain_noslash].
Qed.

Lemma clean_step_plain r st c : plain c -> clean_step r st c = c :: st.
Proof.
intros (_ & H1 & H2 & H3). unfold clean_step.
destruct (decide _) as [[?|?]|_]; [done|done|]. by destruct (decide _).
Qed.

Lemma fold_clean_plain r l st :
Forall plain l -> fold_left (clean_step r) l st = rev l ++ st.
Proof.
revert st. induction l as [|x l IH]; intros st H; simpl; [done|].
inversion_clear H. rewrite clean_step_plain by done. rewrite IH by done.
by rewrite <- app_assoc.
Qed.

Lemma clean_comps_plain r l : Forall plain l -> clean_comps r l = l.
Proof.
intros H. unfold clean_comps. rewrite fold_clean_plain by done.
by rewrite app_nil_r, rev_involutive.
Qed.

(** Rooted cleaning keeps only plain components. *)
Lemma clean_step_rooted_plain st c :
noslash c -> Forall plain st -> Forall plain (clean_step true st c).
Proof.
intros Hc Hst. unfold clean_step.
destruct (decide _) as [|Hne]; [done|].
destruct (decide (c = "..")) as [->|].
- destruct st as [|t st]; [done|]. inversion_clear Hst as [|? ? (_ & _ & _ & ?) ?].
  by destruct (decide _).
- constructor; [|done]. unfold plain. tauto.
Qed.

Lemma clean_comps_rooted_plain l : Forall noslash l -> Forall plain (clean_comps true l).
Proof.
intros H. unfold clean_comps. apply Forall_rev.
assert (Hst : Forall plain []) by constructor. revert Hst.
generalize (@nil string). induction H as [|c l Hc Hl IH]; intros st Hst; simpl; [done|].
apply IH. by apply clean_step_rooted_plain.
Qed.

Lemma Clean_rooted p : IsAbs p = true -> exists l, Forall plain l /\ Clean p = canon l.
Proof.
intros H. unfold Clean. destruct (decide _) as [->|]; [done|]. rewrite H.
eexists; split; [|done]. apply clean_comps_rooted_plain, split_noslash.
Qed.

Lemma Clean_canon l : Forall plain l -> Clean (canon l) = canon l.
Proof.
intros H. unfold Clean. destruct (decide _); [done|]. simpl IsAbs.
cbv match. unfold canon at 2. f_equal. f_equal.
rewrite split_canon by done. unfold clean_comps. simpl.
destruct l as [|x l]; [done|].
change (rev (fold_left (clean_step true) (x :: l) (clean_step true [] "")) = x :: l).
apply (clean_comps_plain true (x :: l) H).
Qed.

Lemma rev_split_canon_snoc l x :
Forall plain l -> plain x -> rev (split (canon (l ++ [x]))) = x :: rev l ++ [""].
Proof.
intros Hl Hx. rewrite split_canon by (apply Forall_app; auto).
destruct (l ++ [x]) eqn:E; [by destruct l|]. rewrite <- E. simpl.
by rewrite rev_app_distr.
Qed.

Lemma Base_canon_snoc l x : Forall plain l -> plain x -> Base (canon (l ++ [x])) = x.
Proof.
intros Hl Hx. unfold Base. destruct (decide _); [done|].
rewrite rev_split_canon_snoc by done. simpl.
destruct Hx as (_ & ? & _). by destruct (decide _).
Qed.

Lemma str_app_assoc (a b c : string) : (a +:+ b) +:+ c = a +:+ (b +:+ c).
Proof. induction a as [|x a IH]; [done|]. exact (f_equal (String x) IH). Qed.

Lemma joined_snoc l x : l <> [] -> joined (l ++ [x]) = joined l +:+ String "/"%char x.
Proof.
induction l as [|y [|z l] IH]; intros H; [done|done|].
change (joined ((y :: z :: l) ++ [x])) with (y +:+ String "/"%char (joined ((z :: l) ++ [x]))).
rewrite IH by done.
change (joined (y :: z :: l)) with (y +:+ String "/"%char (joined (z :: l))).
by rewrite str_app_assoc.
Qed.

Lemma clean_comps_snoc_empty r l : clean_comps r (l ++ [""]) = clean_comps r l.
Proof. unfold clean_comps. by rewrite fold_left_app. Qed.

Lemma split_snoc_slash l : l <> [] -> Forall noslash l -> split (joined l +:+ "/") = l ++ [""].
Proof.
intros Hne Hall. change "/" with (String "/"%char "").
rewrite <- joined_snoc by done. apply split_joined; [by destruct l|].
apply Forall_app; repeat constructor; done.
Qed.

Lemma Dir_canon_snoc l x : Forall plain l -> plain x -> Dir (canon (l ++ [x])) = canon l.
Proof.
intros Hl Hx. unfold Dir. rewrite rev_split_canon_snoc by done.
destruct (rev l ++ [""]) as [|y ys] eqn:E; [by destruct (rev l)|].
rewrite <- E, rev_app_distr, rev_involutive. simpl app. clear E y ys.
unfold Clean.
assert (Ha : IsAbs (joined ("" :: l) +:+ "/") = true) by (by destruct l).
rewrite Ha. destruct (decide _) as [E|]; [by rewrite E in Ha|].
rewrite split_snoc_slash; [|done|constructor; [done|by apply plain_noslash]].
unfold canon. f_equal. f_equal.
rewrite (clean_comps_snoc_empty true ("" :: l)).
change (clean_comps true l = l). by apply clean_comps_plain.
Qed.

Lemma Join_canon_snoc l x : Forall plain l -> plain x -> Join [canon l; x] = canon (l ++ [x]).
Proof.
intros Hl Hx. change (Join [canon l; x]) with (Clean (joined [canon l; x])).
rewrite <- (Clean_canon (l ++ [x])) by (apply Forall_app; auto).
destruct l as [|y l].
- unfold canon. simpl. unfold Clean. simpl.
  destruct Hx as (Hx & ? & ? & ?). rewrite split_single by done.
  done.
- f_equal. unfold canon. rewrite joined_snoc by done. done.
Qed.

(** [Abs] always yields a canonical absolute path when the working directory
  is absolute. *)
Lemma Abs_canon cwd p :
IsAbs cwd = true -> exists l, Forall plain l /\ Abs cwd p = canon l.
Proof.
intros Hc. unfold Abs. destruct (IsAbs p) eqn:E; [by apply Clean_rooted|].
simpl. destruct (decide (cwd = "")) as [->|]; [done|].
apply Clean_rooted. by destruct cwd.
Qed.

Lemma Abs_of_canon cwd l : Forall plain l -> Abs cwd (canon l) = canon l.
Proof. intros H. unfold Abs. simpl. by apply Clean_canon. Qed.

Lemma Abs_idem cwd p : IsAbs cwd = true -> Abs cwd (Abs cwd p) = Abs cwd p.
Proof. intros H. destruct (Abs_canon cwd p H) as (l & Hl & ->). by apply Abs_of_canon. Qed.

(** ** Joining several plain components *)

Lemma split_app_gen a s : split (a +:+ String "/"%char s) = split a ++ split s.
Proof.
induction a as [|c a IH]; [done|].
change (String c a +:+ String "/"%char s) with (String c (a +:+ String "/"%char s)).
simpl. rewrite IH. destruct (decide _); [done|].
destruct (split_cons a) as (x & xs & ->). done.
Qed.

Lemma Join_canon l xs :
Forall plain l -> Forall plain xs -> xs <> [] -> Join (canon l :: xs) = canon (l ++ xs).
Proof.
intros Hl Hxs Hne. change (Join (canon l :: xs)) with (Clean (joined (canon l :: xs))).
destruct xs as [|x xs]; [done|].
change (joined (canon l :: x :: xs)) with (canon l +:+ String "/"%char (joined (x :: xs))).
unfold Clean. destruct (decide _) as [|_]; [done|].
change (IsAbs (canon l +:+ String "/"%char (joined (x :: xs)))) with true. cbv match.
unfold canon at 2. f_equal. f_equal.
rewrite split_app_gen, split_canon by done.
rewrite split_joined by (try done; by apply plain_noslash).
unfold clean_comps. rewrite fold_left_app.
assert (Hs : fold_left (clean_step true) ("" :: match l with [] => [""] | _ => l end) [] = rev l).
{ destruct l as [|y l]; [done|].
  change (fold_left (clean_step true) (y :: l) [] = rev (y :: l)).
  rewrite fold_clean_plain by done. by rewrite app_nil_r. }
rewrite Hs, fold_clean_plain by done.
by rewrite rev_app_distr, !rev_involutive.
Qed.

Lemma canon_inj l l' : Forall plain l -> Forall plain l' -> canon l = canon l' -> l = l'.
Proof.
intros Hl Hl' E. assert (Hs : split (canon l) = split (canon l')) by (by rewrite E).
rewrite !split_canon in Hs by done. injection Hs as Hs.
destruct l as [|x l], l' as [|y l']; [done| | |done]; exfalso.
- injection Hs as <- _. inversion_clear Hl' as [|? ? (_ & ? & _)]. done.
- injection Hs as -> _. inversion_clear Hl as [|? ? (_ & ? & _)]. done.
Qed.

(** A canonical path in directory [canon l] is that directory plus one component. *)
Lemma in_dir l k :
Forall plain l -> l <> [] -> Forall plain k -> Dir (canon k) = canon l ->
k = l ++ [Base (canon k)] /\ plain (Base (canon k)).
Proof.
intros Hl Hne Hk HD. destruct k as [|z k] using rev_ind.
- exfalso. apply Hne. symmetry. apply canon_inj; [constructor|done|]. rewrite <- HD. done.
- apply Forall_app in Hk as [Hk Hz]. inversion_clear Hz.
  rewrite Dir_canon_snoc in HD by done. rewrite Base_canon_snoc by done.
  apply canon_inj in HD as ->; done.
Qed.

End Filepath.
