(* ===== verification/JournalState.v ===== *)
(** * The journal's data: SQL tables, directory of blobs, process state

    Types of internal/journal (journal.go, cancel.go, cleanup_upload.go,
    copy.go, server_copy.go): the rows of its SQLite tables, the [Upload] and
    [Part] structs the API exchanges, the private directories it owns, and the
    in-memory reservations.  A table with a primary key other than the rowid is
    a finite map; [uploads] is a list in rowid order because claim order and
    supersession are decided by rowid. *)
From S2P Require Import Prelude Filepath.
Import Filepath.
Open Scope Z_scope.

(** ** Times and durations (nanoseconds; [None] is the zero time.Time) *)

Definition time := option Z.
Definition Millisecond : Z := 1000000.
Definition Second : Z := 1000 * Millisecond.
Definition Minute : Z := 60 * Second.

Definition unixMilli (t : time) : Z :=
  match t with None => 0 | Some ns => ns / Millisecond end.
Definition fromUnixMilli (ms : Z) : time :=
  if decide (ms = 0) then None else Some (ms * Millisecond).
Definition unix (ns : Z) : Z := ns / Second.

(** ** Upload life cycle *)

Inductive State :=
| StateUnset        (* the empty string: a caller that left the field alone *)
| StatePending | StateUploading | StateDone | StateDead
| StateCancelling | StateCancelled | StatePurging.

#[export] Instance State_eq_dec : EqDecision State.
Proof. solve_decision. Defined.

Inductive Durability := DurabilityPower | DurabilityCrash.
#[export] Instance Durability_eq_dec : EqDecision Durability.
Proof. solve_decision. Defined.

(** ** Errors *)

Inductive jerr :=
| ErrNotFound | ErrInFlight | ErrNotDead
| ErrCancelled | ErrCannotCancel
| ErrUploadPurging | ErrUploadCleanupState | ErrUploadCleanupIdentity | ErrUploadCleanupContent
| ErrResumeChanged | ErrResumeContent
| ErrCopyBusy | ErrCopyCorrupt | ErrCopyState | ErrCopyCancelled | ErrCopyReferenced
| ErrServerCopyBusy
| errNotPending
| ErrNotOwner
| ErrInvalid (what : string)
| ErrIO (what : string)
| ErrUniqueConstraint.

#[export] Instance jerr_eq_dec : EqDecision jerr.
Proof. solve_decision. Defined.

(** ** Structs *)

Record Upload := MkUpload {
  ID : string; StagingID : string; Remote : string; RemoteParentID : string;
  Name : string; BlobPath : string; Size : Z; Hashes : gmap string string;
  UState : State; Attempt : Z; NextRetryAt : time; LastError : string;
  ExpectedVersion : string; Session : gmap string string; Ino : Z;
  CreatedAt : time; Tombstoned : bool; NeedsPublish : bool;
  MetaIdentity : string; MountPrefix : string; MountRootID : string;
  AccountBinding : string
}.
#[export] Instance Upload_eta : Settable Upload := fun u =>
  MkUpload (ID u) (StagingID u) (Remote u) (RemoteParentID u) (Name u) (BlobPath u)
    (Size u) (Hashes u) (UState u) (Attempt u) (NextRetryAt u) (LastError u)
    (ExpectedVersion u) (Session u) (Ino u) (CreatedAt u) (Tombstoned u) (NeedsPublish u)
    (MetaIdentity u) (MountPrefix u) (MountRootID u) (AccountBinding u).

Record Part := MkPart { Index : Z; ETag : string; PState : string }.
#[export] Instance Part_eq_dec : EqDecision Part.
Proof. solve_decision. Defined.

(** ** Table rows *)

(** One row of [uploads], with SQLite's implicit rowid. *)
Record Row := MkRow {
  rowid : Z; r_id : string; r_remote : string; r_parent : string; r_name : string;
  r_blob : string; r_size : Z; r_hashes : gmap string string; r_state : State;
  r_attempt : Z; r_next_retry : Z; r_last_error : string; r_expected : string;
  r_session : gmap string string; r_ino : Z; r_created : Z; r_tombstone : bool;
  r_needs_publish : bool; r_meta : string; r_prefix : string; r_root : string;
  r_account : string; r_done_at : Z
}.
#[export] Instance Row_eta : Settable Row := fun r =>
  MkRow (rowid r) (r_id r) (r_remote r) (r_parent r) (r_name r) (r_blob r) (r_size r)
    (r_hashes r) (r_state r) (r_attempt r) (r_next_retry r) (r_last_error r) (r_expected r)
    (r_session r) (r_ino r) (r_created r) (r_tombstone r) (r_needs_publish r) (r_meta r)
    (r_prefix r) (r_root r) (r_account r) (r_done_at r).

(** scanUpload: a row as the API returns it. *)
Definition scanUpload (r : Row) : Upload :=
  MkUpload (r_id r) "" (r_remote r) (r_parent r) (r_name r) (r_blob r) (r_size r)
    (r_hashes r) (r_state r) (r_attempt r) (fromUnixMilli (r_next_retry r)) (r_last_error r)
    (r_expected r) (r_session r) (r_ino r) (Some (r_created r * Second)) (r_tombstone r)
    (r_needs_publish r) (r_meta r) (r_prefix r) (r_root r) (r_account r).

Inductive CopyState :=
| CopyPreparing | CopyReady | CopySubmitted | CopyFailed | CopyCancelled | CopyPurging.
#[export] Instance CopyState_eq_dec : EqDecision CopyState.
Proof. solve_decision. Defined.

Record CopySpec := MkCopySpec {
  cs_MetaIdentity : string; cs_TargetParentIno : Z; cs_SourceMount : string;
  cs_SourceRootID : string; cs_SourceAccountBinding : string; cs_TargetMount : string;
  cs_TargetRootID : string; cs_TargetAccountBinding : string; cs_SourcePath : string;
  cs_SourceRemote : string; cs_SourceID : string; cs_SourceVersion : string; cs_Size : Z;
  cs_TargetPath : string; cs_TargetRemote : string; cs_TargetParentID : string;
  cs_Mode : string
}.

(** One row of [copy_jobs]; the key is the job id. *)
Record CopyRow := MkCopyRow {
  c_spec : CopySpec; c_want : list string; c_state : CopyState; c_revision : Z;
  c_checkpoint : Z; c_crc32c : string; c_remote : string; c_parent : string;
  c_name : string; c_last_error : string
}.
#[export] Instance CopyRow_eta : Settable CopyRow := fun r =>
  MkCopyRow (c_spec r) (c_want r) (c_state r) (c_revision r) (c_checkpoint r) (c_crc32c r)
    (c_remote r) (c_parent r) (c_name r) (c_last_error r).

Record CopyCleanupRow := MkCopyCleanupRow {
  cc_spec : CopySpec; cc_want : list string; cc_checkpoint : Z; cc_crc32c : string;
  cc_revision : Z
}.

Record ServerCopySpec := MkServerCopySpec {
  sc_MetaIdentity : string; sc_TargetMount : string; sc_TargetRootID : string;
  sc_TargetAccountBinding : string; sc_SourcePath : string; sc_SourceRemote : string;
  sc_SourceID : string; sc_SourceVersion : string; sc_Size : Z; sc_TargetPath : string;
  sc_TargetRemote : string; sc_TargetParentID : string; sc_TargetParentIno : Z;
  sc_TargetName : string
}.

Record ServerCopy := MkServerCopy {
  s_spec : ServerCopySpec; s_remote : string; s_parent : string; s_name : string;
  s_last_error : string
}.
#[export] Instance ServerCopy_eta : Settable ServerCopy := fun r =>
  MkServerCopy (s_spec r) (s_remote r) (s_parent r) (s_name r) (s_last_error r).

Record DB := MkDB {
  uploads : list Row;
  upload_parts : gmap (string * Z) (string * string);
  dead_letter : gmap string (string * Z);
  upload_cancellation : gmap string Z;
  upload_resume_history : gmap (string * Z) (Upload * list Part);
  upload_cleanup : gmap string (string * string);
  upload_discarded : gmap string (string * string);
  copy_jobs : gmap string CopyRow;
  copy_cleanup : gmap string CopyCleanupRow;
  server_copies : gmap string ServerCopy
}.
#[export] Instance DB_eta : Settable DB := fun d =>
  MkDB (uploads d) (upload_parts d) (dead_letter d) (upload_cancellation d)
    (upload_resume_history d) (upload_cleanup d) (upload_discarded d) (copy_jobs d)
    (copy_cleanup d) (server_copies d).

(** ** Files *)

Inductive fkind := KRegular | KDir | KOther.
#[export] Instance fkind_eq_dec : EqDecision fkind.
Proof. solve_decision. Defined.

Record inode := MkInode { i_kind : fkind; i_data : list Z }.

(** Names are canonical absolute paths; two names of one inode are hard links. *)
Record FS := MkFS { names : gmap string Z; inodes : gmap Z inode }.
#[export] Instance FS_eta : Settable FS := fun f => MkFS (names f) (inodes f).

Inductive ioop := IoStat | IoOpen | IoRead | IoRemove | IoRename | IoSync | IoReadDir.

(** What the process is opened with.  [io_error] is the operating system's
    refusal to perform an operation on a name for a reason other than absence;
    [uuid_canonical] is google/uuid's "Parse succeeds and prints back the same
    text"; [digest alg bytes] is the hex digest of a byte string under one of
    the standard hash functions. *)
Class Config := MkConfig {
  cfg_dir : string;
  cfg_cwd : string;
  cfg_owner : bool;
  cfg_durability : Durability;
  io_error : ioop -> string -> bool;
  uuid_canonical : string -> bool;
  digest : string -> list Z -> string
}.
Definition crc32c {cfg : Config} (data : list Z) : string := digest "crc32c" data.

(** The [Journal] struct's mutable part. *)
Record jstate := MkJState {
  db : DB;
  fsys : FS;
  stagedObjects : gmap string string;
  stagedRefs : gmap string Z;
  copyOpen : gset string;
  now : Z
}.
#[export] Instance jstate_eta : Settable jstate := fun s =>
  MkJState (db s) (fsys s) (stagedObjects s) (stagedRefs s) (copyOpen s) (now s).

(** [tx]: run a body under the writer lock; an error rolls every row back. *)
Definition tx {A} (body : Tx DB jerr A) : Op jstate jerr A := fun s =>
  match body (db s) with
  | Ok (a, d) => (Ok a, s <| db := d |>)
  | Err e => (Err e, s)
  end.

(** The same for a body that also touches files: an error rolls the rows back
    but what it did to the file system stays done. *)
Definition tx_fs {A} (body : Op jstate jerr A) : Op jstate jerr A := fun s =>
  match body s with
  | (Ok a, s') => (Ok a, s')
  | (Err e, s') => (Err e, s' <| db := db s |>)
  end.

(** Read-only query outside a transaction. *)
Definition query {A} (f : DB -> A) : Op jstate jerr A := fun s => (Ok (f (db s)), s).

Fixpoint oforeach {S E A} (l : list A) (f : A -> Op S E unit) : Op S E unit :=
  match l with
  | [] => oret tt
  | x :: l' => do* f x; oforeach l' f
  end.

Fixpoint tforeach {S E A} (l : list A) (f : A -> Tx S E unit) : Tx S E unit :=
  match l with
  | [] => tret tt
  | x :: l' => do! f x; tforeach l' f
  end.

(** ** Directories *)

Section Paths.
Context {cfg : Config}.

Definition StagingDir : string := Join [cfg_dir; "staging"].
Definition ObjectsDir : string := Join [cfg_dir; "objects"].
Definition CopiesDir : string := Join [cfg_dir; "copies"].
Definition abs (p : string) : string := Abs cfg_cwd p.

(** copyPath: the private payload name of a copy job. *)
Definition copyPath (id : string) : option string :=
  if uuid_canonical id then Some (abs (Join [cfg_dir; "copies"; id +:+ ".part"])) else None.

(** *** System calls *)

Record FileInfo := MkInfo { fi_ino : Z; fi_kind : fkind; fi_size : Z }.
Inductive oserr := ENOENT | EIO.

Definition lookup_inode (f : FS) (p : string) : option (Z * inode) :=
  i ← names f !! abs p; n ← inodes f !! i; Some (i, n).

Definition Stat (f : FS) (p : string) : res oserr FileInfo :=
  if io_error IoStat (abs p) then Err EIO
  else match lookup_inode f p with
       | Some (i, n) => Ok (MkInfo i (i_kind n) (Z.of_nat (length (i_data n))))
       | None => Err ENOENT
       end.

Definition Remove (f : FS) (p : string) : res oserr FS :=
  if io_error IoRemove (abs p) then Err EIO
  else match names f !! abs p with
       | Some _ => Ok (f <| names := delete (abs p) (names f) |>)
       | None => Err ENOENT
       end.

(** rename(2): a no-op when both names are links to one inode. *)
Definition Rename (f : FS) (src dst : string) : res oserr FS :=
  if io_error IoRename (abs src) then Err EIO
  else match names f !! abs src with
       | None => Err ENOENT
       | Some i =>
           if decide (names f !! abs dst = Some i) then Ok f
           else Ok (f <| names := <[abs dst := i]> (delete (abs src) (names f)) |>)
       end.

Definition ReadFile (f : FS) (p : string) : option (list Z) :=
  if io_error IoOpen (abs p) || io_error IoRead (abs p) then None
  else snd <$> (prod_map id i_data <$> lookup_inode f p).

(** os.ReadDir: base name and kind of every name directly under [dir]. *)
Definition ReadDir (f : FS) (dir : string) : list (string * fkind) :=
  omap (fun '(p, i) =>
          if decide (Dir p = abs dir) then
            n ← inodes f !! i; Some (Base p, i_kind n)
          else None)
       (map_to_list (names f)).

Definition SyncDir (p : string) : bool := negb (io_error IoSync (abs p)).
End Paths.

(** ** Statements on [uploads] *)

Definition sel (P : Row -> Prop) `{forall r, Decision (P r)} (d : DB) : list Row :=
  filter P (uploads d).

(** SELECT ... WHERE id = ? *)
Definition row_of (id : string) (d : DB) : option Row :=
  head (sel (fun r => r_id r = id) d).

(** (SELECT rowid FROM uploads WHERE id = ?); a comparison with the NULL it
    yields for an unknown id is never true. *)
Definition rowid_of (id : string) (d : DB) : option Z := rowid <$> row_of id d.

Definition upd_rows (P : Row -> Prop) `{forall r, Decision (P r)} (f : Row -> Row) (d : DB) : DB :=
  d <| uploads ::= map (fun r => if decide (P r) then f r else r) |>.

Definition del_rows (P : Row -> Prop) `{forall r, Decision (P r)} (d : DB) : DB :=
  d <| uploads ::= filter (fun r => ~ P r) |>.

(** UPDATE uploads SET ... WHERE id = ? *)
Definition upd_id (id : string) (f : Row -> Row) (d : DB) : DB :=
  upd_rows (fun r => r_id r = id) f d.
Definition del_id (id : string) (d : DB) : DB := del_rows (fun r => r_id r = id) d.

(** The rowid SQLite gives the next inserted row. *)
Definition next_rowid (d : DB) : Z := foldr Z.max 0 (map rowid (uploads d)) + 1.

Definition del_parts (id : string) (d : DB) : DB :=
  d <| upload_parts ::= filter (fun kv => fst (fst kv) <> id) |>.
Definition del_dead (id : string) (d : DB) : DB := d <| dead_letter ::= delete id |>.
Definition del_cancellation (id : string) (d : DB) : DB := d <| upload_cancellation ::= delete id |>.
Definition del_history (id : string) (d : DB) : DB :=
  d <| upload_resume_history ::= filter (fun kv => fst (fst kv) <> id) |>.

(** ORDER BY, as a stable insertion sort on the given order. *)
Fixpoint insert_by {A} (le : A -> A -> bool) (x : A) (l : list A) : list A :=
  match l with
  | [] => [x]
  | y :: l' => if le x y then x :: l else y :: insert_by le x l'
  end.
Definition order_by {A} (le : A -> A -> bool) (l : list A) : list A := foldr (insert_by le) [] l.

(** LIMIT ?; a negative limit means no limit. *)
Definition limit {A} (n : Z) (l : list A) : list A :=
  if decide (n < 0) then l else take (Z.to_nat n) l.

(** SELECT idx, etag, state FROM upload_parts WHERE upload_id = ? ORDER BY idx *)
Definition parts_of (id : string) (d : DB) : list Part :=
  order_by (fun a b => bool_decide (Index a <= Index b))
    (omap (fun '((u, i), (e, s)) => if decide (u = id) then Some (MkPart i e s) else None)
       (map_to_list (upload_parts d))).

(** uploadMutationState: the row's state, or purging for a discarded id. *)
Definition uploadMutationState (id : string) (d : DB) : option State :=
  match row_of id d with
  | Some r => Some (r_state r)
  | None => match upload_discarded d !! id with Some _ => Some StatePurging | None => None end
  end.

Definition guardNotPurging (id : string) : Tx DB jerr unit := fun d =>
  match uploadMutationState id d with
  | Some StatePurging => Err ErrUploadPurging
  | _ => Ok (tt, d)
  end.

Definition guardNotCancelled (id : string) : Tx DB jerr unit := fun d =>
  match uploadMutationState id d with
  | Some StatePurging => Err ErrUploadPurging
  | Some StateCancelled | Some StateCancelling => Err ErrCancelled
  | _ => Ok (tt, d)
  end.
