(* ===== verification/JournalQueue.v ===== *)
(** * The upload queue (internal/journal/journal.go, publication.go, list.go)

    One definition per method of [Journal] that reads or changes the queue, in
    the order of the source.  A method is an [Op] on [jstate]; its
    transaction body is a [Tx] on [DB] of its own when other definitions or
    theorems need it. *)
From S2P Require Import Prelude Filepath JournalState.
Import Filepath.
Open Scope Z_scope.

Definition now_of : Op jstate jerr Z := fun s => (Ok (now s), s).
Definition fs_of : Op jstate jerr FS := fun s => (Ok (fsys s), s).
Definition require (b : bool) (e : jerr) : Op jstate jerr unit := if b then oret tt else ofail e.
Definition trequire (b : bool) (e : jerr) : Tx DB jerr unit := if b then tret tt else tfail e.

Fixpoint contains_nul (s : string) : bool :=
  match s with
  | EmptyString => false
  | String c s' => bool_decide (c = Ascii.zero) || contains_nul s'
  end.

Section Queue.
Context {cfg : Config}.

(** ** Committing a row *)

(** releaseStagedObject: drop one staging reservation if it is this one. *)
Definition releaseStagedObject (id blob : string) : Op jstate jerr unit := fun s =>
  if decide (id = "") then (Ok tt, s)
  else if decide (stagedObjects s !! id = Some (abs blob)) then
    let n := default 0 (stagedRefs s !! abs blob) - 1 in
    (Ok tt, s <| stagedObjects ::= delete id |>
              <| stagedRefs ::= fun m => if decide (n = 0) then delete (abs blob) m
                                         else <[abs blob := n]> m |>)
  else (Ok tt, s).

(** checkCopyUploadOwner: a payload under copies/ needs its job record. *)
Definition checkCopyUploadOwner (blob : string) : Tx DB jerr unit := fun d =>
  let p := abs blob in
  if decide (Dir p = abs (Join [cfg_dir; "copies"])) then
    let id := TrimSuffix (Base p) ".part" in
    match copyPath id with
    | Some want =>
        if decide (p = want) then
          match copy_jobs d !! id with Some _ => Ok (tt, d) | None => Err ErrCopyState end
        else Err ErrCopyCorrupt
    | None => Err ErrCopyCorrupt
    end
  else Ok (tt, d).

(** checkDiscardedPayload: a payload once discarded must have been staged again. *)
Definition checkDiscardedPayload (f : FS) (blob : string) : Tx DB jerr unit := fun d =>
  let p := abs blob in
  if decide (map_Forall (fun _ v => snd v <> p) (upload_discarded d)) then Ok (tt, d)
  else match Stat f p with
       | Ok info => if decide (fi_kind info = KRegular) then Ok (tt, d) else Err ErrUploadPurging
       | Err _ => Err ErrUploadPurging
       end.

Definition bindings (u : Upload) : list string :=
  [MetaIdentity u; MountPrefix u; MountRootID u; AccountBinding u].
Definition bad_binding (v : string) : bool :=
  (8192 <? Z.of_nat (String.length v)) || contains_nul v.

(** insertUploadTx: guards, defaults, then INSERT ... ON CONFLICT(id) DO
    UPDATE.  A conflicting row keeps its rowid, attempt, retry time, error,
    session, creation time, tombstone and done_at. *)
Definition insertUploadTx (f : FS) (t : Z) (u : Upload) : Tx DB jerr unit :=
  do! guardNotCancelled (ID u);
  do! trequire (bool_decide (UState u <> StatePurging)) ErrUploadCleanupState;
  do! checkCopyUploadOwner (BlobPath u);
  do! checkDiscardedPayload f (BlobPath u);
  do! trequire (bool_decide (ID u <> "")) (ErrInvalid "upload needs an id");
  let state := if decide (UState u = StateUnset) then StatePending else UState u in
  let created := match CreatedAt u with None => t | Some c => c end in
  do! trequire (negb (existsb bad_binding (bindings u))) (ErrInvalid "invalid upload binding");
  let bound := length (filter (fun v => v <> "") (bindings u)) in
  do! trequire (bool_decide (bound = 0%nat \/ bound = 4%nat)) (ErrInvalid "incomplete upload binding");
  fun d =>
    match row_of (ID u) d with
    | Some _ =>
        Ok (tt, upd_id (ID u) (fun r =>
          r <| r_remote := Remote u |> <| r_parent := RemoteParentID u |> <| r_name := Name u |>
            <| r_blob := BlobPath u |> <| r_size := Size u |> <| r_hashes := Hashes u |>
            <| r_state := state |> <| r_expected := ExpectedVersion u |> <| r_ino := Ino u |>
            <| r_needs_publish := NeedsPublish u |> <| r_meta := MetaIdentity u |>
            <| r_prefix := MountPrefix u |> <| r_root := MountRootID u |>
            <| r_account := AccountBinding u |>) d)
    | None =>
        let r := MkRow (next_rowid d) (ID u) (Remote u) (RemoteParentID u) (Name u) (BlobPath u)
                   (Size u) (Hashes u) state (Attempt u) (unixMilli (NextRetryAt u)) (LastError u)
                   (ExpectedVersion u) (Session u) (Ino u) (unix created) false (NeedsPublish u)
                   (MetaIdentity u) (MountPrefix u) (MountRootID u) (AccountBinding u) 0 in
        Ok (tt, d <| uploads ::= fun l => l ++ [r] |>)
    end.

(** ** Reading *)

Definition Get (id : string) : Op jstate jerr Upload := fun s =>
  match row_of id (db s) with
  | Some r => (Ok (scanUpload r), s)
  | None => (Err ErrNotFound, s)
  end.

Definition claimable (remote : string) (t : Z) (r : Row) : Prop :=
  r_remote r = remote /\ r_state r = StatePending /\ r_next_retry r <= unixMilli (Some t)
  /\ r_needs_publish r = false.
#[export] Instance claimable_dec remote t r : Decision (claimable remote t r).
Proof. unfold claimable. apply _. Defined.

(** Claim: the oldest due rows of a remote, marked uploading. *)
Definition claimTx (remote : string) (t : Z) (n : Z) : Tx DB jerr (list Upload) := fun d =>
  let out := limit n (sel (claimable remote t) d) in
  let d' := fold_left (fun acc r => upd_id (r_id r) (fun r => r <| r_state := StateUploading |>) acc)
              out d in
  Ok (map (fun r => (scanUpload r) <| UState := StateUploading |>) out, d').

Definition Claim (remote : string) (n : Z) : Op jstate jerr (list Upload) :=
  let* t := now_of in tx (claimTx remote t n).

(** The rows [... AND rowid > (SELECT rowid FROM uploads WHERE id = ?)]. *)
Definition newer_than (id : string) (d : DB) (r : Row) : Prop :=
  match rowid_of id d with Some k => k < rowid r | None => False end.
Definition older_than (id : string) (d : DB) (r : Row) : Prop :=
  match rowid_of id d with Some k => rowid r < k | None => False end.
#[export] Instance newer_than_dec id d r : Decision (newer_than id d r).
Proof. unfold newer_than. destruct (rowid_of id d); apply _. Defined.
#[export] Instance older_than_dec id d r : Decision (older_than id d r).
Proof. unfold older_than. destruct (rowid_of id d); apply _. Defined.

Definition Superseded (u : Upload) (d : DB) : bool :=
  if decide (Ino u = 0 \/ Tombstoned u = true) then false
  else bool_decide (sel (fun r => r_remote r = Remote u /\ r_ino r = Ino u /\ r_tombstone r = false
                                  /\ newer_than (ID u) d r) d <> []).

Definition OlderInFlight (u : Upload) (d : DB) : bool :=
  if decide (Ino u = 0 \/ Tombstoned u = true) then false
  else bool_decide (sel (fun r => r_remote r = Remote u /\ r_ino r = Ino u /\ r_tombstone r = false
                                  /\ (r_state r = StatePending \/ r_state r = StateUploading
                                      \/ r_state r = StateCancelling)
                                  /\ older_than (ID u) d r) d <> []).

Definition by_created (a b : Row) : bool := r_created a <=? r_created b.

Definition Pending (d : DB) : list Upload :=
  map scanUpload (order_by by_created
    (sel (fun r => r_state r = StatePending \/ r_state r = StateUploading) d)).
Definition Dead (d : DB) : list Upload :=
  map scanUpload (order_by by_created (sel (fun r => r_state r = StateDead) d)).
Definition All (d : DB) : list Upload := map scanUpload (order_by by_created (uploads d)).

Definition Remotes (d : DB) : list string :=
  remove_dups (map r_remote (sel (fun r => r_state r = StatePending \/ r_state r = StateUploading) d)).

Definition ByIno (ino : Z) (d : DB) : list Upload :=
  map scanUpload (order_by by_created
    (sel (fun r => r_ino r = ino /\ (r_state r = StatePending \/ r_state r = StateUploading
            \/ r_state r = StateCancelling \/ r_state r = StateCancelled
            \/ r_state r = StatePurging)) d)).

Definition Unpublished (d : DB) : list Upload :=
  map scanUpload (sel (fun r => r_needs_publish r = true /\ r_state r = StatePending) d).

Definition active (r : Row) : Prop :=
  r_state r = StatePending \/ r_state r = StateUploading \/ r_state r = StateDead
  \/ r_state r = StateCancelling \/ r_state r = StateCancelled \/ r_state r = StatePurging.
#[export] Instance active_dec r : Decision (active r).
Proof. unfold active. apply _. Defined.

Definition by_id (a b : Row) : bool := String.leb (r_id a) (r_id b).

(** ListActive: one page of unfinished uploads after a cursor id. *)
Definition ListActive (after : string) (lim : Z) (d : DB) : res jerr (list Upload * string) :=
  if decide (lim < 1 \/ 1000 < lim) then Err (ErrInvalid "list limit")
  else
    let rows := limit (lim + 1)
                  (order_by by_id (sel (fun r => active r /\ String.ltb after (r_id r) = true) d)) in
    if decide (lim < Z.of_nat (length rows)) then
      let page := take (Z.to_nat lim) rows in
      Ok (map scanUpload page, match last page with Some r => r_id r | None => "" end)
    else Ok (map scanUpload rows, "").

(** ** Transitions *)

Definition retargetTx (id parent name : string) : Tx DB jerr unit :=
  do! guardNotCancelled id;
  fun d =>
    if decide (sel (fun r => r_id r = id /\ r_state r = StatePending) d = []) then Err ErrNotFound
    else Ok (tt, upd_rows (fun r => r_id r = id /\ r_state r = StatePending)
                   (fun r => r <| r_parent := parent |> <| r_name := name |>) d).
Definition Retarget (id parent name : string) : Op jstate jerr unit := tx (retargetTx id parent name).

Definition setSessionTx (id : string) (session : gmap string string) : Tx DB jerr unit :=
  do! guardNotPurging id;
  tmodify (upd_id id (fun r => r <| r_session := session |>)).
Definition SetSession (id : string) (session : gmap string string) : Op jstate jerr unit :=
  tx (setSessionTx id session).

Definition recordPartTx (id : string) (p : Part) : Tx DB jerr unit :=
  let st := if decide (PState p = "") then "done" else PState p in
  do! guardNotPurging id;
  tmodify (fun d => d <| upload_parts ::= <[(id, Index p) := (ETag p, st)]> |>).
Definition RecordPart (id : string) (p : Part) : Op jstate jerr unit := tx (recordPartTx id p).

Definition Parts (id : string) (d : DB) : list Part := parts_of id d.

Definition doneHistory : nat := 200.
Definition doneRetention : Z := 5 * Minute.

(** ORDER BY done_at DESC, id DESC *)
Definition recent_first (a b : Row) : bool :=
  (r_done_at b <? r_done_at a)
  || ((r_done_at a =? r_done_at b) && String.leb (r_id b) (r_id a)).

Definition recent_done (d : DB) : list Row :=
  take doneHistory (order_by recent_first
    (sel (fun r => r_state r = StateDone /\ 0 < r_done_at r) d)).

Definition prunable (before : Z) (d : DB) (r : Row) : Prop :=
  r_state r = StateDone /\ 0 < r_done_at r /\ r_done_at r < before
  /\ r_id r ∉ map r_id (recent_done d) /\ upload_cleanup d !! r_id r = None.
#[export] Instance prunable_dec before d r : Decision (prunable before d r).
Proof. unfold prunable. apply _. Defined.

(** pruneDoneTx: reclaim completed rows past both bounds, with their side rows. *)
Definition pruneDoneTx (before : Z) : Tx DB jerr unit := fun d =>
  let victims := map r_id (sel (prunable before d) d) in
  Ok (tt, fold_left (fun d id => del_history id (del_cancellation id
                                   (del_dead id (del_parts id (del_id id d))))) victims d).

Definition succeedTx (t : Z) (id : string) : Tx DB jerr string :=
  do! guardNotCancelled id;
  let! d := tget in
  match row_of id d with
  | None => tfail ErrNotFound
  | Some r =>
      do! tmodify (upd_id id (fun r => r <| r_state := StateDone |> <| r_last_error := "" |>
                                        <| r_blob := "" |> <| r_done_at := unixMilli (Some t) |>));
      do! tmodify (del_parts id);
      do! pruneDoneTx (unixMilli (Some (t - doneRetention)));
      tret (r_blob r)
  end.

(** uploadBlobReferenced: does another row name this file, by path or inode? *)
Definition references (f : FS) (exclude path : string) (info : option FileInfo) (r : Row) : Prop :=
  (exclude = "" \/ r_id r <> exclude) /\ r_blob r <> ""
  /\ (abs (r_blob r) = path
      \/ match info, Stat f (r_blob r) with
         | Some i, Ok o => fi_ino i = fi_ino o
         | _, _ => False
         end).
#[export] Instance references_dec f ex p i r : Decision (references f ex p i r).
Proof. unfold references. destruct i, (Stat f (r_blob r)); apply _. Defined.

(** A row examined before any match whose file cannot be examined aborts. *)
Definition unreadable (f : FS) (exclude path : string) (info : option FileInfo) (r : Row) : Prop :=
  (exclude = "" \/ r_id r <> exclude) /\ r_blob r <> "" /\ abs (r_blob r) <> path
  /\ match info, Stat f (r_blob r) with Some _, Err EIO => True | _, _ => False end.
#[export] Instance unreadable_dec f ex p i r : Decision (unreadable f ex p i r).
Proof.
  unfold unreadable. destruct i, (Stat f (r_blob r)) as [|[|]]; apply _.
Defined.

Fixpoint blob_scan (f : FS) (exclude path : string) (info : option FileInfo) (l : list Row)
  : res jerr bool :=
  match l with
  | [] => Ok false
  | r :: l' =>
      if decide (references f exclude path info r) then Ok true
      else if decide (unreadable f exclude path info r) then Err (ErrIO "stat")
      else blob_scan f exclude path info l'
  end.

Definition uploadBlobReferenced (f : FS) (exclude path : string) (info : option FileInfo) (d : DB)
  : res jerr bool := blob_scan f exclude path info (uploads d).

(** Is a copy job (or a pending cleanup of it) still owner of the payload? *)
Definition copy_holds (id : string) (d : DB) : Prop :=
  match copy_jobs d !! id with Some c => c_state c <> CopySubmitted | None => False end
  \/ is_Some (copy_cleanup d !! id).
#[export] Instance copy_holds_dec id d : Decision (copy_holds id d).
Proof. unfold copy_holds. destruct (copy_jobs d !! id); apply _. Defined.

(** Which payload a path may be: a copy job's private file, a committed
    object, or nothing the journal may unlink. *)
Inductive blob_class := CopyPayload (id : string) | ObjectPayload | ForeignPath.

Definition classify_blob (p : string) : blob_class :=
  if decide (Dir p = abs (Join [cfg_dir; "copies"])) then
    let id := TrimSuffix (Base p) ".part" in
    if decide (copyPath id = Some p) then CopyPayload id else ForeignPath
  else if decide (Dir p = abs ObjectsDir) then ObjectPayload else ForeignPath.

Definition blob_held (c : blob_class) (d : DB) : bool :=
  match c with
  | CopyPayload id => bool_decide (copy_holds id d)
  | ObjectPayload => false
  | ForeignPath => true
  end.

(** removeBlobIfUnreferenced: unlink a blob only when it is a private payload
    that no staging reservation, row, copy job or copy cleanup still needs. *)
Definition removeBlobIfUnreferenced (blob : string) : Op jstate jerr unit := fun s =>
  let p := abs blob in
  if decide (blob = "") then (Ok tt, s) else
  match classify_blob p with
  | ForeignPath => (Ok tt, s)
  | c =>
      if decide (0 < default 0 (stagedRefs s !! p)) then (Ok tt, s) else
      match Stat (fsys s) p with
      | Err _ => (Ok tt, s)
      | Ok info =>
          match uploadBlobReferenced (fsys s) "" p (Some info) (db s) with
          | Ok false =>
              if blob_held c (db s) then (Ok tt, s)
              else match Remove (fsys s) p with
                   | Ok f => (Ok tt, s <| fsys := f |>)
                   | Err _ => (Ok tt, s)
                   end
          | _ => (Ok tt, s)
          end
      end
  end.

(** Succeed: mark done, release the queue's hold on the blob. *)
Definition Succeed (id : string) : Op jstate jerr unit :=
  let* t := now_of in
  let* blob := tx (succeedTx t id) in
  removeBlobIfUnreferenced blob.

Definition retryTx (t : Z) (id msg : string) (delay : Z) : Tx DB jerr unit :=
  do! guardNotCancelled id;
  tmodify (upd_id id (fun r => r <| r_state := StatePending |> <| r_attempt := r_attempt r + 1 |>
             <| r_next_retry := unixMilli (Some (t + delay)) |> <| r_last_error := msg |>)).
Definition Retry (id msg : string) (delay : Z) : Op jstate jerr unit :=
  let* t := now_of in tx (retryTx t id msg delay).

Definition deferTx (t : Z) (id : string) (delay : Z) (why : string) : Tx DB jerr unit :=
  do! guardNotCancelled id;
  tmodify (upd_id id (fun r => r <| r_state := StatePending |>
             <| r_next_retry := unixMilli (Some (t + delay)) |> <| r_last_error := why |>)).
Definition Defer (id : string) (delay : Z) (why : string) : Op jstate jerr unit :=
  let* t := now_of in tx (deferTx t id delay why).

Definition failTx (t : Z) (id msg : string) : Tx DB jerr unit :=
  do! guardNotCancelled id;
  do! tmodify (upd_id id (fun r => r <| r_state := StateDead |> <| r_last_error := msg |>));
  tmodify (fun d => d <| dead_letter ::= <[id := (msg, unix t)]> |>).
Definition Fail (id msg : string) : Op jstate jerr unit :=
  let* t := now_of in tx (failTx t id msg).

Definition requeueTx (id : string) : Tx DB jerr unit :=
  do! guardNotPurging id;
  let! d := tget in
  match row_of id d with
  | None => tfail ErrNotFound
  | Some r =>
      match r_state r with
      | StateUploading => tfail ErrInFlight
      | StateCancelled | StateCancelling => tfail ErrCancelled
      | StateDead =>
          do! tmodify (upd_id id (fun r => r <| r_state := StatePending |> <| r_attempt := 0 |>
                         <| r_next_retry := 0 |> <| r_last_error := "" |>));
          tmodify (del_dead id)
      | _ => tfail ErrNotDead
      end
  end.
Definition Requeue (id : string) : Op jstate jerr unit := tx (requeueTx id).

(** The three deletes shared by dropIdle and Drop. *)
Definition drop_tables (id : string) (d : DB) : DB := del_dead id (del_parts id (del_id id d)).

Definition dropIdleTx (id : string) (pendingOnly : bool) : Tx DB jerr string :=
  do! guardNotPurging id;
  let! d := tget in
  match row_of id d with
  | None => tfail ErrNotFound
  | Some r =>
      match r_state r with
      | StateUploading | StateCancelling => tfail ErrInFlight
      | StateCancelled => tfail ErrCancelled
      | st =>
          if decide (pendingOnly = true /\ st <> StatePending) then tfail errNotPending
          else if decide (st = StatePending \/ st = StateDead \/ st = StateDone) then
            do! tmodify (drop_tables id); tret (r_blob r)
          else tfail (ErrInvalid "cannot discard upload state")
      end
  end.
Definition dropIdle (id : string) (pendingOnly : bool) : Op jstate jerr unit :=
  let* blob := tx (dropIdleTx id pendingOnly) in removeBlobIfUnreferenced blob.
Definition DropPending (id : string) : Op jstate jerr unit := dropIdle id false.

(** The snapshot DropSuperseded starts from. *)
Definition superseded_ids (remote : string) (ino : Z) (keepID : string) (d : DB) : list string :=
  map r_id (sel (fun r => r_remote r = remote /\ r_ino r = ino /\ r_state r = StatePending
                          /\ r_tombstone r = false /\ older_than keepID d r) d).

Fixpoint dropAll (ids : list string) (dropped : Z) : Op jstate jerr Z :=
  match ids with
  | [] => oret dropped
  | id :: ids' =>
      let* r := otry (dropIdle id true) in
      match r with
      | Ok _ => dropAll ids' (dropped + 1)
      | Err ErrNotFound | Err ErrInFlight | Err errNotPending | Err ErrCancelled => dropAll ids' dropped
      | Err e => ofail e
      end
  end.

Definition DropSuperseded (remote : string) (ino : Z) (keepID : string) : Op jstate jerr Z :=
  if decide (ino = 0) then oret 0
  else let* ids := query (superseded_ids remote ino keepID) in dropAll ids 0.

Definition dropTx (id : string) : Tx DB jerr unit :=
  do! guardNotCancelled id; tmodify (drop_tables id).
Definition Drop (id : string) : Op jstate jerr unit :=
  let* u := Get id in
  do* tx (dropTx id);
  removeBlobIfUnreferenced (BlobPath u).

Definition tombstoneTx (id : string) : Tx DB jerr unit :=
  do! guardNotCancelled id;
  fun d => match row_of id d with
           | None => Err ErrNotFound
           | Some _ => Ok (tt, upd_id id (fun r => r <| r_tombstone := true |>) d)
           end.
Definition Tombstone (id : string) : Op jstate jerr unit := tx (tombstoneTx id).

Definition Purge (age : Z) : Op jstate jerr Z :=
  let* t := now_of in
  let* ids := query (fun d => map r_id (sel (fun r => r_state r = StateDone
                                               /\ r_created r < unix (t - age)) d)) in
  do* oforeach ids Drop;
  oret (Z.of_nat (length ids)).

(** ** Publication barrier *)

Definition markPublishedTx (id : string) : Tx DB jerr unit :=
  do! guardNotPurging id;
  fun d => match row_of id d with
           | None => Err ErrNotFound
           | Some _ => Ok (tt, upd_id id (fun r => r <| r_needs_publish := false |>) d)
           end.
Definition MarkPublished (id : string) : Op jstate jerr unit :=
  do* require cfg_owner ErrNotOwner; tx (markPublishedTx id).

(** ** Statistics *)

Record Stats := MkStats {
  st_Pending : Z; st_Uploading : Z; st_Dead : Z; st_Done : Z; st_Cancelling : Z;
  st_Cancelled : Z; st_Purging : Z; st_RetainedBytes : Z; st_Bytes : Z; st_OldestAge : Z
}.

Definition in_state (st : State) (d : DB) : list Row := sel (fun r => r_state r = st) d.
Definition count_state (st : State) (d : DB) : Z := Z.of_nat (length (in_state st d)).
Definition sum_size (l : list Row) : Z := foldr (fun r acc => r_size r + acc) 0 l.
(** COALESCE(MIN(created_at), 0) *)
Definition min_created (l : list Row) : Z :=
  match l with
  | [] => 0
  | r :: l' => foldr (fun r acc => Z.min (r_created r) acc) (r_created r) l'
  end.
Definition age_of (t : Z) (oldest : Z) (acc : Z) : Z :=
  if decide (0 < oldest) then Z.max acc (t - oldest * Second) else acc.

Definition stats_of (t : Z) (d : DB) : Stats :=
  MkStats (count_state StatePending d) (count_state StateUploading d) (count_state StateDead d)
    (count_state StateDone d) (count_state StateCancelling d) (count_state StateCancelled d)
    (count_state StatePurging d)
    (sum_size (in_state StateCancelling d) + sum_size (in_state StateCancelled d)
     + sum_size (in_state StatePurging d))
    (sum_size (in_state StatePending d) + sum_size (in_state StateUploading d))
    (age_of t (min_created (in_state StateUploading d))
       (age_of t (min_created (in_state StatePending d)) 0)).
End Queue.
