(* ===== verification/JournalAdmin.v ===== *)
(** * Stopping, resuming and discarding uploads
    (internal/journal/cancel.go, resume_upload.go, cleanup_upload.go)

    Cancellation is durable and versioned by [upload_cancellation.revision];
    resuming is a compare-and-set on that revision; discarding goes through a
    durable intent ([upload_cleanup]) and leaves a permanent receipt
    ([upload_discarded]). *)
From S2P Require Import Prelude Filepath JournalState JournalQueue.
Import Filepath.
Open Scope Z_scope.

Section Admin.
Context {cfg : Config}.

(** ** Cancellation *)

Definition cancelled_text : string :=
  "journal: upload cancelled; retained content and remote result require explicit management".

(** The state a stop moves an upload to. *)
Definition cancel_target (st : State) : option State :=
  match st with
  | StateCancelled => Some StateCancelled
  | StateCancelling => Some StateCancelling
  | StatePending | StateDead => Some StateCancelled
  | StateUploading => Some StateCancelling
  | _ => None
  end.

Definition requestCancelTx (id : string) : Tx DB jerr State := fun d =>
  match row_of id d with
  | None => Err ErrNotFound
  | Some r =>
      if decide (r_tombstone r = true \/ r_state r = StateDone) then Err ErrCannotCancel
      else match cancel_target (r_state r) with
           | None => Err ErrCannotCancel
           | Some st =>
               let rev := match upload_cancellation d !! id with Some n => n + 1 | None => 1 end in
               Ok (st, upd_id id (fun r => r <| r_state := st |> <| r_last_error := cancelled_text |>)
                         (d <| upload_cancellation ::= <[id := rev]> |>))
           end
  end.
Definition RequestCancel (id : string) : Op jstate jerr State :=
  do* require cfg_owner ErrNotOwner; tx (requestCancelTx id).

Definition finishCancelTx (id : string) : Tx DB jerr unit :=
  tmodify (upd_rows (fun r => r_id r = id /\ r_state r = StateCancelling)
             (fun r => r <| r_state := StateCancelled |>)).
Definition FinishCancel (id : string) : Op jstate jerr unit :=
  do* require cfg_owner ErrNotOwner; tx (finishCancelTx id).

(** ** Resume *)

Record UploadBinding := MkBinding {
  b_MetaIdentity : string; b_MountPrefix : string; b_MountRootID : string;
  b_AccountBinding : string
}.

Record PreparedUploadResume := MkPrepared { p_u : Upload; p_revision : Z }.

Definition revision_of (id : string) (d : DB) : Z := default 0 (upload_cancellation d !! id).

Definition prepareResumeTx (id : string) : Tx DB jerr PreparedUploadResume := fun d =>
  match row_of id d with
  | None => Err ErrNotFound
  | Some r =>
      if decide (r_state r <> StateCancelled \/ r_tombstone r = true) then Err ErrResumeChanged
      else Ok (MkPrepared (scanUpload r) (revision_of id d), d)
  end.

(** The retained object is a private payload, a regular file of the recorded
    size, and its checksum is the recorded one. *)
Definition resume_content_ok (f : FS) (u : Upload) : bool :=
  let p := abs (BlobPath u) in
  (bool_decide (Dir p = abs ObjectsDir) || bool_decide (copyPath (ID u) = Some p))
  && match Stat f p with
     | Ok info => bool_decide (fi_kind info = KRegular) && (fi_size info =? Size u)
     | Err _ => false
     end
  && match ReadFile f p with
     | None => false
     | Some data =>
         let want := default "" (Hashes u !! "crc32c") in
         bool_decide (want <> "") && bool_decide (crc32c data = want)
     end.

Definition PrepareUploadResume (id : string) : Op jstate jerr PreparedUploadResume :=
  do* require cfg_owner ErrNotOwner;
  let* p := tx (prepareResumeTx id) in
  let* f := fs_of in
  do* require (resume_content_ok f (p_u p)) ErrResumeContent;
  oret p.

Definition same_target (r : Row) (u : Upload) : Prop :=
  r_blob r = BlobPath u /\ r_size r = Size u /\ r_ino r = Ino u /\ r_remote r = Remote u
  /\ r_name r = Name u /\ r_parent r = RemoteParentID u.

Definition resumeTx (p : PreparedUploadResume) (binding : option UploadBinding) : Tx DB jerr unit :=
  fun d =>
    let id := ID (p_u p) in
    match row_of id d with
    | None => Err ErrResumeChanged
    | Some r =>
        let rev := revision_of id d in
        if decide (r_state r <> StateCancelled \/ r_tombstone r = true \/ rev <> p_revision p
                   \/ ~ same_target r (p_u p))
        then Err ErrResumeChanged
        else if decide (r_ino r <> 0
                        /\ sel (fun r' => r_remote r' = r_remote r /\ r_ino r' = r_ino r
                                          /\ newer_than id d r') d <> [])
        then Err ErrResumeChanged
        else match upload_resume_history d !! (id, rev) with
             | Some _ => Err ErrUniqueConstraint
             | None =>
                 let d1 := d <| upload_resume_history ::= <[(id, rev) := (scanUpload r, parts_of id d)]> |> in
                 let d2 := del_dead id (del_parts id d1) in
                 Ok (tt, upd_id id (fun r =>
                     let r := r <| r_state := StatePending |> <| r_attempt := 0 |>
                                <| r_next_retry := 0 |> <| r_last_error := "" |> <| r_session := ∅ |> in
                     match binding with
                     | None => r
                     | Some b => r <| r_meta := b_MetaIdentity b |> <| r_prefix := b_MountPrefix b |>
                                   <| r_root := b_MountRootID b |> <| r_account := b_AccountBinding b |>
                     end) d2)
             end
    end.

Definition CommitResume (p : PreparedUploadResume) : Op jstate jerr unit := tx (resumeTx p None).

Definition binding_values (b : UploadBinding) : list string :=
  [b_MetaIdentity b; b_MountPrefix b; b_MountRootID b; b_AccountBinding b].

Definition CommitBound (p : PreparedUploadResume) (b : UploadBinding) : Op jstate jerr unit :=
  do* require (forallb (fun v => negb (bool_decide (v = "") || bad_binding v)) (binding_values b))
        ErrResumeChanged;
  tx (resumeTx p (Some b)).

(** ** Discarding a stopped upload *)

Record UploadCleanup := MkCleanup { cl_Upload : Upload; cl_MetaIdentity : string; cl_BlobPath : string }.

Definition validCleanupIdentity (id : string) : bool :=
  bool_decide (id <> "") && (Z.of_nat (String.length id) <=? 256) && negb (contains_nul id).

Definition cleanupUploadPath (u : Upload) : res jerr string :=
  if decide (BlobPath u = "") then Err ErrUploadCleanupContent
  else let p := abs (BlobPath u) in
       if decide (Dir p = abs ObjectsDir) then Ok p
       else if decide (copyPath (ID u) = Some p) then Ok p else Err ErrUploadCleanupContent.

(** uploadCleanupTx: the intent of an upload already in cleanup. *)
Definition uploadCleanupTx (id meta : string) (d : DB) : res jerr UploadCleanup :=
  match upload_cleanup d !! id with
  | None => Err ErrNotFound
  | Some (m, blob) =>
      if decide (m <> meta \/ validCleanupIdentity meta = false) then Err ErrUploadCleanupIdentity
      else match row_of id d with
           | None => Err (ErrInvalid "sql: no rows in result set")
           | Some r =>
               if decide (r_state r <> StatePurging \/ r_tombstone r = true) then Err ErrUploadCleanupState
               else match cleanupUploadPath (scanUpload r) with
                    | Ok p => if decide (p = blob) then Ok (MkCleanup (scanUpload r) m blob)
                              else Err ErrUploadCleanupContent
                    | Err _ => Err ErrUploadCleanupContent
                    end
           end
  end.

Definition purging_text : string := "local cleanup pending; remote result is not reconciled".

Definition beginCleanupTx (id meta : string) : Tx DB jerr UploadCleanup := fun d =>
  match row_of id d with
  | None => Err ErrNotFound
  | Some r =>
      if decide (r_state r = StatePurging) then
        match uploadCleanupTx id meta d with Ok c => Ok (c, d) | Err e => Err e end
      else if decide (r_state r <> StateCancelled \/ r_tombstone r = true) then Err ErrUploadCleanupState
      else match cleanupUploadPath (scanUpload r) with
           | Err e => Err e
           | Ok p =>
               match upload_cleanup d !! id with
               | Some _ => Err ErrUniqueConstraint
               | None =>
                   let d' := upd_id id (fun r => r <| r_state := StatePurging |> <| r_last_error := purging_text |>)
                               (d <| upload_cleanup ::= <[id := (meta, p)]> |>) in
                   Ok (MkCleanup ((scanUpload r) <| UState := StatePurging |> <| LastError := purging_text |>)
                         meta p, d')
               end
           end
  end.
Definition BeginUploadCleanup (id meta : string) : Op jstate jerr UploadCleanup :=
  do* require cfg_owner ErrNotOwner;
  do* require (validCleanupIdentity meta) ErrUploadCleanupIdentity;
  tx (beginCleanupTx id meta).

Definition UploadCleanupIdentity (id : string) (d : DB) : res jerr string :=
  match upload_cleanup d !! id with Some (m, _) => Ok m | None => Err ErrNotFound end.

(** uploadCleanupShared: does anything but the upload being discarded still
    need its payload? *)
Definition uploadCleanupShared (s : jstate) (c : UploadCleanup) (info : option FileInfo) : res jerr bool :=
  let id := ID (cl_Upload c) in
  if decide (0 < default 0 (stagedRefs s !! cl_BlobPath c)) then Ok true
  else match uploadBlobReferenced (fsys s) id (cl_BlobPath c) info (db s) with
       | Err e => Err e
       | Ok true => Ok true
       | Ok false =>
           Ok (bool_decide (copyPath id = Some (cl_BlobPath c)) && bool_decide (copy_holds id (db s)))
       end.

(** The rows FinishUploadCleanup writes once the payload is settled. *)
Definition discard_tables (id meta p : string) (d : DB) : DB :=
  let d := d <| upload_discarded ::= <[id := (meta, p)]> |> in
  let d := del_id id (del_cancellation id (del_history id (del_dead id (del_parts id d)))) in
  d <| upload_cleanup ::= delete id |>.

(** Unlink the payload and make the removal durable. *)
Definition unlink_payload (p : string) : Op jstate jerr unit := fun s =>
  let after (s : jstate) :=
    if decide (cfg_durability = DurabilityPower) then
      if SyncDir (Dir p) then (Ok tt, s) else (Err (ErrIO "sync"), s)
    else (Ok tt, s) in
  match Remove (fsys s) p with
  | Ok f => after (s <| fsys := f |>)
  | Err ENOENT => after s
  | Err EIO => (Err (ErrIO "remove"), s)
  end.

Definition finishCleanupBody (id meta : string) : Op jstate jerr unit := fun s =>
  match uploadCleanupTx id meta (db s) with
  | Err ErrNotFound =>
      match upload_discarded (db s) !! id with
      | None => (Err ErrNotFound, s)
      | Some (saved, _) => if decide (saved = meta) then (Ok tt, s) else (Err ErrUploadCleanupIdentity, s)
      end
  | Err e => (Err e, s)
  | Ok c =>
      let p := cl_BlobPath c in
      match Stat (fsys s) (Dir p) with
      | Err _ => (Err (ErrIO "stat"), s)
      | Ok parent =>
          if decide (fi_kind parent <> KDir) then (Err ErrUploadCleanupContent, s)
          else
            let finish (info : option FileInfo) :=
              match uploadCleanupShared s c info with
              | Err e => (Err e, s)
              | Ok shared =>
                  (do* (if shared then oret tt else unlink_payload p);
                   fun s => match upload_discarded (db s) !! id with
                            | Some _ => (Err ErrUniqueConstraint, s)
                            | None => (Ok tt, s <| db ::= discard_tables id meta p |>)
                            end) s
              end in
            match Stat (fsys s) p with
            | Err EIO => (Err (ErrIO "stat"), s)
            | Err ENOENT => finish None
            | Ok info => if decide (fi_kind info = KRegular) then finish (Some info)
                         else (Err ErrUploadCleanupContent, s)
            end
      end
  end.
Definition FinishUploadCleanup (id meta : string) : Op jstate jerr unit :=
  do* require cfg_owner ErrNotOwner;
  do* require (validCleanupIdentity meta) ErrUploadCleanupIdentity;
  tx_fs (finishCleanupBody id meta).
End Admin.
