(* ===== verification/Staging.v ===== *)
(** * Staging files (internal/journal/staging.go)

    A write handle's bytes land in a private file while the digests the
    backend wants are computed on the fly; the streaming state is abandoned as
    soon as a write is not sequential and the digests are then recomputed from
    the file.  A [hash.Hash] is modelled by the bytes written to it so far, and
    its [Sum] by [digest] of those bytes. *)
From S2P Require Import Prelude Filepath JournalState JournalQueue.
Import Filepath.
Open Scope Z_scope.

Definition sliceMD5Bytes : Z := 262144.
Definition preSHA1Bytes : Z := 1024.
Definition MaxInt64 : Z := 9223372036854775807.

(** How a requested hash type is computed: over the whole content with an
    algorithm, or over a prefix of it. *)
Inductive hash_plan := FullHash (alg : string) | PrefixHash (alg : string) (cap : Z).

Definition plan_of (ht : string) : option hash_plan :=
  if decide (ht = "crc32c") then Some (FullHash "crc32c")
  else if decide (ht = "md5") then Some (FullHash "md5")
  else if decide (ht = "sha1") then Some (FullHash "sha1")
  else if decide (ht = "sha256") then Some (FullHash "sha256")
  else if decide (ht = "slice_md5") then Some (PrefixHash "md5" sliceMD5Bytes)
  else if decide (ht = "pre_sha1") then Some (PrefixHash "sha1" preSHA1Bytes)
  else None.

(** withCRC: the recovery checksum is always computed. *)
Definition withCRC (want : list string) : list string :=
  if decide ("crc32c" ∈ want) then want else want ++ ["crc32c"].

(** One running digest: its algorithm, its prefix cap, the bytes fed to it. *)
Record hasher := MkHasher { h_alg : string; h_cap : option Z; h_fed : list Z }.
#[export] Instance hasher_eta : Settable hasher := fun h => MkHasher (h_alg h) (h_cap h) (h_fed h).

Definition new_hasher (p : hash_plan) : hasher :=
  match p with
  | FullHash a => MkHasher a None []
  | PrefixHash a c => MkHasher a (Some c) []
  end.

(** The running digests of a want list; unknown types are skipped. *)
Fixpoint new_hashers (want : list string) : gmap string hasher :=
  match want with
  | [] => ∅
  | ht :: want' =>
      match plan_of ht with
      | Some p => <[ht := new_hasher p]> (new_hashers want')
      | None => new_hashers want'
      end
  end.

(** Feed a chunk that starts at [pos] of the content. *)
Definition feed (pos : Z) (chunk : list Z) (h : hasher) : hasher :=
  match h_cap h with
  | None => h <| h_fed ::= fun b => b ++ chunk |>
  | Some cap =>
      if decide (pos < cap) then
        let take_n := if decide (cap < pos + Z.of_nat (length chunk)) then cap - pos
                      else Z.of_nat (length chunk) in
        h <| h_fed ::= fun b => b ++ take (Z.to_nat take_n) chunk |>
      else h
  end.

(** Bytes of a file after a write of [bs] at [off]: a gap is a hole of zeros. *)
Definition write_bytes (data : list Z) (off : nat) (bs : list Z) : list Z :=
  take off (data ++ replicate (off - length data) 0) ++ bs ++ drop (off + length bs) data.

Definition truncate_bytes (data : list Z) (n : nat) : list Z :=
  take n data ++ replicate (n - length data) 0.

(** The handle; [st_data] is the content of the file behind its descriptor. *)
Record Staging := MkStaging {
  s_immutable : bool; s_ID : string; s_Path : string; s_data : list Z;
  s_size : Z; s_pos : Z; s_streaming : bool;
  s_hashers : gmap string hasher; s_want : list string
}.
#[export] Instance Staging_eta : Settable Staging := fun s =>
  MkStaging (s_immutable s) (s_ID s) (s_Path s) (s_data s) (s_size s) (s_pos s)
    (s_streaming s) (s_hashers s) (s_want s).

Inductive werr := EPERM | EINVAL | ENOSPC | EWrite.

Section StagingOps.
Context {cfg : Config}.

(** newStagingState, for the empty file NewStaging creates. *)
Definition newStagingState (id path : string) (want : list string) : Staging :=
  let want := withCRC want in
  MkStaging false id path [] 0 0 true (new_hashers want) want.

(** AdoptStaging: content predates the handle, so it is hashed at commit. *)
Definition AdoptStaging (path : string) (data : list Z) (want : list string) : Staging :=
  MkStaging false (Base path) path data (Z.of_nat (length data)) 0 false ∅ (withCRC want).

(** WriteAt.  [reserved]: space admission succeeded; [n], [failed]: how many
    bytes the write(2) accepted and whether it then reported an error. *)
Definition WriteAt (s : Staging) (p : list Z) (off : Z) (reserved : bool) (n : nat) (failed : bool)
  : (Z * option werr) * Staging :=
  if s_immutable s then ((0, Some EPERM), s)
  else if decide (off < 0 \/ MaxInt64 - off < Z.of_nat (length p)) then ((0, Some EINVAL), s)
  else if negb reserved then ((0, Some ENOSPC), s)
  else
    let werr := if failed then Some EWrite else None in
    let n := Nat.min n (length p) in
    if decide (n = 0%nat) then ((0, werr), s)
    else
      let chunk := take n p in
      let s1 := s <| s_data := write_bytes (s_data s) (Z.to_nat off) chunk |>
                  <| s_size ::= Z.max (off + Z.of_nat n) |> in
      let s2 := if s_streaming s && (off =? s_pos s) then
                  s1 <| s_hashers ::= fmap (feed (s_pos s) chunk) |>
                     <| s_pos ::= Z.add (Z.of_nat n) |>
                else s1 <| s_streaming := false |> in
      ((Z.of_nat n, werr), s2).

(** Truncate.  [ok]: ftruncate(2) succeeded. *)
Definition Truncate (s : Staging) (size : Z) (reserved ok : bool) : option werr * Staging :=
  if s_immutable s then (Some EPERM, s)
  else if decide (size < 0) then (Some EINVAL, s)
  else if negb reserved then (Some ENOSPC, s)
  else if negb ok then (Some EWrite, s)
  else (None, s <| s_data := truncate_bytes (s_data s) (Z.to_nat size) |> <| s_size := size |>
                <| s_streaming := false |>).

Definition hash_sums (hs : gmap string hasher) : gmap string string :=
  (fun h => digest (h_alg h) (h_fed h)) <$> hs.

(** hashFile: read the file in chunks of [buf] bytes and feed every digest. *)
Fixpoint hash_loop (fuel : nat) (buf : nat) (data : list Z) (size pos : Z) (hs : gmap string hasher)
  : gmap string hasher :=
  match fuel with
  | O => hs
  | S fuel' =>
      if decide (pos < size) then
        let n := take buf (drop (Z.to_nat pos) data) in
        let chunk := if decide (size < pos + Z.of_nat (length n)) then take (Z.to_nat (size - pos)) n else n in
        if decide (n = []) then hs (* io.EOF *)
        else hash_loop fuel' buf data size (pos + Z.of_nat (length chunk)) (feed pos chunk <$> hs)
      else hs
  end.

Definition hash_buf : nat := Pos.to_nat 1048576.

Definition hashFile (data : list Z) (size : Z) (want : list string) : gmap string string :=
  hash_sums (hash_loop (S (Z.to_nat size)) hash_buf data size 0 (new_hashers want)).

(** Hashes: streaming digests when every byte went through them in order. *)
Definition StagingHashes (s : Staging) : gmap string string :=
  if s_streaming s && (s_pos s =? s_size s) then hash_sums (s_hashers s)
  else hashFile (s_data s) (s_size s) (s_want s).

(** The object name: the first available content hash, else the staging id. *)
Definition object_name (id : string) (hashes : gmap string string) : string :=
  match filter (fun '(_, v) => v <> "")
          (omap (fun ht => v ← hashes !! ht; Some (ht, v)) ["sha1"; "md5"; "sha256"]) with
  | (ht, v) :: _ => ht +:+ "-" +:+ v
  | [] => id
  end.

(** CommitStaging, on the journal: rename the file into objects/ and hold a
    reservation on the object until its row is committed. *)
Definition CommitStaging (sg : Staging) (hashes : gmap string string) : Op jstate jerr string := fun s =>
  let dst := Join [ObjectsDir; object_name (s_ID sg) hashes] in
  if bool_decide (cfg_durability <> DurabilityCrash) && io_error IoSync (abs (s_Path sg))
  then (Err (ErrIO "fsync staging"), s)
  else match Rename (fsys s) (s_Path sg) dst with
       | Err _ => (Err (ErrIO "commit staging"), s)
       | Ok f =>
           let s1 := s <| fsys := f |>
                       <| stagedObjects ::= <[s_ID sg := abs dst]> |>
                       <| stagedRefs ::= fun m => <[abs dst := default 0 (m !! abs dst) + 1]> m |> in
           (* rename of two links to one inode is a no-op: consume the source *)
           if decide (abs (s_Path sg) <> abs dst) then
             match Stat f (s_Path sg), Stat f dst with
             | Ok a, Ok b =>
                 if decide (fi_kind a = KRegular /\ fi_ino a = fi_ino b) then
                   match Remove f (s_Path sg) with
                   | Ok f' => (Ok dst, s1 <| fsys := f' |>)
                   | Err _ => (Err (ErrIO "consume linked staging"), s1)
                   end
                 else (Ok dst, s1)
             | _, _ => (Ok dst, s1)
             end
           else (Ok dst, s1)
       end.
End StagingOps.

(** ** Specification: the digests of a content *)

Section StagingSpec.
Context {cfg : Config}.

Definition plan_digest (p : hash_plan) (content : list Z) : string :=
  match p with
  | FullHash a => digest a content
  | PrefixHash a c => digest a (take (Z.to_nat c) content)
  end.

Fixpoint spec_hashes (want : list string) (content : list Z) : gmap string string :=
  match want with
  | [] => ∅
  | ht :: want' =>
      match plan_of ht with
      | Some p => <[ht := plan_digest p content]> (spec_hashes want' content)
      | None => spec_hashes want' content
      end
  end.

(** A hasher that has been fed exactly the prefix [content] in order. *)
Definition fed_with (content : list Z) (h : hasher) : hasher :=
  h <| h_fed := match h_cap h with None => content | Some c => take (Z.to_nat c) content end |>.

Definition fed_hashers (want : list string) (content : list Z) : gmap string hasher :=
  fed_with content <$> new_hashers want.

Lemma spec_hashes_lookup want content k :
  spec_hashes want content !! k =
  if decide (k ∈ want) then (fun p => plan_digest p content) <$> plan_of k else None.
Proof.
  induction want as [|ht want IH]; simpl; [by rewrite lookup_empty|].
  destruct (decide (k = ht)) as [->|Hne].
  - rewrite decide_True by set_solver. destruct (plan_of ht) eqn:E; simpl.
    + by rewrite lookup_insert_eq.
    + rewrite IH. by destruct (decide _); rewrite ?E.
  - assert (Hd : (if decide (k ∈ ht :: want) then (fun p => plan_digest p content) <$> plan_of k else None)
            = (if decide (k ∈ want) then (fun p => plan_digest p content) <$> plan_of k else None)).
    { destruct (decide (k ∈ want)); [rewrite decide_True by set_solver|rewrite decide_False by set_solver]; done. }
    rewrite Hd, <- IH. destruct (plan_of ht); [by rewrite lookup_insert_ne|done].
Qed.

Lemma new_hashers_lookup want k :
  new_hashers want !! k = if decide (k ∈ want) then new_hasher <$> plan_of k else None.
Proof.
  induction want as [|ht want IH]; simpl; [by rewrite lookup_empty|].
  destruct (decide (k = ht)) as [->|Hne].
  - rewrite decide_True by set_solver. destruct (plan_of ht) eqn:E; simpl.
    + by rewrite lookup_insert_eq.
    + rewrite IH. by destruct (decide _); rewrite ?E.
  - destruct (plan_of ht); rewrite ?lookup_insert_ne by done; rewrite IH;
      destruct (decide (k ∈ want)); [rewrite decide_True by set_solver|rewrite decide_False by set_solver
      |rewrite decide_True by set_solver|rewrite decide_False by set_solver]; done.
Qed.

(** Summing hashers fed with the whole content is the specification. *)
Lemma sums_of_fed want content : hash_sums (fed_hashers want content) = spec_hashes want content.
Proof.
  apply map_eq; intros k. unfold hash_sums, fed_hashers.
  rewrite !lookup_fmap, new_hashers_lookup, spec_hashes_lookup.
  destruct (decide _); [|done]. by destruct (plan_of k) as [[]|].
Qed.

Lemma caps_nonneg want k h : new_hashers want !! k = Some h -> match h_cap h with Some c => 0 <= c | None => True end.
Proof.
  rewrite new_hashers_lookup. destruct (decide _); [|done].
  unfold plan_of. repeat case_decide; simpl; intros [= <-]; simpl; try done;
    unfold sliceMD5Bytes, preSHA1Bytes; lia.
Qed.

Lemma feed_fed content chunk h :
  match h_cap h with Some c => 0 <= c | None => True end ->
  feed (Z.of_nat (length content)) chunk (fed_with content h) = fed_with (content ++ chunk) h.
Proof.
  destruct h as [a [c|] b]; unfold feed, fed_with, upd; simpl; [|done]. intros Hc.
  case_decide as Hlt; f_equal.
  - rewrite (take_ge content) by lia. case_decide; rewrite take_app.
    + rewrite (take_ge content) by lia. f_equal. f_equal. lia.
    + rewrite (take_ge content) by lia. f_equal. rewrite !take_ge by lia. done.
  - rewrite take_app_le by lia. done.
Qed.

Lemma feed_fed_hashers want content chunk :
  feed (Z.of_nat (length content)) chunk <$> fed_hashers want content = fed_hashers want (content ++ chunk).
Proof.
  apply map_eq; intros k. unfold fed_hashers. rewrite !lookup_fmap.
  destruct (new_hashers want !! k) as [h|] eqn:E; [|done]. simpl. f_equal.
  apply feed_fed. by eapply caps_nonneg.
Qed.

Lemma fed_nil want : fed_hashers want [] = new_hashers want.
Proof.
  apply map_eq; intros k. unfold fed_hashers. rewrite lookup_fmap, new_hashers_lookup.
  destruct (decide _); [|done]. destruct (plan_of k) as [[a|a c]|]; [done| |done].
  unfold new_hasher, fed_with, upd; simpl. by rewrite take_nil.
Qed.

(** The read loop feeds exactly the content, whatever the buffer size. *)
Lemma hash_loop_fed buf data want :
  (0 < buf)%nat ->
  forall fuel pos, (Z.to_nat (Z.of_nat (length data) - Z.of_nat pos) < fuel)%nat ->
  (pos <= length data)%nat ->
  hash_loop fuel buf data (Z.of_nat (length data)) (Z.of_nat pos) (fed_hashers want (take pos data))
  = fed_hashers want data.
Proof.
  intros Hbuf. induction fuel as [|fuel IH]; intros pos Hf Hpos; [lia|]. simpl.
  case_decide as Hlt.
  - rewrite Nat2Z.id. set (n := take buf (drop pos data)).
    assert (Hlen : length n = Nat.min buf (length data - pos)) by (unfold n; rewrite length_take, length_drop; lia).
    destruct (decide (n = [])) as [Hn|_]; [rewrite Hn in Hlen; simpl in Hlen; lia|].
    rewrite (decide_False (P := Z.of_nat (length data) < _)) by lia.
    rewrite <- Nat2Z.inj_add.
    assert (Htake : length (take pos data) = pos) by (rewrite length_take; lia).
    rewrite <- Htake at 2. rewrite feed_fed_hashers.
    replace (take pos data ++ n) with (take (pos + length n) data).
    + apply IH; lia.
    + unfold n at 2. rewrite take_take_drop.
      destruct (decide (buf <= length data - pos)%nat).
      * f_equal. lia.
      * rewrite !take_ge by lia. done.
  - assert (pos = length data) as -> by lia. by rewrite firstn_all.
Qed.

Lemma hashFile_spec data want :
  hashFile data (Z.of_nat (length data)) want = spec_hashes want data.
Proof.
  unfold hashFile. rewrite <- sums_of_fed. f_equal.
  rewrite <- (fed_nil want). change (@nil Z) with (take 0 data) at 1.
  change 0 with (Z.of_nat 0) at 1. apply hash_loop_fed; [unfold hash_buf; lia|lia|lia].
Qed.
End StagingSpec.

(** ** Every history of writes and truncations *)

Inductive stg_op :=
| OpWrite (p : list Z) (off : Z) (reserved : bool) (n : nat) (failed : bool)
| OpTruncate (size : Z) (reserved ok : bool).

Section StagingRuns.
Context {cfg : Config}.

Definition stg_step (s : Staging) (o : stg_op) : Staging :=
  match o with
  | OpWrite p off r n e => snd (WriteAt s p off r n e)
  | OpTruncate size r ok => snd (Truncate s size r ok)
  end.
Definition stg_run (s : Staging) (ops : list stg_op) : Staging := fold_left stg_step ops s.

(** The logical size is the file's, and live streaming digests have seen
    the whole file. *)
Definition stg_inv (s : Staging) : Prop :=
  s_size s = Z.of_nat (length (s_data s))
  /\ (s_streaming s = true ->
      s_pos s = s_size s /\ s_hashers s = fed_hashers (s_want s) (s_data s)).

Lemma length_write_bytes data off bs :
  length (write_bytes data off bs) = Nat.max (off + length bs) (length data).
Proof.
  unfold write_bytes. rewrite !length_app, length_take, length_app, length_replicate, length_drop. lia.
Qed.

Lemma write_bytes_append data bs : write_bytes data (length data) bs = data ++ bs.
Proof.
  unfold write_bytes. rewrite Nat.sub_diag. simpl. rewrite app_nil_r, firstn_all.
  rewrite drop_ge by lia. by rewrite app_nil_r.
Qed.

Lemma length_truncate_bytes data n : length (truncate_bytes data n) = n.
Proof. unfold truncate_bytes. rewrite length_app, length_take, length_replicate. lia. Qed.

Lemma stg_inv_write s p off r n e : stg_inv s -> stg_inv (snd (WriteAt s p off r n e)).
Proof.
  intros [Hsz Hst]. unfold WriteAt.
  destruct (s_immutable s); [done|]. case_decide as Hr; [done|].
  destruct r; [|done]. simpl negb. cbv match. case_decide as Hn; [done|].
  set (m := Nat.min n (length p)) in *.
  assert (Hm : length (take m p) = m) by (rewrite length_take; lia).
  destruct (s_streaming s && (off =? s_pos s)) eqn:E; simpl; split; simpl.
  - rewrite length_write_bytes, Hm. unfold upd; simpl. lia.
  - intros _. apply andb_true_iff in E as [Es Ho%Z.eqb_eq].
    destruct (Hst Es) as [Hp Hh]. split; [unfold upd; simpl; lia|].
    rewrite Hh. replace (s_pos s) with (Z.of_nat (length (s_data s))) by lia.
    rewrite feed_fed_hashers. f_equal.
    replace (Z.to_nat off) with (length (s_data s)) by lia. by rewrite write_bytes_append.
  - rewrite length_write_bytes, Hm. unfold upd; simpl. lia.
  - done.
Qed.

Lemma stg_inv_truncate s size r ok : stg_inv s -> stg_inv (snd (Truncate s size r ok)).
Proof.
  intros [Hsz Hst]. unfold Truncate.
  destruct (s_immutable s); [done|]. case_decide; [done|]. destruct r, ok; simpl; try done.
  split; simpl; [|done]. rewrite length_truncate_bytes. lia.
Qed.

Lemma stg_inv_new id path want : stg_inv (newStagingState id path want).
Proof. split; [done|]. intros _. split; [done|]. simpl. by rewrite fed_nil. Qed.

Lemma stg_inv_adopt path data want : stg_inv (AdoptStaging path data want).
Proof. by split. Qed.

Lemma stg_inv_run s ops : stg_inv s -> stg_inv (stg_run s ops).
Proof.
  revert s. induction ops as [|o ops IH]; intros s H; [done|]. simpl. apply IH.
  destruct o; simpl; [by apply stg_inv_write|by apply stg_inv_truncate].
Qed.

Lemma want_run s ops : s_want (stg_run s ops) = s_want s.
Proof.
  revert s. induction ops as [|o ops IH]; intros s; [done|]. simpl. rewrite IH.
  destruct o; simpl; unfold WriteAt, Truncate;
    repeat first [case_decide | case_match]; done.
Qed.

Lemma stg_inv_hashes s : stg_inv s -> StagingHashes s = spec_hashes (s_want s) (s_data s).
Proof.
  intros [Hsz Hst]. unfold StagingHashes.
  destruct (s_streaming s && (s_pos s =? s_size s)) eqn:E.
  - apply andb_true_iff in E as [Es _]. destruct (Hst Es) as [_ ->]. apply sums_of_fed.
  - rewrite Hsz. apply hashFile_spec.
Qed.

(** C29: After any history of writes (short, failed, out of order, past the end)
    and truncations on a fresh or an adopted staging file, the digests handed
    to the backend are those of the bytes on disk, the recovery checksum is
    among them, and the recorded size is the file's length. *)
Theorem staging_hashes_correct (id path : string) (adopted : option (list Z))
    (want : list string) (ops : list stg_op) :
  let s0 := match adopted with
            | None => newStagingState id path want
            | Some data => AdoptStaging path data want
            end in
  let s := stg_run s0 ops in
  StagingHashes s = spec_hashes (withCRC want) (s_data s)
  /\ StagingHashes s !! "crc32c" = Some (crc32c (s_data s))
  /\ s_size s = Z.of_nat (length (s_data s)).
Proof.
  intros s0 s.
  assert (H0 : stg_inv s0) by (unfold s0; destruct adopted; [apply stg_inv_adopt|apply stg_inv_new]).
  assert (Hw : s_want s0 = withCRC want) by (unfold s0; by destruct adopted).
  assert (Hinv : stg_inv s) by (by apply stg_inv_run).
  assert (HH : StagingHashes s = spec_hashes (withCRC want) (s_data s)).
  { rewrite stg_inv_hashes by done. unfold s. by rewrite want_run, Hw. }
  split_and!; [done| |apply Hinv].
  rewrite HH, spec_hashes_lookup, decide_True; [done|].
  unfold withCRC. case_decide; set_solver.
Qed.

(** Reading back: a successful write is visible at its offset and leaves
    every other byte alone; a gap before it reads as zeros. *)
Theorem staging_write_readback (s : Staging) (p : list Z) (off : Z) (n : nat) (e : bool)
    (s' : Staging) (k : Z) (err : option werr) (i : nat) :
  WriteAt s p off true n e = ((k, err), s') ->
  0 < k ->
  s_data s' !! i =
    if decide (off <= Z.of_nat i < off + k) then p !! Z.to_nat (Z.of_nat i - off)
    else if decide (i < length (s_data s))%nat then s_data s !! i
    else if decide (Z.of_nat i < off) then Some 0 else None.
Proof.
  unfold WriteAt. destruct (s_immutable s); [intros [= <- _ _]; lia|].
  case_decide as Hr; [intros [= <- _ _]; lia|]. simpl negb. cbv match.
  case_decide as Hn; [intros [= <- _ _]; lia|].
  set (m := Nat.min n (length p)) in *. intros [= <- _ <-] _.
  assert (Hd : s_data (if s_streaming s && (off =? s_pos s)
    then s <| s_data := write_bytes (s_data s) (Z.to_nat off) (take m p) |>
           <| s_size ::= Z.max (off + Z.of_nat m) |>
           <| s_hashers ::= fmap (feed (s_pos s) (take m p)) |>
           <| s_pos ::= Z.add (Z.of_nat m) |>
    else s <| s_data := write_bytes (s_data s) (Z.to_nat off) (take m p) |>
           <| s_size ::= Z.max (off + Z.of_nat m) |>
           <| s_streaming := false |>) = write_bytes (s_data s) (Z.to_nat off) (take m p))
    by (by destruct (_ && _)).
  rewrite Hd. clear Hd. set (data := s_data s).
  unfold write_bytes. set (o := Z.to_nat off).
  assert (Hto : length (take o (data ++ replicate (o - length data) 0)) = o)
    by (rewrite length_take, length_app, length_replicate; lia).
  assert (Htm : length (take m p) = m) by (rewrite length_take; lia).
  destruct (decide (i < o)%nat).
  - rewrite lookup_app_l by lia. rewrite lookup_take_lt by lia.
    rewrite decide_False by lia. case_decide.
    + by rewrite lookup_app_l.
    + rewrite lookup_app_r by lia. rewrite decide_True by lia.
      by rewrite lookup_replicate_2 by lia.
  - rewrite lookup_app_r by lia. rewrite Hto.
    destruct (decide (i < o + m)%nat).
    + rewrite lookup_app_l by lia. rewrite lookup_take_lt by lia.
      rewrite decide_True by lia. f_equal. lia.
    + rewrite lookup_app_r by lia. rewrite Htm, lookup_drop.
      rewrite decide_False by lia. replace (o + m + (i - o - m))%nat with i by lia.
      case_decide; [done|]. rewrite decide_False by lia. by apply lookup_ge_None_2; lia.
Qed.
End StagingRuns.
