(* ===== verification/JournalCopy.v ===== *)
(** * Copy preparations (internal/journal/copy.go, copy_cleanup.go,
    copy_recovery.go, link_staging.go, server_copy.go)

    A copy the backend cannot do itself is downloaded into a private file whose
    durable prefix is checkpointed; when complete it is handed to the upload
    queue in one transaction.  Server-side copies leave a durable intent per
    destination until their result is known. *)
From S2P Require Import Prelude Filepath JournalState JournalQueue Staging.
From Stdlib Require Import Ascii.
Import Filepath.
Open Scope Z_scope.

Fixpoint contains_char (c : Ascii.ascii) (s : string) : bool :=
  match s with
  | EmptyString => false
  | String c' s' => bool_decide (c' = c) || contains_char c s'
  end.

Definition slen (s : string) : Z := Z.of_nat (String.length s).

Record CopyJob := MkCopyJob {
  j_ID : string; j_Spec : CopySpec; j_Want : list string; j_State : CopyState;
  j_Checkpoint : Z; j_CRC32C : string; j_LastError : string; j_Revision : Z
}.
#[export] Instance CopyJob_eta : Settable CopyJob := fun j =>
  MkCopyJob (j_ID j) (j_Spec j) (j_Want j) (j_State j) (j_Checkpoint j) (j_CRC32C j)
    (j_LastError j) (j_Revision j).

(** CopyStaging: one preparation handle. *)
Record CopyStaging := MkCopyStaging { h_job : CopyJob; h_staging : Staging; h_closed : bool }.
#[export] Instance CopyStaging_eta : Settable CopyStaging := fun c =>
  MkCopyStaging (h_job c) (h_staging c) (h_closed c).

Inductive copyOpenMode := copyResume | copyRetry | copyInspect.

Section Copies.
Context {cfg : Config}.

(** CopySpec.validate *)
Definition canonical_path (p : string) : bool :=
  IsAbs p && bool_decide (Clean p = p) && (slen p <=? 4096)
  && negb (contains_nul p) && negb (contains_char "\"%char p).

Definition identities (s : CopySpec) : list string :=
  [cs_MetaIdentity s; cs_SourceMount s; cs_SourceRootID s; cs_SourceAccountBinding s;
   cs_TargetMount s; cs_TargetRootID s; cs_TargetAccountBinding s; cs_SourceRemote s;
   cs_SourceID s; cs_SourceVersion s; cs_TargetRemote s; cs_TargetParentID s].

Definition validate (s : CopySpec) : option jerr :=
  let empty v := bool_decide (v = "") in
  if negb (canonical_path (cs_SourcePath s) && canonical_path (cs_TargetPath s))
  then Some (ErrInvalid "copy requires canonical absolute paths")
  else if empty (cs_SourceRemote s) || empty (cs_SourceID s) || empty (cs_TargetRemote s)
          || empty (cs_TargetParentID s) || bool_decide (cs_TargetPath s = "/") || (cs_Size s <? 0)
  then Some (ErrInvalid "incomplete copy identities")
  else if negb (bool_decide (cs_Mode s = "writeback") || bool_decide (cs_Mode s = "strict"))
  then Some (ErrInvalid "copy requires a writable consistency mode")
  else if xorb (empty (cs_SourceAccountBinding s)) (empty (cs_TargetAccountBinding s))
  then Some (ErrInvalid "incomplete copy account binding")
  else if negb (empty (cs_SourceAccountBinding s))
          && existsb empty [cs_MetaIdentity s; cs_SourceMount s; cs_SourceRootID s;
                            cs_TargetMount s; cs_TargetRootID s]
  then Some (ErrInvalid "incomplete copy account binding")
  else if existsb bad_binding (identities s) then Some (ErrInvalid "invalid copy identity")
  else None.

(** claimCopy / releaseCopy: at most one live handle per job. *)
Definition claimCopy (id : string) : Op jstate jerr unit := fun s =>
  if negb cfg_owner then (Err ErrNotOwner, s)
  else if decide (id ∈ copyOpen s) then (Err ErrCopyBusy, s)
  else (Ok tt, s <| copyOpen ::= fun o => {[id]} ∪ o |>).
Definition releaseCopy (id : string) : Op jstate jerr unit := omodify (fun s => s <| copyOpen ::= fun o => o ∖ {[id]} |>).

(** [defer releaseCopy(id)] around a body that succeeded in claiming. *)
Definition with_claim {A} (id : string) (body : Op jstate jerr A) : Op jstate jerr A :=
  do* claimCopy id;
  fun s => let '(r, s') := body s in (r, snd (releaseCopy id s')).

(** ** Rows *)

Definition active_copy (st : CopyState) : Prop := st = CopyPreparing \/ st = CopyReady.
#[export] Instance active_copy_dec st : Decision (active_copy st).
Proof. unfold active_copy. apply _. Defined.

Definition dest (c : CopyRow) : string * string * string := (c_remote c, c_parent c, c_name c).

(** The partial unique index copy_destination. *)
Definition dest_taken (id : string) (c : CopyRow) (d : DB) : Prop :=
  ~ map_Forall (fun k v => k = id \/ ~ active_copy (c_state v) \/ dest v <> dest c) (copy_jobs d).
#[export] Instance dest_taken_dec id c d : Decision (dest_taken id c d).
Proof. unfold dest_taken. apply _. Defined.

(** Writing a row of copy_jobs under its constraints. *)
Definition put_copy (id : string) (c : CopyRow) : Tx DB jerr unit := fun d =>
  if decide (active_copy (c_state c) /\ dest_taken id c d) then Err ErrCopyBusy
  else Ok (tt, d <| copy_jobs ::= <[id := c]> |>).

(** path.Base of the target path. *)
Definition row_of_job (j : CopyJob) : CopyRow :=
  MkCopyRow (j_Spec j) (j_Want j) (j_State j) 0 (j_Checkpoint j) (j_CRC32C j)
    (cs_TargetRemote (j_Spec j)) (cs_TargetParentID (j_Spec j)) (Base (cs_TargetPath (j_Spec j))) "".

Definition insertCopyTx (j : CopyJob) : Tx DB jerr unit := fun d =>
  match copy_jobs d !! j_ID j with
  | Some _ => Err ErrCopyBusy
  | None => put_copy (j_ID j) (row_of_job j) d
  end.

Definition hex_lower (c : Ascii.ascii) : bool :=
  let n := Ascii.nat_of_ascii c in
  ((48 <=? n)%nat && (n <=? 57)%nat) || ((97 <=? n)%nat && (n <=? 102)%nat).
Fixpoint all_hex (s : string) : bool :=
  match s with EmptyString => true | String c s' => hex_lower c && all_hex s' end.

(** scanCopy: a row that contradicts itself is refused, not used. *)
Definition scanCopy (j : CopyJob) : res jerr CopyJob :=
  match validate (j_Spec j) with
  | Some e => Err e
  | None =>
      if decide (j_Checkpoint j < 0 \/ cs_Size (j_Spec j) < j_Checkpoint j) then Err ErrCopyCorrupt
      else if decide ((j_State j = CopyReady \/ j_State j = CopySubmitted)
                      /\ j_Checkpoint j <> cs_Size (j_Spec j)) then Err ErrCopyCorrupt
      else if negb (all_hex (j_CRC32C j) && (slen (j_CRC32C j) =? 8)) then Err ErrCopyCorrupt
      else Ok j
  end.

Definition job_of_row (id : string) (c : CopyRow) : CopyJob :=
  MkCopyJob id (c_spec c) (c_want c) (c_state c) (c_checkpoint c) (c_crc32c c) (c_last_error c) (c_revision c).
Definition job_of_cleanup (id : string) (c : CopyCleanupRow) : CopyJob :=
  MkCopyJob id (cc_spec c) (cc_want c) CopyPurging (cc_checkpoint c) (cc_crc32c c) "" (cc_revision c).

Definition GetCopy (id : string) (d : DB) : res jerr CopyJob :=
  if decide (copyPath id = None) then Err (ErrInvalid "invalid copy id")
  else match copy_jobs d !! id, copy_cleanup d !! id with
       | Some c, _ => scanCopy (job_of_row id c)
       | None, Some c => scanCopy (job_of_cleanup id c)
       | None, None => Err ErrNotFound
       end.

Definition copy_rows (d : DB) : list CopyJob :=
  order_by (fun a b => String.leb (j_ID a) (j_ID b))
    (map (fun '(id, c) => job_of_row id c) (map_to_list (copy_jobs d))
     ++ map (fun '(id, c) => job_of_cleanup id c) (map_to_list (copy_cleanup d))).

(** CopyJobs: all records, or the first reason one of them is unreadable. *)
Fixpoint scan_all (l : list CopyJob) : res jerr (list CopyJob) :=
  match l with
  | [] => Ok []
  | j :: l' =>
      match scanCopy j with
      | Err e => Err e
      | Ok j =>
          if decide (copyPath (j_ID j) = None) then Err (ErrInvalid "invalid copy id")
          else match scan_all l' with Ok js => Ok (j :: js) | Err e => Err e end
      end
  end.
Definition CopyJobs (d : DB) : res jerr (list CopyJob) := scan_all (copy_rows d).

(** ** Files of a preparation *)

Definition fresh_ino (f : FS) : Z := foldr Z.max 0 (elements (dom (inodes f))) + 1.

(** open(O_CREATE|O_EXCL) *)
Definition Create (f : FS) (p : string) : res oserr FS :=
  if io_error IoOpen (abs p) then Err EIO
  else match names f !! abs p with
       | Some _ => Err EIO
       | None => let i := fresh_ino f in
                 Ok (f <| names ::= <[abs p := i]> |> <| inodes ::= <[i := MkInode KRegular []]> |>)
       end.

(** link(2) *)
Definition Link (f : FS) (src dst : string) : res oserr FS :=
  match names f !! abs src, names f !! abs dst with
  | Some i, None => if io_error IoRename (abs dst) then Err EIO
                    else Ok (f <| names ::= <[abs dst := i]> |>)
  | None, _ => Err ENOENT
  | _, Some _ => Err EIO
  end.

(** Replace the content of the inode a name refers to (writes through a
    descriptor: every link of the inode sees it). *)
Definition SetData (f : FS) (p : string) (data : list Z) : FS :=
  match names f !! abs p with
  | Some i => f <| inodes ::= alter (fun n => MkInode (i_kind n) data) i |>
  | None => f
  end.

Definition Discard (sg : Staging) : Op jstate jerr unit := fun s =>
  let s := match stagedObjects s !! s_ID sg with
           | Some dst => snd (releaseStagedObject (s_ID sg) dst s)
           | None => s
           end in
  match Remove (fsys s) (s_Path sg) with
  | Ok f => (Ok tt, s <| fsys := f |>)
  | Err ENOENT => (Ok tt, s)
  | Err EIO => (Err (ErrIO "discard staging"), s)
  end.

(** Run [m]; on failure discard the staging file and report the failure. *)
Definition or_discard {A} (sg : Staging) (m : Op jstate jerr A) : Op jstate jerr A := fun s =>
  match m s with
  | (Ok a, s') => (Ok a, s')
  | (Err e, s') => (Err e, snd (Discard sg s'))
  end.

Definition os_op {A} (what : string) (r : FS -> res oserr FS) (a : A) : Op jstate jerr A := fun s =>
  match r (fsys s) with
  | Ok f => (Ok a, s <| fsys := f |>)
  | Err _ => (Err (ErrIO what), s)
  end.

(** NewStaging with the identifier uuid.NewString returned. *)
Definition NewStaging (id : string) (want : list string) : Op jstate jerr Staging :=
  let p := Join [StagingDir; id +:+ ".part"] in
  os_op "staging" (fun f => Create f p) (newStagingState id p want).

(** LinkStaging: hard link an immutable cache file; [src] is its name and
    inode as the open descriptor reports them. *)
Definition LinkStaging (src : string) (ino : Z) (id : string) (want : list string) : Op jstate jerr Staging :=
  let p := Join [StagingDir; id +:+ ".part"] in
  fun s =>
    match inodes (fsys s) !! ino, Stat (fsys s) src with
    | Some n, Ok named =>
        if decide (i_kind n <> KRegular) then (Err (ErrInvalid "linked source is not a regular file"), s)
        else if decide (fi_kind named <> KRegular \/ fi_ino named <> ino)
        then (Err (ErrInvalid "cache name changed while linking staging"), s)
        else match Link (fsys s) src p with
             | Err _ => (Err (ErrIO "link"), s)
             | Ok f => (Ok ((AdoptStaging p (i_data n) want) <| s_immutable := true |>), s <| fsys := f |>)
             end
    | _, _ => (Err (ErrIO "stat"), s)
    end.

Definition syncCopy (sg : Staging) : Op jstate jerr unit :=
  if decide (cfg_durability = DurabilityCrash) then oret tt
  else require (negb (io_error IoSync (abs (s_Path sg)))
                && SyncDir (Dir (s_Path sg)) && SyncDir cfg_dir) (ErrIO "sync").

Definition move_to_copies (sg : Staging) (id : string) : Op jstate jerr Staging :=
  match copyPath id with
  | None => ofail (ErrInvalid "invalid copy id")
  | Some p => os_op "rename" (fun f => Rename f (s_Path sg) p) (sg <| s_ID := id |> <| s_Path := p |>)
  end.

(** Claim the handle and insert the record; undo the claim if refused. *)
Definition publish_copy (job : CopyJob) : Op jstate jerr unit :=
  do* claimCopy (j_ID job);
  fun s => match tx (insertCopyTx job) s with
           | (Ok _, s') => (Ok tt, s')
           | (Err e, s') => (Err e, snd (releaseCopy (j_ID job) s'))
           end.

Definition BeginCopy (id : string) (spec : CopySpec) (want : list string) : Op jstate jerr CopyStaging :=
  do* require cfg_owner ErrNotOwner;
  match validate spec with
  | Some e => ofail e
  | None =>
      let* sg := NewStaging id (withCRC want) in
      let* sg := or_discard sg (move_to_copies sg id) in
      do* or_discard sg (syncCopy sg);
      let job := MkCopyJob id spec (withCRC want) CopyPreparing 0 "00000000" "" 0 in
      do* or_discard sg (publish_copy job);
      oret (MkCopyStaging job sg false)
  end.

Definition BeginCopyFromWhole (lid id : string) (spec : CopySpec) (src : string) (ino : Z) (want : list string)
  : Op jstate jerr CopyStaging :=
  do* require cfg_owner ErrNotOwner;
  match validate spec with
  | Some e => ofail e
  | None =>
      let* sg := LinkStaging src ino lid (withCRC want) in
      do* or_discard sg (require (s_size sg =? cs_Size spec) (ErrInvalid "complete copy source size differs"));
      let* sg := or_discard sg (move_to_copies sg id) in
      let hashes := StagingHashes sg in
      do* or_discard sg (syncCopy sg);
      let job := MkCopyJob id spec (withCRC want) CopyReady (cs_Size spec) (default "" (hashes !! "crc32c")) "" 0 in
      do* or_discard sg (publish_copy job);
      oret (MkCopyStaging job sg false)
  end.

(** CopyStaging.Write: sequential, never past the source size. *)
Definition CopyWrite (c : CopyStaging) (p : list Z) (reserved : bool) (n : nat) (failed : bool)
  : Op jstate jerr ((Z * option werr) * CopyStaging) := fun s =>
  let sg := h_staging c in
  if decide (h_closed c = true \/ j_State (h_job c) <> CopyPreparing)
  then (Err (ErrInvalid "copy is not writable"), s)
  else if decide (cs_Size (j_Spec (h_job c)) - s_size sg < Z.of_nat (length p))
  then (Err (ErrInvalid "copy exceeds source size"), s)
  else let '(ne, sg') := WriteAt sg p (s_size sg) reserved n failed in
       let s' := s <| fsys ::= fun f => SetData f (s_Path sg) (s_data sg') |> in
       (Ok (ne, c <| h_staging := sg' |>), s').

Definition checkpointTx (id : string) (off : Z) (crc : string) (st : CopyState) : Tx DB jerr unit := fun d =>
  match copy_jobs d !! id with
  | Some c => if decide (c_state c = CopyPreparing)
              then put_copy id (c <| c_checkpoint := off |> <| c_crc32c := crc |> <| c_state := st |>) d
              else Err ErrCopyState
  | None => Err ErrCopyState
  end.

Definition Checkpoint (c : CopyStaging) : Op jstate jerr CopyStaging :=
  let job := h_job c in
  if decide (h_closed c = true \/ j_State job <> CopyPreparing)
  then ofail (ErrInvalid "copy is not preparing")
  else
    let crc := default "" (StagingHashes (h_staging c) !! "crc32c") in
    do* syncCopy (h_staging c);
    let off := s_size (h_staging c) in
    let st := if decide (off = cs_Size (j_Spec job)) then CopyReady else CopyPreparing in
    do* tx (checkpointTx (j_ID job) off crc st);
    oret (c <| h_job := job <| j_Checkpoint := off |> <| j_CRC32C := crc |> <| j_State := st |> |>).

Definition CloseCopy (c : CopyStaging) : Op jstate jerr CopyStaging :=
  if h_closed c then oret c
  else do* releaseCopy (j_ID (h_job c)); oret (c <| h_closed := true |>).

(** The state a handle opened in a mode sees, or why it may not open. *)
Definition open_state (mode : copyOpenMode) (job : CopyJob) : res jerr CopyState :=
  let st := j_State job in
  match mode with
  | copyRetry =>
      if decide (st = CopyFailed \/ st = CopyCancelled)
      then Ok (if decide (j_Checkpoint job = cs_Size (j_Spec job)) then CopyReady else CopyPreparing)
      else Err ErrCopyState
  | copyInspect =>
      if decide (j_Checkpoint job = cs_Size (j_Spec job)
                 /\ (st = CopyReady \/ st = CopyFailed \/ st = CopyCancelled))
      then Ok CopyReady else Err ErrCopyState
  | copyResume =>
      if decide (st = CopyCancelled) then Err ErrCopyCancelled
      else if decide (st = CopyPreparing \/ st = CopyReady) then Ok st else Err ErrCopyState
  end.

(** The compare-and-set of a retry: only the revision it was based on. *)
Definition retryCopyTx (id : string) (st : CopyState) (revision : Z) : Tx DB jerr unit := fun d =>
  match copy_jobs d !! id with
  | Some c =>
      if decide ((c_state c = CopyFailed \/ c_state c = CopyCancelled) /\ c_revision c = revision)
      then put_copy id (c <| c_state := st |> <| c_last_error := "" |> <| c_revision ::= Z.add 1 |>) d
      else Err ErrCopyState
  | None => Err ErrCopyState
  end.

(** Validate the durable prefix and rebuild the streaming digests from it. *)
Definition open_payload (job : CopyJob) (p : string) : Op jstate jerr Staging := fun s =>
  match Stat (fsys s) p with
  | Err _ => (Err ErrCopyCorrupt, s)
  | Ok info =>
      if decide (fi_kind info <> KRegular) then (Err ErrCopyCorrupt, s)
      else match ReadFile (fsys s) p with
      | None => (Err (ErrIO "open"), s)
      | Some data =>
          if decide (fi_size info < j_Checkpoint job) then (Err ErrCopyCorrupt, s)
          else
            let prefix := take (Z.to_nat (j_Checkpoint job)) data in
            let s0 := newStagingState (j_ID job) p (j_Want job) in
            let hs := hash_loop (S (Z.to_nat (j_Checkpoint job))) hash_buf prefix (j_Checkpoint job) 0 (s_hashers s0) in
            if decide (hash_sums hs !! "crc32c" <> Some (j_CRC32C job)) then (Err ErrCopyCorrupt, s)
            else
              let sg := s0 <| s_data := prefix |> <| s_size := j_Checkpoint job |> <| s_pos := j_Checkpoint job |>
                           <| s_hashers := hs |> <| s_immutable := bool_decide (j_State job = CopyReady) |> in
              if decide (fi_size info = j_Checkpoint job) then (Ok sg, s)
              else if decide (j_State job = CopyReady) then (Err ErrCopyCorrupt, s)
              else (Ok sg, s <| fsys ::= fun f => SetData f p prefix |>)
      end
  end.

Definition openCopy (id : string) (mode : copyOpenMode) : Op jstate jerr CopyStaging :=
  do* claimCopy id;
  fun s =>
    let body : Op jstate jerr CopyStaging :=
      let* r := query (GetCopy id) in
      match r with
      | Err e => ofail e
      | Ok job =>
          match open_state mode job with
          | Err e => ofail e
          | Ok st =>
              let job := job <| j_State := st |> in
              match copyPath id with
              | None => ofail (ErrInvalid "invalid copy id")
              | Some p =>
                  let* sg := open_payload job p in
                  match mode with
                  | copyRetry =>
                      do* tx (retryCopyTx id st (j_Revision job));
                      oret (MkCopyStaging (job <| j_Revision ::= Z.add 1 |>) sg false)
                  | _ => oret (MkCopyStaging job sg false)
                  end
              end
          end
      end in
    match body s with
    | (Ok c, s') => (Ok c, s')
    | (Err e, s') => (Err e, snd (releaseCopy id s'))
    end.

Definition ResumeCopy (id : string) : Op jstate jerr CopyStaging := openCopy id copyResume.

Definition RetryCopy (id : string) : Op jstate jerr CopyStaging :=
  let* c := openCopy id copyRetry in CloseCopy c.

(** PayloadPath *)
Definition PayloadPath (c : CopyStaging) : res jerr string :=
  if decide (h_closed c = true \/ j_State (h_job c) <> CopyReady)
  then Err (ErrInvalid "copy payload is not ready") else Ok (s_Path (h_staging c)).

(** Submit: one transaction moves the payload from the job to an upload row. *)
Definition submitTx (f : FS) (t : Z) (job : CopyJob) (u : Upload) : Tx DB jerr unit := fun d =>
  match row_of (ID u) d with
  | Some _ => Err (ErrInvalid "copy upload id already exists")
  | None =>
      match copy_jobs d !! j_ID job with
      | Some c =>
          if decide (c_state c = CopyReady) then
            insertUploadTx f t u (d <| copy_jobs ::= <[j_ID job := c <| c_state := CopySubmitted |>]> |>)
          else Err ErrCopyState
      | None => Err ErrCopyState
      end
  end.

Definition submit_upload (c : CopyStaging) (t : Z) (u : Upload) : Upload :=
  u <| ID := j_ID (h_job c) |> <| BlobPath := s_Path (h_staging c) |> <| Size := cs_Size (j_Spec (h_job c)) |>
    <| Hashes := StagingHashes (h_staging c) |> <| UState := StatePending |> <| CreatedAt := Some t |>
    <| Attempt := 0 |> <| LastError := "" |> <| Session := ∅ |> <| Tombstoned := false |>.

Definition Submit (c : CopyStaging) (u : Upload) : Op jstate jerr (Upload * CopyStaging) :=
  let job := h_job c in
  if decide (h_closed c = true \/ j_State job <> CopyReady) then ofail (ErrInvalid "copy is not ready")
  else if decide (Remote u <> cs_TargetRemote (j_Spec job) \/ RemoteParentID u <> cs_TargetParentID (j_Spec job)
                  \/ Name u <> Base (cs_TargetPath (j_Spec job)))
  then ofail (ErrInvalid "copy upload target changed")
  else
    do* syncCopy (h_staging c);
    let* t := now_of in
    let* f := fs_of in
    let u := submit_upload c t u in
    do* tx (submitTx f t job u);
    oret (u, c <| h_job := job <| j_State := CopySubmitted |> |>).

Definition failCopyTx (id reason : string) : Tx DB jerr unit := fun d =>
  match copy_jobs d !! id with
  | None => Err ErrNotFound
  | Some c =>
      if decide (c_state c = CopyCancelled) then Ok (tt, d)
      else if decide (c_state c = CopyPreparing \/ c_state c = CopyReady \/ c_state c = CopyFailed)
      then put_copy id (c <| c_state := CopyFailed |> <| c_last_error := reason |>) d
      else Err ErrCopyState
  end.
Definition FailCopy (id reason : string) : Op jstate jerr unit := with_claim id (tx (failCopyTx id reason)).

Definition cancelCopyTx (id : string) : Tx DB jerr unit := fun d =>
  match copy_jobs d !! id with
  | None => Err ErrNotFound
  | Some c =>
      if decide (c_state c = CopySubmitted) then Err ErrCopyState
      else put_copy id (c <| c_state := CopyCancelled |> <| c_last_error := "" |> <| c_revision ::= Z.add 1 |>) d
  end.
Definition CancelCopy (id : string) : Op jstate jerr unit :=
  do* require cfg_owner ErrNotOwner;
  do* require (bool_decide (copyPath id <> None)) (ErrInvalid "invalid copy id");
  tx (cancelCopyTx id).

(** ** Cleanup of a finished copy *)

Definition copyUploadsAbsent (id payload : string) (d : DB) : bool :=
  bool_decide (sel (fun r => r_id r = id \/ r_blob r = payload) d = []).

Definition beginCopyCleanupTx (id payload : string) : Tx DB jerr unit := fun d =>
  if negb (copyUploadsAbsent id payload d) then Err ErrCopyReferenced
  else match copy_cleanup d !! id, copy_jobs d !! id with
       | Some _, _ => Ok (tt, d)
       | None, None => Err ErrNotFound
       | None, Some c =>
           if decide (c_state c = CopyFailed \/ c_state c = CopyCancelled \/ c_state c = CopySubmitted)
           then Ok (tt, d <| copy_cleanup ::= <[id := MkCopyCleanupRow (c_spec c) (c_want c) (c_checkpoint c)
                                                        (c_crc32c c) (c_revision c)]> |>
                          <| copy_jobs ::= delete id |>)
           else Err ErrCopyState
       end.
Definition BeginCopyCleanup (id : string) : Op jstate jerr unit :=
  match copyPath id with
  | None => ofail (ErrInvalid "invalid copy id")
  | Some p => with_claim id (tx (beginCopyCleanupTx id p))
  end.

Definition finishCopyCleanupBody (id p : string) : Op jstate jerr unit := fun s =>
  match copy_cleanup (db s) !! id with
  | None => (Err ErrNotFound, s)
  | Some _ =>
      if negb (copyUploadsAbsent id p (db s)) then (Err ErrCopyReferenced, s)
      else
        let finish (s : jstate) :=
          if decide (cfg_durability = DurabilityPower /\ SyncDir (Dir p) = false)
          then (Err (ErrIO "sync"), s)
          else (Ok tt, s <| db ::= fun d => d <| copy_cleanup ::= delete id |> |>) in
        let unlink :=
          match Remove (fsys s) p with
          | Ok f => finish (s <| fsys := f |>)
          | Err ENOENT => finish s
          | Err EIO => (Err (ErrIO "remove"), s)
          end in
        match Stat (fsys s) (Dir p) with
        | Err _ => (Err (ErrIO "stat"), s)
        | Ok dir =>
            if decide (fi_kind dir <> KDir) then (Err (ErrInvalid "not a private directory"), s)
            else match Stat (fsys s) p with
                 | Ok info => if decide (fi_kind info = KDir) then (Err ErrCopyCorrupt, s) else unlink
                 | Err ENOENT => unlink
                 | Err EIO => (Err (ErrIO "stat"), s)
                 end
        end
  end.
Definition FinishCopyCleanup (id : string) : Op jstate jerr unit :=
  match copyPath id with
  | None => ofail (ErrInvalid "invalid copy id")
  | Some p => with_claim id (tx_fs (finishCopyCleanupBody id p))
  end.

(** ** What recovery must keep *)

(** copyRetention: payload names owned by unsubmitted jobs, and every blob an
    upload row names. *)
Definition copyRetention (d : DB) : res jerr (gset string) :=
  match CopyJobs d with
  | Err e => Err e
  | Ok jobs =>
      Ok (list_to_set (omap (fun j => if decide (j_State j = CopySubmitted) then None else copyPath (j_ID j)) jobs)
          ∪ list_to_set (map r_blob (uploads d)))
  end.

Fixpoint remove_entries (dir : string) (keep : string -> bool) (l : list (string * fkind)) : Op jstate jerr unit :=
  match l with
  | [] => oret tt
  | (name, k) :: l' =>
      let p := Join [dir; name] in
      if decide (k = KDir) then remove_entries dir keep l'
      else if keep p then remove_entries dir keep l'
      else do* os_op "remove" (fun f => Remove f p) tt; remove_entries dir keep l'
  end.

(** cleanCopyOrphans *)
Definition cleanCopyOrphans (live : gset string) : Op jstate jerr unit := fun s =>
  let dir := abs (Join [cfg_dir; "copies"]) in
  if io_error IoReadDir dir then (Err (ErrIO "readdir"), s)
  else remove_entries dir (fun p => bool_decide (p ∈ live)) (ReadDir (fsys s) dir) s.

(** ** Server-side copy intents *)

Definition validServerCopySpec (s : ServerCopySpec) : option jerr :=
  let empty v := bool_decide (v = "") in
  if empty (sc_MetaIdentity s) then Some (ErrInvalid "server copy needs the metadata store identity")
  else if empty (sc_TargetRemote s) || empty (sc_TargetParentID s) || empty (sc_TargetName s)
  then Some (ErrInvalid "server copy needs a complete destination")
  else if empty (sc_SourceRemote s) || empty (sc_SourceID s) then Some (ErrInvalid "server copy needs a source")
  else if sc_TargetParentIno s =? 0 then Some (ErrInvalid "server copy needs the destination parent inode")
  else if sc_Size s <? 0 then Some (ErrInvalid "server copy has a negative size")
  else if contains_char "/"%char (sc_TargetName s) || contains_nul (sc_TargetName s)
  then Some (ErrInvalid "server copy destination name is unsafe")
  else None.

Definition sdest (c : ServerCopy) : string * string * string := (s_remote c, s_parent c, s_name c).

Definition beginServerCopyTx (id : string) (spec : ServerCopySpec) : Tx DB jerr unit := fun d =>
  let c := MkServerCopy spec (sc_TargetRemote spec) (sc_TargetParentID spec) (sc_TargetName spec) "" in
  if decide (map_Forall (fun _ v => sdest v <> sdest c) (server_copies d)) then
    match server_copies d !! id with
    | Some _ => Err ErrUniqueConstraint
    | None => Ok (tt, d <| server_copies ::= <[id := c]> |>)
    end
  else Err ErrServerCopyBusy.
Definition BeginServerCopy (id : string) (spec : ServerCopySpec) : Op jstate jerr string :=
  match validServerCopySpec spec with
  | Some e => ofail e
  | None => do* tx (beginServerCopyTx id spec); oret id
  end.

Definition FinishServerCopy (id : string) : Op jstate jerr unit :=
  tx (tmodify (fun d => d <| server_copies ::= delete id |>)).

Definition NoteServerCopyError (id reason : string) : Op jstate jerr unit :=
  let reason := if decide (2048 < slen reason) then String.substring 0 2048 reason else reason in
  tx (tmodify (fun d => d <| server_copies ::= alter (fun c => c <| s_last_error := reason |>) id |>)).

Definition ServerCopyAt (remote parent name : string) (d : DB) : option (string * ServerCopy) :=
  head (filter (fun kv => sdest (snd kv) = (remote, parent, name)) (map_to_list (server_copies d))).
End Copies.

(** ** The durable prefix *)

Section OpenPayload.
Context {cfg : Config}.

Lemma withCRC_crc want : "crc32c" ∈ withCRC want.
Proof. unfold withCRC. case_decide; set_solver. Qed.

Lemma lookup_stat f p info data :
  Stat f p = Ok info -> ReadFile f p = Some data -> fi_size info = Z.of_nat (length data).
Proof.
  unfold Stat, ReadFile. destruct (io_error IoStat _); [done|]. destruct (_ || _); [done|].
  destruct (lookup_inode f p) as [[i n]|]; [|done]. intros [= <-] [= <-]. done.
Qed.

Lemma ReadFile_SetData f p old data :
  ReadFile f p = Some old -> ReadFile (SetData f p data) p = Some data.
Proof.
  unfold ReadFile, lookup_inode, SetData. destruct (_ || _); [done|].
  destruct (names f !! abs p) as [i|] eqn:E; [|done]. simpl. rewrite E. simpl.
  destruct (inodes f !! i) as [n|] eqn:Ei; [|done]. intros _. rewrite lookup_alter_eq, Ei. done.
Qed.

(** The digests rebuilt from a prefix are the prefix's. *)
Lemma rebuild_prefix want (prefix : list Z) ck :
  Z.of_nat (length prefix) = ck ->
  hash_loop (S (Z.to_nat ck)) hash_buf prefix ck 0 (new_hashers want) = fed_hashers want prefix.
Proof.
  intros <-. rewrite <- (fed_nil want). change (@nil Z) with (take 0 prefix).
  change 0 with (Z.of_nat 0) at 1. apply hash_loop_fed; [unfold hash_buf; lia|lia|lia].
Qed.

Lemma open_payload_Ok job p s s' sg :
  0 <= j_Checkpoint job -> open_payload job p s = (Ok sg, s') ->
  exists data, ReadFile (fsys s) p = Some data /\ s_data sg = take (Z.to_nat (j_Checkpoint job)) data
    /\ s_size sg = j_Checkpoint job
    /\ stg_inv sg /\ j_CRC32C job = crc32c (s_data sg) /\ ReadFile (fsys s') p = Some (s_data sg)
    /\ s_want sg = withCRC (j_Want job).
Proof.
  intros Hc. unfold open_payload. destruct (Stat (fsys s) p) as [info|] eqn:Es; [|done].
  case_decide; [done|]. destruct (ReadFile (fsys s) p) as [data|] eqn:Er; [|done].
  case_decide as Hsz; [done|]. pose proof (lookup_stat _ _ _ _ Es Er) as Hlen.
  set (prefix := take (Z.to_nat (j_Checkpoint job)) data).
  assert (Hpl : Z.of_nat (length prefix) = j_Checkpoint job) by (unfold prefix; rewrite length_take; lia).
  simpl s_hashers. rewrite (rebuild_prefix _ prefix) by done. rewrite sums_of_fed, spec_hashes_lookup.
  rewrite (decide_True (P := "crc32c" ∈ _)) by apply withCRC_crc. case_decide as Hcrc; [done|].
  assert (Hcrc' : j_CRC32C job = crc32c prefix) by (by injection Hcrc as <-).
  assert (Hinv : forall imm, stg_inv ((newStagingState (j_ID job) p (j_Want job)) <| s_data := prefix |>
      <| s_size := j_Checkpoint job |> <| s_pos := j_Checkpoint job |>
      <| s_hashers := fed_hashers (withCRC (j_Want job)) prefix |> <| s_immutable := imm |>))
    by (intros imm; split; [simpl; lia|done]).
  case_decide as Heq; [|case_decide; [done|]]; intros [= <- <-]; exists data; split_and!; try done;
    try apply Hinv.
  - simpl. rewrite Er. f_equal. unfold prefix. rewrite take_ge by lia. done.
  - by apply (ReadFile_SetData _ _ data).
Qed.
End OpenPayload.
