(* ===== verification/JournalRecover.v ===== *)
(** * Group commit and restart recovery
    (internal/journal/group.go, journal.go Recover/verifyBlob, orphans.go)

    [commitBatch] is what every close() waits for: one directory sync and one
    transaction for the rows of several callers.  [Recover] is what makes a
    restart safe: it requeues interrupted uploads, dead-letters rows whose
    payload did not survive, and deletes only files nothing refers to. *)
From S2P Require Import Prelude Filepath JournalState JournalQueue JournalAdmin Staging JournalCopy.
Import Filepath.
Open Scope Z_scope.

Section Group.
Context {cfg : Config}.

Definition groupMax : nat := 64.

(** What the committer counts, for tests and status. *)
Record committer := MkCommitter { batches : Z; rows : Z }.

(** syncObjects: the directory flush that makes the renames durable. *)
Definition syncObjects : bool :=
  bool_decide (cfg_durability = DurabilityCrash)
  || (negb (io_error IoOpen (abs ObjectsDir)) && SyncDir ObjectsDir).

Definition verdict := res jerr unit.

(** One row in a transaction of its own. *)
Definition insert_alone (s : jstate) (u : Upload) : verdict * jstate :=
  tx (insertUploadTx (fsys s) (now s) u) s.

Fixpoint insert_each (s : jstate) (us : list Upload) : list verdict * jstate :=
  match us with
  | [] => ([], s)
  | u :: us' =>
      let '(v, s') := insert_alone s u in
      let '(vs, s'') := insert_each s' us' in
      (v :: vs, s'')
  end.

(** commitBatch: the verdict every caller receives, in request order. *)
Definition commitBatch (batch : list Upload) (c : committer) (s : jstate)
  : list verdict * committer * jstate :=
  if negb syncObjects then (map (fun _ => Err (ErrIO "sync objects")) batch, c, s)
  else
    match tx (tforeach batch (insertUploadTx (fsys s) (now s))) s with
    | (Err e, s') =>
        if decide (1 < length batch)%nat then
          let '(vs, s'') := insert_each s batch in (vs, c, s'')
        else (map (fun _ => Err e) batch,
              MkCommitter (batches c + 1) (rows c + Z.of_nat (length batch)), s')
    | (Ok _, s') =>
        (map (fun _ => Ok tt) batch,
         MkCommitter (batches c + 1) (rows c + Z.of_nat (length batch)), s')
    end.

(** drain: commit whatever is queued, [groupMax] requests at a time. *)
Fixpoint drain (fuel : nat) (queue : list Upload) (c : committer) (s : jstate)
  : list verdict * committer * jstate :=
  match fuel with
  | O => ([], c, s)
  | S fuel' =>
      match queue with
      | [] => ([], c, s)
      | _ =>
          let '(vs, c1, s1) := commitBatch (take groupMax queue) c s in
          let '(vs', c2, s2) := drain fuel' (drop groupMax queue) c1 s1 in
          (vs ++ vs', c2, s2)
      end
  end.

(** Commit, as one caller of a batch of its own: the staging reservation is
    given up only once the row is durable. *)
Definition Commit (u : Upload) (c : committer) : Op jstate jerr committer := fun s =>
  if decide (ID u = "") then (Err (ErrInvalid "upload needs an id"), s)
  else let '(vs, c', s') := commitBatch [u] c s in
       match vs with
       | Ok _ :: _ => (Ok c', snd (releaseStagedObject (StagingID u) (BlobPath u) s'))
       | Err e :: _ => (Err e, s')
       | [] => (Ok c', s')
       end.
End Group.

Section Recovery.
Context {cfg : Config}.

(** verifyBlob: is the object the row points at the one it describes? *)
Definition verifyBlob (f : FS) (u : Upload) : option string :=
  match Stat f (BlobPath u) with
  | Err _ => Some "blob missing after restart"
  | Ok info =>
      if decide (fi_size info <> Size u) then Some "blob truncated after restart"
      else if decide (cfg_durability <> DurabilityCrash) then None
      else match Hashes u !! "crc32c" with
           | None => None
           | Some want =>
               if decide (want = "") then None
               else match ReadFile f (BlobPath u) with
                    | None => Some "blob unreadable after restart"
                    | Some data => if decide (crc32c data = want) then None
                                   else Some "blob corrupt after restart"
                    end
           end
  end.

Record Recovery := MkRecovery {
  Requeued : list string; Lost : list string; OrphanStaging : list string; Skipped : bool
}.
#[export] Instance Recovery_eta : Settable Recovery := fun r =>
  MkRecovery (Requeued r) (Lost r) (OrphanStaging r) (Skipped r).

(** Step 1: acknowledge stops that were in progress. *)
Definition finish_cancels : Op jstate jerr unit := fun s =>
  oforeach (uploads (db s))
    (fun r => if decide (r_state r = StateCancelling) then FinishCancel (r_id r) else oret tt) s.

(** Step 2: dead-letter rows without a good payload, requeue interrupted ones. *)
Fixpoint settle_rows (l : list Upload) (rec : Recovery) : Op jstate jerr Recovery :=
  match l with
  | [] => oret rec
  | u :: l' =>
      let* f := fs_of in
      match verifyBlob f u with
      | Some cause => do* Fail (ID u) cause; settle_rows l' (rec <| Lost ::= fun x => x ++ [ID u] |>)
      | None =>
          if decide (UState u = StateUploading) then
            do* Retry (ID u) "interrupted by restart" 0;
            settle_rows l' (rec <| Requeued ::= fun x => x ++ [ID u] |>)
          else settle_rows l' rec
      end
  end.

(** Step 3: delete the files of a directory that [keep] does not name,
    ignoring those that cannot be removed; the names that went. *)
Fixpoint sweep (dir : string) (keep : string -> bool) (l : list (string * fkind)) (f : FS) : list string * FS :=
  match l with
  | [] => ([], f)
  | (name, k) :: l' =>
      if decide (k = KDir \/ keep name = true) then sweep dir keep l' f
      else match Remove f (Join [dir; name]) with
           | Ok f' => let '(gone, f'') := sweep dir keep l' f' in (name :: gone, f'')
           | Err _ => sweep dir keep l' f
           end
  end.

Definition sweep_op (dir : string) (keep : string -> bool) : Op jstate jerr (list string) := fun s =>
  if io_error IoReadDir (abs dir) then (Err (ErrIO "readdir"), s)
  else let '(gone, f) := sweep dir keep (ReadDir (fsys s) dir) (fsys s) in (Ok gone, s <| fsys := f |>).

(** Base names of the blobs that rows still name. *)
Definition live_names (d : DB) : gset string :=
  list_to_set (map (fun r => Base (r_blob r)) (filter (fun r => r_blob r <> "") (uploads d))).

Definition Recover : Op jstate jerr Recovery :=
  if negb cfg_owner then oret (MkRecovery [] [] [] true)
  else
    let* live := query live_names in
    do* finish_cancels;
    let* keep := query copyRetention in
    match keep with
    | Err e => ofail e
    | Ok copyLive =>
        let* l := query (fun d => map scanUpload (sel (fun r => r_state r = StatePending
                                                               \/ r_state r = StateUploading) d)) in
        let* rec := settle_rows l (MkRecovery [] [] [] false) in
        let* gone := sweep_op StagingDir (fun _ => false) in
        do* cleanCopyOrphans copyLive;
        do* sweep_op ObjectsDir (fun n => bool_decide (n ∈ live));
        oret (rec <| OrphanStaging := gone |>)
    end.

(** OrphanObjects: files under objects/ and copies/ nothing names. *)
Definition orphans_in (dir : string) (f : FS) (live : gset string) (copyLive : gset string) : list (string * fkind) :=
  filter (fun e => snd e <> KDir /\ fst e ∉ live /\ Join [dir; fst e] ∉ copyLive) (ReadDir f dir).

Definition OrphanObjects (s : jstate) : res jerr (list string) :=
  match copyRetention (db s) with
  | Err e => Err e
  | Ok copyLive =>
      if io_error IoReadDir (abs ObjectsDir) || io_error IoReadDir (abs CopiesDir) then Err (ErrIO "readdir")
      else Ok (map fst (orphans_in ObjectsDir (fsys s) (live_names (db s)) copyLive
                        ++ orphans_in CopiesDir (fsys s) (live_names (db s)) copyLive))
  end.
End Recovery.
