(* ===== verification/JournalTx.v ===== *)
(** * The journal's transactions as one alphabet, and how rows evolve

    Every writer transaction of the journal is a constructor of [dbtx]; its
    meaning is the body the methods run.  [ev] says that a transaction only
    rewrites or deletes rows one by one, keeping identity, order and blob
    ownership; almost every transaction is an [ev] step, and the invariants of
    the queue are proved once against it. *)
From S2P Require Import Prelude Filepath JournalState JournalQueue JournalAdmin Staging JournalCopy JournalRecover.
Import Filepath.
Open Scope Z_scope.

Inductive dbtx :=
| TInsert (u : Upload)
| TClaim (remote : string) (n : Z)
| TRetarget (id parent name : string)
| TSetSession (id : string) (session : gmap string string)
| TRecordPart (id : string) (p : Part)
| TSucceed (id : string)
| TRetry (id msg : string) (delay : Z)
| TDefer (id : string) (delay : Z) (why : string)
| TFail (id msg : string)
| TRequeue (id : string)
| TDropIdle (id : string) (pendingOnly : bool)
| TDrop (id : string)
| TTombstone (id : string)
| TMarkPublished (id : string)
| TRequestCancel (id : string)
| TFinishCancel (id : string)
| TResume (p : PreparedUploadResume) (b : option UploadBinding)
| TBeginCleanup (id meta : string)
| TInsertCopy (j : CopyJob)
| TCheckpoint (id : string) (off : Z) (crc : string) (st : CopyState)
| TRetryCopy (id : string) (st : CopyState) (rev : Z)
| TSubmit (j : CopyJob) (u : Upload)
| TFailCopy (id reason : string)
| TCancelCopy (id : string)
| TBeginCopyCleanup (id payload : string)
| TBeginServerCopy (id : string) (spec : ServerCopySpec)
| TFinishServerCopy (id : string).

Section Run.
Context {cfg : Config}.

Definition void {A} (m : Tx DB jerr A) : Tx DB jerr unit := let! _ := m in tret tt.

Definition run (f : FS) (t : Z) (x : dbtx) : Tx DB jerr unit :=
  match x with
  | TInsert u => insertUploadTx f t u
  | TClaim remote n => void (claimTx remote t n)
  | TRetarget id parent name => retargetTx id parent name
  | TSetSession id session => setSessionTx id session
  | TRecordPart id p => recordPartTx id p
  | TSucceed id => void (succeedTx t id)
  | TRetry id msg delay => retryTx t id msg delay
  | TDefer id delay why => deferTx t id delay why
  | TFail id msg => failTx t id msg
  | TRequeue id => requeueTx id
  | TDropIdle id po => void (dropIdleTx id po)
  | TDrop id => dropTx id
  | TTombstone id => tombstoneTx id
  | TMarkPublished id => markPublishedTx id
  | TRequestCancel id => void (requestCancelTx id)
  | TFinishCancel id => finishCancelTx id
  | TResume p b => resumeTx p b
  | TBeginCleanup id meta => void (beginCleanupTx id meta)
  | TInsertCopy j => insertCopyTx j
  | TCheckpoint id off crc st => checkpointTx id off crc st
  | TRetryCopy id st rev => retryCopyTx id st rev
  | TSubmit j u => submitTx f t j u
  | TFailCopy id reason => failCopyTx id reason
  | TCancelCopy id => cancelCopyTx id
  | TBeginCopyCleanup id p => beginCopyCleanupTx id p
  | TBeginServerCopy id spec => beginServerCopyTx id spec
  | TFinishServerCopy id => tmodify (fun d => d <| server_copies ::= delete id |>)
  end.
End Run.

(** ** Rows by id *)

Definition ids (d : DB) : list string := map r_id (uploads d).

Lemma elem_of_sel P `{forall r, Decision (P r)} d r : r ∈ sel P d <-> P r /\ r ∈ uploads d.
Proof. apply list_elem_of_filter. Qed.

Lemma row_of_Some_1 id d r : row_of id d = Some r -> r ∈ uploads d /\ r_id r = id.
Proof.
  unfold row_of. destruct (sel _ d) as [|x l] eqn:E; [done|]. intros [= ->].
  assert (H : r ∈ sel (fun r => r_id r = id) d) by (rewrite E; left).
  apply elem_of_sel in H. tauto.
Qed.

Lemma row_of_None id d : row_of id d = None <-> (forall r, r ∈ uploads d -> r_id r <> id).
Proof.
  unfold row_of. split.
  - destruct (sel _ d) as [|x l] eqn:E; [|done]. intros _ r Hr Hid.
    assert (H : r ∈ sel (fun r => r_id r = id) d) by (by apply elem_of_sel).
    rewrite E in H. by apply elem_of_nil in H.
  - intros H. destruct (sel _ d) as [|x l] eqn:E; [done|].
    assert (Hx : x ∈ sel (fun r => r_id r = id) d) by (rewrite E; left).
    apply elem_of_sel in Hx as [? ?]. exfalso. by eapply H.
Qed.

Lemma NoDup_ids_inj d r r' :
  NoDup (ids d) -> r ∈ uploads d -> r' ∈ uploads d -> r_id r = r_id r' -> r = r'.
Proof.
  unfold ids. induction (uploads d) as [|x l IH]; simpl; [set_solver|].
  intros [Hx Hl]%NoDup_cons Hr Hr' E. rewrite !elem_of_cons in Hr, Hr'.
  destruct Hr as [->|Hr], Hr' as [->|Hr']; [done| | |by apply IH].
  - exfalso. apply Hx. rewrite E. by apply list_elem_of_fmap_2.
  - exfalso. apply Hx. rewrite <- E. by apply list_elem_of_fmap_2.
Qed.

Lemma row_of_Some id d r : NoDup (ids d) -> row_of id d = Some r <-> r ∈ uploads d /\ r_id r = id.
Proof.
  intros Hnd. split; [apply row_of_Some_1|]. intros [Hr Hid].
  destruct (row_of id d) as [r'|] eqn:E.
  - apply row_of_Some_1 in E as [? ?]. f_equal. eapply NoDup_ids_inj; eauto. congruence.
  - rewrite row_of_None in E. naive_solver.
Qed.

(** ** Row-wise evolution *)

Definition keeps_row (r r' : Row) : Prop :=
  r_id r' = r_id r /\ rowid r' = rowid r
  /\ (r_state r' = StatePurging <-> r_state r = StatePurging)
  /\ (r_blob r' = r_blob r \/ r_blob r' = "").

Definition ev_by (g : Row -> option Row) (d d' : DB) : Prop :=
  uploads d' = omap g (uploads d)
  /\ (forall r, r ∈ uploads d ->
        match g r with Some r' => keeps_row r r' | None => r_state r <> StatePurging end)
  /\ upload_cleanup d' = upload_cleanup d
  /\ upload_discarded d' = upload_discarded d
  /\ copy_jobs d' = copy_jobs d
  /\ copy_cleanup d' = copy_cleanup d.

Definition ev (d d' : DB) : Prop := exists g, ev_by g d d'.

Lemma keeps_row_refl r : keeps_row r r.
Proof. unfold keeps_row. tauto. Qed.

Lemma ev_refl d : ev d d.
Proof.
  exists Some. split_and!; try done.
  - induction (uploads d) as [|x l IH]; [done|]. exact (f_equal (cons x) IH).
  - intros r _. apply keeps_row_refl.
Qed.

Lemma ev_trans d1 d2 d3 : ev d1 d2 -> ev d2 d3 -> ev d1 d3.
Proof.
  intros (g & Hu & Hg & Hc & Hd & Hj & Hk) (h & Hu' & Hh & Hc' & Hd' & Hj' & Hk').
  exists (fun r => g r ≫= h). split_and!; try congruence.
  - rewrite Hu', Hu. clear. induction (uploads d1) as [|x l IH]; [done|]. simpl.
    destruct (g x) as [y|]; simpl; [|exact IH].
    destruct (h y); [exact (f_equal (cons _) IH)|exact IH].
  - intros r Hr. pose proof (Hg r Hr) as H1. destruct (g r) as [r1|] eqn:E; simpl; [|done].
    assert (Hr1 : r1 ∈ uploads d2) by (rewrite Hu; apply list_elem_of_omap; eauto).
    pose proof (Hh r1 Hr1) as H2. unfold keeps_row in *.
    destruct (h r1) as [r2|]; [|tauto].
    destruct H1 as (? & ? & ? & [Hb|Hb]), H2 as (? & ? & ? & [Hb2|Hb2]);
      split_and!; try congruence; try tauto; rewrite Hb2, ?Hb; auto.
Qed.

(** A change of side tables only. *)
Lemma ev_side d d' :
  uploads d' = uploads d -> upload_cleanup d' = upload_cleanup d ->
  upload_discarded d' = upload_discarded d -> copy_jobs d' = copy_jobs d ->
  copy_cleanup d' = copy_cleanup d -> ev d d'.
Proof.
  intros H1 H2 H3 H4 H5. destruct (ev_refl d) as (g & Hu & Hg & _).
  exists g. split_and!; try done. by rewrite H1.
Qed.

Lemma uploads_upd_rows P `{forall r, Decision (P r)} f d :
  uploads (upd_rows P f d) = map (fun r => if decide (P r) then f r else r) (uploads d).
Proof. done. Qed.

Lemma uploads_del_rows P `{forall r, Decision (P r)} d :
  uploads (del_rows P d) = filter (fun r => ~ P r) (uploads d).
Proof. done. Qed.

Lemma ev_upd_rows P `{forall r, Decision (P r)} f d :
  (forall r, r ∈ uploads d -> P r -> keeps_row r (f r)) -> ev d (upd_rows P f d).
Proof.
  intros Hf. exists (fun r => Some (if decide (P r) then f r else r)). split_and!; try done.
  intros r Hr. case_decide; [by apply Hf|apply keeps_row_refl].
Qed.

Lemma ev_del_rows P `{forall r, Decision (P r)} d :
  (forall r, r ∈ uploads d -> P r -> r_state r <> StatePurging) -> ev d (del_rows P d).
Proof.
  intros Hf. exists (fun r => if decide (P r) then None else Some r). split_and!; try done.
  - rewrite uploads_del_rows. clear. induction (uploads d) as [|x l IH]; [done|]. rewrite filter_cons. simpl.
    destruct (decide (P x)); [rewrite decide_False by tauto; exact IH|].
    rewrite decide_True by tauto. exact (f_equal (cons x) IH).
  - intros r Hr. case_decide; [by apply Hf|apply keeps_row_refl].
Qed.

Create HintDb journal.
#[export] Hint Resolve ev_refl keeps_row_refl : journal.

(** Rewriting one non-purging row to another non-purging state. *)
Lemma ev_upd_id id f d :
  (forall r, r ∈ uploads d -> r_id r = id -> keeps_row r (f r)) -> ev d (upd_id id f d).
Proof. apply ev_upd_rows. Qed.

Lemma ev_del_id id d :
  (forall r, r ∈ uploads d -> r_id r = id -> r_state r <> StatePurging) -> ev d (del_id id d).
Proof. apply ev_del_rows. Qed.

Lemma ev_del_parts id d : ev d (del_parts id d). Proof. by apply ev_side. Qed.
Lemma ev_del_dead id d : ev d (del_dead id d). Proof. by apply ev_side. Qed.
Lemma ev_del_cancellation id d : ev d (del_cancellation id d). Proof. by apply ev_side. Qed.
Lemma ev_del_history id d : ev d (del_history id d). Proof. by apply ev_side. Qed.
#[export] Hint Resolve ev_del_parts ev_del_dead ev_del_cancellation ev_del_history : journal.

(** What the guards establish about the row they protect. *)
Lemma guardNotPurging_Ok id d a d' :
  guardNotPurging id d = Ok (a, d') ->
  d' = d /\ forall r, row_of id d = Some r -> r_state r <> StatePurging.
Proof.
  unfold guardNotPurging, uploadMutationState. intros H.
  destruct (row_of id d) as [r|].
  - destruct (r_state r) eqn:E; simplify_eq; split; try done; intros ? [= <-]; congruence.
  - destruct (upload_discarded d !! id); simplify_eq. done.
Qed.

Lemma guardNotCancelled_Ok id d a d' :
  guardNotCancelled id d = Ok (a, d') ->
  d' = d /\ (forall r, row_of id d = Some r ->
               r_state r <> StatePurging /\ r_state r <> StateCancelled /\ r_state r <> StateCancelling)
  /\ (row_of id d = None -> upload_discarded d !! id = None).
Proof.
  unfold guardNotCancelled, uploadMutationState. intros H.
  destruct (row_of id d) as [r|].
  - destruct (r_state r) eqn:E; simplify_eq; split_and!; try done; intros ? [= <-]; split_and!; congruence.
  - destruct (upload_discarded d !! id); simplify_eq. done.
Qed.

Lemma trequire_Ok b e d a d' : trequire b e d = Ok (a, d') -> b = true /\ d' = d.
Proof. unfold trequire. destruct b; simpl; [intros [= _ <-]; done|done]. Qed.

(** Unfold a successful transaction body into its successful parts. *)
Ltac tx_inv :=
  repeat match goal with
  | H : tbind _ _ _ = Ok (_, _) |- _ => apply tbind_Ok in H as (?a & ?d & ?H & H)
  | H : tret _ _ = Ok (_, _) |- _ => injection H; clear H; intros; subst
  | H : tmodify _ _ = Ok (_, _) |- _ => injection H; clear H; intros; subst
  | H : tget _ = Ok (_, _) |- _ => injection H; clear H; intros; subst
  | H : tfail _ _ = Ok (_, _) |- _ => discriminate H
  | H : Err _ = Ok _ |- _ => discriminate H
  | H : Ok _ = Ok _ |- _ => injection H; clear H; intros; subst
  | H : void _ _ = Ok (_, _) |- _ => unfold void in H
  | H : trequire _ _ _ = Ok (_, _) |- _ => apply trequire_Ok in H as [?Hr ?]; subst
  | H : guardNotPurging _ _ = Ok (_, _) |- _ => apply guardNotPurging_Ok in H as [-> ?Hg]
  | H : guardNotCancelled _ _ = Ok (_, _) |- _ => apply guardNotCancelled_Ok in H as (-> & ?Hg & ?Hn)
  end.
