(* ===== verification/JournalInv.v ===== *)
(** * Invariants of the queue's database

    [DBInv]: identities and order of rows, the pairing of purging rows with
    cleanup intents, the permanence of discarded ids.  Every transaction of
    [dbtx] preserves it. *)
From S2P Require Import Prelude Filepath JournalState JournalQueue JournalAdmin Staging JournalCopy JournalRecover JournalTx.
Import Filepath.
Open Scope Z_scope.

(** Close goals about the row a guard has examined. *)
Ltac keeps :=
  unfold keeps_row; cbn; split_and!; try done; try tauto;
  try (split; intros; simplify_eq/=; try done; try congruence; try tauto).

Section Rowwise.
Context {cfg : Config}.

(** Transactions on uploads that only rewrite or delete existing rows. *)
Definition rowwise (x : dbtx) : Prop :=
  match x with
  | TInsert _ | TBeginCleanup _ _ | TInsertCopy _ | TCheckpoint _ _ _ _ | TRetryCopy _ _ _
  | TSubmit _ _ | TFailCopy _ _ | TCancelCopy _ | TBeginCopyCleanup _ _ => False
  | _ => True
  end.

Lemma guarded d id r (P : Row -> Prop) :
  NoDup (ids d) -> (forall r, row_of id d = Some r -> P r) ->
  r ∈ uploads d -> r_id r = id -> P r.
Proof. intros Hnd H Hr Hid. apply H. by apply row_of_Some. Qed.

Lemma ev_upd_guarded d id f :
  NoDup (ids d) ->
  (forall r, row_of id d = Some r -> keeps_row r (f r)) -> ev d (upd_id id f d).
Proof. intros Hnd H. apply ev_upd_id. intros r Hr Hid. by eapply (guarded d id r). Qed.

Lemma ev_del_guarded d id :
  NoDup (ids d) ->
  (forall r, row_of id d = Some r -> r_state r <> StatePurging) -> ev d (del_id id d).
Proof. intros Hnd H. apply ev_del_id. intros r Hr Hid. by eapply (guarded d id r). Qed.

(** Claiming and pruning fold a row-wise change over a list of ids. *)
Lemma ev_claims out d :
  (forall x r, x ∈ out -> r ∈ uploads d -> r_id r = r_id x -> r_state r <> StatePurging) ->
  ev d (fold_left (fun acc x => upd_id (r_id x) (fun r => r <| r_state := StateUploading |>) acc) out d).
Proof.
  revert d. induction out as [|x out IH]; intros d H; simpl; [apply ev_refl|].
  eapply ev_trans; [apply (ev_upd_id (r_id x) (fun r => r <| r_state := StateUploading |>))|apply IH].
  - intros r Hr Hid. pose proof (H x r ltac:(left) Hr Hid). keeps.
  - intros y r Hy Hr Hid. apply list_elem_of_fmap in Hr as (r0 & -> & Hr0).
    case_decide; [done|]. eapply H; eauto. by right.
Qed.

Lemma ev_prunes victims d :
  (forall id r, id ∈ victims -> r ∈ uploads d -> r_id r = id -> r_state r <> StatePurging) ->
  ev d (fold_left (fun d id => del_history id (del_cancellation id
                                 (del_dead id (del_parts id (del_id id d))))) victims d).
Proof.
  revert d. induction victims as [|x out IH]; intros d H; simpl; [apply ev_refl|].
  eapply ev_trans; [apply (ev_del_id x)|].
  - intros r Hr Hid. eapply H; eauto. by left.
  - eapply ev_trans; [apply ev_side|apply IH]; try done.
    intros id r Hid Hr. apply list_elem_of_filter in Hr as [_ Hr]. intros Hrid.
    eapply H; eauto. by right.
Qed.

Lemma elem_of_sublist_take {A} n (l : list A) x : x ∈ take n l -> x ∈ l.
Proof. intros H. eapply elem_of_sublist; [exact H|apply sublist_take]. Qed.

Lemma elem_of_limit {A} n (l : list A) x : x ∈ limit n l -> x ∈ l.
Proof. unfold limit. case_decide; [done|]. apply elem_of_sublist_take. Qed.

Lemma ev_claimTx remote t n d a d' : claimTx remote t n d = Ok (a, d') -> NoDup (ids d) -> ev d d'.
Proof.
  intros [= _ <-] Hnd. apply ev_claims. intros x r Hx Hr Hid.
  apply elem_of_limit, elem_of_sel in Hx as [(_ & Hst & _) Hx].
  rewrite (NoDup_ids_inj d r x); try done. congruence.
Qed.

Lemma ev_pruneDoneTx before d a d' : pruneDoneTx before d = Ok (a, d') -> NoDup (ids d) -> ev d d'.
Proof.
  intros [= _ <-] Hnd. apply ev_prunes. intros id r Hid Hr Hrid.
  apply list_elem_of_fmap in Hid as (x & -> & Hx).
  apply elem_of_sel in Hx as [(Hst & _) Hx].
  rewrite (NoDup_ids_inj d r x); try done. congruence.
Qed.

Lemma ids_upd_id id f d : (forall r, r_id (f r) = r_id r) -> ids (upd_id id f d) = ids d.
Proof.
  intros Hf. unfold ids, upd_id. rewrite uploads_upd_rows, map_map. apply map_ext.
  intros r. by case_decide.
Qed.

Lemma ev_succeedTx t id d a d' : succeedTx t id d = Ok (a, d') -> NoDup (ids d) -> ev d d'.
Proof.
  unfold succeedTx. intros H Hnd. tx_inv. destruct (row_of id _) as [r|] eqn:E; tx_inv.
  eapply ev_trans; [apply (ev_upd_guarded _ id (fun r => r <| r_state := StateDone |> <| r_last_error := "" |>
            <| r_blob := "" |> <| r_done_at := unixMilli (Some t) |>)); [done|]|].
  - intros r' Hr'. rewrite E in Hr'. destruct (Hg r' Hr') as (? & _ & _). keeps.
  - eapply ev_trans; [apply (ev_del_parts id)|]. eapply ev_pruneDoneTx; [eassumption|].
    change (NoDup (ids (upd_id id (fun r => r <| r_state := StateDone |> <| r_last_error := "" |>
            <| r_blob := "" |> <| r_done_at := unixMilli (Some t) |>) d))).
    by rewrite ids_upd_id.
Qed.

Lemma ev_drop_tables id d :
  NoDup (ids d) -> (forall r, row_of id d = Some r -> r_state r <> StatePurging) ->
  ev d (drop_tables id d).
Proof.
  intros Hnd H. eapply ev_trans; [by apply (ev_del_guarded d id)|].
  by apply ev_side.
Qed.

Lemma ev_dropIdleTx id po d a d' : dropIdleTx id po d = Ok (a, d') -> NoDup (ids d) -> ev d d'.
Proof.
  unfold dropIdleTx. intros H Hnd. tx_inv. destruct (row_of id _) as [r|] eqn:E; tx_inv.
  destruct (r_state r) eqn:Es; tx_inv;
    repeat case_decide; tx_inv; (apply ev_drop_tables; [done|]; rewrite E; auto).
Qed.

Lemma ev_requeueTx id d a d' : requeueTx id d = Ok (a, d') -> NoDup (ids d) -> ev d d'.
Proof.
  unfold requeueTx. intros H Hnd. tx_inv. destruct (row_of id _) as [r|] eqn:E; tx_inv.
  destruct (r_state r) eqn:Es; tx_inv.
  eapply ev_trans; [apply ev_upd_guarded; [done|]|apply ev_del_dead].
  intros r' Hr'. rewrite E in Hr'. specialize (Hg r' Hr'). keeps.
Qed.

Lemma ev_resumeTx p b d a d' : resumeTx p b d = Ok (a, d') -> NoDup (ids d) -> ev d d'.
Proof.
  unfold resumeTx. intros H Hnd. destruct (row_of _ d) as [r|] eqn:E; tx_inv.
  case_decide as Hc; [done|]. case_decide; [done|].
  destruct (upload_resume_history d !! _); tx_inv.
  set (d2 := del_dead (ID (p_u p)) (del_parts (ID (p_u p)) _)).
  eapply ev_trans; [by apply (ev_side d d2)|].
  apply ev_upd_guarded; [done|]. intros r' Hr'.
  change (row_of (ID (p_u p)) d = Some r') in Hr'. rewrite E in Hr'. injection Hr' as <-.
  assert (r_state r = StateCancelled) by (destruct (decide (r_state r = StateCancelled)); tauto).
  destruct b; keeps.
Qed.

Lemma ev_requestCancelTx id d a d' : requestCancelTx id d = Ok (a, d') -> NoDup (ids d) -> ev d d'.
Proof.
  unfold requestCancelTx. intros H Hnd. destruct (row_of id d) as [r|] eqn:E; tx_inv.
  case_decide; [done|]. destruct (cancel_target (r_state r)) as [st|] eqn:Et; tx_inv.
  set (d2 := d <| upload_cancellation ::= _ |>).
  eapply ev_trans; [by apply (ev_side d d2)|].
  apply ev_upd_guarded; [done|]. intros r' Hr'.
  change (row_of id d = Some r') in Hr'. rewrite E in Hr'. injection Hr' as <-.
  unfold cancel_target in Et. destruct (r_state r) eqn:?; simplify_eq; keeps.
Qed.

Lemma run_ev f t x d d' :
  rowwise x -> NoDup (ids d) -> run f t x d = Ok (tt, d') -> ev d d'.
Proof.
  intros Hx Hnd H. destruct x; try done; simpl in H; tx_inv.
  - by eapply ev_claimTx.
  - unfold retargetTx in H. tx_inv. case_decide; [done|]. tx_inv. apply ev_upd_rows.
    intros r Hr [? ?]. keeps.
  - unfold setSessionTx in H. tx_inv. apply ev_upd_guarded; [done|]. intros r Hr. keeps.
  - unfold recordPartTx in H. tx_inv. by apply ev_side.
  - by eapply ev_succeedTx.
  - unfold retryTx in H. tx_inv. apply ev_upd_guarded; [done|].
    intros r Hr. destruct (Hg r Hr) as (? & _ & _). keeps.
  - unfold deferTx in H. tx_inv. apply ev_upd_guarded; [done|].
    intros r Hr. destruct (Hg r Hr) as (? & _ & _). keeps.
  - unfold failTx in H. tx_inv. eapply ev_trans; [apply ev_upd_guarded; [done|]|by apply ev_side].
    intros r Hr. destruct (Hg r Hr) as (? & _ & _). keeps.
  - by eapply ev_requeueTx.
  - by eapply ev_dropIdleTx.
  - unfold dropTx in H. tx_inv. apply ev_drop_tables; [done|]. intros r Hr. by apply Hg.
  - unfold tombstoneTx in H. tx_inv. destruct (row_of id _) eqn:E; tx_inv.
    apply ev_upd_guarded; [done|]. intros r' Hr'. keeps.
  - unfold markPublishedTx in H. tx_inv. destruct (row_of id _) eqn:E; tx_inv.
    apply ev_upd_guarded; [done|]. intros r' Hr'. keeps.
  - by eapply ev_requestCancelTx.
  - unfold finishCancelTx in H. tx_inv. apply ev_upd_rows. intros r Hr [? ?]. keeps.
  - by eapply ev_resumeTx.
  - unfold beginServerCopyTx in H. case_decide; [|done].
    destruct (server_copies d !! id); tx_inv. by apply ev_side.
  - by apply ev_side.
Qed.
End Rowwise.

(** ** The database invariant *)

Record DBInv (d : DB) : Prop := {
  inv_ids : NoDup (ids d);
  inv_rowids : StronglySorted Z.lt (map rowid (uploads d));
  inv_purging : forall r, r ∈ uploads d -> r_state r = StatePurging <-> is_Some (upload_cleanup d !! r_id r);
  inv_intent : forall id, is_Some (upload_cleanup d !! id) -> id ∈ ids d;
  inv_discarded : forall id, is_Some (upload_discarded d !! id) -> id ∉ ids d;
  inv_copies : forall id, copy_jobs d !! id = None \/ copy_cleanup d !! id = None;
  inv_dest : forall i j a b, copy_jobs d !! i = Some a -> copy_jobs d !! j = Some b ->
               active_copy (c_state a) -> active_copy (c_state b) -> dest a = dest b -> i = j
}.

Lemma elem_of_ids id d : id ∈ ids d <-> exists r, r ∈ uploads d /\ r_id r = id.
Proof. unfold ids. rewrite list_elem_of_fmap. naive_solver. Qed.

Lemma StronglySorted_sublist {A} (R : A -> A -> Prop) l l' :
  l `sublist_of` l' -> StronglySorted R l' -> StronglySorted R l.
Proof.
  induction 1 as [|x l l' Hs IH|x l l' Hs IH]; intros H; [constructor| |].
  - inversion_clear H as [|? ? Hl HF]. constructor; [by apply IH|].
    rewrite Forall_forall in *. intros y Hy. apply HF. by eapply elem_of_sublist.
  - inversion_clear H. by apply IH.
Qed.

Lemma ev_sublist {B} (p : Row -> B) g d d' :
  ev_by g d d' -> (forall r r', g r = Some r' -> r ∈ uploads d -> p r' = p r) ->
  map p (uploads d') `sublist_of` map p (uploads d).
Proof.
  intros (Hu & _ & _) Hp. rewrite Hu. clear Hu.
  induction (uploads d) as [|x l IH]; [constructor|]. simpl.
  assert (Hl : map p (omap g l) `sublist_of` map p l).
  { apply IH. intros r r' Hr Hin. apply (Hp r r' Hr). by right. }
  destruct (g x) as [y|] eqn:E; simpl.
  - rewrite (Hp x y E) by left. by constructor.
  - by constructor.
Qed.

(** Row by row: where a surviving row comes from. *)
Lemma ev_origin d d' r' :
  ev d d' -> r' ∈ uploads d' -> exists r, r ∈ uploads d /\ keeps_row r r'.
Proof.
  intros (g & Hu & Hg & _) Hr'. rewrite Hu in Hr'.
  apply list_elem_of_omap in Hr' as (r & Hr & E). exists r. split; [done|].
  specialize (Hg r Hr). by rewrite E in Hg.
Qed.

Lemma ev_purging_stays d d' r :
  ev d d' -> r ∈ uploads d -> r_state r = StatePurging ->
  exists r', r' ∈ uploads d' /\ keeps_row r r'.
Proof.
  intros (g & Hu & Hg & _) Hr Hst. specialize (Hg r Hr).
  destruct (g r) as [r'|] eqn:E; [|done]. exists r'. split; [|done].
  rewrite Hu. apply list_elem_of_omap. eauto.
Qed.

Lemma ev_DBInv d d' : ev d d' -> DBInv d -> DBInv d'.
Proof.
  intros Hev [I1 I2 I3 I4 I5 I6 I7]. pose proof Hev as (g & Hgg).
  pose proof Hgg as (Hu & Hg & Hc & Hd & Hj & Hk).
  assert (Hids : ids d' `sublist_of` ids d).
  { eapply (ev_sublist r_id g); [done|]. intros r r' E Hr. specialize (Hg r Hr).
    rewrite E in Hg. apply Hg. }
  split.
  - eapply sublist_NoDup; eauto.
  - eapply StronglySorted_sublist; [|exact I2].
    eapply (ev_sublist rowid g); [done|]. intros r r' E Hr. specialize (Hg r Hr).
    rewrite E in Hg. apply Hg.
  - intros r' Hr'. destruct (ev_origin _ _ _ Hev Hr') as (r & Hr & Hid & _ & Hp & _).
    rewrite Hc, Hid, <- (I3 r Hr). done.
  - intros id Hid. rewrite Hc in Hid. pose proof Hid as Hid'.
    apply I4, elem_of_ids in Hid as (r & Hr & Hrid).
    destruct (ev_purging_stays _ _ r Hev Hr) as (r' & Hr' & Hk').
    { apply I3; [done|]. by rewrite Hrid. }
    apply elem_of_ids. exists r'. split; [done|]. by rewrite (proj1 Hk').
  - intros id Hid Hin. rewrite Hd in Hid. apply (I5 id Hid).
    apply elem_of_ids in Hin as (r' & Hr' & <-).
    destruct (ev_origin _ _ _ Hev Hr') as (r & Hr & Hid' & _). apply elem_of_ids. eauto.
  - by rewrite Hj, Hk.
  - by rewrite Hj.
Qed.

Section Preserved.
Context {cfg : Config}.

Lemma next_rowid_gt d r : r ∈ uploads d -> rowid r < next_rowid d.
Proof.
  unfold next_rowid. induction (uploads d) as [|x l IH]; [set_solver|]. simpl.
  intros [->|Hr]%elem_of_cons; [lia|]. specialize (IH Hr). lia.
Qed.

Lemma DBInv_append d r :
  DBInv d -> rowid r = next_rowid d -> r_id r ∉ ids d -> upload_discarded d !! r_id r = None ->
  r_state r <> StatePurging ->
  DBInv (d <| uploads ::= fun l => l ++ [r] |>).
Proof.
  intros [I1 I2 I3 I4 I5 I6 I7] Hr Hid Hdis Hst.
  set (d' := d <| uploads ::= fun l => l ++ [r] |>).
  assert (Hids : ids d' = ids d ++ [r_id r]) by (unfold ids; simpl; by rewrite map_app).
  split; simpl; try done.
  - rewrite Hids. apply NoDup_app. split_and!; [done| |apply NoDup_singleton].
    intros x Hx ->%list_elem_of_singleton. done.
  - rewrite map_app. apply StronglySorted_app_2; [|done|by repeat constructor].
    intros x y Hx%list_elem_of_fmap ->%list_elem_of_singleton.
    destruct Hx as (r0 & -> & Hr0). rewrite Hr. by apply next_rowid_gt.
  - intros x [Hx| ->%list_elem_of_singleton]%elem_of_app; [by apply I3|].
    split; [done|]. intros Hc. exfalso. by apply Hid, I4.
  - intros id Hc. rewrite Hids. apply elem_of_app. left. by apply I4.
  - intros id Hc. rewrite Hids, elem_of_app, list_elem_of_singleton.
    intros [?| ->]; [by eapply I5|]. rewrite Hdis in Hc. by destruct Hc.
Qed.

(** A row overwritten by ON CONFLICT keeps its identity and stays out of
    purging, but takes the new blob. *)
Lemma DBInv_overwrite d id f :
  DBInv d ->
  (forall r, r ∈ uploads d -> r_id r = id ->
     r_id (f r) = r_id r /\ rowid (f r) = rowid r
     /\ (r_state (f r) = StatePurging <-> r_state r = StatePurging)) ->
  DBInv (upd_id id f d).
Proof.
  intros [I1 I2 I3 I4 I5 I6 I7] Hf.
  assert (Hall : forall r, r ∈ uploads d ->
    let r' := if decide (r_id r = id) then f r else r in
    r_id r' = r_id r /\ rowid r' = rowid r /\ (r_state r' = StatePurging <-> r_state r = StatePurging)).
  { intros r Hr. simpl. case_decide; [by apply Hf|done]. }
  assert (Hids : ids (upd_id id f d) = ids d).
  { unfold ids, upd_id. rewrite uploads_upd_rows, map_map. apply map_ext_in.
    intros r Hr%list_elem_of_In. by apply Hall. }
  split; try done.
  - by rewrite Hids.
  - unfold upd_id. rewrite uploads_upd_rows, map_map.
    replace (map _ (uploads d)) with (map rowid (uploads d)); [done|].
    apply map_ext_in. intros r Hr%list_elem_of_In. symmetry. by apply Hall.
  - intros r' Hr'. apply list_elem_of_fmap in Hr' as (r & -> & Hr).
    destruct (Hall r Hr) as (-> & _ & ->). by apply I3.
  - intros x Hx. rewrite Hids. by apply I4.
  - intros x Hx. rewrite Hids. by apply I5.
Qed.

Lemma checkCopy_Ok blob d a d' : checkCopyUploadOwner blob d = Ok (a, d') -> d' = d.
Proof.
  unfold checkCopyUploadOwner. case_decide; [|by intros [= _ <-]].
  destruct (copyPath _); [|done]. case_decide; [|done].
  destruct (copy_jobs d !! _); [by intros [= _ <-]|done].
Qed.

Lemma checkDiscarded_Ok f blob d a d' : checkDiscardedPayload f blob d = Ok (a, d') -> d' = d.
Proof.
  unfold checkDiscardedPayload. case_decide; [by intros [= _ <-]|].
  destruct (Stat f _); [|done]. case_decide; [by intros [= _ <-]|done].
Qed.

(** What a successful insert did. *)
Lemma insertUploadTx_Ok f t u d a d' :
  insertUploadTx f t u d = Ok (a, d') ->
  UState u <> StatePurging
  /\ ((exists r, row_of (ID u) d = Some r
       /\ r_state r <> StatePurging /\ r_state r <> StateCancelled /\ r_state r <> StateCancelling
       /\ exists g, d' = upd_id (ID u) g d
          /\ forall r, r_id (g r) = r_id r /\ rowid (g r) = rowid r
               /\ r_state (g r) <> StatePurging /\ r_blob (g r) = BlobPath u)
      \/ (row_of (ID u) d = None /\ upload_discarded d !! ID u = None
          /\ exists r, d' = d <| uploads ::= fun l => l ++ [r] |> /\ rowid r = next_rowid d
               /\ r_id r = ID u /\ r_state r <> StatePurging /\ r_blob r = BlobPath u)).
Proof.
  unfold insertUploadTx. intros H. tx_inv.
  match goal with H : checkCopyUploadOwner _ _ = _ |- _ => apply checkCopy_Ok in H as -> end.
  match goal with H : checkDiscardedPayload _ _ _ = _ |- _ => apply checkDiscarded_Ok in H as -> end.
  match goal with H : bool_decide (UState _ <> _) = true |- _ => apply bool_decide_eq_true in H as Hp end.
  split; [done|].
  assert (Hst : (if decide (UState u = StateUnset) then StatePending else UState u) <> StatePurging)
    by (by case_decide).
  destruct (row_of (ID u) _) as [r|] eqn:E; tx_inv.
  - left. exists r. destruct (Hg r eq_refl) as (? & ? & ?). split_and!; try done.
    eexists. split; [reflexivity|]. intros r0. by split_and!.
  - right. split_and!; [done|auto|]. eexists. split; [reflexivity|]. by split_and!.
Qed.

Lemma DBInv_insert f t u d a d' : insertUploadTx f t u d = Ok (a, d') -> DBInv d -> DBInv d'.
Proof.
  intros H Hd. apply insertUploadTx_Ok in H as [_ [H|H]].
  - destruct H as (r & Hr & Hp & _ & _ & g & -> & Hg). apply DBInv_overwrite; [done|].
    intros r0 Hr0 Hid. destruct (Hg r0) as (? & ? & ? & _). split_and!; try done.
    split; [done|]. intros Hx. exfalso. apply Hp.
    assert (Some r0 = Some r) as [= <-]; [|done]. rewrite <- Hr. symmetry.
    apply row_of_Some; [apply Hd|done].
  - destruct H as (Hno & Hdis & r & -> & Hrow & Hid & Hst & _). apply DBInv_append; try done.
    + rewrite Hid, elem_of_ids. intros (x & Hx & Hxid). rewrite row_of_None in Hno. by eapply Hno.
    + by rewrite Hid.
Qed.

Lemma DBInv_beginCleanup id meta d a d' :
  beginCleanupTx id meta d = Ok (a, d') -> DBInv d -> DBInv d'.
Proof.
  unfold beginCleanupTx. intros H Hd. destruct (row_of id d) as [r|] eqn:E; [|done].
  case_decide; [by destruct (uploadCleanupTx _ _ _); simplify_eq|].
  case_decide; [done|]. destruct (cleanupUploadPath _) as [p|]; [|done].
  destruct (upload_cleanup d !! id) eqn:Ec; [done|]. simplify_eq.
  apply row_of_Some_1 in E as [Hr Hid]. destruct Hd as [I1 I2 I3 I4 I5 I6 I7].
  set (g := fun r : Row => r <| r_state := StatePurging |> <| r_last_error := purging_text |>).
  set (d1 := d <| upload_cleanup ::= <[id := (meta, p)]> |>).
  assert (Hids : ids (upd_id id g d1) = ids d) by (by rewrite (ids_upd_id id g d1)).
  split; try done.
  - by rewrite Hids.
  - unfold upd_id. rewrite uploads_upd_rows, map_map.
    replace (map _ (uploads d1)) with (map rowid (uploads d)); [done|].
    apply map_ext. intros x. by case_decide.
  - intros x Hx. apply list_elem_of_fmap in Hx as (x0 & -> & Hx0).
    change (upload_cleanup (upd_id id g d1)) with (<[id := (meta, p)]> (upload_cleanup d)).
    case_decide as Hxi.
    + change (r_id (g x0)) with (r_id x0). rewrite Hxi, lookup_insert_eq. done.
    + rewrite lookup_insert_ne by done. by apply I3.
  - intros x Hx. rewrite Hids. change (is_Some (<[id := (meta, p)]> (upload_cleanup d) !! x)) in Hx.
    destruct (decide (x = id)) as [->|]; [apply elem_of_ids; eauto|].
    rewrite lookup_insert_ne in Hx by done. by apply I4.
  - intros x Hx. rewrite Hids. by apply I5.
Qed.

(** Changes confined to copy_jobs. *)
Lemma DBInv_put_copy id c d a d' :
  put_copy id c d = Ok (a, d') -> copy_cleanup d !! id = None -> DBInv d -> DBInv d'.
Proof.
  unfold put_copy. intros H Hk Hd. case_decide as Hc; [done|]. simplify_eq.
  destruct Hd as [I1 I2 I3 I4 I5 I6 I7]. split; try done; simpl.
  - intros x. destruct (decide (x = id)) as [->|]; [by right|].
    rewrite lookup_insert_ne by done. apply I6.
  - assert (Hother : active_copy (c_state c) -> forall k b, k <> id -> copy_jobs d !! k = Some b ->
              active_copy (c_state b) -> dest b <> dest c).
    { intros Ha k b Hne Hb Hab. destruct (decide (dest_taken id c d)) as [|Hn]; [tauto|].
      unfold dest_taken in Hn. apply dec_stable in Hn. specialize (Hn k b Hb). simpl in Hn. tauto. }
    intros i j x y Hx Hy Hax Hay Hxy.
    destruct (decide (i = id)) as [->|Hi], (decide (j = id)) as [->|Hj]; [done| | |].
    + apply lookup_insert_Some in Hx as [[_ <-]|[]]; [|done]. rewrite lookup_insert_ne in Hy by done.
      exfalso. eapply (Hother Hax j y); done.
    + apply lookup_insert_Some in Hy as [[_ <-]|[]]; [|done]. rewrite lookup_insert_ne in Hx by done.
      exfalso. eapply (Hother Hay i x); done.
    + rewrite lookup_insert_ne in Hx, Hy by done. eauto.
Qed.

Lemma no_cleanup id d c : DBInv d -> copy_jobs d !! id = Some c -> copy_cleanup d !! id = None.
Proof. intros Hd Hc. destruct (inv_copies d Hd id) as [E|]; [by rewrite Hc in E|done]. Qed.

Lemma DBInv_beginCopyCleanup id p d a d' :
  beginCopyCleanupTx id p d = Ok (a, d') -> DBInv d -> DBInv d'.
Proof.
  unfold beginCopyCleanupTx. intros H Hd. destruct (copyUploadsAbsent id p d); [|done]. simpl in H.
  destruct (copy_cleanup d !! id) eqn:E; [by simplify_eq|].
  destruct (copy_jobs d !! id) as [c|] eqn:Ec; [|done]. case_decide; [|done]. simplify_eq.
  destruct Hd as [I1 I2 I3 I4 I5 I6 I7]. split; try done; simpl.
  - intros x. destruct (decide (x = id)) as [->|]; [left; by rewrite lookup_delete_eq|].
    rewrite lookup_delete_ne, lookup_insert_ne by done. apply I6.
  - intros i j x y Hx Hy. apply lookup_delete_Some in Hx as [_ Hx], Hy as [_ Hy]. eauto.
Qed.

(** Submitting changes the job to an inactive state, then inserts the row. *)
Lemma DBInv_submit f t j u d a d' : submitTx f t j u d = Ok (a, d') -> DBInv d -> DBInv d'.
Proof.
  unfold submitTx. intros H Hd. destruct (row_of (ID u) d); [done|].
  destruct (copy_jobs d !! j_ID j) as [c|] eqn:Ec; [|done]. case_decide; [|done].
  eapply DBInv_insert; [exact H|].
  eapply (DBInv_put_copy (j_ID j) (c <| c_state := CopySubmitted |>) d tt);
    [|by eapply no_cleanup|done].
  unfold put_copy. rewrite decide_False; [done|]. simpl. unfold active_copy. naive_solver.
Qed.

(** A new copy job's identifier (a fresh UUID) is not that of a cleanup
    still in progress. *)
Definition fresh_job (x : dbtx) (d : DB) : Prop :=
  match x with TInsertCopy j => copy_cleanup d !! j_ID j = None | _ => True end.

Lemma DBInv_copy_tx f t x d d' :
  ~ rowwise x -> fresh_job x d -> run f t x d = Ok (tt, d') -> DBInv d -> DBInv d'.
Proof.
  intros Hx Hf H Hd. destruct x; simpl in Hx; try tauto; simpl in H; tx_inv.
  - by eapply DBInv_insert.
  - by eapply DBInv_beginCleanup.
  - unfold insertCopyTx in H. destruct (copy_jobs d !! j_ID j) eqn:E; [done|].
    by eapply DBInv_put_copy.
  - unfold checkpointTx in H. destruct (copy_jobs d !! id) eqn:E; [|done]. case_decide; [|done].
    eapply DBInv_put_copy; [exact H| |done]. by eapply no_cleanup.
  - unfold retryCopyTx in H. destruct (copy_jobs d !! id) eqn:E; [|done]. case_decide; [|done].
    eapply DBInv_put_copy; [exact H| |done]. by eapply no_cleanup.
  - by eapply DBInv_submit.
  - unfold failCopyTx in H. destruct (copy_jobs d !! id) eqn:E; [|done].
    case_decide; [by simplify_eq|]. case_decide; [|done].
    eapply DBInv_put_copy; [exact H| |done]. by eapply no_cleanup.
  - unfold cancelCopyTx in H. destruct (copy_jobs d !! id) eqn:E; [|done]. case_decide; [done|].
    eapply DBInv_put_copy; [exact H| |done]. by eapply no_cleanup.
  - by eapply DBInv_beginCopyCleanup.
Qed.

#[export] Instance rowwise_dec x : Decision (rowwise x).
Proof. destruct x; simpl; apply _. Defined.

Lemma DBInv_run f t x d d' :
  fresh_job x d -> run f t x d = Ok (tt, d') -> DBInv d -> DBInv d'.
Proof.
  intros Hf H Hd. destruct (decide (rowwise x)) as [Hx|Hx]; [|by eapply DBInv_copy_tx].
  eapply ev_DBInv; [|exact Hd]. eapply run_ev; eauto. apply Hd.
Qed.
End Preserved.
