(* ===== verification/JournalSafety.v ===== *)
(** * No acknowledged byte is lost

    The journal unlinks files in five places: after a success or a drop, when
    an upload or a copy is discarded, when a staging file is consumed or
    abandoned, and in the sweep at start-up.  [Inv] states what must still be
    on disk ([needed]); [jstep] is every step of the journal, at the
    granularity at which other callers can interleave; [Inv] holds in every
    reachable state. *)
From S2P Require Import Prelude Filepath JournalState JournalQueue JournalAdmin Staging JournalCopy JournalRecover JournalTx JournalInv.
Import Filepath.
Open Scope Z_scope.

(** ** How the process is configured

    The journal directory is an absolute clean path, the working directory is
    absolute, and a canonical UUID text is a plain file name. *)
Class CfgOk (cfg : Config) := {
  root : list string;
  root_plain : Forall plain root;
  root_dir : cfg_dir = canon root;
  cwd_abs : IsAbs cfg_cwd = true;
  uuid_plain : forall id, uuid_canonical id = true -> plain (id +:+ ".part")
}.

Section Safety.
Context {cfg : Config} {ok : CfgOk cfg}.

(** The file [n] of the journal's sub-directory [d]. *)
Definition under (d n : string) : string := canon (root ++ [d; n]).

Definition subdir (d : string) : Prop := d = "objects" \/ d = "copies" \/ d = "staging".

Lemma subdir_plain d : subdir d -> plain d.
Proof. intros [->|[->| ->]]; apply (bool_decide_unpack (plain _)); vm_compute; done. Qed.

Lemma under_plain d n : plain d -> plain n -> Forall plain (root ++ [d; n]).
Proof. intros. apply Forall_app. split; [apply root_plain|].
  constructor; [done|]. constructor; [done|constructor]. Qed.

Lemma dir_plain d : plain d -> Forall plain (root ++ [d]).
Proof. intros. apply Forall_app. split; [apply root_plain|].
  constructor; [done|constructor]. Qed.

Lemma under_inj d n d' n' :
  plain d -> plain n -> plain d' -> plain n' -> under d n = under d' n' -> d = d' /\ n = n'.
Proof.
  intros ? ? ? ? E. apply canon_inj in E; [|by apply under_plain..].
  apply app_inv_head in E. by simplify_eq.
Qed.

Lemma abs_canon l : Forall plain l -> abs (canon l) = canon l.
Proof. apply Abs_of_canon. Qed.
Lemma abs_under d n : plain d -> plain n -> abs (under d n) = under d n.
Proof. intros. by apply abs_canon, under_plain. Qed.

Lemma Dir_under d n : plain d -> plain n -> Dir (under d n) = canon (root ++ [d]).
Proof.
  intros. unfold under. change [d; n] with ([d] ++ [n]). rewrite app_assoc.
  apply Dir_canon_snoc; [by apply dir_plain|done].
Qed.
Lemma Base_under d n : plain d -> plain n -> Base (under d n) = n.
Proof.
  intros. unfold under. change [d; n] with ([d] ++ [n]). rewrite app_assoc.
  apply Base_canon_snoc; [by apply dir_plain|done].
Qed.

Lemma join_dir d : plain d -> Join [cfg_dir; d] = canon (root ++ [d]).
Proof. intros. rewrite root_dir. apply Join_canon; [apply root_plain|constructor; [done|constructor]|done]. Qed.
Lemma objects_dir : ObjectsDir = canon (root ++ ["objects"]).
Proof. apply join_dir, subdir_plain. by left. Qed.
Lemma staging_dir : StagingDir = canon (root ++ ["staging"]).
Proof. apply join_dir, subdir_plain. by right; right. Qed.
Lemma copies_dir : Join [cfg_dir; "copies"] = canon (root ++ ["copies"]).
Proof. apply join_dir, subdir_plain. by right; left. Qed.
Lemma join_under d n : plain d -> plain n -> Join [canon (root ++ [d]); n] = under d n.
Proof.
  intros. unfold under. change [d; n] with ([d] ++ [n]). rewrite app_assoc.
  apply Join_canon_snoc; [by apply dir_plain|done].
Qed.
Lemma canon_dir_inj d d' : plain d -> plain d' -> canon (root ++ [d]) = canon (root ++ [d']) -> d = d'.
Proof.
  intros ? ? E. apply canon_inj in E; [|by apply dir_plain..].
  apply app_inv_head in E. by simplify_eq.
Qed.

Lemma copyPath_Some id p :
  copyPath id = Some p <-> uuid_canonical id = true /\ p = under "copies" (id +:+ ".part").
Proof.
  unfold copyPath. destruct (uuid_canonical id) eqn:E; [|naive_solver].
  rewrite root_dir, Join_canon; [|apply root_plain| |done].
  2: { constructor; [apply subdir_plain; by right; left|].
       constructor; [by apply uuid_plain|constructor]. }
  change (canon (root ++ ["copies"; id +:+ ".part"])) with (under "copies" (id +:+ ".part")).
  rewrite abs_under; [naive_solver|apply subdir_plain; by right; left|by apply uuid_plain].
Qed.

Lemma str_app_inj_r (a b s : string) : a +:+ s = b +:+ s -> a = b.
Proof.
  intros E. apply (f_equal String.list_ascii_of_string) in E.
  assert (Happ : forall x y, String.list_ascii_of_string (x +:+ y)
                 = String.list_ascii_of_string x ++ String.list_ascii_of_string y).
  { induction x as [|c x IH]; intros y; [done|]. exact (f_equal (cons c) (IH y)). }
  rewrite !Happ in E. apply app_inv_tail in E.
  rewrite <- (String.string_of_list_ascii_of_string a), <- (String.string_of_list_ascii_of_string b).
  by rewrite E.
Qed.

Lemma copyPath_inj i j p : copyPath i = Some p -> copyPath j = Some p -> i = j.
Proof.
  intros [Hi ->]%copyPath_Some [Hj E]%copyPath_Some.
  apply under_inj in E as [_ E]; [by apply str_app_inj_r in E
    |apply subdir_plain; by right; left|by apply uuid_plain
    |apply subdir_plain; by right; left|by apply uuid_plain].
Qed.

(** ** What must be on disk *)

Definition blob_ok (b : string) : Prop :=
  exists d n, (d = "objects" \/ d = "copies") /\ plain n /\ b = under d n.

Lemma blob_ok_abs b : blob_ok b -> abs b = b.
Proof.
  intros (d & n & Hd & Hn & ->). apply abs_under; [|done].
  apply subdir_plain. unfold subdir. tauto.
Qed.

Definition holds_blob (r : Row) : Prop := r_state r <> StatePurging /\ r_blob r <> "".

(** A name is needed by a queued row that is not being discarded, by a
    staging reservation, or by a copy job that has not handed over yet. *)
Inductive needed (s : jstate) (p : string) : Prop :=
| needed_row r : r ∈ uploads (db s) -> holds_blob r -> r_blob r = p -> needed s p
| needed_staged id : stagedObjects s !! id = Some p -> needed s p
| needed_copy id c : copy_jobs (db s) !! id = Some c -> c_state c <> CopySubmitted ->
                     copyPath id = Some p -> needed s p.

Definition reserved_count (s : jstate) (p : string) : nat :=
  size (filter (fun kv : string * string => kv.2 = p) (stagedObjects s)).

Record Inv (s : jstate) : Prop := {
  i_db : DBInv (db s);
  i_names : forall k, is_Some (names (fsys s) !! k) -> exists l, Forall plain l /\ k = canon l;
  i_blobs : forall r, r ∈ uploads (db s) -> holds_blob r -> blob_ok (r_blob r);
  i_staged : forall id p, stagedObjects s !! id = Some p -> exists n, plain n /\ p = under "objects" n;
  i_refs : forall p, Z.of_nat (reserved_count s p) <= default 0 (stagedRefs s !! p);
  i_jobs : forall id, is_Some (copy_jobs (db s) !! id) -> uuid_canonical id = true;
  i_kept : forall p, needed s p -> is_Some (names (fsys s) !! p)
}.

(** Removing a name nothing needs. *)
Lemma Inv_remove s p f :
  Inv s -> ~ needed s p -> names f = delete p (names (fsys s)) -> Inv (s <| fsys := f |>).
Proof.
  intros [Hdb Hn Hb Hs Hr Hj Hk] Hp Hf. split; simpl; try done.
  - intros k. rewrite Hf, lookup_delete_is_Some. intros [_ ?]. by apply Hn.
  - intros q Hq. rewrite Hf, lookup_delete_is_Some.
    assert (Hq' : needed s q) by (destruct Hq; [eapply needed_row|eapply needed_staged|eapply needed_copy]; eauto).
    split; [|by apply Hk]. intros ->. done.
Qed.

(** Adding names, or changing contents only. *)
Lemma Inv_grow s f :
  Inv s ->
  (forall k, is_Some (names (fsys s) !! k) -> is_Some (names f !! k)) ->
  (forall k, is_Some (names f !! k) -> exists l, Forall plain l /\ k = canon l) ->
  Inv (s <| fsys := f |>).
Proof.
  intros [Hdb Hn Hb Hs Hr Hj Hk] Hsub Hpl. split; simpl; try done.
  intros q Hq. apply Hsub, Hk.
  destruct Hq; [eapply needed_row|eapply needed_staged|eapply needed_copy]; eauto.
Qed.

(** Replacing the database: rows keep their blobs or take existing ones. *)
Lemma Inv_set_db s d :
  Inv s -> DBInv d ->
  (forall r, r ∈ uploads d -> holds_blob r ->
     (exists r0, r0 ∈ uploads (db s) /\ holds_blob r0 /\ r_blob r0 = r_blob r)
     \/ blob_ok (r_blob r) /\ is_Some (names (fsys s) !! r_blob r)) ->
  (forall id c, copy_jobs d !! id = Some c ->
     (exists c0, copy_jobs (db s) !! id = Some c0 /\ (c_state c <> CopySubmitted -> c_state c0 <> CopySubmitted))
     \/ exists p, copyPath id = Some p /\ is_Some (names (fsys s) !! p)) ->
  Inv (s <| db := d |>).
Proof.
  intros [Hdb Hn Hb Hs Hr Hj Hk] Hd Hrows Hjobs. split; simpl; try done.
  - intros r Hr1 Hh. destruct (Hrows r Hr1 Hh) as [(r0 & ? & ? & <-)|[? _]]; [by apply Hb|done].
  - intros id [c Hc]. destruct (Hjobs id c Hc) as [(c0 & Hc0 & _)|(p & Hp & _)]; [by apply Hj|].
    apply copyPath_Some in Hp. tauto.
  - intros p [r Hr1 Hh <-|id Hid|id c Hc Hst Hp]; simpl in *.
    + destruct (Hrows r Hr1 Hh) as [(r0 & ? & ? & <-)|[_ ?]]; [|done].
      apply Hk. by eapply needed_row.
    + apply Hk. by eapply needed_staged.
    + destruct (Hjobs id c Hc) as [(c0 & Hc0 & Hs0)|(q & Hq & ?)].
      * apply Hk. eapply needed_copy; eauto.
      * congruence.
Qed.

(** ** The transactions *)

(** What the callers establish before a transaction that brings in a file:
    the object of a new row is one the journal already answers for (its
    staging reservation), a submitted copy is the job's own payload, and a
    new copy job's payload is in place under a fresh identifier. *)
Definition tx_ok (s : jstate) (x : dbtx) : Prop :=
  match x with
  | TInsert u => BlobPath u = "" \/ (blob_ok (BlobPath u) /\ needed s (BlobPath u))
  | TSubmit j u => copyPath (j_ID j) = Some (BlobPath u)
  | TInsertCopy j => copy_cleanup (db s) !! j_ID j = None
                     /\ exists p, copyPath (j_ID j) = Some p /\ is_Some (names (fsys s) !! p)
  | _ => True
  end.

(** Where the rows of the database after a step come from. *)
Definition row_source (s : jstate) (r : Row) : Prop :=
  (exists r0, r0 ∈ uploads (db s) /\ holds_blob r0 /\ r_blob r0 = r_blob r)
  \/ blob_ok (r_blob r) /\ is_Some (names (fsys s) !! r_blob r).
Definition job_source (s : jstate) (id : string) (c : CopyRow) : Prop :=
  (exists c0, copy_jobs (db s) !! id = Some c0 /\ (c_state c <> CopySubmitted -> c_state c0 <> CopySubmitted))
  \/ exists p, copyPath id = Some p /\ is_Some (names (fsys s) !! p).

Lemma row_source_same s r : r ∈ uploads (db s) -> holds_blob r -> row_source s r.
Proof. intros. left. by exists r. Qed.
Lemma job_source_same s id c : copy_jobs (db s) !! id = Some c -> job_source s id c.
Proof. intros. left. by exists c. Qed.

Lemma row_source_ev s d r : ev (db s) d -> r ∈ uploads d -> holds_blob r -> row_source s r.
Proof.
  intros Hev Hr [Hp Hb]. destruct (ev_origin _ _ _ Hev Hr) as (r0 & Hr0 & _ & _ & Hst & [Hbl|?]); [|done].
  left. exists r0. split_and!; [done| |done]. split; [tauto|]. congruence.
Qed.

Lemma row_source_insert s d0 f t u a d r :
  Inv s -> uploads d0 = uploads (db s) ->
  (BlobPath u <> "" -> blob_ok (BlobPath u) /\ is_Some (names (fsys s) !! BlobPath u)) ->
  insertUploadTx f t u d0 = Ok (a, d) -> r ∈ uploads d -> holds_blob r -> row_source s r.
Proof.
  intros Hi Hu Hb H Hr Hh. apply insertUploadTx_Ok in H as [_ [H|H]].
  - destruct H as (r1 & _ & _ & _ & _ & g & -> & Hg).
    unfold upd_id in Hr. rewrite uploads_upd_rows, Hu in Hr.
    apply list_elem_of_fmap in Hr as (x & -> & Hx). destruct (decide (r_id x = ID u)).
    + destruct (Hg x) as (_ & _ & _ & Hbl). right. rewrite Hbl. apply Hb. rewrite <- Hbl. apply Hh.
    + by apply row_source_same.
  - destruct H as (_ & _ & x & -> & _ & _ & _ & Hbl). simpl in Hr.
    change (r ∈ uploads d0 ++ [x]) in Hr. rewrite Hu in Hr.
    apply elem_of_app in Hr as [Hr| ->%list_elem_of_singleton]; [by apply row_source_same|].
    right. rewrite Hbl. apply Hb. rewrite <- Hbl. apply Hh.
Qed.

Lemma insert_copy_jobs f t u d a d' : insertUploadTx f t u d = Ok (a, d') -> copy_jobs d' = copy_jobs d.
Proof.
  intros H. apply insertUploadTx_Ok in H as [_ [(_ & _ & _ & _ & _ & g & -> & _)|(_ & _ & x & -> & _)]]; done.
Qed.

Lemma put_copy_Ok id c d a d' : put_copy id c d = Ok (a, d') -> d' = d <| copy_jobs ::= <[id := c]> |>.
Proof. unfold put_copy. case_decide; [done|]. by intros [= _ <-]. Qed.

Lemma job_source_put s id c0 c k v :
  copy_jobs (db s) !! id = Some c0 -> (c_state c <> CopySubmitted -> c_state c0 <> CopySubmitted) ->
  <[id := c]> (copy_jobs (db s)) !! k = Some v -> job_source s k v.
Proof.
  intros H0 Hs [[<- <-]|[_ Hk]]%lookup_insert_Some; [left; by exists c0|by apply job_source_same].
Qed.

Lemma put_source s id c0 c d a :
  copy_jobs (db s) !! id = Some c0 -> (c_state c <> CopySubmitted -> c_state c0 <> CopySubmitted) ->
  put_copy id c (db s) = Ok (a, d) ->
  (forall r, r ∈ uploads d -> holds_blob r -> row_source s r)
  /\ (forall k v, copy_jobs d !! k = Some v -> job_source s k v).
Proof.
  intros H0 Hs ->%put_copy_Ok. split; [apply row_source_same|].
  intros k v. by apply (job_source_put s id c0).
Qed.

(** The rows and jobs of every transaction have a source. *)
Lemma tx_sources s x d :
  Inv s -> tx_ok s x -> run (fsys s) (now s) x (db s) = Ok (tt, d) ->
  (forall r, r ∈ uploads d -> holds_blob r -> row_source s r)
  /\ (forall k v, copy_jobs d !! k = Some v -> job_source s k v).
Proof.
  intros Hi Hok H. destruct (decide (rowwise x)) as [Hx|Hx].
  { assert (Hev : ev (db s) d) by (eapply run_ev; eauto; apply (inv_ids _ (i_db _ Hi))).
    split; [intros r; by apply row_source_ev|]. intros k v Hk. apply job_source_same.
    destruct Hev as (g & _ & _ & _ & _ & Hj & _). by rewrite <- Hj. }
  destruct x; simpl in Hx; try tauto; simpl in H, Hok; tx_inv.
  - split.
    + intros r. eapply row_source_insert; [done|done| |exact H].
      intros Hne. destruct Hok as [?|[? ?]]; [done|]. split; [done|by apply Hi].
    + rewrite (insert_copy_jobs _ _ _ _ _ _ H). intros k v. apply job_source_same.
  - unfold beginCleanupTx in *. destruct (row_of id (db s)) as [r0|]; [|done].
    case_decide; [destruct (uploadCleanupTx _ _ _); [|done]; simplify_eq;
      split; [apply row_source_same|intros ? ?; apply job_source_same]|].
    case_decide; [done|]. destruct (cleanupUploadPath _); [|done].
    destruct (upload_cleanup (db s) !! id); [done|]. simplify_eq. split; [|intros ? ?; apply job_source_same].
    intros r Hr [Hp Hb]. unfold upd_id in Hr. rewrite uploads_upd_rows in Hr.
    apply list_elem_of_fmap in Hr as (y & -> & Hy). case_decide; [done|by apply row_source_same].
  - destruct Hok as [_ (p & Hp & Hn)]. unfold insertCopyTx in H.
    destruct (copy_jobs (db s) !! j_ID j); [done|]. apply put_copy_Ok in H as ->.
    split; [apply row_source_same|]. intros k v Hk. simpl in Hk.
    apply lookup_insert_Some in Hk as [[<- <-]|[_ Hk]]; [right; eauto|].
    by apply job_source_same.
  - unfold checkpointTx in H. destruct (copy_jobs (db s) !! id) eqn:E; [|done].
    case_decide as Hs; [|done]. eapply put_source; [exact E| |exact H]. by rewrite Hs.
  - unfold retryCopyTx in H. destruct (copy_jobs (db s) !! id) eqn:E; [|done].
    case_decide as Hs; [|done]. eapply put_source; [exact E| |exact H].
    by destruct Hs as [[->| ->] _].
  - unfold submitTx in H. destruct (row_of (ID u) (db s)); [done|].
    destruct (copy_jobs (db s) !! j_ID j) as [c|] eqn:E; [|done]. case_decide as Hs; [|done]. split.
    + intros r. eapply row_source_insert; [done| | |exact H]; [done|]. intros _. split.
      * apply copyPath_Some in Hok as [Hu ->]. exists "copies", (j_ID j +:+ ".part").
        split_and!; [by right|by apply uuid_plain|done].
      * apply Hi. eapply needed_copy; [exact E|by rewrite Hs|done].
    + rewrite (insert_copy_jobs _ _ _ _ _ _ H). intros k v. by apply (job_source_put s (j_ID j) c).
  - unfold failCopyTx in H. destruct (copy_jobs (db s) !! id) eqn:E; [|done].
    case_decide; [simplify_eq; split; [apply row_source_same|intros ? ?; apply job_source_same]|].
    case_decide as Hs; [|done]. eapply put_source; [exact E| |exact H]. by destruct Hs as [->|[->| ->]].
  - unfold cancelCopyTx in H. destruct (copy_jobs (db s) !! id) eqn:E; [|done].
    case_decide; [done|]. by eapply put_source; [exact E| |exact H].
  - unfold beginCopyCleanupTx in H. destruct (copyUploadsAbsent _ _ _); [|done]. simpl in H.
    destruct (copy_cleanup (db s) !! id);
      [simplify_eq; split; [apply row_source_same|intros ? ?; apply job_source_same]|].
    destruct (copy_jobs (db s) !! id); [|done]. case_decide; [|done]. simplify_eq.
    split; [apply row_source_same|]. intros k v Hk. simpl in Hk.
    apply lookup_delete_Some in Hk as [_ Hk]. by apply job_source_same.
Qed.

Lemma Inv_tx s x d :
  Inv s -> tx_ok s x -> run (fsys s) (now s) x (db s) = Ok (tt, d) -> Inv (s <| db := d |>).
Proof.
  intros Hi Hok H. destruct (tx_sources s x d Hi Hok H) as [Hr Hj].
  apply Inv_set_db; try done. eapply DBInv_run; [|exact H|apply Hi].
  destruct x; simpl; try done. by apply Hok.
Qed.

(** ** The unlinks *)

Lemma abs_idem p : abs (abs p) = abs p.
Proof. apply Abs_idem, cwd_abs. Qed.

Lemma copies_plain : plain "copies".
Proof. apply subdir_plain. by right; left. Qed.
Lemma objects_plain : plain "objects".
Proof. apply subdir_plain. by left. Qed.
Lemma staging_plain : plain "staging".
Proof. apply subdir_plain. by right; right. Qed.

Lemma blob_scan_false f ex p info l :
  blob_scan f ex p info l = Ok false ->
  forall r, r ∈ l -> ex = "" \/ r_id r <> ex -> r_blob r <> "" -> abs (r_blob r) <> p.
Proof.
  induction l as [|x l IH]; simpl; [set_solver|].
  case_decide as Hx; [done|]. case_decide; [done|]. intros Hl r [->|Hr]%elem_of_cons; [|by apply IH].
  intros Hex Hb Hp. apply Hx. unfold references. auto.
Qed.

Lemma reserved_pos s id p : stagedObjects s !! id = Some p -> (0 < reserved_count s p)%nat.
Proof.
  intros H. unfold reserved_count.
  assert (Hf : filter (fun kv : string * string => kv.2 = p) (stagedObjects s) !! id = Some p)
    by (by apply map_lookup_filter_Some).
  destruct (size _) eqn:E; [|lia]. apply map_size_empty_inv in E. by rewrite E in Hf.
Qed.

Lemma not_reserved s p :
  Inv s -> ~ 0 < default 0 (stagedRefs s !! p) -> forall id, stagedObjects s !! id <> Some p.
Proof. intros Hi Hz id H%reserved_pos. pose proof (i_refs _ Hi p). lia. Qed.

Lemma copies_dir_abs : abs (Join [cfg_dir; "copies"]) = canon (root ++ ["copies"]).
Proof. rewrite copies_dir. apply abs_canon, dir_plain, copies_plain. Qed.
Lemma objects_dir_abs : abs ObjectsDir = canon (root ++ ["objects"]).
Proof. rewrite objects_dir. apply abs_canon, dir_plain, objects_plain. Qed.

Lemma copyPath_Dir id p : copyPath id = Some p -> Dir p = canon (root ++ ["copies"]).
Proof. intros [Hu ->]%copyPath_Some. apply Dir_under; [apply copies_plain|by apply uuid_plain]. Qed.
Lemma copyPath_abs id p : copyPath id = Some p -> abs p = p.
Proof. intros [Hu ->]%copyPath_Some. apply abs_under; [apply copies_plain|by apply uuid_plain]. Qed.

Lemma copies_ne_objects : canon (root ++ ["copies"]) <> canon (root ++ ["objects"]).
Proof. intros E. apply canon_dir_inj in E; [done|apply copies_plain|apply objects_plain]. Qed.

(** The three reasons a private payload is free to go. *)
Lemma unneeded s p :
  (forall r, r ∈ uploads (db s) -> holds_blob r -> r_blob r <> p) ->
  (forall id, stagedObjects s !! id <> Some p) ->
  (forall id c, copyPath id = Some p -> copy_jobs (db s) !! id = Some c -> c_state c = CopySubmitted) ->
  ~ needed s p.
Proof.
  intros Hr Hs Hc [r Hin Hh E|id E|id c E Hst Hp]; [by eapply Hr|by eapply Hs|].
  by specialize (Hc id c Hp E).
Qed.

Lemma classify_free s p id c :
  classify_blob p <> ForeignPath -> blob_held (classify_blob p) (db s) = false ->
  copyPath id = Some p -> copy_jobs (db s) !! id = Some c -> c_state c = CopySubmitted.
Proof.
  unfold classify_blob. intros Hf Hh Hid Hc. pose proof (copyPath_Dir _ _ Hid) as HD.
  rewrite copies_dir_abs in *. rewrite (decide_True (P := Dir p = _)) in Hf, Hh by done.
  case_decide as Hp; [|done]. assert (TrimSuffix (Base p) ".part" = id) as E by (by eapply copyPath_inj).
  rewrite E in *. simpl in Hh. apply bool_decide_eq_false in Hh. unfold copy_holds in Hh.
  rewrite Hc in Hh. destruct (decide (c_state c = CopySubmitted)); tauto.
Qed.

Lemma Remove_names f p f' : Remove f p = Ok f' -> names f' = delete (abs p) (names f).
Proof. unfold Remove. destruct (io_error _ _); [done|]. destruct (names f !! abs p); [|done]. by intros [= <-]. Qed.

Lemma Inv_removeBlob s b : Inv s -> Inv (snd (removeBlobIfUnreferenced b s)).
Proof.
  intros Hi. unfold removeBlobIfUnreferenced. case_decide; [done|].
  destruct (classify_blob (abs b)) eqn:Ec; try done.
  all: case_decide as Hz; [done|]; destruct (Stat (fsys s) (abs b)) as [info|]; [|done];
    destruct (uploadBlobReferenced _ _ _ _ _) as [[]|] eqn:Eb; try done;
    destruct (blob_held _ _) eqn:Eh; [done|]; rewrite <- Ec in Eh;
    destruct (Remove _ _) as [f'|] eqn:Er; [|done]; apply Remove_names in Er; rewrite abs_idem in Er;
    simpl; apply (Inv_remove s (abs b)); [done| |done]; apply unneeded;
    [ intros r Hr [Hp Hb] E; eapply (blob_scan_false _ _ _ _ _ Eb r); eauto;
      rewrite (blob_ok_abs (r_blob r)); [done|by apply Hi]
    | by apply not_reserved
    | intros id' c; apply classify_free; [by rewrite Ec|done] ].
Qed.

(** *** Discarding an upload *)

Lemma uploadCleanupTx_Ok id meta d c :
  uploadCleanupTx id meta d = Ok c ->
  exists r, row_of id d = Some r /\ r_state r = StatePurging /\ ID (cl_Upload c) = id
    /\ cl_BlobPath c = abs (r_blob r)
    /\ (Dir (cl_BlobPath c) = abs ObjectsDir \/ copyPath id = Some (cl_BlobPath c)).
Proof.
  unfold uploadCleanupTx. destruct (upload_cleanup d !! id) as [[m blob]|]; [|done].
  case_decide; [done|]. destruct (row_of id d) as [r|] eqn:Er; [|done].
  case_decide as Hst; [done|]. destruct (cleanupUploadPath (scanUpload r)) as [p|] eqn:Ep; [|done].
  case_decide; [|done]. intros [= <-]. subst p. exists r.
  pose proof (row_of_Some_1 _ _ _ Er) as [_ Hid]. simpl.
  split_and!; [done|destruct (decide (r_state r = StatePurging)); tauto|done| |];
    unfold cleanupUploadPath in Ep; simpl in Ep; rewrite ?Hid in Ep;
    repeat case_decide; simplify_eq; auto.
Qed.

Lemma shared_unneeded s id meta c info :
  Inv s -> uploadCleanupTx id meta (db s) = Ok c -> uploadCleanupShared s c info = Ok false ->
  ~ needed s (cl_BlobPath c).
Proof.
  intros Hi (r & Hrow & Hst & Hid & Hb & Hdir)%uploadCleanupTx_Ok.
  unfold uploadCleanupShared. rewrite Hid. case_decide as Hz; [done|].
  destruct (uploadBlobReferenced _ _ _ _ _) as [[]|] eqn:Eb; try done. intros [= Hf].
  apply unneeded.
  - intros r' Hr' [Hp' Hb'] E. destruct (decide (r_id r' = id)) as [Hrid|Hrid].
    + assert (Some r' = Some r) as [= ->]; [|done]. rewrite <- Hrow. symmetry.
      apply row_of_Some; [apply (inv_ids _ (i_db _ Hi))|done].
    + eapply (blob_scan_false _ _ _ _ _ Eb r'); eauto. rewrite (blob_ok_abs (r_blob r')); [done|].
      by apply Hi.
  - by apply not_reserved.
  - intros id' c' Hp Hc. destruct Hdir as [Hdir|Hdir].
    + rewrite (copyPath_Dir _ _ Hp), objects_dir_abs in Hdir. by destruct copies_ne_objects.
    + assert (id = id') as -> by (by eapply copyPath_inj).
      rewrite (bool_decide_eq_true_2 _ Hdir) in Hf. simpl in Hf.
      apply bool_decide_eq_false in Hf. unfold copy_holds in Hf. rewrite Hc in Hf.
      destruct (decide (c_state c' = CopySubmitted)); tauto.
Qed.

Lemma unlink_payload_cases s p r s' :
  unlink_payload p s = (r, s') ->
  s' = s \/ exists f, s' = s <| fsys := f |> /\ names f = delete (abs p) (names (fsys s)).
Proof.
  unfold unlink_payload. destruct (Remove (fsys s) p) as [f|[]] eqn:E.
  - apply Remove_names in E. repeat case_decide; [destruct (SyncDir _)|]; intros [= _ <-]; eauto.
  - repeat case_decide; [destruct (SyncDir _)|]; intros [= _ <-]; eauto.
  - intros [= _ <-]. eauto.
Qed.

Lemma uploads_discard id meta p d : uploads (discard_tables id meta p d) = filter (fun r => r_id r <> id) (uploads d).
Proof. done. Qed.

Lemma map_sublist {A B} (f : A -> B) l l' : l `sublist_of` l' -> map f l `sublist_of` map f l'.
Proof. induction 1; simpl; by constructor. Qed.

Lemma DBInv_discard id meta p d :
  DBInv d -> is_Some (upload_cleanup d !! id) -> DBInv (discard_tables id meta p d).
Proof.
  intros [I1 I2 I3 I4 I5 I6 I7] Hc.
  assert (Hin : forall x, x ∈ ids (discard_tables id meta p d) <-> x ∈ ids d /\ x <> id).
  { intros x. rewrite !elem_of_ids, uploads_discard. setoid_rewrite list_elem_of_filter. naive_solver. }
  split; try done.
  - eapply sublist_NoDup; [exact I1|]. unfold ids. rewrite uploads_discard.
    apply map_sublist, sublist_filter.
  - eapply StronglySorted_sublist; [|exact I2]. rewrite uploads_discard.
    apply map_sublist, sublist_filter.
  - intros r Hr. rewrite uploads_discard in Hr. apply list_elem_of_filter in Hr as [Hne Hr].
    change (upload_cleanup (discard_tables id meta p d)) with (delete id (upload_cleanup d)).
    rewrite lookup_delete_ne by done. by apply I3.
  - intros x Hx. change (is_Some (delete id (upload_cleanup d) !! x)) in Hx.
    apply lookup_delete_is_Some in Hx as [? ?]. apply Hin. split; [by apply I4|done].
  - intros x Hx [Hx1 Hx2]%Hin. change (is_Some (<[id := (meta, p)]> (upload_discarded d) !! x)) in Hx.
    rewrite lookup_insert_ne in Hx by done. by eapply I5.
Qed.

Lemma Inv_discard s id meta p :
  Inv s -> is_Some (upload_cleanup (db s) !! id) -> Inv (s <| db ::= discard_tables id meta p |>).
Proof.
  intros Hi Hc. apply (Inv_set_db s (discard_tables id meta p (db s))); [done|apply DBInv_discard; [apply Hi|done]| |].
  - intros r Hr Hh. rewrite uploads_discard in Hr. apply list_elem_of_filter in Hr as [_ Hr].
    by apply row_source_same.
  - intros k v. apply job_source_same.
Qed.

Lemma Inv_unlink s id meta c info :
  Inv s -> uploadCleanupTx id meta (db s) = Ok c -> uploadCleanupShared s c info = Ok false ->
  Inv (snd (unlink_payload (cl_BlobPath c) s)).
Proof.
  intros Hi Hc Hs. destruct (unlink_payload _ s) as [v s'] eqn:E.
  apply unlink_payload_cases in E as [->|(f & -> & Hf)]; [done|]. simpl.
  apply (Inv_remove s (cl_BlobPath c)); [done|by eapply shared_unneeded|].
  rewrite Hf. f_equal. destruct (uploadCleanupTx_Ok _ _ _ _ Hc) as (r & _ & _ & _ & -> & _). apply abs_idem.
Qed.

Lemma unlink_payload_db s p : db (snd (unlink_payload p s)) = db s.
Proof. destruct (unlink_payload p s) eqn:E. apply unlink_payload_cases in E as [->|(f & -> & _)]; done. Qed.

Lemma uploadCleanupTx_intent id meta d c : uploadCleanupTx id meta d = Ok c -> is_Some (upload_cleanup d !! id).
Proof. unfold uploadCleanupTx. by destruct (upload_cleanup d !! id) as [[]|]. Qed.

Lemma Inv_same_db s s' : Inv s' -> db s' = db s -> Inv (s' <| db := db s |>).
Proof. intros Hi <-. by destruct s'. Qed.

(** The settlement of a payload and of its tables, from a state where the
    intent is valid. *)
Definition settle_cleanup (id meta p : string) (shared : bool) : Op jstate jerr unit :=
  do* (if shared then oret tt else unlink_payload p);
  fun s => match upload_discarded (db s) !! id with
           | Some _ => (Err ErrUniqueConstraint, s)
           | None => (Ok tt, s <| db ::= discard_tables id meta p |>)
           end.

Lemma Inv_settle s id meta c info sh :
  Inv s -> uploadCleanupTx id meta (db s) = Ok c -> uploadCleanupShared s c info = Ok sh ->
  Inv (snd (tx_fs (settle_cleanup id meta (cl_BlobPath c) sh) s)).
Proof.
  intros Hi Hc Hs. pose proof (uploadCleanupTx_intent _ _ _ _ Hc) as Hint.
  set (m := if sh then oret tt else unlink_payload (cl_BlobPath c)).
  assert (Hm : Inv (snd (m s)) /\ db (snd (m s)) = db s).
  { unfold m. destruct sh; [done|]. split; [by eapply Inv_unlink|apply unlink_payload_db]. }
  unfold tx_fs, settle_cleanup, obind. fold m.
  destruct (m s) as [[[]|e] s1] eqn:E; simpl in *; destruct Hm as [Hi1 Hd1].
  - destruct (upload_discarded (db s1) !! id); simpl; [by apply Inv_same_db|].
    apply Inv_discard; [done|by rewrite Hd1].
  - by apply Inv_same_db.
Qed.

Lemma Inv_finishUploadCleanup s id meta : Inv s -> Inv (snd (FinishUploadCleanup id meta s)).
Proof.
  intros Hi. unfold FinishUploadCleanup, obind, require.
  destruct cfg_owner; [|done]. destruct (validCleanupIdentity meta); [|done]. simpl.
  assert (Hsame : forall e : res jerr unit, Inv (snd (match e with Ok a => (Ok a, s) | Err e => (Err e, s <| db := db s |>) end)))
    by (intros []; [done|by apply Inv_same_db]).
  unfold tx_fs, finishCleanupBody. destruct (uploadCleanupTx id meta (db s)) as [c|e] eqn:Ec.
  - destruct (Stat (fsys s) (Dir _)) as [pa|]; [|apply (Hsame (Err _))].
    case_decide; [apply (Hsame (Err _))|].
    destruct (Stat (fsys s) (cl_BlobPath c)) as [info|[]]; [case_decide| |]; try apply (Hsame (Err _)).
    all: destruct (uploadCleanupShared _ _ _) as [sh|] eqn:Es; [|apply (Hsame (Err _))];
         exact (Inv_settle s id meta c _ sh Hi Ec Es).
  - destruct e; try apply (Hsame (Err _)).
    destruct (upload_discarded (db s) !! id) as [[]|]; [case_decide|]; try apply (Hsame (Err _)). done.
Qed.

(** *** Discarding a copy *)

Lemma Inv_finishCopyCleanup s id p :
  Inv s -> copyPath id = Some p -> Inv (snd (tx_fs (finishCopyCleanupBody id p) s)).
Proof.
  intros Hi Hp. unfold tx_fs, finishCopyCleanupBody.
  assert (Hsame : forall s', Inv s' -> db s' = db s -> forall e : jerr, Inv (snd (Err (A:=unit) e, s' <| db := db s |>)))
    by (intros; by apply Inv_same_db).
  destruct (copy_cleanup (db s) !! id) as [k|] eqn:Ek; [|by apply (Hsame s)].
  destruct (copyUploadsAbsent id p (db s)) eqn:Ea; [|by apply (Hsame s)]. simpl.
  assert (Hun : ~ needed s p).
  { apply bool_decide_eq_true in Ea. apply unneeded.
    - intros r Hr _ E. assert (Hx : r ∈ sel (fun r => r_id r = id \/ r_blob r = p) (db s))
        by (apply elem_of_sel; auto). rewrite Ea in Hx. by apply elem_of_nil in Hx.
    - intros i E. apply (i_staged _ Hi) in E as (n & Hn & E). apply (f_equal Dir) in E.
      rewrite (copyPath_Dir _ _ Hp), Dir_under in E by (done || apply objects_plain). by destruct copies_ne_objects.
    - intros i c Hi' Hc. assert (i = id) as -> by (by eapply copyPath_inj).
      destruct (inv_copies _ (i_db _ Hi) id); congruence. }
  assert (Hdone : forall s', Inv s' -> db s' = db s -> Inv (snd
     (match (if decide (cfg_durability = DurabilityPower /\ SyncDir (Dir p) = false)
             then (Err (A:=unit) (ErrIO "sync"), s')
             else (Ok tt, s' <| db ::= fun d => d <| copy_cleanup ::= delete id |> |>))
      with (Ok a, s') => (Ok a, s') | (Err e, s') => (Err e, s' <| db := db s |>) end))).
  { intros s' Hi' Hd. case_decide; [by apply Inv_same_db|]. simpl.
    apply (Inv_set_db s' ((db s') <| copy_cleanup ::= delete id |>)); [done| | |].
    - destruct (i_db _ Hi') as [I1 I2 I3 I4 I5 I6 I7]. split; try done. intros x. simpl.
      destruct (I6 x) as [?|E]; [by left|]. right. apply lookup_delete_None. auto.
    - intros r. apply row_source_same.
    - intros i v. apply job_source_same. }
  assert (Hrm : forall f, Remove (fsys s) p = Ok f -> Inv (s <| fsys := f |>)).
  { intros f Hf%Remove_names. rewrite (copyPath_abs _ _ Hp) in Hf. by apply (Inv_remove s p). }
  destruct (Stat (fsys s) (Dir p)) as [di|]; [|by apply (Hsame s)].
  destruct (decide (fi_kind di <> KDir)); [by apply (Hsame s)|].
  destruct (Stat (fsys s) p) as [pi|[]]; [destruct (decide (fi_kind pi = KDir))| |]; try (by apply (Hsame s));
    (destruct (Remove (fsys s) p) as [f|[]]; [apply (Hdone (s <| fsys := f |>)); auto|by apply Hdone|by apply (Hsame s)]).
Qed.
End Safety.
