(* ===== verification/JournalReach.v ===== *)
(** * Every history of the journal

    The remaining steps that touch files (staging, copies, the sweep at
    start-up), the step relation [jstep] of the whole journal, and the
    theorems that hold in every reachable state. *)
From S2P Require Import Prelude Filepath JournalState JournalQueue JournalAdmin Staging JournalCopy JournalRecover JournalTx JournalInv JournalSafety.
Import Filepath.
Open Scope Z_scope.

Lemma elem_of_insert_by {A} le (x y : A) l : y ∈ insert_by le x l <-> y = x \/ y ∈ l.
Proof.
  induction l as [|z l IH]; simpl; [set_solver|]. destruct (le x z); [set_solver|].
  rewrite elem_of_cons, IH. set_solver.
Qed.
Lemma elem_of_order_by {A} le (y : A) l : y ∈ order_by le l <-> y ∈ l.
Proof. induction l as [|x l IH]; simpl; [done|]. by rewrite elem_of_insert_by, IH, elem_of_cons. Qed.

Section Reach.
Context {cfg : Config} {ok : CfgOk cfg}.

(** ** Staging reservations *)

Lemma reserved_delete s id p q :
  stagedObjects s !! id = Some p ->
  size (filter (fun kv : string * string => kv.2 = q) (delete id (stagedObjects s)))
  = (reserved_count s q - if decide (q = p) then 1 else 0)%nat.
Proof.
  intros H. unfold reserved_count. rewrite map_filter_delete. case_decide as E.
  - subst q. rewrite map_size_delete_Some; [lia|]. exists p. by apply map_lookup_filter_Some.
  - rewrite delete_id, Nat.sub_0_r; [done|]. apply map_lookup_filter_None. right. intros x Hx. simpl. congruence.
Qed.

Lemma reserved_insert (m : gmap string string) id p q :
  (size (filter (fun kv : string * string => kv.2 = q) (<[id := p]> m))
   <= size (filter (fun kv : string * string => kv.2 = q) m) + if decide (q = p) then 1 else 0)%nat.
Proof.
  rewrite map_filter_insert. simpl. destruct (decide (p = q)) as [->|Hne].
  - rewrite (decide_True (P := q = q)) by done. rewrite map_size_insert. destruct (_ !! id); simpl; lia.
  - rewrite (decide_False (P := q = p)) by done. rewrite map_filter_delete, map_size_delete.
    destruct (_ !! id); simpl; lia.
Qed.

Lemma Inv_release s id b : Inv s -> Inv (snd (releaseStagedObject id b s)).
Proof.
  intros Hi. unfold releaseStagedObject. case_decide; [done|]. case_decide as Hid; [|done].
  destruct Hi as [Hdb Hn Hb Hs Hr Hj Hk]. split; simpl; try done.
  - intros i p [_ Hp]%lookup_delete_Some. by eapply Hs.
  - intros p. unfold reserved_count; simpl. change (upd stagedObjects (delete id) s) with (s <| stagedObjects ::= delete id |>).
    simpl. rewrite (reserved_delete s id (abs b)) by done. specialize (Hr p) as Hrp.
    assert (Hpos := reserved_pos s id (abs b) Hid).
    destruct (decide (p = abs b)) as [->|Hne].
    + case_decide as Hz; [rewrite lookup_delete_eq|rewrite lookup_insert_eq]; simpl; lia.
    + rewrite Nat.sub_0_r. case_decide; [rewrite lookup_delete_ne by done|rewrite lookup_insert_ne by done]; done.
  - intros p [r H1 H2 H3|i H1|i c H1 H2 H3]; simpl in *; apply Hk.
    + by eapply needed_row.
    + apply lookup_delete_Some in H1 as [_ H1]. by eapply needed_staged.
    + by eapply needed_copy.
Qed.

(** Nothing under staging/ is needed once its bytes have moved on. *)
Lemma staging_unneeded s n : Inv s -> plain n -> ~ needed s (under "staging" n).
Proof.
  intros Hi Hn. apply unneeded.
  - intros r Hr Hh E. destruct (i_blobs _ Hi r Hr Hh) as (d & m & Hd & Hm & E'). rewrite E in E'.
    assert (plain d) by (apply subdir_plain; unfold subdir; tauto).
    apply under_inj in E' as [<- _]; [by destruct Hd|apply staging_plain|done..].
  - intros i E. apply (i_staged _ Hi) in E as (m & Hm & E). apply under_inj in E as [E _];
      [done|apply staging_plain|done|apply objects_plain|done].
  - intros i c [Hu E]%copyPath_Some _. apply under_inj in E as [E _];
      [done|apply staging_plain|done|apply copies_plain|by apply uuid_plain].
Qed.

Lemma canonical_under d n : plain d -> plain n -> exists l, Forall plain l /\ under d n = canon l.
Proof. intros. exists (root ++ [d; n]). split; [by apply under_plain|done]. Qed.

(** A rename out of staging/ onto a canonical name. *)
Lemma Inv_rename s src dst f n :
  Inv s -> plain n -> abs src = under "staging" n ->
  (exists l, Forall plain l /\ abs dst = canon l) ->
  Rename (fsys s) src dst = Ok f ->
  Inv (s <| fsys := f |>) /\ is_Some (names f !! abs dst).
Proof.
  intros Hi Hn Hsrc Hdst. unfold Rename. destruct (io_error _ _); [done|].
  destruct (names (fsys s) !! abs src) as [i|] eqn:Ei; [|done].
  case_decide as Hd; intros [= <-]; [split; [by destruct s|rewrite Hd; eauto]|].
  split; [|simpl; rewrite lookup_insert_eq; eauto].
  destruct Hi as [Hdb Hnm Hb Hs Hr Hj Hk] eqn:Ehi. clear Ehi. split; simpl; try done.
  - intros k. rewrite lookup_insert_is_Some', lookup_delete_is_Some. intros [<-|[_ ?]]; [done|by apply Hnm].
  - intros q Hq. rewrite lookup_insert_is_Some', lookup_delete_is_Some. right. split.
    + intros <-. rewrite Hsrc in Hq. apply (staging_unneeded s n); [by split|done|].
      destruct Hq; [eapply needed_row|eapply needed_staged|eapply needed_copy]; eauto.
    + apply Hk. destruct Hq; [eapply needed_row|eapply needed_staged|eapply needed_copy]; eauto.
Qed.

Lemma Inv_reserve s id n :
  Inv s -> plain n -> is_Some (names (fsys s) !! under "objects" n) ->
  Inv (s <| stagedObjects ::= <[id := under "objects" n]> |>
         <| stagedRefs ::= fun m => <[under "objects" n := default 0 (m !! under "objects" n) + 1]> m |>).
Proof.
  intros [Hdb Hn Hb Hs Hr Hj Hk] Hpl Hex. split; simpl; try done.
  - intros i p [[_ <-]|[_ ?]]%lookup_insert_Some; [eauto|by eapply Hs].
  - intros p. pose proof (reserved_insert (stagedObjects s) id (under "objects" n) p) as Hle.
    specialize (Hr p). unfold reserved_count in *. simpl.
    destruct (decide (p = under "objects" n)) as [->|Hne].
    + rewrite lookup_insert_eq. simpl. lia.
    + rewrite lookup_insert_ne by done. lia.
  - intros p [r H1 H2 H3|i H1|i c H1 H2 H3]; simpl in *.
    + apply Hk. by eapply needed_row.
    + apply lookup_insert_Some in H1 as [[_ <-]|[_ H1]]; [done|]. apply Hk. by eapply needed_staged.
    + apply Hk. by eapply needed_copy.
Qed.

(** A staging handle: its file is directly under staging/. *)
Definition in_staging (sg : Staging) : Prop := exists n, plain n /\ s_Path sg = under "staging" n.

Lemma object_dst name : plain name ->
  Join [ObjectsDir; name] = under "objects" name /\ abs (Join [ObjectsDir; name]) = under "objects" name.
Proof.
  intros Hn. assert (E : Join [ObjectsDir; name] = under "objects" name)
    by (rewrite objects_dir; apply join_under; [apply objects_plain|done]).
  split; [done|]. rewrite E. apply abs_under; [apply objects_plain|done].
Qed.

Lemma Inv_remove_staging s f n :
  Inv s -> plain n -> names f = delete (under "staging" n) (names (fsys s)) -> Inv (s <| fsys := f |>).
Proof. intros Hi Hn Hf. apply (Inv_remove s (under "staging" n)); [done|by apply staging_unneeded|done]. Qed.

Lemma Inv_commitStaging s sg hashes :
  Inv s -> in_staging sg -> plain (object_name (s_ID sg) hashes) -> Inv (snd (CommitStaging sg hashes s)).
Proof.
  intros Hi (n & Hn & Hp) Hname. unfold CommitStaging.
  destruct (object_dst _ Hname) as [Ed Ea]. set (dst := Join [ObjectsDir; _]) in *.
  assert (Hsrc : abs (s_Path sg) = under "staging" n)
    by (rewrite Hp; apply abs_under; [apply staging_plain|done]).
  destruct (_ && _); [done|]. destruct (Rename _ _ _) as [f|] eqn:Er; [|done].
  destruct (Inv_rename s (s_Path sg) dst f n Hi Hn Hsrc) as [Hi1 Hex]; [|done|].
  { rewrite Ea. by apply canonical_under; [apply objects_plain|]. }
  assert (Hi2 : Inv (s <| fsys := f |> <| stagedObjects ::= <[s_ID sg := abs dst]> |>
            <| stagedRefs ::= fun m => <[abs dst := default 0 (m !! abs dst) + 1]> m |>)).
  { rewrite Ea in *. by apply Inv_reserve. }
  case_decide; [|done]. destruct (Stat f (s_Path sg)) as [a|]; [|done].
  destruct (Stat f dst) as [b|]; [|done]. case_decide; [|done].
  destruct (Remove f (s_Path sg)) as [f'|] eqn:Ef; [|done]. apply Remove_names in Ef. rewrite Hsrc in Ef.
  eapply (Inv_remove_staging _ f' n) in Hi2; [exact Hi2|done|done].
Qed.

(** Discard, on a file that nothing needs. *)
Lemma Inv_discard_staging s sg : Inv s -> ~ needed s (abs (s_Path sg)) -> Inv (snd (Discard sg s)).
Proof.
  intros Hi Hun. unfold Discard.
  set (s1 := match stagedObjects s !! s_ID sg with
             | Some dst => snd (releaseStagedObject (s_ID sg) dst s) | None => s end).
  assert (H1 : Inv s1 /\ ~ needed s1 (abs (s_Path sg))).
  { unfold s1. destruct (stagedObjects s !! s_ID sg) as [dst|]; [|done]. split; [by apply Inv_release|].
    unfold releaseStagedObject. case_decide; [done|]. case_decide; [|done]. simpl.
    intros Hn. apply Hun. destruct Hn as [r A1 A2 A3|i A1|i c A1 A2 A3]; simpl in *.
    - by eapply needed_row.
    - apply lookup_delete_Some in A1 as [_ A1]. by eapply needed_staged.
    - by eapply needed_copy. }
  destruct H1 as [H1 H2]. destruct (Remove (fsys s1) (s_Path sg)) as [f|[]] eqn:E; [|done|done].
  apply Remove_names in E. by apply (Inv_remove s1 (abs (s_Path sg))).
Qed.

(** ** New names and new contents *)

Lemma Inv_insert_name s k i f :
  Inv s -> (exists l, Forall plain l /\ k = canon l) ->
  names f = <[k := i]> (names (fsys s)) -> Inv (s <| fsys := f |>).
Proof.
  intros Hi Hk Hf. apply Inv_grow; [done| |]; intros x; rewrite Hf, lookup_insert_is_Some'.
  - auto.
  - intros [<-|Hx]; [done|by apply Hi].
Qed.

Lemma Inv_contents s f : Inv s -> names f = names (fsys s) -> Inv (s <| fsys := f |>).
Proof. intros Hi Hf. apply Inv_grow; [done| |]; intros x; rewrite Hf; [done|apply Hi]. Qed.

Lemma SetData_names f p data : names (SetData f p data) = names f.
Proof. unfold SetData. by destruct (names f !! abs p). Qed.

Lemma staging_path id : plain (id +:+ ".part") ->
  Join [StagingDir; id +:+ ".part"] = under "staging" (id +:+ ".part")
  /\ abs (Join [StagingDir; id +:+ ".part"]) = under "staging" (id +:+ ".part").
Proof.
  intros Hn. assert (E : Join [StagingDir; id +:+ ".part"] = under "staging" (id +:+ ".part"))
    by (rewrite staging_dir; apply join_under; [apply staging_plain|done]).
  split; [done|]. rewrite E. apply abs_under; [apply staging_plain|done].
Qed.

Lemma Inv_newStaging s id want : Inv s -> uuid_canonical id = true -> Inv (snd (NewStaging id want s)).
Proof.
  intros Hi Hu%uuid_plain. destruct (staging_path id Hu) as [_ Ea]. unfold NewStaging, os_op, Create.
  rewrite Ea. destruct (io_error _ _); [done|]. destruct (names (fsys s) !! _); [done|]. simpl.
  eapply Inv_insert_name; [done| |reflexivity]. by apply canonical_under; [apply staging_plain|].
Qed.

Lemma Inv_linkStaging s src ino id want :
  Inv s -> uuid_canonical id = true -> Inv (snd (LinkStaging src ino id want s)).
Proof.
  intros Hi Hu%uuid_plain. destruct (staging_path id Hu) as [_ Ea]. unfold LinkStaging, Link. rewrite Ea.
  destruct (inodes _ !! ino); [|done]. destruct (Stat _ src); [|done].
  case_decide; [done|]. case_decide; [done|].
  destruct (names (fsys s) !! abs src) as [i0|]; [|done]. destruct (names (fsys s) !! under _ _); [done|].
  destruct (io_error _ _); [done|]. simpl. eapply Inv_insert_name; [done| |reflexivity].
  by apply canonical_under; [apply staging_plain|].
Qed.

Lemma Inv_move s sg id : Inv s -> in_staging sg -> Inv (snd (move_to_copies sg id s)).
Proof.
  intros Hi (n & Hn & Hp). unfold move_to_copies. destruct (copyPath id) as [p|] eqn:E; [|done].
  unfold os_op. destruct (Rename _ _ _) as [f|] eqn:Er; [|done]. simpl.
  eapply Inv_rename; [done|exact Hn| | |exact Er].
  - rewrite Hp. apply abs_under; [apply staging_plain|done].
  - rewrite (copyPath_abs _ _ E). apply copyPath_Some in E as [Hu ->].
    by apply canonical_under; [apply copies_plain|apply uuid_plain].
Qed.

Lemma Inv_copyWrite s c p r n e : Inv s -> Inv (snd (CopyWrite c p r n e s)).
Proof.
  intros Hi. unfold CopyWrite. repeat (case_decide; [done|]). destruct (WriteAt _ _ _ _ _ _) as [ne sg']. simpl.
  apply (Inv_contents s (SetData (fsys s) (s_Path (h_staging c)) (s_data sg'))); [done|apply SetData_names].
Qed.

Lemma Inv_openPayload s job p : Inv s -> Inv (snd (open_payload job p s)).
Proof.
  intros Hi. unfold open_payload. destruct (Stat _ p); [|done]. case_decide; [done|].
  destruct (ReadFile _ p) as [data|]; [|done]. case_decide; [done|]. case_decide; [done|].
  case_decide; [done|]. case_decide; [done|]. simpl.
  apply (Inv_contents s (SetData (fsys s) p (take (Z.to_nat (j_Checkpoint job)) data))); [done|apply SetData_names].
Qed.

(** ** Start-up *)

(** Steps that change no file, and only rewrite or delete rows. *)
Definition calm (s s' : jstate) : Prop :=
  Inv s' /\ fsys s' = fsys s /\ stagedObjects s' = stagedObjects s
  /\ copy_jobs (db s') = copy_jobs (db s)
  /\ forall r', r' ∈ uploads (db s') -> r_blob r' <> "" ->
       exists r, r ∈ uploads (db s) /\ r_blob r = r_blob r'.
Definition calm_op {A} (m : Op jstate jerr A) : Prop := forall s, Inv s -> calm s (snd (m s)).

Lemma calm_refl s : Inv s -> calm s s.
Proof. intros Hi. split_and!; try done. eauto. Qed.

Lemma calm_trans s1 s2 s3 : calm s1 s2 -> calm s2 s3 -> calm s1 s3.
Proof.
  intros (_ & A1 & A2 & A3 & A4) (B0 & B1 & B2 & B3 & B4). split_and!; try done; try congruence.
  intros r' Hr' Hb. destruct (B4 r' Hr' Hb) as (r & Hr & E).
  destruct (A4 r Hr) as (r0 & Hr0 & E0); [congruence|]. exists r0. split; congruence.
Qed.

Lemma calm_bind {A B} (m : Op jstate jerr A) (k : A -> Op jstate jerr B) :
  calm_op m -> (forall a, calm_op (k a)) -> calm_op (obind m k).
Proof.
  intros Hm Hk s Hi. specialize (Hm s Hi). unfold obind. destruct (m s) as [[a|e] s1]; simpl in *; [|done].
  eapply calm_trans; [done|]. apply Hk. apply Hm.
Qed.

Lemma calm_ret {A} (a : A) : calm_op (oret a). Proof. intros s. apply calm_refl. Qed.
Lemma calm_fail {A} e : calm_op (A := A) (ofail e). Proof. intros s. apply calm_refl. Qed.
Lemma calm_query {A} (f : DB -> A) : calm_op (query f). Proof. intros s. apply calm_refl. Qed.
Lemma calm_now : calm_op now_of. Proof. intros s. apply calm_refl. Qed.
Lemma calm_fs : calm_op fs_of. Proof. intros s. apply calm_refl. Qed.

Lemma calm_tx {A} (m : Tx DB jerr A) :
  (forall d a d', NoDup (ids d) -> m d = Ok (a, d') -> ev d d') -> calm_op (tx m).
Proof.
  intros Hm s Hi. unfold tx. destruct (m (db s)) as [[a d]|e] eqn:E; [|by apply calm_refl]. simpl.
  assert (Hev : ev (db s) d) by (eapply Hm; eauto; apply (inv_ids _ (i_db _ Hi))).
  pose proof Hev as (g & _ & _ & _ & _ & Hj & _). split_and!; try done.
  - apply Inv_set_db; [done|eapply ev_DBInv; [done|apply Hi]|intros r; by apply row_source_ev|].
    intros k v Hk. apply job_source_same. by rewrite <- Hj.
  - intros r' Hr' Hb. destruct (ev_origin _ _ _ Hev Hr') as (r & Hr & _ & _ & _ & [E'|E']); [|done]. eauto.
Qed.

Lemma calm_run x (m : Z -> Tx DB jerr unit) :
  rowwise x -> (forall t, m t = run (MkFS ∅ ∅) t x) -> calm_op (let* t := now_of in tx (m t)).
Proof.
  intros Hx Hm. apply calm_bind; [apply calm_now|]. intros t. apply calm_tx. rewrite Hm.
  intros d [] d' Hnd H. by eapply run_ev.
Qed.

Lemma calm_Fail id msg : calm_op (Fail id msg).
Proof. by apply (calm_run (TFail id msg)). Qed.
Lemma calm_Retry id msg delay : calm_op (Retry id msg delay).
Proof. by apply (calm_run (TRetry id msg delay)). Qed.
Lemma calm_FinishCancel id : calm_op (FinishCancel id).
Proof.
  unfold FinishCancel, require. apply calm_bind; [destruct cfg_owner; [apply calm_ret|apply calm_fail]|].
  intros _. apply calm_tx. intros d [] d' Hnd H. eapply (run_ev (MkFS ∅ ∅) 0 (TFinishCancel id)); done.
Qed.

Lemma calm_foreach {A} (l : list A) (f : A -> Op jstate jerr unit) :
  (forall x, calm_op (f x)) -> calm_op (oforeach l f).
Proof. intros Hf. induction l; simpl; [apply calm_ret|]. by apply calm_bind. Qed.

Lemma calm_finish_cancels : calm_op finish_cancels.
Proof.
  intros s. unfold finish_cancels. apply calm_foreach. intros r.
  case_decide; [apply calm_FinishCancel|apply calm_ret].
Qed.

Lemma calm_settle_rows l rec : calm_op (settle_rows l rec).
Proof.
  revert rec. induction l as [|u l IH]; intros rec; simpl; [apply calm_ret|].
  apply calm_bind; [apply calm_fs|]. intros f. destruct (verifyBlob f u).
  - apply calm_bind; [apply calm_Fail|]. intros _. apply IH.
  - case_decide; [|apply IH]. apply calm_bind; [apply calm_Retry|]. intros _. apply IH.
Qed.

(** *** What a directory listing names *)

Lemma ReadDir_name s d name k :
  Inv s -> plain d -> (name, k) ∈ ReadDir (fsys s) (canon (root ++ [d])) -> plain name.
Proof.
  intros Hi Hd. unfold ReadDir. rewrite list_elem_of_omap. intros ([p i] & Hp & H).
  apply elem_of_map_to_list in Hp. rewrite abs_canon in H by (by apply dir_plain).
  case_decide as HD; [|done]. destruct (inodes (fsys s) !! i); [|done]. simpl in H. simplify_eq.
  destruct (i_names _ Hi p) as (l & Hl & ->); [eauto|].
  apply (in_dir (root ++ [d]) l); [by apply dir_plain|by destruct root|done|done].
Qed.

(** A sweep only takes names it listed and was not told to keep. *)
Lemma sweep_spec dir keep l f gone f' :
  sweep dir keep l f = (gone, f') ->
  (forall q, is_Some (names f' !! q) -> is_Some (names f !! q))
  /\ (forall q, is_Some (names f !! q) -> is_Some (names f' !! q)
        \/ exists name k, (name, k) ∈ l /\ keep name = false /\ q = abs (Join [dir; name])).
Proof.
  revert f gone f'. induction l as [|[name k] l IH]; intros f gone f'; simpl.
  - intros [= _ <-]. auto.
  - assert (Hskip : forall gone f', sweep dir keep l f = (gone, f') ->
      (forall q, is_Some (names f' !! q) -> is_Some (names f !! q))
      /\ (forall q, is_Some (names f !! q) -> is_Some (names f' !! q)
        \/ exists n k', (n, k') ∈ (name, k) :: l /\ keep n = false /\ q = abs (Join [dir; n]))).
    { intros g f1 E. destruct (IH _ _ _ E) as [A B]. split; [done|]. intros q Hq.
      destruct (B q Hq) as [?|(n & k' & ? & ? & ?)]; [by left|]. right. exists n, k'. set_solver. }
    case_decide as Hk; [apply Hskip|]. destruct (Remove f _) as [f1|] eqn:E; [|apply Hskip].
    apply Remove_names in E. destruct (sweep dir keep l f1) as [g f2] eqn:E2. intros [= _ <-].
    destruct (IH _ _ _ E2) as [A B]. split.
    + intros q Hq%A. rewrite E in Hq. by apply lookup_delete_is_Some in Hq as [_ ?].
    + intros q Hq. destruct (decide (q = abs (Join [dir; name]))) as [->|Hne].
      * right. exists name, k. split_and!; [by left| |done]. destruct (keep name); [tauto|done].
      * destruct (B q) as [?|(n & k' & ? & ? & ?)]; [by rewrite E, lookup_delete_ne|by left|].
        right. exists n, k'. set_solver.
Qed.

Lemma Inv_shrink s f :
  Inv s -> (forall q, is_Some (names f !! q) -> is_Some (names (fsys s) !! q)) ->
  (forall p, needed s p -> is_Some (names f !! p)) -> Inv (s <| fsys := f |>).
Proof.
  intros [Hdb Hn Hb Hs Hr Hj Hk] Hsub Hkeep. split; simpl; try done.
  - intros k Hx%Hsub. by apply Hn.
  - intros q Hq. apply Hkeep.
    destruct Hq; [eapply needed_row|eapply needed_staged|eapply needed_copy]; eauto.
Qed.

(** A sweep of sub-directory [d] that keeps every needed name of it. *)
Lemma Inv_sweep s d dir keep :
  Inv s -> plain d -> dir = canon (root ++ [d]) ->
  (forall n, plain n -> needed s (under d n) -> keep n = true) -> Inv (snd (sweep_op dir keep s)).
Proof.
  intros Hi Hd -> Hkeep. unfold sweep_op. destruct (io_error _ _); [done|].
  destruct (sweep _ _ _ _) as [gone f] eqn:E. simpl. apply sweep_spec in E as [A B].
  apply Inv_shrink; [done|done|]. intros p Hp.
  destruct (B p) as [?|(n & k & Hin & Hk & ->)]; [by apply Hi|done|]. exfalso.
  apply ReadDir_name in Hin; [|done|done]. rewrite join_under, abs_under in Hp by done.
  by rewrite Hkeep in Hk.
Qed.

Lemma sweep_op_db dir keep s : db (snd (sweep_op dir keep s)) = db s
  /\ stagedObjects (snd (sweep_op dir keep s)) = stagedObjects s.
Proof. unfold sweep_op. destruct (io_error _ _); [done|]. by destruct (sweep _ _ _ _). Qed.

(** The copies sweep stops at the first file it cannot remove. *)
Lemma remove_entries_spec dir keep l s :
  (forall name k, (name, k) ∈ l -> plain name) -> dir = canon (root ++ ["copies"]) ->
  (forall n, plain n -> needed s (under "copies" n) -> keep (under "copies" n) = true) ->
  Inv s -> Inv (snd (remove_entries dir keep l s))
           /\ db (snd (remove_entries dir keep l s)) = db s
           /\ stagedObjects (snd (remove_entries dir keep l s)) = stagedObjects s.
Proof.
  intros Hl ->. revert s. induction l as [|[name k] l IH]; intros s Hkeep Hi; cbn [remove_entries]; [done|].
  assert (Hl' : forall n k, (n, k) ∈ l -> plain n) by (intros; eapply Hl; by right).
  assert (Hn : plain name) by (eapply Hl; by left).
  rewrite (join_under "copies" name copies_plain Hn).
  case_decide; [by apply IH|]. destruct (keep _) eqn:Ek; [by apply IH|]. unfold obind, os_op.
  destruct (Remove _ _) as [f|] eqn:E; [|done]. apply Remove_names in E.
  rewrite (abs_under "copies" name copies_plain Hn) in E.
  assert (Hun : ~ needed s (under "copies" name)) by (intros Hx%Hkeep; [congruence|done]).
  assert (Hi' : Inv (s <| fsys := f |>)) by (by apply (Inv_remove s (under "copies" name))).
  destruct (IH Hl' (s <| fsys := f |>)) as (A & B & C); [|done|split_and!; [exact A|exact B|exact C]].
  intros n Hpn Hx. apply Hkeep; [done|].
  destruct Hx; [eapply needed_row|eapply needed_staged|eapply needed_copy]; eauto.
Qed.

Lemma scan_all_In l js j : scan_all l = Ok js -> j ∈ l -> exists j', j' ∈ js /\ j_ID j' = j_ID j /\ j_State j' = j_State j.
Proof.
  revert js. induction l as [|x l IH]; intros js; simpl; [set_solver|].
  destruct (scanCopy x) as [x'|] eqn:Ex; [|done].
  assert (x' = x) as ->.
  { unfold scanCopy in Ex. destruct (validate _); [done|]. repeat case_decide; try done.
    destruct (negb _); [done|]. by simplify_eq. }
  case_decide; [done|]. destruct (scan_all l) as [js'|]; [|done]. intros [= <-] [->|Hj]%elem_of_cons.
  - exists x. set_solver.
  - destruct (IH js' eq_refl Hj) as (j' & ? & ?). exists j'. set_solver.
Qed.

Lemma copy_rows_In id c d : copy_jobs d !! id = Some c -> job_of_row id c ∈ copy_rows d.
Proof.
  intros H. unfold copy_rows. apply elem_of_order_by, elem_of_app. left.
  apply list_elem_of_fmap. exists (id, c). split; [done|]. by apply elem_of_map_to_list.
Qed.

(** A name a row or an unsubmitted copy job carries. *)
Definition named (d : DB) (p : string) : Prop :=
  (exists r, r ∈ uploads d /\ r_blob r = p)
  \/ exists id c, copy_jobs d !! id = Some c /\ c_state c <> CopySubmitted /\ copyPath id = Some p.

Lemma copyRetention_keeps d live p : copyRetention d = Ok live -> named d p -> p ∈ live.
Proof.
  unfold copyRetention, CopyJobs. destruct (scan_all _) as [js|] eqn:E; [|done]. intros [= <-] Hn.
  apply elem_of_union. destruct Hn as [(r & Hr & <-)|(id & c & Hc & Hs & Hp)]; [right|left].
  - apply elem_of_list_to_set, list_elem_of_fmap_2, Hr.
  - apply elem_of_list_to_set, list_elem_of_omap.
    destruct (scan_all_In _ _ _ E (copy_rows_In _ _ _ Hc)) as (j & Hj & Hid & Hstj). exists j.
    split; [done|]. rewrite Hstj, Hid. simpl. by rewrite decide_False.
Qed.

Lemma needed_named s p : stagedObjects s = ∅ -> needed s p -> named (db s) p /\ p <> "".
Proof.
  intros Hs [r Hr [Hp Hb] <-|id H|id c Hc Hst Hp].
  - split; [left; eauto|done].
  - by rewrite Hs in H.
  - split; [right; eauto|]. apply copyPath_Some in Hp as [_ ->]. done.
Qed.

Lemma calm_named s s' p : calm s s' -> p <> "" -> named (db s') p -> named (db s) p.
Proof.
  intros (_ & _ & _ & Hj & Hr) Hne [(r & Hin & <-)|H]; [left; by apply Hr|right]. by rewrite <- Hj.
Qed.

Lemma needed_ext s s' p : db s' = db s -> stagedObjects s' = stagedObjects s -> needed s' p -> needed s p.
Proof.
  intros Hd Hs [r Hr Hh E|id E|id c Hc Hst E]; rewrite ?Hd, ?Hs in *;
    [eapply needed_row|eapply needed_staged|eapply needed_copy]; eauto.
Qed.

Lemma named_live d n : plain n -> named d (under "objects" n) -> n ∈ live_names d.
Proof.
  intros Hn [(r & Hr & E)|(id & c & _ & _ & Hp)].
  - apply elem_of_list_to_set, list_elem_of_fmap. exists r. split.
    + rewrite E, Base_under; [done|apply objects_plain|done].
    + apply list_elem_of_filter. split; [|done]. by rewrite E.
  - apply copyPath_Some in Hp as [Hu E]. exfalso.
    apply under_inj in E as [E _]; [done|apply objects_plain|done|apply copies_plain|by apply uuid_plain].
Qed.

Lemma Inv_cleanCopyOrphans s live :
  Inv s -> (forall n, plain n -> needed s (under "copies" n) -> under "copies" n ∈ live) ->
  Inv (snd (cleanCopyOrphans live s)) /\ db (snd (cleanCopyOrphans live s)) = db s
  /\ stagedObjects (snd (cleanCopyOrphans live s)) = stagedObjects s.
Proof.
  intros Hi Hl. unfold cleanCopyOrphans. rewrite copies_dir_abs. destruct (io_error _ _); [done|].
  apply remove_entries_spec; [|done| |done].
  - intros name k. apply ReadDir_name; [done|apply copies_plain].
  - intros n Hn Hx. by apply bool_decide_eq_true_2, Hl.
Qed.

(** The three sweeps, in a state whose names the two keep sets cover. *)
Lemma Inv_sweeps s (live copyLive : gset string) rec :
  Inv s -> stagedObjects s = ∅ ->
  (forall p, p <> "" -> named (db s) p -> p ∈ copyLive) ->
  (forall n, plain n -> named (db s) (under "objects" n) -> n ∈ live) ->
  Inv (snd ((let* gone := sweep_op StagingDir (fun _ => false) in
             do* cleanCopyOrphans copyLive;
             do* sweep_op ObjectsDir (fun n => bool_decide (n ∈ live));
             oret (rec <| OrphanStaging := gone |>)) s)).
Proof.
  intros Hi Hs Hc Ho.
  assert (Hi1 : Inv (snd (sweep_op StagingDir (fun _ => false) s))).
  { apply (Inv_sweep s "staging"); [done|apply staging_plain|apply staging_dir|].
    intros n Hn Hx. by destruct (staging_unneeded s n). }
  destruct (sweep_op_db StagingDir (fun _ => false) s) as [Hd1 Hs1].
  unfold obind at 1. destruct (sweep_op StagingDir _ s) as [[gone|] s1]; [|done]. simpl in *.
  assert (H1 : forall p, needed s1 p -> named (db s) p /\ p <> "").
  { intros p Hp. apply needed_named; [done|]. by apply (needed_ext s s1). }
  destruct (Inv_cleanCopyOrphans s1 copyLive Hi1) as (Hi2 & Hd2 & Hs2).
  { intros n Hn [Hx Hne]%H1. by apply Hc. }
  unfold obind at 1. destruct (cleanCopyOrphans copyLive s1) as [[u2|] s2]; [|done]. simpl in *.
  assert (Hi3 : Inv (snd (sweep_op ObjectsDir (fun n => bool_decide (n ∈ live)) s2))).
  { apply (Inv_sweep s2 "objects"); [done|apply objects_plain|apply objects_dir|].
    intros n Hn Hx. apply bool_decide_eq_true_2, Ho; [done|]. apply H1. by apply (needed_ext s1 s2). }
  unfold obind. by destruct (sweep_op ObjectsDir _ s2) as [[u3|] s3].
Qed.

Lemma Inv_recover s : Inv s -> stagedObjects s = ∅ -> Inv (snd (Recover s)).
Proof.
  intros Hi Hs. unfold Recover. destruct (negb cfg_owner); [done|].
  unfold obind at 1. unfold query at 1.
  assert (H1 := calm_finish_cancels s Hi). unfold obind at 1.
  destruct (finish_cancels s) as [[u1|] s1]; simpl in H1; [|apply H1].
  unfold obind at 1, query at 1. destruct (copyRetention (db s1)) as [copyLive|] eqn:Ec; [|apply H1].
  unfold obind at 1, query at 1. set (l := map scanUpload _).
  assert (H2 := calm_settle_rows l (MkRecovery [] [] [] false) s1 (proj1 H1)). unfold obind at 1.
  destruct (settle_rows l _ s1) as [[rec|] s2]; simpl in H2; [|apply H2].
  assert (H12 := calm_trans _ _ _ H1 H2).
  apply Inv_sweeps; [apply H2|destruct H12 as (_ & _ & -> & _); done| |].
  - intros p Hne Hp. eapply copyRetention_keeps; [exact Ec|]. by apply (calm_named s1 s2).
  - intros n Hn Hp. apply named_live; [done|]. by apply (calm_named s s2).
Qed.

(** ** The journal as a transition system

    One step is what runs without releasing the writer lock; steps of
    different callers interleave freely. *)
Inductive jio : jstate -> jstate -> Prop :=
| step_release s id b : jio s (snd (releaseStagedObject id b s))
| step_removeBlob s b : jio s (snd (removeBlobIfUnreferenced b s))
| step_finishUploadCleanup s id meta : jio s (snd (FinishUploadCleanup id meta s))
| step_finishCopyCleanup s id p :
    copyPath id = Some p -> jio s (snd (tx_fs (finishCopyCleanupBody id p) s))
| step_newStaging s id want : uuid_canonical id = true -> jio s (snd (NewStaging id want s))
| step_linkStaging s src ino id want :
    uuid_canonical id = true -> jio s (snd (LinkStaging src ino id want s))
| step_commitStaging s sg hashes :
    in_staging sg -> plain (object_name (s_ID sg) hashes) -> jio s (snd (CommitStaging sg hashes s))
| step_discard s sg : ~ needed s (abs (s_Path sg)) -> jio s (snd (Discard sg s))
| step_move s sg id : in_staging sg -> jio s (snd (move_to_copies sg id s))
| step_copyWrite s c p r n e : jio s (snd (CopyWrite c p r n e s))
| step_openPayload s job p : jio s (snd (open_payload job p s))
| step_claim s id : jio s (snd (claimCopy id s))
| step_unclaim s id : jio s (snd (releaseCopy id s))
| step_tick s t : jio s (s <| now := t |>)
| step_recover s : stagedObjects s = ∅ -> jio s (snd (Recover s)).

Inductive jstep : jstate -> jstate -> Prop :=
| step_tx s x d : tx_ok s x -> run (fsys s) (now s) x (db s) = Ok (tt, d) -> jstep s (s <| db := d |>)
| step_io s s' : jio s s' -> jstep s s'.

Lemma Inv_ext s s' :
  Inv s -> db s' = db s -> fsys s' = fsys s -> stagedObjects s' = stagedObjects s ->
  stagedRefs s' = stagedRefs s -> Inv s'.
Proof.
  intros [Hdb Hn Hb Hs Hr Hj Hk] E1 E2 E3 E4.
  split; rewrite ?E1, ?E2, ?E3, ?E4; unfold reserved_count; rewrite ?E3; try done.
  intros p Hp. apply Hk. by apply (needed_ext s s').
Qed.

Lemma Inv_io s s' : jio s s' -> Inv s -> Inv s'.
Proof.
  destruct 1; intros Hi.
  - by apply Inv_release.
  - by apply Inv_removeBlob.
  - by apply Inv_finishUploadCleanup.
  - by apply Inv_finishCopyCleanup.
  - by apply Inv_newStaging.
  - by apply Inv_linkStaging.
  - by apply Inv_commitStaging.
  - by apply Inv_discard_staging.
  - by apply Inv_move.
  - by apply Inv_copyWrite.
  - by apply Inv_openPayload.
  - unfold claimCopy. destruct (negb _); [done|]. case_decide; [done|]. by apply (Inv_ext s).
  - by apply (Inv_ext s).
  - by apply (Inv_ext s).
  - by apply Inv_recover.
Qed.

Lemma Inv_step s s' : jstep s s' -> Inv s -> Inv s'.
Proof. destruct 1; intros Hi; [by eapply Inv_tx|by eapply Inv_io]. Qed.

Lemma Inv_reach s s' : rtc jstep s s' -> Inv s -> Inv s'.
Proof. induction 1; eauto using Inv_step. Qed.

(** A journal that has just been created. *)
Record Fresh (s : jstate) : Prop := {
  fresh_uploads : uploads (db s) = [];
  fresh_cleanup : upload_cleanup (db s) = ∅;
  fresh_discarded : upload_discarded (db s) = ∅;
  fresh_jobs : copy_jobs (db s) = ∅;
  fresh_copy_cleanup : copy_cleanup (db s) = ∅;
  fresh_staged : stagedObjects s = ∅;
  fresh_refs : stagedRefs s = ∅;
  fresh_names : forall k, is_Some (names (fsys s) !! k) -> exists l, Forall plain l /\ k = canon l
}.

Lemma Inv_fresh s : Fresh s -> Inv s.
Proof.
  intros [Hu Hc Hd Hj Hk Hs Hr Hn]. split; try done.
  - split; unfold ids; rewrite ?Hu, ?Hc, ?Hd, ?Hj, ?Hk.
    + constructor.
    + constructor.
    + intros r Hr'. by apply elem_of_nil in Hr'.
    + intros id [? ?]. by rewrite lookup_empty in *.
    + intros id _. apply not_elem_of_nil.
    + intros id. left. apply lookup_empty.
    + intros i j a b Ha. by rewrite lookup_empty in Ha.
  - intros r Hr'. rewrite Hu in Hr'. by apply elem_of_nil in Hr'.
  - intros id p. by rewrite Hs, lookup_empty.
  - intros p. unfold reserved_count. rewrite Hs, Hr. done.
  - intros id [c Hc']. by rewrite Hj, lookup_empty in Hc'.
  - intros p [r Hr' _ _|id E|id c E _ _]; exfalso.
    + rewrite Hu in Hr'. by apply elem_of_nil in Hr'.
    + by rewrite Hs, lookup_empty in E.
    + by rewrite Hj, lookup_empty in E.
Qed.

(** ** Public methods are sequences of steps *)

Definition steps_op {A} (m : Op jstate jerr A) : Prop := forall s, rtc jstep s (snd (m s)).

Lemma steps_bind {A B} (m : Op jstate jerr A) (k : A -> Op jstate jerr B) :
  steps_op m -> (forall a, steps_op (k a)) -> steps_op (obind m k).
Proof.
  intros Hm Hk s. specialize (Hm s). unfold obind. destruct (m s) as [[a|e] s1]; simpl in *; [|done].
  by etransitivity; [|apply Hk].
Qed.
Lemma steps_ret {A} (a : A) : steps_op (oret a). Proof. intros s. apply rtc_refl. Qed.
Lemma steps_fail {A} e : steps_op (A := A) (ofail e). Proof. intros s. apply rtc_refl. Qed.
Lemma steps_query {A} (f : DB -> A) : steps_op (query f). Proof. intros s. apply rtc_refl. Qed.
Lemma steps_require b e : steps_op (require b e). Proof. destruct b; [apply steps_ret|apply steps_fail]. Qed.
Lemma steps_otry {A} (m : Op jstate jerr A) : steps_op m -> steps_op (otry m).
Proof. intros Hm s. specialize (Hm s). unfold otry. by destruct (m s). Qed.
Lemma steps_one {A} (m : Op jstate jerr A) : (forall s, jstep s (snd (m s))) -> steps_op m.
Proof. intros Hm s. by apply rtc_once. Qed.

(** A transaction whose body is the one [run] gives for [x]. *)
Lemma steps_now {A B} (m : Z -> Tx DB jerr A) (k : A -> Op jstate jerr B) (x : dbtx) :
  (forall f t d a d', m t d = Ok (a, d') -> run f t x d = Ok (tt, d')) -> (forall s, tx_ok s x) ->
  (forall a, steps_op (k a)) -> steps_op (let* t := now_of in let* a := tx (m t) in k a).
Proof.
  intros Hm Hok Hk s. unfold obind, now_of, tx. destruct (m (now s) (db s)) as [[a d]|e] eqn:E; [|apply rtc_refl].
  eapply rtc_l; [|apply Hk]. eapply step_tx; [apply Hok|by eapply Hm].
Qed.

Lemma steps_tx {A} (m : Tx DB jerr A) (x : dbtx) :
  (forall f t d a d', m d = Ok (a, d') -> run f t x d = Ok (tt, d')) -> (forall s, tx_ok s x) ->
  steps_op (tx m).
Proof.
  intros Hm Hok s. unfold tx. destruct (m (db s)) as [[a d]|e] eqn:E; [|apply rtc_refl].
  apply rtc_once. eapply step_tx; [apply Hok|by eapply Hm].
Qed.

Lemma steps_now_tx {A} (m : Z -> Tx DB jerr A) (x : dbtx) :
  (forall f t d a d', m t d = Ok (a, d') -> run f t x d = Ok (tt, d')) -> (forall s, tx_ok s x) ->
  steps_op (let* t := now_of in tx (m t)).
Proof.
  intros Hm Hok s. unfold obind, now_of. assert (H := Hm (fsys s) (now s) (db s)).
  unfold tx. destruct (m (now s) (db s)) as [[a d]|e] eqn:E; [|apply rtc_refl].
  apply rtc_once. eapply step_tx; [apply Hok|by eapply H].
Qed.

Lemma steps_removeBlob b : steps_op (removeBlobIfUnreferenced b).
Proof. apply steps_one. intros s. apply step_io. constructor. Qed.

Lemma void_Ok {A} (m : Tx DB jerr A) d a d' : m d = Ok (a, d') -> void m d = Ok (tt, d').
Proof. intros H. unfold void, tbind. by rewrite H. Qed.
Lemma unit_Ok (m : Tx DB jerr unit) d a d' : m d = Ok (a, d') -> m d = Ok (tt, d').
Proof. by destruct a. Qed.
(** The body of a constructor of [dbtx] is the method's. *)
Local Ltac same_body :=
  let H := fresh in intros * H; first [exact (void_Ok _ _ _ _ H) | exact (unit_Ok _ _ _ _ H)].

Inductive call :=
| CClaim (remote : string) (n : Z) | CRetarget (id parent name : string)
| CSetSession (id : string) (m : gmap string string) | CRecordPart (id : string) (p : Part)
| CSucceed (id : string) | CRetry (id msg : string) (delay : Z) | CDefer (id : string) (delay : Z) (why : string)
| CFail (id msg : string) | CRequeue (id : string) | CDropPending (id : string)
| CDropSuperseded (remote : string) (ino : Z) (keep : string) | CDrop (id : string)
| CTombstone (id : string) | CPurge (age : Z) | CMarkPublished (id : string)
| CRequestCancel (id : string) | CFinishCancel (id : string)
| CPrepareResume (id : string) | CCommitResume (p : PreparedUploadResume)
| CCommitBound (p : PreparedUploadResume) (b : UploadBinding)
| CBeginUploadCleanup (id meta : string) | CFinishUploadCleanup (id meta : string)
| CCheckpoint (c : CopyStaging) | CResumeCopy (id : string) | CRetryCopy (id : string)
| CFailCopy (id reason : string) | CCancelCopy (id : string)
| CBeginCopyCleanup (id : string) | CFinishCopyCleanup (id : string)
| CBeginServerCopy (id : string) (spec : ServerCopySpec) | CFinishServerCopy (id : string).

Definition eff {A} (m : Op jstate jerr A) (s : jstate) : jstate := snd (m s).

(** The effect of one whole method call. *)
Definition exec (c : call) : jstate -> jstate :=
  match c with
  | CClaim r n => eff (Claim r n) | CRetarget i p n => eff (Retarget i p n)
  | CSetSession i m => eff (SetSession i m) | CRecordPart i p => eff (RecordPart i p)
  | CSucceed i => eff (Succeed i) | CRetry i m d => eff (Retry i m d) | CDefer i d w => eff (Defer i d w)
  | CFail i m => eff (Fail i m) | CRequeue i => eff (Requeue i) | CDropPending i => eff (DropPending i)
  | CDropSuperseded r i k => eff (DropSuperseded r i k) | CDrop i => eff (Drop i)
  | CTombstone i => eff (Tombstone i) | CPurge a => eff (Purge a) | CMarkPublished i => eff (MarkPublished i)
  | CRequestCancel i => eff (RequestCancel i) | CFinishCancel i => eff (FinishCancel i)
  | CPrepareResume i => eff (PrepareUploadResume i) | CCommitResume p => eff (CommitResume p)
  | CCommitBound p b => eff (CommitBound p b)
  | CBeginUploadCleanup i m => eff (BeginUploadCleanup i m) | CFinishUploadCleanup i m => eff (FinishUploadCleanup i m)
  | CCheckpoint c => eff (Checkpoint c) | CResumeCopy i => eff (ResumeCopy i) | CRetryCopy i => eff (RetryCopy i)
  | CFailCopy i r => eff (FailCopy i r) | CCancelCopy i => eff (CancelCopy i)
  | CBeginCopyCleanup i => eff (BeginCopyCleanup i) | CFinishCopyCleanup i => eff (FinishCopyCleanup i)
  | CBeginServerCopy i sp => eff (BeginServerCopy i sp) | CFinishServerCopy i => eff (FinishServerCopy i)
  end.

Lemma steps_dropIdle id po : steps_op (dropIdle id po).
Proof.
  apply steps_bind; [|apply steps_removeBlob]. apply (steps_tx _ (TDropIdle id po)); [same_body|done].
Qed.
Lemma steps_dropAll l n : steps_op (dropAll l n).
Proof.
  revert n. induction l as [|id l IH]; intros n; simpl; [apply steps_ret|].
  apply steps_bind; [apply steps_otry, steps_dropIdle|]. intros [[]|[]]; try apply IH; apply steps_fail.
Qed.
Lemma steps_Drop id : steps_op (Drop id).
Proof.
  apply steps_bind; [intros s; unfold Get; destruct (row_of id (db s)); apply rtc_refl|].
  intros u. apply steps_bind; [|intros _; apply steps_removeBlob].
  apply (steps_tx _ (TDrop id)); [same_body|done].
Qed.
Lemma steps_foreach {A} (l : list A) (f : A -> Op jstate jerr unit) :
  (forall x, steps_op (f x)) -> steps_op (oforeach l f).
Proof. intros Hf. induction l; simpl; [apply steps_ret|]. by apply steps_bind. Qed.
Lemma steps_now_of : steps_op now_of. Proof. intros s. apply rtc_refl. Qed.
Lemma steps_fs_of : steps_op fs_of. Proof. intros s. apply rtc_refl. Qed.

Lemma steps_claim id : steps_op (claimCopy id).
Proof. apply steps_one. intros s. apply step_io. constructor. Qed.
Lemma steps_with_claim {A} id (m : Op jstate jerr A) : steps_op m -> steps_op (with_claim id m).
Proof.
  intros Hm. apply steps_bind; [apply steps_claim|]. intros _ s. specialize (Hm s). destruct (m s) as [r s1].
  simpl in *. eapply rtc_r; [done|]. apply step_io. constructor.
Qed.

Lemma steps_open id mode : steps_op (openCopy id mode).
Proof.
  apply steps_bind; [apply steps_claim|]. intros _ s. cbv zeta.
  set (body := obind (query (GetCopy id)) _).
  assert (Hb : steps_op body).
  { apply steps_bind; [apply steps_query|]. intros [job|e]; [|apply steps_fail].
    destruct (open_state mode job) as [st|e]; [|apply steps_fail].
    destruct (copyPath id) as [p|]; [|apply steps_fail].
    apply steps_bind; [apply steps_one; intros s'; apply step_io, step_openPayload|].
    intros sg. destruct mode; try apply steps_ret. apply steps_bind; [|intros _; apply steps_ret].
    apply (steps_tx _ (TRetryCopy id st (j_Revision job))); [same_body|done]. }
  specialize (Hb s). destruct (body s) as [[c|e] s1]; simpl in *; [done|].
  eapply rtc_r; [done|]. apply step_io. constructor.
Qed.

Local Ltac one_tx x := apply (steps_tx _ x); [same_body|done].
Local Ltac one_now x := apply (steps_now_tx _ x); [same_body|done].

Lemma steps_call c : forall s, rtc jstep s (exec c s).
Proof.
  destruct c; simpl; unfold eff.
  - one_now (TClaim remote n).
  - one_tx (TRetarget id parent name).
  - one_tx (TSetSession id m).
  - one_tx (TRecordPart id p).
  - apply (steps_now (fun t => succeedTx t id) removeBlobIfUnreferenced (TSucceed id)); [same_body|done|apply steps_removeBlob].
  - one_now (TRetry id msg delay).
  - one_now (TDefer id delay why).
  - one_now (TFail id msg).
  - one_tx (TRequeue id).
  - apply steps_dropIdle.
  - unfold DropSuperseded. case_decide; [apply steps_ret|].
    apply steps_bind; [apply steps_query|intros l; apply steps_dropAll].
  - apply steps_Drop.
  - one_tx (TTombstone id).
  - apply steps_bind; [apply steps_now_of|intros t]. apply steps_bind; [apply steps_query|intros l].
    apply steps_bind; [apply steps_foreach; apply steps_Drop|intros _; apply steps_ret].
  - apply steps_bind; [apply steps_require|intros _]. one_tx (TMarkPublished id).
  - apply steps_bind; [apply steps_require|intros _]. one_tx (TRequestCancel id).
  - apply steps_bind; [apply steps_require|intros _]. one_tx (TFinishCancel id).
  - apply steps_bind; [apply steps_require|intros _]. apply steps_bind.
    { intros s. unfold tx, prepareResumeTx. destruct (row_of id (db s)); [|apply rtc_refl].
      case_decide; [apply rtc_refl|]. simpl. destruct s. apply rtc_refl. }
    intros p. apply steps_bind; [apply steps_fs_of|intros f].
    apply steps_bind; [apply steps_require|intros _; apply steps_ret].
  - one_tx (TResume p None).
  - apply steps_bind; [apply steps_require|intros _]. one_tx (TResume p (Some b)).
  - apply steps_bind; [apply steps_require|intros _]. apply steps_bind; [apply steps_require|intros _].
    one_tx (TBeginCleanup id meta).
  - apply steps_one. intros s. apply step_io. constructor.
  - unfold Checkpoint. case_decide; [apply steps_fail|]. apply steps_bind.
    { unfold syncCopy. case_decide; [apply steps_ret|apply steps_require]. }
    intros _. apply steps_bind; [|intros _; apply steps_ret].
    one_tx (TCheckpoint (j_ID (h_job c)) (s_size (h_staging c)) (default "" (StagingHashes (h_staging c) !! "crc32c"))
      (if decide (s_size (h_staging c) = cs_Size (j_Spec (h_job c))) then CopyReady else CopyPreparing)).
  - apply steps_open.
  - apply steps_bind; [apply steps_open|]. intros c. unfold CloseCopy. destruct (h_closed c); [apply steps_ret|].
    apply steps_bind; [apply steps_one; intros s; apply step_io; constructor|intros _; apply steps_ret].
  - apply steps_with_claim. one_tx (TFailCopy id reason).
  - apply steps_bind; [apply steps_require|intros _]. apply steps_bind; [apply steps_require|intros _].
    one_tx (TCancelCopy id).
  - unfold BeginCopyCleanup. destruct (copyPath id) as [p|]; [|apply steps_fail].
    apply steps_with_claim. one_tx (TBeginCopyCleanup id p).
  - unfold FinishCopyCleanup. destruct (copyPath id) as [p|] eqn:E; [|apply steps_fail].
    apply steps_with_claim, steps_one. intros s. apply step_io. by constructor.
  - unfold BeginServerCopy. destruct (validServerCopySpec spec); [apply steps_fail|].
    apply steps_bind; [one_tx (TBeginServerCopy id spec)|intros _; apply steps_ret].
  - one_tx (TFinishServerCopy id).
Qed.
End Reach.
