(* ===== verification/JournalLife.v ===== *)
(** * Stopping, resuming and discarding: what later steps cannot undo

    A stopped upload stays stopped, with its payload, until it is explicitly
    resumed or discarded; a stop that arrives after a resume was prepared wins;
    a discard, once begun, only ever completes. *)
From S2P Require Import Prelude Filepath JournalState JournalQueue JournalAdmin Staging JournalCopy JournalRecover JournalTx JournalInv JournalSafety JournalReach.
Import Filepath.
Open Scope Z_scope.

(** ** One row through an update *)

Lemma head_filter_map (P : Row -> Prop) `{forall r, Decision (P r)} (h : Row -> Row) l :
  (forall r, P (h r) <-> P r) -> head (filter P (map h l)) = h <$> head (filter P l).
Proof.
  intros Hh. induction l as [|x l IH]; [done|]. simpl. rewrite !filter_cons.
  destruct (decide (P x)); [rewrite decide_True by (by apply Hh); done|].
  rewrite decide_False by (by rewrite Hh). done.
Qed.

Lemma row_of_upd_rows P `{forall r, Decision (P r)} f id d :
  (forall r, r_id (f r) = r_id r) ->
  row_of id (upd_rows P f d) = (fun r => if decide (P r) then f r else r) <$> row_of id d.
Proof.
  intros Hf. unfold row_of, sel. rewrite uploads_upd_rows. apply head_filter_map.
  intros r. case_decide; [by rewrite Hf|done].
Qed.

Lemma row_of_del_id_ne id id' d : id <> id' -> row_of id (del_id id' d) = row_of id d.
Proof.
  intros Hne. unfold row_of, sel, del_id. rewrite uploads_del_rows. f_equal.
  rewrite list_filter_filter. apply list_filter_iff. intros r. split; [tauto|]. intros ->. by split.
Qed.

Lemma row_of_del_id_eq id d : row_of id (del_id id d) = None.
Proof. apply row_of_None. intros r Hr. by apply list_elem_of_filter in Hr as [? _]. Qed.

Lemma row_of_append id r d :
  row_of id (d <| uploads ::= fun l => l ++ [r] |>)
  = match row_of id d with Some x => Some x | None => if decide (r_id r = id) then Some r else None end.
Proof.
  unfold row_of, sel. simpl. unfold upd. simpl. rewrite filter_app. simpl.
  destruct (filter _ (uploads d)) as [|x l]; [|done]. simpl. rewrite filter_cons, filter_nil.
  by case_decide.
Qed.

(** Keep the row of [id] in state and payload. *)
Definition undisturbed (id : string) (d d' : DB) : Prop :=
  forall r, row_of id d = Some r ->
    exists r', row_of id d' = Some r' /\ r_state r' = r_state r /\ r_blob r' = r_blob r.

Lemma undisturbed_refl id d : undisturbed id d d.
Proof. intros r Hr. by exists r. Qed.

Lemma undisturbed_trans id d1 d2 d3 : undisturbed id d1 d2 -> undisturbed id d2 d3 -> undisturbed id d1 d3.
Proof.
  intros A B r Hr. destruct (A r Hr) as (r1 & H1 & S1 & B1). destruct (B r1 H1) as (r2 & H2 & S2 & B2).
  exists r2. split_and!; congruence.
Qed.

Lemma undisturbed_uploads id d d' : uploads d' = uploads d -> undisturbed id d d'.
Proof. intros E r Hr. exists r. split_and!; try done. unfold row_of, sel. by rewrite E. Qed.

Lemma undisturbed_upd P `{forall r, Decision (P r)} f id d :
  (forall r, r_id (f r) = r_id r) ->
  (forall r, row_of id d = Some r -> P r -> r_state (f r) = r_state r /\ r_blob (f r) = r_blob r) ->
  undisturbed id d (upd_rows P f d).
Proof.
  intros Hid Hf r Hr. rewrite row_of_upd_rows, Hr by done. simpl. eexists. split; [done|].
  case_decide; [by apply Hf|done].
Qed.

Lemma row_of_uploads id d d' : uploads d' = uploads d -> row_of id d' = row_of id d.
Proof. intros E. unfold row_of, sel. by rewrite E. Qed.

Lemma undisturbed_side_upd P `{forall r, Decision (P r)} f id d d1 :
  uploads d1 = uploads d -> (forall r, r_id (f r) = r_id r) ->
  (forall r, row_of id d = Some r -> P r -> r_state (f r) = r_state r /\ r_blob (f r) = r_blob r) ->
  undisturbed id d (upd_rows P f d1).
Proof.
  intros E Hid Hf. eapply undisturbed_trans; [by apply undisturbed_uploads|].
  apply undisturbed_upd; [done|]. by rewrite (row_of_uploads id d d1).
Qed.

Lemma undisturbed_del id id' d : id <> id' -> undisturbed id d (del_id id' d).
Proof. intros Hne r Hr. exists r. by rewrite row_of_del_id_ne. Qed.

Lemma order_by_nil {A} (le : A -> A -> bool) l : l = [] -> order_by le l = [].
Proof. by intros ->. Qed.

(** ** A stopped upload *)

Definition stopped (st : State) : Prop := st = StateCancelled \/ st = StateCancelling.
#[export] Instance stopped_dec st : Decision (stopped st).
Proof. unfold stopped. apply _. Defined.

(** The two explicit decisions that move a stopped upload. *)
Definition decides (id : string) (x : dbtx) : Prop :=
  match x with
  | TResume p _ => ID (p_u p) = id
  | TBeginCleanup i _ => i = id
  | _ => False
  end.

(** The worker's acknowledgement that it has let go of a stopped upload. *)
Definition acknowledges (id : string) (x : dbtx) : Prop :=
  match x with TFinishCancel i => i = id | _ => False end.
#[export] Instance acknowledges_dec id x : Decision (acknowledges id x).
Proof. destruct x; simpl; apply _. Defined.

Section Stop.
Context {cfg : Config}.

Lemma undisturbed_claims out id d :
  (forall x, x ∈ out -> r_id x <> id) ->
  undisturbed id d
    (fold_left (fun acc x => upd_id (r_id x) (fun r => r <| r_state := StateUploading |>) acc) out d).
Proof.
  revert d. induction out as [|x out IH]; intros d H; simpl; [apply undisturbed_refl|].
  eapply undisturbed_trans; [|apply IH; set_solver].
  apply (undisturbed_upd (fun r => r_id r = r_id x) (fun r => r <| r_state := StateUploading |>)); [done|].
  intros r [_ Hid]%row_of_Some_1 Hx. exfalso. apply (H x); [by left|congruence].
Qed.

Lemma undisturbed_prunes victims id d :
  id ∉ victims ->
  undisturbed id d (fold_left (fun d id => del_history id (del_cancellation id
                                 (del_dead id (del_parts id (del_id id d))))) victims d).
Proof.
  revert d. induction victims as [|x out IH]; intros d H; simpl; [apply undisturbed_refl|].
  eapply undisturbed_trans; [|apply IH; set_solver].
  eapply undisturbed_trans; [apply (undisturbed_del id x); set_solver|by apply undisturbed_uploads].
Qed.

Lemma undisturbed_prune before id d a d' :
  NoDup (ids d) -> (forall r, row_of id d = Some r -> r_state r <> StateDone) ->
  pruneDoneTx before d = Ok (a, d') -> undisturbed id d d'.
Proof.
  intros Hnd Hst [= _ <-]. destruct (row_of id d) as [r|] eqn:E; [|by intros r; rewrite E].
  apply undisturbed_prunes. intros (x & Hx & Hin)%list_elem_of_fmap. apply elem_of_sel in Hin as [[Hd _] Hin].
  apply (Hst x); [|done]. rewrite <- E. by apply row_of_Some.
Qed.

(** The guards refuse a stopped row. *)
Lemma guardNotCancelled_stopped id d r :
  row_of id d = Some r -> stopped (r_state r) -> guardNotCancelled id d = Err ErrCancelled.
Proof.
  intros Hr Hs. unfold guardNotCancelled, uploadMutationState. rewrite Hr. by destruct Hs as [-> | ->].
Qed.

(** An update guarded against stopped rows leaves a stopped row alone. *)
Lemma undisturbed_guarded id id' f d r :
  (forall r, r_id (f r) = r_id r) ->
  row_of id d = Some r -> stopped (r_state r) ->
  (forall r, row_of id' d = Some r -> ~ stopped (r_state r)) -> undisturbed id d (upd_id id' f d).
Proof.
  intros Hf Hr Hs Hg. apply undisturbed_upd; [done|]. intros r0 Hr0 <-. exfalso.
  pose proof (row_of_Some_1 _ _ _ Hr0) as [_ Hid]. rewrite Hid in Hg. rewrite Hr0 in Hr.
  injection Hr as ->. by eapply Hg.
Qed.

Lemma undisturbed_drop id id' d r :
  row_of id d = Some r -> stopped (r_state r) ->
  (forall r, row_of id' d = Some r -> ~ stopped (r_state r)) -> undisturbed id d (drop_tables id' d).
Proof.
  intros Hr Hs Hg. destruct (decide (id = id')) as [<-|Hne]; [exfalso; by eapply Hg|].
  eapply undisturbed_trans; [by apply (undisturbed_del id id')|by apply undisturbed_uploads].
Qed.

Lemma not_stopped d id' :
  (forall r, row_of id' d = Some r ->
     r_state r <> StatePurging /\ r_state r <> StateCancelled /\ r_state r <> StateCancelling) ->
  forall r, row_of id' d = Some r -> ~ stopped (r_state r).
Proof. intros H r Hr. destruct (H r Hr) as (_ & ? & ?). unfold stopped. tauto. Qed.

Local Ltac calm_upd Hg := eapply undisturbed_guarded; [done|eassumption|eassumption|by apply not_stopped].

Lemma undisturbed_insert f t u id d r d' :
  row_of id d = Some r -> stopped (r_state r) -> insertUploadTx f t u d = Ok (tt, d') -> undisturbed id d d'.
Proof.
  intros Hr Hs H. apply insertUploadTx_Ok in H as [_ [H|H]].
  - destruct H as (r1 & Hr1 & ? & ? & ? & g & -> & Hg).
    eapply undisturbed_guarded; [apply Hg|exact Hr|done|].
    rewrite Hr1. intros ? [= <-]. unfold stopped. tauto.
  - destruct H as (_ & _ & x & -> & _). intros r0 Hr0. exists r0. by rewrite row_of_append, Hr0.
Qed.

Lemma claimTx_out remote t n d a d' :
  claimTx remote t n d = Ok (a, d') ->
  exists out, d' = fold_left (fun acc x => upd_id (r_id x) (fun r => r <| r_state := StateUploading |>) acc) out d
    /\ forall y, y ∈ out -> y ∈ uploads d /\ r_state y = StatePending.
Proof.
  intros [= _ <-]. eexists. split; [reflexivity|].
  intros y [(_ & ? & _) ?]%elem_of_limit%elem_of_sel. done.
Qed.

Lemma undisturbed_succeed t id id' d r a d' :
  NoDup (ids d) -> row_of id d = Some r -> stopped (r_state r) ->
  succeedTx t id' d = Ok (a, d') -> undisturbed id d d'.
Proof.
  unfold succeedTx. intros Hnd Hr Hs H. tx_inv. destruct (row_of id' _) as [r1|] eqn:E; tx_inv.
  set (g := fun r => r <| r_state := StateDone |> <| r_last_error := "" |> <| r_blob := "" |>
                       <| r_done_at := unixMilli (Some t) |>).
  assert (Hu : undisturbed id d (upd_id id' g d))
    by (rewrite <- E in Hg; calm_upd Hg).
  eapply undisturbed_trans; [exact Hu|]. eapply undisturbed_trans; [by apply (undisturbed_uploads id _ (del_parts id' (upd_id id' g d)))|].
  eapply undisturbed_prune; [| |eassumption].
  - change (NoDup (ids (upd_id id' g d))). by rewrite ids_upd_id.
  - intros r0 Hr0. change (row_of id (upd_id id' g d) = Some r0) in Hr0.
    destruct (Hu r Hr) as (r2 & Hr2 & Hst & _). rewrite Hr0 in Hr2. injection Hr2 as ->. rewrite Hst.
    by destruct Hs as [-> | ->].
Qed.

Lemma undisturbed_requeue id id' d r a d' :
  row_of id d = Some r -> stopped (r_state r) -> requeueTx id' d = Ok (a, d') -> undisturbed id d d'.
Proof.
  unfold requeueTx. intros Hr Hs H. tx_inv. destruct (row_of id' _) as [r1|] eqn:E; tx_inv.
  destruct (r_state r1) eqn:Es; tx_inv.
  eapply undisturbed_trans; [|apply (undisturbed_uploads id _ (del_dead id' _)); done].
  eapply undisturbed_guarded; [done|exact Hr|done|]. rewrite E. intros ? [= <-]. rewrite Es. by intros [].
Qed.

Lemma undisturbed_dropIdle id id' po d r a d' :
  row_of id d = Some r -> stopped (r_state r) -> dropIdleTx id' po d = Ok (a, d') -> undisturbed id d d'.
Proof.
  unfold dropIdleTx. intros Hr Hs H. tx_inv. destruct (row_of id' _) as [r1|] eqn:E; tx_inv.
  destruct (r_state r1) eqn:Es; tx_inv; repeat case_decide; tx_inv;
    (eapply undisturbed_drop; [exact Hr|done|]; rewrite E; intros ? [= <-]; rewrite Es; by intros []).
Qed.

Lemma undisturbed_requestCancel id id' d r a d' :
  row_of id d = Some r -> stopped (r_state r) -> requestCancelTx id' d = Ok (a, d') -> undisturbed id d d'.
Proof.
  unfold requestCancelTx. intros Hr Hs H. destruct (row_of id' d) as [r1|] eqn:E; tx_inv.
  case_decide; [done|]. destruct (cancel_target (r_state r1)) as [st|] eqn:Et; tx_inv.
  apply undisturbed_side_upd; [done|done|]. intros r0 Hr0 Hid.
  pose proof (row_of_Some_1 _ _ _ Hr0) as [_ Hi]. rewrite <- Hid, Hi in E. rewrite Hr in E, Hr0. simplify_eq.
  simpl. split; [|done]. destruct Hs as [Hs|Hs]; rewrite Hs in Et |- *; by simplify_eq/=.
Qed.

Lemma undisturbed_beginCleanup id id' meta d a d' :
  id <> id' -> beginCleanupTx id' meta d = Ok (a, d') -> undisturbed id d d'.
Proof.
  unfold beginCleanupTx. intros Hne H. destruct (row_of id' d) as [r1|] eqn:E; tx_inv.
  case_decide; [destruct (uploadCleanupTx _ _ _); tx_inv; apply undisturbed_refl|].
  case_decide; [done|]. destruct (cleanupUploadPath _); tx_inv. destruct (upload_cleanup d !! id'); tx_inv.
  apply undisturbed_side_upd; [done|done|]. intros r0 [_ Hr0]%row_of_Some_1 Hid. congruence.
Qed.

Lemma put_copy_uploads i c d a d' : put_copy i c d = Ok (a, d') -> uploads d' = uploads d.
Proof. unfold put_copy. case_decide; [done|]. by intros [= _ <-]. Qed.

Lemma stopped_undisturbed f t x id d r d' :
  NoDup (ids d) -> row_of id d = Some r -> stopped (r_state r) -> ~ decides id x -> ~ acknowledges id x ->
  run f t x d = Ok (tt, d') -> undisturbed id d d'.
Proof.
  intros Hnd Hr Hs Hx Hack H. destruct x; simpl in H, Hx, Hack; tx_inv.
  - by eapply undisturbed_insert.
  - match goal with H : claimTx _ _ _ _ = _ |- _ => destruct (claimTx_out _ _ _ _ _ _ H) as (out & -> & Hout) end.
    apply undisturbed_claims.
    intros y Hy Hid. destruct (Hout y Hy) as [Hyd Hst].
    assert (row_of id d = Some y) as E by (by apply row_of_Some). rewrite Hr in E. injection E as ->.
    rewrite Hst in Hs. by destruct Hs.
  - unfold retargetTx in H. tx_inv. case_decide; [done|]. tx_inv. apply undisturbed_upd; [done|].
    intros r0 Hr0 [_ Hst]. rewrite Hr in Hr0. injection Hr0 as <-. rewrite Hst in Hs. by destruct Hs.
  - unfold setSessionTx in H. tx_inv. by apply undisturbed_upd.
  - unfold recordPartTx in H. tx_inv. by apply undisturbed_uploads.
  - match goal with H : succeedTx _ _ _ = _ |- _ => by eapply undisturbed_succeed end.
  - unfold retryTx in H. tx_inv. calm_upd Hg.
  - unfold deferTx in H. tx_inv. calm_upd Hg.
  - unfold failTx in H. tx_inv. eapply undisturbed_trans.
    + apply (undisturbed_guarded id id0 (fun r => r <| r_state := StateDead |> <| r_last_error := msg |>) d r);
        [done..|by apply not_stopped].
    + by apply undisturbed_uploads.
  - match goal with H : requeueTx _ _ = _ |- _ => by eapply undisturbed_requeue end.
  - match goal with H : dropIdleTx _ _ _ = _ |- _ => by eapply undisturbed_dropIdle end.
  - unfold dropTx in H. tx_inv. eapply undisturbed_drop; [eassumption|eassumption|by apply not_stopped].
  - unfold tombstoneTx in H. tx_inv. destruct (row_of id0 _) eqn:E; tx_inv. by apply undisturbed_upd.
  - unfold markPublishedTx in H. tx_inv. destruct (row_of id0 _) eqn:E; tx_inv. by apply undisturbed_upd.
  - match goal with H : requestCancelTx _ _ = _ |- _ => by eapply undisturbed_requestCancel end.
  - unfold finishCancelTx in H. tx_inv. apply undisturbed_upd; [done|].
    intros r0 Hr0 [Hid _]. apply row_of_Some_1 in Hr0 as [_ ?]. congruence.
  - unfold resumeTx in H. destruct (row_of (ID (p_u p)) d) as [r1|] eqn:E; tx_inv. repeat (case_decide; [done|]).
    destruct (upload_resume_history d !! _); tx_inv.
    apply undisturbed_side_upd; [done|by intros ?; destruct b|].
    intros r0 [_ Hr0]%row_of_Some_1 Hid. congruence.
  - match goal with H : beginCleanupTx _ _ _ = _ |- _ => eapply undisturbed_beginCleanup; [|exact H]; congruence end.
  - unfold insertCopyTx in H. destruct (copy_jobs d !! _); [done|]. by eapply undisturbed_uploads, put_copy_uploads.
  - unfold checkpointTx in H. destruct (copy_jobs d !! _); [|done]. case_decide; [|done].
    by eapply undisturbed_uploads, put_copy_uploads.
  - unfold retryCopyTx in H. destruct (copy_jobs d !! _); [|done]. case_decide; [|done].
    by eapply undisturbed_uploads, put_copy_uploads.
  - unfold submitTx in H. destruct (row_of (ID u) d); [done|]. destruct (copy_jobs d !! _) as [c|]; [|done].
    case_decide; [|done]. eapply undisturbed_trans;
      [by apply (undisturbed_uploads id d (d <| copy_jobs ::= <[j_ID j := c <| c_state := CopySubmitted |>]> |>))|].
    eapply undisturbed_insert; [|exact Hs|exact H]. exact Hr.
  - unfold failCopyTx in H. destruct (copy_jobs d !! _); [|done].
    case_decide; [tx_inv; apply undisturbed_refl|]. case_decide; [|done].
    by eapply undisturbed_uploads, put_copy_uploads.
  - unfold cancelCopyTx in H. destruct (copy_jobs d !! _); [|done]. case_decide; [done|].
    by eapply undisturbed_uploads, put_copy_uploads.
  - unfold beginCopyCleanupTx in H. destruct (negb _); [done|].
    destruct (copy_cleanup d !! _); [tx_inv; apply undisturbed_refl|].
    destruct (copy_jobs d !! _); [|done]. case_decide; [|done]. tx_inv. by apply undisturbed_uploads.
  - unfold beginServerCopyTx in H. case_decide; [|done]. destruct (server_copies d !! _); tx_inv.
    by apply undisturbed_uploads.
  - by apply undisturbed_uploads.
Qed.
End Stop.

(** ** What the steps outside a transaction do to the tables *)

(** The transactions start-up recovery issues. *)
Definition recovery_tx (x : dbtx) : Prop :=
  match x with TFinishCancel _ | TFail _ _ | TRetry _ _ _ => True | _ => False end.

Section IoDb.
Context {cfg : Config} {ok : CfgOk cfg}.
Variable Q : DB -> Prop.
Hypothesis Q_recovery : forall f t x d d',
  recovery_tx x -> run f t x d = Ok (tt, d') -> Q d -> Q d'.
Hypothesis Q_discard : forall d id meta c,
  uploadCleanupTx id meta d = Ok c -> Q d -> Q (discard_tables id meta (cl_BlobPath c) d).
Hypothesis Q_copies : forall d id, Q d -> Q (d <| copy_cleanup ::= delete id |>).

Definition keepsQ {A} (m : Op jstate jerr A) : Prop := forall s, Q (db s) -> Q (db (snd (m s))).

Lemma keepsQ_bind {A B} (m : Op jstate jerr A) (k : A -> Op jstate jerr B) :
  keepsQ m -> (forall a, keepsQ (k a)) -> keepsQ (obind m k).
Proof.
  intros Hm Hk s Hq. specialize (Hm s Hq). unfold obind. destruct (m s) as [[a|e] s1]; [by apply Hk|done].
Qed.

Lemma keepsQ_same {A} (m : Op jstate jerr A) : (forall s, db (snd (m s)) = db s) -> keepsQ m.
Proof. intros H s. by rewrite H. Qed.

Lemma keepsQ_tx (m : Z -> Tx DB jerr unit) x :
  recovery_tx x -> (forall t, m t = run (MkFS ∅ ∅) t x) -> keepsQ (let* t := now_of in tx (m t)).
Proof.
  intros Hx Hm s Hq. unfold obind, now_of, tx. destruct (m (now s) (db s)) as [[[] d]|e] eqn:E; [|done].
  rewrite Hm in E. by eapply Q_recovery.
Qed.

Lemma keepsQ_foreach {A} (l : list A) f : (forall x, keepsQ (f x)) -> keepsQ (oforeach l f).
Proof. intros Hf. induction l; simpl; [by apply keepsQ_same|]. by apply keepsQ_bind. Qed.

Lemma keepsQ_finish_cancels : keepsQ finish_cancels.
Proof.
  intros s. unfold finish_cancels. apply keepsQ_foreach. intros r. case_decide; [|by apply keepsQ_same].
  unfold FinishCancel, require. apply keepsQ_bind; [destruct cfg_owner; by apply keepsQ_same|].
  intros _ s' Hq. unfold tx. destruct (finishCancelTx _ _) as [[[] d]|e] eqn:E; [|done].
  by eapply (Q_recovery (MkFS ∅ ∅) 0 (TFinishCancel (r_id r))).
Qed.

Lemma keepsQ_settle l rec : keepsQ (settle_rows l rec).
Proof.
  revert rec. induction l as [|u l IH]; intros rec; simpl; [by apply keepsQ_same|].
  apply keepsQ_bind; [by apply keepsQ_same|]. intros f. destruct (verifyBlob f u) as [c|].
  - apply keepsQ_bind; [by apply (keepsQ_tx _ (TFail (ID u) c))|]. intros _. apply IH.
  - case_decide; [|apply IH].
    apply keepsQ_bind; [by apply (keepsQ_tx _ (TRetry (ID u) "interrupted by restart" 0))|]. intros _. apply IH.
Qed.

Lemma remove_entries_db dir keep l s : db (snd (remove_entries dir keep l s)) = db s.
Proof.
  revert s. induction l as [|[n k] l IH]; intros s; cbn [remove_entries]; [done|].
  case_decide; [apply IH|]. destruct (keep _); [apply IH|]. unfold obind, os_op.
  destruct (Remove _ _) as [f|]; [|done]. by rewrite IH.
Qed.

Lemma keepsQ_recover : keepsQ Recover.
Proof.
  unfold Recover. destruct (negb cfg_owner); [by apply keepsQ_same|].
  apply keepsQ_bind; [by apply keepsQ_same|]. intros live.
  apply keepsQ_bind; [apply keepsQ_finish_cancels|]. intros _.
  apply keepsQ_bind; [by apply keepsQ_same|]. intros [copyLive|]; [|by apply keepsQ_same].
  apply keepsQ_bind; [by apply keepsQ_same|]. intros l.
  apply keepsQ_bind; [apply keepsQ_settle|]. intros rec.
  apply keepsQ_bind; [apply keepsQ_same; intros s; apply sweep_op_db|]. intros gone.
  apply keepsQ_bind.
  { apply keepsQ_same. intros s. unfold cleanCopyOrphans. destruct (io_error _ _); [done|].
    apply remove_entries_db. }
  intros _. apply keepsQ_bind; [apply keepsQ_same; intros s; apply sweep_op_db|].
  intros _. by apply keepsQ_same.
Qed.

Lemma keepsQ_finishUploadCleanup id meta : keepsQ (FinishUploadCleanup id meta).
Proof.
  unfold FinishUploadCleanup, require. apply keepsQ_bind; [destruct cfg_owner; by apply keepsQ_same|].
  intros _. apply keepsQ_bind; [destruct (validCleanupIdentity meta); by apply keepsQ_same|].
  intros _ s Hq. unfold tx_fs, finishCleanupBody.
  destruct (uploadCleanupTx id meta (db s)) as [c|e] eqn:Ec; simpl.
  - assert (Hset : forall sh, Q (db (snd (tx_fs (settle_cleanup id meta (cl_BlobPath c) sh) s)))).
    { intros sh. unfold tx_fs, settle_cleanup, obind.
      set (m := if sh then oret tt else unlink_payload (cl_BlobPath c)).
      assert (Hd : db (snd (m s)) = db s) by (unfold m; destruct sh; [done|apply unlink_payload_db]).
      destruct (m s) as [[[]|e] s1]; simpl in *; [|done].
      destruct (upload_discarded (db s1) !! id); simpl; [done|]. rewrite Hd. by apply Q_discard. }
    destruct (Stat (fsys s) (Dir _)); [|done]. case_decide; [done|].
    destruct (Stat (fsys s) (cl_BlobPath c)) as [info|[]]; [case_decide| |]; try done;
      (destruct (uploadCleanupShared _ _ _) as [sh|]; [apply (Hset sh)|done]).
  - destruct e; try done. destruct (upload_discarded (db s) !! id) as [[]|]; [case_decide|]; done.
Qed.

Lemma keepsQ_finishCopyCleanup id p : keepsQ (tx_fs (finishCopyCleanupBody id p)).
Proof.
  intros s Hq. unfold tx_fs, finishCopyCleanupBody.
  assert (Hdone : forall s', db s' = db s -> Q (db (snd
     (match (if decide (cfg_durability = DurabilityPower /\ SyncDir (Dir p) = false)
             then (Err (A:=unit) (ErrIO "sync"), s')
             else (Ok tt, s' <| db ::= fun d => d <| copy_cleanup ::= delete id |> |>))
      with (Ok a, s') => (Ok a, s') | (Err e, s') => (Err e, s' <| db := db s |>) end)))).
  { intros s' E. case_decide; [done|]. simpl. rewrite E. by apply Q_copies. }
  destruct (copy_cleanup (db s) !! id); [|done]. destruct (copyUploadsAbsent _ _ _); [|done]. simpl.
  destruct (Stat (fsys s) (Dir p)) as [di|]; [|done].
  destruct (decide (fi_kind di <> KDir)); [done|].
  destruct (Stat (fsys s) p) as [pi|[]]; [destruct (decide (fi_kind pi = KDir))| |]; try done;
    (destruct (Remove (fsys s) p) as [f|[]]; [apply (Hdone (s <| fsys := f |>)); done|by apply Hdone|done]).
Qed.

Lemma keepsQ_io s s' : jio s s' -> Q (db s) -> Q (db s').
Proof.
  destruct 1; try done.
  - unfold releaseStagedObject. case_decide; [done|]. by case_decide.
  - unfold removeBlobIfUnreferenced. by repeat first [case_decide | case_match].
  - apply keepsQ_finishUploadCleanup.
  - apply keepsQ_finishCopyCleanup.
  - unfold NewStaging, os_op. by destruct (Create _ _).
  - unfold LinkStaging. by repeat first [case_decide | case_match].
  - unfold CommitStaging. by repeat first [case_decide | case_match].
  - unfold Discard, releaseStagedObject. by repeat first [case_decide | case_match].
  - unfold move_to_copies, os_op. destruct (copyPath id); [|done]. by destruct (Rename _ _ _).
  - unfold CopyWrite. repeat (case_decide; [done|]). by destruct (WriteAt _ _ _ _ _ _).
  - unfold open_payload. by repeat first [case_decide | case_match].
  - unfold claimCopy. by repeat first [case_decide | case_match].
  - apply keepsQ_recover.
Qed.
End IoDb.

(** ** Stops are durable *)

Section Durable.
Context {cfg : Config} {ok : CfgOk cfg}.

Definition halted (id b : string) (d : DB) : Prop :=
  exists r, row_of id d = Some r /\ stopped (r_state r) /\ r_blob r = b.

Lemma halted_run f t x id b d d' :
  NoDup (ids d) -> ~ decides id x -> run f t x d = Ok (tt, d') -> halted id b d -> halted id b d'.
Proof.
  intros Hnd Hx H (r & Hr & Hs & Hb). destruct (decide (acknowledges id x)) as [Ha|Ha].
  - destruct x; simpl in Ha; try tauto. simpl in H. unfold finishCancelTx in H. tx_inv.
    eexists. split; [rewrite row_of_upd_rows, Hr by done; reflexivity|].
    simpl. case_decide; [split; [by left|done]|done].
  - destruct (stopped_undisturbed f t x id d r d' Hnd Hr Hs Hx Ha H r Hr) as (r' & Hr' & Hst & Hbl).
    exists r'. by rewrite Hst, Hbl.
Qed.

Lemma uploadCleanup_purging id meta d c r :
  uploadCleanupTx id meta d = Ok c -> row_of id d = Some r -> r_state r = StatePurging.
Proof. intros (r' & Hr' & Hst & _)%uploadCleanupTx_Ok Hr. congruence. Qed.

Lemma row_of_discard_ne id id' meta p d : id <> id' -> row_of id (discard_tables id' meta p d) = row_of id d.
Proof. intros Hne. exact (row_of_del_id_ne id id' d Hne). Qed.

(** Steps that are not the explicit decisions about [id]. *)
Inductive undecided (id : string) : jstate -> jstate -> Prop :=
| und_tx s x d : ~ decides id x -> tx_ok s x -> run (fsys s) (now s) x (db s) = Ok (tt, d) ->
                 undecided id s (s <| db := d |>)
| und_io s s' : jio s s' -> undecided id s s'.

Lemma undecided_jstep id s s' : undecided id s s' -> jstep s s'.
Proof. destruct 1; [by eapply step_tx|by apply step_io]. Qed.

Lemma halted_step id b s s' :
  undecided id s s' -> Inv s -> halted id b (db s) -> halted id b (db s').
Proof.
  destruct 1 as [s x d Hx Hok H|s s' H]; intros Hi Hh.
  { eapply halted_run; eauto. apply (inv_ids _ (i_db _ Hi)). }
  apply (keepsQ_io (fun d => NoDup (ids d) /\ halted id b d)) in H; [apply H| | | |].
  - intros f t x d d' Hx H' [Hnd Hd]. split; [|eapply halted_run; [exact Hnd| |exact H'|exact Hd]; destruct x; simpl in *; tauto].
    assert (Hev : ev d d') by (eapply run_ev; [|exact Hnd|exact H']; destruct x; simpl in *; tauto). destruct Hev as (g & Hg).
    eapply sublist_NoDup; [exact Hnd|]. eapply (ev_sublist r_id g); [done|]. intros r r' E Hr.
    destruct Hg as (_ & Hg & _). specialize (Hg r Hr). rewrite E in Hg. apply Hg.
  - intros d i meta c Hc [Hnd (r & Hr & Hs & Hb)]. split.
    + unfold ids. rewrite uploads_discard. eapply sublist_NoDup; [exact Hnd|].
      apply map_sublist, sublist_filter.
    + exists r. split_and!; try done. rewrite row_of_discard_ne; [done|]. intros <-.
      rewrite (uploadCleanup_purging _ _ _ _ _ Hc Hr) in Hs. by destruct Hs.
  - intros d i [Hnd Hd]. split; [done|exact Hd].
  - split; [apply (inv_ids _ (i_db _ Hi))|done].
Qed.

Lemma halted_reach id b s s' :
  rtc (undecided id) s s' -> Inv s -> halted id b (db s) -> Inv s' /\ halted id b (db s').
Proof.
  induction 1 as [s|s1 s2 s3 H12 H23 IH]; intros Hi Hh; [done|].
  apply IH; [eapply Inv_step; [by eapply undecided_jstep|done]|by eapply halted_step].
Qed.

(** ** Discards are final *)

(** Being discarded, or discarded for good: what the guards ask. *)
Definition doomed (id : string) (d : DB) : Prop := uploadMutationState id d = Some StatePurging.

Lemma doomed_iff id d :
  doomed id d <-> (exists r, row_of id d = Some r /\ r_state r = StatePurging)
                  \/ row_of id d = None /\ is_Some (upload_discarded d !! id).
Proof.
  unfold doomed, uploadMutationState. destruct (row_of id d) as [r|].
  - split; [intros [= ?]; left; eauto|]. intros [(? & [= <-] & ->)|[? _]]; done.
  - split; [|intros [(? & ? & _)|[_ [? ->]]]; done].
    destruct (upload_discarded d !! id); [|done]. right. eauto.
Qed.

Lemma run_discarded f t x d d' :
  NoDup (ids d) -> run f t x d = Ok (tt, d') -> upload_discarded d' = upload_discarded d.
Proof.
  intros Hnd H. destruct (decide (rowwise x)) as [Hx|Hx].
  { destruct (run_ev f t x d d' Hx Hnd H) as (g & _ & _ & _ & Hd & _). done. }
  assert (Hins : forall u d0 d1, insertUploadTx f t u d0 = Ok (tt, d1) -> upload_discarded d1 = upload_discarded d0).
  { intros u d0 d1 [_ [(r & _ & _ & _ & _ & g & -> & _)|(_ & _ & r & -> & _)]]%insertUploadTx_Ok; done. }
  assert (Hput : forall i c, put_copy i c d = Ok (tt, d') -> upload_discarded d' = upload_discarded d).
  { intros i c. unfold put_copy. case_decide; [done|]. by intros [= <-]. }
  destruct x; simpl in Hx; try tauto; simpl in H; tx_inv.
  - by eapply Hins.
  - unfold beginCleanupTx in *. repeat first [case_decide | case_match]; simplify_eq; done.
  - unfold insertCopyTx in H. destruct (copy_jobs d !! _); [done|]. by eapply Hput.
  - unfold checkpointTx in H. destruct (copy_jobs d !! _); [|done]. case_decide; [|done]. by eapply Hput.
  - unfold retryCopyTx in H. destruct (copy_jobs d !! _); [|done]. case_decide; [|done]. by eapply Hput.
  - unfold submitTx in H. destruct (row_of (ID u) d); [done|]. destruct (copy_jobs d !! _); [|done].
    case_decide; [|done]. by apply Hins in H.
  - unfold failCopyTx in H. destruct (copy_jobs d !! _); [|done]. case_decide; [by simplify_eq|].
    case_decide; [|done]. by eapply Hput.
  - unfold cancelCopyTx in H. destruct (copy_jobs d !! _); [|done]. case_decide; [done|]. by eapply Hput.
  - unfold beginCopyCleanupTx in H. repeat first [case_decide | case_match]; simplify_eq; done.
Qed.

(** A purging row survives every transaction as a purging row. *)
Lemma run_purging f t x id r d d' :
  DBInv d -> row_of id d = Some r -> r_state r = StatePurging -> run f t x d = Ok (tt, d') ->
  exists r', r' ∈ uploads d' /\ r_id r' = id /\ r_state r' = StatePurging.
Proof.
  intros Hd Hr Hst H. pose proof (row_of_Some_1 _ _ _ Hr) as [Hin Hid].
  assert (Hsame : uploads d' = uploads d -> exists r', r' ∈ uploads d' /\ r_id r' = id /\ r_state r' = StatePurging).
  { intros ->. eauto. }
  destruct (decide (rowwise x)) as [Hx|Hx].
  { destruct (ev_purging_stays d d' r) as (r' & Hr' & Hk1 & _ & Hk2 & _);
      [by eapply run_ev; eauto; apply Hd|done|done|]. exists r'. split_and!; [done|congruence|tauto]. }
  assert (Hins : forall u d0, uploads d0 = uploads d -> insertUploadTx f t u d0 = Ok (tt, d') ->
     exists r', r' ∈ uploads d' /\ r_id r' = id /\ r_state r' = StatePurging).
  { intros u d0 E [_ [(r1 & Hr1 & Hp1 & _ & _ & g & -> & Hg)|(_ & _ & r1 & -> & _)]]%insertUploadTx_Ok.
    - exists r. split_and!; try done. unfold upd_id. rewrite uploads_upd_rows, E.
      apply list_elem_of_fmap. exists r. split; [|done]. rewrite decide_False; [done|].
      intros Hu. rewrite (row_of_uploads _ d d0 E), <- Hu, Hid in Hr1. congruence.
    - exists r. split_and!; try done. change (r ∈ uploads d0 ++ [r1]). rewrite E. set_solver. }
  destruct x; simpl in Hx; try tauto; simpl in H; tx_inv.
  - by eapply Hins.
  - unfold beginCleanupTx in *. destruct (row_of id0 d) as [r1|] eqn:E1; [|done].
    case_decide; [destruct (uploadCleanupTx _ _ _); simplify_eq; by apply Hsame|].
    repeat first [case_decide | case_match]; simplify_eq.
    exists r. split_and!; try done. unfold upd_id. rewrite uploads_upd_rows. apply list_elem_of_fmap.
    exists r. split; [|done]. rewrite decide_False; [done|]. congruence.
  - unfold insertCopyTx in H. destruct (copy_jobs d !! _); [done|]. by eapply Hsame, put_copy_uploads.
  - unfold checkpointTx in H. destruct (copy_jobs d !! _); [|done]. case_decide; [|done].
    by eapply Hsame, put_copy_uploads.
  - unfold retryCopyTx in H. destruct (copy_jobs d !! _); [|done]. case_decide; [|done].
    by eapply Hsame, put_copy_uploads.
  - unfold submitTx in H. destruct (row_of (ID u) d); [done|]. destruct (copy_jobs d !! _) as [c|]; [|done].
    case_decide; [|done]. eapply Hins; [|exact H]. done.
  - unfold failCopyTx in H. destruct (copy_jobs d !! _); [|done]. case_decide; [simplify_eq; by apply Hsame|].
    case_decide; [|done]. by eapply Hsame, put_copy_uploads.
  - unfold cancelCopyTx in H. destruct (copy_jobs d !! _); [|done]. case_decide; [done|].
    by eapply Hsame, put_copy_uploads.
  - apply Hsame. unfold beginCopyCleanupTx in H. repeat first [case_decide | case_match]; simplify_eq; done.
Qed.

Lemma doomed_run f t x id d d' :
  DBInv d -> DBInv d' -> run f t x d = Ok (tt, d') -> doomed id d -> doomed id d'.
Proof.
  rewrite !doomed_iff. intros Hd Hd' H [(r & Hr & Hst)|[Hr Hdis]].
  - destruct (run_purging f t x id r d d' Hd Hr Hst H) as (r' & Hin & Hid & Hst').
    left. exists r'. split; [|done]. apply row_of_Some; [apply Hd'|done].
  - right. rewrite (run_discarded f t x d d') by (done || apply Hd). split; [|done].
    apply row_of_None. intros r' Hr' Hid. apply (inv_discarded _ Hd' id).
    + by rewrite (run_discarded f t x d d') by (done || apply Hd).
    + apply elem_of_ids. eauto.
Qed.

Lemma doomed_discard id id' meta p d :
  DBInv (discard_tables id' meta p d) -> doomed id d -> doomed id (discard_tables id' meta p d).
Proof.
  intros Hd'. rewrite !doomed_iff. destruct (decide (id = id')) as [<-|Hne].
  - intros _. right. split; [exact (row_of_del_id_eq id d)|].
    change (is_Some (<[id := (meta, p)]> (upload_discarded d) !! id)). rewrite lookup_insert_eq. eauto.
  - rewrite row_of_discard_ne by done. intros [?|[? ?]]; [by left|]. right. split; [done|].
    change (is_Some (<[id' := (meta, p)]> (upload_discarded d) !! id)). by rewrite lookup_insert_ne.
Qed.

Lemma doomed_step id s s' : jstep s s' -> Inv s -> doomed id (db s) -> doomed id (db s').
Proof.
  intros H Hi. pose proof (Inv_step _ _ H Hi) as Hi'. destruct H as [s x d Hok H|s s' H].
  { apply (doomed_run (fsys s) (now s) x); [apply Hi|exact (i_db _ Hi')|done]. }
  intros Hd. apply (keepsQ_io (fun d => DBInv d /\ doomed id d)) in H; [apply H| | | |split; [apply Hi|done]].
  - intros f t x d d' Hx H' [Hdi Hdo].
    assert (DBInv d') by (eapply DBInv_run; [|exact H'|done]; destruct x; simpl in *; tauto).
    split; [done|]. by apply (doomed_run f t x id d d').
  - intros d i meta c Hc [Hdi Hdo].
    assert (DBInv (discard_tables i meta (cl_BlobPath c) d)) by (apply DBInv_discard; [done|by eapply uploadCleanupTx_intent]).
    split; [done|]. by apply doomed_discard.
  - intros d i [Hdi Hdo]. split; [|exact Hdo]. destruct Hdi as [I1 I2 I3 I4 I5 I6 I7]. split; try done.
    intros x. simpl. destruct (I6 x) as [?|E]; [by left|]. right. apply lookup_delete_None. auto.
Qed.

Lemma doomed_reach id s s' :
  rtc jstep s s' -> Inv s -> doomed id (db s) -> Inv s' /\ doomed id (db s').
Proof.
  induction 1 as [s|s1 s2 s3 H12 H23 IH]; intros Hi Hh; [done|].
  apply IH; [by eapply Inv_step|by eapply doomed_step].
Qed.

(** The transactions on behalf of [id] that workers, the file system layer
    and the operator's retry command issue. *)
Definition works_on (id : string) (x : dbtx) : Prop :=
  match x with
  | TInsert u => ID u = id
  | TRetarget i _ _ | TSetSession i _ | TRecordPart i _ | TSucceed i | TRetry i _ _ | TDefer i _ _
  | TFail i _ | TRequeue i | TDropIdle i _ | TDrop i | TTombstone i | TMarkPublished i => i = id
  | _ => False
  end.

Lemma doomed_guards id d :
  doomed id d -> guardNotPurging id d = Err ErrUploadPurging /\ guardNotCancelled id d = Err ErrUploadPurging.
Proof. unfold doomed, guardNotPurging, guardNotCancelled. by intros ->. Qed.

Lemma doomed_refuses f t x id d : works_on id x -> doomed id d -> run f t x d = Err ErrUploadPurging.
Proof.
  intros Hx [G1 G2]%doomed_guards. destruct x; simpl in Hx; try tauto; subst; simpl;
    unfold void, insertUploadTx, retargetTx, setSessionTx, recordPartTx, succeedTx, retryTx, deferTx, failTx,
      requeueTx, dropIdleTx, dropTx, tombstoneTx, markPublishedTx, tbind; by rewrite ?G1, ?G2.
Qed.

(** ** Resuming *)

Lemma resumeTx_Ok p b d a d' :
  resumeTx p b d = Ok (a, d') ->
  exists r, row_of (ID (p_u p)) d = Some r /\ r_state r = StateCancelled /\ r_tombstone r = false
    /\ same_target r (p_u p) /\ revision_of (ID (p_u p)) d = p_revision p
    /\ exists r', row_of (ID (p_u p)) d' = Some r' /\ r_state r' = StatePending /\ r_attempt r' = 0
         /\ r_session r' = ∅ /\ r_blob r' = r_blob r /\ parts_of (ID (p_u p)) d' = [].
Proof.
  unfold resumeTx. set (id := ID (p_u p)). intros H. destruct (row_of id d) as [r|] eqn:E; [|done].
  case_decide as Hc; [done|]. case_decide; [done|]. destruct (upload_resume_history d !! _); [done|].
  simplify_eq. exists r.
  assert (r_state r = StateCancelled) by (destruct (decide (r_state r = StateCancelled)); tauto).
  assert (r_tombstone r = false) by (destruct (r_tombstone r); tauto).
  assert (same_target r (p_u p)) by (destruct (decide (same_target r (p_u p))); tauto).
  assert (revision_of id d = p_revision p) by (destruct (decide (revision_of id d = p_revision p)); tauto).
  split_and!; try done. eexists. split.
  { unfold upd_id. rewrite row_of_upd_rows by (by intros ?; destruct b).
    rewrite (row_of_uploads id d) by done. rewrite E. reflexivity. }
  pose proof (row_of_Some_1 _ _ _ E) as [_ Hid].
  simpl. rewrite decide_True by done. split_and!; try by destruct b.
  unfold parts_of. apply order_by_nil. apply elem_of_nil_inv. intros q.
  rewrite list_elem_of_omap. intros ([[u i] [e st]] & Hin & Hq). case_decide; [|done]. subst u.
  apply elem_of_map_to_list in Hin. change (filter (fun kv : (string * Z) * (string * string) => kv.1.1 <> id) (upload_parts d) !! (id, i) = Some (e, st)) in Hin.
  apply map_lookup_filter_Some in Hin as [_ Hne]. done.
Qed.

Lemma requestCancel_Ok id s st s' :
  RequestCancel id s = (Ok st, s') ->
  exists r, row_of id (db s) = Some r /\ halted id (r_blob r) (db s')
    /\ revision_of id (db s') = revision_of id (db s) + 1 /\ jstep s s'.
Proof.
  unfold RequestCancel, obind, require. destruct cfg_owner; [|done]. simpl. unfold tx.
  destruct (requestCancelTx id (db s)) as [[a d]|] eqn:E; [|done]. intros [= _ <-].
  assert (Hst : jstep s (s <| db := d |>)).
  { apply (step_tx s (TRequestCancel id)); [done|]. simpl. unfold void, tbind. by rewrite E. }
  unfold requestCancelTx in E. destruct (row_of id (db s)) as [r|] eqn:Er; [|done]. exists r.
  case_decide; [done|]. destruct (cancel_target (r_state r)) as [st'|] eqn:Et; [|done]. simplify_eq.
  split_and!; [done| | |exact Hst].
  - eexists. split.
    + simpl. unfold upd_id. rewrite row_of_upd_rows by done. rewrite (row_of_uploads id (db s)) by done.
      rewrite Er. reflexivity.
    + pose proof (row_of_Some_1 _ _ _ Er) as [_ Hid]. simpl. rewrite decide_True by done. split; [|done].
      unfold cancel_target in Et. unfold stopped. simpl. destruct (r_state r); simplify_eq; auto.
  - unfold revision_of. simpl. rewrite lookup_insert_eq. simpl.
    destruct (upload_cancellation (db s) !! id); simpl; lia.
Qed.

Lemma prepareResume_Ok id s p s' :
  PrepareUploadResume id s = (Ok p, s') ->
  s' = s /\ resume_content_ok (fsys s) (p_u p) = true /\ p_revision p = revision_of id (db s)
  /\ exists r, row_of id (db s) = Some r /\ p_u p = scanUpload r /\ r_state r = StateCancelled.
Proof.
  unfold PrepareUploadResume, obind, require. destruct cfg_owner; [|done]. simpl. unfold tx, prepareResumeTx.
  destruct (row_of id (db s)) as [r|]; [|done]. case_decide as Hc; [done|]. simpl.
  destruct (resume_content_ok _ _) eqn:Ec; [|done]. intros [= <- <-].
  split_and!; [by destruct s|done|done|]. exists r. split_and!; try done.
  destruct (decide (r_state r = StateCancelled)); tauto.
Qed.

Lemma resumeTx_stale p b d :
  revision_of (ID (p_u p)) d <> p_revision p -> resumeTx p b d = Err ErrResumeChanged.
Proof. intros H. unfold resumeTx. destruct (row_of _ d); [|done]. rewrite decide_True; [done|]. tauto. Qed.

Lemma resumeTx_not_cancelled p b d r :
  row_of (ID (p_u p)) d = Some r -> r_state r <> StateCancelled -> resumeTx p b d = Err ErrResumeChanged.
Proof. intros Hr H. unfold resumeTx. rewrite Hr. rewrite decide_True; [done|]. tauto. Qed.

Lemma beginCleanup_doomed id meta s c s' :
  BeginUploadCleanup id meta s = (Ok c, s') -> doomed id (db s') /\ jstep s s'.
Proof.
  unfold BeginUploadCleanup, obind, require. destruct cfg_owner; [|done]. simpl.
  destruct (validCleanupIdentity meta); [|done]. simpl. unfold tx.
  destruct (beginCleanupTx id meta (db s)) as [[a d]|] eqn:E; [|done]. intros [= _ <-].
  split; [|apply (step_tx s (TBeginCleanup id meta)); [done|]; simpl; unfold void, tbind; by rewrite E].
  apply doomed_iff. left. unfold beginCleanupTx in E. destruct (row_of id (db s)) as [r|] eqn:Er; [|done].
  case_decide as Hp.
  { destruct (uploadCleanupTx _ _ _); [|done]. simplify_eq. by exists r. }
  case_decide; [done|]. destruct (cleanupUploadPath _); [|done].
  destruct (upload_cleanup (db s) !! id); [done|]. simplify_eq. eexists. split.
  - simpl. unfold upd_id. rewrite row_of_upd_rows by done. rewrite (row_of_uploads id (db s)) by done.
    rewrite Er. reflexivity.
  - pose proof (row_of_Some_1 _ _ _ Er) as [_ Hid]. simpl. by rewrite decide_True.
Qed.

Lemma resume_content_checksum f u :
  resume_content_ok f u = true ->
  exists data, ReadFile f (abs (BlobPath u)) = Some data /\ Hashes u !! "crc32c" = Some (crc32c data).
Proof.
  unfold resume_content_ok. intros [_ H]%andb_true_iff.
  destruct (ReadFile f (abs (BlobPath u))) as [data|]; [|done]. exists data. split; [done|].
  apply andb_true_iff in H as [H1%bool_decide_eq_true H2%bool_decide_eq_true].
  destruct (Hashes u !! "crc32c"); simpl in *; congruence.
Qed.
End Durable.
