(* ===== verification/JournalOrder.v ===== *)
(** * Order: oldest first, newest version wins, pages, history bounds

    What claim order, supersession, listing and the pruning of finished rows
    mean for the queue as a whole; and the workers as one system over its
    tables, in which the versions of a file are sent one at a time. *)
From S2P Require Import Prelude Filepath JournalState JournalQueue JournalAdmin Staging JournalCopy JournalRecover JournalTx JournalInv JournalSafety JournalReach JournalLife.
Import Filepath.
Open Scope Z_scope.

(** ** ORDER BY *)

Section OrderBy.
Context {A : Type} (le : A -> A -> bool).
Hypothesis le_total : forall a b, le a b = true \/ le b a = true.
Hypothesis le_trans : forall a b c, le a b = true -> le b c = true -> le a c = true.

Lemma insert_by_perm x l : insert_by le x l ≡ₚ x :: l.
Proof.
  induction l as [|y l IH]; simpl; [done|]. destruct (le x y); [done|]. rewrite IH. by constructor.
Qed.
Lemma order_by_perm l : order_by le l ≡ₚ l.
Proof. induction l as [|x l IH]; simpl; [done|]. by rewrite insert_by_perm, IH. Qed.

Lemma insert_by_sorted x l :
  StronglySorted (fun a b => le a b = true) l -> StronglySorted (fun a b => le a b = true) (insert_by le x l).
Proof.
  induction 1 as [|y l Hl IH HF]; simpl; [repeat constructor|].
  destruct (le x y) eqn:E.
  - constructor; [by constructor|]. constructor; [done|].
    eapply Forall_impl; [exact HF|]. simpl. eauto.
  - constructor; [done|]. rewrite insert_by_perm. constructor; [|done].
    destruct (le_total x y); congruence.
Qed.
Lemma order_by_sorted l : StronglySorted (fun a b => le a b = true) (order_by le l).
Proof. induction l; simpl; [constructor|by apply insert_by_sorted]. Qed.
End OrderBy.

Lemma ascii_compare_Z a b : Ascii.compare a b = (Z.of_N (Ascii.N_of_ascii a) ?= Z.of_N (Ascii.N_of_ascii b)).
Proof. unfold Ascii.compare. by rewrite N2Z.inj_compare. Qed.

Lemma compare_lt_trans x : forall y z,
  String.compare x y = Lt -> String.compare y z = Lt -> String.compare x z = Lt.
Proof.
  induction x as [|a x IH]; intros [|b y] [|c z]; simpl; try done.
  rewrite !ascii_compare_Z.
  destruct (Z.compare_spec (Z.of_N (Ascii.N_of_ascii a)) (Z.of_N (Ascii.N_of_ascii b)));
  destruct (Z.compare_spec (Z.of_N (Ascii.N_of_ascii b)) (Z.of_N (Ascii.N_of_ascii c)));
  destruct (Z.compare_spec (Z.of_N (Ascii.N_of_ascii a)) (Z.of_N (Ascii.N_of_ascii c)));
  try done; try lia; eauto.
Qed.

Lemma compare_eq x y : String.compare x y = Eq <-> x = y.
Proof.
  split; [apply String.compare_eq_iff|]. intros ->. induction y as [|a y IH]; [done|]. simpl.
  rewrite ascii_compare_Z. by rewrite Z.compare_refl.
Qed.

Definition slt (x y : string) : Prop := String.compare x y = Lt.

Lemma leb_le x y : String.leb x y = true <-> x = y \/ slt x y.
Proof.
  unfold String.leb, slt. rewrite <- compare_eq. destruct (String.compare x y); naive_solver.
Qed.
Lemma ltb_lt x y : String.ltb x y = true <-> slt x y.
Proof. unfold String.ltb, slt. destruct (String.compare x y); naive_solver. Qed.
Lemma slt_trans x y z : slt x y -> slt y z -> slt x z. Proof. apply compare_lt_trans. Qed.
Lemma slt_irrefl x : ~ slt x x.
Proof. unfold slt. assert (String.compare x x = Eq) as -> by (by apply compare_eq). done. Qed.
Lemma slt_total x y : x = y \/ slt x y \/ slt y x.
Proof.
  unfold slt. rewrite (String.compare_antisym y x), <- compare_eq.
  destruct (String.compare x y); naive_solver.
Qed.
Lemma slt_empty x : x <> "" -> slt "" x. Proof. by destruct x. Qed.
Lemma leb_trans x y z : String.leb x y = true -> String.leb y z = true -> String.leb x z = true.
Proof. rewrite !leb_le. intros [->|?] [->|?]; eauto using slt_trans. Qed.

Lemma by_id_total a b : by_id a b = true \/ by_id b a = true.
Proof. apply String.leb_total. Qed.
Lemma by_id_trans a b c : by_id a b = true -> by_id b c = true -> by_id a c = true.
Proof. apply leb_trans. Qed.

(** ** Pages *)

Section Pages.
Context {cfg : Config}.

(** The whole list of unfinished uploads, by id. *)
Definition active_rows (d : DB) : list Row := order_by by_id (sel active d).

(** A caller that follows cursors until none is returned. *)
Fixpoint pages (fuel : nat) (after : string) (lim : Z) (d : DB) : res jerr (list Upload) :=
  match fuel with
  | O => Err (ErrInvalid "fuel")
  | S fuel' =>
      match ListActive after lim d with
      | Err e => Err e
      | Ok (page, next) =>
          if decide (next = "") then Ok page
          else match pages fuel' next lim d with Ok rest => Ok (page ++ rest) | Err e => Err e end
      end
  end.

Lemma active_rows_spec d :
  NoDup (ids d) ->
  StronglySorted (fun a b => by_id a b = true) (active_rows d)
  /\ NoDup (map r_id (active_rows d)) /\ (forall r, r ∈ active_rows d <-> active r /\ r ∈ uploads d).
Proof.
  intros Hnd. split_and!.
  - apply order_by_sorted; [apply by_id_total|apply by_id_trans].
  - unfold active_rows. rewrite order_by_perm. eapply sublist_NoDup; [exact Hnd|].
    apply map_sublist, sublist_filter.
  - intros r. unfold active_rows. by rewrite elem_of_order_by, elem_of_sel.
Qed.

(** The query behind one page is the tail of the whole list. *)
Lemma page_query d pre suf after :
  NoDup (ids d) -> active_rows d = pre ++ suf ->
  (forall r, r ∈ pre -> ~ slt after (r_id r)) -> (forall r, r ∈ suf -> slt after (r_id r)) ->
  order_by by_id (sel (fun r => active r /\ String.ltb after (r_id r) = true) d) = suf.
Proof.
  intros Hnd Hs Hpre Hsuf. destruct (active_rows_spec d Hnd) as (Hsort & Hnda & Hin).
  rewrite Hs in *. set (q := sel _ d).
  assert (Hq : forall r, r ∈ q <-> r ∈ suf).
  { intros r. unfold q. rewrite elem_of_sel, ltb_lt. specialize (Hin r). rewrite elem_of_app in Hin. split.
    - intros [[Ha Hl] Hr]. destruct (proj2 Hin (conj Ha Hr)) as [Hp|]; [|done]. by destruct (Hpre r Hp).
    - intros Hr. destruct (proj1 Hin (or_intror Hr)). auto. }
  eapply (StronglySorted_unique_strong (fun a b => by_id a b = true)).
  - intros x1 x2 H1 H2 A B. apply (NoDup_ids_inj d); [done| | |].
    + rewrite elem_of_order_by, Hq in H1. apply (Hin x1). set_solver.
    + apply (Hin x2). set_solver.
    + by apply String.leb_antisym.
  - apply order_by_sorted; [apply by_id_total|apply by_id_trans].
  - by apply StronglySorted_app in Hsort as (_ & _ & ?).
  - rewrite order_by_perm. apply NoDup_Permutation; [| |done].
    + apply (NoDup_fmap_1 r_id). eapply sublist_NoDup; [exact Hnd|]. apply map_sublist, sublist_filter.
    + apply (NoDup_fmap_1 r_id). rewrite map_app in Hnda. by apply NoDup_app in Hnda as (_ & _ & ?).
Qed.

Lemma sorted_cut d pre page suf z :
  NoDup (ids d) -> active_rows d = pre ++ (page ++ suf) -> last page = Some z ->
  (forall r, r ∈ pre ++ page -> ~ slt (r_id z) (r_id r)) /\ (forall r, r ∈ suf -> slt (r_id z) (r_id r)).
Proof.
  intros Hnd Hs Hl. destruct (active_rows_spec d Hnd) as (Hsort & Hnda & _).
  apply last_Some in Hl as (page' & ->).
  assert (E : active_rows d = (pre ++ page') ++ z :: suf) by (by rewrite Hs, <- !app_assoc).
  rewrite E in Hsort, Hnda. apply StronglySorted_app in Hsort as (Hx & _ & Hz).
  inversion_clear Hz as [|? ? _ HF]. rewrite Forall_forall in HF.
  rewrite map_app in Hnda. apply NoDup_app in Hnda as (_ & _ & Hn2). simpl in Hn2.
  apply NoDup_cons in Hn2 as [Hn2 _]. split.
  - intros r Hr Hlt. rewrite app_assoc in Hr. apply elem_of_app in Hr as [Hr| ->%list_elem_of_singleton].
    + specialize (Hx r z Hr ltac:(left)). apply leb_le in Hx as [Hx|Hx].
      * rewrite Hx in Hlt. by apply slt_irrefl in Hlt.
      * apply (slt_irrefl (r_id r)). by eapply slt_trans.
    + by apply slt_irrefl in Hlt.
  - intros r Hr. specialize (HF r Hr). apply leb_le in HF as [HF|HF]; [|done].
    exfalso. apply Hn2. rewrite HF. by apply list_elem_of_fmap_2.
Qed.

Lemma pages_suffix d lim : NoDup (ids d) -> 1 <= lim <= 1000 -> (forall r, r ∈ uploads d -> r_id r <> "") ->
  forall fuel pre suf after,
  (length suf < fuel)%nat -> active_rows d = pre ++ suf ->
  (forall r, r ∈ pre -> ~ slt after (r_id r)) -> (forall r, r ∈ suf -> slt after (r_id r)) ->
  pages fuel after lim d = Ok (map scanUpload suf).
Proof.
  intros Hnd Hlim Hne. induction fuel as [|fuel IH]; intros pre suf after Hf Hs Hpre Hsuf; [lia|].
  simpl. unfold ListActive. rewrite decide_False by lia. rewrite (page_query d pre suf after) by done.
  unfold limit. rewrite (decide_False (P := lim + 1 < 0)) by lia. rewrite length_take. case_decide as Hl.
  - rewrite take_take. replace (Nat.min (Z.to_nat lim) (Z.to_nat (lim + 1))) with (Z.to_nat lim) by lia.
    set (page := take (Z.to_nat lim) suf).
    assert (Hpl : (length page = Z.to_nat lim)%nat) by (unfold page; rewrite length_take; lia).
    destruct (last page) as [z|] eqn:El; [|apply last_None in El; rewrite El in Hpl; simpl in Hpl; lia].
    assert (Hcut : suf = page ++ drop (Z.to_nat lim) suf) by (symmetry; apply take_drop).
    rewrite Hcut in Hs. destruct (sorted_cut d pre page _ z Hnd Hs El) as [Hc1 Hc2].
    assert (Hz : r_id z <> "").
    { apply Hne. destruct (active_rows_spec d Hnd) as (_ & _ & Hin). apply (Hin z). rewrite Hs.
      apply last_Some in El as (? & ->). set_solver. }
    rewrite (decide_False (P := r_id z = "")) by done.
    rewrite (IH (pre ++ page) (drop (Z.to_nat lim) suf)); try done.
    + by rewrite <- map_app, <- Hcut.
    + rewrite length_drop. lia.
    + by rewrite <- app_assoc.
  - rewrite take_ge by lia. by rewrite decide_True.
Qed.
End Pages.

(** ** Claiming *)

Section Claims.
Context {cfg : Config}.

Lemma fold_claims_uploads out : forall d,
  uploads (fold_left (fun acc x => upd_id (r_id x) (fun r => r <| r_state := StateUploading |>) acc) out d)
  = map (fun r => if decide (r_id r ∈ map r_id out) then r <| r_state := StateUploading |> else r) (uploads d).
Proof.
  induction out as [|x out IH]; intros d; simpl.
  - rewrite <- (map_id (uploads d)) at 1. apply map_ext. done.
  - rewrite IH. unfold upd_id. rewrite uploads_upd_rows, map_map. apply map_ext. intros r.
    destruct (decide (r_id r = r_id x)) as [E|E].
    + rewrite (decide_True (P := r_id r ∈ r_id x :: _)) by set_solver. by case_decide.
    + destruct (decide (r_id r ∈ map r_id out));
        [rewrite decide_True by set_solver|rewrite decide_False by set_solver]; done.
Qed.

Lemma sorted_rowid_lt d r r' l1 l2 :
  StronglySorted Z.lt (map rowid (uploads d)) -> l1 ++ l2 `sublist_of` uploads d ->
  r ∈ l1 -> r' ∈ l2 -> rowid r < rowid r'.
Proof.
  intros Hs Hsub Hr Hr'. eapply (map_sublist rowid) in Hsub.
  eapply StronglySorted_sublist in Hs; [|exact Hsub]. rewrite map_app in Hs.
  apply StronglySorted_app in Hs as (Hx & _). apply Hx; by apply list_elem_of_fmap_2.
Qed.

Lemma claimTx_spec remote t n d us d' :
  DBInv d -> claimTx remote t n d = Ok (us, d') ->
  let due := sel (claimable remote t) d in
  map ID us = map r_id (limit n due)
  /\ Forall (fun u => UState u = StateUploading) us
  /\ (0 <= n -> Z.of_nat (length us) <= n)
  /\ uploads d' = map (fun r => if decide (r_id r ∈ map ID us) then r <| r_state := StateUploading |> else r) (uploads d)
  /\ (forall r r', r ∈ due -> r' ∈ due -> r_id r ∈ map ID us -> r_id r' ∉ map ID us -> rowid r < rowid r').
Proof.
  intros Hd H due. set (out := limit n due).
  assert (Hus : us = map (fun r => (scanUpload r) <| UState := StateUploading |>) out
                /\ d' = fold_left (fun acc r => upd_id (r_id r) (fun r => r <| r_state := StateUploading |>) acc) out d)
    by (unfold claimTx in H; by injection H as <- <-).
  destruct Hus as [Hus ->].
  assert (Hids : map ID us = map r_id out) by (rewrite Hus, map_map; by apply map_ext).
  rewrite Hids. split_and!.
  - done.
  - rewrite Hus. apply Forall_fmap, Forall_true. done.
  - intros Hn. rewrite Hus, length_map. unfold out, limit. rewrite decide_False by lia. rewrite length_take. lia.
  - apply fold_claims_uploads.
  - intros r r' Hr Hr' Hin Hout. unfold out, limit in Hin, Hout. case_decide as Hneg.
    { exfalso. apply Hout. by apply list_elem_of_fmap_2. }
    assert (Hsel : forall x, x ∈ due -> x ∈ take (Z.to_nat n) due \/ x ∈ drop (Z.to_nat n) due).
    { intros x Hx. rewrite <- (take_drop (Z.to_nat n) due) in Hx. by apply elem_of_app. }
    assert (Hd1 : r ∈ take (Z.to_nat n) due).
    { apply list_elem_of_fmap in Hin as (x & E & Hx).
      rewrite (NoDup_ids_inj d r x); [done|apply Hd| | |done].
      - by apply elem_of_sel in Hr as [_ ?].
      - by apply elem_of_sublist_take, elem_of_sel in Hx as [_ ?]. }
    destruct (Hsel r' Hr') as [Hx|Hx]; [exfalso; apply Hout; by apply list_elem_of_fmap_2|].
    eapply (sorted_rowid_lt d r r' (take (Z.to_nat n) due) (drop (Z.to_nat n) due)); [apply Hd| |done|done].
    rewrite take_drop. apply sublist_filter.
Qed.
End Claims.

Lemma claim_rows {cfg : Config} remote n s us s' :
  DBInv (db s) -> Claim remote n s = (Ok us, s') ->
  map ID us = map r_id (limit n (sel (claimable remote (now s)) (db s)))
  /\ (0 <= n -> Z.of_nat (length us) <= n)
  /\ uploads (db s') = map (fun r => if decide (r_id r ∈ map ID us)
                                      then r <| r_state := StateUploading |> else r) (uploads (db s))
  /\ (forall r r', r ∈ sel (claimable remote (now s)) (db s) -> r' ∈ sel (claimable remote (now s)) (db s) ->
        r_id r ∈ map ID us -> r_id r' ∉ map ID us -> rowid r < rowid r').
Proof.
  intros Hd. unfold Claim, obind, now_of, tx.
  destruct (claimTx remote (now s) n (db s)) as [[us' d]|e] eqn:E; [|done]. intros [= <- <-].
  destruct (claimTx_spec _ _ _ _ _ _ Hd E) as (H1 & _ & H3 & H4 & H5). done.
Qed.

(** ** Versions of one file *)

Section Versions.
Context {cfg : Config}.

Definition same_file (a b : Row) : Prop :=
  r_remote a = r_remote b /\ r_ino a = r_ino b /\ r_ino a <> 0
  /\ r_tombstone a = false /\ r_tombstone b = false.

Lemma sel_nonempty P `{forall r, Decision (P r)} d r :
  r ∈ uploads d -> P r -> bool_decide (sel P d <> []) = true.
Proof.
  intros Hr Hp. apply bool_decide_eq_true_2. intros E.
  assert (Hx : r ∈ sel P d) by (by apply elem_of_sel). rewrite E in Hx. by apply elem_of_nil in Hx.
Qed.

Lemma rowid_of_row d r : NoDup (ids d) -> r ∈ uploads d -> rowid_of (r_id r) d = Some (rowid r).
Proof. intros Hnd Hr. unfold rowid_of. rewrite (proj2 (row_of_Some _ d r Hnd)); done. Qed.

Lemma older_is_superseded d a b :
  DBInv d -> a ∈ uploads d -> b ∈ uploads d -> same_file a b -> rowid a < rowid b ->
  Superseded (scanUpload a) d = true.
Proof.
  intros Hd Ha Hb (Hrem & Hino & Hnz & Hta & Htb) Hlt. unfold Superseded. simpl.
  rewrite decide_False by (intros [?|?]; congruence).
  eapply sel_nonempty; [exact Hb|]. split_and!; try congruence.
  unfold newer_than. rewrite (rowid_of_row d a) by (done || apply Hd). done.
Qed.

Lemma newer_waits d a b :
  DBInv d -> a ∈ uploads d -> b ∈ uploads d -> same_file a b -> rowid a < rowid b ->
  r_state a = StatePending \/ r_state a = StateUploading \/ r_state a = StateCancelling ->
  OlderInFlight (scanUpload b) d = true.
Proof.
  intros Hd Ha Hb (Hrem & Hino & Hnz & Hta & Htb) Hlt Hst. unfold OlderInFlight. simpl.
  rewrite decide_False by (intros [?|?]; congruence).
  eapply sel_nonempty; [exact Ha|]. split_and!; try done; try congruence.
  unfold older_than. rewrite (rowid_of_row d b) by (done || apply Hd). done.
Qed.

Lemma superseded_newer d a :
  a ∈ uploads d -> NoDup (ids d) -> Superseded (scanUpload a) d = true ->
  exists b, b ∈ uploads d /\ same_file a b /\ rowid a < rowid b.
Proof.
  intros Ha Hnd. unfold Superseded. simpl. case_decide as Hz; [done|].
  intros Hs%bool_decide_eq_true. destruct (sel _ d) as [|b l] eqn:E; [done|].
  assert (Hb : b ∈ b :: l) by left. rewrite <- E in Hb. apply elem_of_sel in Hb as [(H1 & H2 & H3 & H4) Hb].
  unfold newer_than in H4. rewrite (rowid_of_row d a) in H4 by done.
  exists b. split_and!; try done. destruct (r_tombstone a) eqn:?; [tauto|].
  unfold same_file. split_and!; try congruence; try tauto.
Qed.

Lemma rowid_total d a b : DBInv d -> a ∈ uploads d -> b ∈ uploads d -> a = b \/ rowid a < rowid b \/ rowid b < rowid a.
Proof.
  intros Hd Ha Hb. pose proof (inv_rowids _ Hd) as Hs. clear Hd. induction (uploads d) as [|x l IH]; [set_solver|].
  simpl in Hs. inversion_clear Hs as [|? ? Hl HF]. rewrite Forall_forall in HF.
  apply elem_of_cons in Ha as [->|Ha], Hb as [->|Hb]; [by left| | |by apply IH].
  - right. left. apply HF. by apply list_elem_of_fmap_2.
  - right. right. apply HF. by apply list_elem_of_fmap_2.
Qed.
End Versions.

(** ** History *)

Lemma filter_in_ext {A} (P Q : A -> Prop) `{forall x, Decision (P x)} `{forall x, Decision (Q x)} (l : list A) :
  (forall x, x ∈ l -> P x <-> Q x) -> filter P l = filter Q l.
Proof.
  induction l as [|x l IH]; intros E; [done|]. rewrite !filter_cons.
  assert (Hx := E x ltac:(left)). rewrite IH by (intros y Hy; apply E; by right).
  destruct (decide (P x)); [rewrite decide_True by tauto|rewrite decide_False by tauto]; done.
Qed.

Lemma filter_in_all {A} (P : A -> Prop) `{forall x, Decision (P x)} (l : list A) :
  (forall x, x ∈ l -> P x) -> filter P l = l.
Proof.
  induction l as [|x l IH]; intros E; [done|]. rewrite filter_cons, decide_True by (apply E; left).
  f_equal. apply IH. intros y Hy. apply E. by right.
Qed.

Section History.
Context {cfg : Config}.

Lemma fold_prunes_uploads victims : forall d,
  uploads (fold_left (fun d id => del_history id (del_cancellation id
                        (del_dead id (del_parts id (del_id id d))))) victims d)
  = filter (fun r => r_id r ∉ victims) (uploads d).
Proof.
  induction victims as [|x l IH]; intros d; simpl.
  - by rewrite filter_in_all by set_solver.
  - rewrite IH. change (uploads (del_history x _)) with (filter (fun r => ~ r_id r = x) (uploads d)).
    rewrite list_filter_filter. apply list_filter_iff. set_solver.
Qed.

Lemma pruneDoneTx_uploads before d a d' :
  NoDup (ids d) -> pruneDoneTx before d = Ok (a, d') ->
  uploads d' = filter (fun r => ~ prunable before d r) (uploads d).
Proof.
  intros Hnd [= _ <-]. rewrite fold_prunes_uploads. unfold ids in Hnd.
  apply filter_in_ext. intros r Hr. rewrite list_elem_of_fmap. split.
  - intros H Hp. apply H. exists r. split; [done|]. by apply elem_of_sel.
  - intros H (x & E & Hx). apply elem_of_sel in Hx as [Hp Hx]. apply H.
    by rewrite (NoDup_ids_inj d r x).
Qed.

Lemma recent_first_total a b : recent_first a b = true \/ recent_first b a = true.
Proof.
  unfold recent_first. rewrite !orb_true_iff, !andb_true_iff, !Z.ltb_lt, !Z.eqb_eq.
  destruct (Z.lt_total (r_done_at a) (r_done_at b)) as [?|[?|?]]; [auto| |auto].
  destruct (String.leb_total (r_id a) (r_id b)); [right|left]; right; split; auto.
Qed.
Lemma recent_first_trans a b c : recent_first a b = true -> recent_first b c = true -> recent_first a c = true.
Proof.
  unfold recent_first. rewrite !orb_true_iff, !andb_true_iff, !Z.ltb_lt, !Z.eqb_eq.
  intros [?|[? ?]] [?|[? ?]]; [left; lia|left; lia|left; lia|right]. split; [lia|by eapply leb_trans].
Qed.

Lemma recent_done_spec d :
  let fin := sel (fun r => r_state r = StateDone /\ 0 < r_done_at r) d in
  length (recent_done d) = Nat.min doneHistory (length fin)
  /\ (forall r, r ∈ recent_done d -> r ∈ fin)
  /\ (forall r r', r ∈ recent_done d -> r' ∈ fin -> r' ∉ recent_done d -> r_done_at r' <= r_done_at r).
Proof.
  intros fin. unfold recent_done. fold fin. set (l := order_by recent_first fin).
  assert (Hp : l ≡ₚ fin) by apply order_by_perm.
  assert (Hs : StronglySorted (fun a b => recent_first a b = true) l)
    by (apply order_by_sorted; [apply recent_first_total|apply recent_first_trans]).
  split_and!.
  - rewrite length_take. by rewrite Hp.
  - intros r Hr%elem_of_sublist_take. by rewrite <- Hp.
  - intros r r' Hr Hr' Hn. rewrite <- Hp in Hr'. rewrite <- (take_drop doneHistory l) in Hr', Hs.
    apply elem_of_app in Hr' as [?|Hr']; [done|]. apply StronglySorted_app in Hs as (Hx & _).
    specialize (Hx r r' Hr Hr'). unfold recent_first in Hx.
    rewrite orb_true_iff, andb_true_iff, Z.ltb_lt, Z.eqb_eq in Hx. lia.
Qed.

(** Finished rows past the age bound that a prune leaves behind. *)
Lemma prune_leaves before d a d' :
  NoDup (ids d) -> pruneDoneTx before d = Ok (a, d') ->
  (length (filter (fun r => r_state r = StateDone /\ (0 < r_done_at r < before)%Z /\ upload_cleanup d !! r_id r = None)
             (uploads d')) <= doneHistory)%nat.
Proof.
  intros Hnd H. pose proof (pruneDoneTx_uploads before d a d' Hnd H) as Hu. rewrite Hu.
  set (l := filter _ (filter _ _)).
  assert (Hl : NoDup (map r_id l)).
  { eapply sublist_NoDup; [exact Hnd|]. apply (map_sublist r_id).
    etransitivity; apply sublist_filter. }
  assert (Hsub : map r_id l ⊆+ map r_id (recent_done d)).
  { apply NoDup_submseteq; [done|]. intros x (r & -> & Hr)%list_elem_of_fmap.
    apply list_elem_of_filter in Hr as [(Hst & Hat & Hc) Hr].
    apply list_elem_of_filter in Hr as [Hp _]. unfold prunable in Hp.
    destruct (decide (r_id r ∈ map r_id (recent_done d))); [done|]. tauto. }
  apply submseteq_length in Hsub. rewrite !length_map in Hsub.
  pose proof (recent_done_spec d) as (Hlen & _). lia.
Qed.
End History.

(** ** What an acknowledged commit means

    Group commit answers each caller as a commit of its own would; the row it
    acknowledges names a file that is there and stays there; and the staging
    and copy hand-overs establish the premises of the steps they take. *)

Section Batches.
Context {cfg : Config}.

Lemma insert_each_app s us vs :
  insert_each s (us ++ vs) =
  let '(a, s1) := insert_each s us in let '(b, s2) := insert_each s1 vs in (a ++ b, s2).
Proof.
  revert s. induction us as [|u us IH]; intros s; simpl; [by destruct (insert_each s vs)|].
  destruct (insert_alone s u) as [v s1]. rewrite IH. destruct (insert_each s1 us) as [a s2].
  by destruct (insert_each s2 vs).
Qed.

Lemma insert_each_length s us : length (fst (insert_each s us)) = length us.
Proof.
  revert s. induction us as [|u us IH]; intros s; simpl; [done|]. destruct (insert_alone s u) as [v s1].
  specialize (IH s1). destruct (insert_each s1 us). simpl in *. lia.
Qed.

(** A transaction of several inserts that commits did what the inserts do
    one by one. *)
Lemma tforeach_each us : forall s d,
  tforeach us (insertUploadTx (fsys s) (now s)) (db s) = Ok (tt, d) ->
  insert_each s us = (map (fun _ => Ok tt) us, s <| db := d |>).
Proof.
  induction us as [|u us IH]; intros s d; simpl.
  - intros [= <-]. by destruct s.
  - intros H. apply tbind_Ok in H as ([] & d1 & Hu & H). unfold insert_alone, tx. rewrite Hu.
    rewrite (IH (s <| db := d1 |>) d); [done|]. simpl. exact H.
Qed.

Lemma commitBatch_each us c s :
  syncObjects = true ->
  let '(vs, _, s') := commitBatch us c s in (vs, s') = insert_each s us.
Proof.
  intros Hs. unfold commitBatch. rewrite Hs. simpl. unfold tx.
  destruct (tforeach us _ (db s)) as [[[] d]|e] eqn:E.
  - by rewrite (tforeach_each us s d E).
  - case_decide as Hl; [by destruct (insert_each s us)|].
    destruct us as [|u [|u' us]]; [done| |simpl in Hl; lia].
    simpl in E |- *. unfold insert_alone, tx. unfold tbind in E.
    destruct (insertUploadTx _ _ u (db s)) as [[[] d]|e'] eqn:Eu; [done|]. by injection E as ->.
Qed.

Lemma drain_each fuel : forall queue c s,
  syncObjects = true -> (length queue <= fuel)%nat ->
  let '(vs, _, s') := drain fuel queue c s in (vs, s') = insert_each s queue.
Proof.
  induction fuel as [|fuel IH]; intros queue c s Hs Hf.
  - destruct queue; [done|simpl in Hf; lia].
  - destruct queue as [|u queue]; [done|]. cbn [drain]. set (q := u :: queue) in *.
    pose proof (commitBatch_each (take groupMax q) c s Hs) as Hb.
    destruct (commitBatch (take groupMax q) c s) as [[vs c1] s1].
    assert (Hl : (length (drop groupMax q) <= fuel)%nat).
    { rewrite length_drop. unfold groupMax, q in *. simpl in *. lia. }
    pose proof (IH (drop groupMax q) c1 s1 Hs Hl) as Hd.
    destruct (drain fuel (drop groupMax q) c1 s1) as [[vs' c2] s2].
    rewrite <- (take_drop groupMax q) at 1. rewrite insert_each_app, <- Hb, <- Hd. done.
Qed.

(** When the directory cannot be flushed nobody is told the row is safe, and
    no row is written. *)
Lemma commitBatch_unsynced us c s :
  syncObjects = false -> commitBatch us c s = (map (fun _ => Err (ErrIO "sync objects")) us, c, s).
Proof. intros Hs. unfold commitBatch. by rewrite Hs. Qed.

Lemma drain_unsynced fuel : forall queue c s,
  syncObjects = false -> (length queue <= fuel)%nat ->
  drain fuel queue c s = (map (fun _ => Err (ErrIO "sync objects")) queue, c, s).
Proof.
  induction fuel as [|fuel IH]; intros queue c s Hs Hf.
  - destruct queue; [done|simpl in Hf; lia].
  - destruct queue as [|u queue]; [done|]. cbn [drain]. set (q := u :: queue) in *.
    rewrite commitBatch_unsynced by done.
    rewrite (IH (drop groupMax q) c s Hs).
    + by rewrite <- map_app, take_drop.
    + rewrite length_drop. unfold groupMax, q in *. simpl in *. lia.
Qed.
End Batches.

Section Acks.
Context {cfg : Config} {ok : CfgOk cfg}.

Definition reserved (s : jstate) (u : Upload) : Prop :=
  BlobPath u = "" \/ exists id, stagedObjects s !! id = Some (BlobPath u).

Lemma reserved_tx_ok s u : Inv s -> reserved s u -> tx_ok s (TInsert u).
Proof.
  intros Hi [?|[id Hid]]; [by left|]. right. split; [|by eapply needed_staged].
  destruct (i_staged _ Hi id _ Hid) as (n & Hn & E). exists "objects", n. auto.
Qed.

Lemma steps_insert_each us : forall s,
  Inv s -> Forall (reserved s) us -> rtc jstep s (snd (insert_each s us)).
Proof.
  induction us as [|u us IH]; intros s Hi HF; simpl; [apply rtc_refl|].
  inversion_clear HF as [|? ? Hu HF']. unfold insert_alone, tx.
  destruct (insertUploadTx _ _ u (db s)) as [[[] d]|e] eqn:E; simpl.
  - assert (Hst : jstep s (s <| db := d |>)) by (eapply (step_tx s (TInsert u)); [by apply reserved_tx_ok|exact E]).
    specialize (IH (s <| db := d |>)). destruct (insert_each (s <| db := d |>) us) as [vs s2]. simpl in *.
    eapply rtc_l; [exact Hst|]. apply IH; [by eapply Inv_step|done].
  - specialize (IH s Hi HF'). by destruct (insert_each s us).
Qed.

Lemma steps_commitBatch us c s :
  Inv s -> Forall (reserved s) us -> rtc jstep s (snd (commitBatch us c s)).
Proof.
  intros Hi HF. destruct syncObjects eqn:Hs.
  - pose proof (commitBatch_each us c s Hs) as E. destruct (commitBatch us c s) as [[vs c1] s1]. simpl.
    change s1 with (snd (vs, s1)). rewrite E. by apply steps_insert_each.
  - rewrite commitBatch_unsynced by done. apply rtc_refl.
Qed.

Lemma steps_Commit u c s : Inv s -> reserved s u -> rtc jstep s (snd (Commit u c s)).
Proof.
  intros Hi Hu. unfold Commit. case_decide; [apply rtc_refl|].
  pose proof (steps_commitBatch [u] c s Hi (Forall_cons_2 _ _ _ Hu (Forall_nil_2 _))) as Hr.
  destruct (commitBatch [u] c s) as [[vs c1] s1]. simpl in Hr.
  destruct vs as [|[|] vs]; simpl; [done| |done]. eapply rtc_r; [done|apply step_io; constructor].
Qed.

(** CommitStaging leaves the reservation its caller's Commit needs. *)
Lemma commitStaging_reserves sg hashes s dst s' :
  plain (object_name (s_ID sg) hashes) ->
  CommitStaging sg hashes s = (Ok dst, s') -> stagedObjects s' !! s_ID sg = Some dst.
Proof.
  intros Hn. destruct (object_dst _ Hn) as [Ed Ea]. unfold CommitStaging.
  destruct (_ && _); [done|]. destruct (Rename _ _ _) as [f|]; [|done].
  assert (E : abs (Join [ObjectsDir; object_name (s_ID sg) hashes]) = Join [ObjectsDir; object_name (s_ID sg) hashes])
    by congruence.
  repeat first [case_decide | case_match]; intros; simplify_eq/=; rewrite lookup_insert_eq; by rewrite ?E.
Qed.

(** What a successful Commit did. *)
Lemma commit_Ok u c c' s s' :
  Commit u c s = (Ok c', s') ->
  syncObjects = true /\ exists d, insertUploadTx (fsys s) (now s) u (db s) = Ok (tt, d)
    /\ s' = snd (releaseStagedObject (StagingID u) (BlobPath u) (s <| db := d |>)).
Proof.
  unfold Commit. case_decide; [done|]. destruct syncObjects eqn:Hs.
  - pose proof (commitBatch_each [u] c s Hs) as E. destruct (commitBatch [u] c s) as [[vs c1] s1].
    simpl in E. unfold insert_alone, tx in E.
    destruct (insertUploadTx (fsys s) (now s) u (db s)) as [[[] d]|e]; injection E as -> ->; [|done].
    intros [= _ <-]. split; [done|]. eauto.
  - rewrite commitBatch_unsynced by done. done.
Qed.

(** The row an insert leaves under the upload's id. *)
Lemma insertUploadTx_row f t u d d' :
  insertUploadTx f t u d = Ok (tt, d') ->
  exists r, row_of (ID u) d' = Some r /\ r_blob r = BlobPath u /\ r_size r = Size u
    /\ r_hashes r = Hashes u /\ r_remote r = Remote u /\ r_name r = Name u
    /\ r_state r = if decide (UState u = StateUnset) then StatePending else UState u.
Proof.
  unfold insertUploadTx. intros H. tx_inv.
  match goal with H : checkCopyUploadOwner _ _ = _ |- _ => apply checkCopy_Ok in H as -> end.
  match goal with H : checkDiscardedPayload _ _ _ = _ |- _ => apply checkDiscarded_Ok in H as -> end.
  destruct (row_of (ID u) _) as [r|] eqn:E; tx_inv.
  - eexists. split.
    + unfold upd_id. rewrite row_of_upd_rows, E by done. reflexivity.
    + pose proof (row_of_Some_1 _ _ _ E) as [_ ->]. simpl. by rewrite decide_True.
  - eexists. split; [rewrite row_of_append, E; simpl; by rewrite decide_True|]. done.
Qed.

Lemma submitTx_Ok f t job u d d' :
  submitTx f t job u d = Ok (tt, d') ->
  exists c, copy_jobs d !! j_ID job = Some c
    /\ insertUploadTx f t u (d <| copy_jobs ::= <[j_ID job := c <| c_state := CopySubmitted |>]> |>) = Ok (tt, d')
    /\ row_of (ID u) d = None.
Proof.
  unfold submitTx. destruct (row_of (ID u) d); [done|]. destruct (copy_jobs d !! j_ID job) as [c|]; [|done].
  case_decide; [|done]. eauto.
Qed.
End Acks.

(** ** Sending the versions of one file

    The workers as one system over the queue's tables: each claims uploads,
    asks whether the version it holds is superseded, asks whether an older one
    is still in flight, sends, and ends its claim with one of its own
    transactions.  Everybody else may run any other transaction of the journal
    meanwhile, commits of newer versions included. *)

Definition in_flight (st : State) : Prop := st = StateUploading \/ st = StateCancelling.
Definition same_version (r r' : Row) : Prop :=
  r_id r' = r_id r /\ rowid r' = rowid r /\ r_remote r' = r_remote r /\ r_ino r' = r_ino r
  /\ (r_tombstone r' = false -> r_tombstone r = false).

Lemma same_version_refl r : same_version r r.
Proof. done. Qed.
Lemma same_version_trans r1 r2 r3 : same_version r1 r2 -> same_version r2 r3 -> same_version r1 r3.
Proof. unfold same_version. intuition congruence. Qed.

(** From [d] to [d'] the rows outside [N] are the old ones, perhaps changed in
    place, and those of [O] that were in flight still are. *)
Record evolves (O N : string -> Prop) (d d' : DB) : Prop := {
  ev_back r' : r' ∈ uploads d' -> ~ N (r_id r') -> exists r, r ∈ uploads d /\ same_version r r';
  ev_fwd r : r ∈ uploads d -> O (r_id r) -> in_flight (r_state r) ->
    exists r', r' ∈ uploads d' /\ same_version r r' /\ in_flight (r_state r')
}.

Section Evolution.
Context {cfg : Config} (O N : string -> Prop).

Lemma evolves_uploads d d' : uploads d' = uploads d -> evolves O N d d'.
Proof. intros E. split; rewrite E; eauto using same_version_refl. Qed.
Lemma evolves_trans d1 d2 d3 : evolves O N d1 d2 -> evolves O N d2 d3 -> evolves O N d1 d3.
Proof.
  intros [B1 F1] [B2 F2]. split.
  - intros r' Hr Hn. destruct (B2 r' Hr Hn) as (r2 & H2 & S2). destruct (B1 r2 H2) as (r1 & H1 & S1).
    { by rewrite <- (proj1 S2). }
    exists r1. split; [done|by eapply same_version_trans].
  - intros r Hr Ho Hf. destruct (F1 r Hr Ho Hf) as (r2 & H2 & S2 & Hf2).
    destruct (F2 r2 H2) as (r3 & H3 & S3 & Hf3); [by rewrite (proj1 S2)|done|].
    exists r3. split_and!; [done|by eapply same_version_trans|done].
Qed.

Lemma evolves_upd P `{forall r, Decision (P r)} f d :
  (forall r, r ∈ uploads d -> P r ->
     same_version r (f r) /\ (O (r_id r) -> in_flight (r_state r) -> in_flight (r_state (f r)))) ->
  evolves O N d (upd_rows P f d).
Proof.
  intros Hf. split; rewrite uploads_upd_rows.
  - intros r' (r & -> & Hr)%list_elem_of_fmap _. exists r. split; [done|]. case_decide; [by apply Hf|done].
  - intros r Hr Ho Hs. exists (if decide (P r) then f r else r). split.
    { apply list_elem_of_fmap. by exists r. }
    case_decide as Hp; [|done]. destruct (Hf r Hr Hp). auto.
Qed.
Lemma evolves_upd_same P `{forall r, Decision (P r)} f d :
  (forall r, same_version r (f r)) -> (forall r, r_state (f r) = r_state r) -> evolves O N d (upd_rows P f d).
Proof. intros Hf Hs. apply evolves_upd. intros r _ _. by rewrite Hs. Qed.
Lemma evolves_del P `{forall r, Decision (P r)} d :
  (forall r, r ∈ uploads d -> P r -> O (r_id r) -> in_flight (r_state r) -> False) -> evolves O N d (del_rows P d).
Proof.
  intros Hf. split; rewrite uploads_del_rows.
  - intros r' [_ Hr]%list_elem_of_filter _. by exists r'.
  - intros r Hr Ho Hs. exists r. split_and!; [|done..]. apply list_elem_of_filter. split; [|done].
    intros Hp. by eapply Hf.
Qed.

(** The two uses of these: a row that cannot be in flight, and a field that
    does not matter. *)
Lemma evolves_upd_idle id f d d1 r :
  NoDup (ids d) -> uploads d1 = uploads d -> row_of id d = Some r -> ~ in_flight (r_state r) ->
  (forall r, same_version r (f r)) -> evolves O N d (upd_id id f d1).
Proof.
  intros Hnd E Hr Hs Hf. eapply evolves_trans; [by apply evolves_uploads|]. apply evolves_upd. rewrite E.
  intros r0 Hr0 Hid. split; [done|]. intros _ Hin. exfalso. apply Hs.
  apply row_of_Some_1 in Hr as [Hr Hid']. rewrite (NoDup_ids_inj d r r0); [done..|congruence].
Qed.
Lemma evolves_upd_unowned id f d : ~ O id -> (forall r, same_version r (f r)) -> evolves O N d (upd_id id f d).
Proof. intros Ho Hf. apply evolves_upd. intros r _ ->. split; [done|]. by intros. Qed.
Lemma evolves_del_unowned id d d' :
  ~ O id -> uploads d' = uploads (del_id id d) -> evolves O N d d'.
Proof.
  intros Ho E. apply (evolves_trans d (del_id id d)); [|by apply evolves_uploads]. apply evolves_del. by intros r _ ->.
Qed.
Lemma evolves_drop_idle id d r :
  NoDup (ids d) -> row_of id d = Some r -> ~ in_flight (r_state r) -> evolves O N d (drop_tables id d).
Proof.
  intros Hnd Hr Hs. apply (evolves_trans d (del_id id d)); [|by apply evolves_uploads].
  apply (evolves_del (fun r => r_id r = id)). intros r0 Hr0 Hid _ Hin. apply Hs.
  apply row_of_Some_1 in Hr as [Hr Hid']. rewrite (NoDup_ids_inj d r r0); [done..|congruence].
Qed.

Lemma evolves_prune before d a d' : NoDup (ids d) -> pruneDoneTx before d = Ok (a, d') -> evolves O N d d'.
Proof.
  intros Hnd H. pose proof (pruneDoneTx_uploads before d a d' Hnd H) as E. split; rewrite E.
  - intros r' [_ Hr]%list_elem_of_filter _. by exists r'.
  - intros r Hr _ Hs. exists r. split_and!; [|done..]. apply list_elem_of_filter. split; [|done].
    intros [Hd _]. rewrite Hd in Hs. by destruct Hs.
Qed.
End Evolution.

(** What each transaction does, away from the claims of [O]. *)
Section Moves.
Context {cfg : Config} (O : string -> Prop).

(** The transactions that end a claim, and the ids a transaction commits. *)
Definition ends_claim (id : string) (x : dbtx) : Prop :=
  match x with
  | TSucceed i | TRetry i _ _ | TDefer i _ _ | TFail i _ | TDrop i | TFinishCancel i => i = id
  | _ => False
  end.
Definition commits (id : string) (x : dbtx) : Prop :=
  match x with TInsert u | TSubmit _ u => ID u = id | _ => False end.
Definition claims (x : dbtx) : Prop := match x with TClaim _ _ => True | _ => False end.

Lemma evolves_insert f t u d d1 d' :
  ~ O (ID u) -> uploads d1 = uploads d -> insertUploadTx f t u d1 = Ok (tt, d') ->
  evolves O (fun id => ID u = id) d d'.
Proof.
  intros Ho E [_ [(r & _ & _ & _ & _ & g & -> & Hg)|(_ & _ & r & -> & _ & Hid & _)]]%insertUploadTx_Ok.
  - split; unfold upd_id; rewrite uploads_upd_rows, E.
    + intros r' (r0 & -> & Hr)%list_elem_of_fmap Hn. exists r0. split; [done|].
      case_decide as Hi; [|done]. exfalso. apply Hn. by rewrite (proj1 (Hg r0)).
    + intros r0 Hr Ho' Hs. exists r0. split_and!; [|done..]. apply list_elem_of_fmap. exists r0. split; [|done].
      rewrite decide_False; [done|]. intros Hi. by rewrite Hi in Ho'.
  - assert (Eu : uploads (d1 <| uploads ::= fun l => l ++ [r] |>) = uploads d ++ [r]) by (rewrite <- E; done).
    split; rewrite Eu.
    + intros r' [Hr| ->%list_elem_of_singleton]%elem_of_app Hn; [by exists r'|]. by rewrite Hid in Hn.
    + intros r0 Hr _ Hs. exists r0. split_and!; [set_solver|done..].
Qed.

Lemma evolves_requestCancel N id d a d' :
  NoDup (ids d) -> requestCancelTx id d = Ok (a, d') -> evolves O N d d'.
Proof.
  intros Hnd. unfold requestCancelTx. destruct (row_of id d) as [r|] eqn:E; [|done]. case_decide; [done|].
  destruct (cancel_target (r_state r)) as [st|] eqn:Et; [|done]. intros [= _ <-].
  eapply evolves_trans; [|apply evolves_upd]; [by apply evolves_uploads|]. intros r0 Hr0 Hid. split; [done|].
  intros _ Hs. apply row_of_Some_1 in E as [Hr Hid']. rewrite (NoDup_ids_inj d r0 r) in Hs; [|done..|congruence].
  right. simpl. destruct Hs as [Hs|Hs]; rewrite Hs in Et; by injection Et as <-.
Qed.

Lemma evolves_resume N p b d a d' : NoDup (ids d) -> resumeTx p b d = Ok (a, d') -> evolves O N d d'.
Proof.
  intros Hnd. unfold resumeTx. destruct (row_of (ID (p_u p)) d) as [r|] eqn:E; [|done].
  case_decide as Hc; [done|]. case_decide; [done|]. destruct (upload_resume_history d !! _); [done|]. intros [= _ <-].
  apply (evolves_upd_idle _ _ _ _ _ _ r); [done|done|done| |by intros r0; destruct b].
  destruct (decide (r_state r = StateCancelled)) as [->|]; [by intros []|tauto].
Qed.

Lemma evolves_beginCleanup N id meta d a d' : NoDup (ids d) -> beginCleanupTx id meta d = Ok (a, d') -> evolves O N d d'.
Proof.
  intros Hnd. unfold beginCleanupTx. destruct (row_of id d) as [r|] eqn:E; [|done].
  case_decide; [destruct (uploadCleanupTx _ _ _); intros [= _ <-]; by apply evolves_uploads|].
  case_decide as Hc; [done|]. destruct (cleanupUploadPath _); [|done]. destruct (upload_cleanup d !! id); [done|].
  intros [= _ <-]. apply (evolves_upd_idle _ _ _ _ _ _ r); [done..| |done].
  destruct (decide (r_state r = StateCancelled)) as [->|]; [by intros []|tauto].
Qed.

Lemma evolves_requeue N id d a d' : NoDup (ids d) -> requeueTx id d = Ok (a, d') -> evolves O N d d'.
Proof.
  unfold requeueTx. intros Hnd H. tx_inv. destruct (row_of id _) as [r|] eqn:E; tx_inv.
  destruct (r_state r) eqn:Es; tx_inv.
  match goal with |- evolves _ _ _ (del_dead _ ?dd) => apply (evolves_trans _ _ _ dd); [|by apply evolves_uploads] end.
  apply (evolves_upd_idle _ _ _ _ _ _ r); [done..| |done]. rewrite Es. by intros [].
Qed.

Lemma evolves_dropIdle N id po d a d' : NoDup (ids d) -> dropIdleTx id po d = Ok (a, d') -> evolves O N d d'.
Proof.
  unfold dropIdleTx. intros Hnd H. tx_inv. destruct (row_of id _) as [r|] eqn:E; tx_inv.
  destruct (r_state r) eqn:Es; tx_inv; repeat case_decide; tx_inv;
    (apply (evolves_drop_idle _ _ _ _ r); [done..|rewrite Es; by intros []]).
Qed.

Lemma evolves_succeed N t id d a d' : NoDup (ids d) -> ~ O id -> succeedTx t id d = Ok (a, d') -> evolves O N d d'.
Proof.
  unfold succeedTx. intros Hnd Ho H. tx_inv. destruct (row_of id _) as [r|] eqn:E; tx_inv.
  match goal with H : pruneDoneTx _ ?dd = _ |- _ => apply (evolves_trans _ _ _ dd); [|eapply evolves_prune; [|exact H]] end.
  - match goal with |- evolves _ _ _ (del_parts _ ?dd) => apply (evolves_trans _ _ _ dd); [|by apply evolves_uploads] end.
    by apply evolves_upd_unowned.
  - match goal with |- NoDup (ids (del_parts _ ?dd)) => change (NoDup (ids dd)) end. by rewrite ids_upd_id.
Qed.

Lemma copy_tx_uploads f t x d d' :
  match x with
  | TInsertCopy _ | TCheckpoint _ _ _ _ | TRetryCopy _ _ _ | TFailCopy _ _ | TCancelCopy _ | TBeginCopyCleanup _ _
  | TBeginServerCopy _ _ | TFinishServerCopy _ => True
  | _ => False
  end -> run f t x d = Ok (tt, d') -> uploads d' = uploads d.
Proof.
  intros Hx H. destruct x; try done; simpl in H.
  - unfold insertCopyTx in H. destruct (copy_jobs d !! _); [done|]. by eapply put_copy_uploads.
  - unfold checkpointTx in H. destruct (copy_jobs d !! _); [|done]. case_decide; [|done]. by eapply put_copy_uploads.
  - unfold retryCopyTx in H. destruct (copy_jobs d !! _); [|done]. case_decide; [|done]. by eapply put_copy_uploads.
  - unfold failCopyTx in H. destruct (copy_jobs d !! _); [|done]. case_decide; [by simplify_eq|].
    case_decide; [|done]. by eapply put_copy_uploads.
  - unfold cancelCopyTx in H. destruct (copy_jobs d !! _); [|done]. case_decide; [done|]. by eapply put_copy_uploads.
  - unfold beginCopyCleanupTx in H. repeat first [case_decide | case_match]; simplify_eq; done.
  - unfold beginServerCopyTx in H. repeat first [case_decide | case_match]; simplify_eq; done.
  - by tx_inv.
Qed.

(** A transaction that neither claims nor ends or rewrites a claim of [O]. *)
Lemma run_evolves f t x d d' :
  NoDup (ids d) -> ~ claims x -> (forall id, O id -> ~ ends_claim id x /\ ~ commits id x) ->
  run f t x d = Ok (tt, d') -> evolves O (fun id => commits id x) d d'.
Proof.
  intros Hnd Hcl Ho H.
  assert (Hend : forall id, ends_claim id x -> ~ O id) by (intros id He Hi; by destruct (Ho id Hi)).
  assert (Hcom : forall id, commits id x -> ~ O id) by (intros id He Hi; by destruct (Ho id Hi)). clear Ho.
  destruct x; simpl in Hcl, Hend, Hcom; try tauto; 
    try (apply evolves_uploads; refine (copy_tx_uploads f t _ d d' _ H); exact I).
  all: simpl in H; tx_inv.
  - apply (evolves_insert f t u d d); [by apply Hcom|done|done].
  - unfold retargetTx in H. tx_inv. case_decide; [done|]. tx_inv. by apply evolves_upd_same.
  - unfold setSessionTx in H. tx_inv. by apply evolves_upd_same.
  - unfold recordPartTx in H. tx_inv. by apply evolves_uploads.
  - match goal with H : succeedTx _ _ _ = _ |- _ => eapply evolves_succeed; [done| |exact H]; by apply Hend end.
  - unfold retryTx in H. tx_inv. apply evolves_upd_unowned; [by apply Hend|done].
  - unfold deferTx in H. tx_inv. apply evolves_upd_unowned; [by apply Hend|done].
  - unfold failTx in H. tx_inv.
    apply (evolves_trans _ _ _ (upd_id id (fun r => r <| r_state := StateDead |> <| r_last_error := msg |>) d));
      [|by apply evolves_uploads].
    apply evolves_upd_unowned; [by apply Hend|done].
  - match goal with H : requeueTx _ _ = _ |- _ => by eapply evolves_requeue end.
  - match goal with H : dropIdleTx _ _ _ = _ |- _ => by eapply evolves_dropIdle end.
  - unfold dropTx in H. tx_inv. apply (evolves_del_unowned _ _ id); [by apply Hend|done].
  - unfold tombstoneTx in H. tx_inv. destruct (row_of id _); tx_inv. by apply evolves_upd_same.
  - unfold markPublishedTx in H. tx_inv. destruct (row_of id _); tx_inv. by apply evolves_upd_same.
  - match goal with H : requestCancelTx _ _ = _ |- _ => by eapply evolves_requestCancel end.
  - unfold finishCancelTx in H. tx_inv. apply evolves_upd. intros r _ [Hid _]. split; [done|].
    intros Hi. rewrite Hid in Hi. by apply (Hend id) in Hi.
  - by eapply evolves_resume.
  - match goal with H : beginCleanupTx _ _ _ = _ |- _ => by eapply evolves_beginCleanup end.
  - unfold submitTx in H. destruct (row_of (ID u) d); [done|]. destruct (copy_jobs d !! _) as [c|]; [|done].
    case_decide; [|done]. eapply evolves_insert; [by apply Hcom| |exact H]. done.
Qed.
End Moves.

(** The workers over the tables: what each has claimed, how far it is with it,
    and which uploads have been sent since they were last committed. *)
Inductive phase := Claimed | Checked | Sending.
Record fleet := MkFleet { tables : DB; owned : gmap string (Upload * phase); sent : gset string }.

Section Fleet.
Context {cfg : Config}.

Definition new_claims (us : list Upload) : gmap string (Upload * phase) :=
  list_to_map (map (fun u => (ID u, (u, Claimed))) us).

Inductive fstep : fleet -> fleet -> Prop :=
| fleet_claim remote t n us d own sn d' : claimTx remote t n d = Ok (us, d') ->
    fstep (MkFleet d own sn) (MkFleet d' (new_claims us ∪ own) sn)
| fleet_check id u d own sn : own !! id = Some (u, Claimed) -> Superseded u d = false ->
    fstep (MkFleet d own sn) (MkFleet d (<[id := (u, Checked)]> own) sn)
| fleet_admit id u d own sn : own !! id = Some (u, Checked) -> OlderInFlight u d = false ->
    fstep (MkFleet d own sn) (MkFleet d (<[id := (u, Sending)]> own) ({[id]} ∪ sn))
| fleet_settle f t x id d own sn d' : is_Some (own !! id) -> ends_claim id x -> run f t x d = Ok (tt, d') ->
    fstep (MkFleet d own sn) (MkFleet d' (delete id own) sn)
| fleet_other f t x d own sn sn' d' : ~ claims x -> fresh_job x d ->
    (forall id, is_Some (own !! id) -> ~ ends_claim id x /\ ~ commits id x) ->
    (forall id, id ∈ sn' <-> id ∈ sn /\ ~ commits id x) -> run f t x d = Ok (tt, d') ->
    fstep (MkFleet d own sn) (MkFleet d' own sn')
| fleet_discard id meta p d own sn : is_Some (upload_cleanup d !! id) ->
    fstep (MkFleet d own sn) (MkFleet (discard_tables id meta p d) own sn).

(** The snapshot a worker holds is of the row that is there. *)
Definition snapshot_of (r : Row) (u : Upload) : Prop :=
  ID u = r_id r /\ Remote u = r_remote r /\ Ino u = r_ino r
  /\ (r_tombstone r = false -> Tombstoned u = false).

Record FInv (s : fleet) : Prop := {
  f_db : DBInv (tables s);
  f_own id u ph : owned s !! id = Some (u, ph) ->
    exists r, r ∈ uploads (tables s) /\ r_id r = id /\ in_flight (r_state r) /\ snapshot_of r u;
  f_ahead a b u ph : a ∈ uploads (tables s) -> b ∈ uploads (tables s) -> same_file a b -> rowid a < rowid b ->
    owned s !! r_id a = Some (u, ph) -> ph <> Claimed -> r_id b ∉ sent s;
  f_sent id u : owned s !! id = Some (u, Sending) -> id ∈ sent s
}.

Lemma snapshot_evolves r r' u : same_version r r' -> snapshot_of r u -> snapshot_of r' u.
Proof. unfold same_version, snapshot_of. intuition congruence. Qed.
Lemma same_file_back a b a' b' : same_version a a' -> same_version b b' -> same_file a' b' -> same_file a b.
Proof. unfold same_version, same_file. intuition congruence. Qed.

Lemma asked_superseded d a b u :
  DBInv d -> a ∈ uploads d -> b ∈ uploads d -> same_file a b -> rowid a < rowid b -> snapshot_of a u ->
  Superseded u d = true.
Proof.
  intros Hd Ha Hb Hf Hlt (H1 & H2 & H3 & H4). rewrite <- (older_is_superseded d a b Hd Ha Hb Hf Hlt).
  unfold Superseded. simpl. destruct Hf as (_ & _ & _ & Hta & _). rewrite H1, H2, H3, Hta, (H4 Hta). done.
Qed.
Lemma asked_older d a b u :
  DBInv d -> a ∈ uploads d -> b ∈ uploads d -> same_file a b -> rowid a < rowid b -> snapshot_of b u ->
  in_flight (r_state a) -> OlderInFlight u d = true.
Proof.
  intros Hd Ha Hb Hf Hlt (H1 & H2 & H3 & H4) Hs.
  rewrite <- (newer_waits d a b Hd Ha Hb Hf Hlt) by (unfold in_flight in Hs; tauto).
  unfold OlderInFlight. simpl. destruct Hf as (_ & _ & _ & _ & Htb). rewrite H1, H2, H3, Htb, (H4 Htb). done.
Qed.

(** The part of the invariant that any evolution away from the claims keeps. *)
Lemma FInv_evolves (N : string -> Prop) d own sn d' own' sn' :
  FInv (MkFleet d own sn) -> DBInv d' ->
  evolves (fun id => is_Some (own' !! id)) N d d' ->
  (forall id v, own' !! id = Some v -> own !! id = Some v) ->
  (forall id, is_Some (own' !! id) -> ~ N id) -> (forall id, id ∈ sn' -> id ∈ sn /\ ~ N id) ->
  (forall id, is_Some (own' !! id) -> id ∈ sn -> id ∈ sn') ->
  FInv (MkFleet d' own' sn').
Proof.
  intros [Hd Ho Ha Hs] Hd' [Hb Hf] Hsub Hn Hsn Hkeep. split; simpl in *.
  - done.
  - intros id u ph E. destruct (Ho id u ph (Hsub _ _ E)) as (r & Hr & <- & Hst & Hu).
    destruct (Hf r Hr) as (r' & Hr' & Hv & Hst'); [by eexists|done|]. exists r'.
    split_and!; [done|apply Hv|done|by eapply snapshot_evolves].
  - intros a' b' u ph Ha' Hb' Hsf Hlt E Hph Hin. destruct (Hsn _ Hin) as [Hin' HnN].
    destruct (Hb a' Ha') as (a & Ha1 & Va); [apply Hn; by eexists|]. destruct (Hb b' Hb' HnN) as (b & Hb1 & Vb).
    apply (Ha a b u ph Ha1 Hb1); [by eapply same_file_back| |by apply Hsub; rewrite <- (proj1 Va)|done|by rewrite <- (proj1 Vb)].
    destruct Va as (_ & <- & _), Vb as (_ & <- & _). done.
  - intros id u E. apply Hkeep; [by eexists|]. by eapply Hs, Hsub.
Qed.

Lemma claim_evolves O N remote t n d us d' : claimTx remote t n d = Ok (us, d') -> evolves O N d d'.
Proof.
  intros (out & -> & _)%claimTx_out. split; rewrite fold_claims_uploads.
  - intros r' (r & -> & Hr)%list_elem_of_fmap _. exists r. split; [done|]. by case_decide.
  - intros r Hr _ Hs. eexists. split; [apply list_elem_of_fmap; by exists r|]. case_decide; [|done].
    split; [done|]. by left.
Qed.

Lemma DBInv_claim remote t n d us d' : claimTx remote t n d = Ok (us, d') -> DBInv d -> DBInv d'.
Proof. intros H Hd. eapply ev_DBInv; [|exact Hd]. eapply ev_claimTx; [exact H|apply Hd]. Qed.

(** What a claim hands out: rows that were waiting, now in flight. *)
Lemma new_claims_rows remote t n d us d' id u ph :
  DBInv d -> claimTx remote t n d = Ok (us, d') -> new_claims us !! id = Some (u, ph) ->
  ph = Claimed
  /\ exists r', r' ∈ uploads d' /\ r_id r' = id /\ in_flight (r_state r') /\ snapshot_of r' u.
Proof.
  intros Hd H E. apply elem_of_list_to_map_2, list_elem_of_fmap in E as (u' & [= -> -> ->] & Hu). split; [done|].
  destruct (claimTx_spec _ _ _ _ _ _ Hd H) as (_ & _ & _ & Eu & _).
  assert (exists r, r ∈ uploads d /\ u' = (scanUpload r) <| UState := StateUploading |>) as (r & Hr & E).
  { unfold claimTx in H. injection H as <- _. apply list_elem_of_fmap in Hu as (r & -> & Hr).
    apply elem_of_limit, elem_of_sel in Hr as [_ Hr]. eauto. }
  exists (r <| r_state := StateUploading |>). split; [|subst u'; split_and!; [done|by left|by split_and!]].
  rewrite Eu. apply list_elem_of_fmap. exists r. split; [|done]. rewrite decide_True; [done|].
  change (r_id r) with (ID ((scanUpload r) <| UState := StateUploading |>)). rewrite <- E. by apply list_elem_of_fmap_2.
Qed.

Lemma FInv_claim remote t n us d own sn d' :
  claimTx remote t n d = Ok (us, d') -> FInv (MkFleet d own sn) -> FInv (MkFleet d' (new_claims us ∪ own) sn).
Proof.
  intros H Hi. pose proof (f_db _ Hi) as Hd. simpl in Hd.
  assert (Hi' : FInv (MkFleet d' own sn)).
  { eapply (FInv_evolves (fun _ => False)); [exact Hi|by eapply DBInv_claim|by eapply claim_evolves|naive_solver..]. }
  destruct Hi' as [Hd' Ho Ha Hs]. split; simpl in *.
  - done.
  - intros id u ph [E|[_ E]]%lookup_union_Some_raw; [|by eapply Ho].
    by destruct (new_claims_rows _ _ _ _ _ _ _ _ _ Hd H E) as (_ & ?).
  - intros a b u ph Ha' Hb' Hsf Hlt [E|[_ E]]%lookup_union_Some_raw Hph; [|exact (Ha a b u ph Ha' Hb' Hsf Hlt E Hph)].
    by destruct (new_claims_rows _ _ _ _ _ _ _ _ _ Hd H E) as (-> & _).
  - intros id u [E|[_ E]]%lookup_union_Some_raw; [|by eapply Hs].
    by destruct (new_claims_rows _ _ _ _ _ _ _ _ _ Hd H E) as (? & _).
Qed.

Lemma FInv_check id u d own sn :
  own !! id = Some (u, Claimed) -> Superseded u d = false ->
  FInv (MkFleet d own sn) -> FInv (MkFleet d (<[id := (u, Checked)]> own) sn).
Proof.
  intros E Hsup [Hd Ho Ha Hs]. split; simpl in *.
  - done.
  - intros i v ph [[<- [= <- <-]]|[_ Ei]]%lookup_insert_Some; [by eapply Ho|by eapply Ho].
  - intros a b v ph Ha' Hb' Hsf Hlt [[Hid _]|[_ Ei]]%lookup_insert_Some Hph; [|exact (Ha a b v ph Ha' Hb' Hsf Hlt Ei Hph)].
    destruct (Ho id u Claimed E) as (r & Hr & Hrid & _ & Hu).
    rewrite (NoDup_ids_inj d r a) in Hu; [|apply Hd|done|done|congruence].
    by rewrite (asked_superseded d a b u Hd Ha' Hb' Hsf Hlt Hu) in Hsup.
  - intros i v [[_ [=]]|[_ Ei]]%lookup_insert_Some. by eapply Hs.
Qed.

Lemma FInv_admit id u d own sn :
  own !! id = Some (u, Checked) -> OlderInFlight u d = false ->
  FInv (MkFleet d own sn) -> FInv (MkFleet d (<[id := (u, Sending)]> own) ({[id]} ∪ sn)).
Proof.
  intros E Hold [Hd Ho Ha Hs]. split; simpl in *.
  - done.
  - intros i v ph [[<- [= <- <-]]|[_ Ei]]%lookup_insert_Some; [by eapply Ho|by eapply Ho].
  - intros a b v ph Ha' Hb' Hsf Hlt Ei Hph Hin.
    assert (Eown : exists v' ph', own !! r_id a = Some (v', ph') /\ ph' <> Claimed).
    { apply lookup_insert_Some in Ei as [[<- _]|[_ Ei]]; eauto. }
    destruct Eown as (v' & ph' & Eown & Hph'). apply elem_of_union in Hin as [Hin%elem_of_singleton|Hin];
      [|exact (Ha a b v' ph' Ha' Hb' Hsf Hlt Eown Hph' Hin)].
    destruct (Ho _ _ _ Eown) as (ra & Hra & Hia & Hst & _). destruct (Ho _ _ _ E) as (rb & Hrb & Hib & _ & Hu).
    rewrite (NoDup_ids_inj d ra a) in Hst; [|apply Hd|done|done|congruence].
    rewrite (NoDup_ids_inj d rb b) in Hu; [|apply Hd|done|done|congruence].
    by rewrite (asked_older d a b u Hd Ha' Hb' Hsf Hlt Hu Hst) in Hold.
  - intros i v [[<- _]|[_ Ei]]%lookup_insert_Some; [set_solver|]. apply elem_of_union_r. by eapply Hs.
Qed.

Lemma FInv_fstep s s' : fstep s s' -> FInv s -> FInv s'.
Proof.
  destruct 1 as [remote t n us d own sn d' H|id u d own sn E Hsup|id u d own sn E Hold
    |f t x id d own sn d' Hown He H|f t x d own sn sn' d' Hcl Hf Hown Hsn H|id meta p d own sn Hc]; intros Hi.
  - by eapply FInv_claim.
  - by apply FInv_check.
  - by apply FInv_admit.
  - pose proof (f_db _ Hi) as Hd. simpl in Hd.
    assert (Hx : ~ claims x /\ fresh_job x d /\ forall i, ~ commits i x) by (destruct x; simpl in *; try done; split_and!; tauto).
    destruct Hx as (Hcl & Hf & Hcom).
    eapply (FInv_evolves (fun id => commits id x)); [exact Hi|by eapply DBInv_run| | |naive_solver..].
    + apply (run_evolves _ f t); [apply Hd|done| |done]. intros i Hi'. split; [|apply Hcom]. intros He'.
      assert (i = id) as -> by (destruct x; simpl in *; congruence). rewrite lookup_delete_eq in Hi'. by destruct Hi'.
    + by intros i v [_ ?]%lookup_delete_Some.
  - pose proof (f_db _ Hi) as Hd. simpl in Hd.
    eapply (FInv_evolves (fun id => commits id x)); [exact Hi|by eapply DBInv_run| |done| | |].
    + by apply (run_evolves _ f t); [apply Hd|..].
    + intros i Hi'. by apply Hown.
    + intros i. by apply Hsn.
    + intros i Hi' Hin. apply Hsn. split; [done|]. by apply Hown.
  - pose proof (f_db _ Hi) as Hd. simpl in Hd.
    eapply (FInv_evolves (fun _ => False)); [exact Hi|by apply DBInv_discard| |naive_solver..].
    apply (evolves_trans _ _ _ (del_id id d)); [|by apply evolves_uploads]. apply (evolves_del _ _ (fun r => r_id r = id)).
    intros r Hr Hid _ Hs. rewrite <- Hid in Hc. apply (inv_purging _ Hd r Hr) in Hc. rewrite Hc in Hs. by destruct Hs.
Qed.

Lemma FInv_reach s s' : rtc fstep s s' -> FInv s -> FInv s'.
Proof. induction 1; eauto using FInv_fstep. Qed.
Lemma FInv_idle d : DBInv d -> FInv (MkFleet d ∅ ∅).
Proof. intros Hd. split; simpl; [done|..]; intros *; rewrite lookup_empty; done. Qed.
End Fleet.
