(* ===== verification/JournalRestart.v ===== *)
(** * What a restart leaves behind

    After [Recover] no upload is in flight or half-stopped, every upload that
    will be retried has its payload verified on disk, and no row is gone. *)
From S2P Require Import Prelude Filepath JournalState JournalQueue JournalAdmin Staging JournalCopy JournalRecover JournalTx JournalInv JournalSafety JournalReach JournalLife.
Import Filepath.
Open Scope Z_scope.

Section Restart.
Context {cfg : Config} {ok : CfgOk cfg}.

Lemma oforeach_cons {A} (x : A) l (f : A -> Op jstate jerr unit) s :
  oforeach (x :: l) f s = match f x s with (Ok _, s') => oforeach l f s' | (Err e, s') => (Err e, s') end.
Proof. done. Qed.

(** *** Stops in progress *)

Definition cancel_row (ids : list string) (r : Row) : Row :=
  if decide (r_state r = StateCancelling /\ r_id r ∈ ids) then r <| r_state := StateCancelled |> else r.

Lemma finish_cancels_spec l : cfg_owner = true -> forall s,
  exists d, oforeach l (fun r => if decide (r_state r = StateCancelling) then FinishCancel (r_id r) else oret tt) s
            = (Ok tt, s <| db := d |>)
    /\ uploads d = map (cancel_row (map r_id (filter (fun r => r_state r = StateCancelling) l))) (uploads (db s)).
Proof.
  intros Ho. induction l as [|x l IH]; intros s.
  - exists (db s). split; [by destruct s|]. rewrite <- (map_id (uploads (db s))) at 1. apply map_ext.
    intros r. unfold cancel_row. rewrite decide_False; [done|]. intros [_ ?]. by apply elem_of_nil in H.
  - rewrite oforeach_cons, filter_cons. case_decide as Hx.
    + set (d1 := upd_rows (fun r => r_id r = r_id x /\ r_state r = StateCancelling)
                   (fun r => r <| r_state := StateCancelled |>) (db s)).
      assert (E : FinishCancel (r_id x) s = (Ok tt, s <| db := d1 |>))
        by (unfold FinishCancel, require, obind; by rewrite Ho).
      rewrite E. clear E. destruct (IH (s <| db := d1 |>)) as (d & -> & Hd).
      exists d. split; [done|]. rewrite Hd. change (uploads (db (s <| db := d1 |>))) with (uploads d1).
      unfold d1. rewrite uploads_upd_rows, map_map. apply map_ext. intros r. unfold cancel_row.
      destruct (decide (r_id r = r_id x /\ r_state r = StateCancelling)) as [[E1 E2]|E].
      * rewrite (decide_False (P := r_state (_ : Row) = StateCancelling /\ _)) by (simpl; intros [? _]; done).
        rewrite decide_True; [done|]. split; [done|]. rewrite E1. left.
      * destruct (decide (r_state r = StateCancelling /\ r_id r ∈ map r_id (filter _ l))) as [[A B]|C].
        -- rewrite decide_True; [done|]. split; [done|]. by right.
        -- rewrite decide_False; [done|]. intros [A B]. apply elem_of_cons in B as [B|B]; tauto.
    + destruct (IH s) as (d & Hr & Hd). by exists d.
Qed.

(** *** Interrupted and unreadable uploads *)

Definition settled (f : FS) (r : Row) : Prop :=
  r_state r = StateDead \/ (r_state r = StatePending /\ verifyBlob f (scanUpload r) = None).

Definition runnable (st : State) : Prop := st = StatePending \/ st = StateUploading.

(** The snapshot's uploads are rows, each its own. *)
Definition snapshot (l : list Upload) (d : DB) : Prop :=
  NoDup (map ID l) /\ forall u, u ∈ l -> exists r, r ∈ uploads d /\ scanUpload r = u /\ runnable (r_state r).

Lemma guard_runnable d u r :
  NoDup (ids d) -> r ∈ uploads d -> scanUpload r = u -> runnable (r_state r) ->
  guardNotCancelled (ID u) d = Ok (tt, d).
Proof.
  intros Hnd Hr <- Hst. unfold guardNotCancelled, uploadMutationState. simpl.
  rewrite (proj2 (row_of_Some (r_id r) d r Hnd)) by done. by destruct Hst as [-> | ->].
Qed.

Lemma snapshot_upd u l g d :
  (forall r, r_id (g r) = r_id r) -> snapshot (u :: l) d -> snapshot l (upd_id (ID u) g d).
Proof.
  intros Hg [Hnd Hs]. simpl in Hnd. apply NoDup_cons in Hnd as [Hu Hnd]. split; [done|]. intros v Hv.
  destruct (Hs v) as (r & Hr & Hrv & Hst); [by right|]. exists r. split_and!; try done.
  unfold upd_id. rewrite uploads_upd_rows. apply list_elem_of_fmap. exists r. split; [|done].
  rewrite decide_False; [done|]. intros E. apply Hu. rewrite <- E. subst v.
  apply list_elem_of_fmap. by exists (scanUpload r).
Qed.

Lemma upd_id_cases id g d r' :
  r' ∈ uploads (upd_id id g d) ->
  (r' ∈ uploads d /\ r_id r' <> id) \/ exists r, r ∈ uploads d /\ r_id r = id /\ r' = g r.
Proof.
  unfold upd_id. rewrite uploads_upd_rows, list_elem_of_fmap. intros (r & -> & Hr). case_decide; [right|left]; eauto.
Qed.

(** Rows of the final state, relative to the snapshot still to settle. *)
Definition done_with (f : FS) (l : list Upload) (d d' : DB) : Prop :=
  ids d' = ids d /\ forall r', r' ∈ uploads d' -> (r' ∈ uploads d /\ r_id r' ∉ map ID l) \/ settled f r'.

Lemma done_with_step f u l g d d' :
  (forall r, r_id (g r) = r_id r) ->
  (forall r, r ∈ uploads d -> r_id r = ID u -> settled f (g r)) ->
  done_with f l (upd_id (ID u) g d) d' -> done_with f (u :: l) d d'.
Proof.
  intros Hg Hs [Hids H]. split; [by rewrite Hids, ids_upd_id|]. intros r' Hr'.
  destruct (H r' Hr') as [[Hin Hni]|?]; [|by right].
  apply upd_id_cases in Hin as [[Hin Hne]|(r & Hin & Hid & ->)]; [left|right; by apply Hs].
  split; [done|]. simpl. rewrite not_elem_of_cons. done.
Qed.

Lemma settle_rows_spec l : forall rec s rec' s',
  NoDup (ids (db s)) -> snapshot l (db s) -> settle_rows l rec s = (Ok rec', s') ->
  fsys s' = fsys s /\ done_with (fsys s) l (db s) (db s').
Proof.
  induction l as [|u l IH]; intros rec s rec' s' Hnd Hs H.
  { injection H as _ <-. split; [done|]. split; [done|]. intros r' Hr'. left. split; [done|apply not_elem_of_nil]. }
  destruct (proj2 Hs u ltac:(left)) as (r & Hr & Hru & Hst).
  assert (Hg := guard_runnable (db s) u r Hnd Hr Hru Hst).
  assert (Hrow : forall r0, r0 ∈ uploads (db s) -> r_id r0 = ID u -> r0 = r).
  { intros r0 Hr0 E. apply (NoDup_ids_inj (db s)); try done. by rewrite E, <- Hru. }
  cbn [settle_rows] in H. unfold obind at 1, fs_of in H. destruct (verifyBlob (fsys s) u) as [cause|] eqn:Ev.
  - set (g := fun r : Row => r <| r_state := StateDead |> <| r_last_error := cause |>).
    assert (E : Fail (ID u) cause s = (Ok tt, s <| db := (upd_id (ID u) g (db s))
                  <| dead_letter ::= <[ID u := (cause, unix (now s))]> |> |>)).
    { unfold Fail, obind, now_of, tx, failTx, tbind. by rewrite Hg. }
    unfold obind in H. rewrite E in H. clear E.
    apply IH in H; [|exact (eq_ind_r NoDup Hnd (ids_upd_id (ID u) g (db s) (fun _ => eq_refl)))
      |exact (snapshot_upd u l g (db s) (fun _ => eq_refl) Hs)]. destruct H as [Hf Hd].
    split; [exact Hf|]. apply (done_with_step _ u l g); [done| |exact Hd].
    intros r0 Hr0 Hid. by left.
  - case_decide as Hup.
    + set (g := fun r : Row => r <| r_state := StatePending |> <| r_attempt := r_attempt r + 1 |>
             <| r_next_retry := unixMilli (Some (now s + 0)) |> <| r_last_error := "interrupted by restart" |>).
      assert (E : Retry (ID u) "interrupted by restart" 0 s = (Ok tt, s <| db := upd_id (ID u) g (db s) |>)).
      { unfold Retry, obind, now_of, tx, retryTx, tbind. by rewrite Hg. }
      unfold obind in H. rewrite E in H. clear E.
      apply IH in H; [|exact (eq_ind_r NoDup Hnd (ids_upd_id (ID u) g (db s) (fun _ => eq_refl)))
        |exact (snapshot_upd u l g (db s) (fun _ => eq_refl) Hs)]. destruct H as [Hf Hd].
      split; [exact Hf|]. apply (done_with_step _ u l g); [done| |exact Hd].
      intros r0 Hr0 Hid. rewrite (Hrow r0 Hr0 Hid). right. split; [done|].
      rewrite <- Hru in Ev. exact Ev.
    + apply IH in H; [|done|]. 2: { destruct Hs as [A B]. apply NoDup_cons in A as [_ A].
        split; [done|]. intros v Hv. apply B. by right. }
      destruct H as [Hf [Hi Hd]]. split; [done|]. split; [done|]. intros r' Hr'.
      destruct (Hd r' Hr') as [[Hin Hni]|?]; [|by right].
      destruct (decide (r_id r' = ID u)) as [E|E].
      * right. right. rewrite (Hrow r' Hin E). rewrite Hru. split; [|done].
        destruct Hst as [?|Hst]; [done|]. rewrite <- Hru in Hup. done.
      * left. split; [done|]. simpl. by rewrite not_elem_of_cons.
Qed.

Lemma sweeps_db live copyLive rec s rec' s' :
  (let* gone := sweep_op StagingDir (fun _ => false) in
   do* cleanCopyOrphans copyLive;
   do* sweep_op ObjectsDir (fun n => bool_decide (n ∈ (live : gset string)));
   oret (rec <| OrphanStaging := gone |>)) s = (Ok rec', s') -> db s' = db s.
Proof.
  unfold obind. destruct (sweep_op_db StagingDir (fun _ => false) s) as [H1 _].
  destruct (sweep_op StagingDir _ s) as [[g|] s1]; [|done]. simpl in H1.
  assert (H2 : db (snd (cleanCopyOrphans copyLive s1)) = db s1).
  { unfold cleanCopyOrphans. destruct (io_error _ _); [done|]. apply remove_entries_db. }
  destruct (cleanCopyOrphans copyLive s1) as [[u|] s2]; [|done]. simpl in H2.
  destruct (sweep_op_db ObjectsDir (fun n => bool_decide (n ∈ live)) s2) as [H3 _].
  destruct (sweep_op ObjectsDir _ s2) as [[v|] s3]; [|done]. simpl in H3. intros [= _ <-]. congruence.
Qed.

Lemma cancel_row_id l r : r_id (cancel_row l r) = r_id r.
Proof. unfold cancel_row. by case_decide. Qed.

Lemma runnable_snapshot d :
  NoDup (ids d) ->
  snapshot (map scanUpload (sel (fun r => r_state r = StatePending \/ r_state r = StateUploading) d)) d.
Proof.
  intros Hnd. split.
  - rewrite map_map. eapply sublist_NoDup; [exact Hnd|]. apply (map_sublist r_id), sublist_filter.
  - intros u (r & -> & Hr)%list_elem_of_fmap. apply elem_of_sel in Hr as [? ?]. by exists r.
Qed.

Lemma recover_spec s rec s' :
  DBInv (db s) -> cfg_owner = true -> Recover s = (Ok rec, s') ->
  ids (db s') = ids (db s)
  /\ forall r, r ∈ uploads (db s') ->
       r_state r <> StateUploading /\ r_state r <> StateCancelling
       /\ (r_state r = StatePending -> verifyBlob (fsys s) (scanUpload r) = None).
Proof.
  intros Hd Ho. unfold Recover. rewrite Ho. cbn [negb]. unfold obind at 1, query at 1. intros H.
  destruct (finish_cancels_spec (uploads (db s)) Ho s) as (d1 & Hfc & Hu).
  set (l0 := map r_id (filter (fun r => r_state r = StateCancelling) (uploads (db s)))) in Hu.
  unfold obind at 1, finish_cancels in H. rewrite Hfc in H.
  unfold obind at 1, query at 1 in H.
  destruct (copyRetention (db (s <| db := d1 |>))) as [copyLive|]; [|done].
  unfold obind at 1, query at 1 in H. set (l := map scanUpload _) in H. unfold obind at 1 in H.
  destruct (settle_rows l _ _) as [[rec1|] s2] eqn:Es; [|done]. apply sweeps_db in H.
  assert (Hids1 : ids d1 = ids (db s)).
  { unfold ids. rewrite Hu, map_map. apply map_ext. intros r. apply cancel_row_id. }
  assert (Hnd1 : NoDup (ids d1)) by (rewrite Hids1; apply Hd).
  apply settle_rows_spec in Es; [|exact Hnd1|exact (runnable_snapshot d1 Hnd1)].
  destruct Es as [_ [Hids Hrows]]. rewrite H. split; [rewrite Hids; exact Hids1|]. intros r Hr.
  destruct (Hrows r Hr) as [[Hin Hni]|[->|[-> Hv]]]; [|done|done].
  change (r ∈ uploads d1) in Hin.
  assert (Hst : ~ (r_state r = StatePending \/ r_state r = StateUploading)).
  { intros Hst. apply Hni. apply list_elem_of_fmap. exists (scanUpload r). split; [done|].
    apply list_elem_of_fmap_2, elem_of_sel. split; [done|exact Hin]. }
  split_and!; [tauto| |tauto].
  rewrite Hu in Hin. apply list_elem_of_fmap in Hin as (r0 & -> & Hr0). unfold cancel_row.
  case_decide as Hc; [done|]. intros Hx. apply Hc. split; [done|].
  apply list_elem_of_fmap_2, list_elem_of_filter. done.
Qed.
End Restart.
