(* ===== verification/Demo.v ===== *)
(** * A concrete journal

    A configuration and states on which the journal's operations evaluate: a
    directory /j with its three private sub-directories, a toy digest (the
    bytes themselves, as text) and two file identifiers. *)
From S2P Require Import Prelude Filepath JournalState JournalQueue JournalAdmin Staging JournalCopy JournalRecover JournalTx JournalInv JournalSafety JournalReach JournalLife JournalOrder.
Import Filepath.
Open Scope Z_scope.

Definition demo_digit (b : Z) : Ascii.ascii := Ascii.ascii_of_nat (97 + Z.to_nat (b mod 16)).
Fixpoint demo_text (data : list Z) : string :=
  match data with [] => "" | b :: data' => String (demo_digit b) (demo_text data') end.

#[global] Instance demo : Config :=
  MkConfig "/j" "/" true DurabilityPower (fun _ _ => false)
    (fun id => bool_decide (id ∈ ["a"; "b"; "c"])) (fun alg data => "x" +:+ demo_text data).

#[global] Instance demo_ok : CfgOk demo.
Proof.
  refine {| root := ["j"] |}.
  - constructor; [|constructor]. apply (bool_decide_unpack (plain _)). vm_compute. done.
  - reflexivity.
  - reflexivity.
  - intros id Hid. simpl in Hid. apply bool_decide_eq_true in Hid.
    repeat (apply elem_of_cons in Hid as [->|Hid]; [apply (bool_decide_unpack (plain _)); vm_compute; done|]).
    by apply elem_of_nil in Hid.
Defined.

Definition demo_fs : FS :=
  MkFS (list_to_map [("/j", 1); ("/j/objects", 2); ("/j/copies", 3); ("/j/staging", 4)])
       (list_to_map [(1, MkInode KDir []); (2, MkInode KDir []); (3, MkInode KDir []); (4, MkInode KDir [])]).

Definition demo_db : DB := MkDB [] ∅ ∅ ∅ ∅ ∅ ∅ ∅ ∅ ∅.
Definition demo0 : jstate := MkJState demo_db demo_fs ∅ ∅ ∅ (1000 * Second).

Lemma demo_fresh : Fresh demo0.
Proof.
  split; try reflexivity. intros k [i Hk].
  assert (HF : map_Forall (fun k _ => IsAbs k = true /\ Clean k = k) (names demo_fs))
    by (apply (bool_decide_unpack _); vm_compute; done).
  destruct (HF k i Hk) as [Ha Hc]. destruct (Clean_rooted k Ha) as (l & Hl & E). exists l. split; congruence.
Qed.

(** The bytes a, b of file 7 staged as "a", then handed to the queue. *)
Definition demo_staging : Staging := snd (WriteAt (newStagingState "a" "/j/staging/a.part" ["sha1"]) [1; 2] 0 true 2 false).
Definition demo_hashes : gmap string string := {["sha1" := "xbc"; "crc32c" := "xbc"]}.

Definition demo_upload : Upload :=
  MkUpload "a" "a" "r" "root" "f.txt" "/j/objects/sha1-xbc" 0 demo_hashes StateUnset 0 None "" "" ∅ 7 None
    false false "" "" "" "".

Definition demo1 : jstate := snd (NewStaging "a" ["sha1"] demo0).
Definition demo2 : jstate := snd (CommitStaging demo_staging demo_hashes demo1).
Definition demo3 : jstate := snd (Commit demo_upload (MkCommitter 0 0) demo2).

Example demo_committed : map ID (All (db demo3)) = ["a"] /\ stagedObjects demo3 = ∅
  /\ bool_decide (is_Some (names (fsys demo3) !! "/j/objects/sha1-xbc")) = true.
Proof. vm_compute. done. Qed.

Lemma demo_plain n : bool_decide (plain n) = true -> plain n.
Proof. apply bool_decide_eq_true_1. Qed.

Lemma demo_in_staging : in_staging demo_staging.
Proof. exists "a.part". split; [by apply demo_plain|]. by vm_compute. Qed.

(** The same states by single steps. *)
Lemma demo_step1 : jstep demo0 demo1.
Proof. apply step_io, step_newStaging. reflexivity. Qed.
Lemma demo_step2 : jstep demo1 demo2.
Proof. apply step_io, step_commitStaging; [apply demo_in_staging|by apply demo_plain]. Qed.

(** The method's result as an equation between outcome and final state. *)
Definition out_of {A} (d : A) (m : res jerr A * jstate) : A := match fst m with Ok a => a | Err _ => d end.
Lemma ok_run {A} (a : A) (m : res jerr A * jstate) :
  match fst m with Ok _ => true | Err _ => false end = true -> m = (Ok (out_of a m), snd m).
Proof. unfold out_of. by destruct m as [[|] ?]. Qed.

Lemma demo_reach2 : rtc jstep demo0 demo2.
Proof. eapply rtc_l; [apply demo_step1|]. apply rtc_once, demo_step2. Qed.
Lemma demo_inv2 : Inv demo2.
Proof. eapply Inv_reach; [apply demo_reach2|apply Inv_fresh, demo_fresh]. Qed.
Lemma demo_reserved2 : stagedObjects demo2 !! "a" = Some "/j/objects/sha1-xbc".
Proof. vm_compute. reflexivity. Qed.

Lemma demo_reach3 : rtc jstep demo0 demo3.
Proof.
  etransitivity; [apply demo_reach2|]. apply steps_Commit; [apply demo_inv2|].
  right. exists "a". apply demo_reserved2.
Qed.
Lemma demo_inv3 : Inv demo3.
Proof. eapply Inv_reach; [apply demo_reach3|apply Inv_fresh, demo_fresh]. Qed.

(** A second, empty version of the same file. *)
Definition demo_upload_b : Upload :=
  demo_upload <| ID := "b" |> <| StagingID := "" |> <| BlobPath := "" |>.
Definition demo4 : jstate := snd (Commit demo_upload_b (MkCommitter 0 0) demo3).
Lemma demo_inv4 : Inv demo4.
Proof.
  eapply Inv_reach; [|apply demo_inv3]. apply steps_Commit; [apply demo_inv3|]. by left.
Qed.

(** The first upload stopped by the operator, then discarded. *)
Definition demo_stopped : jstate := snd (RequestCancel "a" demo3).
Lemma demo_inv_stopped : Inv demo_stopped.
Proof. eapply Inv_reach; [apply (steps_call (CRequestCancel "a"))|apply demo_inv3]. Qed.
Definition demo_purging : jstate := snd (BeginUploadCleanup "a" "m" demo_stopped).
Lemma demo_inv_purging : Inv demo_purging.
Proof. eapply Inv_reach; [apply (steps_call (CBeginUploadCleanup "a" "m"))|apply demo_inv_stopped]. Qed.

Definition demo_row (i : nat) : Row :=
  nth i (uploads (db demo4)) (MkRow 0 "" "" "" "" "" 0 ∅ StateUnset 0 0 "" "" ∅ 0 0 false false "" "" "" "" 0).
Lemma demo_rows4 : uploads (db demo4) = [demo_row 0; demo_row 1].
Proof. vm_compute. reflexivity. Qed.

(** The stopped upload with its two bytes on disk, ready to be resumed. *)
Definition demo_resumable : jstate :=
  demo_stopped <| db ::= upd_id "a" (fun r => r <| r_size := 2 |>) |>
               <| fsys ::= fun f => SetData f "/j/objects/sha1-xbc" [1; 2] |>.
Definition demo_prepared : PreparedUploadResume :=
  out_of (MkPrepared demo_upload 0) (PrepareUploadResume "a" demo_resumable).
Lemma demo_prepare : PrepareUploadResume "a" demo_resumable = (Ok demo_prepared, demo_resumable).
Proof.
  etransitivity; [apply (ok_run (MkPrepared demo_upload 0)); vm_compute; reflexivity|].
  by f_equal.
Qed.

Lemma demo_restop :
  RequestCancel "a" demo_resumable
  = (Ok (out_of StateUnset (RequestCancel "a" demo_resumable)), snd (RequestCancel "a" demo_resumable)).
Proof. apply ok_run. vm_compute. reflexivity. Qed.
Lemma demo_resume :
  CommitResume demo_prepared demo_resumable = (Ok tt, snd (CommitResume demo_prepared demo_resumable)).
Proof.
  assert (H : fst (CommitResume demo_prepared demo_resumable) = Ok tt) by (vm_compute; reflexivity).
  by rewrite <- H, <- surjective_pairing.
Qed.
