(* ===== verification/JournalProps.v ===== *)
(** * The journal's guarantees

    The theorems a user of internal/journal relies on, each followed by an
    instance on the concrete journal of Demo. *)
From S2P Require Import Prelude Filepath JournalState JournalQueue JournalAdmin Staging JournalCopy JournalRecover JournalTx JournalInv JournalSafety JournalReach JournalLife JournalOrder JournalRestart Demo.
Import Filepath.
Open Scope Z_scope.

(** ** Retention *)

Section Retention.
Context {cfg : Config} {ok : CfgOk cfg}.

(** C1: in every state a journal can reach, by any interleaving of its
    callers' steps and of restarts, the file behind each queued upload that
    is not being discarded, each staging reservation and each copy that has
    not been handed over is still on disk. *)
Theorem journal_retains (s0 s : jstate) :
  Fresh s0 -> rtc jstep s0 s ->
  (forall r, r ∈ uploads (db s) -> r_state r <> StatePurging -> r_blob r <> "" ->
     is_Some (names (fsys s) !! abs (r_blob r)))
  /\ (forall id p, stagedObjects s !! id = Some p -> is_Some (names (fsys s) !! p))
  /\ (forall id c p, copy_jobs (db s) !! id = Some c -> c_state c <> CopySubmitted ->
        copyPath id = Some p -> is_Some (names (fsys s) !! p)).
Proof.
  intros Hf Hr. pose proof (Inv_reach _ _ Hr (Inv_fresh _ Hf)) as Hi. split_and!.
  - intros r Hin Hst Hb. rewrite blob_ok_abs by (by apply Hi).
    apply Hi. by eapply needed_row.
  - intros id p Hp. apply Hi. by eapply needed_staged.
  - intros id c p Hc Hst Hp. apply Hi. by eapply needed_copy.
Qed.

(** the tables stay consistent in every reachable state: upload ids are
    unique and rowids follow commit order, a row is in state purging exactly
    when its cleanup intent is recorded, a discarded id has no row, and two
    copies being prepared never target the same destination. *)
Theorem journal_tables (s0 s : jstate) :
  Fresh s0 -> rtc jstep s0 s ->
  NoDup (ids (db s)) /\ StronglySorted Z.lt (map rowid (uploads (db s)))
  /\ (forall r, r ∈ uploads (db s) ->
        r_state r = StatePurging <-> is_Some (upload_cleanup (db s) !! r_id r))
  /\ (forall id, is_Some (upload_discarded (db s) !! id) -> row_of id (db s) = None)
  /\ (forall i j a b, copy_jobs (db s) !! i = Some a -> copy_jobs (db s) !! j = Some b ->
        active_copy (c_state a) -> active_copy (c_state b) -> dest a = dest b -> i = j).
Proof.
  intros Hf Hr. destruct (i_db _ (Inv_reach _ _ Hr (Inv_fresh _ Hf))) as [I1 I2 I3 I4 I5 I6 I7].
  split_and!; try done. intros id Hid. apply row_of_None. intros r Hr' E.
  apply (I5 id Hid), elem_of_ids. eauto.
Qed.

(** every public method, run to completion with whatever outcome, is a
    sequence of the journal's atomic steps, so any program of calls is. *)
Theorem calls_are_steps (cs : list call) (s : jstate) :
  rtc jstep s (fold_left (fun s c => exec c s) cs s).
Proof.
  revert s. induction cs as [|c cs IH]; intros s; simpl; [apply rtc_refl|].
  etransitivity; [apply steps_call|apply IH].
Qed.

(** C25: when Commit reports success for an object CommitStaging reserved, the
    directory was flushed, the queue holds a row with that object, size and
    digests, the reservation is gone, and the object is on disk. *)
Theorem commit_ack (u : Upload) (c c' : committer) (s s' : jstate) :
  Inv s -> StagingID u <> "" -> stagedObjects s !! StagingID u = Some (BlobPath u) ->
  Commit u c s = (Ok c', s') ->
  syncObjects = true /\ rtc jstep s s'
  /\ (exists r, row_of (ID u) (db s') = Some r /\ r_blob r = BlobPath u /\ r_size r = Size u
        /\ r_hashes r = Hashes u /\ r_remote r = Remote u /\ r_name r = Name u
        /\ r_state r = if decide (UState u = StateUnset) then StatePending else UState u)
  /\ stagedObjects s' !! StagingID u = None /\ is_Some (names (fsys s') !! BlobPath u).
Proof.
  intros Hi Hne Hst H.
  assert (Hres : reserved s u) by (right; eauto).
  pose proof (steps_Commit u c s Hi Hres) as Hsteps. rewrite H in Hsteps. simpl in Hsteps.
  destruct (commit_Ok u c c' s s' H) as (Hsync & d & Hins & ->).
  destruct (insertUploadTx_row _ _ _ _ _ Hins) as (r & Hr & Hrest).
  assert (Habs : abs (BlobPath u) = BlobPath u).
  { destruct (i_staged _ Hi _ _ Hst) as (n & Hn & E). rewrite E. apply abs_under; [apply objects_plain|done]. }
  assert (Hrel : snd (releaseStagedObject (StagingID u) (BlobPath u) (s <| db := d |>))
    = s <| db := d |> <| stagedObjects ::= delete (StagingID u) |>
        <| stagedRefs ::= fun m => if decide (default 0 (stagedRefs s !! BlobPath u) - 1 = 0)
             then delete (BlobPath u) m else <[BlobPath u := default 0 (stagedRefs s !! BlobPath u) - 1]> m |>).
  { unfold releaseStagedObject. rewrite Habs. rewrite decide_False by done. by rewrite decide_True. }
  rewrite Hrel in *. split_and!; try done.
  - by exists r.
  - simpl. apply lookup_delete_eq.
  - simpl. apply Hi. by eapply needed_staged.
Qed.
End Retention.

Lemma journal_retains_witness :
  Fresh demo0 /\ rtc jstep demo0 demo2 /\ is_Some (names (fsys demo2) !! "/j/objects/sha1-xbc").
Proof.
  split; [apply demo_fresh|]. split; [apply demo_reach2|].
  destruct (journal_retains demo0 demo2 demo_fresh demo_reach2) as (_ & H & _).
  apply (H "a"). apply demo_reserved2.
Defined.

Lemma journal_tables_witness : Fresh demo0 /\ rtc jstep demo0 demo3 /\ NoDup (ids (db demo3)).
Proof.
  split; [apply demo_fresh|]. split; [apply demo_reach3|].
  apply (journal_tables demo0 demo3 demo_fresh demo_reach3).
Defined.

Lemma commit_ack_witness :
  exists c', Commit demo_upload (MkCommitter 0 0) demo2 = (Ok c', demo3)
    /\ is_Some (names (fsys demo3) !! "/j/objects/sha1-xbc").
Proof.
  assert (E : exists c', Commit demo_upload (MkCommitter 0 0) demo2 = (Ok c', demo3)).
  { eexists. unfold demo3. rewrite (surjective_pairing (Commit _ _ demo2)).
    by f_equal. }
  destruct E as [c' E]. exists c'. split; [exact E|].
  apply (commit_ack demo_upload (MkCommitter 0 0) c' demo2 demo3);
    [apply demo_inv2|discriminate|apply demo_reserved2|exact E].
Defined.

(** ** Group commit *)

(** C30: draining the group committer answers every queued request, in order,
    and with the verdict and the database a commit of each on its own would
    give; if the object directory cannot be flushed, every caller gets the
    error and no row is written. *)
Theorem group_commit_sequential `{cfg : Config} (queue : list Upload) (c : committer) (s : jstate) :
  let '(vs, _, s') := drain (length queue) queue c s in
  if syncObjects then (vs, s') = insert_each s queue
  else vs = map (fun _ => Err (ErrIO "sync objects")) queue /\ s' = s.
Proof.
  destruct syncObjects eqn:Hs.
  - exact (drain_each (length queue) queue c s Hs (le_n _)).
  - pose proof (drain_unsynced (length queue) queue c s Hs (le_n _)) as E.
    destruct (drain (length queue) queue c s) as [[vs c'] s']. by injection E as -> _ ->.
Qed.

(** ** Claiming and versions *)

Section Queue.
Context {cfg : Config}.

(** Claim hands out the oldest due uploads of a remote, at most [n],
    only published pending ones whose retry time has come; it marks exactly
    those uploading and leaves every other row alone. *)
Theorem claim_oldest_due (remote : string) (n : Z) (s s' : jstate) (us : list Upload) :
  DBInv (db s) -> Claim remote n s = (Ok us, s') ->
  let due := sel (claimable remote (now s)) (db s) in
  map ID us = map r_id (limit n due)
  /\ (0 <= n -> Z.of_nat (length us) <= n)
  /\ (forall r, r ∈ uploads (db s) -> r_id r ∈ map ID us ->
        r_remote r = remote /\ r_state r = StatePending /\ r_next_retry r <= now s / Millisecond /\ r_needs_publish r = false)
  /\ uploads (db s') = map (fun r => if decide (r_id r ∈ map ID us)
                                     then r <| r_state := StateUploading |> else r) (uploads (db s))
  /\ (forall r r', r ∈ due -> r' ∈ due -> r_id r ∈ map ID us -> r_id r' ∉ map ID us -> rowid r < rowid r').
Proof.
  intros Hd H due. destruct (claim_rows remote n s us s' Hd H) as (H1 & H2 & H3 & H4). split_and!; try done.
  intros r Hr Hid. rewrite H1 in Hid. apply list_elem_of_fmap in Hid as (r0 & E & Hr0).
  apply elem_of_limit, elem_of_sel in Hr0 as [Hc Hr0].
  assert (r = r0) as ->; [|exact Hc].
  apply (inj Some). rewrite <- (proj2 (row_of_Some (r_id r) (db s) r (inv_ids _ Hd)) (conj Hr eq_refl)).
  by apply row_of_Some; [apply Hd|].
Qed.

(** an upload that one worker claimed is not handed to another: a later
    Claim, at any time and for any remote, returns none of them as long as
    nothing has moved them out of uploading. *)
Theorem claim_exclusive (remote remote' : string) (n n' t : Z) (s s1 s2 : jstate) (us us' : list Upload) :
  DBInv (db s) -> Claim remote n s = (Ok us, s1) -> Claim remote' n' (s1 <| now := t |>) = (Ok us', s2) ->
  forall id, id ∈ map ID us -> id ∉ map ID us'.
Proof.
  intros Hd H1 H2 id Hid Hid'.
  assert (Hd1 : DBInv (db s1)).
  { unfold Claim, obind, now_of, tx in H1. destruct (claimTx _ _ _ _) as [[? d]|] eqn:E; [|done].
    injection H1 as <- <-. eapply ev_DBInv; [|exact Hd]. eapply ev_claimTx; [exact E|apply Hd]. }
  destruct (claim_rows remote n s us s1 Hd H1) as (_ & _ & Hu & _).
  destruct (claim_rows remote' n' (s1 <| now := t |>) us' s2) as (Hm & _); [simpl; exact Hd1|exact H2|].
  rewrite Hm in Hid'. apply list_elem_of_fmap in Hid' as (r & -> & Hr).
  apply elem_of_limit, elem_of_sel in Hr as [(_ & Hst & _) Hr]. change (r ∈ uploads (db s1)) in Hr.
  rewrite Hu in Hr. apply list_elem_of_fmap in Hr as (r0 & -> & Hr0).
  revert Hst Hid. case_decide as Hc; [done|]. intros _ Hin. done.
Qed.

(** C27: at most one version of a file is sent at a time, and none after a
    newer one.  Start from any well-formed tables with no claim held, and let
    any number of workers claim, ask, send and settle while everybody else
    runs any other transaction of the journal (new commits included); a worker
    sends only after the journal answered both its questions with no, and
    nobody but its worker ends or recommits a claim.  Then of two versions of
    one file (same remote and inode, neither tombstoned) never both are being
    sent; while the older is, the newer one's worker is told to wait; and once
    the newer has been sent, for as long as its row is there, the older one is
    not being sent and its worker, still to ask, is told it is superseded. *)
Theorem one_version_at_a_time (d0 : DB) (s : fleet) (a b : Row) :
  DBInv d0 -> rtc fstep (MkFleet d0 ∅ ∅) s ->
  a ∈ uploads (tables s) -> b ∈ uploads (tables s) -> same_file a b -> rowid a < rowid b ->
  (forall u v, owned s !! r_id a = Some (u, Sending) -> owned s !! r_id b <> Some (v, Sending))
  /\ (forall u v ph, owned s !! r_id a = Some (u, Sending) -> owned s !! r_id b = Some (v, ph) ->
        ph <> Sending /\ OlderInFlight v (tables s) = true)
  /\ (r_id b ∈ sent s -> forall u ph, owned s !! r_id a = Some (u, ph) ->
        ph = Claimed /\ Superseded u (tables s) = true).
Proof.
  intros Hd Hr Ha Hb Hf Hlt. apply FInv_reach in Hr; [|by apply FInv_idle]. destruct Hr as [Hi Ho Hah Hs].
  assert (Hsnap : forall r u ph, r ∈ uploads (tables s) -> owned s !! r_id r = Some (u, ph) ->
                    snapshot_of r u /\ in_flight (r_state r)).
  { intros r u ph Hr E. destruct (Ho _ _ _ E) as (r' & Hr' & Hid & Hst & Hu).
    by rewrite (NoDup_ids_inj _ r r' (inv_ids _ Hi)). }
  assert (H1 : forall u v, owned s !! r_id a = Some (u, Sending) -> owned s !! r_id b <> Some (v, Sending)).
  { intros u v Eu Ev. apply (Hah a b u Sending Ha Hb Hf Hlt Eu); [done|]. by eapply Hs. }
  split_and!; [exact H1|..].
  - intros u v ph Eu Ev. split; [intros ->; by eapply H1|].
    apply (asked_older _ a b); [done..|by eapply Hsnap|by eapply (Hsnap a)].
  - intros Hin u ph Eu. destruct (Hsnap a u ph Ha Eu) as [Hu _]. split; [|by apply (asked_superseded _ a b)].
    destruct ph; [done|exfalso..]; by apply (Hah a b u _ Ha Hb Hf Hlt Eu).
Qed.

(** The two questions, on the rows themselves: of two versions of a file one
    is superseded, the newer waits for an older one in flight or queued, and
    a version is superseded only by a newer one. *)
Theorem versions_ordered (d : DB) (a b : Row) :
  DBInv d -> a ∈ uploads d -> b ∈ uploads d -> same_file a b -> a <> b ->
  (Superseded (scanUpload a) d = true \/ Superseded (scanUpload b) d = true)
  /\ (rowid a < rowid b ->
      r_state a = StatePending \/ r_state a = StateUploading \/ r_state a = StateCancelling ->
      OlderInFlight (scanUpload b) d = true)
  /\ (Superseded (scanUpload a) d = true ->
      exists c, c ∈ uploads d /\ same_file a c /\ rowid a < rowid c).
Proof.
  intros Hd Ha Hb Hf Hne. split_and!.
  - destruct (rowid_total d a b Hd Ha Hb) as [?|[Hlt|Hlt]]; [done|left|right].
    + by eapply older_is_superseded.
    + eapply (older_is_superseded d b a); try done. unfold same_file in *. naive_solver congruence.
  - intros Hlt. by apply (newer_waits d a b).
  - intros Hs. apply superseded_newer; [done|apply Hd|done].
Qed.
End Queue.

Lemma claim_oldest_due_witness :
  Claim "r" 5 demo3 = (Ok (out_of [] (Claim "r" 5 demo3)), snd (Claim "r" 5 demo3))
  /\ map ID (out_of [] (Claim "r" 5 demo3)) = ["a"].
Proof.
  assert (E := ok_run [] (Claim "r" 5 demo3) eq_refl). split; [exact E|].
  destruct (claim_oldest_due "r" 5 demo3 _ _ (i_db _ demo_inv3) E) as (H & _).
  rewrite H. vm_compute. reflexivity.
Defined.

Lemma claim_exclusive_witness :
  let s1 := snd (Claim "r" 5 demo3) in
  "a" ∉ map ID (out_of [] (Claim "r" 5 (s1 <| now := 2000 * Second |>))).
Proof.
  apply (claim_exclusive "r" "r" 5 5 (2000 * Second) demo3 (snd (Claim "r" 5 demo3))
           (snd (Claim "r" 5 ((snd (Claim "r" 5 demo3)) <| now := 2000 * Second |>)))
           (out_of [] (Claim "r" 5 demo3)) _ (i_db _ demo_inv3)).
  - exact (ok_run [] (Claim "r" 5 demo3) eq_refl).
  - apply ok_run. reflexivity.
  - apply (bool_decide_unpack _). vm_compute. done.
Defined.

(** One worker is sending the first version when the second is committed and
    claimed. *)
Definition tx_val {A} (x : A) (m : res jerr (A * DB)) : A := match m with Ok (a, _) => a | Err _ => x end.
Definition tx_db {A} (m : res jerr (A * DB)) : DB := match m with Ok (_, d) => d | Err _ => demo_db end.
Lemma tx_ran {A} (x : A) (m : res jerr (A * DB)) :
  match m with Ok _ => true | Err _ => false end = true -> m = Ok (tx_val x m, tx_db m).
Proof. by destruct m as [[a d]|e]. Qed.

Definition demo_claim1 := claimTx "r" (now demo3) 1 (db demo3).
Definition demo_held1 : Upload := nth 0 (tx_val [] demo_claim1) demo_upload.
Definition demo_sending : gmap string (Upload * phase) :=
  <["a" := (demo_held1, Sending)]> (<["a" := (demo_held1, Checked)]> (new_claims (tx_val [] demo_claim1) ∪ ∅)).
Definition demo_commit2 := insertUploadTx (fsys demo3) (now demo3) demo_upload_b (tx_db demo_claim1).
Definition demo_claim2 := claimTx "r" (now demo3) 1 (tx_db demo_commit2).
Definition demo_held2 : Upload := nth 0 (tx_val [] demo_claim2) demo_upload.
Definition demo_fleet : fleet :=
  MkFleet (tx_db demo_claim2) (new_claims (tx_val [] demo_claim2) ∪ demo_sending) ({["a"]} ∪ ∅).

Lemma demo_fleet_reached : rtc fstep (MkFleet (db demo3) ∅ ∅) demo_fleet.
Proof.
  eapply rtc_l; [apply (fleet_claim "r" (now demo3) 1 _ _ _ _ _ (tx_ran [] demo_claim1 eq_refl))|].
  eapply rtc_l; [apply (fleet_check "a" demo_held1); vm_compute; reflexivity|].
  eapply rtc_l; [apply (fleet_admit "a" demo_held1); vm_compute; reflexivity|].
  eapply rtc_l; [eapply (fleet_other (fsys demo3) (now demo3) (TInsert demo_upload_b) _ _ _ ({["a"]} ∪ ∅))|].
  - by intros [].
  - exact I.
  - intros id Hid. split; [by intros []|]. intros E. simpl in E. subst id. vm_compute in Hid. by destruct Hid.
  - intros id. split; [|by intros [? _]]. intros Hid. split; [done|]. intros E. simpl in E. subst id.
    apply elem_of_union in Hid as [Hid%elem_of_singleton|Hid%elem_of_empty]; [discriminate Hid|done].
  - apply (tx_ran tt demo_commit2 eq_refl).
  - apply rtc_once. apply (fleet_claim "r" (now demo3) 1 _ _ _ _ _ (tx_ran [] demo_claim2 eq_refl)).
Qed.

Definition demo_version (i : nat) : Row := nth i (uploads (tables demo_fleet)) (demo_row 0).

Lemma one_version_at_a_time_witness :
  rtc fstep (MkFleet (db demo3) ∅ ∅) demo_fleet /\ OlderInFlight demo_held2 (tables demo_fleet) = true.
Proof.
  split; [exact demo_fleet_reached|].
  assert (E : uploads (tables demo_fleet) = [demo_version 0; demo_version 1]) by (vm_compute; reflexivity).
  assert (Hf : same_file (demo_version 0) (demo_version 1)) by (vm_compute; split_and!; done).
  destruct (one_version_at_a_time (db demo3) demo_fleet (demo_version 0) (demo_version 1) (i_db _ demo_inv3)
              demo_fleet_reached) as (_ & H & _).
  - rewrite E. left.
  - rewrite E. right. left.
  - exact Hf.
  - vm_compute. reflexivity.
  - destruct (H demo_held1 demo_held2 Claimed) as [_ H2]; [vm_compute; reflexivity|vm_compute; reflexivity|exact H2].
Defined.

Lemma versions_ordered_witness :
  same_file (demo_row 0) (demo_row 1)
  /\ (Superseded (scanUpload (demo_row 0)) (db demo4) = true \/ Superseded (scanUpload (demo_row 1)) (db demo4) = true)
  /\ OlderInFlight (scanUpload (demo_row 1)) (db demo4) = true.
Proof.
  assert (Hf : same_file (demo_row 0) (demo_row 1)) by (vm_compute; split_and!; done).
  destruct (versions_ordered (db demo4) (demo_row 0) (demo_row 1) (i_db _ demo_inv4)) as (H1 & H2 & _).
  - rewrite demo_rows4. left.
  - rewrite demo_rows4. right. left.
  - exact Hf.
  - intros E. apply (f_equal rowid) in E. vm_compute in E. discriminate E.
  - split_and!; [exact Hf|exact H1|]. apply H2; [vm_compute; reflexivity|]. left. vm_compute. reflexivity.
Defined.

(** ** Stop, resume, discard *)

Section Decisions.
Context {cfg : Config} {ok : CfgOk cfg}.

(** C36: A stop that was accepted survives everything but an explicit resume or
    discard of that upload: from any state with the journal's invariant, after
    any further steps of any caller, worker reports and restarts included, the
    upload is still stopped and its payload still on disk. *)
Theorem stop_is_durable (id : string) (st : State) (s s1 s2 : jstate) :
  Inv s -> RequestCancel id s = (Ok st, s1) -> rtc (undecided id) s1 s2 ->
  exists r r2, row_of id (db s) = Some r /\ row_of id (db s2) = Some r2
    /\ stopped (r_state r2) /\ r_blob r2 = r_blob r
    /\ (r_blob r <> "" -> is_Some (names (fsys s2) !! abs (r_blob r))).
Proof.
  intros Hi Hc Hr. destruct (requestCancel_Ok id s st s1 Hc) as (r & Hrow & Hh & _ & Hstep).
  destruct (halted_reach id (r_blob r) s1 s2 Hr (Inv_step _ _ Hstep Hi) Hh) as (Hi2 & r2 & Hr2 & Hs2 & Hb2).
  exists r, r2. split_and!; try done. intros Hb.
  assert (Hin : r2 ∈ uploads (db s2)) by (by eapply row_of_Some_1).
  assert (Hhold : holds_blob r2) by (split; [intros E; rewrite E in Hs2; by destruct Hs2|congruence]).
  rewrite <- Hb2, blob_ok_abs by (by apply Hi2). apply Hi2. by eapply needed_row.
Qed.

(** a stop requested after a resume was prepared wins: once the operator
    has stopped the upload again, committing the earlier preparation, bound
    or not, reports the change and alters nothing. *)
Theorem stop_beats_resume (id : string) (p : PreparedUploadResume) (st : State) (b : UploadBinding)
    (s s1 s2 s3 : jstate) :
  PrepareUploadResume id s = (Ok p, s1) ->
  revision_of id (db s) <= revision_of id (db s2) ->
  RequestCancel id s2 = (Ok st, s3) ->
  CommitResume p s3 = (Err ErrResumeChanged, s3) /\ CommitBound p b s3 = (Err ErrResumeChanged, s3).
Proof.
  intros Hp Hle Hc. destruct (prepareResume_Ok id s p s1 Hp) as (_ & _ & Hrev & r & Hr & Hu & _).
  destruct (requestCancel_Ok id s2 st s3 Hc) as (_ & _ & _ & Hrev3 & _).
  assert (Hid : ID (p_u p) = id) by (rewrite Hu; by eapply row_of_Some_1).
  assert (Hst : forall b, resumeTx p b (db s3) = Err ErrResumeChanged)
    by (intros; apply resumeTx_stale; rewrite Hid; lia).
  unfold CommitResume, CommitBound, obind, require, tx. split; [by rewrite Hst|].
  destruct (forallb _ _); simpl; [by rewrite Hst|done].
Qed.

(** a committed resume found the upload still stopped with the target it
    had when prepared, after its retained payload was re-read and matched
    its recorded checksum; it requeues the upload from scratch, and the same
    preparation cannot be used twice. *)
Theorem resume_verified_once (id : string) (p : PreparedUploadResume) (s s1 s2 s3 : jstate) :
  PrepareUploadResume id s = (Ok p, s1) -> CommitResume p s2 = (Ok tt, s3) ->
  (exists data, ReadFile (fsys s) (abs (BlobPath (p_u p))) = Some data
      /\ Hashes (p_u p) !! "crc32c" = Some (crc32c data))
  /\ (exists r, row_of id (db s2) = Some r /\ r_state r = StateCancelled /\ same_target r (p_u p))
  /\ (exists r, row_of id (db s3) = Some r /\ r_state r = StatePending /\ r_attempt r = 0
        /\ r_session r = ∅ /\ r_blob r = BlobPath (p_u p) /\ parts_of id (db s3) = [])
  /\ CommitResume p s3 = (Err ErrResumeChanged, s3).
Proof.
  intros Hp Hc. destruct (prepareResume_Ok id s p s1 Hp) as (_ & Hok & _ & r & Hr & Hu & _).
  assert (Hid : ID (p_u p) = id) by (rewrite Hu; by eapply row_of_Some_1).
  unfold CommitResume, tx in Hc. destruct (resumeTx p None (db s2)) as [[a d]|] eqn:E; [|done].
  injection Hc as _ <-. destruct (resumeTx_Ok _ _ _ _ _ E) as (r2 & Hr2 & Hst2 & _ & Ht & _ & r3 & Hr3 & Hst3 & Ha & Hs & Hb & Hparts).
  rewrite Hid in *. split_and!.
  - by apply resume_content_checksum.
  - by exists r2.
  - exists r3. split_and!; try done. rewrite Hb. apply Ht.
  - unfold CommitResume, tx. cbn [db upd]. rewrite (resumeTx_not_cancelled p None d r3); [done|by rewrite Hid|by rewrite Hst3].
Qed.

End Decisions.

Lemma stop_is_durable_witness :
  RequestCancel "a" demo3 = (Ok StateCancelled, demo_stopped)
  /\ exists r r2, row_of "a" (db demo3) = Some r
       /\ row_of "a" (db (snd (Recover (demo_stopped <| now := 0 |>)))) = Some r2 /\ stopped (r_state r2)
       /\ r_blob r2 = r_blob r.
Proof.
  assert (E : RequestCancel "a" demo3 = (Ok StateCancelled, demo_stopped)).
  { etransitivity; [apply (ok_run StateUnset); vm_compute; reflexivity|].
    apply (f_equal2 pair); [vm_compute; reflexivity|reflexivity]. }
  split; [exact E|].
  destruct (stop_is_durable "a" StateCancelled demo3 demo_stopped
              (snd (Recover (demo_stopped <| now := 0 |>))) demo_inv3 E) as (r & r2 & H1 & H2 & H3 & H4 & _).
  - eapply rtc_l; [apply und_io, step_tick|]. apply rtc_once, und_io, step_recover. vm_compute. reflexivity.
  - exists r, r2. split_and!; [exact H1|exact H2|exact H3|exact H4].
Defined.

Lemma stop_beats_resume_witness :
  exists p, PrepareUploadResume "a" demo_resumable = (Ok p, demo_resumable)
    /\ CommitResume p (snd (RequestCancel "a" demo_resumable))
       = (Err ErrResumeChanged, snd (RequestCancel "a" demo_resumable)).
Proof.
  exists demo_prepared. split; [apply demo_prepare|].
  exact (proj1 (stop_beats_resume "a" demo_prepared (out_of StateUnset (RequestCancel "a" demo_resumable))
           (MkBinding "" "" "" "") demo_resumable demo_resumable demo_resumable
           (snd (RequestCancel "a" demo_resumable)) demo_prepare (Z.le_refl _) demo_restop)).
Defined.

Lemma resume_verified_once_witness :
  exists r, row_of "a" (db (snd (CommitResume demo_prepared demo_resumable))) = Some r /\ r_state r = StatePending.
Proof.
  destruct (resume_verified_once "a" demo_prepared demo_resumable demo_resumable demo_resumable
              (snd (CommitResume demo_prepared demo_resumable))) as (_ & _ & (r & H1 & H2 & _) & _).
  - apply demo_prepare.
  - apply demo_resume.
  - exists r. split; [exact H1|exact H2].
Defined.


(** ** Listing, history, restart, copies *)

Section Listing.
Context {cfg : Config}.

(** a caller that follows the cursors ListActive returns, with any legal
    page size, sees every unfinished upload exactly once, in id order, and
    reaches the end within one page per upload. *)
Theorem list_pages_complete (d : DB) (lim : Z) :
  NoDup (ids d) -> (forall r, r ∈ uploads d -> r_id r <> "") -> 1 <= lim <= 1000 ->
  pages (S (length (uploads d))) "" lim d = Ok (map scanUpload (active_rows d))
  /\ (forall r, r ∈ active_rows d <-> active r /\ r ∈ uploads d)
  /\ NoDup (map r_id (active_rows d)).
Proof.
  intros Hnd Hne Hlim. destruct (active_rows_spec d Hnd) as (_ & Hnda & Hin). split_and!; [|done|done].
  apply (pages_suffix d lim Hnd Hlim Hne) with []; try done.
  - unfold active_rows. rewrite (Permutation_length (order_by_perm by_id _)).
    pose proof (length_filter active (uploads d)). unfold sel. lia.
  - intros r Hr. by apply elem_of_nil in Hr.
  - intros r Hr. apply slt_empty, Hne. by apply (Hin r).
Qed.

(** pruning history touches only rows that finished before the age
    bound, always keeps the 200 most recently finished ones, and leaves at
    most 200 rows past the bound. *)
Theorem prune_bounds (before : Z) (d d' : DB) :
  NoDup (ids d) -> pruneDoneTx before d = Ok (tt, d') ->
  (forall r, r ∈ uploads d -> r ∉ uploads d' ->
     r_state r = StateDone /\ 0 < r_done_at r < before
     /\ forall k, k ∈ recent_done d -> r_done_at r <= r_done_at k)
  /\ (forall r, r ∈ recent_done d -> r ∈ uploads d')
  /\ (length (filter (fun r => r_state r = StateDone /\ (0 < r_done_at r < before)%Z
                               /\ upload_cleanup d !! r_id r = None) (uploads d')) <= 200)%nat.
Proof.
  intros Hnd H. pose proof (pruneDoneTx_uploads before d tt d' Hnd H) as Hu.
  destruct (recent_done_spec d) as (_ & Hfin & Hmax). split_and!.
  - intros r Hr Hn. rewrite Hu, list_elem_of_filter in Hn.
    assert (Hp : prunable before d r) by (destruct (decide (prunable before d r)); tauto).
    destruct Hp as (H1 & H2 & H3 & H4 & _). split_and!; try done. intros k Hk.
    apply Hmax; [done|by apply elem_of_sel|]. intros Hr'. apply H4. by apply list_elem_of_fmap_2.
  - intros r Hr. rewrite Hu. apply list_elem_of_filter. split.
    + intros (_ & _ & _ & Hn & _). apply Hn. by apply list_elem_of_fmap_2.
    + apply Hfin in Hr. by apply elem_of_sel in Hr as [_ ?].
  - by apply (prune_leaves before d tt d').
Qed.
End Listing.

Section Restarting.
Context {cfg : Config} {ok : CfgOk cfg}.

End Restarting.

Section CopyProps.
Context {cfg : Config}.

(** opening a copy for resumption yields exactly the durable prefix: the
    handle's content is the first [Checkpoint] bytes of the file, its CRC is
    the recorded one, its running digests are those of that prefix, and the
    bytes after the checkpoint are cut off the file. *)
Theorem copy_resume_verified (job : CopyJob) (p : string) (s s' : jstate) (sg : Staging) :
  0 <= j_Checkpoint job -> open_payload job p s = (Ok sg, s') ->
  (exists data, ReadFile (fsys s) p = Some data /\ s_data sg = take (Z.to_nat (j_Checkpoint job)) data
     /\ s_size sg = j_Checkpoint job)
  /\ j_CRC32C job = crc32c (s_data sg)
  /\ StagingHashes sg = spec_hashes (withCRC (j_Want job)) (s_data sg)
  /\ ReadFile (fsys s') p = Some (s_data sg).
Proof.
  intros Hc H. destruct (open_payload_Ok job p s s' sg Hc H) as (data & Hd & Hsg & Hsz & Hinv & Hcrc & Hrd & Hw).
  split_and!.
  - by exists data.
  - done.
  - rewrite stg_inv_hashes by done. by rewrite Hw.
  - done.
Qed.

(** submitting a prepared copy hands its payload over exactly once: the
    job is marked submitted in the same transaction that queues a pending
    upload with the job's id, payload, size and digests, and every later
    submission of that job is refused. *)
Theorem copy_submit_once (c c' : CopyStaging) (u u' : Upload) (s s' : jstate) :
  Submit c u s = (Ok (u', c'), s') ->
  let id := j_ID (h_job c) in
  (exists j, copy_jobs (db s') !! id = Some j /\ c_state j = CopySubmitted)
  /\ (exists r, row_of id (db s') = Some r /\ r_state r = StatePending /\ r_blob r = s_Path (h_staging c)
        /\ r_size r = cs_Size (j_Spec (h_job c)) /\ r_hashes r = StagingHashes (h_staging c))
  /\ forall f t u2, exists e, submitTx f t (h_job c) u2 (db s') = Err e.
Proof.
  unfold Submit. case_decide; [done|]. case_decide; [done|]. unfold obind.
  destruct (syncCopy (h_staging c) s) as [[x|] s0] eqn:Ey; [|done].
  simpl. unfold tx. destruct (submitTx _ _ _ _ (db s0)) as [[[] d]|] eqn:E; [|done]. intros [= _ _ <-].
  destruct (submitTx_Ok _ _ _ _ _ _ E) as (j & Hj & Hins & Hrow). set (id := j_ID (h_job c)).
  destruct (insertUploadTx_row _ _ _ _ _ Hins) as (r & Hr & Hb & Hz & Hh & _ & _ & Hst).
  assert (Hj' : copy_jobs d !! id = Some (j <| c_state := CopySubmitted |>)).
  { rewrite (insert_copy_jobs _ _ _ _ _ _ Hins). simpl. apply lookup_insert_eq. }
  split_and!; simpl.
  - eexists. split; [exact Hj'|done].
  - exists r. split_and!; try done.
  - intros f t u2. unfold submitTx. destruct (row_of (ID u2) d); [by eexists|]. fold id. rewrite Hj'. simpl. by eexists.
Qed.

(** a cancelled copy stays cancelled: the worker that was preparing it
    can neither checkpoint nor submit nor mark it failed, and a retry decided
    before the cancellation is refused. *)
Theorem copy_cancel_wins (id : string) (c : CopyRow) (d d' : DB) :
  copy_jobs d !! id = Some c -> cancelCopyTx id d = Ok (tt, d') ->
  (forall st, retryCopyTx id st (c_revision c) d' = Err ErrCopyState)
  /\ (forall off crc st, checkpointTx id off crc st d' = Err ErrCopyState)
  /\ (forall reason, failCopyTx id reason d' = Ok (tt, d'))
  /\ (forall f t j u, j_ID j = id -> exists e, submitTx f t j u d' = Err e).
Proof.
  intros Hc. unfold cancelCopyTx. rewrite Hc. case_decide; [done|]. intros ->%put_copy_Ok.
  set (c' := c <| c_state := CopyCancelled |> <| c_last_error := "" |> <| c_revision ::= Z.add 1 |>).
  assert (E : copy_jobs (d <| copy_jobs ::= <[id := c']> |>) !! id = Some c') by (simpl; apply lookup_insert_eq).
  assert (Hs : c_state c' = CopyCancelled) by done.
  assert (Hv : c_revision c' = 1 + c_revision c) by done.
  set (d' := d <| copy_jobs ::= <[id := c']> |>) in *. clearbody c' d'. split_and!.
  - intros st. unfold retryCopyTx. rewrite E. rewrite decide_False by lia. done.
  - intros off crc st. unfold checkpointTx. rewrite E. rewrite decide_False by congruence. done.
  - intros reason. unfold failCopyTx. rewrite E. by rewrite decide_True.
  - intros f t j u <-. unfold submitTx. destruct (row_of (ID u) d'); [by eexists|]. rewrite E.
    rewrite decide_False by congruence. by eexists.
Qed.
End CopyProps.

(** ** On the concrete journal *)

Lemma list_pages_complete_witness :
  NoDup (ids (db demo4)) /\ pages 3 "" 1 (db demo4) = Ok (map scanUpload (active_rows (db demo4))).
Proof.
  split; [apply (inv_ids _ (i_db _ demo_inv4))|].
  apply (list_pages_complete (db demo4) 1 (inv_ids _ (i_db _ demo_inv4))); [|lia].
  intros r Hr. rewrite demo_rows4 in Hr.
  apply elem_of_cons in Hr as [->|Hr]; [vm_compute; discriminate|].
  apply elem_of_cons in Hr as [->|Hr]; [vm_compute; discriminate|]. by apply elem_of_nil in Hr.
Defined.

Definition demo_done (id : string) (at_ : Z) : Row :=
  MkRow 1 id "r" "root" "f" "" 0 ∅ StateDone 0 0 "" "" ∅ 0 0 false false "" "" "" "" at_.
Definition demo_history : DB := demo_db <| uploads := [demo_done "a" 5; demo_done "b" 9] |>.

Lemma prune_bounds_witness :
  exists d', pruneDoneTx 7 demo_history = Ok (tt, d') /\ demo_done "a" 5 ∈ uploads d'.
Proof.
  assert (Hnd : NoDup (ids demo_history)) by (apply (bool_decide_unpack _); vm_compute; done).
  eexists. split; [reflexivity|].
  eapply (prune_bounds 7 demo_history _ Hnd eq_refl). right. left.
Defined.



Definition demo_spec : CopySpec :=
  MkCopySpec "m" 1 "s" "sr" "" "t" "tr" "" "/s/f" "sr" "sid" "v" 2 "/t/f" "r" "root" "strict".
Definition demo_job : CopyJob := MkCopyJob "c" demo_spec ["crc32c"] CopyReady 2 "xbc" "" 4.
Definition demo_copy : jstate :=
  demo0 <| db := (demo_db <| copy_jobs := {["c" := (row_of_job demo_job) <| c_revision := 4 |>]} |>) |>
        <| fsys := SetData (MkFS (<["/j/copies/c.part" := 9]> (names demo_fs))
                      (<[9 := MkInode KRegular []]> (inodes demo_fs))) "/j/copies/c.part" [1; 2] |>.

Definition demo_no_staging : Staging := newStagingState "" "" [].
Lemma demo_open :
  open_payload demo_job "/j/copies/c.part" demo_copy
  = (Ok (out_of demo_no_staging (open_payload demo_job "/j/copies/c.part" demo_copy)),
     snd (open_payload demo_job "/j/copies/c.part" demo_copy)).
Proof. apply ok_run. vm_compute. reflexivity. Qed.

Lemma copy_resume_verified_witness :
  j_CRC32C demo_job = crc32c (s_data (out_of demo_no_staging (open_payload demo_job "/j/copies/c.part" demo_copy))).
Proof.
  apply (copy_resume_verified demo_job "/j/copies/c.part" demo_copy
           (snd (open_payload demo_job "/j/copies/c.part" demo_copy))).
  - vm_compute. discriminate.
  - exact demo_open.
Defined.

Definition demo_handle : CopyStaging :=
  MkCopyStaging demo_job (newStagingState "c" "/j/copies/c.part" ["crc32c"]) false.
Definition demo_target : Upload := demo_upload <| Name := "f" |>.
Definition demo_submit := Submit demo_handle demo_target demo_copy.
Lemma demo_submitted :
  demo_submit = (Ok (out_of (demo_target, demo_handle) demo_submit), snd demo_submit).
Proof. apply ok_run. vm_compute. reflexivity. Qed.

Lemma copy_submit_once_witness :
  exists r, row_of "c" (db (snd demo_submit)) = Some r /\ r_state r = StatePending.
Proof.
  destruct (copy_submit_once demo_handle (snd (out_of (demo_target, demo_handle) demo_submit)) demo_target
              (fst (out_of (demo_target, demo_handle) demo_submit)) demo_copy (snd demo_submit))
    as (_ & (r & H1 & H2 & _) & _).
  - rewrite <- surjective_pairing. exact demo_submitted.
  - exists r. split; [exact H1|exact H2].
Defined.

Definition demo_copy_row : CopyRow := (row_of_job demo_job) <| c_revision := 4 |>.
Definition demo_cancelled : DB := (db demo_copy) <| copy_jobs ::= <["c" :=
  demo_copy_row <| c_state := CopyCancelled |> <| c_last_error := "" |> <| c_revision ::= Z.add 1 |>]> |>.

Lemma copy_cancel_wins_witness :
  cancelCopyTx "c" (db demo_copy) = Ok (tt, demo_cancelled)
  /\ retryCopyTx "c" CopyPreparing (c_revision demo_copy_row) demo_cancelled = Err ErrCopyState.
Proof.
  split; [reflexivity|].
  exact (proj1 (copy_cancel_wins "c" demo_copy_row (db demo_copy) demo_cancelled eq_refl eq_refl) CopyPreparing).
Defined.

Lemma staging_write_readback_witness :
  s_data (snd (WriteAt (newStagingState "a" "p" []) [7; 8] 3 true 2 false)) !! 4%nat = Some 8.
Proof.
  rewrite (staging_write_readback (newStagingState "a" "p" []) [7; 8] 3 2 false
             (snd (WriteAt (newStagingState "a" "p" []) [7; 8] 3 true 2 false)) 2 None 4).
  - reflexivity.
  - reflexivity.
  - reflexivity.
Defined.
