(* ===== verification/Retry.v ===== *)
(** * Error classification and backoff (internal/net/retry/retry.go)

    Go errors are trees: an error has a dynamic kind and the errors it wraps.
    errors.Is and errors.As walk the tree depth first.  time.Duration is an
    int64 number of nanoseconds; the jitter is a float64 product, computed here
    with its rounding. *)
From S2P Require Import Prelude JournalState.
Open Scope Z_scope.

(** ** Errors *)

Inductive sentinel :=
| ContextCanceled | ContextDeadlineExceeded
| PErrNotFound | PErrExists | PErrConflict | PErrRateLimited | PErrRiskControl | PErrAuth
| PErrLinkExpired | PErrCursorReset | PErrUnsupported | PErrTransient | PErrUnavailable
| PErrQuotaExceeded | PErrRestartUpload
| errSessionExpired
| PErrBadName | ErrBadPath | errCopyUnconfirmed | sql_ErrNoRows.
#[export] Instance sentinel_eq_dec : EqDecision sentinel.
Proof. solve_decision. Defined.

(** The dynamic kinds the code distinguishes. *)
Inductive ekind :=
| KSentinel (s : sentinel)
| KStatus (code : Z)          (* implements HTTPStatuser *)
| KRetryAfter (d : Z)         (* *provider.RetryAfterError *)
| KNet                        (* implements net.Error *)
| KText (text : string).
#[export] Instance ekind_eq_dec : EqDecision ekind.
Proof. solve_decision. Defined.

Inductive gerr := Gerr (self : ekind) (wrapped : list gerr).

(** The order errors.Is and errors.As visit a tree in. *)
Fixpoint chain (e : gerr) : list ekind :=
  match e with Gerr k l => k :: flat_map chain l end.

(** fmt.Errorf with one %w. *)
Definition wrap (text : string) (e : gerr) : gerr := Gerr (KText text) [e].
(** A sentinel as it is returned, with what it wraps itself. *)
Definition sent (s : sentinel) : gerr :=
  Gerr (KSentinel s) (if decide (s = PErrBadName) then [Gerr (KSentinel PErrUnsupported) []] else []).

Definition errors_Is (e : gerr) (s : sentinel) : bool := bool_decide (KSentinel s ∈ chain e).

Definition first_status (l : list ekind) : option Z :=
  head (omap (fun k => match k with KStatus c => Some c | _ => None end) l).
Definition first_retry_after (l : list ekind) : option Z :=
  head (omap (fun k => match k with KRetryAfter d => Some d | _ => None end) l).

(** ** Classes *)

Inductive Class_ :=
| ClassOK | ClassRetryable | ClassAuth | ClassRiskControl | ClassLinkExpired | ClassConflict
| ClassTerminal | ClassCanceled | ClassQuota.
#[export] Instance Class_eq_dec : EqDecision Class_.
Proof. solve_decision. Defined.

Definition class_of_status (s : Z) : option Class_ :=
  if decide (s = 401) then Some ClassAuth
  else if decide (s = 403 \/ s = 410) then Some ClassLinkExpired
  else if decide (s = 409 \/ s = 412) then Some ClassConflict
  else if decide (s = 429 \/ 500 <= s) then Some ClassRetryable
  else if decide (400 <= s) then Some ClassTerminal
  else None.

Definition Classify (err : option gerr) : Class_ :=
  match err with
  | None => ClassOK
  | Some e =>
      let has := errors_Is e in
      if has ContextCanceled || has ContextDeadlineExceeded then ClassCanceled
      else if has PErrQuotaExceeded then ClassQuota
      else if has PErrRiskControl then ClassRiskControl
      else if has PErrRateLimited || has PErrTransient || has PErrUnavailable then ClassRetryable
      else if has PErrAuth then ClassAuth
      else if has PErrLinkExpired then ClassLinkExpired
      else if has PErrConflict then ClassConflict
      else if has PErrNotFound || has PErrExists || has PErrUnsupported then ClassTerminal
      else match first_status (chain e) with
           | Some s => default ClassRetryable (class_of_status s)
           | None => ClassRetryable
           end
  end.

Definition RetryAfter (e : gerr) : Z := default 0 (first_retry_after (chain e)).

(** ** Integers and floats *)

Definition wrap64 (z : Z) : Z := (z + 2 ^ 63) mod 2 ^ 64 - 2 ^ 63.

(** Round a non-negative integer to a multiple of [2 ^ e], ties to even. *)
Definition rne (e : Z) (p : Z) : Z :=
  let q := p / 2 ^ e in
  let r := p mod 2 ^ e in
  if decide (2 * r < 2 ^ e \/ (2 * r = 2 ^ e /\ Z.even q = true)) then q * 2 ^ e else (q + 1) * 2 ^ e.

(** The binary64 significand holds 53 bits: how many low bits a value loses. *)
Definition lost_bits (p : Z) : Z := Z.max 0 (Z.log2 p + 1 - 53).
Definition to_float64 (p : Z) : Z := if decide (p = 0) then 0 else rne (lost_bits p) p.

(** Duration(float64(c) * (m / 2^53)): both factors are exact in binary64, the
    product is rounded to nearest even, the conversion truncates. *)
Definition scale53 (c m : Z) : Z := to_float64 (to_float64 c * m) / 2 ^ 53.

(** ** Backoff *)

Record Backoff := MkBackoff { Base : Z; Max : Z }.
Definition DefaultBackoff : Backoff := MkBackoff (500 * Millisecond) (64 * Second).

Definition ceiling (b : Backoff) (attempt : Z) : Z :=
  let a := Z.min (Z.max attempt 0) 30 in
  let c := wrap64 (Z.shiftl (Base b) a) in
  if decide (Max b < c \/ c <= 0) then Max b else c.

(** Delay; [m / 2^53] is the number rand.Float64 returned. *)
Definition Delay (b : Backoff) (m : Z) (attempt retryAfter : Z) : Z :=
  Z.max (scale53 (ceiling b attempt) m) retryAfter.

(** ** Policy.Do *)

Record Policy := MkPolicy { pBackoff : Backoff; MaxAttempts : Z }.

(** The calls [fn] answers and the jitter draws, per attempt; [ctx_done i]: the
    context ends during the sleep after attempt [i], with this error. *)
Record world := MkWorld {
  w_fn : nat -> option gerr;
  w_jitter : nat -> Z;
  w_done : nat -> option gerr
}.

(** The result, the number of calls of [fn], and the (error, delay) pairs given
    to [onRetry]. *)
Fixpoint do_from (p : Policy) (w : world) (left attempt : nat) (err : option gerr)
  : option gerr * nat * list (gerr * Z) :=
  match left with
  | O => (err, attempt, [])
  | S left' =>
      match w_fn w attempt with
      | None => (None, S attempt, [])
      | Some e =>
          if decide (Classify (Some e) <> ClassRetryable) then (Some e, S attempt, [])
          else if decide (Z.of_nat attempt = MaxAttempts p - 1) then (Some e, S attempt, [])
          else
            let delay := Delay (pBackoff p) (w_jitter w attempt) (Z.of_nat attempt) (RetryAfter e) in
            match w_done w attempt with
            | Some c => (Some c, S attempt, [(e, delay)])
            | None => let '(r, n, l) := do_from p w left' (S attempt) (Some e) in (r, n, (e, delay) :: l)
            end
      end
  end.

Definition Do (p : Policy) (w : world) : option gerr * nat * list (gerr * Z) :=
  do_from p w (Z.to_nat (MaxAttempts p)) 0 None.

(** ** Properties *)

Lemma wrap64_id z : 0 <= z < 2 ^ 63 -> wrap64 z = z.
Proof. intros H. unfold wrap64. rewrite Z.mod_small; lia. Qed.

Lemma rne_le e p q : 0 <= e -> 0 <= p <= q -> (2 ^ e | q) -> rne e p <= q.
Proof.
  intros He Hp [k ->]. assert (H2 : 0 < 2 ^ e) by lia. unfold rne.
  pose proof (Z.div_mod p (2 ^ e) ltac:(lia)) as Hdm.
  pose proof (Z.mod_pos_bound p (2 ^ e) H2) as Hr.
  case_decide as Hc; [nia|].
  assert (Hlt : p mod 2 ^ e <> 0) by lia.
  assert (p / 2 ^ e < k) by nia. nia.
Qed.

Lemma rne_nonneg e p : 0 <= e -> 0 <= p -> 0 <= rne e p.
Proof.
  intros He Hp. assert (0 < 2 ^ e) by lia. unfold rne.
  pose proof (Z.div_pos p (2 ^ e) Hp ltac:(lia)). case_decide; nia.
Qed.

Lemma to_float64_nonneg p : 0 <= p -> 0 <= to_float64 p.
Proof. intros Hp. unfold to_float64. case_decide; [done|]. apply rne_nonneg; [unfold lost_bits|]; lia. Qed.

(** Integers below 2^53 are exact. *)
Lemma to_float64_exact p : 0 <= p < 2 ^ 53 -> to_float64 p = p.
Proof.
  intros [Hp Hlt]. unfold to_float64. case_decide; [done|].
  assert (Hl : lost_bits p = 0). { unfold lost_bits. pose proof (proj1 (Z.log2_lt_pow2 p 53 ltac:(lia)) Hlt). lia. }
  rewrite Hl. unfold rne. rewrite Z.pow_0_r, Z.div_1_r, Z.mod_1_r. rewrite decide_True by lia. lia.
Qed.

Lemma scale53_bounds c m : 0 <= c < 2 ^ 53 -> 0 <= m < 2 ^ 53 -> 0 <= scale53 c m <= c.
Proof.
  intros Hc Hm. unfold scale53. rewrite (to_float64_exact c) by done.
  pose proof (to_float64_nonneg (c * m) ltac:(nia)) as Hn. split.
  - by apply Z.div_pos.
  - apply Z.div_le_upper_bound; [lia|]. unfold to_float64. case_decide as Hz; [nia|].
    apply rne_le; [unfold lost_bits; lia|nia|].
    assert (Hpos : 0 < c * m) by nia.
    assert (Hl : lost_bits (c * m) <= 53).
    { unfold lost_bits. assert (Z.log2 (c * m) < 106); [|lia].
      apply Z.log2_lt_pow2; [done|]. change (2 ^ 106) with (2 ^ 53 * 2 ^ 53). nia. }
    exists (2 ^ (53 - lost_bits (c * m)) * c).
    replace (2 ^ 53) with (2 ^ (53 - lost_bits (c * m)) * 2 ^ lost_bits (c * m)); [ring|].
    rewrite <- Z.pow_add_r; [f_equal; lia|lia|unfold lost_bits; lia].
Qed.

Lemma ceiling_spec b attempt :
  0 < Base b < 2 ^ 33 -> 0 <= Max b ->
  ceiling b attempt = Z.min (Base b * 2 ^ Z.min (Z.max attempt 0) 30) (Max b).
Proof.
  intros Hb Hm. unfold ceiling. set (a := Z.min (Z.max attempt 0) 30).
  rewrite Z.shiftl_mul_pow2 by lia.
  assert (Ha : 1 <= 2 ^ a <= 2 ^ 30).
  { split; [|apply Z.pow_le_mono_r; lia]. change 1 with (2 ^ 0). apply Z.pow_le_mono_r; lia. }
  assert (Hprod : 0 < Base b * 2 ^ a < 2 ^ 63).
  { split; [nia|]. change (2 ^ 63) with (2 ^ 33 * 2 ^ 30). nia. }
  rewrite wrap64_id by lia. case_decide; lia.
Qed.

(** with a base below 2^33 ns (8.5 s) the delay before attempt [n] is the
    jittered exponential min(Base * 2^n, Max): it never exceeds the larger of
    that ceiling and the server's Retry-After, never falls below Retry-After,
    and is never negative; no shift overflows. *)
Theorem backoff_bounds (b : Backoff) (m attempt retryAfter : Z) :
  0 < Base b < 2 ^ 33 -> 0 <= Max b < 2 ^ 53 -> 0 <= m < 2 ^ 53 ->
  let top := Z.min (Base b * 2 ^ Z.min (Z.max attempt 0) 30) (Max b) in
  ceiling b attempt = top
  /\ 0 <= Delay b m attempt retryAfter
  /\ retryAfter <= Delay b m attempt retryAfter <= Z.max top retryAfter.
Proof.
  intros Hb Hm Hj top. pose proof (ceiling_spec b attempt Hb ltac:(lia)) as Hc. fold top in Hc.
  assert (Ht : 0 <= top < 2 ^ 53).
  { unfold top. assert (0 < 2 ^ Z.min (Z.max attempt 0) 30) by lia. nia. }
  pose proof (scale53_bounds top m Ht Hj). unfold Delay. rewrite Hc. lia.
Qed.

Lemma backoff_bounds_witness :
  ceiling DefaultBackoff 3 = 4000 * Millisecond
  /\ Delay DefaultBackoff (2 ^ 52) 3 (10 * Second) <= Z.max (4000 * Millisecond) (10 * Second).
Proof.
  destruct (backoff_bounds DefaultBackoff (2 ^ 52) 3 (10 * Second)) as (H1 & _ & H2);
    [vm_compute; split; congruence..|].
  split; [rewrite H1; reflexivity|apply H2].
Defined.

(** wrapping an error with context (fmt.Errorf with one %w) changes neither
    its class nor its Retry-After. *)
Theorem classify_wrap_invariant (t : string) (e : gerr) :
  Classify (Some (Gerr (KText t) [e])) = Classify (Some e) /\ RetryAfter (Gerr (KText t) [e]) = RetryAfter e.
Proof.
  assert (Hc : chain (Gerr (KText t) [e]) = KText t :: chain e) by (simpl; by rewrite app_nil_r).
  assert (Hi : forall s, errors_Is (Gerr (KText t) [e]) s = errors_Is e s).
  { intros s. unfold errors_Is. rewrite Hc. apply bool_decide_ext. rewrite elem_of_cons. naive_solver. }
  unfold Classify, RetryAfter. rewrite !Hi, !Hc. done.
Qed.

Section DoSpec.
Context (p : Policy) (w : world).

(** What one run of the loop from [attempt] did. *)
Definition do_ok (left attempt : nat) (r : option gerr) (n : nat) (l : list (gerr * Z)) : Prop :=
  (attempt < n <= attempt + left)%nat
  /\ (forall i, (attempt <= i < n - 1)%nat ->
        exists e, w_fn w i = Some e /\ Classify (Some e) = ClassRetryable /\ w_done w i = None)
  /\ (r = w_fn w (n - 1)
      \/ exists e c, w_fn w (n - 1) = Some e /\ Classify (Some e) = ClassRetryable
           /\ w_done w (n - 1) = Some c /\ r = Some c)
  /\ (length l <= n - attempt)%nat.

Lemma do_from_ok left : forall attempt err r n l,
  (0 < left)%nat -> do_from p w left attempt err = (r, n, l) ->
  do_ok left attempt r n l
  \/ (exists e, left = 1%nat /\ w_fn w attempt = Some e /\ r = Some e /\ n = S attempt).
Proof.
  induction left as [|left IH]; intros attempt err r n l Hl; [lia|]. cbn [do_from].
  destruct (w_fn w attempt) as [e|] eqn:Ef.
  2: { intros [= <- <- <-]. left. unfold do_ok. simpl. rewrite Nat.sub_0_r, Ef.
       split_and!; [lia|lia|intros; lia|by left|lia]. }
  case_decide as Hc.
  { intros [= <- <- <-]. left. unfold do_ok. simpl. rewrite Nat.sub_0_r, Ef.
    split_and!; [lia|lia|intros; lia|by left|lia]. }
  case_decide.
  { intros [= <- <- <-]. left. unfold do_ok. simpl. rewrite Nat.sub_0_r, Ef.
    split_and!; [lia|lia|intros; lia|by left|lia]. }
  destruct (w_done w attempt) as [c|] eqn:Ed.
  { intros [= <- <- <-]. left. unfold do_ok. simpl. rewrite Nat.sub_0_r, Ef, Ed.
    split_and!; [lia|lia|intros; lia|right; by exists e, c|lia]. }
  destruct (do_from p w left (S attempt) (Some e)) as [[r' n'] l'] eqn:E. intros [= <- <- <-].
  destruct left as [|left]; [injection E as <- <- <-; right; by exists e|]. left.
  destruct (IH (S attempt) (Some e) r' n' l' ltac:(lia) E) as [(H1 & H2 & H3 & H4)|(e' & El & Ef' & -> & ->)].
  - unfold do_ok. split_and!; [lia|lia| |done|simpl; lia]. intros i Hi.
    destruct (decide (i = attempt)) as [->|]; [eauto|apply H2; lia].
  - unfold do_ok. replace (S (S attempt) - 1)%nat with (S attempt) by lia. split_and!; [lia|lia| |left; by rewrite Ef'|].
    + intros i Hi. assert (i = attempt) as -> by lia. eauto.
    + destruct left; [|done]. simpl in E. rewrite Ef' in E.
      repeat first [case_decide | case_match]; simplify_eq; simpl; lia.
Qed.
End DoSpec.

(** C31: a retried call is made at least once and at most MaxAttempts times;
    every call but the last failed with a retryable error; the outcome is the
    last call's own result, or the context's error when the context ended
    during the wait that followed a retryable failure. *)
Theorem do_attempts (p : Policy) (w : world) (r : option gerr) (n : nat) (l : list (gerr * Z)) :
  0 < MaxAttempts p -> Do p w = (r, n, l) ->
  (1 <= n <= Z.to_nat (MaxAttempts p))%nat
  /\ (forall i, (i < n - 1)%nat -> exists e, w_fn w i = Some e /\ Classify (Some e) = ClassRetryable)
  /\ (r = w_fn w (n - 1)
      \/ exists e c, w_fn w (n - 1) = Some e /\ Classify (Some e) = ClassRetryable
           /\ w_done w (n - 1) = Some c /\ r = Some c).
Proof.
  intros Hp H. apply do_from_ok in H as [(H1 & H2 & H3 & _)|(e & El & Ef & -> & ->)]; [| |lia].
  - split_and!; [lia|lia| |done]. intros i Hi. destruct (H2 i ltac:(lia)) as (e & ? & ? & _). eauto.
  - simpl. split_and!; [lia|lia|intros; lia|left]. by rewrite Ef.
Qed.

Definition demo_world : world :=
  MkWorld (fun i => match i with 0%nat => Some (Gerr (KStatus 503) []) | _ => None end) (fun _ => 0) (fun _ => None).

Lemma do_attempts_witness :
  exists l, Do (MkPolicy DefaultBackoff 3) demo_world = (None, 2%nat, l)
    /\ (forall i, (i < 1)%nat -> exists e, w_fn demo_world i = Some e /\ Classify (Some e) = ClassRetryable).
Proof.
  eexists. split; [reflexivity|].
  destruct (do_attempts (MkPolicy DefaultBackoff 3) demo_world None 2 _ eq_refl eq_refl) as (_ & H & _).
  exact H.
Defined.
