(* ===== verification/RateLimit.v ===== *)
(** * Rate limiter and circuit breaker (internal/net/ratelimit/ratelimit.go)

    float64 values are rationals; every arithmetic operation is the exact one
    followed by [rnd], the rounding of binary64, of which only monotonicity,
    idempotence and exactness on zero and one are used (no overflow, no NaN: rates are
    configuration values).  Times are nanoseconds since the Unix epoch. *)
From S2P Require Import Prelude JournalState.
From Stdlib Require Import QArith Qround Qabs Lqa.
Open Scope Z_scope.

Class Float64 := {
  rnd : Q -> Q;
  rnd_mono : forall x y, (x <= y)%Q -> (rnd x <= rnd y)%Q;
  rnd_idem : forall x, (rnd (rnd x) == rnd x)%Q;
  rnd_zero : (rnd 0 == 0)%Q;
  rnd_one : (rnd 1 == 1)%Q
}.

(** The time.Time zero value. *)
Definition zeroTime : Z := -62135596800 * Second.

Definition qlt (a b : Q) : bool := negb (Qle_bool b a).

Lemma qlt_true a b : qlt a b = true <-> (a < b)%Q.
Proof.
  unfold qlt. destruct (Qle_bool b a) eqn:E; simpl.
  - apply Qle_bool_iff in E. split; [done|]. intros H. lra.
  - split; [|done]. intros _. apply Qnot_le_lt. rewrite <- Qle_bool_iff. congruence.
Qed.
Lemma qlt_false a b : qlt a b = false <-> (b <= a)%Q.
Proof.
  unfold qlt. destruct (Qle_bool b a) eqn:E; simpl.
  - apply Qle_bool_iff in E. done.
  - split; [done|]. rewrite <- Qle_bool_iff. congruence.
Qed.

Lemma qlt_false_le a : (0 < a)%Q -> Qle_bool a 0 = false.
Proof. intros H. destruct (Qle_bool a 0) eqn:E; [|done]. apply Qle_bool_iff in E. lra. Qed.

Section Limiter.
Context {F : Float64}.

(** ** Options *)

Record Options := MkOptions {
  Rate : Q; Burst : Q; MinRate : Q; RecoverAfter : Z; Step : Q
}.
#[export] Instance Options_eta : Settable Options := fun o =>
  MkOptions (Rate o) (Burst o) (MinRate o) (RecoverAfter o) (Step o).

Definition withDefaults (o : Options) : Options :=
  let o := if Qle_bool (Burst o) 0 then o <| Burst := if qlt (Rate o) 1 then 1%Q else Rate o |> else o in
  let o := if Qle_bool (MinRate o) 0 then o <| MinRate := rnd (Rate o / 32) |> else o in
  let o := if decide (RecoverAfter o <= 0) then o <| RecoverAfter := 20 |> else o in
  if Qle_bool (Step o) 0 then o <| Step := rnd (1 # 10) |> else o.

Record Limiter := MkLimiter {
  opt : Options; rate : Q; tokens : Q; last_ : Z; successes : Z; pauseUntil : Z
}.
#[export] Instance Limiter_eta : Settable Limiter := fun l =>
  MkLimiter (opt l) (rate l) (tokens l) (last_ l) (successes l) (pauseUntil l).

Definition New (o : Options) (now : Z) : Limiter :=
  let o := withDefaults o in MkLimiter o (Rate o) (Burst o) now 0 zeroTime.

(** Duration.Seconds *)
Definition Seconds (d : Z) : Q :=
  rnd (rnd (inject_Z (d ÷ Second)) + rnd (rnd (inject_Z (Z.rem d Second)) / inject_Z Second)).

Definition refillLocked (now : Z) (l : Limiter) : Limiter :=
  let elapsed := Seconds (now - last_ l) in
  if qlt 0 elapsed then
    let t := rnd (tokens l + rnd (elapsed * rate l)) in
    l <| tokens := if qlt (Burst (opt l)) t then Burst (opt l) else t |> <| last_ := now |>
  else l.

(** Reserve: the wait, and one token taken. *)
Definition Reserve (now : Z) (l : Limiter) : Z * Limiter :=
  let l := refillLocked now l in
  let wait := if decide (now < pauseUntil l) then pauseUntil l - now else 0 in
  let l := l <| tokens := rnd (tokens l - 1) |> in
  if qlt (tokens l) 0 then
    let deficit := rnd (- tokens l / rate l) in
    (Z.max wait (Qfloor (rnd (deficit * inject_Z Second))), l)
  else (wait, l).

Definition Throttled (now retryAfter : Z) (l : Limiter) : Limiter :=
  let r := rnd (rate l / 2) in
  let l := l <| rate := if qlt r (MinRate (opt l)) then MinRate (opt l) else r |>
             <| tokens := 0%Q |> <| successes := 0 |> in
  if decide (0 < retryAfter /\ pauseUntil l < now + retryAfter) then l <| pauseUntil := now + retryAfter |> else l.

Definition Succeeded (l : Limiter) : Limiter :=
  if Qle_bool (Rate (opt l)) (rate l) then l
  else
    let l := l <| successes ::= Z.add 1 |> in
    if decide (RecoverAfter (opt l) <= successes l) then
      let r := rnd (rate l + rnd (Step (opt l) * Rate (opt l))) in
      l <| successes := 0 |> <| rate := if qlt (Rate (opt l)) r then Rate (opt l) else r |>
    else l.

(** ** Histories *)

Inductive lev := EvReserve (now : Z) | EvThrottled (now retryAfter : Z) | EvSucceeded.
Definition lstep (l : Limiter) (e : lev) : Limiter :=
  match e with
  | EvReserve t => snd (Reserve t l)
  | EvThrottled t ra => Throttled t ra l
  | EvSucceeded => Succeeded l
  end.
Definition lrun (l : Limiter) (es : list lev) : Limiter := fold_left lstep es l.

Definition repr (x : Q) : Prop := (rnd x == x)%Q.

(** What a remote configures: a rate, and whichever of the other fields are not
    left to [withDefaults]. *)
Definition configured (o : Options) : Prop :=
  repr (Rate o) /\ (0 < Rate o)%Q /\ ((0 < MinRate o)%Q -> repr (MinRate o) /\ (MinRate o <= Rate o)%Q) /\
  ((0 < Burst o)%Q -> repr (Burst o)).
(** The floor and the capacity such options stand for. *)
Definition floor_rate (o : Options) : Q := if qlt 0 (MinRate o) then MinRate o else rnd (Rate o / 32).
Definition capacity (o : Options) : Q :=
  if qlt 0 (Burst o) then Burst o else if qlt (Rate o) 1 then 1%Q else Rate o.

(** Options in force. *)
Definition good_options (o : Options) : Prop :=
  repr (Rate o) /\ repr (Burst o) /\ repr (MinRate o) /\ (0 <= MinRate o <= Rate o)%Q /\ (0 <= Burst o)%Q
  /\ (0 <= Step o)%Q.

Definition linv (l : Limiter) : Prop :=
  repr (rate l) /\ (MinRate (opt l) <= rate l <= Rate (opt l))%Q
  /\ repr (tokens l) /\ (tokens l <= Burst (opt l))%Q.

Global Instance rnd_proper : Proper (Qeq ==> Qeq) rnd.
Proof. intros x y E. apply Qle_antisym; apply rnd_mono; rewrite E; apply Qle_refl. Qed.

Lemma rnd_le x y : repr y -> (x <= y)%Q -> (rnd x <= y)%Q.
Proof. unfold repr. intros Hy H. apply rnd_mono in H. rewrite Hy in H. done. Qed.
Lemma rnd_ge x y : repr y -> (y <= x)%Q -> (y <= rnd x)%Q.
Proof. unfold repr. intros Hy H. apply rnd_mono in H. rewrite Hy in H. done. Qed.

Lemma qle_qlt a b : Qle_bool a b = negb (qlt b a).
Proof. unfold qlt. by rewrite negb_involutive. Qed.

Lemma withDefaults_fields o :
  Rate (withDefaults o) = Rate o /\ MinRate (withDefaults o) = floor_rate o /\ Burst (withDefaults o) = capacity o.
Proof.
  unfold withDefaults, floor_rate, capacity. rewrite !qle_qlt.
  destruct (qlt 0 (Burst o)); simpl; destruct (qlt 0 (MinRate o)); simpl; case_decide; simpl;
    match goal with |- context [if negb ?b then _ else _] => destruct b end; simpl; by split_and!.
Qed.
Lemma withDefaults_step o : (0 <= Step (withDefaults o))%Q.
Proof.
  assert (H : (0 <= rnd (1 # 10))%Q) by (apply rnd_ge; [unfold repr; apply rnd_zero|lra]).
  unfold withDefaults. match goal with |- (0 <= Step (if ?b then _ else _))%Q => destruct b eqn:E end; [done|].
  rewrite qle_qlt in E. apply negb_false_iff, qlt_true in E. lra.
Qed.

Lemma withDefaults_good o : configured o -> good_options (withDefaults o).
Proof.
  intros (Hr & H0 & Hm & Hb). unfold good_options. destruct (withDefaults_fields o) as (-> & -> & ->).
  assert (Hf : repr (floor_rate o) /\ (0 <= floor_rate o <= Rate o)%Q).
  { unfold floor_rate. destruct (qlt 0 (MinRate o)) eqn:E; [apply qlt_true in E; destruct (Hm E); split_and!; try done; lra|].
    assert (H1 : (0 <= Rate o / 32 <= Rate o)%Q) by (split; [apply Qle_shift_div_l|apply Qle_shift_div_r]; lra).
    split_and!; [unfold repr; apply rnd_idem|apply rnd_ge; [unfold repr; apply rnd_zero|lra]|apply rnd_le; [done|lra]]. }
  assert (Hc : repr (capacity o) /\ (0 <= capacity o)%Q).
  { unfold capacity. destruct (qlt 0 (Burst o)) eqn:E; [apply qlt_true in E; split; [by apply Hb|lra]|].
    destruct (qlt (Rate o) 1); [split; [unfold repr; apply rnd_one|lra]|split; [done|lra]]. }
  destruct Hf, Hc. split_and!; try done; try apply H1; apply withDefaults_step.
Qed.

Lemma linv_New o now : configured o -> linv (New o now).
Proof.
  intros Ho%withDefaults_good. destruct Ho as (? & ? & ? & [? ?] & ? & _).
  unfold linv, New. simpl. split_and!; try done; lra.
Qed.

Lemma linv_refill now l : good_options (opt l) -> linv l -> linv (refillLocked now l).
Proof.
  intros (_ & Hb & _) (H1 & H2 & H3 & H4). unfold refillLocked. destruct (qlt 0 _); [|done].
  unfold linv. simpl. split_and!; try done; try apply H2.
  - destruct (qlt _ _); [done|]. unfold repr. apply rnd_idem.
  - destruct (qlt _ _) eqn:E; [lra|]. by apply qlt_false in E.
Qed.

Lemma refill_same now l : opt (refillLocked now l) = opt l /\ pauseUntil (refillLocked now l) = pauseUntil l.
Proof. unfold refillLocked. by destruct (qlt _ _). Qed.

Lemma linv_reserve now l : good_options (opt l) -> linv l -> linv (snd (Reserve now l)).
Proof.
  intros Ho Hl. pose proof (linv_refill now l Ho Hl) as (H1 & H2 & H3 & H4). unfold Reserve.
  set (l1 := refillLocked now l) in *.
  assert (H : linv (l1 <| tokens := rnd (tokens l1 - 1) |>)).
  { unfold linv. simpl. split_and!; try done; try apply H2.
    - unfold repr. apply rnd_idem.
    - eapply Qle_trans; [|exact H4]. apply rnd_le; [done|]. lra. }
  by destruct (qlt _ _).
Qed.

Lemma linv_throttled now ra l : good_options (opt l) -> linv l -> linv (Throttled now ra l).
Proof.
  intros (_ & _ & Hm & [Hm1 Hm2] & Hb & _) (H1 & [H2 H2'] & H3 & H4). unfold Throttled.
  assert (Hr : linv (l <| rate := if qlt (rnd (rate l / 2)) (MinRate (opt l)) then MinRate (opt l) else rnd (rate l / 2) |>
             <| tokens := 0%Q |> <| successes := 0 |>)).
  { unfold linv. simpl. split_and!.
    - destruct (qlt _ _); [done|]. unfold repr. apply rnd_idem.
    - destruct (qlt _ _) eqn:E; [lra|]. by apply qlt_false in E.
    - destruct (qlt _ _) eqn:E; [lra|]. eapply Qle_trans; [|exact H2']. apply rnd_le; [done|].
      apply Qle_shift_div_r; lra.
    - unfold repr. apply rnd_zero.
    - lra. }
  case_decide; done.
Qed.

Lemma linv_succeeded l : good_options (opt l) -> linv l -> linv (Succeeded l).
Proof.
  intros (Hr & _ & _ & [Hm1 Hm2] & _ & Hs) (H1 & [H2 H2'] & H3 & H4). unfold Succeeded.
  destruct (Qle_bool _ _); [done|]. case_decide; [|done]. unfold linv. simpl. split_and!; try done.
  - destruct (qlt _ _); [done|]. unfold repr. apply rnd_idem.
  - destruct (qlt _ _) eqn:E; [lra|]. eapply Qle_trans; [exact H2|]. apply rnd_ge; [done|].
    assert (Hst : (0 <= rnd (Step (opt l) * Rate (opt l)))%Q).
    { apply rnd_ge; [unfold repr; apply rnd_zero|]. apply Qmult_le_0_compat; lra. }
    lra.
  - destruct (qlt _ _) eqn:E; [lra|]. by apply qlt_false in E.
Qed.

Lemma lstep_opt l e : opt (lstep l e) = opt l.
Proof.
  destruct e; simpl.
  - unfold Reserve. pose proof (refill_same now l) as [H _]. by destruct (qlt _ _).
  - unfold Throttled. by case_decide.
  - unfold Succeeded. destruct (Qle_bool _ _); [done|]. by case_decide.
Qed.

Lemma lstep_pause l e : pauseUntil l <= pauseUntil (lstep l e).
Proof.
  destruct e; simpl.
  - unfold Reserve. pose proof (refill_same now l) as [_ H]. destruct (qlt _ _); simpl; lia.
  - unfold Throttled. case_decide; simpl in *; lia.
  - unfold Succeeded. destruct (Qle_bool _ _); [done|]. by case_decide.
Qed.

Lemma linv_run es : forall l, good_options (opt l) -> linv l -> linv (lrun l es) /\ opt (lrun l es) = opt l.
Proof.
  induction es as [|e es IH]; intros l Ho Hl; [done|]. simpl.
  assert (Hl' : linv (lstep l e)).
  { destruct e; simpl; [by apply linv_reserve|by apply linv_throttled|by apply linv_succeeded]. }
  destruct (IH (lstep l e)) as [H1 H2]; [by rewrite lstep_opt|done|]. split; [done|].
  by rewrite H2, lstep_opt.
Qed.

Lemma pause_run es : forall l, pauseUntil l <= pauseUntil (lrun l es).
Proof.
  induction es as [|e es IH]; intros l; [done|]. simpl. etransitivity; [apply lstep_pause|apply IH].
Qed.

(** C32: Whatever requests, throttle signals and successes arrive, the adaptive
    rate stays between its floor and the configured rate, and the bucket never
    holds more than its burst.  The options are what a remote configures: a
    positive rate, and a minimum rate, burst, step and recovery count each given
    or left zero; the floor is the minimum rate if one is given (not above the
    rate), else a 32nd of the rate, and the burst the configured one, else the
    rate but at least one token.  Rate, minimum rate and burst are float64 values
    (numbers that rounding leaves alone). *)
Theorem limiter_bounds (o : Options) (now : Z) (es : list lev) :
  configured o ->
  let l := lrun (New o now) es in
  (floor_rate o <= rate l <= Rate o)%Q /\ (tokens l <= capacity o)%Q.
Proof.
  intros Ho. destruct (linv_run es (New o now)) as [(_ & H2 & _ & H4) Hopt]; [by apply withDefaults_good|by apply linv_New|].
  rewrite Hopt in *. change (opt (New o now)) with (withDefaults o) in *.
  destruct (withDefaults_fields o) as (HR & HM & HB). by rewrite HR, HM, HB in *.
Qed.

(** a server's Retry-After is honoured by every later caller: after a
    throttle at time [t] with hint [ra], whatever happens in between, a
    Reserve at time [t'] tells its caller to wait until at least t + ra. *)
Theorem throttle_pauses (l : Limiter) (t ra t' : Z) (es : list lev) :
  0 < ra -> t + ra - t' <= fst (Reserve t' (lrun (Throttled t ra l) es)).
Proof.
  intros Hra. assert (H1 : t + ra <= pauseUntil (Throttled t ra l)).
  { unfold Throttled. case_decide; simpl in *; lia. }
  pose proof (pause_run es (Throttled t ra l)) as H2. set (l2 := lrun _ es) in *. unfold Reserve.
  pose proof (refill_same t' l2) as [_ H3]. destruct (qlt _ _); simpl; rewrite H3; case_decide; lia.
Qed.
End Limiter.

(** Exact arithmetic is one such rounding. *)
Definition exact_float : Float64.
Proof. refine {| rnd := fun x => x |}; [done|intros; apply Qeq_refl|apply Qeq_refl|apply Qeq_refl]. Defined.

(** Eight requests a second, no fewer than one; the rest by default. *)
Definition demo_options : Options := MkOptions (8 # 1) 0 (1 # 1) 0 0.

Lemma limiter_bounds_witness :
  let l := @lrun exact_float (@New exact_float demo_options 0)
    [EvThrottled 0 5; EvThrottled 6 0; EvThrottled 7 0; EvThrottled 8 0; EvReserve 9; EvSucceeded] in
  (1 <= rate l <= 8)%Q /\ (tokens l <= 8)%Q /\ (rate l == 1)%Q.
Proof.
  intros l. destruct (@limiter_bounds exact_float demo_options 0
    [EvThrottled 0 5; EvThrottled 6 0; EvThrottled 7 0; EvThrottled 8 0; EvReserve 9; EvSucceeded]) as [H1 H2].
  - unfold configured, repr. simpl. split_and!; try reflexivity; try (intros; split; [reflexivity|lra]).
  - split; [exact H1|]. split; [exact H2|]. vm_compute. reflexivity.
Defined.

Lemma throttle_pauses_witness :
  5 <= fst (@Reserve exact_float 2 (@lrun exact_float (@Throttled exact_float 0 7 (@New exact_float demo_options 0)) [EvSucceeded])).
Proof.
  exact (@throttle_pauses exact_float (@New exact_float demo_options 0) 0 7 2 [EvSucceeded] eq_refl).
Defined.

(** ** Circuit breaker *)

Lemma filter_all {A} (P : A -> Prop) `{forall x, Decision (P x)} (l : list A) :
  (forall x, x ∈ l -> P x) -> filter P l = l.
Proof.
  induction l as [|x l IH]; intros E; [done|]. rewrite filter_cons, decide_True by (apply E; left).
  f_equal. apply IH. intros y Hy. apply E. by right.
Qed.

Record BreakerOptions := MkBreakerOptions { Threshold : Z; Window : Z; Cooldown : Z }.
#[export] Instance BreakerOptions_eta : Settable BreakerOptions := fun o =>
  MkBreakerOptions (Threshold o) (Window o) (Cooldown o).

Definition breakerDefaults (o : BreakerOptions) : BreakerOptions :=
  let o := if decide (Threshold o <= 0) then o <| Threshold := 3 |> else o in
  let o := if decide (Window o <= 0) then o <| Window := 10 * Minute |> else o in
  if decide (Cooldown o <= 0) then o <| Cooldown := 30 * Minute |> else o.

Record Breaker := MkBreaker { bopt : BreakerOptions; events : list Z; openUntil : Z }.
#[export] Instance Breaker_eta : Settable Breaker := fun b => MkBreaker (bopt b) (events b) (openUntil b).

Definition NewBreaker (o : BreakerOptions) : Breaker := MkBreaker (breakerDefaults o) [] zeroTime.

(** Trip: whether the breaker is now open, and its new state. *)
Definition Trip (now : Z) (b : Breaker) : bool * Breaker :=
  let cutoff := now - Window (bopt b) in
  let kept := filter (fun e => cutoff < e) (events b) in
  let b := b <| events := kept ++ [now] |> in
  let b := if decide (Threshold (bopt b) <= Z.of_nat (length (events b)))
           then b <| openUntil := now + Cooldown (bopt b) |> <| events := [] |> else b in
  (bool_decide (now < openUntil b), b).

Definition Open (now : Z) (b : Breaker) : bool := bool_decide (now < openUntil b).
Definition OpenUntil (now : Z) (b : Breaker) : Z := if decide (now < openUntil b) then openUntil b else zeroTime.
Definition ResetBreaker (b : Breaker) : Breaker := b <| openUntil := zeroTime |> <| events := [] |>.

Definition trips (b : Breaker) (ts : list Z) : Breaker := fold_left (fun b t => snd (Trip t b)) ts b.

Section BreakerSpec.
Context (o : BreakerOptions).

Lemma breakerDefaults_id :
  0 < Threshold o /\ 0 < Window o /\ 0 < Cooldown o -> breakerDefaults o = o.
Proof. intros Hpos. unfold breakerDefaults.
  rewrite (decide_False (P := Threshold o <= 0)) by lia. rewrite (decide_False (P := Window o <= 0)) by lia.
  by rewrite (decide_False (P := Cooldown o <= 0)) by lia.
Qed.

(** Fewer events than the threshold, all inside one window: they pile up. *)
Lemma trips_below ts : forall b,
  bopt b = o -> StronglySorted Z.le (events b ++ ts) ->
  (forall x, x ∈ events b ++ ts -> forall y, y ∈ ts -> y - Window o < x) ->
  Z.of_nat (length (events b ++ ts)) < Threshold o ->
  trips b ts = b <| events ::= fun l => l ++ ts |>.
Proof.
  induction ts as [|t ts IH]; intros b Ho Hs Hw Hl.
  - simpl. unfold upd; simpl. rewrite app_nil_r. by destruct b.
  - change (trips b (t :: ts)) with (trips (snd (Trip t b)) ts).
    assert (Hk : filter (fun e => t - Window (bopt b) < e) (events b) = events b).
    { apply filter_all. intros x Hx. rewrite Ho. apply (Hw x); [set_solver|left]. }
    assert (E : snd (Trip t b) = b <| events ::= fun l => l ++ [t] |>).
    { unfold Trip. rewrite Hk. simpl. rewrite decide_False; [done|]. simpl. rewrite Ho.
      rewrite length_app in Hl |- *. cbn [length] in Hl |- *. lia. }
    rewrite E, IH; try done.
    + unfold upd; simpl. by rewrite <- app_assoc.
    + unfold upd; simpl. by rewrite <- app_assoc.
    + intros x Hx y Hy. unfold upd in Hx; simpl in Hx. rewrite <- app_assoc in Hx. apply (Hw x); [done|by right].
    + unfold upd; simpl. by rewrite <- app_assoc.
Qed.
End BreakerSpec.

(** [Threshold] risk-control events inside one window open the breaker at
    the last of them, not before, and it refuses requests for exactly the
    cooldown that follows. *)
Theorem breaker_opens (o : BreakerOptions) (ts : list Z) (tn : Z) :
  0 < Threshold o -> 0 < Window o -> 0 < Cooldown o ->
  StronglySorted Z.le (ts ++ [tn]) -> (forall x, x ∈ ts -> tn - Window o < x) ->
  Z.of_nat (length ts) = Threshold o - 1 ->
  openUntil (trips (NewBreaker o) ts) = zeroTime
  /\ let b := trips (NewBreaker o) (ts ++ [tn]) in
     (forall t, Open t b = bool_decide (t < tn + Cooldown o)) /\ events b = [].
Proof.
  intros H1 H2 H3 Hs Hw Hl.
  assert (Hd : breakerDefaults o = o) by (apply breakerDefaults_id; lia).
  assert (Hle : forall y, y ∈ ts -> y <= tn).
  { intros y Hy. apply StronglySorted_app in Hs as (Hx & _). apply Hx; [done|left]. }
  assert (E : trips (NewBreaker o) ts = (NewBreaker o) <| events ::= fun l => l ++ ts |>).
  { apply (trips_below o); simpl.
    - apply Hd.
    - by apply StronglySorted_app in Hs as (_ & ? & _).
    - intros x Hx y Hy. specialize (Hw x Hx). specialize (Hle y Hy). lia.
    - lia. }
  split; [by rewrite E|]. intros b. unfold b, trips. rewrite fold_left_app.
  change (fold_left _ ts (NewBreaker o)) with (trips (NewBreaker o) ts). rewrite E. simpl.
  unfold Trip, Open. simpl. rewrite Hd.
  assert (Hk : filter (fun e => tn - Window o < e) ts = ts) by (apply filter_all; done).
  unfold upd; simpl. rewrite Hk. rewrite decide_True; [done|]. rewrite length_app. simpl. lia.
Qed.

Lemma breaker_opens_witness :
  Open 1000 (trips (NewBreaker (MkBreakerOptions 3 600 1800)) [10; 20; 30]) = true.
Proof.
  destruct (breaker_opens (MkBreakerOptions 3 600 1800) [10; 20] 30) as (_ & H & _);
    [reflexivity|reflexivity|reflexivity| | |reflexivity|].
  - repeat constructor; lia.
  - intros x Hx. apply elem_of_cons in Hx as [->|Hx]; [reflexivity|].
    apply elem_of_cons in Hx as [->|Hx]; [reflexivity|]. by apply elem_of_nil in Hx.
  - exact (H 1000).
Defined.

(** ** Registry: limiters and breakers are shared by reference *)

Inductive RClass := Meta | Download | UploadC | Transfer.
#[export] Instance RClass_eq_dec : EqDecision RClass.
Proof. solve_decision. Defined.
#[export] Instance RClass_countable : Countable RClass.
Proof.
  refine (inj_countable' (fun c => match c with Meta => 0 | Download => 1 | UploadC => 2 | Transfer => 3 end%nat)
    (fun n => match n with 0 => Meta | 1 => Download | 2 => UploadC | _ => Transfer end%nat) _).
  by intros [].
Qed.

Notation Key := (string * string * RClass)%type.

(** [limiters] maps keys to references; [heap] holds what they refer to. *)
Record Registry := MkRegistry {
  limiters : gmap Key nat; heap : gmap nat Limiter; nextRef : nat;
  breakers : gmap string Breaker
}.
#[export] Instance Registry_eta : Settable Registry := fun r =>
  MkRegistry (limiters r) (heap r) (nextRef r) (breakers r).

Definition NewRegistry : Registry := MkRegistry ∅ ∅ 0 ∅.

Section RegistryOps.
Context {F : Float64} (defaults : Key -> Options) (bopts : BreakerOptions).

Definition alloc (k : Key) (now : Z) (r : Registry) : nat * Registry :=
  (nextRef r, r <| heap ::= <[nextRef r := New (defaults k) now]> |>
                <| limiters ::= <[k := nextRef r]> |> <| nextRef ::= S |>).

Definition LimiterFor (k : Key) (now : Z) (r : Registry) : nat * Registry :=
  match limiters r !! k with
  | Some l => (l, r)
  | None =>
      let '(remote, account, class) := k in
      if bool_decide (class = Transfer) && Qle_bool (Rate (defaults k)) 0 then
        let dk := (remote, account, Download) in
        let '(dl, r) := match limiters r !! dk with Some dl => (dl, r) | None => alloc dk now r end in
        (dl, r <| limiters ::= <[k := dl]> |>)
      else alloc k now r
  end.

Definition BreakerFor (remote account : string) (r : Registry) : Breaker * Registry :=
  let id := remote +:+ "/" +:+ account in
  match breakers r !! id with
  | Some b => (b, r)
  | None => let b := NewBreaker bopts in (b, r <| breakers ::= <[id := b]> |>)
  end.

(** A Transfer key without a rate of its own shares its Download bucket. *)
Definition aliased (r : Registry) : Prop :=
  forall remote account l, Qle_bool (Rate (defaults (remote, account, Transfer))) 0 = true ->
    limiters r !! (remote, account, Transfer) = Some l -> limiters r !! (remote, account, Download) = Some l.

Lemma LimiterFor_keeps k now r k0 l :
  limiters r !! k0 = Some l -> limiters (snd (LimiterFor k now r)) !! k0 = Some l.
Proof.
  intros H. unfold LimiterFor. destruct (limiters r !! k) eqn:E; [done|].
  destruct k as [[remote account] class]. destruct (_ && _).
  - destruct (limiters r !! (remote, account, Download)) eqn:E2; simpl.
    + by rewrite lookup_insert_ne by (intros <-; congruence).
    + rewrite lookup_insert_ne by (intros <-; congruence). by rewrite lookup_insert_ne by (intros <-; congruence).
  - simpl. by rewrite lookup_insert_ne by (intros <-; congruence).
Qed.

Lemma LimiterFor_records k now r : limiters (snd (LimiterFor k now r)) !! k = Some (fst (LimiterFor k now r)).
Proof.
  unfold LimiterFor. destruct (limiters r !! k) eqn:E; [done|].
  destruct k as [[remote account] class]. destruct (_ && _).
  - destruct (limiters r !! (remote, account, Download)); simpl; by rewrite lookup_insert_eq.
  - simpl. by rewrite lookup_insert_eq.
Qed.

Lemma aliased_step k now r : aliased r -> aliased (snd (LimiterFor k now r)).
Proof.
  intros Ha remote account l Hz Hl.
  destruct (decide (k = (remote, account, Transfer))) as [->|Hk].
  - unfold LimiterFor in *. destruct (limiters r !! (remote, account, Transfer)) eqn:E; [by apply Ha|].
    rewrite (bool_decide_eq_true_2 _ eq_refl), Hz in *. simpl in *.
    destruct (limiters r !! (remote, account, Download)) as [dl|] eqn:E2; simpl in *;
      rewrite lookup_insert_eq in Hl; injection Hl as <-.
    + by rewrite lookup_insert_ne.
    + rewrite lookup_insert_ne by done. by rewrite lookup_insert_eq.
  - assert (Hl0 : limiters r !! (remote, account, Transfer) = Some l).
    { unfold LimiterFor in Hl. destruct (limiters r !! k) eqn:E; [done|].
      destruct k as [[r0 a0] c0]. destruct (_ && _).
      - destruct (limiters r !! (r0, a0, Download)); simpl in Hl;
          rewrite lookup_insert_ne in Hl by done; [done|].
        rewrite lookup_insert_ne in Hl by congruence. done.
      - simpl in Hl. by rewrite lookup_insert_ne in Hl by done. }
    apply LimiterFor_keeps. by apply Ha.
Qed.

Definition requests (ks : list (Key * Z)) (r : Registry) : Registry :=
  fold_left (fun r kt => snd (LimiterFor (fst kt) (snd kt) r)) ks r.

Lemma aliased_requests ks : forall r, aliased r -> aliased (requests ks r).
Proof. induction ks as [|k ks IH]; intros r Hr; [done|]. simpl. apply IH. by apply aliased_step. Qed.

Lemma requests_keep ks k l : forall r, limiters r !! k = Some l -> limiters (requests ks r) !! k = Some l.
Proof. induction ks as [|x ks IH]; intros r Hr; [done|]. simpl. apply IH. by apply LimiterFor_keeps. Qed.

(** a remote without a transfer rate of its own draws transfers and
    downloads from one and the same bucket, whichever is asked for first and
    whatever else was requested before or in between. *)
Theorem transfer_shares_download (remote account : string) (now now' : Z) (before between : list (Key * Z)) :
  Qle_bool (Rate (defaults (remote, account, Transfer))) 0 = true ->
  let r0 := requests before NewRegistry in
  let '(lt, r1) := LimiterFor (remote, account, Transfer) now r0 in
  let '(ld, r2) := LimiterFor (remote, account, Download) now r0 in
  fst (LimiterFor (remote, account, Download) now' (requests between r1)) = lt
  /\ fst (LimiterFor (remote, account, Transfer) now' (requests between r2)) = ld.
Proof.
  intros Hz r0. assert (Ha : aliased r0).
  { apply aliased_requests. intros ? ? ? _ H. simpl in H. by rewrite lookup_empty in H. }
  pose proof (LimiterFor_records (remote, account, Transfer) now r0) as Ht.
  pose proof (LimiterFor_records (remote, account, Download) now r0) as Hd.
  pose proof (aliased_step (remote, account, Transfer) now r0 Ha) as Ha1.
  pose proof (aliased_step (remote, account, Download) now r0 Ha) as Ha2.
  destruct (LimiterFor (remote, account, Transfer) now r0) as [lt r1]. simpl in *.
  destruct (LimiterFor (remote, account, Download) now r0) as [ld r2]. simpl in *. split.
  - assert (H : limiters (requests between r1) !! (remote, account, Download) = Some lt)
      by (by apply requests_keep, Ha1).
    unfold LimiterFor. by rewrite H.
  - pose proof (aliased_step (remote, account, Transfer) now' (requests between r2) ltac:(by apply aliased_requests)) as Ha3.
    pose proof (LimiterFor_records (remote, account, Transfer) now' (requests between r2)) as H3.
    specialize (Ha3 remote account _ Hz H3).
    assert (H : limiters (requests between r2) !! (remote, account, Download) = Some ld) by (by apply requests_keep).
    apply (LimiterFor_keeps (remote, account, Transfer) now') in H. congruence.
Qed.
End RegistryOps.

Definition demo_defaults (k : Key) : Options :=
  if decide (snd k = Transfer) then demo_options <| Rate := 0%Q |> else demo_options.

Lemma transfer_shares_download_witness :
  let r1 := snd (@LimiterFor exact_float demo_defaults ("r", "a", Transfer) 0 NewRegistry) in
  fst (@LimiterFor exact_float demo_defaults ("r", "a", Download) 9 r1)
  = fst (@LimiterFor exact_float demo_defaults ("r", "a", Transfer) 0 NewRegistry).
Proof.
  exact (proj1 (@transfer_shares_download exact_float demo_defaults "r" "a" 0 9 [] [] eq_refl)).
Defined.
