(* ===== verification/Uploader.v ===== *)
(** * The uploader (internal/upload: uploader.go, cancel.go, flush.go)

    One worker's handling of a claimed upload, on top of the journal, the rate
    limiter registry and a backend.  The backend is a parameter: a record of
    state transformers.

    A worker is not alone: operators, the file system and other workers use the
    same journal meanwhile.  The schedule [ctx] is a stream with one element
    for each point where the code can observe the end of its context (a journal
    call made with it, a sleep, an explicit check) or waits for the backend: it
    says whether the context has ended by then and which journal calls others
    have made in between.  Theorems hold for every schedule. *)
From S2P Require Import Prelude JournalState JournalQueue JournalAdmin Staging JournalCopy JournalReach Retry RateLimit.
From Stdlib Require Import Ascii.
Open Scope Z_scope.

(** ** Backend interface (internal/provider) *)

Record Entry := MkEntry { e_ID : string; e_Name : string; e_Version : string }.
Record UploadSession := MkSession {
  ses_ID : string; ses_PartSize : Z; RapidDone : bool; ses_Entry : option Entry; Opaque : gmap string string
}.
Record PartToken := MkToken { t_Index : Z; t_ETag : string }.

Definition POp (P A : Type) : Type := P -> res gerr A * P.

Record Provider (P : Type) := MkProvider {
  SinglePutMax : Z;
  cap_PartSize : Z;
  BeginUpload : string -> string -> Z -> gmap string string -> POp P UploadSession;
  UploadPart : UploadSession -> Z -> list Z -> Z -> POp P PartToken;
  CompleteUpload : UploadSession -> list PartToken -> POp P Entry;
  PutFile : option (string -> string -> list Z -> Z -> gmap string string -> POp P Entry);
  Delete_ : string -> POp P unit;
  List_ : string -> string -> POp P (list Entry * string)
}.
Arguments SinglePutMax {P}. Arguments cap_PartSize {P}. Arguments BeginUpload {P}.
Arguments UploadPart {P}. Arguments CompleteUpload {P}. Arguments PutFile {P}.
Arguments Delete_ {P}. Arguments List_ {P}.

Record Result := MkResult { UploadID : string; REntry : option Entry; Rapid : bool; ConflictName : string }.
#[export] Instance Result_eta : Settable Result := fun r =>
  MkResult (UploadID r) (REntry r) (Rapid r) (ConflictName r).

(** What the hooks were told. *)
Inductive hook_event := HSuccess (u : Upload) (r : Result) | HDead (u : Upload) (cause : gerr).

Record ust (P : Type) := MkUst {
  uj : jstate; prov : P; ctx : list (bool * list call); transfers : gset string;
  reg : option Registry; hooks : list hook_event
}.
Arguments uj {P}. Arguments prov {P}. Arguments ctx {P}. Arguments transfers {P}.
Arguments reg {P}. Arguments hooks {P}.
#[export] Instance ust_eta {P} : Settable (ust P) := fun s =>
  MkUst P (uj s) (prov s) (ctx s) (transfers s) (reg s) (hooks s).

(** ** Sessions in the journal *)

Definition sessionIDKey : string := "cloudfs.session_id".
Definition sessionPartSizeKey : string := "cloudfs.part_size".

(** strconv.FormatInt(n, 10) *)
Definition digit_of (d : Z) : ascii := Ascii.ascii_of_nat (48 + Z.to_nat d).
Fixpoint format_digits (fuel : nat) (n : Z) (acc : string) : string :=
  match fuel with
  | O => acc
  | S fuel' =>
      let acc' := String (digit_of (n mod 10)) acc in
      if decide (n < 10) then acc' else format_digits fuel' (n / 10) acc'
  end.
Definition FormatInt (n : Z) : string :=
  if decide (n < 0) then String "-" (format_digits 20 (- n) "") else format_digits 20 n "".

(** strconv.ParseInt(s, 10, 64), keeping only the value: 0 for a syntax error,
    the nearest int64 when out of range. *)
Definition digit_val (c : ascii) : option Z :=
  let n := Z.of_nat (Ascii.nat_of_ascii c) in
  if decide (48 <= n <= 57) then Some (n - 48) else None.
Fixpoint parse_digits (s : string) (acc : Z) : option Z :=
  match s with
  | EmptyString => Some acc
  | String c s' => match digit_val c with Some d => parse_digits s' (acc * 10 + d) | None => None end
  end.
Definition MinInt64 : Z := - 2 ^ 63.
Definition clamp64 (z : Z) : Z := Z.max MinInt64 (Z.min z MaxInt64).
Definition ParseInt (s : string) : Z :=
  let body (neg : bool) (s : string) :=
    match s with
    | EmptyString => 0
    | _ => match parse_digits s 0 with
           | Some v => clamp64 (if neg then - v else v)
           | None => 0
           end
    end in
  match s with
  | String c s' =>
      if decide (c = "-"%char) then body true s'
      else if decide (c = "+"%char) then body false s' else body false s
  | EmptyString => 0
  end.

Definition persistSession (s : UploadSession) : gmap string string :=
  <[sessionPartSizeKey := FormatInt (ses_PartSize s)]> (<[sessionIDKey := ses_ID s]> (Opaque s)).

Definition restoreSession (m : gmap string string) : option UploadSession :=
  match m !! sessionIDKey with
  | None => None
  | Some id =>
      if decide (id = "") then None
      else Some (MkSession id (ParseInt (default "" (m !! sessionPartSizeKey))) false None
                   (filter (fun kv => fst kv <> sessionIDKey /\ fst kv <> sessionPartSizeKey) m))
  end.

(** conflictName with the rendered " (conflict <date> <host>)". *)
Fixpoint last_dot (s : string) : option nat :=
  match s with
  | EmptyString => None
  | String c s' =>
      match last_dot s' with
      | Some i => Some (S i)
      | None => if decide (c = "."%char) then Some 0%nat else None
      end
  end.
Definition conflictName (name suffix : string) : string :=
  match last_dot name with
  | Some (S i) => String.substring 0 (S i) name +:+ suffix
                  +:+ String.substring (S i) (String.length name - S i) name
  | _ => name +:+ suffix
  end.

(** ** The worker *)

Record Hooks := MkHooks {
  Authorize : option (Upload -> option gerr);
  OnSuccess : option (Upload -> Result -> option gerr);
  RemoteVersion : option (Upload -> option string);
  Exists_ : option (Upload -> bool)
}.

Definition wrap2 (a b : gerr) : gerr := Gerr (KText "") [a; b].
Definition ctx_err : gerr := sent ContextCanceled.

Section Worker.
Context {cfg : Config} {F : Float64} {P : Type}.
Context (defaults : Key -> Options) (bopts : BreakerOptions).
Context (hk : Hooks) (Providers : string -> option (Provider P)).
Context (policy : Policy) (backoff : Backoff) (uMaxAttempts : Z).
(** The text of an error, jitter draws and the rendered conflict suffix. *)
Context (Error : gerr -> string) (jitter : Z) (suffix : string).

Definition UOp (A : Type) : Type := Op (ust P) gerr A.

(** What others do to the journal meanwhile. *)
Definition others (cs : list call) (j : jstate) : jstate := foldl (fun j c => exec c j) j cs.

(** Has the context ended?  [ctx_flag] asks inside a critical section. *)
Definition ctx_flag : UOp bool := fun s =>
  match ctx s with
  | [] => (Ok false, s)
  | (b, _) :: rest => (Ok b, s <| ctx := rest |>)
  end.
Definition ctx_ended : UOp bool := fun s =>
  match ctx s with
  | [] => (Ok false, s)
  | (b, cs) :: rest => (Ok b, s <| ctx := rest |> <| uj ::= others cs |>)
  end.
Definition ctx_check : UOp unit := let* b := ctx_ended in if b then ofail ctx_err else oret tt.

Definition jerror (e : jerr) : gerr := Gerr (KText "journal") [].

(** A journal call with a context that cannot end, and one with the task's. *)
Definition jfree {A} (m : Op jstate jerr A) : UOp A := fun s =>
  let '(r, j) := m (uj s) in
  (match r with Ok a => Ok a | Err e => Err (jerror e) end, s <| uj := j |>).
Definition jop {A} (m : Op jstate jerr A) : UOp A := do* ctx_check; jfree m.

(** A backend call: it acts, and others act before its answer is handled. *)
Definition pop {A} (m : POp P A) : UOp A := fun s =>
  let '(r, p) := m (prov s) in (r, snd (ctx_ended (s <| prov := p |>))).

(** *** Rate limiting *)

Definition upd_limiter (k : Key) (f : Limiter -> Limiter) : UOp unit := fun s =>
  match reg s with
  | None => (Ok tt, s)
  | Some r => let '(l, r) := LimiterFor defaults k (now (uj s)) r in
              (Ok tt, s <| reg := Some (r <| heap ::= alter f l |>) |>)
  end.
(** Limiter.Wait: a token at once, or a sleep the context can cut short. *)
Definition waitLimit (remote : string) : UOp unit := fun s =>
  match reg s with
  | None => (Ok tt, s)
  | Some r =>
      let '(l, r) := LimiterFor defaults (remote, "", UploadC) (now (uj s)) r in
      match heap r !! l with
      | Some lim =>
          let '(d, lim) := Reserve (now (uj s)) lim in
          let s := s <| reg := Some (r <| heap ::= <[l := lim]> |>) |> in
          if decide (d <= 0) then (Ok tt, s) else ctx_check s
      | None => (Ok tt, s)
      end
  end.
Definition trip (remote : string) : UOp unit := fun s =>
  match reg s with
  | None => (Ok tt, s)
  | Some r => let '(b, r) := BreakerFor bopts remote "" r in
              (Ok tt, s <| reg := Some (r <| breakers ::= <[remote +:+ "/" := snd (Trip (now (uj s)) b)]> |>) |>)
  end.
Definition throttled (remote : string) (e : gerr) : UOp unit := fun s =>
  match Classify (Some e) with
  | ClassRetryable => upd_limiter (remote, "", UploadC) (Throttled (now (uj s)) (Retry.RetryAfter e)) s
  | ClassRiskControl =>
      (do* upd_limiter (remote, "", UploadC) (Throttled (now (uj s)) (Retry.RetryAfter e)); trip remote) s
  | _ => (Ok tt, s)
  end.
Definition succeeded (remote : string) : UOp unit := upd_limiter (remote, "", UploadC) Succeeded.

(** *** Policy.Do around a stateful call *)

Fixpoint do_loop {A} (left : nat) (attempt : Z) (fn : UOp A) (onRetry : gerr -> UOp unit) (last : res gerr A) : UOp A :=
  match left with
  | O => fun s => (last, s)
  | S left' =>
      let* r := otry fn in
      match r with
      | Ok a => oret a
      | Err e =>
          if decide (Classify (Some e) <> ClassRetryable) then ofail e
          else if decide (attempt = Retry.MaxAttempts policy - 1) then ofail e
          else do* onRetry e; do* ctx_check; do_loop left' (attempt + 1) fn onRetry (Err e)
      end
  end.
Definition policyDo {A} (zero : A) (remote : string) (fn : UOp A) : UOp A :=
  do_loop (Z.to_nat (Retry.MaxAttempts policy)) 0 fn (throttled remote) (Ok zero).

Definition zero_entry : Entry := MkEntry "" "" "".
Definition zero_session : UploadSession := MkSession "" 0 false None ∅.

(** *** Transfers *)

Definition openBlob (path : string) : UOp (option (list Z)) := fun s => (Ok (ReadFile (fsys (uj s)) path), s).

Definition named_result (up : Upload) (name : string) (r : Result) : Result :=
  if decide (name <> Name up) then r <| ConflictName := name |> else r.

Definition notfound_open : gerr := wrap2 (sent PErrNotFound) (Gerr (KText "open") []).

Definition putWhole (put : string -> string -> list Z -> Z -> gmap string string -> POp P Entry)
    (up : Upload) (name : string) : UOp Result :=
  let* blob := openBlob (BlobPath up) in
  match blob with
  | None => ofail notfound_open
  | Some data =>
      let* entry := policyDo zero_entry (Remote up)
          (pop (put (RemoteParentID up) name (take (Z.to_nat (Size up)) data) (Size up) (Hashes up))) in
      do* succeeded (Remote up);
      oret (named_result up name (MkResult (ID up) (Some entry) false ""))
  end.

Definition begin (p : Provider P) (up : Upload) (name : string) : UOp UploadSession :=
  let* blob := openBlob (BlobPath up) in
  match blob with
  | None => ofail (Gerr (KText "upload: open proof content") [])
  | Some _ => policyDo zero_session (Remote up)
                (pop (BeginUpload p (RemoteParentID up) name (Size up) (Hashes up)))
  end.

(** remoteChanged: every page of the parent directory; [fuel] bounds the
    pages the backend serves. *)
Fixpoint changed_from (fuel : nat) (p : Provider P) (up : Upload) (expected cursor : string) : UOp bool :=
  match fuel with
  | O => ofail (Gerr (KText "listing does not end") [])
  | S fuel' =>
      let* r := pop (List_ p (RemoteParentID up) cursor) in
      let '(entries, next) := r in
      match filter (fun e => e_Name e = Name up) entries with
      | e :: _ => oret (bool_decide (e_Version e <> "") && bool_decide (e_Version e <> expected))
      | [] => if decide (next = "") then oret false else changed_from fuel' p up expected next
      end
  end.
Definition expectedVersion (up : Upload) : string :=
  match RemoteVersion hk with
  | Some f => match f up with
              | Some v => if decide (v <> "") then v else ExpectedVersion up
              | None => ExpectedVersion up
              end
  | None => ExpectedVersion up
  end.
Definition remoteChanged (fuel : nat) (p : Provider P) (up : Upload) : UOp bool :=
  changed_from fuel p up (expectedVersion up) "".

Definition partSizeOf (p : Provider P) (sess : UploadSession) : Z :=
  if decide (0 < ses_PartSize sess) then ses_PartSize sess
  else if decide (0 < cap_PartSize p) then cap_PartSize p else 4194304.

(** The part count and the byte range of part [i]. *)
Definition nParts (size partSize : Z) : Z :=
  let n := Z.quot (wrap64 (size + partSize - 1)) partSize in if decide (n = 0) then 1 else n.
Definition part_off (partSize i : Z) : Z := i * partSize.
Definition part_len (size partSize i : Z) : Z :=
  let off := part_off partSize i in
  let n := if decide (size < off + partSize) then size - off else partSize in
  if decide (n < 0) then 0 else n.
Definition section (data : list Z) (off n : Z) : list Z := take (Z.to_nat n) (drop (Z.to_nat off) data).

Definition expired (resumed : bool) (e : gerr) : gerr :=
  if resumed && errors_Is e PErrNotFound then wrap2 (sent errSessionExpired) e else e.

Definition fail_as {A} (f : gerr -> gerr) (m : UOp A) : UOp A := fun s =>
  match m s with (Ok a, s') => (Ok a, s') | (Err e, s') => (Err (f e), s') end.

(** The loop over parts: recorded ones are skipped, the others sent and recorded. *)
Fixpoint send_parts (left : nat) (i : Z) (p : Provider P) (up : Upload) (sess : UploadSession) (resumed : bool)
    (partSize : Z) (data : list Z) (done : gmap Z PartToken) (acc : list PartToken) : UOp (list PartToken) :=
  match left with
  | O => oret acc
  | S left' =>
      do* ctx_check;
      match done !! i with
      | Some pt => send_parts left' (i + 1) p up sess resumed partSize data done (acc ++ [pt])
      | None =>
          let off := part_off partSize i in
          let n := part_len (Size up) partSize i in
          do* waitLimit (Remote up);
          let* pt := fail_as (expired resumed)
                       (policyDo (MkToken 0 "") (Remote up) (pop (UploadPart p sess i (section data off n) n))) in
          do* succeeded (Remote up);
          do* oignore (jop (RecordPart (ID up) (MkPart i (t_ETag pt) "done")));
          send_parts left' (i + 1) p up sess resumed partSize data done (acc ++ [pt])
      end
  end.

Definition done_parts (l : list Part) : gmap Z PartToken :=
  list_to_map (rev (map (fun pt => (Index pt, MkToken (Index pt) (ETag pt))) (filter (fun pt => PState pt = "done") l))).

(** The transfer of an open session, to its completion. *)
Definition transfer (p : Provider P) (up : Upload) (name : string) (sess : UploadSession) (resumed : bool) : UOp Result :=
  let partSize := partSizeOf p sess in
  let* blob := openBlob (BlobPath up) in
  match blob with
  | None => ofail notfound_open
  | Some data =>
      let* recorded := otry (jop (query (Parts (ID up)))) in
      let done := match recorded with Ok l => done_parts l | Err _ => ∅ end in
      let* parts := send_parts (Z.to_nat (nParts (Size up) partSize)) 0 p up sess resumed partSize data done [] in
      let* entry := fail_as (expired resumed)
                      (policyDo zero_entry (Remote up) (pop (CompleteUpload p sess parts))) in
      do* succeeded (Remote up);
      oret (named_result up name (MkResult (ID up) (Some entry) false ""))
  end.

(** A new session: accepted by hash alone, or persisted and then sent. *)
Definition fresh_transfer (p : Provider P) (up : Upload) (name : string) : UOp Result :=
  let* sess := begin p up name in
  if RapidDone sess then
    do* succeeded (Remote up);
    oret (named_result up name (MkResult (ID up) (ses_Entry sess) true ""))
  else do* jop (SetSession (ID up) (persistSession sess)); transfer p up name sess false.

(** The name the data goes under: beside a remote edit, not over it. *)
Definition targetName (fuel : nat) (p : Provider P) (up : Upload) : UOp string :=
  if decide (ExpectedVersion up <> "") then
    let* changed := otry (remoteChanged fuel p up) in
    oret (match changed with Ok true => conflictName (Name up) suffix | _ => Name up end)
  else oret (Name up).

Definition runOne (fuel : nat) (p : Provider P) (up : Upload) : UOp Result :=
  let* name := targetName fuel p up in
  do* waitLimit (Remote up);
  match restoreSession (Session up) with
  | Some sess => transfer p up name sess true
  | None =>
      match PutFile p with
      | Some put => if decide (0 < SinglePutMax p /\ Size up <= SinglePutMax p) then putWhole put up name
                    else fresh_transfer p up name
      | None => fresh_transfer p up name
      end
  end.

(** *** Outcomes *)

Definition log_hook (e : hook_event) : UOp unit := omodify (fun s => s <| hooks ::= fun l => l ++ [e] |>).

Definition dead (up : Upload) (cause : gerr) : UOp unit :=
  let* r := otry (jop (Fail (ID up) (Error cause))) in
  match r with Ok _ => log_hook (HDead up cause) | Err _ => oret tt end.

Definition goneLocally (up : Upload) : bool :=
  match Exists_ hk with
  | Some f => if decide (Ino up = 0) then false else negb (f up)
  | None => false
  end.

(** Forget the session and mark its parts stale, then retry at once. *)
Definition restart (up : Upload) (e : gerr) : UOp unit :=
  do* oignore (jop (SetSession (ID up) ∅));
  let* parts := otry (jop (query (Parts (ID up)))) in
  do* oforeach (match parts with Ok l => l | Err _ => [] end)
        (fun pt => oignore (jop (RecordPart (ID up) (MkPart (Index pt) "" "stale"))));
  oignore (jop (Retry (ID up) (Error e) 0)).

Definition unavailableRetry : Z := 30 * Second.

(** A successful transfer, published under the lock Cancel takes. *)
Definition publish (p : Provider P) (up : Upload) (res_ : Result) : UOp unit :=
  let* row := otry (jfree (Get (ID up))) in
  match row with
  | Err _ => oret tt
  | Ok row =>
      if decide (UState row = StateCancelling \/ UState row = StateCancelled \/ UState row = StatePurging)
      then oret tt
      else
        let* row2 := otry (jop (Get (ID up))) in
        if match row2 with Ok r => Tombstoned r | Err _ => false end then
          let id := match REntry res_ with Some e => e_ID e | None => "" end in
          let* del := (if decide (id <> "") then otry (pop (Delete_ p id)) else oret (Ok tt)) in
          match del with
          | Err e => if errors_Is e PErrNotFound then oignore (jop (Drop (ID up)))
                     else oignore (jop (Retry (ID up) (Error (wrap "upload: removing tombstoned file" e)) Second))
          | Ok _ => oignore (jop (Drop (ID up)))
          end
        else
          let verdict := match OnSuccess hk with Some f => f up res_ | None => None end in
          do* (match OnSuccess hk with Some _ => log_hook (HSuccess up res_) | None => oret tt end);
          match verdict with
          | Some e => dead up (wrap "upload: post-upload bookkeeping failed" e)
          | None => oignore (jop (Succeed (ID up)))
          end
  end.

Definition givingUp (up : Upload) (e : gerr) : gerr := wrap "upload: giving up" e.

(** A failed transfer, by what the error means. *)
Definition settle (up : Upload) (e : gerr) : UOp unit :=
  if errors_Is e PErrUnavailable then oignore (jop (Defer (ID up) unavailableRetry (Error e)))
  else if errors_Is e PErrNotFound && goneLocally up then oignore (jop (Drop (ID up)))
  else
    match Classify (Some e) with
    | ClassCanceled => oignore (jfree (Defer (ID up) 0 (Error e)))
    | ClassRetryable | ClassAuth | ClassLinkExpired | ClassRiskControl =>
        if decide (uMaxAttempts <= Attempt up + 1) then dead up (givingUp up e)
        else
          let delay := Delay backoff jitter (Attempt up) (Retry.RetryAfter e) in
          let delay := if decide (Classify (Some e) = ClassRiskControl) then Z.max delay (30 * Second) else delay in
          oignore (jop (Retry (ID up) (Error e) delay))
    | ClassQuota =>
        if negb (errors_Is e PErrRestartUpload) then dead up e
        else if decide (uMaxAttempts <= Attempt up + 1) then dead up (givingUp up e)
        else restart up e
    | _ => dead up e
    end.

Definition process_body (fuel : nat) (up : Upload) : UOp unit :=
  match match Authorize hk with Some f => f up | None => None end with
  | Some e => dead up (wrap "upload: local account binding rejected this task" e)
  | None =>
      let* sup := otry (jop (query (Superseded up))) in
      if match sup with Ok b => b | Err _ => false end then oignore (jop (Succeed (ID up)))
      else
        let* busy := otry (jop (query (OlderInFlight up))) in
        if match busy with Ok b => b | Err _ => false end
        then oignore (jop (Defer (ID up) (20 * Millisecond) "upload: waiting for an earlier version of this file"))
        else
          match Providers (Remote up) with
          | None => dead up (Gerr (KText "upload: no provider for remote") [])
          | Some p =>
              let* r := otry (runOne fuel p up) in
              match r with
              | Ok res_ => publish p up res_
              | Err e => if errors_Is e errSessionExpired then restart up e else settle up e
              end
          end
  end.

(** *** Registration, release and cancellation *)

Definition registerTransfer (up : Upload) : UOp bool :=
  let* row := otry (jfree (Get (ID up))) in
  match row with
  | Err _ => oret false
  | Ok row =>
      if decide (UState row = StateCancelling) then do* oignore (jfree (FinishCancel (ID up))); oret false
      else if decide (UState row <> StateUploading) then oret false
      else
        let* ended := ctx_flag in
        if (ended : bool) then
          do* oignore (jfree (Defer (ID up) 0 "worker cancelled before transfer registration")); oret false
        else fun s => if decide (ID up ∈ transfers s) then (Ok false, s)
                      else (Ok true, s <| transfers ::= fun t => {[ID up]} ∪ t |>)
  end.

Definition release (up : Upload) : UOp unit :=
  let* row := otry (jfree (Get (ID up))) in
  do* (match row with
       | Ok row =>
           if decide (UState row = StateCancelling) then oignore (jfree (FinishCancel (ID up)))
           else if decide (UState row = StateUploading)
           then oignore (jfree (Defer (ID up) 0 "worker ended before completing bookkeeping"))
           else oret tt
       | Err _ => oret tt
       end);
  omodify (fun s => s <| transfers ::= fun t => t ∖ {[ID up]} |>).

(** process: register, run, release whatever happened in between. *)
Definition process (fuel : nat) (up : Upload) : UOp unit := fun s =>
  match registerTransfer up s with
  | (Ok true, s1) => release up (snd (process_body fuel up s1))
  | (_, s1) => (Ok tt, s1)
  end.

(** Cancel: durable first; [true] when a live transfer is interrupted. *)
Definition Cancel (id : string) : UOp State := fun s =>
  match RequestCancel id (uj s) with
  | (Err e, j) => (Err (jerror e), s <| uj := j |>)
  | (Ok st, j) =>
      let s := s <| uj := j |> in
      if decide (id ∈ transfers s) then (Ok st, s <| ctx ::= cons (true, []) |>)
      else if decide (st = StateCancelling) then
        match FinishCancel id j with
        | (Ok _, j') => (Ok StateCancelled, s <| uj := j' |>)
        | (Err e, j') => (Err (jerror e), s <| uj := j' |>)
        end
      else (Ok st, s)
  end.

Definition drainOnce (fuel : nat) (remote : string) : UOp Z :=
  let* claimed := jop (Claim remote 1) in
  do* oforeach claimed (fun up => process fuel up);
  oret (Z.of_nat (length claimed)).

(** One sweep over the remotes with queued work, then again until a sweep
    finds nothing due; [rounds] bounds the sweeps. *)
Fixpoint drain_remotes (fuel : nat) (remotes : list string) (total : Z) : UOp Z :=
  match remotes with
  | [] => oret total
  | r :: rest => let* n := drainOnce fuel r in drain_remotes fuel rest (total + n)
  end.
Fixpoint drain_all (rounds fuel : nat) (total : Z) : UOp Z :=
  match rounds with
  | O => ofail (Gerr (KText "drain does not end") [])
  | S rounds' =>
      let* remotes := jop (query Remotes) in
      let* n := drain_remotes fuel remotes 0 in
      if decide (0 < n) then drain_all rounds' fuel (total + n) else oret total
  end.
Definition DrainAll (rounds fuel : nat) : UOp Z := drain_all rounds fuel 0.

(** *** Flush *)

Inductive flush_verdict :=
| FlushClean | FlushDead (n : Z) | FlushCancelled | FlushCleanup | FlushWait.

Definition flush_verdict_of (st : Stats) : flush_verdict :=
  if decide (0 < st_Purging st) then FlushCleanup
  else if decide (0 < st_Cancelled st \/ 0 < st_Cancelling st) then FlushCancelled
  else if decide (st_Pending st = 0 /\ st_Uploading st = 0) then
    if decide (0 < st_Dead st) then FlushDead (st_Dead st) else FlushClean
  else FlushWait.

(** The uploader's started and stopped flags, as read in each round. *)
Record run_flags := MkFlags { started : bool; stopped_ : bool }.

Definition ErrCleanupPending : gerr := Gerr (KText "upload: local upload cleanup remains unfinished") [].
Definition ErrCancelledUploads : gerr := Gerr (KText "upload: cancelled uploads retain local content") [].
Definition ErrDeadLetters : gerr := Gerr (KText "upload: failed uploads remain") [].

(** Err inside [DrainAll] or [Stats] once the context ended is the context's. *)
Definition or_ctx {A} (m : UOp A) : UOp A := fun s =>
  match m s with
  | (Ok a, s') => (Ok a, s')
  | (Err e, s') => (let* b := ctx_ended in ofail (if (b : bool) then ctx_err else e)) s'
  end.
Definition Stats_ : UOp Stats := fun s => jop (query (stats_of (now (uj s)))) s.

(** One poll: [None] is "not yet". *)
Definition flush_round (rounds fuel : nat) (fl : run_flags) : UOp (option Stats) :=
  do* ctx_check;
  if stopped_ fl then ofail (Gerr (KText "upload: uploader is stopped") [])
  else
    do* (if started fl
         then let* b := ctx_ended in
              if (b : bool) then ofail (wrap "upload: workers stopped" ctx_err) else oret tt
         else do* or_ctx (DrainAll rounds fuel); oret tt);
    let* st := or_ctx Stats_ in
    match flush_verdict_of st with
    | FlushCleanup => ofail ErrCleanupPending
    | FlushCancelled => ofail ErrCancelledUploads
    | FlushDead _ => ofail (Gerr (KText "") [ErrDeadLetters])
    | FlushClean => oret (Some st)
    | FlushWait => oret None
    end.

(** The polling loop over the flags each poll reads: the caller's deadline
    bounds it, here the number of polls. *)
Fixpoint Flush (rounds fuel : nat) (polls : list run_flags) : UOp Stats :=
  match polls with
  | [] => ofail (sent ContextDeadlineExceeded)
  | fl :: rest =>
      let* r := flush_round rounds fuel fl in
      match r with
      | Some st => oret st
      | None => do* ctx_check; Flush rounds fuel rest
      end
  end.
End Worker.

(** ** Worker pools: New, Start, syncRemotes, Stop *)

Record PoolOptions := MkPoolOptions { Workers : Z; WorkersFor : option (string -> Z) }.

(** [New]: the defaults for what the caller left at zero. *)
Definition newWorkers (n : Z) : Z := if decide (n <= 0) then 2 else n.
Definition newMaxAttempts (n : Z) : Z := if decide (n <= 0) then 8 else n.
Definition newPollInterval (n : Z) : Z := if decide (n <= 0) then Second else n.

(** [live] counts the workers of a remote that have been launched and not told
    to stop. *)
Record Pools := MkPools {
  supervisor : bool; pstopped : bool; running : gset string;
  live : gmap string Z
}.
#[export] Instance Pools_eta : Settable Pools := fun s =>
  MkPools (supervisor s) (pstopped s) (running s) (live s).
Definition NewPools : Pools := MkPools false false ∅ ∅.

Definition workers_for (o : PoolOptions) (r : string) : Z :=
  match WorkersFor o with
  | Some f => if decide (0 < f r) then f r else newWorkers (Workers o)
  | None => newWorkers (Workers o)
  end.

Definition Start (s : Pools) : Pools :=
  if pstopped s || supervisor s then s else s <| supervisor := true |>.

Fixpoint sync_each (o : PoolOptions) (remotes : list string) (s : Pools) : Pools :=
  match remotes with
  | [] => s
  | r :: rest =>
      sync_each o rest
        (if decide (r ∈ running s) then s
         else s <| running ::= fun t => {[r]} ∪ t |> <| live ::= fun m => <[r := default 0 (m !! r) + workers_for o r]> m |>)
  end.
Definition syncRemotes (o : PoolOptions) (remotes : list string) (s : Pools) : Pools :=
  if pstopped s then s else sync_each o remotes s.

(** Stop cancels every pool's context and waits for the workers. *)
Definition Stop (s : Pools) : Pools :=
  if pstopped s then s
  else s <| pstopped := true |> <| running := ∅ |> <| supervisor := false |> <| live := ∅ |>.
