(* ===== verification/UploaderData.v ===== *)
(** * What the backend ends up holding

    The parts of a transfer cover the file exactly; a transfer that returns has
    assembled the queued bytes on a backend that keeps what it accepts, also
    when it resumes a session.  The session survives the journal, and the
    conflict check sees every page of the directory. *)
From S2P Require Import Prelude JournalState JournalQueue JournalAdmin Staging JournalCopy JournalReach Retry RateLimit Uploader.
From Stdlib Require Import Ascii.
Open Scope Z_scope.

(** ** Part geometry *)

Lemma parts_prefix (data : list Z) (size ps : Z) (n : nat) :
  0 < ps -> 0 <= size ->
  concat (map (fun i => section data (part_off ps i) (part_len size ps i)) (seqZ 0 (Z.of_nat n)))
  = take (Z.to_nat (Z.min (Z.of_nat n * ps) size)) data.
Proof.
  intros Hp Hs. induction n as [|n IH]; [simpl; by rewrite Z.min_l by lia|].
  rewrite seqZ_S, map_app, concat_app, IH. simpl (map _ [_]). simpl (concat [_]). rewrite app_nil_r.
  unfold section, part_len, part_off. rewrite Z.add_0_l, Nat2Z.inj_succ, Z.mul_succ_l.
  destruct (decide (size <= Z.of_nat n * ps)) as [Hle|Hgt].
  - rewrite (Z.min_r (Z.of_nat n * ps)), (Z.min_r (_ + ps)) by lia.
    rewrite (decide_True (P := size < _)) by lia.
    match goal with |- _ ++ take (Z.to_nat ?l) _ = _ => replace (Z.to_nat l) with 0%nat by (case_decide; lia) end.
    by rewrite take_0, app_nil_r.
  - rewrite (Z.min_l (Z.of_nat n * ps)) by lia.
    assert (H : forall len, 0 <= len -> take (Z.to_nat (Z.of_nat n * ps)) data
                ++ take (Z.to_nat len) (drop (Z.to_nat (Z.of_nat n * ps)) data) = take (Z.to_nat (Z.of_nat n * ps + len)) data).
    { intros len Hl. rewrite take_take_drop. f_equal. nia. }
    destruct (decide (size < Z.of_nat n * ps + ps)); rewrite decide_False, H by lia; f_equal; f_equal; lia.
Qed.

Lemma nParts_enough size ps :
  0 < ps -> 0 <= size -> size + ps <= 2 ^ 63 -> 1 <= nParts size ps /\ size <= nParts size ps * ps.
Proof.
  intros Hp Hs Hb. unfold nParts. rewrite wrap64_id by lia. rewrite Z.quot_div_nonneg by lia.
  pose proof (Z.div_mod (size + ps - 1) ps). pose proof (Z.mod_pos_bound (size + ps - 1) ps).
  pose proof (Z.div_pos (size + ps - 1) ps). case_decide; nia.
Qed.

(** The byte ranges of a transfer, in order, are exactly the file: no gap,
    no overlap, no byte too many, whatever the part size. *)
Lemma parts_cover (data : list Z) (size ps : Z) :
  0 < ps -> 0 <= size -> size + ps <= 2 ^ 63 ->
  concat (map (fun i => section data (part_off ps i) (part_len size ps i)) (seqZ 0 (nParts size ps)))
  = take (Z.to_nat size) data.
Proof.
  intros Hp Hs Hb. destruct (nParts_enough size ps Hp Hs Hb) as [H1 H2].
  rewrite <- (Z2Nat.id (nParts size ps)) by lia. rewrite parts_prefix by lia. f_equal. f_equal. lia.
Qed.

(** ** The backend as a store

    What the uploader relies on: an accepted part is kept under its index and
    its token carries that index, a refused call spoils no other part, and
    completing a session joins the parts the tokens name. *)
Class PartStore {P : Type} (p : Provider P) := {
  stored : P -> UploadSession -> gmap Z (list Z);
  content : P -> string -> option (list Z);
  part_kept sess i data n st tok st' : UploadPart p sess i data n st = (Ok tok, st') ->
    stored st' sess = <[i := data]> (stored st sess) /\ t_Index tok = i;
  part_refused sess i data n st e st' : UploadPart p sess i data n st = (Err e, st') ->
    forall k, k <> i -> stored st' sess !! k = stored st sess !! k;
  joined sess toks st e st' : CompleteUpload p sess toks st = (Ok e, st') ->
    content st' (e_ID e) = Some (concat (map (fun t => default [] (stored st sess !! t_Index t)) toks));
  join_refused sess toks st e st' : CompleteUpload p sess toks st = (Err e, st') -> stored st' sess = stored st sess
}.

Section Transfer.
Context {cfg : Config} {F : Float64} {P : Type}.
Context (defaults : Key -> Options) (bopts : BreakerOptions) (policy : Policy).
Context (p : Provider P) {PS : PartStore p}.
Hypothesis attempts_pos : 0 < Retry.MaxAttempts policy.

Notation do_ := (policyDo defaults bopts policy).

(** Everything but a backend call leaves the backend alone. *)
Definition away {A} (m : UOp (P := P) A) : Prop := forall s, prov (snd (m s)) = prov s.

Lemma away_bind {A B} (m : UOp A) (k : A -> UOp B) : away m -> (forall a, away (k a)) -> away (obind m k).
Proof.
  intros Hm Hk s. specialize (Hm s). unfold obind. destruct (m s) as [[a|e] s1]; simpl in *; [|done].
  by rewrite (Hk a s1).
Qed.
Lemma away_ret {A} (a : A) : away (oret a). Proof. done. Qed.
Lemma away_fail {A} e : away (A := A) (ofail e). Proof. done. Qed.
Lemma away_ctx_ended : away ctx_ended.
Proof. intros s. unfold ctx_ended. by destruct (ctx s) as [|[b cs] rest]. Qed.
Lemma away_ctx_check : away ctx_check.
Proof. apply away_bind; [apply away_ctx_ended|]. by intros []. Qed.
Lemma away_limiter k f : away (upd_limiter defaults k f).
Proof. intros s. unfold upd_limiter. destruct (reg s); [|done]. by destruct (LimiterFor _ _ _ _). Qed.
Lemma away_wait r : away (waitLimit defaults r).
Proof.
  intros s. unfold waitLimit. destruct (reg s) as [g|]; [|done]. destruct (LimiterFor _ _ _ _) as [l g'].
  destruct (heap g' !! l) as [lim|]; [|done]. destruct (Reserve _ _) as [d lim']. case_decide; [done|].
  apply (away_ctx_check (MkUst P (uj s) (prov s) (ctx s) (transfers s) _ (hooks s))).
Qed.
Lemma away_trip r : away (trip bopts r).
Proof. intros s. unfold trip. destruct (reg s); [|done]. by destruct (BreakerFor _ _ _ _). Qed.
Lemma away_throttled r e : away (throttled defaults bopts r e).
Proof.
  intros s. unfold throttled. destruct (Classify _); try done; [apply away_limiter|].
  apply (away_bind _ _ (away_limiter _ _) (fun _ => away_trip _)).
Qed.
Lemma away_jfree {A} (m : Op jstate jerr A) : away (jfree m).
Proof. intros s. unfold jfree. by destruct (m (uj s)). Qed.
Lemma away_jop {A} (m : Op jstate jerr A) : away (jop m).
Proof. apply away_bind; [apply away_ctx_check|]. intros _. apply away_jfree. Qed.

Lemma bind_away {A B} (m : UOp A) (k : A -> UOp B) s b s' :
  away m -> obind m k s = (Ok b, s') -> exists a s1, prov s1 = prov s /\ m s = (Ok a, s1) /\ k a s1 = (Ok b, s').
Proof.
  intros Hm. specialize (Hm s). unfold obind. destruct (m s) as [[a|e] s1]; [|done]. simpl in Hm. eauto.
Qed.
Lemma bind_Ok {A B} (m : UOp (P := P) A) (k : A -> UOp B) s b s' :
  obind m k s = (Ok b, s') -> exists a s1, m s = (Ok a, s1) /\ k a s1 = (Ok b, s').
Proof. unfold obind. destruct (m s) as [[a|e] s1]; [|done]. eauto. Qed.

Lemma pop_run {A} (m : POp P A) s r s' : pop m s = (r, s') -> m (prov s) = (r, prov s').
Proof.
  unfold pop. destruct (m (prov s)) as [r0 st]. intros [= <- <-]. f_equal.
  by rewrite (away_ctx_ended (s <| prov := st |>)).
Qed.

(** A retried backend call that returns did return once, after refusals:
    [R] relates the states before and after any number of refusals. *)
Lemma policyDo_Ok {A} (zero : A) r (call_ : POp P A) (R : P -> P -> Prop) s a s' :
  (forall st, R st st) -> (forall st st1 st2 e, R st st1 -> call_ st1 = (Err e, st2) -> R st st2) ->
  do_ zero r (pop call_) s = (Ok a, s') -> exists st, R (prov s) st /\ call_ st = (Ok a, prov s').
Proof.
  intros Hrefl Hstep. unfold policyDo.
  assert (H : forall left attempt last s0, R (prov s) (prov s0) -> (0 < left)%nat ->
     Z.of_nat left + attempt = Retry.MaxAttempts policy ->
     do_loop policy left attempt (pop call_) (throttled defaults bopts r) last s0 = (Ok a, s') ->
     exists st, R (prov s) st /\ call_ st = (Ok a, prov s')).
  { induction left as [|left IH]; intros attempt last s0 HR Hl Hs; [lia|]. simpl.
    unfold obind at 1, otry. destruct (pop call_ s0) as [[a0|e] s1] eqn:Ep; apply pop_run in Ep.
    - intros [= <- <-]. eauto.
    - destruct (decide _); [done|]. destruct (decide _) as [|Hn]; [done|]. intros Hk.
      apply bind_away in Hk as ([] & s2 & E2 & _ & Hk); [|apply away_throttled].
      apply bind_away in Hk as ([] & s3 & E3 & _ & Hk); [|apply away_ctx_check].
      eapply IH; [|lia| |exact Hk]; [|lia]. rewrite E3, E2. by eapply Hstep. }
  intros Hd. eapply H; [apply Hrefl| | |exact Hd]; lia.
Qed.

Variables (up : Upload) (sess : UploadSession) (resumed : bool) (ps : Z) (data : list Z).
Notation part i := (section data (part_off ps i) (part_len (Size up) ps i)).

Lemma fail_as_Ok {A} g (m : UOp (P := P) A) s a s' : fail_as g m s = (Ok a, s') -> m s = (Ok a, s').
Proof. unfold fail_as. destruct (m s) as [[|] ?]; [by intros [= <- <-]|done]. Qed.

Lemma send_one r i n s tok s' :
  do_ (MkToken 0 "") r (pop (UploadPart p sess i (part i) n)) s = (Ok tok, s') ->
  t_Index tok = i /\ stored (prov s') sess !! i = Some (part i)
  /\ forall k, k <> i -> stored (prov s') sess !! k = stored (prov s) sess !! k.
Proof.
  intros H. eapply (policyDo_Ok _ _ _ (fun a b => forall k, k <> i -> stored b sess !! k = stored a sess !! k)) in H as (st & HR & E).
  - apply part_kept in E as [-> Ht]. rewrite lookup_insert_eq. split_and!; [done..|].
    intros k Hk. by rewrite lookup_insert_ne, HR.
  - done.
  - intros st st1 st2 e HR E k Hk. by rewrite (part_refused _ _ _ _ _ _ _ E), HR.
Qed.

(** The loop leaves every part of its range in the backend, in order. *)
Lemma send_parts_stored dn left : forall i acc s toks s',
  (forall k tok, i <= k -> dn !! k = Some tok -> t_Index tok = k /\ stored (prov s) sess !! k = Some (part k)) ->
  send_parts defaults bopts policy left i p up sess resumed ps data dn acc s = (Ok toks, s') ->
  map t_Index toks = map t_Index acc ++ seqZ i (Z.of_nat left)
  /\ (forall k, k < i -> stored (prov s') sess !! k = stored (prov s) sess !! k)
  /\ (forall k, i <= k < i + Z.of_nat left -> stored (prov s') sess !! k = Some (part k)).
Proof.
  induction left as [|left IH]; intros i acc s toks s' Hdn; simpl send_parts.
  { intros [= <- <-]. rewrite app_nil_r. split_and!; [done..|lia]. }
  intros H. apply bind_away in H as ([] & s1 & E1 & _ & H); [|apply away_ctx_check].
  rewrite seqZ_cons by lia. replace (Z.pred (Z.of_nat (S left))) with (Z.of_nat left) by lia.
  destruct (dn !! i) as [tok|] eqn:Ei.
  - destruct (Hdn i tok) as [Ht Hst]; [lia|done|]. apply IH in H as (Hi & Hlo & Hhi).
    2: { intros k tok' Hk. rewrite E1. apply Hdn. lia. }
    rewrite map_app, <- app_assoc in Hi. simpl in Hi. rewrite Ht in Hi. split; [exact Hi|]. split.
    + intros k Hk. rewrite Hlo, E1 by lia. done.
    + intros k Hk. destruct (decide (k = i)) as [->|]; [rewrite Hlo, E1 by lia; done|]. apply Hhi. lia.
  - apply bind_away in H as ([] & s2 & E2 & _ & H); [|apply away_wait].
    apply bind_Ok in H as (tok & s3 & E3 & H). apply fail_as_Ok, send_one in E3 as (Ht & Hst & Hoth).
    apply bind_away in H as ([] & s4 & E4 & _ & H); [|apply away_limiter].
    apply bind_away in H as ([] & s5 & E5 & _ & H); [|intros x; apply away_jop].
    apply IH in H as (Hi & Hlo & Hhi).
    2: { intros k tok' Hk Hd. rewrite E5, E4, Hoth, E2, E1 by lia. apply Hdn; [lia|done]. }
    rewrite map_app, <- app_assoc in Hi. simpl in Hi. rewrite Ht in Hi. split; [exact Hi|]. split.
    + intros k Hk. rewrite Hlo, E5, E4, Hoth, E2, E1 by lia. done.
    + intros k Hk. destruct (decide (k = i)) as [->|]; [rewrite Hlo, E5, E4 by lia; done|]. apply Hhi. lia.
Qed.
End Transfer.

Lemma partSizeOf_pos {P} (p : Provider P) sess : 0 < partSizeOf p sess.
Proof. unfold partSizeOf. repeat case_decide; lia. Qed.

Lemma done_parts_lookup l i tok :
  done_parts l !! i = Some tok -> exists pt, pt ∈ l /\ PState pt = "done" /\ Index pt = i /\ t_Index tok = i.
Proof.
  unfold done_parts. intros H. apply elem_of_list_to_map_2, list_elem_of_In, in_rev, list_elem_of_In, list_elem_of_fmap in H as (pt & E & Hin).
  apply list_elem_of_filter in Hin as [Hd Hin]. injection E as -> ->. eauto 6.
Qed.

Section Assemble.
Context {cfg : Config} {F : Float64} {P : Type}.
Context (defaults : Key -> Options) (bopts : BreakerOptions) (policy : Policy).
Context (p : Provider P) {PS : PartStore p}.

(** The journal as the next call made with the task's context finds it. *)
Definition next_journal (s : ust P) : jstate := uj (snd (ctx_ended s)).

Lemma parts_read id (s : ust P) l s' :
  otry (jop (query (Parts id))) s = (Ok (Ok l), s') -> l = Parts id (db (next_journal s)).
Proof.
  unfold next_journal, otry, jop, obind at 1, ctx_check, obind at 1.
  destruct (ctx_ended s) as [[[|]|] s1]; simpl; by intros [= <- _].
Qed.

Lemma concat_by_index (st : gmap Z (list Z)) toks ks (f : Z -> list Z) :
  map t_Index toks = ks -> (forall k, k ∈ ks -> st !! k = Some (f k)) ->
  concat (map (fun t => default [] (st !! t_Index t)) toks) = concat (map f ks).
Proof.
  intros <- Hk. rewrite map_map. f_equal. apply map_ext_in. intros t Ht. rewrite Hk; [done|].
  apply list_elem_of_fmap. exists t. split; [done|]. by apply list_elem_of_In.
Qed.

(** C26: when a transfer returns, the object the backend created holds exactly
    the bytes of the queued blob, first attempt or resumed session, however
    often parts were refused and retried and whatever others do to the journal
    meanwhile.  The conditions: the backend keeps what it accepts
    ([PartStore]: an accepted part is stored under its index, a refused call
    spoils no other part, completing a session joins the parts it is given);
    every part the journal lists as done when the transfer reads the list is
    in the backend; the retry policy allows at least one attempt; and the
    size is not negative and stays within int64 when a part size is added
    (the part count is computed from that sum). *)
Theorem transfer_assembles (up : Upload) (name : string) (sess : UploadSession) (resumed : bool)
    (data : list Z) (s s' : ust P) (res_ : Result) :
  let ps := partSizeOf p sess in
  0 < Retry.MaxAttempts policy -> 0 <= Size up -> Size up + ps <= 2 ^ 63 ->
  ReadFile (fsys (uj s)) (BlobPath up) = Some data ->
  (forall pt, pt ∈ Parts (ID up) (db (next_journal s)) -> PState pt = "done" ->
     stored (prov s) sess !! Index pt = Some (section data (part_off ps (Index pt)) (part_len (Size up) ps (Index pt)))) ->
  transfer defaults bopts policy p up name sess resumed s = (Ok res_, s') ->
  exists e, REntry res_ = Some e /\ content (prov s') (e_ID e) = Some (take (Z.to_nat (Size up)) data).
Proof.
  intros ps Hpol Hsz Hb Hblob Hparts. unfold transfer. fold ps. unfold obind at 1, openBlob. rewrite Hblob. intros H.
  apply bind_Ok in H as (rec & s1 & E1 & H).
  assert (Ep1 : prov s1 = prov s).
  { pose proof (away_jop (query (Parts (ID up))) s) as Ha. unfold otry in E1. destruct (jop _ s). simpl in Ha. congruence. }
  apply bind_Ok in H as (toks & s2 & E2 & H). apply (send_parts_stored defaults bopts policy p Hpol) in E2 as (Hidx & _ & Hst).
  2: { intros k tok _ Hk. rewrite Ep1. destruct rec as [l|e]; [|by rewrite lookup_empty in Hk].
       apply parts_read in E1 as ->.
       apply done_parts_lookup in Hk as (pt & Hin & Hd & <- & Ht). auto. }
  apply bind_Ok in H as (entry & s3 & E3 & H). apply fail_as_Ok in E3.
  eapply (policyDo_Ok defaults bopts policy Hpol _ _ _ (fun a b => stored b sess = stored a sess)) in E3 as (st & HR & E3).
  2: done. 2: { intros st st1 st2 e HR E. by rewrite (join_refused _ _ _ _ _ E). }
  apply joined in E3. rewrite HR in E3.
  apply bind_away in H as ([] & s4 & E4 & _ & H); [|apply away_limiter]. injection H as <- <-.
  exists entry. split; [unfold named_result; by case_decide|]. rewrite E4, E3. f_equal.
  destruct (nParts_enough (Size up) ps) as [Hn1 Hn2]; [apply partSizeOf_pos|lia..|].
  rewrite Z2Nat.id in Hidx, Hst by lia. simpl in Hidx.
  erewrite concat_by_index; [|exact Hidx|]; [apply parts_cover; [apply partSizeOf_pos|lia..]|].
  intros k Hk. apply Hst. apply elem_of_seqZ in Hk. lia.
Qed.
End Assemble.

(** ** Sessions through the journal *)

Lemma digit_val_of d : 0 <= d < 10 -> digit_val (digit_of d) = Some d.
Proof.
  intros H. assert (d = 0 \/ d = 1 \/ d = 2 \/ d = 3 \/ d = 4 \/ d = 5 \/ d = 6 \/ d = 7 \/ d = 8 \/ d = 9) as Hd by lia.
  by repeat (destruct Hd as [->|Hd]; [reflexivity|]); subst.
Qed.

Lemma parse_format (fuel : nat) : forall n acc, 0 <= n < 10 ^ Z.of_nat fuel ->
  exists k, 0 <= k /\ forall a, parse_digits (format_digits fuel n acc) a = parse_digits acc (a * 10 ^ k + n).
Proof.
  induction fuel as [|fuel IH]; intros n acc Hn.
  { simpl in Hn. exists 0. split; [done|]. intros a. simpl. f_equal. lia. }
  rewrite Nat2Z.inj_succ, Z.pow_succ_r in Hn by lia.
  pose proof (Z.mod_pos_bound n 10). pose proof (Z.div_mod n 10). cbn [format_digits]. case_decide.
  - exists 1. split; [done|]. intros a. cbn [parse_digits]. rewrite digit_val_of by lia. f_equal. rewrite Z.mod_small by lia. lia.
  - destruct (IH (n / 10) (String (digit_of (n mod 10)) acc)) as (k & Hk & E).
    { split; [apply Z.div_pos; lia|apply Z.div_lt_upper_bound; lia]. }
    exists (k + 1). split; [lia|]. intros a. rewrite E. cbn [parse_digits]. rewrite digit_val_of by lia. f_equal.
    rewrite Z.pow_add_r by lia. lia.
Qed.

Lemma format_head (fuel : nat) : forall n acc, 0 <= n ->
  exists d rest, 0 <= d < 10 /\ format_digits (S fuel) n acc = String (digit_of d) rest.
Proof.
  induction fuel as [|fuel IH]; intros n acc Hn; pose proof (Z.mod_pos_bound n 10).
  - cbn [format_digits]. case_decide; exists (n mod 10), acc; (split; [lia|done]).
  - cbn [format_digits]. case_decide; [exists (n mod 10), acc; (split; [lia|done])|]. apply IH. apply Z.div_pos; lia.
Qed.

Lemma ParseInt_FormatInt n : - 2 ^ 63 <= n < 2 ^ 63 -> ParseInt (FormatInt n) = n.
Proof.
  intros Hn. assert (Hfmt : forall m, 0 <= m <= 2 ^ 63 -> exists d rest, 0 <= d < 10 /\
     format_digits 20 m "" = String (digit_of d) rest /\ parse_digits (format_digits 20 m "") 0 = Some m).
  { intros m Hm. destruct (format_head 19 m "") as (d & rest & Hd & E); [lia|].
    destruct (parse_format 20 m "") as (k & _ & Ek); [lia|]. exists d, rest. rewrite Ek. cbn [parse_digits]. rewrite Z.mul_0_l, Z.add_0_l. auto. }
  assert (Hcl : forall z, - 2 ^ 63 <= z < 2 ^ 63 -> clamp64 z = z).
  { intros z Hz. unfold clamp64, MinInt64, MaxInt64. lia. }
  assert (Hsign : forall d, 0 <= d < 10 -> digit_of d <> "-"%char /\ digit_of d <> "+"%char).
  { intros d Hd. split; intros E; apply (f_equal digit_val) in E; by rewrite digit_val_of in E. }
  unfold FormatInt. destruct (decide (n < 0)).
  - destruct (Hfmt (- n)) as (d & rest & Hd & E & Ep); [lia|]. unfold ParseInt. rewrite decide_True by done.
    rewrite E in *. rewrite Ep. rewrite Z.opp_involutive. apply Hcl. lia.
  - destruct (Hfmt n) as (d & rest & Hd & E & Ep); [lia|]. destruct (Hsign d Hd). rewrite E in *. unfold ParseInt.
    rewrite !decide_False by done. rewrite Ep. apply Hcl. lia.
Qed.

(** a session survives the journal: what a restarted worker restores is the
    session the backend opened, with its part size and its private fields. *)
Theorem session_roundtrip (sess : UploadSession) :
  ses_ID sess <> "" -> - 2 ^ 63 <= ses_PartSize sess < 2 ^ 63 ->
  Opaque sess !! sessionIDKey = None -> Opaque sess !! sessionPartSizeKey = None ->
  restoreSession (persistSession sess)
  = Some (MkSession (ses_ID sess) (ses_PartSize sess) false None (Opaque sess)).
Proof.
  intros Hid Hps H1 H2. unfold restoreSession, persistSession.
  rewrite lookup_insert_ne, lookup_insert_eq by done. rewrite decide_False by done. rewrite lookup_insert_eq.
  simpl. rewrite ParseInt_FormatInt by done. do 2 f_equal. apply map_eq. intros k. apply option_eq. intros v.
  rewrite map_lookup_filter_Some. simpl. split.
  - intros [Hk [Hn1 Hn2]]. by rewrite !lookup_insert_ne in Hk by done.
  - intros Hk. assert (k <> sessionIDKey) by congruence. assert (k <> sessionPartSizeKey) by congruence.
    by rewrite !lookup_insert_ne by done.
Qed.

(** ** The conflict check *)

Section Conflict.
Context {cfg : Config} {P : Type}.

(** The whole directory: the entries of all pages and their number. *)
Inductive listing (p : Provider P) (parent : string) : string -> P -> list Entry -> nat -> Prop :=
| last_page cursor st es st' :
    List_ p parent cursor st = (Ok (es, ""), st') -> listing p parent cursor st es 1
| more_pages cursor st es next st' es' n :
    List_ p parent cursor st = (Ok (es, next), st') -> next <> "" ->
    listing p parent next st' es' n -> listing p parent cursor st (es ++ es') (S n).

Definition verdict_on (expected : string) (l : list Entry) : bool :=
  match l with
  | e :: _ => bool_decide (e_Version e <> "") && bool_decide (e_Version e <> expected)
  | [] => false
  end.

Lemma changed_from_listing p up expected cursor st all n :
  listing p (RemoteParentID up) cursor st all n ->
  forall fuel (s : ust P), prov s = st -> (n <= fuel)%nat ->
  fst (changed_from fuel p up expected cursor s) = Ok (verdict_on expected (filter (fun e => e_Name e = Name up) all)).
Proof.
  induction 1 as [cursor st es st' E|cursor st es next st' es' n E Hn Hl IH]; intros [|fuel] s Hs Hf; try lia;
    cbn [changed_from]; unfold obind, pop; rewrite Hs, E.
  - destruct (filter _ es) as [|e l]; [by rewrite decide_True|done].
  - rewrite filter_app. destruct (filter _ es) as [|e l]; [|done]. rewrite decide_False by done.
    apply IH; [|lia]. by rewrite (away_ctx_ended (s <| prov := st' |>)).
Qed.

(** a rewrite never lands on somebody else's edit that the directory
    shows, on whichever page: the data goes beside it under the conflict name
    exactly when the remote file has a version other than the one this node
    started from, and under its own name otherwise. *)
Theorem conflict_detected (hk : Hooks) (suffix : string) (fuel n : nat) (p : Provider P) (up : Upload)
    (s : ust P) (all : list Entry) :
  listing p (RemoteParentID up) "" (prov s) all n -> (n <= fuel)%nat -> ExpectedVersion up <> "" ->
  fst (targetName hk suffix fuel p up s)
  = Ok (if verdict_on (expectedVersion hk up) (filter (fun e => e_Name e = Name up) all)
        then conflictName (Name up) suffix else Name up).
Proof.
  intros Hl Hf He. unfold targetName. rewrite decide_True by done. unfold obind, otry, remoteChanged.
  pose proof (changed_from_listing p up (expectedVersion hk up) "" (prov s) all n Hl fuel s eq_refl Hf) as E.
  destruct (changed_from _ _ _ _ _ s) as [[b|e] s1]; simpl in *; [|done]. injection E as ->. by destruct (verdict_on _ _).
Qed.
End Conflict.
