(* ===== verification/UploaderProps.v ===== *)
(** * Guarantees of the uploader

    Every move of a worker is one of the journal's steps; a claim is never
    stranded; and against a backend whose acceptances are watched, a run that
    the backend did not accept leaves the upload queued with its payload. *)
From S2P Require Import Prelude Filepath JournalState JournalQueue JournalAdmin Staging JournalCopy JournalRecover JournalTx JournalInv JournalSafety JournalReach JournalLife Retry RateLimit Uploader.
From Stdlib Require Import Ascii.
Open Scope Z_scope.

(** ** Everything the worker does to the journal is a journal call *)

Section Steps.
Context {cfg : Config} {ok : CfgOk cfg} {F : Float64} {P : Type}.
Context (defaults : Key -> Options) (bopts : BreakerOptions).
Context (hk : Hooks) (Providers : string -> option (Provider P)).
Context (policy : Policy) (backoff : Backoff) (uMaxAttempts : Z).
Context (Error : gerr -> string) (jitter : Z) (suffix : string).

Notation UOp := (@UOp P).
Notation run_process := (process defaults bopts hk Providers policy backoff uMaxAttempts Error jitter suffix).

Definition usteps {A} (m : UOp A) : Prop := forall s, rtc jstep (uj s) (uj (snd (m s))).

Lemma usteps_bind {A B} (m : UOp A) (k : A -> UOp B) :
  usteps m -> (forall a, usteps (k a)) -> usteps (obind m k).
Proof.
  intros Hm Hk s. specialize (Hm s). unfold obind. destruct (m s) as [[a|e] s1]; simpl in *; [|done].
  etransitivity; [done|apply Hk].
Qed.
Lemma usteps_same {A} (m : UOp A) : (forall s, uj (snd (m s)) = uj s) -> usteps m.
Proof. intros H s. rewrite H. apply rtc_refl. Qed.
Lemma usteps_otry {A} (m : UOp A) : usteps m -> usteps (otry m).
Proof. intros Hm s. specialize (Hm s). unfold otry. by destruct (m s). Qed.
Lemma usteps_oignore {A} (m : UOp A) : usteps m -> usteps (oignore m).
Proof. intros Hm s. apply Hm. Qed.
Lemma usteps_foreach {A} (l : list A) (f : A -> UOp unit) : (forall x, usteps (f x)) -> usteps (oforeach l f).
Proof. intros Hf. induction l; simpl; [by apply usteps_same|]. by apply usteps_bind. Qed.
Lemma usteps_ret {A} (a : A) : usteps (oret a). Proof. by apply usteps_same. Qed.
Lemma usteps_fail {A} e : usteps (A := A) (ofail e). Proof. by apply usteps_same. Qed.

Lemma usteps_ctx_ended : usteps ctx_ended.
Proof.
  intros s. unfold ctx_ended. destruct (ctx s) as [|[b cs] rest]; [apply rtc_refl|]. simpl. clear.
  generalize (uj s). induction cs as [|c cs IH]; intros j; [apply rtc_refl|].
  etransitivity; [apply (steps_call c)|apply IH].
Qed.
Lemma usteps_ctx_check : usteps ctx_check.
Proof. apply usteps_bind; [apply usteps_ctx_ended|]. intros []; [apply usteps_fail|apply usteps_ret]. Qed.

Lemma usteps_jfree {A} (m : Op jstate jerr A) : (forall j, rtc jstep j (snd (m j))) -> usteps (jfree m).
Proof. intros Hm s. specialize (Hm (uj s)). unfold jfree. destruct (m (uj s)) as [[|] j]; done. Qed.
Lemma usteps_jop {A} (m : Op jstate jerr A) : (forall j, rtc jstep j (snd (m j))) -> usteps (jop m).
Proof. intros Hm. apply usteps_bind; [apply usteps_ctx_check|]. intros _. by apply usteps_jfree. Qed.
Lemma usteps_pop {A} (m : POp P A) : usteps (pop m).
Proof. intros s. unfold pop. destruct (m (prov s)) as [r p]. exact (usteps_ctx_ended (MkUst P (uj s) p (ctx s) (transfers s) (reg s) (hooks s))). Qed.

Lemma usteps_upd_limiter k f : usteps (upd_limiter defaults k f).
Proof. apply usteps_same. intros s. unfold upd_limiter. destruct (reg s); [|done]. by destruct (LimiterFor _ _ _ _). Qed.
Lemma usteps_waitLimit r : usteps (waitLimit defaults r).
Proof.
  intros s. unfold waitLimit. destruct (reg s) as [g|]; [|apply rtc_refl]. destruct (LimiterFor _ _ _ _) as [l g'].
  destruct (heap g' !! l) as [lim|]; [|apply rtc_refl]. destruct (Reserve _ _) as [d lim']. case_decide; [apply rtc_refl|].
  apply (usteps_ctx_check (MkUst P (uj s) (prov s) (ctx s) (transfers s) _ (hooks s))).
Qed.
Lemma usteps_trip r : usteps (trip bopts r).
Proof. apply usteps_same. intros s. unfold trip. destruct (reg s); [|done]. by destruct (BreakerFor _ _ _ _). Qed.
Lemma usteps_throttled r e : usteps (throttled defaults bopts r e).
Proof.
  intros s. unfold throttled. destruct (Classify _); try apply rtc_refl; [apply usteps_upd_limiter|].
  apply (usteps_bind _ _ (usteps_upd_limiter _ _) (fun _ => usteps_trip _)).
Qed.

Lemma usteps_policyDo {A} (zero : A) r (fn : UOp A) : usteps fn -> usteps (policyDo defaults bopts policy zero r fn).
Proof.
  intros Hf. unfold policyDo. generalize (@Ok gerr A zero), 0. induction (Z.to_nat _) as [|n IH]; intros last i; simpl.
  - by apply usteps_same.
  - apply usteps_bind; [by apply usteps_otry|]. intros [a|e]; [apply usteps_ret|].
    case_decide; [apply usteps_fail|]. case_decide; [apply usteps_fail|].
    apply usteps_bind; [apply usteps_throttled|]. intros _. apply usteps_bind; [apply usteps_ctx_check|]. intros _. apply IH.
Qed.

Lemma usteps_openBlob p : usteps (openBlob (P:=P) p). Proof. by apply usteps_same. Qed.
Lemma usteps_fail_as {A} g (m : UOp A) : usteps m -> usteps (fail_as g m).
Proof. intros Hm s. specialize (Hm s). unfold fail_as. by destruct (m s) as [[|] s']. Qed.

Lemma usteps_send_parts left : forall i p up sess resumed ps data dn acc,
  usteps (send_parts defaults bopts policy left i p up sess resumed ps data dn acc).
Proof.
  induction left as [|left IH]; intros i p up sess resumed ps data dn acc; simpl; [apply usteps_ret|].
  apply usteps_bind; [apply usteps_ctx_check|]. intros _. destruct (dn !! i); [apply IH|].
  apply usteps_bind; [apply usteps_waitLimit|]. intros _.
  apply usteps_bind; [apply usteps_fail_as, usteps_policyDo, usteps_pop|]. intros pt.
  apply usteps_bind; [apply usteps_upd_limiter|]. intros _.
  apply usteps_bind; [apply usteps_oignore, usteps_jop, (steps_call (CRecordPart (ID up) _))|]. intros _. apply IH.
Qed.

Lemma usteps_query {A} (f : DB -> A) : usteps (jop (query f)).
Proof. apply usteps_jop. intros j. apply rtc_refl. Qed.

Lemma usteps_transfer p up name sess resumed : usteps (transfer defaults bopts policy p up name sess resumed).
Proof.
  apply usteps_bind; [apply usteps_openBlob|]. intros [data|]; [|apply usteps_fail].
  apply usteps_bind; [apply usteps_otry, usteps_query|]. intros recorded.
  apply usteps_bind; [apply usteps_send_parts|]. intros parts.
  apply usteps_bind; [apply usteps_fail_as, usteps_policyDo, usteps_pop|]. intros entry.
  apply usteps_bind; [apply usteps_upd_limiter|]. intros _. apply usteps_ret.
Qed.

Lemma usteps_fresh p up name : usteps (fresh_transfer defaults bopts policy p up name).
Proof.
  apply usteps_bind.
  { apply usteps_bind; [apply usteps_openBlob|]. intros [d|]; [|apply usteps_fail].
    apply usteps_policyDo, usteps_pop. }
  intros sess. destruct (RapidDone sess).
  - apply usteps_bind; [apply usteps_upd_limiter|]. intros _. apply usteps_ret.
  - apply usteps_bind; [apply usteps_jop, (steps_call (CSetSession (ID up) _))|]. intros _. apply usteps_transfer.
Qed.

Lemma usteps_changed fuel : forall p up ex c, usteps (changed_from (P:=P) fuel p up ex c).
Proof.
  induction fuel as [|fuel IH]; intros p up ex c; simpl; [apply usteps_fail|].
  apply usteps_bind; [apply usteps_pop|]. intros [es next]. destruct (filter _ es); [|apply usteps_ret].
  case_decide; [apply usteps_ret|apply IH].
Qed.

Lemma usteps_runOne fuel p up : usteps (runOne defaults bopts hk policy suffix fuel p up).
Proof.
  apply usteps_bind.
  { unfold targetName. case_decide; [|apply usteps_ret].
    apply usteps_bind; [apply usteps_otry, usteps_changed|]. intros r. apply usteps_ret. }
  intros name. apply usteps_bind; [apply usteps_waitLimit|]. intros _.
  destruct (restoreSession _); [apply usteps_transfer|].
  destruct (PutFile p); [|apply usteps_fresh]. case_decide; [|apply usteps_fresh].
  apply usteps_bind; [apply usteps_openBlob|]. intros [d|]; [|apply usteps_fail].
  apply usteps_bind; [apply usteps_policyDo, usteps_pop|]. intros e.
  apply usteps_bind; [apply usteps_upd_limiter|]. intros _. apply usteps_ret.
Qed.

Lemma usteps_call {A} (m : Op jstate jerr A) (c : call) : (forall j, exec c j = snd (m j)) -> usteps (oignore (jop m)).
Proof. intros E. apply usteps_oignore, usteps_jop. intros j. rewrite <- E. apply steps_call. Qed.
Lemma usteps_call_free {A} (m : Op jstate jerr A) (c : call) : (forall j, exec c j = snd (m j)) -> usteps (oignore (jfree m)).
Proof. intros E. apply usteps_oignore, usteps_jfree. intros j. rewrite <- E. apply steps_call. Qed.

Lemma usteps_Get id : usteps (otry (jfree (Get id))).
Proof. apply usteps_otry, usteps_jfree. intros j. unfold Get. destruct (row_of id (db j)); apply rtc_refl. Qed.

Lemma usteps_dead up c : usteps (dead (P:=P) Error up c).
Proof.
  apply usteps_bind; [apply usteps_otry, usteps_jop, (steps_call (CFail (ID up) (Error c)))|].
  intros [[]|e]; [by apply usteps_same|apply usteps_ret].
Qed.

Lemma usteps_restart up e : usteps (restart (P:=P) Error up e).
Proof.
  apply usteps_bind; [by apply (usteps_call _ (CSetSession (ID up) ∅))|]. intros _.
  apply usteps_bind; [apply usteps_otry, usteps_query|]. intros parts.
  apply usteps_bind; [|intros _; by apply (usteps_call _ (CRetry (ID up) (Error e) 0))].
  apply usteps_foreach. intros pt. by apply (usteps_call _ (CRecordPart (ID up) (MkPart (Index pt) "" "stale"))).
Qed.

Lemma usteps_publish p up r : usteps (publish hk Error p up r).
Proof.
  apply usteps_bind; [apply usteps_Get|]. intros [row|]; [|apply usteps_ret]. case_decide; [apply usteps_ret|].
  apply usteps_bind.
  { apply usteps_otry, usteps_jop. intros j. unfold Get. destruct (row_of _ (db j)); apply rtc_refl. }
  intros row2. destruct (match row2 with Ok r0 => Tombstoned r0 | Err _ => false end).
  - apply usteps_bind; [case_decide; [apply usteps_otry, usteps_pop|apply usteps_ret]|].
    intros [[]|e]; [by apply (usteps_call _ (CDrop (ID up)))|]. destruct (errors_Is e _).
    + by apply (usteps_call _ (CDrop (ID up))).
    + by apply (usteps_call _ (CRetry (ID up) (Error (wrap "upload: removing tombstoned file" e)) Second)).
  - apply usteps_bind; [destruct (OnSuccess hk); [by apply usteps_same|apply usteps_ret]|]. intros _.
    destruct (match OnSuccess hk with Some f => f up r | None => None end); [apply usteps_dead|].
    by apply (usteps_call _ (CSucceed (ID up))).
Qed.

Lemma usteps_settle up e : usteps (settle (P:=P) hk backoff uMaxAttempts Error jitter up e).
Proof.
  unfold settle. destruct (errors_Is e PErrUnavailable); [by apply (usteps_call _ (CDefer (ID up) unavailableRetry (Error e)))|].
  destruct (_ && _); [by apply (usteps_call _ (CDrop (ID up)))|].
  destruct (Classify (Some e)) eqn:Ec; try apply usteps_dead.
  1-4: case_decide; [apply usteps_dead|];
       match goal with |- usteps (oignore (jop (Retry ?i ?m ?d))) => by apply (usteps_call _ (CRetry i m d)) end.
  - by apply (usteps_call_free _ (CDefer (ID up) 0 (Error e))).
  - destruct (negb _); [apply usteps_dead|]. case_decide; [apply usteps_dead|apply usteps_restart].
Qed.

Lemma usteps_body fuel up :
  usteps (process_body defaults bopts hk Providers policy backoff uMaxAttempts Error jitter suffix fuel up).
Proof.
  unfold process_body. destruct (match Authorize hk with Some f => f up | None => None end); [apply usteps_dead|].
  apply usteps_bind; [apply usteps_otry, usteps_query|]. intros sup.
  destruct (match sup with Ok b => b | Err _ => false end); [by apply (usteps_call _ (CSucceed (ID up)))|].
  apply usteps_bind; [apply usteps_otry, usteps_query|]. intros busy.
  destruct (match busy with Ok b => b | Err _ => false end);
    [by apply (usteps_call _ (CDefer (ID up) (20 * Millisecond) "upload: waiting for an earlier version of this file"))|].
  destruct (Providers (Remote up)) as [p|]; [|apply usteps_dead].
  apply usteps_bind; [apply usteps_otry, usteps_runOne|]. intros [r|e]; [apply usteps_publish|].
  destruct (errors_Is e errSessionExpired); [apply usteps_restart|apply usteps_settle].
Qed.

Lemma usteps_register up : usteps (registerTransfer (P:=P) up).
Proof.
  apply usteps_bind; [apply usteps_Get|]. intros [row|]; [|apply usteps_ret].
  case_decide.
  { apply usteps_bind; [by apply (usteps_call_free _ (CFinishCancel (ID up)))|intros _; apply usteps_ret]. }
  case_decide; [apply usteps_ret|]. apply usteps_bind.
  { apply usteps_same. intros s. unfold ctx_flag. by destruct (ctx s) as [|[]]. }
  intros [].
  - apply usteps_bind; [|intros _; apply usteps_ret].
    by apply (usteps_call_free _ (CDefer (ID up) 0 "worker cancelled before transfer registration")).
  - apply usteps_same. intros s. by case_decide.
Qed.

Lemma usteps_release up : usteps (release (P:=P) up).
Proof.
  apply usteps_bind; [apply usteps_Get|]. intros row. apply usteps_bind; [|intros _; by apply usteps_same].
  destruct row as [row|]; [|apply usteps_ret].
  case_decide; [by apply (usteps_call_free _ (CFinishCancel (ID up)))|].
  case_decide; [|apply usteps_ret]. by apply (usteps_call_free _ (CDefer (ID up) 0 "worker ended before completing bookkeeping")).
Qed.

(** Whatever the backend answers and whenever the context ends, one run of a
    worker over an upload changes the journal only by the journal's own steps. *)
Lemma process_steps (fuel : nat) (up : Upload) (s : ust P) :
  rtc jstep (uj s) (uj (snd (run_process fuel up s))).
Proof.
  unfold process. pose proof (usteps_register up s) as H1.
  destruct (registerTransfer up s) as [[[]|] s1]; simpl in H1; try done.
  etransitivity; [exact H1|]. etransitivity; [apply (usteps_body fuel up s1)|apply usteps_release].
Qed.

(** *** Claims are never stranded *)

Definition resting (d : DB) (id : string) : Prop :=
  forall r, row_of id d = Some r -> r_state r <> StateUploading /\ r_state r <> StateCancelling.

Lemma FinishCancel_rests id j :
  cfg_owner = true -> (forall r, row_of id (db j) = Some r -> r_state r = StateCancelling) ->
  resting (db (snd (FinishCancel id j))) id.
Proof.
  intros Ho H r. unfold FinishCancel, obind, require. rewrite Ho. simpl.
  rewrite row_of_upd_rows by done. destruct (row_of id (db j)) as [r0|] eqn:E; [|done].
  intros [= <-]. pose proof (row_of_Some_1 _ _ _ E) as [_ Hid]. rewrite decide_True; [done|]. auto.
Qed.

Lemma Defer_rests id d why j :
  (forall r, row_of id (db j) = Some r -> r_state r = StateUploading) ->
  resting (db (snd (Defer id d why j))) id.
Proof.
  intros H r. unfold Defer, obind, now_of, tx, deferTx, tbind, guardNotCancelled, uploadMutationState. simpl.
  destruct (row_of id (db j)) as [r0|] eqn:E.
  - rewrite (H r0 eq_refl). simpl. unfold upd_id. rewrite row_of_upd_rows, E by done.
    intros [= <-]. pose proof (row_of_Some_1 _ _ _ E) as [_ Hid]. by rewrite decide_True.
  - destruct (upload_discarded (db j) !! id); simpl; [by rewrite E|].
    unfold upd_id. rewrite row_of_upd_rows, E by done. done.
Qed.

Lemma jfree_uj {A} (m : Op jstate jerr A) (s : ust P) : uj (snd (jfree m s)) = snd (m (uj s)).
Proof. unfold jfree. by destruct (m (uj s)). Qed.
Lemma jfree_rest {A} (m : Op jstate jerr A) (s : ust P) :
  prov (snd (jfree m s)) = prov s /\ hooks (snd (jfree m s)) = hooks s.
Proof. unfold jfree. by destruct (m (uj s)). Qed.

Lemma jfree_Get id (s : ust P) :
  otry (jfree (Get id)) s =
  (Ok (match row_of id (db (uj s)) with Some r => Ok (scanUpload r) | None => Err (jerror ErrNotFound) end), s).
Proof. unfold otry, jfree, Get. destruct s. simpl. by destruct (row_of id _). Qed.

Lemma release_rests up (s : ust P) : cfg_owner = true -> resting (db (uj (snd (release up s)))) (ID up).
Proof.
  intros Ho. unfold release, obind at 1. rewrite jfree_Get.
  destruct (row_of (ID up) (db (uj s))) as [r|] eqn:E.
  2: { intros r' Hr'. simpl in Hr'. congruence. }
  change (UState (scanUpload r)) with (r_state r).
  assert (Hst : forall st r', r_state r = st -> row_of (ID up) (db (uj s)) = Some r' -> r_state r' = st) by congruence.
  destruct (decide (r_state r = StateCancelling)) as [Hc|Hc]; [|destruct (decide (r_state r = StateUploading)) as [Hu|Hu]].
  - unfold obind, omodify, oignore. simpl. rewrite jfree_uj. apply FinishCancel_rests; eauto.
  - unfold obind, omodify, oignore. simpl. rewrite jfree_uj. apply Defer_rests; eauto.
  - intros r' Hr'. simpl in Hr'. rewrite E in Hr'. by injection Hr' as <-.
Qed.

(** A refused registration leaves the row at rest and the backend alone. *)
Lemma register_refused up s r1 s1 :
  cfg_owner = true -> ID up ∉ transfers s -> registerTransfer (P:=P) up s = (r1, s1) -> r1 <> Ok true ->
  resting (db (uj s1)) (ID up).
Proof.
  intros Ho Ht. unfold registerTransfer, obind at 1. rewrite jfree_Get.
  destruct (row_of (ID up) (db (uj s))) as [r|] eqn:E.
  2: { intros [= <- <-] _ r' Hr'. congruence. }
  change (UState (scanUpload r)) with (r_state r).
  assert (Hst : forall st r', r_state r = st -> row_of (ID up) (db (uj s)) = Some r' -> r_state r' = st) by congruence.
  destruct (decide (r_state r = StateCancelling)) as [Hc|Hc].
  { unfold obind, oignore. intros [= <- <-] _. rewrite jfree_uj. apply FinishCancel_rests; eauto. }
  destruct (decide (r_state r <> StateUploading)) as [Hu|Hu].
  { intros [= <- <-] _ r' Hr'. rewrite E in Hr'. by injection Hr' as <-. }
  apply dec_stable in Hu. unfold obind, ctx_flag. destruct (ctx s) as [|[[] cs] rest].
  - rewrite decide_False by done. by intros [= <- <-].
  - unfold oignore. intros [= <- <-] _. rewrite jfree_uj. apply Defer_rests. simpl. eauto.
  - simpl. rewrite decide_False by done. by intros [= <- <-].
Qed.

(** a worker never strands a claim: when it is done with an upload, for
    whatever reason and however its context ended, the upload is not left
    marked as uploading or half-stopped. *)
Theorem process_settles_claim (fuel : nat) (up : Upload) (s : ust P) :
  cfg_owner = true -> ID up ∉ transfers s ->
  let s' := snd (run_process fuel up s) in
  forall r, row_of (ID up) (db (uj s')) = Some r ->
    r_state r <> StateUploading /\ r_state r <> StateCancelling.
Proof.
  intros Ho Ht s'. unfold s', process. destruct (registerTransfer up s) as [r1 s1] eqn:E.
  destruct r1 as [[]|]; [by apply release_rests| |];
    (eapply (register_refused up s); [exact Ho|exact Ht|exact E|congruence]).
Qed.

(** an upload stopped, finished or discarded before its transfer starts
    makes no call to the backend and triggers no hook. *)
Theorem stopped_makes_no_call (fuel : nat) (up : Upload) (s : ust P) (r : Row) :
  row_of (ID up) (db (uj s)) = Some r -> r_state r <> StateUploading ->
  let s' := snd (run_process fuel up s) in
  prov s' = prov s /\ hooks s' = hooks s.
Proof.
  intros E Hr s'. assert (exists s1, registerTransfer up s = (Ok false, s1) /\ prov s1 = prov s /\ hooks s1 = hooks s)
    as (s1 & E1 & H1).
  { unfold registerTransfer, obind at 1. rewrite jfree_Get, E. change (UState (scanUpload r)) with (r_state r).
    destruct (decide (r_state r = StateCancelling)).
    - exists (snd (jfree (FinishCancel (ID up)) s)). split; [done|apply jfree_rest].
    - exists s. by rewrite decide_True. }
  unfold s', process. by rewrite E1.
Qed.
End Steps.

(** *** Queue moves of a claimed row *)

Lemma upd_id_row id f d r :
  row_of id d = Some r -> (forall r, r_id (f r) = r_id r) -> row_of id (upd_id id f d) = Some (f r).
Proof.
  intros E Hf. unfold upd_id. rewrite row_of_upd_rows, E by done. simpl.
  pose proof (row_of_Some_1 _ _ _ E) as [_ Hid]. by rewrite decide_True.
Qed.

Lemma not_cancelled_tx {A} id (k : Tx DB jerr A) d r :
  row_of id d = Some r -> r_state r = StateUploading -> tbind (guardNotCancelled id) (fun _ => k) d = k d.
Proof. intros E Hs. unfold tbind, guardNotCancelled, uploadMutationState. by rewrite E, Hs. Qed.

Lemma not_purging_tx {A} id (k : Tx DB jerr A) d r :
  row_of id d = Some r -> r_state r = StateUploading -> tbind (guardNotPurging id) (fun _ => k) d = k d.
Proof. intros E Hs. unfold tbind, guardNotPurging, uploadMutationState. by rewrite E, Hs. Qed.

Lemma Defer_row id delay why j r :
  row_of id (db j) = Some r -> r_state r = StateUploading ->
  row_of id (db (snd (Defer id delay why j))) =
  Some (r <| r_state := StatePending |> <| r_next_retry := unixMilli (Some (now j + delay)) |> <| r_last_error := why |>).
Proof.
  intros E Hs. unfold Defer, obind, now_of, tx, deferTx. rewrite (not_cancelled_tx _ _ _ _ E Hs).
  unfold tmodify, tbind. simpl (db (snd _)). by rewrite (upd_id_row _ _ _ r).
Qed.
Lemma Retry_row id msg delay j r :
  row_of id (db j) = Some r -> r_state r = StateUploading ->
  row_of id (db (snd (JournalQueue.Retry id msg delay j))) =
  Some (r <| r_state := StatePending |> <| r_attempt := r_attempt r + 1 |>
          <| r_next_retry := unixMilli (Some (now j + delay)) |> <| r_last_error := msg |>).
Proof.
  intros E Hs. unfold JournalQueue.Retry, obind, now_of, tx, retryTx. rewrite (not_cancelled_tx _ _ _ _ E Hs).
  unfold tmodify, tbind. simpl (db (snd _)). by rewrite (upd_id_row _ _ _ r).
Qed.
Lemma Fail_row id msg j r :
  row_of id (db j) = Some r -> r_state r = StateUploading ->
  row_of id (db (snd (Fail id msg j))) = Some (r <| r_state := StateDead |> <| r_last_error := msg |>).
Proof.
  intros E Hs. unfold Fail, obind, now_of, tx, failTx. rewrite (not_cancelled_tx _ _ _ _ E Hs).
  unfold tmodify, tbind. simpl (db (snd _)).
  pose proof (upd_id_row id (fun r => r <| r_state := StateDead |> <| r_last_error := msg |>) (db j) r E) as H.
  by rewrite <- H.
Qed.

(** ** An upload the backend never accepted stays in the queue

    The backend is watched: beside its own state runs a flag that is raised
    when it accepts the upload, by completing a session, storing the whole file
    in one call, or taking it by its hashes alone. *)

Section Watched.
Context {P : Type}.
Definition noting {A} (yes : A -> bool) (m : POp P A) : POp (P * bool) A := fun s =>
  let '(r, p) := m (fst s) in (r, (p, snd s || match r with Ok a => yes a | Err _ => false end)).
Definition never {A} (_ : A) : bool := false.
Definition always {A} (_ : A) : bool := true.
Definition watched (p : Provider P) : Provider (P * bool) := {|
  SinglePutMax := SinglePutMax p;
  cap_PartSize := cap_PartSize p;
  BeginUpload dir name size hashes := noting RapidDone (BeginUpload p dir name size hashes);
  UploadPart sess i data n := noting never (UploadPart p sess i data n);
  CompleteUpload sess parts := noting always (CompleteUpload p sess parts);
  PutFile := (fun put dir name data size hashes => noting always (put dir name data size hashes)) <$> PutFile p;
  Delete_ id := noting never (Delete_ p id);
  List_ dir cursor := noting never (List_ p dir cursor)
|}.
Definition accepted (s : ust (P * bool)) : Prop := snd (prov s) = true.
End Watched.

Section Confirmed.
Context {cfg : Config} {F : Float64} {P : Type}.
Context (defaults : Key -> Options) (bopts : BreakerOptions).
Context (hk : Hooks) (Providers : string -> option (Provider P)).
Context (policy : Policy) (backoff : Backoff) (uMaxAttempts : Z).
Context (Error : gerr -> string) (jitter : Z) (suffix : string).
Context (up : Upload) (blob : string).
Notation UOp := (@UOp (P * bool)).

(** Others leave this upload's row alone, whatever else they do. *)
Definition hands_off (cs : list call) : Prop :=
  forall j, row_of (ID up) (db (others cs j)) = row_of (ID up) (db j).
Definition undisturbed (s : ust (P * bool)) : Prop := Forall (fun x => hands_off (snd x)) (ctx s).

(** The upload's row is there with its payload, in one of these states. *)
Definition held_in (sts : list State) (j : jstate) : Prop :=
  exists r, row_of (ID up) (db j) = Some r /\ r_state r ∈ sts /\ r_blob r = blob.
Definition mine (s : ust (P * bool)) : Prop := undisturbed s /\ held_in [StateUploading] (uj s).
Definition unfinished (s : ust (P * bool)) : Prop :=
  held_in [StateUploading; StatePending; StateDead] (uj s).

(** The operation keeps the claim, and an answer satisfying [yes] means that
    the backend accepted the upload. *)
Definition confirms {A} (yes : A -> bool) (m : UOp A) : Prop := forall s, mine s ->
  mine (snd (m s)) /\ forall a, fst (m s) = Ok a -> yes a = true -> accepted (snd (m s)).
(** Acceptance is never forgotten. *)
Definition lasting {A} (m : UOp A) : Prop := forall s, accepted s -> accepted (snd (m s)).
(** The operation may settle the row, but only as unfinished. *)
Definition rests {A} (m : UOp A) : Prop := forall s, mine s -> unfinished (snd (m s)).

Notation keeps m := (confirms never m).

Lemma mine_unfinished s : mine s -> unfinished s.
Proof. intros [_ (r & ? & Hs & ?)]. exists r. split_and!; [done| |done]. set_solver. Qed.

Lemma confirms_bind {A B} (y : A -> bool) (z : B -> bool) (m : UOp A) (k : A -> UOp B) :
  confirms y m ->
  (forall a, y a = true -> keeps (k a) /\ lasting (k a)) -> (forall a, y a = false -> confirms z (k a)) ->
  confirms z (obind m k).
Proof.
  intros Hm Hy Hn s Hs. destruct (Hm s Hs) as [H1 H2]. unfold obind. destruct (m s) as [[a|e] s1]; simpl in *; [|done].
  destruct (y a) eqn:Ea; [|by apply Hn]. destruct (Hy a Ea) as [Hk Hl]. split; [by apply Hk|].
  intros b _ _. apply Hl. by eapply H2.
Qed.
Lemma claim_bind {A B} (z : B -> bool) (m : UOp A) (k : A -> UOp B) :
  keeps m -> (forall a, confirms z (k a)) -> confirms z (obind m k).
Proof. intros Hm Hk. by eapply confirms_bind. Qed.
Lemma confirms_keeps {A} (y : A -> bool) (m : UOp A) : confirms y m -> keeps m.
Proof. intros Hm s Hs. split; [by apply Hm|done]. Qed.
Lemma keeps_ret {A} (a : A) : keeps (oret a). Proof. by intros s Hs. Qed.
Lemma confirms_fail {A} (y : A -> bool) e : confirms y (ofail e). Proof. by intros s Hs. Qed.
Lemma confirms_otry {A} (y : A -> bool) (m : UOp A) :
  confirms y m -> confirms (fun r => match r with Ok a => y a | Err _ => false end) (otry m).
Proof.
  intros Hm s Hs. destruct (Hm s Hs) as [H1 H2]. unfold otry. destruct (m s) as [[a|e] s1]; simpl in *; [|naive_solver].
  split; [done|]. intros ? [= <-]. eauto.
Qed.
Lemma keeps_otry {A} (m : UOp A) : keeps m -> keeps (otry m).
Proof. intros Hm. exact (confirms_keeps _ _ (confirms_otry never m Hm)). Qed.
Lemma keeps_oignore {A} (m : UOp A) : keeps m -> keeps (oignore m).
Proof. intros Hm s Hs. split; [by apply Hm|done]. Qed.
Lemma claim_foreach {A} (l : list A) (f : A -> UOp unit) : (forall x, keeps (f x)) -> keeps (oforeach l f).
Proof. intros Hf. induction l; simpl; [apply keeps_ret|]. by apply claim_bind. Qed.
Lemma confirms_fail_as {A} (y : A -> bool) g (m : UOp A) : confirms y m -> confirms y (fail_as g m).
Proof.
  intros Hm s Hs. specialize (Hm s Hs). unfold fail_as. destruct (m s) as [[|] s']; [done|]. by split; [apply Hm|].
Qed.

(** *** The schedule, the limiter and the journal *)

Lemma keeps_ctx_ended : keeps ctx_ended.
Proof.
  intros s [Hc Hr]. split; [|done]. unfold mine, undisturbed, ctx_ended in *.
  destruct (ctx s) as [|[b cs] rest] eqn:E; simpl; [by rewrite E|].
  inversion_clear Hc as [|? ? Hh Hc']. split; [done|]. simpl in Hh. destruct Hr as (r & Hr & Hs). exists r. by rewrite Hh.
Qed.
Lemma keeps_ctx_check : keeps ctx_check.
Proof. apply claim_bind; [apply keeps_ctx_ended|]. intros []; [apply confirms_fail|apply keeps_ret]. Qed.
(** An operation that changes neither the schedule nor the journal. *)
Lemma keeps_same {A} (m : UOp A) : (forall s, ctx (snd (m s)) = ctx s /\ uj (snd (m s)) = uj s) -> keeps m.
Proof. intros H s [Hc Hr]. destruct (H s) as [E1 E2]. split; [|done]. unfold mine, undisturbed. by rewrite E1, E2. Qed.

Definition row_kept (j j' : jstate) : Prop := held_in [StateUploading] j -> held_in [StateUploading] j'.
Lemma keeps_jfree {A} (m : Op jstate jerr A) : (forall j, row_kept j (snd (m j))) -> keeps (jfree m).
Proof. intros Hm s [Hc Hr]. specialize (Hm (uj s) Hr). unfold jfree. by destruct (m (uj s)) as [[|] j]. Qed.
Lemma keeps_jop {A} (m : Op jstate jerr A) : (forall j, row_kept j (snd (m j))) -> keeps (jop m).
Proof. intros Hm. apply claim_bind; [apply keeps_ctx_check|]. intros _. by apply keeps_jfree. Qed.
Lemma keeps_query {A} (f : DB -> A) : keeps (jop (query f)).
Proof. apply keeps_jop. by intros j Hj. Qed.
Lemma keeps_Get : keeps (jfree (Get (ID up))).
Proof. apply keeps_jfree. intros j Hj. unfold Get. by destruct (row_of _ (db j)). Qed.

Lemma kept_RecordPart pt j : row_kept j (snd (RecordPart (ID up) pt j)).
Proof.
  intros (r & E & Hs%list_elem_of_singleton & Hb). unfold RecordPart, tx, recordPartTx.
  rewrite (not_purging_tx _ _ _ r) by done. exists r. split_and!; [done| |done]. rewrite Hs. left.
Qed.
Lemma kept_SetSession m j : row_kept j (snd (SetSession (ID up) m j)).
Proof.
  intros (r & E & Hs%list_elem_of_singleton & Hb). unfold SetSession, tx, setSessionTx.
  rewrite (not_purging_tx _ _ _ r) by done. eexists. split; [by apply (upd_id_row _ _ _ r)|].
  simpl. rewrite Hs. split; [left|done].
Qed.

Lemma keeps_upd_limiter k f : keeps (upd_limiter defaults k f).
Proof. apply keeps_same. intros s. unfold upd_limiter. destruct (reg s); [|done]. by destruct (LimiterFor _ _ _ _). Qed.
Lemma lasting_upd_limiter k f : lasting (upd_limiter (P := P * bool) defaults k f).
Proof. intros s. unfold upd_limiter. destruct (reg s); [|done]. by destruct (LimiterFor _ _ _ _). Qed.
Lemma keeps_waitLimit r : keeps (waitLimit defaults r).
Proof.
  intros s Hs. split; [|done]. unfold waitLimit. destruct (reg s) as [g|]; [|done]. destruct (LimiterFor _ _ _ _) as [l g'].
  destruct (heap g' !! l) as [lim|]; [|done]. destruct (Reserve _ _) as [d lim']. case_decide; [done|].
  by apply (keeps_ctx_check (MkUst (P * bool) (uj s) (prov s) (ctx s) (transfers s) _ (hooks s))).
Qed.
Lemma keeps_trip r : keeps (trip bopts r).
Proof. apply keeps_same. intros s. unfold trip. destruct (reg s); [|done]. by destruct (BreakerFor _ _ _ _). Qed.
Lemma keeps_throttled r e : keeps (throttled defaults bopts r e).
Proof.
  intros s Hs. unfold throttled. destruct (Classify _); try done; [by apply keeps_upd_limiter|].
  by apply (claim_bind _ _ _ (keeps_upd_limiter _ _) (fun _ => keeps_trip _)).
Qed.

(** *** Backend calls *)

Lemma confirms_pop {A} (yes : A -> bool) (m : POp P A) : confirms yes (pop (noting yes m)).
Proof.
  intros s Hs. unfold pop, noting. destruct (m (fst (prov s))) as [r p].
  set (s1 := s <| prov := _ |>). assert (H1 : mine s1) by done. destruct (keeps_ctx_ended s1 H1) as [H2 _].
  assert (Hp : prov (snd (ctx_ended s1)) = prov s1) by (unfold ctx_ended; by destruct (ctx s1) as [|[]]).
  split; [done|]. intros a. simpl. intros -> Hy. unfold accepted. rewrite Hp. simpl. by rewrite Hy, orb_true_r.
Qed.
Lemma keeps_pop {A} (yes : A -> bool) (m : POp P A) : keeps (pop (noting yes m)).
Proof. eapply confirms_keeps, confirms_pop. Qed.
Lemma lasting_pop {A} (yes : A -> bool) (m : POp P A) : lasting (pop (noting yes m)).
Proof.
  intros s Hs. unfold pop, noting. destruct (m (fst (prov s))) as [r p]. unfold accepted, ctx_ended in *. simpl.
  destruct (ctx s) as [|[]]; simpl; by rewrite Hs.
Qed.

(** With at least one attempt, success of the retry loop is the call's. *)
Lemma confirms_do_loop {A} (y : A -> bool) fn onRetry : confirms y fn -> (forall e, keeps (onRetry e)) ->
  forall left i last, (left <> O \/ exists e, last = Err e) -> confirms y (do_loop policy left i fn onRetry last).
Proof.
  intros Hf Hr. induction left as [|left IH]; intros i last Hl; simpl.
  - destruct Hl as [|[e ->]]; [done|]. by intros s Hs.
  - eapply confirms_bind; [by apply confirms_otry|intros [a|] Ha; [|done]; split; [apply keeps_ret|by intros s]|].
    intros [a|e] Ha; [by intros s Hs; split; [done|]; intros ? [= <-]; rewrite Ha|].
    case_decide; [apply confirms_fail|]. case_decide; [apply confirms_fail|].
    apply claim_bind; [apply Hr|]. intros _. apply claim_bind; [apply keeps_ctx_check|]. intros _. apply IH. eauto.
Qed.
Lemma confirms_policyDo {A} (y : A -> bool) (zero : A) r fn :
  0 < MaxAttempts policy -> confirms y fn -> confirms y (policyDo defaults bopts policy zero r fn).
Proof. intros Hm Hf. apply confirms_do_loop; [done|intros; apply keeps_throttled|left; lia]. Qed.

Lemma keeps_openBlob p : keeps (openBlob p). Proof. by apply keeps_same. Qed.

(** *** One transfer *)

Section Transfer.
Hypothesis attempts : 0 < MaxAttempts policy.

Lemma quiet_succeeded {A} r (a : A) :
  keeps (obind (succeeded (P := P * bool) defaults r) (fun _ => oret a))
  /\ lasting (obind (succeeded (P := P * bool) defaults r) (fun _ => oret a)).
Proof.
  split; [apply claim_bind; [apply keeps_upd_limiter|intros; apply keeps_ret]|].
  intros s Hs. pose proof (lasting_upd_limiter (r, "", UploadC) Succeeded s Hs) as H1. unfold obind, succeeded.
  by destruct (upd_limiter _ _ _ s) as [[|] s1].
Qed.

(** An accepted call, its bookkeeping, its result. *)
Lemma confirms_stored {A B} (m : UOp A) r (f : A -> B) :
  confirms always m -> confirms always (obind m (fun a => obind (succeeded defaults r) (fun _ => oret (f a)))).
Proof. intros Hm. eapply confirms_bind; [exact Hm|intros a _; apply quiet_succeeded|done]. Qed.

Lemma keeps_send_parts p left : forall i sess resumed ps data dn acc,
  keeps (send_parts defaults bopts policy left i (watched p) up sess resumed ps data dn acc).
Proof.
  induction left as [|left IH]; intros i sess resumed ps data dn acc; simpl; [apply keeps_ret|].
  apply claim_bind; [apply keeps_ctx_check|]. intros _. destruct (dn !! i); [apply IH|].
  apply claim_bind; [apply keeps_waitLimit|]. intros _.
  apply claim_bind; [apply confirms_fail_as, confirms_policyDo, confirms_pop; done|]. intros pt.
  apply claim_bind; [apply keeps_upd_limiter|]. intros _.
  apply claim_bind; [apply keeps_oignore, keeps_jop; intros; apply kept_RecordPart|]. intros _. apply IH.
Qed.

Lemma confirms_transfer p name sess resumed :
  confirms always (transfer defaults bopts policy (watched p) up name sess resumed).
Proof.
  apply claim_bind; [apply keeps_openBlob|]. intros [data|]; [|apply confirms_fail].
  apply claim_bind; [apply keeps_otry, keeps_query|]. intros recorded.
  apply claim_bind; [apply keeps_send_parts|]. intros parts.
  apply confirms_stored, confirms_fail_as, confirms_policyDo, confirms_pop; done.
Qed.

Lemma confirms_put p put name : PutFile (watched p) = Some put ->
  confirms always (putWhole defaults bopts policy put up name).
Proof.
  simpl. destruct (PutFile p) as [put0|]; [|done]. intros [= <-].
  apply claim_bind; [apply keeps_openBlob|]. intros [d|]; [|apply confirms_fail].
  apply confirms_stored, confirms_policyDo, confirms_pop; done.
Qed.

Lemma confirms_fresh p name : confirms always (fresh_transfer defaults bopts policy (watched p) up name).
Proof.
  apply (confirms_bind RapidDone).
  - apply claim_bind; [apply keeps_openBlob|]. intros [d|]; [|apply confirms_fail].
    apply confirms_policyDo, confirms_pop; done.
  - intros sess ->. apply quiet_succeeded.
  - intros sess ->. apply claim_bind; [apply keeps_jop; intros; apply kept_SetSession|]. intros _. apply confirms_transfer.
Qed.

Lemma keeps_changed p fuel : forall ex c, keeps (changed_from fuel (watched p) up ex c).
Proof.
  induction fuel as [|fuel IH]; intros ex c; simpl; [apply confirms_fail|].
  apply claim_bind; [apply confirms_pop|]. intros [es next]. destruct (filter _ es); [|apply keeps_ret].
  case_decide; [apply keeps_ret|apply IH].
Qed.

(** A transfer that reports success was accepted by the backend; one that
    fails leaves the claim as it was. *)
Lemma confirms_runOne p fuel : confirms always (runOne defaults bopts hk policy suffix fuel (watched p) up).
Proof.
  apply claim_bind.
  { unfold targetName. case_decide; [|apply keeps_ret].
    apply claim_bind; [apply keeps_otry, keeps_changed|]. intros r. apply keeps_ret. }
  intros name. apply claim_bind; [apply keeps_waitLimit|]. intros _.
  destruct (restoreSession _); [apply confirms_transfer|].
  destruct (PutFile (watched p)) eqn:E; [|apply confirms_fresh]. case_decide; [|apply confirms_fresh].
  by apply (confirms_put p).
Qed.
End Transfer.

(** *** What a failure leaves *)

Definition settled (j j' : jstate) : Prop :=
  held_in [StateUploading] j -> held_in [StateUploading; StatePending; StateDead] j'.

Lemma rests_jfree {A} (m : Op jstate jerr A) : (forall j, settled j (snd (m j))) -> rests (jfree m).
Proof. intros Hm s [Hc Hr]. unfold unfinished. rewrite jfree_uj. by apply Hm. Qed.
Lemma rests_bind {A B} (m : UOp A) (k : A -> UOp B) : keeps m -> (forall a, rests (k a)) -> rests (obind m k).
Proof.
  intros Hm Hk s Hs. destruct (Hm s Hs) as [H1 _]. unfold obind. destruct (m s) as [[a|e] s1]; [by apply Hk|].
  by apply mine_unfinished.
Qed.
Lemma rests_jop {A} (m : Op jstate jerr A) : (forall j, settled j (snd (m j))) -> rests (jop m).
Proof. intros Hm. apply rests_bind; [apply keeps_ctx_check|]. intros _. by apply rests_jfree. Qed.
Lemma rests_oignore {A} (m : UOp A) : rests m -> rests (oignore m).
Proof. intros Hm s. apply Hm. Qed.

Lemma settled_row (j j' : jstate) :
  (forall r, row_of (ID up) (db j) = Some r -> r_state r = StateUploading ->
     exists r', row_of (ID up) (db j') = Some r' /\ r_blob r' = r_blob r
                /\ (r_state r' = StatePending \/ r_state r' = StateDead)) -> settled j j'.
Proof.
  intros H (r & E & Hs%list_elem_of_singleton & Hb). destruct (H r E Hs) as (r' & E' & Hb' & Hs').
  exists r'. split_and!; [done| |congruence]. destruct Hs' as [->| ->]; set_solver.
Qed.
Lemma settled_Defer d why j : settled j (snd (Defer (ID up) d why j)).
Proof. apply settled_row. intros r E Hs. rewrite (Defer_row _ _ _ _ r) by done. eauto. Qed.
Lemma settled_Retry msg d j : settled j (snd (JournalQueue.Retry (ID up) msg d j)).
Proof. apply settled_row. intros r E Hs. rewrite (Retry_row _ _ _ _ r) by done. eauto. Qed.
Lemma settled_Fail msg j : settled j (snd (Fail (ID up) msg j)).
Proof. apply settled_row. intros r E Hs. rewrite (Fail_row _ _ _ r) by done. eauto. Qed.

Lemma rests_dead cause : rests (dead Error up cause).
Proof.
  intros s Hs. assert (H1 : rests (jop (Fail (ID up) (Error cause)))) by (apply rests_jop; intros; apply settled_Fail).
  specialize (H1 s Hs). unfold dead, obind, otry. by destruct (jop _ s) as [[|] s1].
Qed.
Lemma rests_restart e : rests (restart Error up e).
Proof.
  apply rests_bind; [apply keeps_oignore, keeps_jop; intros; apply kept_SetSession|]. intros _.
  apply rests_bind; [apply keeps_otry, keeps_query|]. intros parts.
  apply rests_bind; [|intros _; apply rests_oignore, rests_jop; intros; apply settled_Retry].
  apply claim_foreach. intros pt. apply keeps_oignore, keeps_jop. intros. apply kept_RecordPart.
Qed.
Lemma rests_settle e : goneLocally hk up = false -> rests (settle hk backoff uMaxAttempts Error jitter up e).
Proof.
  intros Hg. unfold settle. rewrite Hg, andb_false_r.
  destruct (errors_Is e PErrUnavailable); [apply rests_oignore, rests_jop; intros; apply settled_Defer|].
  destruct (Classify (Some e)) eqn:Ec; try apply rests_dead.
  1-4: case_decide; [apply rests_dead|apply rests_oignore, rests_jop; intros; apply settled_Retry].
  - apply rests_oignore, rests_jfree. intros. apply settled_Defer.
  - destruct (negb _); [apply rests_dead|]. case_decide; [apply rests_dead|apply rests_restart].
Qed.

(** *** Publication forgets nothing *)

Lemma lasting_bind {A B} (m : UOp A) (k : A -> UOp B) : lasting m -> (forall a, lasting (k a)) -> lasting (obind m k).
Proof. intros Hm Hk s Hs. specialize (Hm s Hs). unfold obind. destruct (m s) as [[a|e] s1]; [by apply Hk|done]. Qed.
Lemma lasting_same {A} (m : UOp A) : (forall s, prov (snd (m s)) = prov s) -> lasting m.
Proof. intros H s Hs. unfold accepted. by rewrite H. Qed.
Lemma lasting_otry {A} (m : UOp A) : lasting m -> lasting (otry m).
Proof. intros Hm s Hs. specialize (Hm s Hs). unfold otry. by destruct (m s). Qed.
Lemma lasting_jfree {A} (m : Op jstate jerr A) : lasting (jfree m).
Proof. apply lasting_same. intros s. apply jfree_rest. Qed.
Lemma lasting_jop {A} (m : Op jstate jerr A) : lasting (jop m).
Proof.
  apply lasting_bind; [|intros; apply lasting_jfree]. apply lasting_same. intros s.
  unfold ctx_check, obind, ctx_ended. by destruct (ctx s) as [|[[]]].
Qed.
Lemma lasting_ret {A} (a : A) : lasting (oret a). Proof. by apply lasting_same. Qed.
Lemma lasting_dead cause : lasting (dead Error up cause).
Proof. apply lasting_bind; [apply lasting_otry, lasting_jop|]. intros [|]; by apply lasting_same. Qed.

Lemma lasting_publish p r : lasting (publish hk Error (watched p) up r).
Proof.
  apply lasting_bind; [apply lasting_otry, lasting_jfree|]. intros [row|]; [|apply lasting_ret].
  case_decide; [apply lasting_ret|]. apply lasting_bind; [apply lasting_otry, lasting_jop|]. intros row2.
  destruct (match row2 with Ok r0 => Tombstoned r0 | Err _ => false end).
  - apply lasting_bind; [case_decide; [apply lasting_otry, lasting_pop|apply lasting_ret]|].
    intros [[]|e]; [apply lasting_jop|]. destruct (errors_Is e _); apply lasting_jop.
  - apply lasting_bind; [destruct (OnSuccess hk); by apply lasting_same|]. intros _.
    destruct (match OnSuccess hk with Some f => f up r | None => None end); [apply lasting_dead|apply lasting_jop].
Qed.
Lemma lasting_release : lasting (release up).
Proof.
  apply lasting_bind; [apply lasting_otry, lasting_jfree|]. intros row.
  apply lasting_bind; [|intros; by apply lasting_same].
  destruct row as [row|]; [|apply lasting_ret].
  case_decide; [apply lasting_jfree|]. case_decide; [apply lasting_jfree|apply lasting_ret].
Qed.

(** *** One run of the worker *)

Notation run_body := (process_body defaults bopts hk (fun r => watched <$> Providers r) policy backoff uMaxAttempts
                        Error jitter suffix).

(** The journal the worker asks whether its version is superseded. *)
Definition as_checked (s : ust (P * bool)) : jstate := uj (snd (ctx_ended (snd (ctx_flag s)))).

Definition outcome (s : ust (P * bool)) : Prop := accepted s \/ unfinished s.

Lemma body_confirms fuel s :
  0 < MaxAttempts policy -> goneLocally hk up = false -> mine s ->
  Superseded up (db (uj (snd (ctx_ended s)))) = false ->
  outcome (snd (run_body fuel up s)).
Proof.
  intros Hm Hg Hs Hsup. unfold process_body.
  destruct (match Authorize hk with Some f => f up | None => None end); [right; by apply rests_dead|].
  unfold obind at 1. unfold otry at 1. pose proof (keeps_query (Superseded up) s Hs) as [H1 _].
  destruct (jop (query (Superseded up)) s) as [sup s1] eqn:E1. simpl in H1.
  assert (Hf : match sup with Ok b => b | Err _ => false end = false).
  { revert E1. unfold jop, ctx_check, obind, jfree, query. destruct (ctx_ended s) as [[[|]|] t]; intros [= <- _]; done. }
  rewrite Hf. clear E1 Hs Hsup.
  unfold obind at 1. pose proof (keeps_otry _ (keeps_query (OlderInFlight up)) s1 H1) as [H3 _].
  destruct (otry (jop (query (OlderInFlight up))) s1) as [[busy|] s3]; simpl in H3; [|right; exact (mine_unfinished _ H3)].
  destruct (match busy with Ok b => b | Err _ => false end).
  { right. refine (rests_oignore _ (rests_jop _ _) s3 H3). intros. apply settled_Defer. }
  destruct (Providers (Remote up)) as [p|]; [|right; by apply rests_dead].
  simpl. unfold obind, otry. pose proof (confirms_runOne Hm p fuel s3 H3) as [H4 H5].
  destruct (runOne _ _ _ _ _ _ _ _ s3) as [[r|e] s4]; simpl in *.
  - left. apply lasting_publish. by eapply H5.
  - right. destruct (errors_Is e errSessionExpired); [by apply rests_restart|by apply rests_settle].
Qed.

(** Registration either puts the claim back or hands it to the body. *)
Lemma register_claims (s : ust (P * bool)) r :
  ID up ∉ transfers s -> row_of (ID up) (db (uj s)) = Some r -> r_state r = StateUploading ->
  registerTransfer up s =
  let s1 := snd (ctx_flag s) in
  if match ctx s with (b, _) :: _ => b | [] => false end
  then (Ok false, s1 <| uj := snd (Defer (ID up) 0 "worker cancelled before transfer registration" (uj s)) |>)
  else (Ok true, s1 <| transfers ::= fun t => {[ID up]} ∪ t |>).
Proof.
  intros Ht E Hs. unfold registerTransfer, obind at 1. rewrite jfree_Get, E. change (UState (scanUpload r)) with (r_state r).
  rewrite decide_False by (by rewrite Hs). rewrite decide_False by (by intros []).
  unfold obind, ctx_flag. destruct (ctx s) as [|[[] cs] rest]; simpl.
  - by rewrite decide_False.
  - unfold oignore, jfree. simpl. by destruct (Defer _ _ _ _) as [[|] j].
  - by rewrite decide_False.
Qed.
Lemma register_claimed s : ID up ∉ transfers s -> mine s ->
  exists s1, (registerTransfer up s = (Ok false, s1) /\ held_in [StatePending; StateDead] (uj s1))
    \/ (registerTransfer up s = (Ok true, s1) /\ mine s1 /\ uj (snd (ctx_ended s1)) = as_checked s).
Proof.
  intros Ht [Hc (r & E & Hs%list_elem_of_singleton & Hb)]. rewrite (register_claims s r) by done. cbv zeta.
  destruct (match ctx s with (b, _) :: _ => b | [] => false end); eexists; [left|right]; (split; [reflexivity|]).
  - eexists. split; [by apply Defer_row|]. simpl. split; [left|done].
  - unfold as_checked, mine, undisturbed, ctx_flag in *. split_and!.
    + destruct (ctx s) as [|[b cs] rest] eqn:Ec; simpl; [by rewrite Ec|]. by inversion_clear Hc.
    + exists r. rewrite Hs. split_and!; [|left|done]. by destruct (ctx s) as [|[b cs] rest].
    + unfold ctx_ended. destruct (ctx s) as [|[b cs] [|[b' cs'] rest]] eqn:Ec; simpl; by rewrite ?Ec.
Qed.

Lemma release_unfinished s : cfg_owner = true -> unfinished s -> held_in [StatePending; StateDead] (uj (snd (release up s))).
Proof.
  intros Ho (r & E & Hs & Hb). unfold release, obind at 1. rewrite jfree_Get, E.
  change (UState (scanUpload r)) with (r_state r).
  rewrite decide_False by (intros Hc; rewrite Hc in Hs; set_solver).
  destruct (decide (r_state r = StateUploading)) as [Hu|Hu].
  - unfold obind, omodify, oignore. simpl. rewrite jfree_uj. eexists. split; [by apply Defer_row|].
    simpl. split; [left|done].
  - exists r. split_and!; [done| |done]. set_solver.
Qed.
End Confirmed.

Section KeepsData.
Context {cfg : Config} {ok : CfgOk cfg} {F : Float64} {P : Type}.
Context (defaults : Key -> Options) (bopts : BreakerOptions).
Context (hk : Hooks) (Providers : string -> option (Provider P)).
Context (policy : Policy) (backoff : Backoff) (uMaxAttempts : Z).
Context (Error : gerr -> string) (jitter : Z) (suffix : string).

(** C2: no upload is lost without the backend's word.  Whatever the backend
    answers and whenever the context ends, one run of a worker over an upload
    it claimed, registered by nobody else, either sees the backend accept it
    (a completed session, a whole-file call, or a session opened as already
    stored) or leaves its row in the queue, waiting or dead-lettered, naming
    the same payload, which is still on disk.  Everything else the journal
    answers for stays on disk as well.  The conditions: the journal's
    invariant and an owned configuration; a retry policy of at least one
    attempt (with none the code reports success without calling); others may
    do what they like to the journal meanwhile except to this upload's row; no
    newer version of the file has been committed when the worker asks, and
    the file system still has the file. *)
Theorem process_keeps_data (fuel : nat) (up : Upload) (s : ust (P * bool)) (r : Row) :
  cfg_owner = true -> 0 < MaxAttempts policy ->
  Inv (uj s) -> ID up ∉ transfers s -> undisturbed up s ->
  row_of (ID up) (db (uj s)) = Some r -> r_state r = StateUploading ->
  Superseded up (db (as_checked s)) = false -> goneLocally hk up = false ->
  let s' := snd (process defaults bopts hk (fun r => watched <$> Providers r) policy backoff uMaxAttempts
                   Error jitter suffix fuel up s) in
  (accepted s'
   \/ exists r', row_of (ID up) (db (uj s')) = Some r' /\ (r_state r' = StatePending \/ r_state r' = StateDead)
        /\ r_blob r' = r_blob r
        /\ (r_blob r <> "" -> is_Some (names (fsys (uj s')) !! r_blob r)))
  /\ (forall p, needed (uj s') p -> is_Some (names (fsys (uj s')) !! p)).
Proof.
  intros Ho Hm Hi Ht Hu E Hst Hsup Hg s'.
  assert (Hn : forall p, needed (uj s') p -> is_Some (names (fsys (uj s')) !! p))
    by (apply (Inv_reach _ _ (process_steps _ _ _ _ _ _ _ _ _ _ fuel up s) Hi)).
  split; [|exact Hn].
  assert (H : accepted s' \/ held_in up (r_blob r) [StatePending; StateDead] (uj s')).
  { assert (Hmine : mine up (r_blob r) s) by (split; [done|]; exists r; rewrite Hst; split_and!; [done|left|done]).
    unfold s', process. destruct (register_claimed up (r_blob r) s Ht Hmine) as (s1 & [[-> H]|(-> & H1 & H2)]);
      [by right|].
    edestruct (body_confirms defaults bopts hk Providers policy) as [H3|H3];
      [done|done|exact H1|by rewrite H2|left; by apply lasting_release|right; by apply release_unfinished]. }
  destruct H as [H|(r' & E' & Hs' & Hb)]; [by left|right]. exists r'. split_and!; [done|set_solver|done|].
  intros Hne. apply Hn. apply (needed_row _ _ r'); [by apply (row_of_Some_1 (ID up))| |done].
  split; [|congruence]. intros Hp. rewrite Hp in Hs'. set_solver.
Qed.
End KeepsData.
