(* ===== verification/UploaderOutcome.v ===== *)
(** * How a transfer ends

    Publication against a concurrent stop, the attempt budget of failed
    transfers, acknowledged cancellation and what a clean flush means. *)
From S2P Require Import Prelude Filepath JournalState JournalQueue JournalAdmin Staging JournalCopy JournalRecover JournalTx JournalInv JournalSafety JournalReach JournalLife Retry RateLimit Uploader UploaderData UploaderProps Demo.
Open Scope Z_scope.

Section Outcome.
Context {cfg : Config} {F : Float64} {P : Type}.
Context (hk : Hooks) (backoff : Backoff) (uMaxAttempts : Z).
Context (Error : gerr -> string) (jitter : Z).
Notation run_settle := (settle (P := P) hk backoff uMaxAttempts Error jitter).

(** The operator's stop, in every stage of it. *)
Definition stop_stage (st : State) : Prop := st = StateCancelling \/ st = StateCancelled \/ st = StatePurging.

Lemma release_stopped up (s : ust P) r :
  cfg_owner = true -> row_of (ID up) (db (uj s)) = Some r -> stop_stage (r_state r) ->
  exists s', snd (release up s) = s' /\ prov s' = prov s /\ hooks s' = hooks s /\
    exists r', row_of (ID up) (db (uj s')) = Some r' /\
      r_state r' = (if decide (r_state r = StateCancelling) then StateCancelled else r_state r).
Proof.
  intros Ho E Hs. destruct (decide (r_state r = StateCancelling)) as [Hc|Hc].
  - exists ((snd (jfree (FinishCancel (ID up)) s)) <| transfers ::= fun t => t ∖ {[ID up]} |>). split.
    { unfold release, obind at 1. rewrite jfree_Get, E. change (UState (scanUpload r)) with (r_state r).
      by rewrite decide_True by done. }
    destruct (jfree_rest (FinishCancel (ID up)) s) as [Hp Hh]. split; [exact Hp|]. split; [exact Hh|].
    change (uj (_ <| transfers ::= _ |>)) with (uj (snd (jfree (FinishCancel (ID up)) s))).
    rewrite jfree_uj. unfold FinishCancel, obind, require. rewrite Ho. simpl.
    rewrite row_of_upd_rows, E by done. eexists. split; [reflexivity|].
    pose proof (row_of_Some_1 _ _ _ E) as [_ Hid]. simpl. by rewrite decide_True.
  - exists (s <| transfers ::= fun t => t ∖ {[ID up]} |>). split; [|eauto].
    unfold release, obind at 1. rewrite jfree_Get, E. change (UState (scanUpload r)) with (r_state r).
    rewrite (decide_False (P := r_state r = StateCancelling)) by done.
    by rewrite decide_False by (unfold stop_stage in Hs; intuition congruence).
Qed.

(** C28: an operator's stop that lands before publication wins: a transfer
    that the backend completed meanwhile is not reported to the file system,
    the backend is not called again, and the upload ends stopped rather than
    completed. *)
Theorem stop_beats_publication (p : Provider P) (up : Upload) (res_ : Result) (s : ust P) (r : Row) :
  cfg_owner = true -> row_of (ID up) (db (uj s)) = Some r -> stop_stage (r_state r) ->
  let s' := snd (release up (snd (publish hk Error p up res_ s))) in
  prov s' = prov s /\ hooks s' = hooks s /\
  exists r', row_of (ID up) (db (uj s')) = Some r' /\ r_state r' <> StateDone /\ r_state r' <> StatePending /\
    (r_state r = StateCancelling -> r_state r' = StateCancelled).
Proof.
  intros Ho E Hs s'. assert (Hp : publish hk Error p up res_ s = (Ok tt, s)).
  { unfold publish, obind at 1. rewrite jfree_Get, E. by rewrite decide_True. }
  unfold s'. rewrite Hp. change (snd (Ok tt, s)) with s. destruct (release_stopped up s r Ho E Hs) as (s2 & -> & -> & -> & r' & Hr' & Hst).
  split_and!; [done..|]. exists r'. rewrite Hst. split_and!; [done|..]; destruct Hs as [Hs|[Hs|Hs]]; rewrite Hs;
    case_decide; done.
Qed.

(** *** The attempt budget *)

Lemma jop_quiet {A} (m : Op jstate jerr A) (s : ust P) : ctx s = [] -> jop m s = jfree m s.
Proof. intros E. unfold jop, ctx_check, ctx_ended, obind. by rewrite E. Qed.

Lemma oignore_jfree_uj {A} (m : Op jstate jerr A) (s : ust P) : uj (snd (oignore (jfree m) s)) = snd (m (uj s)).
Proof. apply jfree_uj. Qed.
Lemma oignore_jop_uj {A} (m : Op jstate jerr A) (s : ust P) :
  ctx s = [] -> uj (snd (oignore (jop m) s)) = snd (m (uj s)).
Proof. intros Hq. unfold oignore. rewrite jop_quiet by done. apply jfree_uj. Qed.

Lemma dead_row up cause (s : ust P) r :
  ctx s = [] -> row_of (ID up) (db (uj s)) = Some r -> r_state r = StateUploading ->
  row_of (ID up) (db (uj (snd (dead Error up cause s)))) = Some (r <| r_state := StateDead |> <| r_last_error := Error cause |>).
Proof.
  intros Hq E Hs. rewrite <- (Fail_row _ (Error cause) _ _ E Hs). f_equal. f_equal.
  unfold dead, obind, otry. rewrite jop_quiet by done. unfold jfree. by destruct (Fail _ _ _) as [[|] j].
Qed.

Definition transient (c : Class_) : Prop :=
  c = ClassRetryable \/ c = ClassAuth \/ c = ClassLinkExpired \/ c = ClassRiskControl.

Definition retry_delay (up : Upload) (e : gerr) : Z :=
  let delay := Delay backoff jitter (Attempt up) (Retry.RetryAfter e) in
  if decide (Classify (Some e) = ClassRiskControl) then Z.max delay (30 * Second) else delay.

Lemma settle_transient up e (s : ust P) :
  errors_Is e PErrUnavailable = false -> errors_Is e PErrNotFound = false -> transient (Classify (Some e)) ->
  run_settle up e s =
  (if decide (uMaxAttempts <= Attempt up + 1) then dead Error up (givingUp up e)
   else oignore (jop (JournalQueue.Retry (ID up) (Error e) (retry_delay up e)))) s.
Proof.
  intros Hu Hn Ht. unfold settle, retry_delay. rewrite Hu, Hn. simpl (false && _).
  destruct Ht as [->|[->|[->| ->]]]; done.
Qed.

(** what a failed transfer costs.  An unreachable destination and a
    cancelled context put the upload back in the queue without spending an
    attempt; a transient failure spends one, waits (at least thirty seconds
    under risk control), and dead-letters the upload when the budget is
    used up. *)
Theorem failure_budget (up : Upload) (e : gerr) (s : ust P) (r : Row) :
  ctx s = [] -> row_of (ID up) (db (uj s)) = Some r -> r_state r = StateUploading ->
  errors_Is e PErrNotFound = false ->
  let row' := row_of (ID up) (db (uj (snd (run_settle up e s)))) in
  (errors_Is e PErrUnavailable = true \/ Classify (Some e) = ClassCanceled ->
     exists r', row' = Some r' /\ r_state r' = StatePending /\ r_attempt r' = r_attempt r /\ r_session r' = r_session r) /\
  (errors_Is e PErrUnavailable = false -> transient (Classify (Some e)) ->
     exists r', row' = Some r' /\
     if decide (uMaxAttempts <= Attempt up + 1) then r_state r' = StateDead /\ r_attempt r' = r_attempt r
     else r_state r' = StatePending /\ r_attempt r' = r_attempt r + 1 /\
          (Classify (Some e) = ClassRiskControl -> unixMilli (Some (now (uj s) + 30 * Second)) <= r_next_retry r')).
Proof.
  intros Hq E Hs Hn row'. split.
  - intros Hk. unfold row', settle. rewrite Hn. destruct (errors_Is e PErrUnavailable).
    + rewrite oignore_jop_uj, (Defer_row _ _ _ _ r) by done. eauto.
    + destruct Hk as [Hk|Hk]; [discriminate|]. rewrite Hk. simpl (false && _). cbv iota.
      rewrite oignore_jfree_uj, (Defer_row _ _ _ _ r) by done. eauto.
  - intros Hu Ht. unfold row'. rewrite (settle_transient up e s Hu Hn Ht). case_decide.
    + rewrite (dead_row _ _ _ r) by done. eauto.
    + rewrite oignore_jop_uj, (Retry_row _ _ _ _ r) by done. eexists. split; [reflexivity|]. split_and!; [done..|].
      intros Hc. simpl. unfold retry_delay. rewrite decide_True by done. unfold unixMilli, Millisecond. apply Z.div_le_mono; lia.
Qed.

(** *** The journal's two answers

    A worker told that its version is superseded, or that an older one is still
    in flight, does not call the backend: the steps of [fstep] in which a claim
    is not admitted are those of [process_body]. *)
Lemma told_stays_home (defaults : Key -> Options) bopts Providers policy suffix fuel up (s : ust P) :
  ctx s = [] -> Authorize hk = None ->
  Superseded up (db (uj s)) = true \/ OlderInFlight up (db (uj s)) = true ->
  prov (snd (process_body defaults bopts hk Providers policy backoff uMaxAttempts Error jitter suffix fuel up s)) = prov s.
Proof.
  intros Hq Ha Ht. unfold process_body. rewrite Ha.
  assert (Hquery : forall A (f : DB -> A), otry (jop (query f)) s = (Ok (Ok (f (db (uj s)))), s)).
  { intros A f. unfold otry. rewrite jop_quiet by done. unfold jfree, query. simpl. by destruct s. }
  unfold obind at 1. rewrite Hquery. destruct (Superseded up (db (uj s))) eqn:Es; [apply away_jop|].
  unfold obind at 1. rewrite Hquery. destruct Ht as [Ht| ->]; [done|]. apply away_jop.
Qed.

(** *** Acknowledged cancellation *)

Lemma RequestCancel_row id j st j' :
  RequestCancel id j = (Ok st, j') ->
  (exists r, row_of id (db j') = Some r /\ r_state r = st) /\ (st = StateCancelling \/ st = StateCancelled).
Proof.
  unfold RequestCancel, obind, require. destruct cfg_owner; [|done]. simpl. unfold tx, requestCancelTx.
  destruct (row_of id (db j)) as [r|] eqn:E; [|done]. case_decide; [done|].
  destruct (cancel_target (r_state r)) as [st'|] eqn:Et; [|done]. intros [= <- <-]. split.
  - eexists. split; [apply (upd_id_row id _ _ r); [exact E|done]|done].
  - destruct (r_state r); simplify_eq/=; auto.
Qed.

(** when Cancel reports success, the stop is on record; it is reported
    as complete exactly when no transfer of the upload is running, and a
    running one sees its context ended at its next step. *)
Theorem cancel_acknowledged (id : string) (s s' : ust P) (st : State) :
  cfg_owner = true -> Cancel id s = (Ok st, s') ->
  exists r, row_of id (db (uj s')) = Some r /\ r_state r = st /\
    (st = StateCancelled \/ st = StateCancelling /\ id ∈ transfers s) /\
    (id ∈ transfers s -> fst (ctx_check s') = Err ctx_err).
Proof.
  intros Ho. unfold Cancel. destruct (RequestCancel id (uj s)) as [[st0|e] j] eqn:E; [|done].
  destruct (RequestCancel_row _ _ _ _ E) as [(r & Hr & Hst) Hk]. simpl (transfers _).
  destruct (decide (id ∈ transfers s)) as [Hin|Hin].
  - intros [= <- <-]. exists r. simpl. split_and!; [done..| |done]. tauto.
  - destruct (decide (st0 = StateCancelling)) as [Hc|Hc].
    + destruct (FinishCancel id j) as [[u|e] j'] eqn:Ef; [|done]. intros [= <- <-].
      revert Ef. unfold FinishCancel, obind, require. rewrite Ho. unfold oret, tx, finishCancelTx, tmodify.
      intros [= _ <-]. simpl. rewrite row_of_upd_rows, Hr by done. eexists. split; [reflexivity|].
      pose proof (row_of_Some_1 _ _ _ Hr) as [_ Hid]. simpl. rewrite decide_True by (split; congruence).
      split_and!; auto. done.
    + intros [= <- <-]. exists r. simpl. split_and!; [done..| |done]. tauto.
Qed.
End Outcome.

(** ** Flush *)

Definition finished (st : State) : Prop := st = StateDone \/ st = StateUnset.

Lemma count_state_0 st d : count_state st d = 0 <-> forall r, r ∈ uploads d -> r_state r <> st.
Proof.
  unfold count_state, in_state, sel. split.
  - intros H r Hr Hst. assert (Hin : r ∈ filter (fun r => r_state r = st) (uploads d)) by (by apply list_elem_of_filter).
    destruct (filter _ (uploads d)); [by apply elem_of_nil in Hin|simpl in H; lia].
  - intros H. destruct (filter _ _) as [|r l] eqn:E; [done|]. exfalso.
    assert (Hin : r ∈ filter (fun r => r_state r = st) (uploads d)) by (rewrite E; left).
    apply list_elem_of_filter in Hin as [Hst Hr]. by apply (H r).
Qed.

Lemma verdict_clean t d : flush_verdict_of (stats_of t d) = FlushClean <-> forall r, r ∈ uploads d -> finished (r_state r).
Proof.
  assert (Hnn : forall st, 0 <= count_state st d) by (intros; unfold count_state; lia).
  unfold flush_verdict_of. simpl. split.
  - case_decide; [done|]. case_decide; [done|]. case_decide as Hq; [|done]. case_decide; [done|]. intros _ r Hr.
    pose proof (Hnn StatePurging). pose proof (Hnn StateDead). pose proof (Hnn StateCancelled). pose proof (Hnn StateCancelling).
    assert (Hne : forall st, count_state st d = 0 -> r_state r <> st) by (intros st Hz; by apply (count_state_0 st d)).
    unfold finished. destruct (r_state r); auto; exfalso;
      match goal with Hne : forall st, _ -> ?x <> st |- _ => apply (Hne x); [lia|done] end.
  - intros H. assert (H0 : forall st, ~ finished st -> count_state st d = 0).
    { intros st Hst. apply count_state_0. intros r Hr E. apply Hst. rewrite <- E. auto. }
    unfold finished in H0. rewrite !H0 by naive_solver. done.
Qed.

Section Flush.
Context {cfg : Config} {F : Float64} {P : Type}.
Context (defaults : Key -> Options) (bopts : BreakerOptions).
Context (hk : Hooks) (Providers : string -> option (Provider P)).
Context (policy : Policy) (backoff : Backoff) (uMaxAttempts : Z).
Context (Error : gerr -> string) (jitter : Z) (suffix : string).
Notation run_flush := (Flush defaults bopts hk Providers policy backoff uMaxAttempts Error jitter suffix).
Notation run_round := (flush_round defaults bopts hk Providers policy backoff uMaxAttempts Error jitter suffix).

Lemma Stats_snapshot (s s' : ust P) st :
  or_ctx Stats_ s = (Ok st, s') -> exists t, st = stats_of t (db (uj s')).
Proof.
  unfold or_ctx, Stats_, jop, obind. destruct (ctx_check s) as [[[]|e] s1].
  - unfold jfree, query. intros [= <- <-]. by eexists.
  - destruct (ctx_ended s1) as [[b|] s2]; done.
Qed.

Lemma round_clean rounds fuel fl (s s' : ust P) st :
  run_round rounds fuel fl s = (Ok (Some st), s') -> forall r, r ∈ uploads (db (uj s')) -> finished (r_state r).
Proof.
  unfold flush_round, obind at 1. destruct (ctx_check s) as [[[]|e] s1]; [|done].
  destruct (stopped_ fl); [done|]. unfold obind at 1.
  match goal with |- context [match ?m s1 with _ => _ end] => destruct (m s1) as [[[]|e] s2]; [|done] end.
  unfold obind at 1. destruct (or_ctx Stats_ s2) as [[st'|e] s3] eqn:E; [|done].
  destruct (Stats_snapshot _ _ _ E) as [t ->].
  destruct (flush_verdict_of _) eqn:Ev; try done. intros [= _ <-]. exact (proj1 (verdict_clean _ _) Ev).
Qed.

(** Flush returns success only on a snapshot of the queue in which every
    upload is finished: nothing pending, in flight, failed, stopped or being
    discarded.  On such a queue, with running workers and nobody interfering,
    its first poll returns. *)
Theorem flush_means_finished (rounds fuel : nat) (polls : list run_flags) (s s' : ust P) (st : Stats) :
  run_flush rounds fuel polls s = (Ok st, s') ->
  (forall r, r ∈ uploads (db (uj s')) -> finished (r_state r)) /\
  (forall fl, started fl = true -> stopped_ fl = false -> ctx s' = [] ->
     run_flush rounds fuel [fl] s' = (Ok (stats_of (now (uj s')) (db (uj s'))), s')).
Proof.
  intros H. assert (Hf : forall r, r ∈ uploads (db (uj s')) -> finished (r_state r)).
  { revert s H. induction polls as [|fl polls IH]; intros s; simpl; [done|]. unfold obind at 1.
    destruct (run_round rounds fuel fl s) as [[[st'|]|e] s1] eqn:E; [| |done].
    - intros [= _ <-]. by eapply round_clean.
    - unfold obind. destruct (ctx_check s1) as [[[]|e] s2]; [apply IH|done]. }
  split; [exact Hf|]. intros fl Hs Hn Hq. clear H. apply (proj2 (verdict_clean (now (uj s')) _)) in Hf.
  assert (Hc : ctx_check s' = (Ok tt, s')) by (unfold ctx_check, ctx_ended, obind; by rewrite Hq).
  assert (He : ctx_ended s' = (Ok false, s')) by (unfold ctx_ended; by rewrite Hq).
  assert (Ho : or_ctx Stats_ s' = (Ok (stats_of (now (uj s')) (db (uj s'))), s')).
  { unfold or_ctx, Stats_. rewrite jop_quiet by done. unfold jfree, query. by destruct s'. }
  simpl. unfold flush_round, obind. rewrite Hc, Hn, Hs, He. simpl. by rewrite Ho, Hf.
Qed.
End Flush.

(** ** Worker pools *)

Inductive pool_event := EStart | ESync (remotes : list string) | EStop.
Definition pool_step (o : PoolOptions) (s : Pools) (e : pool_event) : Pools :=
  match e with EStart => Start s | ESync rs => syncRemotes o rs s | EStop => Stop s end.

Definition pools_ok (o : PoolOptions) (s : Pools) : Prop :=
  (forall r, live s !! r = if decide (r ∈ running s) then Some (workers_for o r) else None)
  /\ (pstopped s = true -> running s = ∅).

Lemma sync_each_ok o rs : forall s, pstopped s = false -> pools_ok o s ->
  pools_ok o (sync_each o rs s) /\ pstopped (sync_each o rs s) = false /\ running (sync_each o rs s) = running s ∪ list_to_set rs.
Proof.
  induction rs as [|r rs IH]; intros s Hs Hok; simpl; [split_and!; [done..|set_solver]|].
  destruct (decide (r ∈ running s)) as [Hin|Hin].
  { destruct (IH s Hs Hok) as (H1 & H2 & H3). split_and!; [done..|rewrite H3; set_solver]. }
  match goal with |- context [sync_each o rs ?t] => set (s1 := t) end.
  destruct (IH s1) as (H1 & H2 & H3); [done| |split_and!; [done..|rewrite H3; simpl; set_solver]].
  split; [|by intros H; simpl in H; rewrite Hs in H]. intros r'. simpl. destruct Hok as [Hl _].
  destruct (decide (r' = r)) as [->|Hne].
  - rewrite lookup_insert_eq, Hl, decide_False by done. rewrite decide_True by set_solver. done.
  - rewrite lookup_insert_ne, Hl by done. destruct (decide (r' ∈ running s)); [rewrite decide_True|rewrite decide_False]; set_solver.
Qed.

Lemma pool_step_ok o s e : pools_ok o s -> pools_ok o (pool_step o s e).
Proof.
  intros Hok. destruct e as [|rs|]; simpl.
  - unfold Start. by destruct (_ || _).
  - unfold syncRemotes. destruct (pstopped s) eqn:E; [done|]. by apply sync_each_ok.
  - unfold Stop. destruct (pstopped s) eqn:E; [done|]. split; [|done]. intros r. simpl. by rewrite decide_False by set_solver.
Qed.

Lemma pools_run_ok o es : forall s, pools_ok o s -> pools_ok o (foldl (pool_step o) s es).
Proof. induction es as [|e es IH]; intros s Hs; simpl; [done|]. by apply IH, pool_step_ok. Qed.

Lemma pool_stopped_stays o es : forall s, pstopped s = true -> foldl (pool_step o) s es = s.
Proof.
  induction es as [|e es IH]; intros s Hs; simpl; [done|]. rewrite IH; destruct e; simpl;
    unfold Start, syncRemotes, Stop; by rewrite ?Hs.
Qed.

(** however starts, polls and stops interleave, a remote that has workers
    has exactly its configured number of them, and once the uploader has been
    stopped no worker runs again. *)
Theorem worker_pools_bounded (o : PoolOptions) (es es' : list pool_event) (r : string) :
  let s := foldl (pool_step o) NewPools es in
  (live s !! r = None \/ live s !! r = Some (workers_for o r))
  /\ live (foldl (pool_step o) NewPools (es ++ EStop :: es')) = ∅.
Proof.
  intros s. assert (Hok : pools_ok o s) by (apply pools_run_ok; split; [intros; simpl; by rewrite decide_False|done]).
  split. { rewrite (proj1 Hok). case_decide; auto. }
  rewrite foldl_app. fold s. simpl. assert (Hst : pstopped (Stop s) = true) by (unfold Stop; by destruct (pstopped s) eqn:E).
  rewrite pool_stopped_stays by done. destruct (pool_step_ok o s EStop Hok) as [Hl Hr]. apply map_eq. intros r'.
  rewrite Hl, Hr by done. by rewrite decide_False, lookup_empty by set_solver.
Qed.
