(* ===== verification/UploaderDemo.v ===== *)
(** * Uploads on a concrete backend

    A small in-memory backend, the states its transfers run on, and the
    uploader's theorems applied to them. *)
From S2P Require Import Prelude Filepath JournalState JournalQueue JournalAdmin Staging JournalCopy JournalRecover JournalTx JournalInv JournalSafety JournalReach JournalLife Retry RateLimit Uploader UploaderData UploaderProps UploaderOutcome Demo.
Open Scope Z_scope.

(** Parts by index, objects by identifier; a session remembers its name. *)
Definition shelf : Type := gmap Z (list Z) * gmap string (list Z).

Definition demo_backend : Provider shelf := MkProvider shelf 0 1
  (fun _ name _ _ st => (Ok (MkSession "s" 1 false None {["name" := name]}), st))
  (fun _ i data _ st => (Ok (MkToken i "etag"), (<[i := data]> st.1, st.2)))
  (fun sess toks st =>
     (Ok (MkEntry "o" (default "" (Opaque sess !! "name")) "v3"),
      (st.1, <["o" := concat (map (fun t => default [] (st.1 !! t_Index t)) toks)]> st.2)))
  None
  (fun id st => (Ok tt, (st.1, delete id st.2)))
  (fun _ cursor st => if decide (cursor = "") then (Ok ([MkEntry "x" "g.txt" "v9"], "2"), st)
                      else (Ok ([MkEntry "y" "f.txt" "v2"], ""), st)).

#[export] Instance demo_store : PartStore demo_backend.
Proof.
  refine {| stored := fun st _ => st.1; content := fun st id => st.2 !! id |}; simpl.
  - by intros sess i data n st tok st' [= <- <-].
  - done.
  - intros sess toks st e st' [= <- <-]. simpl. by rewrite lookup_insert_eq.
  - done.
Defined.

Definition demo_hooks : Hooks := MkHooks None None None None.
Definition demo_policy : Policy := MkPolicy DefaultBackoff 3.
Definition demo_breaker : BreakerOptions := MkBreakerOptions 3 Second Second.
Definition demo_error (e : gerr) : string := "failed".
Definition demo_ust (j : jstate) (sched : list (bool * list call)) : ust shelf :=
  MkUst shelf j (∅, ∅) sched ∅ None [].

(** The two queued bytes, claimed by a worker. *)
Definition demo_queued : jstate :=
  demo3 <| db ::= upd_id "a" (fun r => r <| r_size := 2 |>) |>
        <| fsys ::= fun f => SetData f "/j/objects/sha1-xbc" [1; 2] |>.
Definition demo_claimed : jstate := snd (Claim "r" 1 demo_queued).
Definition demo_up : Upload := nth 0 (out_of [] (Claim "r" 1 demo_queued)) demo_upload.
Definition demo_process (s : ust shelf) : ust shelf :=
  snd (process (F := exact_float) demo_defaults demo_breaker demo_hooks (fun _ => Some demo_backend) demo_policy
         DefaultBackoff 8 demo_error 0 " (conflict)" 5 demo_up s).

Example demo_transfer :
  let s := demo_process (demo_ust demo_claimed []) in
  map (fun r => (r_id r, r_state r)) (uploads (db (uj s))) = [("a", StateDone)]
  /\ (prov s).2 !! "o" = Some [1; 2] /\ transfers s = ∅.
Proof. vm_compute. done. Qed.

(** ** The worker's guarantees on these states *)

Definition demo_picked : jstate := snd (Claim "r" 1 demo3).
Lemma demo_inv_picked : Inv demo_picked.
Proof. eapply Inv_reach; [apply (steps_call (CClaim "r" 1))|apply demo_inv3]. Qed.

(** The operator stops the upload while the worker waits for the backend. *)
Definition demo_sched : list (bool * list call) :=
  [(false, []); (false, []); (false, []); (false, [CRequestCancel "a"])].

(** A backend that opens sessions and then goes away, and a schedule in which
    others meanwhile work on another upload. *)
Definition demo_down : Provider shelf := MkProvider shelf 0 1
  (BeginUpload demo_backend) (fun _ _ _ _ st => (Err (sent PErrUnavailable), st))
  (CompleteUpload demo_backend) None (Delete_ demo_backend) (List_ demo_backend).
Definition demo_busy : list (bool * list call) :=
  [(false, []); (false, []); (false, [CRecordPart "b" (MkPart 0 "e" "done")])].
Definition demo_watched : ust (shelf * bool) := MkUst _ demo_picked ((∅, ∅), false) demo_busy ∅ None [].
Definition demo_unsent : ust (shelf * bool) :=
  snd (process (F := exact_float) demo_defaults demo_breaker demo_hooks (fun _ => watched <$> Some demo_down) demo_policy
         DefaultBackoff 8 demo_error 0 " (conflict)" 5 demo_up demo_watched).

Lemma record_part_hands_off up id pt : hands_off up [CRecordPart id pt].
Proof.
  intros j. change (others _ j) with (snd (RecordPart id pt j)).
  unfold RecordPart, tx, recordPartTx, tbind, guardNotPurging. by destruct (uploadMutationState id (db j)) as [[]|].
Qed.
Lemma demo_undisturbed : undisturbed demo_up demo_watched.
Proof.
  apply Forall_cons_2; [by intros j|]. apply Forall_cons_2; [by intros j|].
  apply Forall_cons_2; [apply record_part_hands_off|apply Forall_nil_2].
Qed.
Lemma demo_claimed_row : exists r, row_of "a" (db demo_picked) = Some r /\ r_state r = StateUploading.
Proof. eexists. split; vm_compute; reflexivity. Qed.

Lemma process_keeps_data_witness :
  snd (prov demo_unsent) = false
  /\ exists r', row_of "a" (db (uj demo_unsent)) = Some r' /\ (r_state r' = StatePending \/ r_state r' = StateDead).
Proof.
  split; [vm_compute; reflexivity|]. destruct demo_claimed_row as (r & E & Hs).
  destruct (@process_keeps_data demo demo_ok exact_float shelf demo_defaults demo_breaker demo_hooks
    (fun _ => Some demo_down) demo_policy DefaultBackoff 8 demo_error 0 " (conflict)" 5 demo_up demo_watched r
    eq_refl eq_refl demo_inv_picked (not_elem_of_empty _) demo_undisturbed E Hs eq_refl eq_refl)
    as [[H|(r' & E' & Hr' & _)] _].
  - vm_compute in H. discriminate.
  - exists r'. split; assumption.
Defined.

Definition demo_first (j : jstate) : Row := nth 0 (uploads (db j)) (demo_row 0).

Lemma process_settles_claim_witness :
  let r := demo_first (uj (demo_process (demo_ust demo_claimed demo_sched))) in
  r_id r = "a" /\ r_state r <> StateUploading /\ r_state r <> StateCancelling.
Proof.
  intros r. split; [vm_compute; reflexivity|].
  refine (@process_settles_claim demo exact_float shelf demo_defaults demo_breaker demo_hooks
    (fun _ => Some demo_backend) demo_policy DefaultBackoff 8 demo_error 0 " (conflict)" 5 demo_up
    (demo_ust demo_claimed demo_sched) eq_refl (not_elem_of_empty _) r _).
  vm_compute. reflexivity.
Defined.

Lemma stopped_makes_no_call_witness :
  prov (demo_process (demo_ust demo_stopped [])) = (∅, ∅).
Proof.
  refine (proj1 (@stopped_makes_no_call demo exact_float shelf demo_defaults demo_breaker demo_hooks
    (fun _ => Some demo_backend) demo_policy DefaultBackoff 8 demo_error 0 " (conflict)" 5 demo_up
    (demo_ust demo_stopped []) (demo_first demo_stopped) _ _)); vm_compute; [reflexivity|discriminate].
Defined.

(** Stopped while the backend worked: nothing is published. *)
Definition demo_late : jstate := snd (RequestCancel "a" demo_claimed).
Definition demo_result : Result := MkResult "a" (Some (MkEntry "o" "f.txt" "v3")) false "".

Lemma stop_beats_publication_witness :
  r_state (demo_first demo_late) = StateCancelling
  /\ hooks (snd (release demo_up (snd (publish demo_hooks demo_error demo_backend demo_up demo_result (demo_ust demo_late []))))) = [].
Proof.
  split; [vm_compute; reflexivity|].
  refine (proj1 (proj2 (@stop_beats_publication demo shelf demo_hooks demo_error demo_backend demo_up demo_result
    (demo_ust demo_late []) (demo_first demo_late) eq_refl _ _))); vm_compute; [reflexivity|auto].
Defined.

Lemma failure_budget_witness :
  exists r', row_of "a" (db (uj (snd (settle (P := shelf) demo_hooks DefaultBackoff 8 demo_error 0 demo_up
      (sent PErrUnavailable) (demo_ust demo_claimed []))))) = Some r'
    /\ r_state r' = StatePending /\ r_attempt r' = r_attempt (demo_first demo_claimed)
    /\ r_session r' = r_session (demo_first demo_claimed).
Proof.
  refine (proj1 (@failure_budget demo shelf demo_hooks DefaultBackoff 8 demo_error 0 demo_up (sent PErrUnavailable)
    (demo_ust demo_claimed []) (demo_first demo_claimed) eq_refl _ _ _) _); vm_compute; auto.
Defined.

Definition demo_cancelled : ust shelf := snd (Cancel "a" (demo_ust demo_claimed [])).
Lemma cancel_acknowledged_witness :
  exists r, row_of "a" (db (uj demo_cancelled)) = Some r /\ r_state r = StateCancelled.
Proof.
  assert (E : Cancel "a" (demo_ust demo_claimed []) = (Ok StateCancelled, demo_cancelled)).
  { rewrite (surjective_pairing (Cancel _ _)). f_equal. }
  destruct (@cancel_acknowledged demo shelf "a" (demo_ust demo_claimed []) demo_cancelled StateCancelled eq_refl E)
    as (r & Hr & Hst & _). exact (ex_intro _ r (conj Hr Hst)).
Defined.

Definition demo_flush : res gerr Stats * ust shelf :=
  Flush (F := exact_float) demo_defaults demo_breaker demo_hooks (fun _ => Some demo_backend) demo_policy
    DefaultBackoff 8 demo_error 0 " (conflict)" 5 5 [MkFlags false false] (demo_ust demo_queued []).
Definition stats0 : Stats := MkStats 0 0 0 0 0 0 0 0 0 0.
Lemma demo_flush_row : demo_first (uj demo_flush.2) ∈ uploads (db (uj demo_flush.2)).
Proof. apply list_elem_of_In. vm_compute. left. reflexivity. Qed.

Lemma flush_means_finished_witness :
  map r_state (uploads (db (uj demo_flush.2))) = [StateDone]
  /\ finished (r_state (demo_first (uj demo_flush.2))).
Proof.
  split; [vm_compute; reflexivity|].
  assert (E : exists st, demo_flush = (Ok st, demo_flush.2)).
  { destruct demo_flush as [[st|e] s] eqn:E; [by eexists|]. exfalso. revert E. vm_compute. discriminate. }
  destruct E as [st E].
  exact (proj1 (@flush_means_finished demo exact_float shelf demo_defaults demo_breaker demo_hooks (fun _ => Some demo_backend)
    demo_policy DefaultBackoff 8 demo_error 0 " (conflict)" 5 5 [MkFlags false false] (demo_ust demo_queued []) demo_flush.2 st E)
    (demo_first (uj demo_flush.2)) demo_flush_row).
Defined.

(** ** What the backend holds *)

Example demo_parts :
  map (fun i => section [1; 2; 3; 4; 5] (part_off 2 i) (part_len 5 2 i)) (seqZ 0 (nParts 5 2)) = [[1; 2]; [3; 4]; [5]].
Proof. vm_compute. reflexivity. Qed.

(** A resumed session: part 0 was recorded before the interruption. *)
Definition demo_session : UploadSession := MkSession "s" 1 false None {["name" := "f.txt"]}.
Definition demo_half : ust shelf :=
  (demo_ust (snd (RecordPart "a" (MkPart 0 "etag" "done") demo_claimed))
    [(false, [CRecordPart "b" (MkPart 0 "e" "done")])]) <| prov := ({[0 := [1]]}, ∅) |>.
Definition demo_rest : res gerr Result * ust shelf :=
  transfer (F := exact_float) demo_defaults demo_breaker demo_policy demo_backend demo_up "f.txt" demo_session true demo_half.
Definition demo_outcome : Result := MkResult "a" (Some (MkEntry "o" "f.txt" "v3")) false "".

Lemma transfer_assembles_witness :
  exists e, REntry demo_outcome = Some e /\ content (prov demo_rest.2) (e_ID e) = Some [1; 2].
Proof.
  assert (E1 : fst demo_rest = Ok demo_outcome) by (vm_compute; reflexivity).
  pose proof (surjective_pairing demo_rest) as E. rewrite E1 in E.
  assert (Ht : [1; 2] = take (Z.to_nat (Size demo_up)) [1; 2]) by (vm_compute; reflexivity).
  assert (H1 : 0 < Retry.MaxAttempts demo_policy) by (vm_compute; reflexivity).
  assert (H2 : 0 <= Size demo_up) by (vm_compute; discriminate).
  assert (H3 : Size demo_up + partSizeOf demo_backend demo_session <= 2 ^ 63) by (vm_compute; discriminate).
  assert (H4 : ReadFile (fsys (uj demo_half)) (BlobPath demo_up) = Some [1; 2]) by (vm_compute; reflexivity).
  assert (Hp : Parts (ID demo_up) (db (next_journal demo_half)) = [MkPart 0 "etag" "done"]) by (vm_compute; reflexivity).
  rewrite Ht. apply (@transfer_assembles demo exact_float shelf demo_defaults demo_breaker demo_policy demo_backend demo_store
    demo_up "f.txt" demo_session true [1; 2] demo_half demo_rest.2 demo_outcome H1 H2 H3 H4); [|exact E].
  rewrite Hp. intros pt Hpt _. apply list_elem_of_singleton in Hpt as ->. vm_compute. reflexivity.
Defined.

Lemma session_roundtrip_witness : restoreSession (persistSession demo_session) = Some demo_session.
Proof. apply (session_roundtrip demo_session); vm_compute; first [reflexivity|discriminate|split; [discriminate|reflexivity]]. Defined.

(** The file is on the second page, at a version this node has not seen. *)
Definition demo_rewrite : Upload := demo_up <| ExpectedVersion := "v1" |>.
Lemma conflict_detected_witness :
  fst (targetName demo_hooks " (conflict)" 5 demo_backend demo_rewrite (demo_ust demo_claimed [])) = Ok "f (conflict).txt".
Proof.
  refine (@conflict_detected demo shelf demo_hooks " (conflict)" 5 2 demo_backend demo_rewrite (demo_ust demo_claimed [])
    [MkEntry "x" "g.txt" "v9"; MkEntry "y" "f.txt" "v2"] _ _ _); [|lia|discriminate].
  apply (more_pages _ _ _ _ [MkEntry "x" "g.txt" "v9"] "2" (∅, ∅) [MkEntry "y" "f.txt" "v2"] 1); [reflexivity|discriminate|].
  by eapply last_page.
Defined.

(** ** Two places where the outcome is not what the code says it is *)

(** A session opened under the file's own name and resumed after somebody
    edited the remote file completes under that name, over the edit, and is
    reported as a conflict copy that does not exist: the name of the object
    and the reported name differ. *)
Example resumed_conflict_misreported :
  let up := demo_rewrite <| Session := persistSession demo_session |> in
  let r := fst (runOne (F := exact_float) demo_defaults demo_breaker demo_hooks demo_policy " (conflict)" 5 demo_backend up
                  (demo_ust demo_claimed [])) in
  match r with
  | Ok r => option_map e_Name (REntry r) = Some "f.txt" /\ ConflictName r = "f (conflict).txt"
  | Err _ => False
  end.
Proof. vm_compute. done. Qed.

(** With a negative attempt count, which [New] lets through, the backend is
    never called and the upload still counts as delivered. *)
Example negative_attempts_lose_data :
  let s := snd (process (F := exact_float) demo_defaults demo_breaker demo_hooks (fun _ => Some demo_backend)
                  (MkPolicy DefaultBackoff (-1)) DefaultBackoff 8 demo_error 0 " (conflict)" 5 demo_up
                  (demo_ust demo_claimed [])) in
  map r_state (uploads (db (uj s))) = [StateDone] /\ prov s = (∅, ∅)
  /\ names (fsys (uj s)) !! "/j/objects/sha1-xbc" = None.
Proof. vm_compute. done. Qed.
