(* ===== verification/Health.v ===== *)
(** * Backend health (internal/provider/health.go)

    What the outcomes of the calls made to a backend say about it.  The tracker
    keeps the current failure run and when the run crossed the threshold; the
    operator's two flags override it.  [down_since_spec] and [state_spec] say
    the same from the whole history of outcomes, and [state_of_history] proves
    that the tracker's few fields are enough. *)
From S2P Require Import Prelude Retry.
Open Scope Z_scope.

Inductive HealthState :=
| HealthUp | HealthDegraded | HealthDown | HealthOut | HealthDisabled | HealthDraining.
#[export] Instance HealthState_eq_dec : EqDecision HealthState.
Proof. solve_decision. Defined.

(** [OutAfter = 0] means never. *)
Record HealthOptions := MkHealthOptions { Threshold : Z; OutAfter : Z }.

(** A zero time.Time is [None]. *)
Record Health := MkHealth {
  h_opt : HealthOptions;
  lastOK : option Z; lastFail : option Z; lastErr : string;
  failures : Z; downSince : option Z; disabled : bool; draining : bool
}.
#[export] Instance Health_eta : Settable Health := fun h =>
  MkHealth (h_opt h) (lastOK h) (lastFail h) (lastErr h) (failures h) (downSince h) (disabled h) (draining h).

Definition NewHealth (opt : HealthOptions) : Health :=
  MkHealth (if decide (Threshold opt <= 0) then MkHealthOptions 3 (OutAfter opt) else opt)
    None None "" 0 None false false.

Record HealthSnapshot := MkHealthSnapshot {
  sn_State : HealthState; sn_LastOK : option Z; sn_LastError : string;
  sn_LastFail : option Z; sn_DownSince : option Z; sn_Failures : Z
}.

(** errors.As with net.Error finds a network error anywhere in the tree. *)
Definition is_net (e : gerr) : bool := bool_decide (KNet ∈ chain e).

Definition isOutage (err : option gerr) : bool :=
  match err with
  | None => false
  | Some e =>
      let has := errors_Is e in
      if has PErrRateLimited || has PErrNotFound || has PErrExists || has PErrConflict
         || has PErrUnsupported || has PErrLinkExpired || has PErrCursorReset then false
      else if has PErrTransient || has PErrAuth || has PErrRiskControl || has PErrUnavailable then true
      else match first_status (chain e) with
           | Some s => bool_decide (500 <= s \/ s = 401)
           | None => is_net e
           end
  end.

Section Note.
(** The text of an error (its Error method). *)
Context (errText : gerr -> string).

Definition answered (h : Health) (now : Z) : Health :=
  (((h <| lastOK := Some now |>) <| failures := 0 |>) <| downSince := None |>) <| lastErr := "" |>.

(** The failure run after one more outage-class failure; a refused token counts
    as a whole run. *)
Definition longer_run (h : Health) (e : gerr) : Z :=
  let f := failures h + 1 in
  if errors_Is e PErrAuth && bool_decide (f < Threshold (h_opt h)) then Threshold (h_opt h) else f.

Definition Note (now : Z) (err : option gerr) (h : Health) : Health :=
  match err with
  | None => answered h now
  | Some e =>
      if errors_Is e ContextCanceled || errors_Is e ContextDeadlineExceeded then h
      else if negb (isOutage err) then answered h now
      else
        let f := longer_run h e in
        let h := ((h <| lastFail := Some now |>) <| lastErr := errText e |>) <| failures := f |> in
        if decide (Threshold (h_opt h) <= f /\ downSince h = None)
        then h <| downSince := Some now |> else h
  end.
End Note.

Definition Snapshot (now : Z) (h : Health) : HealthSnapshot :=
  let st :=
    if draining h then HealthDraining
    else if disabled h then HealthDisabled
    else match downSince h with
         | Some t =>
             if decide (0 < OutAfter (h_opt h) /\ OutAfter (h_opt h) <= now - t) then HealthOut else HealthDown
         | None => if decide (0 < failures h) then HealthDegraded else HealthUp
         end in
  MkHealthSnapshot st (lastOK h) (lastErr h) (lastFail h) (downSince h) (failures h).

Definition State (now : Z) (h : Health) : HealthState := sn_State (Snapshot now h).

Definition SetDisabled (on : bool) (h : Health) : Health := h <| disabled := on |>.
Definition SetDraining (on : bool) (h : Health) : Health := h <| draining := on |>.

Definition Usable (s : HealthSnapshot) : bool :=
  match sn_State s with HealthUp | HealthDegraded => true | _ => false end.

(** ** The history reading of the tracker

    What one outcome says: the backend answered, nothing, a failure, or a
    refused token. *)
Inductive signal := SAnswer | SNothing | SOutage | SRefused.
#[export] Instance signal_eq_dec : EqDecision signal.
Proof. solve_decision. Defined.

Definition signal_of (err : option gerr) : signal :=
  match err with
  | None => SAnswer
  | Some e =>
      if errors_Is e ContextCanceled || errors_Is e ContextDeadlineExceeded then SNothing
      else if negb (isOutage err) then SAnswer
      else if errors_Is e PErrAuth then SRefused else SOutage
  end.

(** The failures since the last answer, oldest first; the outcomes of a history
    are given newest first. *)
Fixpoint current_run (hist : list (Z * option gerr)) : list (Z * signal) :=
  match hist with
  | [] => []
  | (t, err) :: rest =>
      match signal_of err with
      | SAnswer => []
      | SNothing => current_run rest
      | sg => current_run rest ++ [(t, sg)]
      end
  end.

(** The time of the failure that crosses the threshold: the first refused token
    or the [th]-th failure, whichever is earlier. *)
Fixpoint crossing (th : Z) (run : list (Z * signal)) : option Z :=
  match run with
  | [] => None
  | (t, SRefused) :: _ => Some t
  | (t, _) :: rest => if decide (th <= 1) then Some t else crossing (th - 1) rest
  end.

Definition state_spec (opt : HealthOptions) (hist : list (Z * option gerr)) (now : Z) : HealthState :=
  let run := current_run hist in
  match crossing (Threshold opt) run with
  | Some t => if decide (0 < OutAfter opt /\ OutAfter opt <= now - t) then HealthOut else HealthDown
  | None => match run with [] => HealthUp | _ => HealthDegraded end
  end.

Definition track (errText : gerr -> string) (opt : HealthOptions) (hist : list (Z * option gerr)) : Health :=
  foldr (fun o h => Note errText (fst o) (snd o) h) (NewHealth opt) hist.

Lemma crossing_snoc th run t sg :
  crossing th (run ++ [(t, sg)]) =
  match crossing th run with
  | Some x => Some x
  | None => if decide (sg = SRefused \/ th <= Z.of_nat (length run) + 1) then Some t else None
  end.
Proof.
  revert th. induction run as [|[t' sg'] run IH]; intros th; simpl.
  - destruct sg; repeat destruct decide; try done; naive_solver lia.
  - destruct sg'; try done; destruct (decide (th <= 1)); try done; rewrite IH;
      destruct (crossing (th - 1) run); try done; repeat destruct decide; try done; naive_solver lia.
Qed.

(** The fields of the tracker, read off the history. *)
Definition tracks (h : Health) (hist : list (Z * option gerr)) : Prop :=
  let run := current_run hist in
  0 < Threshold (h_opt h) /\
  downSince h = crossing (Threshold (h_opt h)) run /\
  (downSince h = None -> failures h = Z.of_nat (length run)) /\
  (downSince h <> None -> Threshold (h_opt h) <= failures h) /\
  (run = [] -> failures h = 0).

Lemma answered_tracks h now o hist :
  0 < Threshold (h_opt h) -> signal_of (snd o) = SAnswer -> tracks (answered h now) (o :: hist).
Proof.
  intros Ht Hs. unfold tracks. destruct o as [t err]. simpl in Hs |- *. rewrite Hs. simpl. naive_solver.
Qed.

Lemma failed_tracks errText h t e sg hist :
  tracks h hist -> sg = SOutage \/ sg = SRefused -> signal_of (Some e) = sg ->
  tracks (Note errText t (Some e) h) ((t, Some e) :: hist).
Proof.
  intros (Ht & Hd & Hf & Hge & Hz) Hsg Hs.
  assert (HN : exists f, Note errText t (Some e) h =
     (let h' := ((h <| lastFail := Some t |>) <| lastErr := errText e |>) <| failures := f |> in
      if decide (Threshold (h_opt h) <= f /\ downSince h = None) then h' <| downSince := Some t |> else h') /\
     (sg = SRefused -> f = Z.max (failures h + 1) (Threshold (h_opt h))) /\
     (sg = SOutage -> f = failures h + 1)).
  { revert Hs. unfold signal_of, Note, longer_run. destruct (_ || _); [intros <-; naive_solver|].
    destruct (negb _); [intros <-; naive_solver|].
    destruct (errors_Is e PErrAuth); intros <-; eexists; (split; [reflexivity|]); split; intros; try done; simpl.
    - case_bool_decide; lia. }
  destruct HN as (f & -> & Hr & Ho).
  assert (Hc : current_run ((t, Some e) :: hist) = current_run hist ++ [(t, sg)]).
  { cbn [current_run]. rewrite Hs. destruct Hsg as [-> | ->]; reflexivity. }
  unfold tracks. rewrite Hc, crossing_snoc, length_app.
  assert (f <> 0 /\ failures h + 1 <= f) as [? ?].
  { destruct (downSince h) eqn:E.
    - assert (Threshold (h_opt h) <= failures h) by (apply Hge; done).
      destruct Hsg as [Hsg|Hsg]; [rewrite (Ho Hsg)|rewrite (Hr Hsg)]; lia.
    - rewrite (Hf eq_refl) in Ho, Hr. rewrite (Hf eq_refl).
      destruct Hsg as [Hsg|Hsg]; [rewrite (Ho Hsg)|rewrite (Hr Hsg)]; lia. }
  assert (Hne : current_run hist ++ [(t, sg)] <> []) by (destruct (current_run hist); done).
  destruct (decide (Threshold (h_opt h) <= f /\ downSince h = None)) as [[Hx Hy]|Hx]; simpl; rewrite <- Hd.
  - rewrite Hy. rewrite (Hf Hy) in *.
    rewrite decide_True by (destruct Hsg as [Hsg|Hsg]; [right; rewrite <- (Ho Hsg)|left]; done).
    repeat split; naive_solver.
  - destruct (downSince h) as [d|] eqn:E.
    + specialize (Hge ltac:(done)). repeat split; naive_solver lia.
    + specialize (Hf eq_refl). rewrite decide_False.
      * destruct Hsg as [Hsg|Hsg]; [rewrite (Ho Hsg), Hf|]; repeat split; naive_solver lia.
      * destruct Hsg as [Hsg|Hsg]; [rewrite (Ho Hsg) in Hx|rewrite (Hr Hsg) in Hx]; naive_solver lia.
Qed.

Lemma note_tracks errText h o hist :
  tracks h hist -> tracks (Note errText (fst o) (snd o) h) (o :: hist).
Proof.
  intros H. destruct o as [t err]. simpl. destruct (signal_of err) eqn:Hs.
  - assert (Note errText t err h = answered h t) as ->.
    { revert Hs. unfold signal_of, Note. destruct err as [e|]; [|done].
      destruct (_ || _); [done|]. destruct (negb _); [done|]. destruct (errors_Is _ _); done. }
    apply answered_tracks; [apply H|done].
  - assert (Note errText t err h = h) as ->.
    { revert Hs. unfold signal_of, Note. destruct err as [e|]; [|done].
      destruct (_ || _); [done|]. destruct (negb _); [done|]. destruct (errors_Is _ _); done. }
    unfold tracks in *. cbn [current_run]. rewrite Hs. exact H.
  - destruct err as [e|]; [|done]. eapply failed_tracks; [done| |done]. auto.
  - destruct err as [e|]; [|done]. eapply failed_tracks; [done| |done]. auto.
Qed.

Lemma track_tracks errText opt hist : tracks (track errText opt hist) hist.
Proof.
  induction hist as [|o hist IH]; [|by apply note_tracks].
  unfold tracks, track, NewHealth. simpl. destruct decide; simpl; repeat split; done || lia.
Qed.

Definition operator_view (h : Health) : HealthOptions * bool * bool := (h_opt h, disabled h, draining h).

Lemma note_operator_view errText t err h : operator_view (Note errText t err h) = operator_view h.
Proof.
  unfold Note. destruct err as [e|]; [|done].
  destruct (_ || _); [done|]. destruct (negb _); [done|]. simpl. destruct decide; done.
Qed.

Lemma track_operator_view errText opt hist :
  operator_view (track errText opt hist) = (h_opt (NewHealth opt), false, false).
Proof.
  induction hist as [|o hist IH]; [done|]. simpl. rewrite note_operator_view. exact IH.
Qed.

(** C23: Few fields stand for a whole history.  Whatever outcomes the calls to a
    backend had, the tracker reports what the history says: down since the
    failure that was the Threshold-th since the last answer, or since the first
    refused token after it; out once that is OutAfter ago; degraded while there
    are fewer failures; up when the last outcome that says anything is an
    answer, which includes refusals about the request such as 404 or 429.  A
    cancelled call never changes anything. *)
Theorem state_of_history errText opt hist now :
  State now (track errText opt hist) = state_spec (h_opt (NewHealth opt)) hist now.
Proof.
  pose proof (track_tracks errText opt hist) as (Ht & Hd & Hf & Hge & Hz).
  pose proof (track_operator_view errText opt hist) as Ho. unfold operator_view in Ho. injection Ho as Ho1 Ho2 Ho3.
  unfold State, Snapshot, state_spec. simpl. rewrite Ho2, Ho3. rewrite Ho1 in Hd, Ht. rewrite Ho1, Hd.
  destruct (crossing _ _) eqn:E; [done|].
  specialize (Hf Hd). rewrite Hf. destruct (current_run hist); simpl; destruct decide; done || lia.
Qed.
