(* ===== verification/GoLib.v ===== *)
(** * Go's standard library: strings, UTF-8 and stable sorting

    Shared by the components: decoding of runes as unicode/utf8 does it, and
    sort.SliceStable as the insertion sort it is up to twenty elements (beyond
    that its merges give the same result for any strict weak order). *)
From S2P Require Import Prelude.
From Stdlib Require Import Ascii Sorting.Sorted.
Open Scope Z_scope.

(** A time is a number of nanoseconds since 1970; Go's zero time is the year 1. *)
Definition zero_time : Z := -62135596800000000000.

(** provider.Kind *)
Inductive Kind := KindFile | KindDir.
#[export] Instance Kind_eq_dec : EqDecision Kind.
Proof. solve_decision. Defined.

(** strings.HasPrefix, strings.TrimPrefix *)
Definition hasPrefix (s p : string) : bool := String.prefix p s.
Definition trimPrefix (s p : string) : string :=
  if hasPrefix s p then String.substring (String.length p) (String.length s - String.length p) s else s.

Lemma substring_all s : String.substring 0 (String.length s) s = s.
Proof. induction s as [|c s IH]; simpl; [done|]. by rewrite IH. Qed.

(** ** UTF-8 *)

Definition byte_at (s : string) : Z :=
  match s with EmptyString => -1 | String c _ => Z.of_nat (nat_of_ascii c) end.
Fixpoint sdrop (n : nat) (s : string) : string :=
  match n, s with S n', String _ s' => sdrop n' s' | _, _ => s end.

Definition RuneError : Z := 65533.
Definition cont (b : Z) : bool := bool_decide (128 <= b <= 191).
Definition low6 (b : Z) : Z := Z.land b 63.

(** utf8.DecodeRuneInString *)
Definition decode_rune (s : string) : Z * nat :=
  let b0 := byte_at s in
  let b1 := byte_at (sdrop 1 s) in
  let b2 := byte_at (sdrop 2 s) in
  let b3 := byte_at (sdrop 3 s) in
  if decide (b0 < 0) then (RuneError, 0%nat)
  else if decide (b0 < 128) then (b0, 1%nat)
  else if decide (194 <= b0 <= 223) then
    if cont b1 then (Z.lor (Z.shiftl (Z.land b0 31) 6) (low6 b1), 2%nat) else (RuneError, 1%nat)
  else if decide (224 <= b0 <= 239) then
    let lo := if decide (b0 = 224) then 160 else 128 in
    let hi := if decide (b0 = 237) then 159 else 191 in
    if bool_decide (lo <= b1 <= hi) && cont b2
    then (Z.lor (Z.shiftl (Z.land b0 15) 12) (Z.lor (Z.shiftl (low6 b1) 6) (low6 b2)), 3%nat)
    else (RuneError, 1%nat)
  else if decide (240 <= b0 <= 244) then
    let lo := if decide (b0 = 240) then 144 else 128 in
    let hi := if decide (b0 = 244) then 143 else 191 in
    if bool_decide (lo <= b1 <= hi) && cont b2 && cont b3
    then (Z.lor (Z.shiftl (Z.land b0 7) 18)
            (Z.lor (Z.shiftl (low6 b1) 12) (Z.lor (Z.shiftl (low6 b2) 6) (low6 b3))), 4%nat)
    else (RuneError, 1%nat)
  else (RuneError, 1%nat).

(** The runes of a string, as range iterates over them. *)
Fixpoint runes_go (fuel : nat) (s : string) : list Z :=
  match fuel, s with
  | S fuel', String _ _ => let '(r, n) := decode_rune s in r :: runes_go fuel' (sdrop n s)
  | _, _ => []
  end.
Definition runes (s : string) : list Z := runes_go (String.length s) s.
(** utf8.ValidString *)
Fixpoint valid_go (fuel : nat) (s : string) : bool :=
  match fuel, s with
  | S fuel', String _ _ =>
      let '(r, n) := decode_rune s in
      if decide (r = RuneError /\ n = 1%nat) then false else valid_go fuel' (sdrop n s)
  | _, _ => true
  end.
Definition ValidString (s : string) : bool := valid_go (String.length s) s.

(** utf8.AppendRune *)
Definition encode_rune (r : Z) : string :=
  let b n := String (ascii_of_nat (Z.to_nat n)) EmptyString in
  let r' := if decide (r < 0 \/ 1114111 < r \/ 55296 <= r <= 57343) then RuneError else r in
  if decide (r' < 128) then b r'
  else if decide (r' < 2048) then b (192 + Z.shiftr r' 6) +:+ b (128 + Z.land r' 63)
  else if decide (r' < 65536) then
    b (224 + Z.shiftr r' 12) +:+ (b (128 + Z.land (Z.shiftr r' 6) 63) +:+ b (128 + Z.land r' 63))
  else b (240 + Z.shiftr r' 18) +:+ (b (128 + Z.land (Z.shiftr r' 12) 63) +:+
         (b (128 + Z.land (Z.shiftr r' 6) 63) +:+ b (128 + Z.land r' 63))).
(** string(runes) *)
Definition encode_runes (l : list Z) : string := foldr (fun r s => encode_rune r +:+ s) "" l.

(** strings.ContainsAny *)
Definition ContainsAny (s set : string) : bool := existsb (fun r => bool_decide (r ∈ runes set)) (runes s).

(** strings.HasSuffix *)
Definition HasSuffix (s suf : string) : bool :=
  bool_decide (String.length suf <= String.length s)%nat &&
  bool_decide (sdrop (String.length s - String.length suf) s = suf).

(** ** sort.SliceStable *)

Section Sort.
Context {A : Type} (less : A -> A -> bool).

(** The sorted part is kept with its last element first: the new element moves
    left past every element it is less than, and stops at the first it is not. *)
Fixpoint sort_insert (x : A) (l : list A) : list A :=
  match l with
  | [] => [x]
  | y :: l' => if less x y then y :: sort_insert x l' else x :: l
  end.
Definition sort_rev (l : list A) : list A := foldl (fun acc x => sort_insert x acc) [] l.
Definition stable_sort (l : list A) : list A := reverse (sort_rev l).

Lemma sort_insert_perm x l : sort_insert x l ≡ₚ x :: l.
Proof.
  induction l as [|y l IH]; simpl; [done|]. destruct (less x y); [|done].
  rewrite IH. apply Permutation_swap.
Qed.

Lemma sort_rev_perm l : sort_rev l ≡ₚ l.
Proof.
  unfold sort_rev. cut (forall acc, foldl (fun acc x => sort_insert x acc) acc l ≡ₚ acc ++ l); [intros H; apply H|].
  induction l as [|x l IH]; intros acc; simpl; [by rewrite app_nil_r|].
  rewrite IH, sort_insert_perm. apply Permutation_middle.
Qed.

Lemma stable_sort_perm l : stable_sort l ≡ₚ l.
Proof. unfold stable_sort. by rewrite reverse_Permutation, sort_rev_perm. Qed.

Lemma stable_sort_elem x l : x ∈ stable_sort l <-> x ∈ l.
Proof. by rewrite stable_sort_perm. Qed.
Lemma stable_sort_NoDup l : NoDup l -> NoDup (stable_sort l).
Proof. by rewrite stable_sort_perm. Qed.
Lemma length_stable_sort l : length (stable_sort l) = length l.
Proof. apply Permutation_length, stable_sort_perm. Qed.

(** A key the comparison never contradicts is in order throughout the result,
    also when the comparison itself is no strict weak order. *)
Section Key.
Context (K : A -> A -> Prop) `{!Transitive K}.
Context (Hle : forall x y, less x y = true -> K x y) (Hnl : forall x y, less x y = false -> K y x).

Lemma sort_insert_sorted x l : StronglySorted (flip K) l -> StronglySorted (flip K) (sort_insert x l).
Proof.
  induction 1 as [|y l Hl IH Hy]; simpl; [repeat constructor|].
  destruct (less x y) eqn:Hxy.
  - constructor; [done|]. apply Forall_forall. intros z. rewrite sort_insert_perm, elem_of_cons.
    intros [->|Hz]; [apply Hle; done|]. rewrite Forall_forall in Hy. by apply Hy.
  - constructor; [by constructor|]. constructor; [by apply Hnl|].
    eapply Forall_impl; [exact Hy|]. intros z Hz. unfold flip in *. etrans; [exact Hz|by apply Hnl].
Qed.

Lemma sort_rev_sorted l : StronglySorted (flip K) (sort_rev l).
Proof.
  unfold sort_rev. cut (forall acc, StronglySorted (flip K) acc ->
    StronglySorted (flip K) (foldl (fun acc x => sort_insert x acc) acc l)); [intros H; apply H; constructor|].
  induction l as [|x l IH]; intros acc H; simpl; [done|]. apply IH. by apply sort_insert_sorted.
Qed.

Lemma StronglySorted_snoc (l : list A) x :
  StronglySorted K l -> Forall (fun y => K y x) l -> StronglySorted K (l ++ [x]).
Proof.
  induction 1 as [|y l Hl IH Hy]; simpl; intros Hx; [repeat constructor|].
  apply Forall_cons in Hx as [Hyx Hx]. constructor; [by apply IH|].
  apply Forall_app. split; [done|]. by repeat constructor.
Qed.

Lemma stable_sort_sorted l : StronglySorted K (stable_sort l).
Proof.
  unfold stable_sort. induction (sort_rev_sorted l) as [|x r Hr IH Hx]; [constructor|].
  rewrite reverse_cons. apply StronglySorted_snoc; [done|]. by apply Forall_reverse.
Qed.
End Key.

Lemma sort_insert_id x l : Forall (fun y => less x y = false) l -> sort_insert x l = x :: l.
Proof. destruct 1 as [|y l Hy _]; simpl; [done|]. by rewrite Hy. Qed.
End Sort.
