(* ===== verification/PathGlob.v ===== *)
(** * Path globs (internal/pathglob/glob.go)

    The "**" glob dialect of the index and trigger rules.  [matchSegments] and
    [prefixSegments] are the code's searches; [gmatch] is the meaning of a
    pattern as a relation.  The matching of one segment is Go's path.Match,
    modelled byte by byte below; the theorems hold for any segment matcher. *)
From S2P Require Import Prelude Filepath GoLib.
From Stdlib Require Import Ascii.
Open Scope Z_scope.

(** ** path.Match *)

(** [None] is path.ErrBadPattern throughout. *)
Definition getEsc (chunk : string) : option (Z * string) :=
  let read (c : string) :=
    match c with
    | EmptyString => None
    | _ =>
        let '(r, n) := decode_rune c in
        let rest := sdrop n c in
        if bool_decide (r = RuneError /\ n = 1%nat) then None
        else match rest with EmptyString => None | _ => Some (r, rest) end
    end in
  match chunk with
  | EmptyString => None
  | String c chunk' =>
      if decide (c = "-"%char \/ c = "]"%char) then None
      else if decide (c = "\"%char) then read chunk' else read chunk
  end.

(** The ranges of a character class up to its closing bracket. *)
Fixpoint class_ranges (fuel : nat) (chunk : string) (r : Z) (nrange : nat) (matched : bool)
  : option (bool * string) :=
  match fuel with
  | O => None
  | S fuel' =>
      match chunk with
      | String c chunk' =>
          if bool_decide (c = "]"%char) && bool_decide (0 < nrange)%nat then Some (matched, chunk')
          else
            match getEsc chunk with
            | None => None
            | Some (lo, chunk) =>
                match (match chunk with
                       | String d chunk' => if decide (d = "-"%char) then getEsc chunk' else Some (lo, chunk)
                       | EmptyString => Some (lo, chunk)
                       end) with
                | None => None
                | Some (hi, chunk) =>
                    class_ranges fuel' chunk r (S nrange) (matched || bool_decide (lo <= r <= hi))
                end
            end
      | EmptyString => None
      end
  end.

(** [s = None] records that the match has already failed: the chunk is then only
    checked for syntax. *)
Fixpoint match_chunk (fuel : nat) (chunk : string) (s : option string) : option (option string) :=
  match fuel with
  | O => None
  | S fuel' =>
      match chunk with
      | EmptyString => Some s
      | String c chunk' =>
          let s := match s with Some EmptyString => None | _ => s end in
          let literal (ch : string) :=
            match ch with
            | EmptyString => None
            | String d ch' =>
                match_chunk fuel' ch'
                  (match s with
                   | Some (String x s') => if decide (d = x) then Some s' else None
                   | _ => None
                   end)
            end in
          if decide (c = "["%char) then
            let '(r, s') := match s with
                            | Some t => let '(r, n) := decode_rune t in (r, Some (sdrop n t))
                            | None => (0, None)
                            end in
            let '(negated, body) := match chunk' with
                                    | String d b => if decide (d = "^"%char) then (true, b) else (false, chunk')
                                    | EmptyString => (false, chunk')
                                    end in
            match class_ranges fuel' body r 0 false with
            | None => None
            | Some (m, rest) => match_chunk fuel' rest (if Bool.eqb m negated then None else s')
            end
          else if decide (c = "?"%char) then
            match_chunk fuel' chunk'
              (match s with
               | Some (String x t) =>
                   if decide (x = "/"%char) then None
                   else Some (sdrop (snd (decode_rune (String x t))) (String x t))
               | _ => None
               end)
          else if decide (c = "\"%char) then literal chunk' else literal chunk
      end
  end.
Definition matchChunk (chunk s : string) : option (option string) :=
  match_chunk (S (String.length chunk)) chunk (Some s).

Fixpoint trim_stars (p : string) : bool * string :=
  match p with
  | String c p' => if decide (c = "*"%char) then (true, snd (trim_stars p')) else (false, p)
  | EmptyString => (false, p)
  end.
(** The chunk up to the next star outside brackets, and the rest. *)
Fixpoint scan_body (p : string) (inrange : bool) : string * string :=
  match p with
  | EmptyString => (EmptyString, EmptyString)
  | String c p' =>
      if decide (c = "\"%char) then
        match p' with
        | String d p'' => let '(a, b) := scan_body p'' inrange in (String c (String d a), b)
        | EmptyString => (String c EmptyString, EmptyString)
        end
      else if bool_decide (c = "*"%char) && negb inrange then (EmptyString, p)
      else
        let inrange := if decide (c = "["%char) then true else if decide (c = "]"%char) then false else inrange in
        let '(a, b) := scan_body p' inrange in (String c a, b)
  end.
Definition scanChunk (p : string) : bool * string * string :=
  let '(star, p) := trim_stars p in
  let '(chunk, rest) := scan_body p false in (star, chunk, rest).

Fixpoint no_slash (s : string) : bool :=
  match s with EmptyString => true | String c s' => bool_decide (c <> "/"%char) && no_slash s' end.

(** The rest of the pattern is well-formed. *)
Fixpoint check_rest (fuel : nat) (pattern : string) : option bool :=
  match fuel, pattern with
  | S fuel', String _ _ =>
      let '(_, chunk, rest) := scanChunk pattern in
      match matchChunk chunk "" with None => None | Some _ => check_rest fuel' rest end
  | _, _ => Some false
  end.

(** A chunk after a star: skip ever more bytes of the name, none of them '/'. *)
Fixpoint skip_search (chunk : string) (last : bool) (name : string) : option (option string) :=
  match name with
  | EmptyString => Some None
  | String c name' =>
      if decide (c = "/"%char) then Some None
      else match matchChunk chunk name' with
           | None => None
           | Some (Some t) =>
               if last && bool_decide (t <> "") then skip_search chunk last name' else Some (Some t)
           | Some None => skip_search chunk last name'
           end
  end.

Fixpoint match_name (fuel : nat) (pattern name : string) : option bool :=
  match fuel with
  | O => None
  | S fuel' =>
      match pattern with
      | EmptyString => Some (bool_decide (name = ""))
      | _ =>
          let '(star, chunk, rest) := scanChunk pattern in
          if star && bool_decide (chunk = "") then Some (no_slash name)
          else
            match matchChunk chunk name with
            | None => None
            | Some found =>
                let here := match found with
                            | Some t => if bool_decide (t = "") || bool_decide (rest <> "") then Some t else None
                            | None => None
                            end in
                match here with
                | Some t => match_name fuel' rest t
                | None =>
                    if star then
                      match skip_search chunk (bool_decide (rest = "")) name with
                      | None => None
                      | Some (Some t) => match_name fuel' rest t
                      | Some None => check_rest fuel' rest
                      end
                    else check_rest fuel' rest
                end
            end
      end
  end.
(** [ok && err == nil] of path.Match. *)
Definition path_Match (pattern name : string) : bool :=
  default false (match_name (S (String.length pattern)) pattern name).

Example path_Match_tests :
  path_Match "*.txt" "notes.txt" = true /\ path_Match "*.txt" "notes.md" = false /\
  path_Match "a?c" "abc" = true /\ path_Match "[a-c]x" "bx" = true /\ path_Match "[^a-c]x" "bx" = false /\
  path_Match "a*b*c" "aXXbYc" = true /\ path_Match "[" "[" = false /\ path_Match "\*" "*" = true /\
  path_Match "*" "" = true /\ path_Match "a[" "a" = false.
Proof. vm_compute. done. Qed.

(** ** glob.go *)

Definition splitGlob (s : string) : list string :=
  filter (fun seg => seg <> "") (Filepath.split s).

(** [parts[0:]], [parts[1:]], ..., the empty rest. *)
Fixpoint suffixes {A} (l : list A) : list (list A) :=
  l :: match l with [] => [] | _ :: l' => suffixes l' end.

Section Glob.
(** path.Match of a pattern segment and a name: [ok] and no error. *)
Context (pmatch : string -> string -> bool).

Fixpoint matchSegments (pat parts : list string) {struct pat} : bool :=
  match pat with
  | [] => bool_decide (parts = [])
  | p :: pat' =>
      if decide (p = "**") then
        (fix run (q : list string) : bool :=
           match q with
           | [] => true
           | x :: q' => if decide (x = "**") then run q' else existsb (matchSegments q) (suffixes parts)
           end) pat'
      else match parts with
           | [] => false
           | s :: parts' => pmatch p s && matchSegments pat' parts'
           end
  end.

Definition Match (pattern p : string) : bool := matchSegments (splitGlob pattern) (splitGlob p).
Definition MatchAny (patterns : list string) (p : string) : bool := existsb (fun pat => Match pat p) patterns.

Fixpoint prefixSegments (pat parts : list string) {struct pat} : bool :=
  match parts with
  | [] => true
  | s :: parts' =>
      match pat with
      | [] => false
      | p :: pat' =>
          if decide (p = "**") then
            (fix run (q : list string) : bool :=
               match q with
               | x :: q' => if decide (x = "**") then run q' else existsb (prefixSegments q) (suffixes parts)
               | [] => existsb (prefixSegments q) (suffixes parts)
               end) pat'
          else pmatch p s && prefixSegments pat' parts'
      end
  end.
Definition MayMatchBelow (pattern dir : string) : bool := prefixSegments (splitGlob pattern) (splitGlob dir).

(** ** What a pattern means *)

Inductive gmatch : list string -> list string -> Prop :=
| gm_nil : gmatch [] []
| gm_seg p s pat parts : p <> "**" -> pmatch p s = true -> gmatch pat parts -> gmatch (p :: pat) (s :: parts)
| gm_star skipped pat parts : gmatch pat parts -> gmatch ("**" :: pat) (skipped ++ parts).

#[local] Hint Constructors gmatch : core.

Lemma existsb_suffixes {A} (f : list A -> bool) l :
  existsb f (suffixes l) = true <-> exists skipped rest, l = skipped ++ rest /\ f rest = true.
Proof.
  induction l as [|x l IH]; cbn [suffixes existsb].
  - rewrite orb_false_r. split; [exists [], []; done|].
    intros (sk & r & Hl & Hf). symmetry in Hl. apply app_eq_nil in Hl as [-> ->]. done.
  - rewrite orb_true_iff, IH. split.
    + intros [H|(sk & r & -> & H)]; [exists [], (x :: l)|exists (x :: sk), r]; done.
    + intros ([|y sk] & r & Hl & Hf); simplify_eq/=; eauto.
Qed.

(** A run of "**" means one "**". *)
Lemma gmatch_star_inv pat parts :
  gmatch ("**" :: pat) parts <-> exists skipped rest, parts = skipped ++ rest /\ gmatch pat rest.
Proof. split; [inversion 1; simplify_eq; eauto|naive_solver]. Qed.

Lemma gmatch_star_run pat parts : gmatch ("**" :: "**" :: pat) parts <-> gmatch ("**" :: pat) parts.
Proof.
  rewrite (gmatch_star_inv ("**" :: pat)). split.
  - intros (sk & r & -> & (sk' & r' & -> & H)%gmatch_star_inv). rewrite app_assoc. auto.
  - intros H. exists [], parts. auto.
Qed.

Lemma gmatch_seg_inv p pat parts :
  p <> "**" ->
  gmatch (p :: pat) parts <-> exists s parts', parts = s :: parts' /\ pmatch p s = true /\ gmatch pat parts'.
Proof. intros Hp. split; [inversion 1; simplify_eq; eauto|naive_solver]. Qed.

Lemma matchSegments_gmatch pat parts : matchSegments pat parts = true <-> gmatch pat parts.
Proof.
  revert parts. induction pat as [pat IH] using (induction_ltof1 _ length). unfold ltof in IH.
  intros parts. destruct pat as [|p pat]; cbn [matchSegments].
  - rewrite bool_decide_eq_true. split; [intros ->; auto|by inversion 1].
  - destruct (decide (p = "**")) as [->|Hp].
    + induction pat as [|x q IHq].
      * split; [intros _|done]. apply gmatch_star_inv. exists parts, []. rewrite app_nil_r. auto.
      * destruct (decide (x = "**")) as [->|Hx].
        -- rewrite gmatch_star_run. apply IHq. intros y Hy. apply IH. simpl in *. lia.
        -- rewrite existsb_suffixes, gmatch_star_inv. setoid_rewrite IH; [done|simpl; lia].
    + rewrite gmatch_seg_inv by done. destruct parts as [|s parts]; [naive_solver|].
      rewrite andb_true_iff, IH by (simpl; lia). naive_solver.
Qed.

(** Paths at or below [dir] that match. *)
Definition below (pat dir : list string) : Prop := exists rest, gmatch pat (dir ++ rest).

Lemma prefixSegments_star_run q parts :
  parts <> [] ->
  prefixSegments ("**" :: "**" :: q) parts = prefixSegments ("**" :: q) parts.
Proof. destruct parts; done. Qed.

Lemma prefixSegments_star q parts :
  parts <> [] -> head q <> Some "**" ->
  prefixSegments ("**" :: q) parts = existsb (prefixSegments q) (suffixes parts).
Proof.
  intros Hne Hh. destruct parts as [|s parts]; [done|].
  destruct q as [|x q]; cbn [prefixSegments]; [done|].
  destruct (decide ("**" = "**")) as [_|?]; [|done]. destruct (decide (x = "**")) as [->|]; done.
Qed.

(** The search misses no directory under which something matches. *)
Lemma below_prefixSegments pat dir : below pat dir -> prefixSegments pat dir = true.
Proof.
  revert dir. induction pat as [pat IH] using (induction_ltof1 _ length). unfold ltof in IH.
  intros dir [rest H]. destruct dir as [|s dir]; [by destruct pat|].
  destruct pat as [|p pat]; [by inversion H|]. destruct (decide (p = "**")) as [->|Hp].
  - destruct (decide (head pat = Some "**")) as [Hh|Hh].
    + destruct pat as [|x q]; [done|]. cbn in Hh. injection Hh as ->. rewrite prefixSegments_star_run by done.
      apply (IH ("**" :: q)); [simpl; lia|]. exists rest. apply gmatch_star_run. exact H.
    + rewrite prefixSegments_star by done. apply existsb_suffixes.
      apply gmatch_star_inv in H as (sk & r & Hr & H).
      destruct (app_eq_inv _ _ _ _ Hr) as [(k & -> & Hk)|(k & Hk & ->)].
      * exists sk, k. split; [done|]. apply IH; [simpl; lia|]. exists rest. rewrite <- Hk. exact H.
      * exists (s :: dir), []. rewrite app_nil_r. split; [done|]. by destruct pat.
  - apply gmatch_seg_inv in H as (s' & parts & [= -> <-] & Hm & H); [|done].
    cbn [prefixSegments]. rewrite decide_False by done. rewrite Hm. simpl.
    apply IH; [simpl; lia|]. by exists rest.
Qed.

(** Every segment of the pattern can be spelt. *)
Definition spellable (pat : list string) : Prop :=
  Forall (fun p => p <> "**" -> exists s, s <> "" /\ Filepath.noslash s /\ pmatch p s = true) pat.

Definition seg_ok (s : string) : Prop := s <> "" /\ Filepath.noslash s.

Lemma spellable_match pat : spellable pat -> exists rest, Forall seg_ok rest /\ gmatch pat rest.
Proof.
  induction 1 as [|p pat Hp _ (rest & Hr & IH)]; [exists []; auto|].
  destruct (decide (p = "**")) as [->|Hs].
  - exists rest. split; [done|]. apply gmatch_star_inv. exists [], rest. auto.
  - destruct (Hp Hs) as (s & H1 & H2 & H3). exists (s :: rest). split; [by constructor|auto].
Qed.

(** And it reports only directories under which something can match. *)
Lemma prefixSegments_below pat dir :
  spellable pat -> prefixSegments pat dir = true ->
  exists rest, Forall seg_ok rest /\ gmatch pat (dir ++ rest).
Proof.
  revert dir. induction pat as [pat IH] using (induction_ltof1 _ length). unfold ltof in IH.
  intros dir Hsp H. destruct dir as [|s dir].
  { destruct (spellable_match pat Hsp) as (rest & ? & ?). by exists rest. }
  destruct pat as [|p pat]; [done|]. apply Forall_cons_1 in Hsp as Hsp'. destruct Hsp' as [Hp Hsp'].
  destruct (decide (p = "**")) as [->|Hs].
  - destruct (decide (head pat = Some "**")) as [Hh|Hh].
    + destruct pat as [|x q]; [done|]. cbn in Hh. injection Hh as ->. rewrite prefixSegments_star_run in H by done.
      destruct (IH ("**" :: q)) with (dir := s :: dir) as (rest & ? & ?); [simpl; lia|done|done|].
      exists rest. split; [done|]. by apply gmatch_star_run.
    + rewrite prefixSegments_star in H by done. apply existsb_suffixes in H as (sk & r & -> & H).
      destruct (IH pat) with (dir := r) as (rest & ? & ?); [simpl; lia|done|done|].
      exists rest. split; [done|]. apply gmatch_star_inv. exists sk, (r ++ rest). rewrite app_assoc. auto.
  - cbn [prefixSegments] in H. rewrite decide_False in H by done. apply andb_true_iff in H as [Hm H].
    destruct (IH pat) with (dir := dir) as (rest & ? & ?); [simpl; lia|done|done|].
    exists rest. split; [done|]. simpl. auto.
Qed.

(** C24: Match decides what a pattern means: split on '/' with empty segments
    dropped, a "**" segment stands for any number of whole segments and every
    other segment matches exactly one segment of the path.  The search over
    suffixes and the collapsing of "**" runs lose and add nothing. *)
Theorem Match_meaning pattern p :
  Match pattern p = true <-> gmatch (splitGlob pattern) (splitGlob p).
Proof. apply matchSegments_gmatch. Qed.

Lemma splitGlob_below dir rest :
  Forall seg_ok rest -> splitGlob (dir +:+ "/" +:+ Filepath.joined rest) = splitGlob dir ++ rest.
Proof.
  intros H. unfold splitGlob.
  change ("/" +:+ Filepath.joined rest) with (String "/" (Filepath.joined rest)).
  rewrite Filepath.split_app_gen, filter_app. f_equal.
  destruct (decide (rest = [])) as [->|Hne]; [done|].
  rewrite Filepath.split_joined; [|done|by eapply Forall_impl; [exact H|intros s [_ ?]]].
  clear Hne. induction H as [|s rest [Hs _] _ IH]; [done|]. rewrite filter_cons_True by done. by rewrite IH.
Qed.

(** MayMatchBelow is exact.  It answers true for every directory that is, or
    has below it, a path the pattern matches; and when it answers true and
    every segment of the pattern matches some file name, there is such a path:
    the directory extended by some further segments. *)
Theorem MayMatchBelow_exact pattern dir :
  (forall rest, Match pattern (dir +:+ "/" +:+ Filepath.joined rest) = true -> Forall seg_ok rest ->
     MayMatchBelow pattern dir = true) /\
  (Match pattern dir = true -> MayMatchBelow pattern dir = true) /\
  (spellable (splitGlob pattern) -> MayMatchBelow pattern dir = true ->
     exists rest, Forall seg_ok rest /\ Match pattern (dir +:+ "/" +:+ Filepath.joined rest) = true).
Proof.
  unfold MayMatchBelow, Match. split; [|split].
  - intros rest H Hok. apply matchSegments_gmatch in H. rewrite splitGlob_below in H by done.
    apply below_prefixSegments. by exists rest.
  - intros H. apply matchSegments_gmatch in H. apply below_prefixSegments. exists []. by rewrite app_nil_r.
  - intros Hs H. destruct (prefixSegments_below _ _ Hs H) as (rest & Hok & Hm).
    exists rest. split; [done|]. apply matchSegments_gmatch. by rewrite splitGlob_below.
Qed.
End Glob.

Lemma MayMatchBelow_exact_witness :
  MayMatchBelow path_Match "/work/**/*.md" "/work/inbox" = true /\
  MayMatchBelow path_Match "/work/inbox/*.md" "/work/inbox/sub" = false /\
  exists rest, Forall seg_ok rest /\ Match path_Match "/work/**/*.md" ("/work/inbox" +:+ "/" +:+ Filepath.joined rest) = true.
Proof.
  split; [vm_compute; reflexivity|]. split; [vm_compute; reflexivity|].
  apply (proj2 (proj2 (MayMatchBelow_exact path_Match "/work/**/*.md" "/work/inbox"))); [|vm_compute; reflexivity].
  replace (splitGlob "/work/**/*.md") with ["work"; "**"; "*.md"] by (vm_compute; reflexivity).
  repeat constructor; intros Hx; [exists "work"|done|exists "a.md"]; (split; [done|]);
    split; [| vm_compute; reflexivity | |vm_compute; reflexivity]; vm_compute; repeat split; done.
Defined.

Example glob_tests :
  Match path_Match "**/.git/**" "/work/.git" = true /\ Match path_Match "docs/*.txt" "/x/docs/a.txt" = false /\
  Match path_Match "**/**/*.go" "/x/y/a.go" = true /\ Match path_Match "" "/" = true /\
  Match path_Match "**/[" "/x/[" = false.
Proof. vm_compute. done. Qed.
