(* ===== verification/SqlText.v ===== *)
(** * SQLite text functions used by the pool's index

    The index moves and drops whole subtrees with SQL: [path LIKE ? ESCAPE '\']
    selects a subtree and [? || substr(path, n)] rewrites it.  SQLite's LIKE
    ignores the case of ASCII letters and its substr counts characters, not
    bytes; both matter to what the statements do, so both are modelled on the
    bytes of a path. *)
From S2P Require Import Prelude Filepath.
From Stdlib Require Import Ascii.
Open Scope Z_scope.

Definition byte (c : ascii) : Z := Z.of_nat (nat_of_ascii c).
Definition is_ascii (c : ascii) : bool := bool_decide (byte c < 128).
Definition is_lead (c : ascii) : bool := bool_decide (192 <= byte c).
Definition is_cont (c : ascii) : bool := bool_decide (128 <= byte c < 192).

(** ** Characters *)

(** A character is a byte or, after a lead byte, everything up to the next byte
    that is no continuation byte. *)
Fixpoint chars_go (acc : string) (open : bool) (s : string) : list string :=
  match s with
  | EmptyString => if decide (acc = "") then [] else [acc]
  | String c s' =>
      if open && is_cont c then chars_go (acc +:+ String c "") true s'
      else (if decide (acc = "") then [] else [acc]) ++ chars_go (String c "") (is_lead c) s'
  end.
Definition chars (s : string) : list string := chars_go "" false s.

(** length(s) and substr(s, n), [n >= 1]. *)
Definition sql_length (s : string) : Z := Z.of_nat (length (chars s)).
Definition concat_strings (l : list string) : string := foldr (fun a b => a +:+ b) "" l.
Definition substr (s : string) (n : Z) : string := concat_strings (drop (Z.to_nat (n - 1)) (chars s)).

(** ** LIKE *)

(** ASCII letters compare without case. *)
Definition lower (c : ascii) : ascii :=
  if bool_decide (65 <= byte c <= 90) then ascii_of_nat (nat_of_ascii c + 32) else c.
Definition char_eq (a b : string) : bool :=
  bool_decide (a = b) ||
  match a, b with
  | String x EmptyString, String y EmptyString => is_ascii x && is_ascii y && bool_decide (lower x = lower y)
  | _, _ => false
  end.

Definition esc : string := "\".

Fixpoint tails {A} (l : list A) : list (list A) :=
  l :: match l with [] => [] | _ :: l' => tails l' end.

(** [s LIKE pat ESCAPE '\'] on characters. *)
Fixpoint like_chars (pat s : list string) {struct pat} : bool :=
  let one (c : string) (wild : bool) (pat' : list string) (k : list string -> bool) :=
    match s with
    | [] => false
    | x :: s' => (char_eq c x || wild) && k s'
    end in
  match pat with
  | [] => bool_decide (s = [])
  | c :: pat' =>
      if decide (c = "%") then existsb (like_chars pat') (tails s)
      else if decide (c = esc) then
        match pat' with
        | [] => false
        | d :: pat'' => one d false pat'' (like_chars pat'')
        end
      else one c (bool_decide (c = "_")) pat' (like_chars pat')
  end.
Definition like (s pat : string) : bool := like_chars (chars pat) (chars s).

(** strings.ReplaceAll(strings.ReplaceAll(s, "%", "\\%"), "_", "\\_") *)
Fixpoint escape_like (s : string) : string :=
  match s with
  | EmptyString => EmptyString
  | String c s' =>
      if decide (c = "%"%char \/ c = "_"%char) then String "\" (String c (escape_like s'))
      else String c (escape_like s')
  end.

(** ** ASCII text *)

Fixpoint ascii_only (s : string) : bool :=
  match s with EmptyString => true | String c s' => is_ascii c && ascii_only s' end.
Fixpoint no_backslash (s : string) : bool :=
  match s with EmptyString => true | String c s' => bool_decide (c <> "\"%char) && no_backslash s' end.
Fixpoint singles (s : string) : list string :=
  match s with EmptyString => [] | String c s' => String c "" :: singles s' end.

Lemma is_ascii_not_cont c : is_ascii c = true -> is_cont c = false.
Proof. unfold is_ascii, is_cont. rewrite bool_decide_eq_true, bool_decide_eq_false. lia. Qed.
Lemma is_ascii_not_lead c : is_ascii c = true -> is_lead c = false.
Proof. unfold is_ascii, is_lead. rewrite bool_decide_eq_true, bool_decide_eq_false. lia. Qed.

(** An ASCII byte is a character of its own wherever it stands. *)
Lemma chars_go_ascii acc open c s :
  is_ascii c = true ->
  chars_go acc open (String c s) = (if decide (acc = "") then [] else [acc]) ++ String c "" :: chars s.
Proof.
  intros H. cbn [chars_go]. rewrite is_ascii_not_cont, andb_false_r, is_ascii_not_lead by done. f_equal.
  unfold chars. destruct s as [|d s]; cbn [chars_go]; [done|]. simpl. done.
Qed.
Lemma chars_ascii c s : is_ascii c = true -> chars (String c s) = String c "" :: chars s.
Proof. intros H. unfold chars at 1. by rewrite chars_go_ascii. Qed.

Lemma chars_app_ascii p s : ascii_only p = true -> chars (p +:+ s) = singles p ++ chars s.
Proof.
  induction p as [|c p IH]; [done|]. cbn [ascii_only singles]. intros [Hc Hp]%andb_true_iff.
  change (String c p +:+ s) with (String c (p +:+ s)). rewrite chars_ascii by done. cbn [app]. by rewrite IH.
Qed.

(** Closing the open character before an ASCII byte loses nothing. *)
Lemma chars_go_app acc open p c s :
  is_ascii c = true ->
  chars_go acc open (p +:+ String c s) = chars_go acc open p ++ String c "" :: chars s.
Proof.
  intros Hc. revert acc open. induction p as [|d p IH]; intros acc open.
  - change ("" +:+ String c s) with (String c s). rewrite chars_go_ascii by done. done.
  - change (String d p +:+ String c s) with (String d (p +:+ String c s)). cbn [chars_go].
    destruct (open && is_cont d); rewrite IH; [done|]. by rewrite app_assoc.
Qed.
Lemma chars_app p c s : is_ascii c = true -> chars (p +:+ String c s) = chars p ++ String c "" :: chars s.
Proof. apply chars_go_app. Qed.

Lemma concat_strings_app l k : concat_strings (l ++ k) = concat_strings l +:+ concat_strings k.
Proof.
  induction l as [|x l IH]; [done|].
  change (concat_strings ((x :: l) ++ k)) with (x +:+ concat_strings (l ++ k)).
  change (concat_strings (x :: l)) with (x +:+ concat_strings l). by rewrite IH, Filepath.str_app_assoc.
Qed.
Lemma str_app_nil_r s : s +:+ "" = s.
Proof. induction s as [|c s IH]; [done|]. change (String c (s +:+ "") = String c s). by rewrite IH. Qed.
Lemma concat_single s : concat_strings [s] = s.
Proof. change (s +:+ "" = s). apply str_app_nil_r. Qed.

Lemma concat_chars_go acc open s : concat_strings (chars_go acc open s) = acc +:+ s.
Proof.
  revert acc open. induction s as [|c s IH]; intros acc open; cbn [chars_go].
  - destruct (decide (acc = "")) as [->|]; [done|]. rewrite concat_single. by rewrite str_app_nil_r.
  - destruct (open && is_cont c).
    + by rewrite IH, Filepath.str_app_assoc.
    + rewrite concat_strings_app, IH. destruct (decide (acc = "")) as [->|]; [done|]. by rewrite concat_single.
Qed.
Lemma concat_chars s : concat_strings (chars s) = s.
Proof. apply concat_chars_go. Qed.

Lemma chars_inj s t : chars s = chars t -> s = t.
Proof. intros H. rewrite <- (concat_chars s), <- (concat_chars t). by rewrite H. Qed.

Lemma length_singles p : length (singles p) = String.length p.
Proof. induction p; simpl; congruence. Qed.

(** Cutting an ASCII prefix off by its byte length. *)
Lemma substr_ascii p s : ascii_only p = true -> substr (p +:+ s) (Z.of_nat (String.length p) + 1) = s.
Proof.
  intros H. unfold substr. rewrite chars_app_ascii by done.
  rewrite drop_app_length' by (rewrite length_singles; lia). apply concat_chars.
Qed.

(** ** Subtree patterns *)

Lemma existsb_tails {A} (f : list A -> bool) l :
  existsb f (tails l) = true <-> exists a b, l = a ++ b /\ f b = true.
Proof.
  induction l as [|x l IH]; cbn [tails existsb].
  - rewrite orb_false_r. split; [exists [], []; done|].
    intros (a & b & Hl & Hf). symmetry in Hl. apply app_eq_nil in Hl as [-> ->]. done.
  - rewrite orb_true_iff, IH. split.
    + intros [H|(a & b & -> & H)]; [exists [], (x :: l)|exists (x :: a), b]; done.
    + intros ([|y a] & b & Hl & Hf); simplify_eq/=; eauto.
Qed.

Lemma like_percent s : like_chars ["%"] s = true.
Proof.
  cbn [like_chars]. rewrite decide_True by done. apply existsb_tails. exists s, [].
  rewrite app_nil_r. split; [done|]. by apply bool_decide_eq_true.
Qed.

Definition ci_eq (a b : list string) : Prop := Forall2 (fun x y => char_eq x y = true) a b.

Lemma like_literal c pat s :
  c <> "%" -> c <> "_" -> c <> esc ->
  like_chars (c :: pat) s = match s with [] => false | x :: s' => char_eq c x && like_chars pat s' end.
Proof.
  intros H1 H2 H3. cbn [like_chars]. rewrite !decide_False, bool_decide_eq_false_2 by done.
  destruct s; [done|]. by rewrite orb_false_r.
Qed.
Lemma like_escaped d pat s :
  like_chars (esc :: d :: pat) s = match s with [] => false | x :: s' => char_eq d x && like_chars pat s' end.
Proof.
  cbn [like_chars]. rewrite decide_False by done. rewrite decide_True by done.
  destruct s; [done|]. by rewrite orb_false_r.
Qed.

(** An escaped ASCII prefix matches exactly its case variants. *)
Lemma like_escape_prefix p k s :
  ascii_only p = true -> no_backslash p = true ->
  like_chars (singles (escape_like p) ++ k) s = true <->
  exists a b, s = a ++ b /\ ci_eq (singles p) a /\ like_chars k b = true.
Proof.
  revert s. induction p as [|c p IH]; intros s; simpl.
  - intros _ _. split.
    + intros H. exists [], s. repeat split; [constructor|done].
    + intros (a & b & -> & Ha & H). inversion Ha; subst. done.
  - intros [Hc Hp]%andb_true_iff [Hb Hn]%andb_true_iff. apply bool_decide_eq_true in Hb.
    assert (Hstep : forall s, (match s with [] => false
        | x :: s' => char_eq (String c "") x && like_chars (singles (escape_like p) ++ k) s' end) = true <->
        exists a b, s = a ++ b /\ ci_eq (String c "" :: singles p) a /\ like_chars k b = true).
    { clear s. intros [|x s].
      - split; [done|]. intros (a & b & Hab & Ha & _). symmetry in Hab.
        apply app_eq_nil in Hab as [-> ->]. inversion Ha.
      - rewrite andb_true_iff, IH by done. split.
        + intros (Hx & a & b & -> & Ha & Hk). exists (x :: a), b. repeat split; [by constructor|done].
        + intros (a & b & Hab & Ha & Hk). inversion Ha as [|? y ? a' Hy Ha']; subst.
          injection Hab as -> ->. split; [done|]. exists a', b. done. }
    rewrite <- Hstep. destruct (decide (c = "%"%char \/ c = "_"%char)) as [Hw|Hw]; cbn [singles app].
    + change (String "\" "") with esc. by rewrite like_escaped.
    + rewrite like_literal; [done|..]; intros [= ->]; naive_solver.
Qed.

Lemma escape_like_app p q : escape_like (p +:+ q) = escape_like p +:+ escape_like q.
Proof. induction p as [|c p IH]; [done|]. simpl. destruct decide; simpl; by rewrite IH. Qed.
Lemma escape_like_ascii p : ascii_only p = true -> ascii_only (escape_like p) = true.
Proof.
  induction p as [|c p IH]; [done|]. simpl. intros [Hc Hp]%andb_true_iff.
  destruct decide; simpl; rewrite Hc, IH by done; done.
Qed.
Lemma singles_app p q : singles (p +:+ q) = singles p ++ singles q.
Proof. induction p as [|c p IH]; [done|]. simpl. by rewrite IH. Qed.

(** [likePrefix(p)]: everything under [p]. *)
Definition likePrefix (p : string) : string := escape_like p +:+ "/%".

Lemma like_prefix_iff p s :
  ascii_only p = true -> no_backslash p = true ->
  like s (likePrefix p) = true <->
  exists a b, chars s = a ++ "/" :: b /\ ci_eq (singles p) a.
Proof.
  intros Ha Hn. unfold like, likePrefix.
  rewrite chars_app_ascii by (by apply escape_like_ascii).
  replace (chars "/%") with ["/"; "%"] by (vm_compute; done).
  rewrite like_escape_prefix by done. split.
  - intros (a & b & Hs & Hc & Hl). rewrite like_literal in Hl by done.
    destruct b as [|x b]; [done|]. apply andb_true_iff in Hl as [Hx _].
    assert (x = "/") as ->.
    { unfold char_eq in Hx. apply orb_true_iff in Hx as [Hx|Hx]; [by apply bool_decide_eq_true in Hx|].
      destruct x as [|x [|? ?]]; try done. apply andb_true_iff in Hx as [_ Hx].
      apply bool_decide_eq_true in Hx. unfold lower in Hx.
      destruct x as [[] [] [] [] [] [] [] []]; vm_compute in Hx; congruence. }
    exists a, b. done.
  - intros (a & b & -> & Hc). exists a, ("/" :: b). repeat split; [done|].
    rewrite like_literal by done. by rewrite like_percent.
Qed.

Lemma like_prefix_below p rest :
  ascii_only p = true -> no_backslash p = true -> like (p +:+ "/" +:+ rest) (likePrefix p) = true.
Proof.
  intros Ha Hn. apply like_prefix_iff; [done..|]. exists (singles p), (chars rest). split.
  - rewrite chars_app_ascii by done. change ("/" +:+ rest) with (String "/" rest). by rewrite chars_ascii.
  - clear. induction (singles p); constructor; [|done]. unfold char_eq. by rewrite bool_decide_eq_true_2.
Qed.
