(* ===== verification/PoolState.v ===== *)
(** * Storage pools: data, index and environment (internal/pool)

    A pool keeps N copies of every file on several drives, its members, and an
    index (SQLite tables) of which member holds what.  This file has the static
    configuration of a pool, what a member is known by, the tables with their
    triggers, the state of a running pool, and the interface to everything
    outside: the members' backends, clocks, randomness.

    A component operation is a function on the state of the pool ([M]).  The
    rest of the world is a parameter [W]: a backend call is an arbitrary
    function on it, a clock reading a function of it.  SQL statements do not
    fail here other than by a violated uniqueness constraint. *)
From S2P Require Import Prelude Filepath GoLib Retry Health.
From stdpp Require Import pretty.
From Stdlib Require Import SpecFloat Ascii.
Open Scope Z_scope.

(** ** Numbers and times

    float64 is IEEE binary64.  A time is a number of nanoseconds since 1970;
    the UnixNano of one out of range wraps around. *)
Definition float : Type := spec_float.
Definition fmul : float -> float -> float := SFmul 53 1024.
Definition fadd : float -> float -> float := SFadd 53 1024.
Definition fsub : float -> float -> float := SFsub 53 1024.
Definition fdiv : float -> float -> float := SFdiv 53 1024.
Definition flt : float -> float -> bool := SFltb.
Definition fle : float -> float -> bool := SFleb.
Definition feq : float -> float -> bool := SFeqb.
(** float64(n) *)
Definition f64 (n : Z) : float := binary_normalize 53 1024 n 0 false.
Definition f0 : float := f64 0.
Definition f1 : float := f64 1.
(** int64(x): truncation towards zero. *)
Definition ftrunc (x : float) : Z :=
  match x with
  | S754_finite s m e =>
      let a := if decide (0 <= e) then Z.shiftl (Zpos m) e else Z.shiftr (Zpos m) (- e) in
      if s then - a else a
  | _ => 0
  end.

Definition UnixNano (t : Z) : Z := wrap64 t.
Definition Second : Z := 1000000000.
Definition Minute : Z := 60 * Second.
Definition Hour : Z := 60 * Minute.

(** ** Backend types (internal/provider) *)

Definition Hashes : Type := gmap string string.
Definition HashMD5 : string := "md5".
Definition HashSHA1 : string := "sha1".
Definition HashSHA256 : string := "sha256".

Record Entry := MkEntry {
  e_ID : string; e_ParentID : string; e_Name : string; e_Kind : Kind; e_Size : Z; e_ModTime : Z;
  e_Version : string; e_Hashes : Hashes
}.
Definition no_entry : Entry := MkEntry "" "" "" KindFile 0 zero_time "" ∅.

Record UploadSession := MkSession {
  ses_ID : string; ses_PartSize : Z; RapidDone : bool; ses_Entry : option Entry; Opaque : gmap string string
}.
Record PartToken := MkToken { t_Index : Z; t_ETag : string }.

Record Naming := MkNaming {
  CaseInsensitive : bool; MaxNameBytes : Z; MaxPathBytes : Z; ForbiddenRunes : string;
  ReservedNames : list string; NoTrailingDotSpace : bool; NoLeadingDot : bool
}.
#[export] Instance Naming_eta : Settable Naming := fun n =>
  MkNaming (CaseInsensitive n) (MaxNameBytes n) (MaxPathBytes n) (ForbiddenRunes n)
    (ReservedNames n) (NoTrailingDotSpace n) (NoLeadingDot n).

Record Quota := MkQuota { Total : Z; Used : Z }.
Definition Free (q : Quota) : Z :=
  if decide (Total q <= 0) then -1
  else if decide (Total q < Used q) then 0
  else Total q - Used q.

(** What the pool asks of a backend's Capabilities, and which optional
    interfaces the backend implements. *)
Record Caps := MkCaps {
  cap_PartSize : Z; SinglePutMax : Z; ServerCopy : bool; StreamList : bool; cap_Naming : Naming;
  is_SinglePutter : bool; is_ServerCopier : bool; is_RangeReaderAt : bool; is_StreamLister : bool;
  is_Quotaer : bool; is_ChangeLister : bool; cap_Delta : bool
}.

(** ** Configuration (internal/config) *)

Record PoolRule := MkRule {
  Prefix : string; r_Replicas : Z; Prefer : list string; Avoid : list string; Require_ : list string
}.
Record PoolRebalance := MkRebalance {
  TargetSkew : float; AutoBackfill : option bool; MaxRate : Z; PauseBetween : Z
}.
Record Settings := MkSettings {
  Replicas : Z; MinReplicas : Z; s_OutAfter : Z; ProbeInterval : Z; TrimGrace : Z;
  HoldMaxBytes : Z; HoldMaxAge : Z; RepairConcurrency : Z; Rules : list PoolRule;
  WriteMode : string; MinReplicasTimeout : Z; OpTTL : Z; ScrubSample : float; Rebalance : PoolRebalance
}.

Inductive fanoutMode := fanoutAuto | fanoutOff | fanoutAll.
#[export] Instance fanoutMode_eq_dec : EqDecision fanoutMode.
Proof. solve_decision. Defined.

(** The part of a member that New fixes: a member is known by its name, which
    New checks to be unique. *)
Record member := MkMember {
  m_name : string; m_root : string; m_weight : float; m_capacity : Z; m_order : Z;
  m_classes : list string; m_domain : string; m_maxInflight : Z; m_unofficial : bool;
  m_caps : Caps; m_rootOf : string
}.

Class Pool := MkPool {
  p_name : string; settings : Settings; members : list member; stateDir : string; readFanout : fanoutMode
}.
Definition byName `{Pool} (n : string) : option member := find (fun m => bool_decide (m_name m = n)) members.

(** What New rules out: a member listed twice. *)
Definition NamesUnique `{Pool} : Prop := NoDup (map m_name members).

Section Lookup.
Context {P : Pool}.
Lemma byName_Some n m : byName n = Some m -> m ∈ members /\ m_name m = n.
Proof.
  unfold byName. intros H. apply find_some in H as [H1 H2]. apply bool_decide_eq_true in H2.
  split; [by apply list_elem_of_In|done].
Qed.
Lemma byName_None n : byName n = None -> n ∉ map m_name members.
Proof.
  unfold byName. intros H. rewrite list_elem_of_fmap. intros (m & -> & Hm).
  apply list_elem_of_In in Hm. pose proof (find_none _ _ H _ Hm) as Hx. simpl in Hx.
  by apply bool_decide_eq_false in Hx.
Qed.
Lemma byName_member m : NamesUnique -> m ∈ members -> byName (m_name m) = Some m.
Proof.
  unfold NamesUnique, byName. induction members as [|x l IH]; [by inversion 2|].
  simpl. intros [Hx Hl]%NoDup_cons Hm. case_bool_decide as Heq.
  - apply elem_of_cons in Hm as [->|Hm]; [done|]. exfalso. apply Hx. rewrite Heq.
    apply list_elem_of_fmap. by exists m.
  - apply elem_of_cons in Hm as [->|Hm]; [done|]. by apply IH.
Qed.
End Lookup.

(** ** What a member is known by at run time *)

Record mrt := MkMrt {
  health : Health; inflight : Z; served : Z; dirIDs : gmap string string; lastTry : option Z;
  latency : float; measured : bool; needsScrub : bool; learned : option (list string);
  fullUntil : option Z; sp_quota : Quota; sp_known : bool; sp_fetched : option Z
}.
#[export] Instance mrt_eta : Settable mrt := fun r =>
  MkMrt (health r) (inflight r) (served r) (dirIDs r) (lastTry r) (latency r) (measured r)
    (needsScrub r) (learned r) (fullUntil r) (sp_quota r) (sp_known r) (sp_fetched r).

(** A member as New makes it. *)
Definition fresh_mrt `{Pool} : mrt :=
  MkMrt (NewHealth (MkHealthOptions 3 (s_OutAfter settings))) 0 0 ∅ None f0 false false None None
    (MkQuota 0 0) false None.

(** ** The index (db.go) *)

Record entryRow := MkEntryRow {
  en_parent : string; en_kind : Kind; en_size : Z; en_mtimeNS : Z; en_ctoken : string;
  en_hashType : string; en_hash : string; en_conflictOf : string; en_updatedAt : Z
}.
#[export] Instance entryRow_eta : Settable entryRow := fun r =>
  MkEntryRow (en_parent r) (en_kind r) (en_size r) (en_mtimeNS r) (en_ctoken r) (en_hashType r)
    (en_hash r) (en_conflictOf r) (en_updatedAt r).

Record replicaRow := MkReplica {
  rp_path : string; rp_parent : string; rp_member : string; remoteID : string; version : string;
  rp_size : Z; rp_mtimeNS : Z; rp_hashType : string; rp_hash : string; rp_ctoken : string;
  rp_state : string; memberName : string; seenAt : Z
}.
#[export] Instance replicaRow_eta : Settable replicaRow := fun r =>
  MkReplica (rp_path r) (rp_parent r) (rp_member r) (remoteID r) (version r) (rp_size r) (rp_mtimeNS r)
    (rp_hashType r) (rp_hash r) (rp_ctoken r) (rp_state r) (memberName r) (seenAt r).
#[export] Instance replicaRow_eq_dec : EqDecision replicaRow.
Proof. solve_decision. Defined.

Record dirRow := MkDirRow { d_parent : string; d_remoteID : string; d_verifiedAt : Z; d_listedAt : Z }.
#[export] Instance dirRow_eta : Settable dirRow := fun r =>
  MkDirRow (d_parent r) (d_remoteID r) (d_verifiedAt r) (d_listedAt r).

Record repairRow := MkRepairRow {
  rq_reason : string; rq_priority : Z; rq_nextAt : Z; rq_attempts : Z; rq_hint : string; rq_createdAt : Z
}.
#[export] Instance repairRow_eta : Settable repairRow := fun r =>
  MkRepairRow (rq_reason r) (rq_priority r) (rq_nextAt r) (rq_attempts r) (rq_hint r) (rq_createdAt r).

Record holdRow := MkHoldRow { h_path : string; h_ctoken : string; h_size : Z; h_createdAt : Z }.
#[export] Instance holdRow_eta : Settable holdRow := fun r =>
  MkHoldRow (h_path r) (h_ctoken r) (h_size r) (h_createdAt r).

Record rebalanceRow := MkRebalanceRow {
  rb_from : string; rb_to : string; rb_size : Z; rb_state : string; rb_attempts : Z; rb_nextAt : Z;
  rb_lastError : string; rb_planID : string; rb_createdAt : Z
}.
#[export] Instance rebalanceRow_eta : Settable rebalanceRow := fun r =>
  MkRebalanceRow (rb_from r) (rb_to r) (rb_size r) (rb_state r) (rb_attempts r) (rb_nextAt r)
    (rb_lastError r) (rb_planID r) (rb_createdAt r).

Record opRow := MkOpRow {
  op_seq : Z; op_member : string; op_op : string; op_path : string; op_parent : string;
  op_args : gmap string string; op_attempts : Z; op_nextAt : Z; op_lastError : string;
  op_state : string; op_createdAt : Z
}.
#[export] Instance opRow_eta : Settable opRow := fun r =>
  MkOpRow (op_seq r) (op_member r) (op_op r) (op_path r) (op_parent r) (op_args r) (op_attempts r)
    (op_nextAt r) (op_lastError r) (op_state r) (op_createdAt r).

(** [ids] maps a path to its id (both columns are unique); [replicas] is keyed
    by (path, member), [member_dirs] by (member, path), [divergences] by (path,
    member, kind). *)
Record index := MkIndex {
  ids : gmap string string;
  entries : gmap string entryRow;
  replicas : gmap (string * string) replicaRow;
  member_dirs : gmap (string * string) dirRow;
  pending_ops : list opRow;
  last_seq : Z;                                     (* sqlite_sequence of pending_ops *)
  repair_queue : gmap string repairRow;
  holds : gmap string holdRow;
  member_naming : gmap string (list string);
  divergences : gmap (string * string * string) (string * Z);
  member_usage : gmap string (Z * Z);
  rebalance_queue : gmap string rebalanceRow
}.
#[export] Instance index_eta : Settable index := fun i =>
  MkIndex (ids i) (entries i) (replicas i) (member_dirs i) (pending_ops i) (last_seq i) (repair_queue i) (holds i)
    (member_naming i) (divergences i) (member_usage i) (rebalance_queue i).
Definition empty_index : index := MkIndex ∅ ∅ ∅ ∅ [] 0 ∅ ∅ ∅ ∅ ∅ ∅.

(** *** The triggers on replicas *)

Definition usage_add (m : string) (size : Z) (u : gmap string (Z * Z)) : gmap string (Z * Z) :=
  match u !! m with
  | Some (b, f) => <[m := (b + size, f + 1)]> u
  | None => <[m := (size, 1)]> u
  end.
Definition usage_sub (m : string) (size : Z) (u : gmap string (Z * Z)) : gmap string (Z * Z) :=
  match u !! m with
  | Some (b, f) => <[m := (Z.max 0 (b - size), Z.max 0 (f - 1))]> u
  | None => u
  end.

(** One row of replicas inserted or, when its key exists, updated. *)
Definition put_replica (r : replicaRow) (i : index) : index :=
  let k := (rp_path r, rp_member r) in
  let u := match replicas i !! k with
           | Some old => usage_sub (rp_member old) (rp_size old) (member_usage i)
           | None => member_usage i
           end in
  (i <| replicas := <[k := r]> (replicas i) |>) <| member_usage := usage_add (rp_member r) (rp_size r) u |>.

Definition del_replica (k : string * string) (i : index) : index :=
  match replicas i !! k with
  | Some old =>
      (i <| replicas := delete k (replicas i) |>)
        <| member_usage := usage_sub (rp_member old) (rp_size old) (member_usage i) |>
  | None => i
  end.

(** UPDATE and DELETE statements over the rows that satisfy a condition. *)
Definition rows_where (f : replicaRow -> bool) (i : index) : list replicaRow :=
  filter (fun r => f r = true) (map snd (map_to_list (replicas i))).
Definition update_replicas (f : replicaRow -> bool) (g : replicaRow -> replicaRow) (i : index) : index :=
  foldl (fun i r => put_replica (g r) i) i (rows_where f i).
Definition delete_replicas (f : replicaRow -> bool) (i : index) : index :=
  foldl (fun i r => del_replica (rp_path r, rp_member r) i) i (rows_where f i).

(** The totals of an index, recomputed. *)
Definition rebuild_usage (i : index) : index :=
  i <| member_usage := foldl (fun u r => usage_add (rp_member r) (rp_size r) u) ∅
         (map snd (map_to_list (replicas i))) |>.

(** [have] is the schema version the database says it has, 0 for none. *)
Definition schemaVersion : Z := 2.
Definition migrate (have : Z) (i : index) : Z * index :=
  if decide (schemaVersion <= have) then (have, i) else (schemaVersion, rebuild_usage i).

(** ** The replica cache's data (replicacache.go) *)

Record resolved := MkResolved { rv_pth : string; rv_row : entryRow; rv_reps : list replicaRow }.
Record cachedResolve := MkCached { cr_resolved : resolved; cr_gen : Z; cr_expires : Z }.
Record replicaCache := MkCache { rc_gen : Z; rc_m : gmap (string * string) cachedResolve }.
#[export] Instance replicaCache_eta : Settable replicaCache := fun c => MkCache (rc_gen c) (rc_m c).
Definition replicaCacheTTL : Z := 5 * Second.
Definition replicaCacheMax : Z := 4096.

Definition invalidate (c : replicaCache) : replicaCache := MkCache (rc_gen c + 1) ∅.

(** ** The outside: backends, clocks, the local disk

    [POp]: a call that answers or fails and changes the world.  A call that
    pulls the bytes it sends from a member also tells how each of those reads
    went. *)
Definition POp (W A : Type) : Type := W -> res gerr A * W.

(** Where a copy's bytes come from. *)
Inductive source_from := SrcHold (hp : string) | SrcReplica (m : member) (r : replicaRow) | SrcCaller.

(** provider.Change, and how ChangeLister.Changes ends. *)
Inductive ChangeOp := ChangeUpsert | ChangeDelete.
Record Change := MkChange { ch_Op : ChangeOp; ch_ID : string; ch_ParentID : string; ch_Entry : option Entry }.
Inductive changes_res :=
| ChangesOk (evs : list Change) (next : string)
| ChangesReset (cursor : string)
| ChangesErr (e : gerr).

Class Env (W : Type) := MkEnv {
  now : W -> Z;                                 (* the pool's clock *)
  wall : W -> Z;                                (* time.Now *)
  ctx_Err : W -> option gerr;                   (* ctx.Err() of the running call *)
  isBusy : W -> bool;
  errText : gerr -> string;                     (* err.Error() *)
  sha1_8 : string -> string;                    (* hex of the first 8 bytes of SHA-1 *)
  foldCase : string -> string;                  (* Unicode simple case folding *)
  showF3 : float -> string;                     (* %.3f *)
  showDate : Z -> string;                       (* the UTC date *)
  randF : W -> float * W;                       (* rand.Float64 *)
  newID : W -> string * W;                      (* "p-" and 24 random hex digits *)
  b_List : member -> string -> string -> POp W (list Entry * string);
  b_ListStream : member -> string -> W -> (list Entry * option gerr) * W;
  b_Stat : member -> string -> POp W Entry;
  b_Mkdir : member -> string -> string -> POp W Entry;
  b_Rename : member -> string -> string -> POp W Entry;
  b_Move : member -> string -> string -> POp W Entry;
  b_Delete : member -> string -> POp W unit;
  b_Copy : member -> string -> string -> string -> POp W Entry;
  b_Quota : member -> POp W Quota;
  b_PutFile : member -> string -> string -> source_from -> Z -> Hashes -> W -> (res gerr Entry * list (option gerr)) * W;
  b_BeginUpload : member -> string -> string -> Z -> Hashes -> POp W UploadSession;
  b_UploadPart : member -> UploadSession -> Z -> source_from -> Z -> Z -> W -> (res gerr PartToken * list (option gerr)) * W;
  b_CompleteUpload : member -> UploadSession -> list PartToken -> POp W Entry;
  b_Changes : member -> string -> W -> changes_res * W;
  os_Stat : string -> W -> bool;                (* the file exists *)
  os_Remove : string -> W -> W;
  os_MkdirAll : string -> W -> bool * W;
  os_ReadDir : string -> W -> option (list (string * option Z));  (* names with modification times *)
  hash_file : string -> Z -> W -> option Hashes (* os.Open and hashFile *)
}.

(** ** The state of a running pool *)

Record pst (W : Type) := MkPst {
  idx : index; rt : gmap string mrt; cache : replicaCache; streams : gmap (string * string) Z;
  streamWake : gmap string nat;                 (* the channel the picks of a file wait on *)
  nextChan : nat; closedChans : gset nat;       (* channels made, and those closed *)
  notices : list string; world : W
}.
Arguments idx {W}. Arguments rt {W}. Arguments cache {W}. Arguments streams {W}.
Arguments streamWake {W}. Arguments nextChan {W}. Arguments closedChans {W}.
Arguments notices {W}. Arguments world {W}. Arguments MkPst {W}.
#[export] Instance pst_eta {W} : Settable (pst W) := fun s =>
  MkPst (idx s) (rt s) (cache s) (streams s) (streamWake s) (nextChan s) (closedChans s) (notices s) (world s).

Definition M (W A : Type) : Type := pst W -> A * pst W.

Definition pbind {W A B} (m : M W A) (k : A -> M W B) : M W B := fun s => let '(a, s') := m s in k a s'.
Definition pthen {W A B} (m : M W A) (k : M W B) : M W B := fun s => k (snd (m s)).
Notation "'let-' x ':=' m 'in' k" := (pbind m (fun x => k))
  (at level 200, x pattern, m at level 100, k at level 200, right associativity) : cfs_scope.
Notation "'do-' m ';' k" := (pthen m k)
  (at level 200, m at level 100, k at level 200, right associativity) : cfs_scope.

Section Basics.
Context {W : Type} {E : Env W} {P : Pool}.

Definition ret {A} (a : A) : M W A := fun s => (a, s).
Definition modify (f : pst W -> pst W) : M W unit := fun s => (tt, f s).
Definition reads {A} (f : pst W -> A) : M W A := fun s => (f s, s).
Definition call {A} (f : W -> A * W) : M W A := fun s => let '(a, w) := f (world s) in (a, s <| world := w |>).

(** A statement on the index outside a transaction. *)
Definition exec (f : index -> index) : M W unit := modify (fun s => s <| idx ::= f |>).
(** The same for replicas, entries or ids: the replica cache is invalidated. *)
Definition execIndex (f : index -> index) : M W unit :=
  modify (fun s => (s <| idx ::= f |>) <| cache ::= invalidate |>).
(** One transaction: an error leaves the index as it was; either way the
    replica cache is invalidated. *)
Definition tx {A} (body : M W (res gerr A)) : M W (res gerr A) := fun s =>
  match body s with
  | (Ok a, s') => (Ok a, s' <| cache ::= invalidate |>)
  | (Err e, s') => (Err e, (s' <| idx := idx s |>) <| cache ::= invalidate |>)
  end.

(** The run-time part of a member. *)
Definition mrt_of (s : pst W) (m : member) : mrt := default fresh_mrt (rt s !! m_name m).
Definition upd_mrt (m : member) (f : mrt -> mrt) (s : pst W) : pst W :=
  s <| rt := <[m_name m := f (mrt_of s m)]> (rt s) |>.

Lemma mrt_of_upd m f s : mrt_of (upd_mrt m f s) m = f (mrt_of s m).
Proof. unfold mrt_of, upd_mrt. simpl. by rewrite lookup_insert_eq. Qed.
Lemma mrt_of_upd_ne m m' f s : m_name m <> m_name m' -> mrt_of (upd_mrt m f s) m' = mrt_of s m'.
Proof. intros H. unfold mrt_of, upd_mrt. simpl. by rewrite lookup_insert_ne. Qed.
End Basics.

(** ** Paths and ids (ids.go) *)

Definition rootID : string := "p-root".
Definition idPrefix : string := "p-".

Fixpoint has_nul (s : string) : bool :=
  match s with EmptyString => false | String c s' => bool_decide (c = "000"%char) || has_nul s' end.

(** path.Clean and path.Dir are the same functions as filepath's on Unix. *)
Definition cleanPath (p : string) : res gerr string :=
  if has_nul p then Err (sent ErrBadPath) else Ok (Filepath.Clean ("/" +:+ trimPrefix p "/")).
Definition parentOf (p : string) : string := if decide (p = "/") then "/" else Filepath.Dir p.
Definition dirParent (p : string) : string := if decide (p = "/") then "" else parentOf p.
Definition joinPath (dir name : string) : string :=
  if decide (dir = "/") then "/" +:+ name else dir +:+ "/" +:+ name.

(** [s[strings.LastIndex(s, "/")+1:]] *)
Definition lastSegment (p : string) : string := default "" (last (Filepath.split p)).

Section Ids.
Context {W : Type} {E : Env W} {P : Pool}.

Definition path_with_id (i : index) (id : string) : option string :=
  head (omap (fun kv => if decide (snd kv = id) then Some (fst kv) else None) (map_to_list (ids i))).

Definition pathOf (id : string) : M W (res gerr string) :=
  if bool_decide (id = rootID \/ id = "" \/ id = "/") then ret (Ok "/")
  else if hasPrefix id "/" then ret (cleanPath id)
  else if negb (hasPrefix id idPrefix) then ret (Err (wrap "id" (sent PErrNotFound)))
  else reads (fun s => match path_with_id (idx s) id with
                       | Some p => Ok p
                       | None => Err (wrap "unknown id" (sent PErrNotFound))
                       end).

(** INSERT OR IGNORE, then what the table says. *)
Definition idFor (pth : string) : M W (res gerr string) :=
  if decide (pth = "/") then ret (Ok rootID)
  else
    let- known := reads (fun s => ids (idx s) !! pth) in
    match known with
    | Some id => ret (Ok id)
    | None =>
        let- id := call newID in
        do- execIndex (fun i => if decide (id ∈ map snd (map_to_list (ids i))) then i
                                else i <| ids ::= <[pth := id]> |>);
        reads (fun s => match ids (idx s) !! pth with
                        | Some id => Ok id
                        | None => Err (wrap "pool" (sent sql_ErrNoRows))
                        end)
    end.

(** idForTx: a plain INSERT, which fails on an id in use. *)
Definition idForTx (pth : string) : M W (res gerr string) :=
  if decide (pth = "/") then ret (Ok rootID)
  else
    let- known := reads (fun s => ids (idx s) !! pth) in
    match known with
    | Some id => ret (Ok id)
    | None =>
        let- id := call newID in
        let- taken := reads (fun s => bool_decide (id ∈ map snd (map_to_list (ids (idx s))))) in
        if taken then ret (Err (Gerr (KText "pool: UNIQUE constraint failed") []))
        else do- exec (fun i => i <| ids ::= <[pth := id]> |>); ret (Ok id)
    end.
End Ids.

(** ** Content tokens (ctoken.go) *)

Definition mtimeTolerance : Z := 2 * Second.
Definition preferredHashes : list string := [HashSHA1; HashMD5; HashSHA256].
Definition hash_of (h : Hashes) (ht : string) : string := default "" (h !! ht).

Fixpoint first_hash (hts : list string) (h : Hashes) : string * string :=
  match hts with
  | [] => ("", "")
  | ht :: rest => if decide (hash_of h ht = "") then first_hash rest h else (ht, hash_of h ht)
  end.
Definition bestHash (h : Hashes) : string * string := first_hash preferredHashes h.

Definition hashToken (ht v : string) : string := "h1:" +:+ ht +:+ ":" +:+ v.
Definition dirToken (id : string) : string := "dir-" +:+ id.
Definition absDuration (d : Z) : Z := if decide (d < 0) then - d else d.

(** [av == bv] for the first algorithm both report. *)
Fixpoint shared_hash (hts : list string) (a b : Hashes) : option bool :=
  match hts with
  | [] => None
  | ht :: rest =>
      if decide (hash_of a ht <> "" /\ hash_of b ht <> "") then Some (bool_decide (hash_of a ht = hash_of b ht))
      else shared_hash rest a b
  end.
Definition sameContent (a b : Entry) : bool :=
  if decide (e_Size a <> e_Size b) then false
  else match shared_hash preferredHashes (e_Hashes a) (e_Hashes b) with
       | Some eq => eq
       | None => bool_decide (absDuration (e_ModTime a - e_ModTime b) <= mtimeTolerance)
       end.

Section Tokens.
Context {W : Type} {E : Env W}.

(** fmt.Sprintf("%d|%d", size, mtime.Unix()), hashed *)
Definition timeToken (size mtime : Z) : string :=
  "t1:" +:+ sha1_8 (pretty size +:+ "|" +:+ pretty (mtime / Second)).

Fixpoint group_hash (hts : list string) (group : list Entry) : option string :=
  match hts with
  | [] => None
  | ht :: rest =>
      match filter (fun e => hash_of (e_Hashes e) ht <> "") group with
      | e :: _ => Some (hashToken ht (hash_of (e_Hashes e) ht))
      | [] => group_hash rest group
      end
  end.
Definition tokenFor (group : list Entry) (authoritative : Entry) : string :=
  default (timeToken (e_Size authoritative) (e_ModTime authoritative)) (group_hash preferredHashes group).
End Tokens.
