(* ===== verification/PoolMember.v ===== *)
(** * Members of a pool (members.go, health.go, drain.go: SetMemberState)

    Outcomes of calls, health, space, latency, and the directories a member is
    known to have. *)
From S2P Require Import Prelude Filepath GoLib Retry Health PoolState.
From Stdlib Require Import SpecFloat.
Open Scope Z_scope.

Section Member.
Context {W : Type} {E : Env W} {P : Pool}.

(** The calls of [note] and the readings of a member's state. *)
Definition note (m : member) (err : option gerr) : M W unit :=
  modify (fun s => upd_mrt m (fun r =>
    (r <| lastTry := Some (wall (world s)) |>)
       <| health := Note errText (now (world s)) err (health r) |>) s).
Definition noted {A} (m : member) (r : res gerr A) : M W unit :=
  note m (match r with Ok _ => None | Err e => Some e end).

Definition snapshot (m : member) (s : pst W) : HealthSnapshot := Snapshot (now (world s)) (health (mrt_of s m)).
Definition state_of (m : member) (s : pst W) : HealthState := sn_State (snapshot m s).

Definition quotaBackoff : Z := 10 * Minute.

Definition markFull (m : member) : M W unit :=
  modify (fun s => upd_mrt m (fun r =>
    let t := now (world s) in
    let total := if decide (Total (sp_quota r) <= 0) then 1 else Total (sp_quota r) in
    (((r <| fullUntil := Some (t + quotaBackoff) |>) <| sp_quota := MkQuota total total |>)
        <| sp_known := true |>) <| sp_fetched := Some t |>) s).

Definition isFull (m : member) (s : pst W) : bool :=
  match fullUntil (mrt_of s m) with Some t => bool_decide (now (world s) < t) | None => false end.

Definition outOfSpace (err : option gerr) : bool := bool_decide (Classify err = ClassQuota).

Definition unreachable (err : option gerr) : bool :=
  match err with
  | None => false
  | Some e =>
      match Classify err with
      | ClassRetryable | ClassAuth | ClassRiskControl => negb (errors_Is e PErrRateLimited)
      | _ => false
      end
  end.

Definition noteWrite (m : member) (err : option gerr) : M W unit :=
  if outOfSpace err then do- note m None; markFull m else note m err.

Definition isBadName (e : gerr) : bool :=
  if errors_Is e PErrBadName then true
  else if errors_Is e PErrNotFound || errors_Is e PErrExists || errors_Is e PErrConflict then false
  else bool_decide (Classify (Some e) = ClassTerminal).

(** placement.go *)
Definition refusedName (err : option gerr) : bool :=
  match err with
  | None => false
  | Some e => if unreachable err then false else isBadName e
  end.

Definition latencyUnit : Z := 1048576.
Definition f08 : float := S754_finite false 7205759403792794 (-53).
Definition f02 : float := S754_finite false 7205759403792794 (-55).

Definition noteLatency (m : member) (d n : Z) : M W unit :=
  modify (upd_mrt m (fun r =>
    let n := if decide (n < latencyUnit) then latencyUnit else n in
    let perUnit := fdiv (fmul (f64 d) (f64 latencyUnit)) (f64 n) in
    if measured r then r <| latency := fadd (fmul f08 (latency r)) (fmul f02 perUnit) |>
    else (r <| latency := perUnit |>) <| measured := true |>)).

Definition dueForProbe (m : member) (probe : Z) (s : pst W) : bool :=
  match lastTry (mrt_of s m) with None => true | Some t => bool_decide (probe <= wall (world s) - t) end.

Definition usable (m : member) (probe : Z) (s : pst W) : bool :=
  let st := snapshot m s in
  if Usable st then true
  else match sn_State st with
       | HealthDisabled => false
       | HealthDraining => bool_decide (sn_DownSince st = None) || dueForProbe m probe s
       | _ => dueForProbe m probe s
       end.

Definition rank (m : member) (s : pst W) : Z * float * Z :=
  (match state_of m s with HealthUp => 0 | HealthDegraded => 1 | _ => 2 end,
   latency (mrt_of s m), m_order m).

(** ** Directories of a member *)

(** [page_fuel] pages are read; a backend that keeps handing out cursors is
    left when the context ends, which its List reports. *)
Definition page_fuel : nat := 1000.
Fixpoint list_pages (fuel : nat) (m : member) (dirID cursor : string) (out : list Entry)
  : M W (res gerr (list Entry)) :=
  match fuel with
  | O => do- note m (Some (sent ContextCanceled)); ret (Err (sent ContextCanceled))
  | S fuel' =>
      let- r := call (b_List m dirID cursor) in
      match r with
      | Err e => do- note m (Some e); ret (Err e)
      | Ok (entries, next) =>
          let out := out ++ entries in
          if decide (next = "") then do- note m None; ret (Ok out)
          else list_pages fuel' m dirID next out
      end
  end.

Definition listAll (m : member) (dirID : string) : M W (res gerr (list Entry)) :=
  if is_StreamLister (m_caps m) && StreamList (m_caps m) then
    let- (out, err) := call (b_ListStream m dirID) in
    match err with
    | None => do- note m None; ret (Ok out)
    | Some e =>
        if bool_decide (out <> []) || negb (errors_Is e PErrUnsupported)
        then do- note m (Some e); ret (Err e)
        else list_pages page_fuel m dirID "" []
    end
  else list_pages page_fuel m dirID "" [].

Definition parentEnumerated (m : member) (dir : string) (s : pst W) : bool :=
  match member_dirs (idx s) !! (m_name m, dir) with
  | Some d => bool_decide (0 < d_listedAt d)
  | None => false
  end.

Definition markEnumerated (m : member) (dir : string) : M W unit :=
  let- t := reads (fun s => UnixNano (now (world s))) in
  exec (fun i => i <| member_dirs ::= alter (fun d => d <| d_listedAt := t |>) (m_name m, dir) |>).

Definition cachedDirID (m : member) (pth : string) : M W (option string) := fun s =>
  match dirIDs (mrt_of s m) !! pth with
  | Some id => (Some id, s)
  | None =>
      match member_dirs (idx s) !! (m_name m, pth) with
      | None => (None, s)
      | Some d => (Some (d_remoteID d), upd_mrt m (fun r => r <| dirIDs ::= <[pth := d_remoteID d]> |>) s)
      end
  end.

(** INSERT ... ON CONFLICT(member, path) DO UPDATE *)
Definition put_dir (m : member) (pth id : string) (t : Z) (i : index) : index :=
  i <| member_dirs ::= partial_alter (fun d => Some match d with
         | Some d => (d <| d_remoteID := id |>) <| d_verifiedAt := t |>
         | None => MkDirRow (dirParent pth) id t 0
         end) (m_name m, pth) |>.

Definition rememberDirID (m : member) (pth id : string) : M W unit :=
  do- modify (upd_mrt m (fun r => r <| dirIDs ::= <[pth := id]> |>));
  let- t := reads (fun s => UnixNano (now (world s))) in
  exec (put_dir m pth id t).

Definition forgetDirID (m : member) (pth : string) : M W unit :=
  do- modify (upd_mrt m (fun r => r <| dirIDs ::= delete pth |>));
  exec (fun i => i <| member_dirs ::= delete (m_name m, pth) |>).

(** strings.Split(strings.Trim(root, "/"), "/") of a cleaned root. *)
Definition root_segments (m : member) : list string :=
  match filter (fun x => x <> "") (Filepath.split (m_root m)) with [] => [""] | l => l end.

Definition find_dir_entry (entries : list Entry) (name : string) : option string :=
  e_ID <$> find (fun e => bool_decide (e_Name e = name /\ e_Kind e = KindDir)) entries.

Fixpoint walk_root (m : member) (segs : list string) (id : string) : M W (res gerr string) :=
  match segs with
  | [] => ret (Ok id)
  | seg :: rest =>
      let- r := listAll m id in
      match r with
      | Err e => ret (Err e)
      | Ok entries =>
          match find_dir_entry entries seg with
          | None => ret (Err (wrap "pool root on member" (sent PErrNotFound)))
          | Some next => if decide (next = "") then ret (Err (wrap "pool root on member" (sent PErrNotFound)))
                         else walk_root m rest next
          end
      end
  end.

Definition rootDirID (m : member) : M W (res gerr string) :=
  let- c := cachedDirID m "/" in
  match c with
  | Some id => ret (Ok id)
  | None =>
      let- r := (if decide (m_root m = "/") then ret (Ok (m_rootOf m))
                 else walk_root m (root_segments m) (m_rootOf m)) in
      match r with
      | Err e => ret (Err e)
      | Ok id => do- rememberDirID m "/" id; ret (Ok id)
      end
  end.

(** The directories of an enumerated parent are remembered; the id of the one
    called [name], the last one listed, is the answer. *)
Fixpoint learn_dirs (m : member) (parent name : string) (entries : list Entry) (found : string) : M W string :=
  match entries with
  | [] => ret found
  | e :: rest =>
      if decide (e_Kind e <> KindDir) then learn_dirs m parent name rest found
      else
        do- rememberDirID m (joinPath parent (e_Name e)) (e_ID e);
        learn_dirs m parent name rest (if decide (e_Name e = name) then e_ID e else found)
  end.

Definition no_such_dir : gerr := wrap "directory on member" (sent PErrNotFound).

Fixpoint dir_id (fuel : nat) (m : member) (pth : string) : M W (res gerr string) :=
  if decide (pth = "/") then rootDirID m
  else
    let- c := cachedDirID m pth in
    match c, fuel with
    | Some id, _ => ret (Ok id)
    | None, O => ret (Err no_such_dir)
    | None, S fuel' =>
        let parent := parentOf pth in
        let- known := reads (parentEnumerated m parent) in
        if known then ret (Err no_such_dir)
        else
          let- r := dir_id fuel' m parent in
          match r with
          | Err e => ret (Err e)
          | Ok parentID =>
              let- c := cachedDirID m pth in
              match c with
              | Some id => ret (Ok id)
              | None =>
                  let- r := listAll m parentID in
                  match r with
                  | Err e => ret (Err e)
                  | Ok entries =>
                      let- found := learn_dirs m parent (lastSegment pth) entries "" in
                      do- markEnumerated m parent;
                      if decide (found = "") then ret (Err no_such_dir) else ret (Ok found)
                  end
              end
          end
    end.
(** Every parent is a shorter path, so the length is fuel enough. *)
Definition dirID (m : member) (pth : string) : M W (res gerr string) := dir_id (String.length pth) m pth.

(** ** Operator states and probing *)

Definition SetMemberState (name st : string) : M W (res gerr unit) :=
  match byName name with
  | None => ret (Err (wrap "no member" (sent PErrNotFound)))
  | Some m =>
      let set (dis dr : bool) : M W (res gerr unit) :=
        do- modify (upd_mrt m (fun r => r <| health ::= fun h => SetDraining dr (SetDisabled dis h) |>));
        ret (Ok tt) in
      if decide (st = "enabled") then set false false
      else if decide (st = "disabled") then set true false
      else if decide (st = "draining") then set false true
      else ret (Err (Gerr (KText "pool: unknown member state") []))
  end.

Definition probe_member (m : member) : M W unit :=
  let- st := reads (state_of m) in
  match st with
  | HealthUp | HealthDisabled | HealthDraining => ret tt
  | _ =>
      let- r := rootDirID m in
      match r with
      | Err e => if unreachable (Some e) then note m (Some e) else ret tt
      | Ok id =>
          let- r := call (b_Stat m id) in
          match r with
          | Ok _ => note m None
          | Err e => if unreachable (Some e) then note m (Some e) else note m None
          end
      end
  end.
Fixpoint probe_all (ms : list member) : M W unit :=
  match ms with [] => ret tt | m :: rest => do- probe_member m; probe_all rest end.
Definition ProbeOnce : M W unit := probe_all members.
End Member.
