(* ===== verification/PoolPlacement.v ===== *)
(** * Placement (rules.go, placement.go, status.go: memberQuota,
    internal/provider/naming.go: CheckName)

    How many copies a path should have, which members may take one, and in
    which order they are asked. *)
From S2P Require Import Prelude Filepath GoLib SqlText Retry Health PoolState PoolMember.
From Stdlib Require Import SpecFloat Ascii.
Open Scope Z_scope.

(** ** Names a backend refuses *)

Definition WindowsForbiddenRunes : string := "<>:|?*\" +:+ String "034"%char "".

Fixpoint before_dot (s : string) : option string :=
  match s with
  | EmptyString => None
  | String c s' => if decide (c = "."%char) then Some "" else String c <$> before_dot s'
  end.
(** The name up to its first dot, unless that is its first byte. *)
Definition stem_of (name : string) : string :=
  match before_dot name with Some EmptyString | None => name | Some s => s end.

Definition bad_name (why : string) : gerr := wrap why (sent PErrBadName).

Section Placement.
Context {W : Type} {E : Env W} {P : Pool}.

Definition EqualFold (a b : string) : bool := bool_decide (foldCase a = foldCase b).

Definition CheckName (n : Naming) (name : string) : option gerr :=
  if bool_decide (name = "" \/ name = "." \/ name = "..") || ContainsAny name (String "/" (String "000"%char ""))
  then Some (bad_name "name")
  else if bool_decide (0 < MaxNameBytes n /\ MaxNameBytes n < Z.of_nat (String.length name))
  then Some (bad_name "too long")
  else if bool_decide (ForbiddenRunes n <> "") && ContainsAny name (ForbiddenRunes n)
  then Some (bad_name "forbidden character")
  else if NoTrailingDotSpace n && (HasSuffix name "." || HasSuffix name " ")
  then Some (bad_name "ends in a dot or a space")
  else if NoLeadingDot n && hasPrefix name "."
  then Some (bad_name "hidden")
  else if existsb (EqualFold (stem_of name)) (ReservedNames n)
  then Some (bad_name "reserved name")
  else None.

(** ** Rules (rules.go) *)

Definition char_at (s : string) (n : nat) : option ascii := String.get n s.
Definition prefixCovers (prefix pth : string) : bool :=
  if decide (prefix = "/") then true
  else if negb (hasPrefix pth prefix) then false
  else bool_decide (String.length pth = String.length prefix) ||
       bool_decide (char_at pth (String.length prefix) = Some "/"%char).

Fixpoint best_rule (rules : list PoolRule) (pth : string) (best : option PoolRule) : option PoolRule :=
  match rules with
  | [] => best
  | r :: rest =>
      if negb (prefixCovers (Prefix r) pth) then best_rule rest pth best
      else best_rule rest pth
             match best with
             | None => Some r
             | Some b => if decide (String.length (Prefix b) < String.length (Prefix r))%nat then Some r else Some b
             end
  end.
Definition ruleFor (pth : string) : option PoolRule := best_rule (Rules settings) pth None.

Definition wantReplicas (pth : string) : Z :=
  let want := match ruleFor pth with
              | Some r => if decide (r_Replicas r <> 0) then r_Replicas r else Replicas settings
              | None => Replicas settings
              end in
  if decide (want < 1) then 1 else want.

Definition anyMultiReplica : bool :=
  bool_decide (1 < Replicas settings) || existsb (fun r => bool_decide (1 < r_Replicas r)) (Rules settings).

Definition in_service (m : member) (s : pst W) : bool :=
  match state_of m s with HealthOut | HealthDisabled | HealthDraining => false | _ => true end.

Definition eligibleMembers (s : pst W) : Z := Z.of_nat (length (filter (fun m => in_service m s = true) members)).

Definition targetFor (pth : string) (s : pst W) : Z * bool :=
  let want := wantReplicas pth in
  if decide (eligibleMembers s < want) then (eligibleMembers s, true) else (want, false).

Definition replicaTarget (s : pst W) : Z * bool :=
  let want := if decide (Replicas settings < 1) then 1 else Replicas settings in
  if decide (eligibleMembers s < want) then (eligibleMembers s, true) else (want, false).

Definition minReplicas (pth : string) : Z :=
  let want := wantReplicas pth in
  let min := if decide (MinReplicas settings < 1) then 1 else MinReplicas settings in
  if decide (want < min) then want else min.

(** ** Space (placement.go) *)

Definition quotaTTL : Z := Minute.

Definition memberBytes (n : string) (s : pst W) : Z :=
  Z.max 0 (fst (default (0, 0) (member_usage (idx s) !! n))).
Definition memberFiles (n : string) (s : pst W) : Z :=
  Z.max 0 (snd (default (0, 0) (member_usage (idx s) !! n))).

Definition space_fresh (m : member) (s : pst W) : bool :=
  let r := mrt_of s m in
  sp_known r && match sp_fetched r with
                | Some t => bool_decide (now (world s) - t < quotaTTL)
                | None => false
                end.

(** provider.QuotaOf, keeping what [free] looks at. *)
Definition ask_quota (m : member) : M W (option Quota) :=
  if is_Quotaer (m_caps m) then
    let- r := call (b_Quota m) in
    ret match r with Ok q => if decide (0 < Total q) then Some q else None | Err _ => None end
  else ret None.

Definition refresh_space (m : member) : M W Quota :=
  let- q := ask_quota m in
  do- modify (fun s => upd_mrt m (fun r =>
        let r := r <| sp_fetched := Some (now (world s)) |> in
        match q with
        | Some q => (r <| sp_quota := q |>) <| sp_known := true |>
        | None => r <| sp_known := false |>
        end) s);
  ret (default (MkQuota 0 0) q).

Definition free (m : member) : M W Z :=
  let- full := reads (isFull m) in
  if (full : bool) then ret 0
  else
    let- fresh := reads (space_fresh m) in
    let- q := (if (fresh : bool) then reads (fun s => sp_quota (mrt_of s m)) else refresh_space m) in
    if decide (0 < Total q) then ret (Free q)
    else if decide (0 < m_capacity m)
         then reads (fun s => Z.max 0 (m_capacity m - memberBytes (m_name m) s))
         else ret (-1).

(** status.go *)
Definition memberQuota (m : member) : M W Quota :=
  if decide (0 < m_capacity m) then reads (fun s => MkQuota (m_capacity m) (memberBytes (m_name m) s))
  else
    do- free m;
    reads (fun s => let r := mrt_of s m in
                    if sp_known r && bool_decide (0 < Total (sp_quota r)) then sp_quota r else MkQuota 0 0).

(** ** Learnt names *)

Definition loadLearned (m : member) : M W (list string) := fun s =>
  let l := default [] (member_naming (idx s) !! m_name m) in
  (l, upd_mrt m (fun r => r <| learned := Some l |>) s).

Definition add_rune (n : Naming) (c : string) : Naming :=
  if decide (c ∈ chars (ForbiddenRunes n)) then n else n <| ForbiddenRunes ::= fun f => f +:+ c |>.
Definition apply_learned (n : Naming) (pat : string) : Naming :=
  if hasPrefix pat "chars:" then foldl add_rune n (chars (trimPrefix pat "chars:"))
  else if decide (pat = "trailing") then n <| NoTrailingDotSpace := true |>
  else if hasPrefix pat "exact:" then n <| ReservedNames ::= fun l => l ++ [trimPrefix pat "exact:"] |>
  else n.

Definition naming (m : member) : M W Naming :=
  let- known := reads (fun s => learned (mrt_of s m)) in
  let- l := (match known with Some l => ret l | None => loadLearned m end) in
  ret (foldl apply_learned (cap_Naming (m_caps m)) l).

Fixpoint forbidden_in (name : string) : string :=
  match name with
  | EmptyString => EmptyString
  | String c s => if bool_decide (String c "" ∈ singles WindowsForbiddenRunes)
                  then String c (forbidden_in s) else forbidden_in s
  end.
Definition denial_pattern (name : string) : string :=
  if decide (forbidden_in name <> "") then "chars:" +:+ forbidden_in name
  else if HasSuffix name "." || HasSuffix name " " then "trailing"
  else "exact:" +:+ name.

Definition learnDenial (m : member) (name : string) : M W unit :=
  let pat := denial_pattern name in
  do- exec (fun i => i <| member_naming ::= partial_alter (fun l =>
        let l := default [] l in Some (if decide (pat ∈ l) then l else l ++ [pat])) (m_name m) |>);
  modify (upd_mrt m (fun r => r <| learned ::= fun l => Some (default [] l ++ [pat]) |>)).

Definition spelt (other : string) : string :=
  if hasPrefix other "/" then lastSegment other else other.
(** The names the index knows under [parent] on a member. *)
Definition names_under (m : member) (parent : string) (i : index) : list string :=
  map memberName (rows_where (fun r => bool_decide (rp_member r = m_name m /\ rp_parent r = parent)) i) ++
  omap (fun kd => if bool_decide (fst (fst kd) = m_name m /\ d_parent (snd kd) = parent)
                  then Some (snd (fst kd)) else None) (map_to_list (member_dirs i)).

Definition canHold (m : member) (parent name : string) : M W (option gerr) :=
  let- n := naming m in
  match CheckName n name with
  | Some e => ret (Some e)
  | None =>
      if CaseInsensitive n then
        reads (fun s =>
          if existsb (fun other => bool_decide (spelt other <> name) && EqualFold (spelt other) name)
               (names_under m parent (idx s))
          then Some (bad_name "cannot coexist on a case-folding member") else None)
      else ret None
  end.

(** ** Candidates *)

Definition hasAnyClass (m : member) (classes : list string) : bool :=
  existsb (fun want => bool_decide (want ∈ m_classes m)) classes.
Definition hasAllClasses (m : member) (classes : list string) : bool :=
  forallb (fun want => hasAnyClass m [want]) classes.

Record scored := MkScored {
  sc_m : member; sc_prefer : bool; sc_dupDomain : bool; sc_avoid : bool; sc_full : bool; sc_out : bool;
  sc_free : Z
}.

Definition bySpace (a b : scored) : bool :=
  let fa := sc_free a in
  let fb := sc_free b in
  if negb (Bool.eqb (bool_decide (fa < 0)) (bool_decide (fb < 0))) then bool_decide (0 <= fa)
  else if bool_decide (fa <> fb /\ 0 <= fa)
       then flt (fmul (f64 fb) (m_weight (sc_m b))) (fmul (f64 fa) (m_weight (sc_m a)))
  else if negb (feq (m_weight (sc_m a)) (m_weight (sc_m b))) then flt (m_weight (sc_m b)) (m_weight (sc_m a))
  else bool_decide (m_order (sc_m a) < m_order (sc_m b)).

(** The verdicts in the order they rank, [true] first. *)
Definition flags (a : scored) : list bool :=
  [sc_prefer a; negb (sc_dupDomain a); negb (sc_avoid a); negb (sc_full a); negb (sc_out a)].
Fixpoint by_flags (fa fb : list bool) (tie : bool) : bool :=
  match fa, fb with
  | a :: fa', b :: fb' => if Bool.eqb a b then by_flags fa' fb' tie else a
  | _, _ => tie
  end.
Definition scored_less (a b : scored) : bool := by_flags (flags a) (flags b) (bySpace a b).

Definition holds_row (pth : string) (i : index) (m : member) : bool :=
  bool_decide (is_Some (replicas i !! (pth, m_name m))).

(** One round of the loop over the members: what becomes of [m].  [holding] and
    [takenDomains] were read before the loop. *)
Definition score_member (pth : string) (holding : member -> bool) (taken : list string) (m : member)
  : M W (option (bool * scored)) :=
  let parent := parentOf pth in
  let name := lastSegment pth in
  let- st := reads (state_of m) in
  if bool_decide (st = HealthDraining \/ st = HealthDisabled) then ret None
  else
    let- u := reads (usable m (ProbeInterval settings)) in
    if negb u then ret None
    else if holding m then
      let- f := free m in ret (Some (true, MkScored m false false false false false f))
    else
      let- bad := canHold m parent name in
      match bad with
      | Some _ => ret None
      | None =>
          let rule := ruleFor pth in
          if match rule with Some r => negb (hasAllClasses m (Require_ r)) | None => false end then ret None
          else
            let- f := free m in
            reads (fun s => Some (false,
              MkScored m
                (match rule with Some r => hasAnyClass m (Prefer r) | None => false end)
                (bool_decide (m_domain m ∈ taken))
                (match rule with Some r => hasAnyClass m (Avoid r) | None => false end)
                (isFull m s) (bool_decide (state_of m s = HealthOut)) f))
      end.

Fixpoint score_all (pth : string) (holding : member -> bool) (taken : list string) (ms : list member)
  : M W (list scored * list scored) :=
  match ms with
  | [] => ret ([], [])
  | m :: rest =>
      let- v := score_member pth holding taken m in
      let- (hs, os) := score_all pth holding taken rest in
      ret match v with
          | Some (true, sc) => (sc :: hs, os)
          | Some (false, sc) => (hs, sc :: os)
          | None => (hs, os)
          end
  end.

Definition candidates (pth : string) : M W (list member) :=
  let- holding := reads (fun s => holds_row pth (idx s)) in
  let taken := map m_domain (filter (fun m => holding m = true) members) in
  let- (holders, others) := score_all pth holding taken members in
  ret (map sc_m (stable_sort scored_less holders) ++ map sc_m (stable_sort scored_less others)).

(** ** The pool's own quota *)

Fixpoint sum_quota (ms : list member) (known total used : Z) : M W (Z * Z * Z) :=
  match ms with
  | [] => ret (known, total, used)
  | m :: rest =>
      let- ok := reads (in_service m) in
      if negb ok then sum_quota rest known total used
      else
        let- fresh := reads (space_fresh m) in
        let- q := (if (fresh : bool) then reads (fun s => sp_quota (mrt_of s m))
                   else do- free m;
                        reads (fun s => if sp_known (mrt_of s m) then sp_quota (mrt_of s m) else MkQuota 0 0)) in
        let- q := reads (fun s => if decide (Total q <= 0 /\ 0 < m_capacity m)
                                  then MkQuota (m_capacity m) (memberBytes (m_name m) s) else q) in
        if decide (Total q <= 0) then sum_quota rest known total used
        else sum_quota rest (known + 1) (total + Total q) (used + Used q)
  end.
Definition PoolQuota : M W (res gerr Quota) :=
  let- v := sum_quota members 0 0 0 in
  let '(known, total, used) := v in
  if decide (known = 0) then ret (Err (sent PErrUnsupported))
  else
    let r := if decide (Replicas settings < 1) then 1 else Replicas settings in
    ret (Ok (MkQuota (Z.quot total r) (Z.quot used r))).
End Placement.
