(* ===== verification/PoolIndex.v ===== *)
(** * Statements on the pool's index (list.go, write.go, holds.go)

    The SQL the components share: reading and writing entries and replicas, and
    moving or dropping a whole subtree. *)
From S2P Require Import Prelude Filepath GoLib SqlText Retry Health PoolState PoolMember PoolPlacement.
Open Scope Z_scope.

(** ** Rows *)

Definition entryAt (pth : string) (i : index) : option entryRow := entries i !! pth.

Definition upsertEntry (pth : string) (r : entryRow) (t : Z) (i : index) : index :=
  i <| entries ::= <[pth := r <| en_updatedAt := t |>]> |>.

(** ON CONFLICT keeps the parent column; the same physical file is then indexed
    under exactly one path. *)
Definition upsertReplica (pth parent mname : string) (me : Entry) (ctoken st : string) (t : Z) (i : index) : index :=
  let '(ht, hv) := bestHash (e_Hashes me) in
  let par := match replicas i !! (pth, mname) with Some old => rp_parent old | None => parent end in
  let row := MkReplica pth par mname (e_ID me) (e_Version me) (e_Size me) (UnixNano (e_ModTime me)) ht hv
               ctoken st (e_Name me) t in
  delete_replicas (fun r => bool_decide (rp_member r = mname /\ rp_parent r = parent /\
                                         memberName r = e_Name me /\ rp_path r <> pth))
    (put_replica row i).

Definition recordDivergence (pth mname kind detail : string) (t : Z) (i : index) : index :=
  i <| divergences ::= <[(pth, mname, kind) := (detail, t)]> |>.

(** ** Subtrees *)

(** [path = ? OR path LIKE ? ESCAPE '\'] *)
Definition subtree (pth p : string) : bool := bool_decide (p = pth) || like p (likePrefix pth).

Definition dropSubtree (pth : string) (i : index) : index :=
  let i := i <| entries ::= filter (fun kv => subtree pth (fst kv) = false) |> in
  let i := delete_replicas (fun r => subtree pth (rp_path r)) i in
  let i := i <| member_dirs ::= filter (fun kv => subtree pth (snd (fst kv)) = false) |> in
  i <| divergences ::= filter (fun kv => subtree pth (fst (fst (fst kv))) = false) |>.

(** The row's path after [SET path = newPath || substr(path, n+1)]. *)
Definition moved (oldPath newPath p : string) : string :=
  if subtree oldPath p then newPath +:+ substr p (Z.of_nat (String.length oldPath) + 1) else p.

(** An UPDATE of the key columns of a table; [None] when two rows would share a
    key. *)
Definition rekey {K A} `{Countable K} (f : K -> K) (m : gmap K A) : option (gmap K A) :=
  let l := map (fun kv => (f (fst kv), snd kv)) (map_to_list m) in
  if decide (NoDup l.*1) then Some (list_to_map l) else None.

Definition rekey_replicas (f : replicaRow -> replicaRow) (i : index) : option index :=
  let l := map (fun kv => f (snd kv)) (map_to_list (replicas i)) in
  if decide (NoDup (map (fun r => (rp_path r, rp_member r)) l))
  then Some ((i <| replicas := list_to_map (map (fun r => ((rp_path r, rp_member r), r)) l) |>)
               <| member_usage := foldl (fun u kv => let old := snd kv in let new := f old in
                                                     if decide (old = new) then u
                                                     else usage_add (rp_member new) (rp_size new)
                                                            (usage_sub (rp_member old) (rp_size old) u))
                                    (member_usage i) (map_to_list (replicas i)) |>)
  else None.

(** The parent column of a row whose path has been moved. *)
Definition new_parent (oldPath newPath p parent : string) : string :=
  if decide (p = newPath) then parentOf newPath
  else if like p (likePrefix newPath) then newPath +:+ substr parent (Z.of_nat (String.length oldPath) + 1)
  else parent.

(** A live replica whose name on the member is not the entry's (a conflict copy
    apart) still waits for the member. *)
Definition mark_pending (newPath : string) (i : index) : index :=
  update_replicas (fun r =>
      subtree newPath (rp_path r) && bool_decide (rp_state r = "live") &&
      bool_decide (memberName r <> substr (rp_path r)
        (sql_length (rp_parent r) + 1 + if decide (rp_parent r = "/") then 0 else 1)) &&
      negb match entries i !! rp_path r with Some e => bool_decide (en_conflictOf e <> "") | None => false end)
    (fun r => r <| rp_state := "pending" |>) i.

Definition movePaths (oldPath newPath : string) (i : index) : option index :=
  let mv := moved oldPath newPath in
  let np := new_parent oldPath newPath in
  ids' ← rekey mv (ids i);
  entries' ← rekey mv (entries i);
  i ← rekey_replicas (fun r => r <| rp_path ::= mv |>) i;
  dirs' ← rekey (fun k => (fst k, mv (snd k))) (member_dirs i);
  divs' ← rekey (fun k => (mv (fst (fst k)), snd (fst k), snd k)) (divergences i);
  rq' ← rekey mv (repair_queue i);
  rb' ← rekey mv (rebalance_queue i);
  let i := i <| ids := ids' |> in
  let i := i <| entries := map_imap (fun p r => Some (r <| en_parent ::= np p |>)) entries' |> in
  let i := update_replicas (fun r => bool_decide (np (rp_path r) (rp_parent r) <> rp_parent r))
             (fun r => r <| rp_parent ::= np (rp_path r) |>) i in
  let i := i <| member_dirs := map_imap (fun k d => Some (d <| d_parent ::= np (snd k) |>)) dirs' |> in
  let i := i <| holds ::= fmap (fun h => h <| h_path ::= mv |>) |> in
  let i := i <| divergences := divs' |> in
  let i := i <| pending_ops ::= map (fun o => let o := o <| op_path ::= mv |> in o <| op_parent ::= np (op_path o) |>) |> in
  let i := i <| repair_queue := rq' |> in
  let i := i <| rebalance_queue := rb' |> in
  Some (mark_pending newPath i).

(** ** Replicas of a file (read.go, repair.go) *)

Section Rows.
Context {W : Type} {E : Env W} {P : Pool}.

Definition row_rank (s : pst W) (r : replicaRow) : Z * float * Z :=
  match byName (rp_member r) with Some m => rank m s | None => (3, f0, 0) end.
Definition replica_less (s : pst W) (a b : replicaRow) : bool :=
  let '(ra, la, oa) := row_rank s a in
  let '(rb, lb, ob) := row_rank s b in
  if decide (ra <> rb) then bool_decide (ra < rb)
  else if negb (feq la lb) then flt la lb
  else bool_decide (oa < ob).
Definition sortReplicas (s : pst W) (rs : list replicaRow) : list replicaRow := stable_sort (replica_less s) rs.

(** The rows of a path on members the pool has. *)
Definition rows_of_path (pth : string) (i : index) : list replicaRow :=
  omap (fun m => replicas i !! (pth, m_name m)) members.

Definition replicasOf (pth ctoken : string) (s : pst W) : list replicaRow :=
  sortReplicas s (filter (fun r => (rp_state r = "live" \/ rp_state r = "pending") /\
                                   (ctoken = "" \/ rp_ctoken r = ctoken)) (rows_of_path pth (idx s))).

Definition row_in_service (s : pst W) (r : replicaRow) : bool :=
  match byName (rp_member r) with Some m => in_service m s | None => false end.

Definition liveReplicas (pth ctoken : string) (s : pst W) : list replicaRow :=
  filter (fun r => rp_state r = "live" /\ row_in_service s r = true) (replicasOf pth ctoken s).

(** ** Holds (holds.go) *)

Definition holdsDir : string := if decide (stateDir = "") then "" else Filepath.Join [stateDir; "holds-" +:+ p_name].

Definition delete_hold (hp : string) : M W unit := exec (fun i => i <| holds ::= delete hp |>).
Definition remove_hold (hp : string) : M W unit :=
  do- modify (fun s => s <| world := os_Remove hp (world s) |>); delete_hold hp.

Fixpoint remove_holds (hps : list string) : M W unit :=
  match hps with [] => ret tt | hp :: rest => do- remove_hold hp; remove_holds rest end.

Definition hold_list (i : index) : list (string * holdRow) := map_to_list (holds i).

Definition releaseHolds (pth : string) : M W unit :=
  let- hps := reads (fun s => map fst (filter (fun h => h_path (snd h) = pth) (hold_list (idx s)))) in
  remove_holds hps.

Definition newest_hold (pth ctoken : string) (i : index) : option string :=
  fst <$> head (stable_sort (fun a b => bool_decide (h_createdAt (snd b) < h_createdAt (snd a)))
                  (filter (fun h => h_path (snd h) = pth /\ h_ctoken (snd h) = ctoken) (hold_list i))).

Definition holdFor (pth ctoken : string) : M W (option string) :=
  let- hp := reads (fun s => newest_hold pth ctoken (idx s)) in
  match hp with
  | None => ret None
  | Some hp =>
      let- ok := reads (fun s => os_Stat hp (world s)) in
      if (ok : bool) then ret (Some hp) else do- delete_hold hp; ret None
  end.

(** Oldest first: what is too old goes, and the rest until the budget holds. *)
Fixpoint trim_list (hs : list (string * holdRow)) (tnow total : Z) : M W unit :=
  match hs with
  | [] => ret tt
  | (hp, h) :: rest =>
      let tooOld := bool_decide (0 < HoldMaxAge settings /\ HoldMaxAge settings < tnow - h_createdAt h) in
      let over := bool_decide (0 < HoldMaxBytes settings /\ HoldMaxBytes settings < total) in
      if negb tooOld && negb over then trim_list rest tnow total
      else do- remove_hold hp; trim_list rest tnow (total - h_size h)
  end.
Definition holds_total (hs : list (string * holdRow)) : Z := foldr (fun h n => h_size (snd h) + n) 0 hs.
Definition holds_by_age (i : index) : list (string * holdRow) :=
  stable_sort (fun a b => bool_decide (h_createdAt (snd a) < h_createdAt (snd b))) (hold_list i).
Definition trimHolds : M W unit :=
  let- tnow := reads (fun s => UnixNano (now (world s))) in
  let- hs := reads (fun s => holds_by_age (idx s)) in
  trim_list hs tnow (holds_total hs).

(** [link] hands over the upload's blob as a hard link. *)
Definition takeHold (link : option (string -> POp W unit)) (pth : string) (size : Z) : M W (option string) :=
  match link with
  | None => ret None
  | Some link =>
      if decide (holdsDir = "") then ret None
      else
        let- ok := call (os_MkdirAll holdsDir) in
        if negb ok then ret None
        else
          let- id := call newID in
          let dst := Filepath.Join [holdsDir; trimPrefix id idPrefix] in
          let- r := call (link dst) in
          match r with
          | Err _ => ret None
          | Ok _ =>
              let- taken := reads (fun s => bool_decide (is_Some (holds (idx s) !! dst))) in
              if (taken : bool) then do- modify (fun s => s <| world := os_Remove dst (world s) |>); ret None
              else
                let- t := reads (fun s => UnixNano (now (world s))) in
                do- exec (fun i => i <| holds ::= <[dst := MkHoldRow pth "" size t]> |>);
                do- trimHolds;
                ret (Some dst)
          end
  end.

Definition setHoldToken (hp ctoken : string) (i : index) : index :=
  i <| holds ::= alter (fun h => h <| h_ctoken := ctoken |>) hp |>.

Definition HoldsBytes (s : pst W) : Z := holds_total (hold_list (idx s)).

Definition holdOrphanGrace : Z := Minute.

Fixpoint remove_orphans (dir : string) (known : string -> bool) (cutoff : Z) (es : list (string * option Z)) (n : Z)
  : M W Z :=
  match es with
  | [] => ret n
  | (name, mtime) :: rest =>
      let full := Filepath.Join [dir; name] in
      let keep := known full || match mtime with Some t => bool_decide (cutoff < t) | None => true end in
      if (keep : bool) then remove_orphans dir known cutoff rest n
      else do- modify (fun s => s <| world := os_Remove full (world s) |>); remove_orphans dir known cutoff rest (n + 1)
  end.
Fixpoint delete_holds (hps : list string) : M W unit :=
  match hps with [] => ret tt | hp :: rest => do- delete_hold hp; delete_holds rest end.
Definition reconcileHolds : M W Z :=
  if decide (holdsDir = "") then ret 0
  else
    let- hs := reads (fun s => hold_list (idx s)) in
    let known (hp : string) := bool_decide (hp ∈ map fst hs) in
    let- missing := reads (fun s => filter (fun hp => os_Stat hp (world s) = false) (map fst hs)) in
    do- delete_holds missing;
    let- es := reads (fun s => os_ReadDir holdsDir (world s)) in
    match es with
    | None => ret 0
    | Some es =>
        let- cutoff := reads (fun s => now (world s) - holdOrphanGrace) in
        remove_orphans holdsDir known cutoff es 0
    end.
End Rows.
