(* ===== verification/PoolList.v ===== *)
(** * Merged listings (list.go, scrub.go: ScrubPath)

    A directory of the pool is what its members say, merged: observations of one
    name are grouped by content, the newest content is published under the name
    and every other as a conflict copy; a member that cannot be asked stands in
    with what the index last saw of it.  The members are asked at the same time
    by the code and one after the other here; each call touches only its own
    member. *)
From S2P Require Import Prelude Filepath GoLib SqlText Retry Health PoolState PoolMember PoolPlacement PoolIndex.
From Stdlib Require Import Ascii.
Open Scope Z_scope.

Definition hiddenPrefix : string := ".cloudfs-pool".
Definition hidden (name : string) : bool := hasPrefix name hiddenPrefix.
(** strings.ContainsAny(name, "/\x00") *)
Definition slash_or_nul (name : string) : bool := ContainsAny name (String "/" (String "000"%char "")).

Record obs := MkObs { ob_m : member; ob_e : Entry; ob_snapshot : bool; ob_ctoken : string }.
Record memberListing := MkListing {
  ml_m : member; ml_entries : list Entry; ml_holds : bool; ml_err : option gerr
}.
Record group := MkGroup { g_obs : list obs; g_token : string }.

(** ** Grouping *)

Definition newest_of (o : obs) (l : list obs) : obs :=
  foldl (fun best ob => if decide (e_ModTime (ob_e best) < e_ModTime (ob_e ob)) then ob else best) o l.
Definition no_obs : obs := MkObs (MkMember "" "" f0 0 0 [] "" 0 false
  (MkCaps 0 0 false false (MkNaming false 0 0 "" [] false false) false false false false false false false) "") no_entry false "".
Definition newest (g : group) : obs :=
  match g_obs g with [] => no_obs | o :: l => newest_of o l end.
Definition first_obs (g : group) : obs := default no_obs (head (g_obs g)).

(** [ob] belongs to the group: the token the index gave it, or the content of
    the group's first observation. *)
Definition belongs (ob : obs) (g : group) : bool :=
  (bool_decide (ob_ctoken ob <> "") && bool_decide (g_token g <> "") && bool_decide (ob_ctoken ob = g_token g))
  || sameContent (ob_e ob) (ob_e (first_obs g)).
Fixpoint place_obs (ob : obs) (gs : list group) : list group :=
  match gs with
  | [] => [MkGroup [ob] (ob_ctoken ob)]
  | g :: rest =>
      if belongs ob g
      then MkGroup (g_obs g ++ [ob]) (if decide (g_token g = "") then ob_ctoken ob else g_token g) :: rest
      else g :: place_obs ob rest
  end.

Definition group_less (a b : group) : bool :=
  let ta := e_ModTime (ob_e (newest a)) in
  let tb := e_ModTime (ob_e (newest b)) in
  if decide (ta <> tb) then bool_decide (tb < ta)
  else bool_decide (m_order (ob_m (first_obs a)) < m_order (ob_m (first_obs b))).

(** [base] and [ext] of a name: path.Ext is the last dot and what follows. *)
Fixpoint split_ext (s : string) : option (string * string) :=
  match s with
  | EmptyString => None
  | String c s' =>
      match split_ext s' with
      | Some (b, e) => Some (String c b, e)
      | None => if decide (c = "."%char) then Some ("", s) else None
      end
  end.

Section List.
Context {W : Type} {E : Env W} {P : Pool}.

Definition with_token (g : group) : group :=
  if decide (g_token g = "") then MkGroup (g_obs g) (tokenFor (map ob_e (g_obs g)) (ob_e (newest g))) else g.
Definition groupByContent (obsList : list obs) : list group :=
  stable_sort group_less (map with_token (foldl (fun gs ob => place_obs ob gs) [] obsList)).

Definition conflictName (name : string) (mtime : Z) (mname : string) : string :=
  let '(base, ext) := default (name, "") (split_ext name) in
  base +:+ " (conflict " +:+ showDate mtime +:+ " " +:+ mname +:+ ")" +:+ ext.

(** ** Asking the members *)

Definition ask_member (pth : string) (m : member) : M W memberListing :=
  let- u := reads (usable m (ProbeInterval settings)) in
  if negb u then ret (MkListing m [] false (Some (wrap "member" (sent PErrUnavailable))))
  else
    let- r := dirID m pth in
    match r with
    | Err e => ret (MkListing m [] false (if errors_Is e PErrNotFound then None else Some e))
    | Ok id =>
        let- r := listAll m id in
        match r with
        | Err e => if errors_Is e PErrNotFound then do- forgetDirID m pth; ret (MkListing m [] false None)
                   else ret (MkListing m [] true (Some e))
        | Ok es => ret (MkListing m es true None)
        end
    end.
Fixpoint ask_all (pth : string) (ms : list member) : M W (list memberListing) :=
  match ms with
  | [] => ret []
  | m :: rest => let- r := ask_member pth m in let- rs := ask_all pth rest in ret (r :: rs)
  end.

(** ** What the index knows of the directory *)

Definition replicaKey : Type := (string * string)%type.
Definition replicasUnder (pth : string) (i : index) : gmap replicaKey replicaRow :=
  filter (fun kr => rp_parent (snd kr) = pth) (replicas i).
Definition memberDirsUnder (pth : string) (mname : string) (i : index) : list (string * string) :=
  omap (fun kd => if bool_decide (d_parent (snd kd) = pth /\ fst (fst kd) = mname)
                  then Some (snd (fst kd), d_remoteID (snd kd)) else None) (map_to_list (member_dirs i)).
Definition pendingOpsUnder (pth : string) (i : index) : gset replicaKey :=
  list_to_set (map (fun o => (op_path o, op_member o))
    (filter (fun o => op_parent o = pth /\ op_state o = "pending") (pending_ops i))).
Definition arg (o : opRow) (k : string) : string := default "" (op_args o !! k).
Definition pendingMoves (i : index) : gmap replicaKey string :=
  foldl (fun m o => if decide ((op_op o = "rename" \/ op_op o = "move") /\ op_state o = "pending" /\
                               arg o "from" <> "" /\ arg o "to" <> "")
                    then <[(arg o "from", op_member o) := arg o "to"]> m else m) ∅ (pending_ops i).
Definition indexKnows (pth : string) (i : index) : bool :=
  existsb (fun kd => bool_decide (snd (fst kd) = pth /\ 0 < d_listedAt (snd kd))) (map_to_list (member_dirs i)).
Definition physicalRowFor (rows : gmap replicaKey replicaRow) (pth name mname : string) : option replicaRow :=
  snd <$> find (fun kr => bool_decide (snd (fst kr) = mname /\ memberName (snd kr) = name /\
                                       rp_parent (snd kr) = pth /\ Filepath.Base (fst (fst kr)) <> name))
            (map_to_list rows).

(** ** Observations by name *)

Definition observations : Type := (gmap string (list obs) * gset replicaKey)%type.
Definition observe (name : string) (ob : obs) (a : observations) : observations :=
  (<[name := default [] (fst a !! name) ++ [ob]]> (fst a), snd a).
Definition keep (k : replicaKey) (a : observations) : observations := (fst a, {[k]} ∪ snd a).

Definition hash_map (ht h : string) : Hashes := if decide (ht = "") then ∅ else {[ht := h]}.

(** A member that could not be asked: what the index last saw of it. *)
Definition observe_snapshot (m : member) (rows : gmap replicaKey replicaRow) (dirs : list (string * string))
  (a : observations) : observations :=
  let a := foldl (fun a kr =>
      let row := snd kr in
      if decide (rp_member row <> m_name m) then a
      else if decide (rp_state row = "stale") then keep (rp_path row, m_name m) a
      else observe (Filepath.Base (rp_path row))
             (MkObs m (MkEntry (remoteID row) "" (memberName row) KindFile (rp_size row) (rp_mtimeNS row)
                         (version row) (hash_map (rp_hashType row) (rp_hash row))) true (rp_ctoken row)) a)
    a (map_to_list rows) in
  foldl (fun a d => let name := Filepath.Base (fst d) in
                    observe name (MkObs m (MkEntry (snd d) "" name KindDir 0 zero_time "" ∅) true "") a) a dirs.

Section Observe.
Context (pth : string) (rows : gmap replicaKey replicaRow) (pending : gset replicaKey) (moves : gmap replicaKey string).

Definition observe_entry (m : member) (e : Entry) (a : observations) : observations :=
  if hidden (e_Name e) || bool_decide (e_Name e = "") || slash_or_nul (e_Name e) then a
  else
    let physical := joinPath pth (e_Name e) in
    let row := match rows !! (physical, m_name m) with
               | Some r => Some r
               | None => physicalRowFor rows pth (e_Name e) (m_name m)
               end in
    match moves !! (physical, m_name m) with
    | Some dst => keep (dst, m_name m) a
    | None =>
        if decide ((physical, m_name m) ∈ pending) then
          match row with Some r => keep (rp_path r, m_name m) a | None => a end
        else
          match row with
          | Some r =>
              if bool_decide (version r = e_Version e /\ rp_size r = e_Size e /\ rp_mtimeNS r = UnixNano (e_ModTime e))
              then
                if decide (rp_state r = "stale") then keep (rp_path r, m_name m) a
                else observe (if decide (rp_state r = "pending") then Filepath.Base (rp_path r) else e_Name e)
                       (MkObs m e false (rp_ctoken r)) a
              else observe (e_Name e) (MkObs m e false "") a
          | None => observe (e_Name e) (MkObs m e false "") a
          end
    end.

Definition observe_result (dirs : string -> list (string * string)) (a : observations) (r : memberListing) : observations :=
  match ml_err r with
  | Some _ => observe_snapshot (ml_m r) rows (dirs (m_name (ml_m r))) a
  | None => if ml_holds r then foldl (fun a e => observe_entry (ml_m r) e a) a (ml_entries r) else a
  end.
End Observe.

(** ** Publishing *)

(** The accumulators of the transaction. *)
Record lacc := MkLacc {
  la_out : list Entry; la_produced : gset string; la_seen : gset replicaKey; la_seenDir : gset replicaKey
}.
#[local] Instance lacc_eta : Settable lacc := fun a => MkLacc (la_out a) (la_produced a) (la_seen a) (la_seenDir a).

Definition group_hashes (g : group) : Hashes :=
  foldl (fun h ht =>
    match filter (fun ob => hash_of (e_Hashes (ob_e ob)) ht <> "") (g_obs g) with
    | ob :: _ => <[ht := hash_of (e_Hashes (ob_e ob)) ht]> h
    | [] => h
    end) ∅ preferredHashes.

Definition publish_obs (entryPath parent name conflictOf token : string) (t : Z) (i : index) (ob : obs) : index :=
  if ob_snapshot ob then i
  else upsertReplica entryPath parent (m_name (ob_m ob)) (ob_e ob) token
         (if decide (conflictOf = "" /\ e_Name (ob_e ob) <> name) then "pending" else "live") t i.

Definition publishGroup (g : group) (entryPath parent id parentID name conflictOf : string) (t : Z) (a : lacc)
  : M W lacc :=
  let auth := ob_e (newest g) in
  let hashes := group_hashes g in
  let '(ht, hv) := bestHash hashes in
  do- exec (upsertEntry entryPath (MkEntryRow parent KindFile (e_Size auth) (UnixNano (e_ModTime auth))
              (g_token g) ht hv conflictOf t) t);
  do- exec (fun i => foldl (publish_obs entryPath parent name conflictOf (g_token g) t) i (g_obs g));
  ret (((a <| la_seen ::= fun s => list_to_set (map (fun ob => (entryPath, m_name (ob_m ob))) (g_obs g)) ∪ s |>)
          <| la_produced ::= union {[entryPath]} |>)
          <| la_out ::= fun l => l ++ [MkEntry id parentID name KindFile (e_Size auth) (e_ModTime auth)
                                        (g_token g) hashes] |>).

Definition rememberDirIDTx (m : member) (pth id : string) (t : Z) : M W unit :=
  do- modify (upd_mrt m (fun r => r <| dirIDs ::= <[pth := id]> |>)); exec (put_dir m pth id t).

Definition forgetDirIDTx (m : member) (pth : string) : M W unit :=
  do- modify (upd_mrt m (fun r => r <| dirIDs ::=
        filter (fun kv => fst kv <> pth /\ hasPrefix (fst kv) (pth +:+ "/") = false) |>));
  exec (fun i => i <| member_dirs ::=
    filter (fun kv => ~ (fst (fst kv) = m_name m /\ subtree pth (snd (fst kv)) = true)) |>).

(** The observations of a name some member has as a directory. *)
Fixpoint publish_dir_obs (childPath : string) (t : Z) (l : list obs) (mtime : Z) (a : lacc) : M W (Z * lacc) :=
  match l with
  | [] => ret (mtime, a)
  | ob :: rest =>
      if decide (e_Kind (ob_e ob) <> KindDir) then
        do- exec (recordDivergence childPath (m_name (ob_m ob)) "file-vs-dir"
                    "a file where other members have a directory" t);
        publish_dir_obs childPath t rest mtime a
      else
        do- (if ob_snapshot ob then ret tt else rememberDirIDTx (ob_m ob) childPath (e_ID (ob_e ob)) t);
        publish_dir_obs childPath t rest
          (if decide (mtime < e_ModTime (ob_e ob)) then e_ModTime (ob_e ob) else mtime)
          (a <| la_seenDir ::= union {[(childPath, m_name (ob_m ob))]} |>)
  end.

Fixpoint record_all (pth kind detail : string) (t : Z) (l : list obs) : M W unit :=
  match l with
  | [] => ret tt
  | ob :: rest => do- exec (recordDivergence pth (m_name (ob_m ob)) kind detail t); record_all pth kind detail t rest
  end.

Fixpoint publish_conflicts (pth dirid name childPath : string) (t : Z) (gs : list group) (a : lacc)
  : M W (res gerr lacc) :=
  match gs with
  | [] => ret (Ok a)
  | g :: rest =>
      let cname := conflictName name (e_ModTime (ob_e (newest g))) (m_name (ob_m (first_obs g))) in
      let cpath := joinPath pth cname in
      let- r := idForTx cpath in
      match r with
      | Err e => ret (Err e)
      | Ok cid =>
          let- a := publishGroup g cpath pth cid dirid cname childPath t a in
          do- record_all childPath "conflict" ("older content than the winning replica; shown as " +:+ cname) t (g_obs g);
          publish_conflicts pth dirid name childPath t rest a
      end
  end.

Definition publish_name (pth dirid : string) (t : Z) (name : string) (l : list obs) (a : lacc) : M W (res gerr lacc) :=
  let l := stable_sort (fun x y => bool_decide (m_order (ob_m x) < m_order (ob_m y))) l in
  let childPath := joinPath pth name in
  if existsb (fun ob => bool_decide (e_Kind (ob_e ob) = KindDir)) l then
    let- (mtime, a) := publish_dir_obs childPath t l zero_time a in
    let- r := idForTx childPath in
    match r with
    | Err e => ret (Err e)
    | Ok id =>
        do- exec (upsertEntry childPath (MkEntryRow pth KindDir 0 (UnixNano mtime) (dirToken id) "" "" "" t) t);
        ret (Ok ((a <| la_produced ::= union {[childPath]} |>)
                   <| la_out ::= fun o => o ++ [MkEntry id dirid name KindDir 0 mtime (dirToken id) ∅] |>))
    end
  else
    match groupByContent l with
    | [] => ret (Ok a)
    | winner :: losers =>
        do- (match losers with
             | g1 :: _ =>
                 if decide (absDuration (e_ModTime (ob_e (newest winner)) - e_ModTime (ob_e (newest g1))) <= mtimeTolerance)
                 then record_all childPath "ambiguous"
                        "two contents with indistinguishable mtimes; the first-declared member wins" t (g_obs g1)
                 else ret tt
             | [] => ret tt
             end);
        let- r := idForTx childPath in
        match r with
        | Err e => ret (Err e)
        | Ok id =>
            let- a := publishGroup winner childPath pth id dirid name "" t a in
            publish_conflicts pth dirid name childPath t losers a
        end
    end.

Fixpoint publish_names (pth dirid : string) (t : Z) (l : list (string * list obs)) (a : lacc) : M W (res gerr lacc) :=
  match l with
  | [] => ret (Ok a)
  | (name, obs) :: rest =>
      let- r := publish_name pth dirid t name obs a in
      match r with Err e => ret (Err e) | Ok a => publish_names pth dirid t rest a end
  end.

(** ** Forgetting what a reachable member no longer has *)

(** The names a member newly shows, by hash; a later name replaces an earlier. *)
Definition new_by_hash (pth : string) (rows : gmap replicaKey replicaRow) (m : member) (es : list Entry) : gmap string string :=
  foldl (fun h e =>
    if decide (e_Kind e <> KindFile) then h
    else if decide (is_Some (rows !! (joinPath pth (e_Name e), m_name m))) then h
    else let '(ht, hv) := bestHash (e_Hashes e) in
         if decide (ht = "") then h else <[ht +:+ ":" +:+ hv := e_Name e]> h) ∅ es.

Definition forget_row (mname : string) (byHash : gmap string string) (t : Z) (i : index) (kr : replicaKey * replicaRow) : index :=
  let '(k, row) := kr in
  let i := del_replica k i in
  match byHash !! (rp_hashType row +:+ ":" +:+ rp_hash row) with
  | Some newName =>
      if decide (rp_hash row <> "")
      then recordDivergence (fst k) mname "renamed-out-of-band"
             ("the member now has the same content as " +:+ newName +:+ "; rename it through the pool or keep both") t i
      else i
  | None => i
  end.

Fixpoint forget_dirs (m : member) (dirs : list string) : M W unit :=
  match dirs with [] => ret tt | d :: rest => do- forgetDirIDTx m d; forget_dirs m rest end.

Definition reconcile_result (pth : string) (rows : gmap replicaKey replicaRow) (dirs : string -> list (string * string))
  (t : Z) (a : lacc) (r : memberListing) : M W unit :=
  match ml_err r with
  | Some _ => ret tt
  | None =>
      let m := ml_m r in
      do- (if ml_holds r
           then exec (fun i => i <| member_dirs ::= alter (fun d => d <| d_listedAt := t |>) (m_name m, pth) |>)
           else ret tt);
      let byHash := new_by_hash pth rows m (ml_entries r) in
      do- exec (fun i => foldl (forget_row (m_name m) byHash t) i
            (filter (fun kr => snd (fst kr) = m_name m /\ fst kr ∉ la_seen a) (map_to_list rows)));
      forget_dirs m (filter (fun d => (d, m_name m) ∉ la_seenDir a) (map fst (dirs (m_name m))))
  end.
Fixpoint reconcile (pth : string) (rows : gmap replicaKey replicaRow) (dirs : string -> list (string * string))
  (t : Z) (a : lacc) (rs : list memberListing) : M W unit :=
  match rs with
  | [] => ret tt
  | r :: rest => do- reconcile_result pth rows dirs t a r; reconcile pth rows dirs t a rest
  end.

(** Entries of the directory nothing produced any more, with their subtrees. *)
Definition drop_gone (pth : string) (a : lacc) (i : index) : index :=
  foldl (fun i p => dropSubtree p i) i
    (map fst (filter (fun kr => en_parent (snd kr) = pth /\ fst kr ∉ la_produced a) (map_to_list (entries i)))).

(** ** listDir *)

Definition listDir (pth : string) : M W (res gerr (list Entry)) :=
  let- results := ask_all pth members in
  let- cerr := reads (fun s => ctx_Err (world s)) in
  match cerr with
  | Some e => ret (Err e)
  | None =>
      let failed := filter (fun r => ml_err r <> None) results in
      let answered := filter (fun r => ml_err r = None /\ ml_holds r = true) results in
      let publish : M W (res gerr (list Entry)) :=
        let- rows := reads (fun s => replicasUnder pth (idx s)) in
        let- dirs := reads (fun s n => memberDirsUnder pth n (idx s)) in
        let- pending := reads (fun s => pendingOpsUnder pth (idx s)) in
        let- moves := reads (fun s => pendingMoves (idx s)) in
        let '(byNm, kept) := foldl (observe_result pth rows pending moves dirs) (∅, pending) results in
        let names := stable_sort (fun x y => String.ltb (fst x) (fst y)) (map_to_list byNm) in
        let- r := idFor pth in
        match r with
        | Err e => ret (Err e)
        | Ok dirid =>
            let- t := reads (fun s => UnixNano (now (world s))) in
            let- r := tx (let- r := publish_names pth dirid t names (MkLacc [] ∅ kept ∅) in
                          match r with
                          | Err e => ret (Err e)
                          | Ok a =>
                              do- reconcile pth rows dirs t a results;
                              do- exec (drop_gone pth a);
                              ret (Ok a)
                          end) in
            ret match r with
                | Err e => Err e
                | Ok a => Ok (stable_sort (fun x y => String.ltb (e_Name x) (e_Name y)) (la_out a))
                end
        end in
      match answered, failed with
      | [], [] =>
          if decide (pth = "/") then ret (Ok [])
          else do- tx (do- exec (dropSubtree pth); ret (Ok tt)); ret (Err (wrap "list" (sent PErrNotFound)))
      | [], _ =>
          let- known := reads (fun s => indexKnows pth (idx s)) in
          if (known : bool) then publish else ret (Err (wrap "listing" (sent PErrUnavailable)))
      | _, _ => publish
      end
  end.

Definition ScrubPath (pth : string) : M W (res gerr unit) :=
  match cleanPath pth with
  | Err e => ret (Err e)
  | Ok pth =>
      let- row := reads (fun s => entryAt pth (idx s)) in
      let pth := match row with
                 | Some r => if decide (en_kind r <> KindDir) then parentOf pth else pth
                 | None => pth
                 end in
      let- r := listDir pth in
      ret match r with Ok _ => Ok tt | Err e => Err e end
  end.

Definition entryFromRow (pth : string) (r : entryRow) : M W (res gerr Entry) :=
  let- id := idFor pth in
  match id with
  | Err e => ret (Err e)
  | Ok id =>
      let- pid := idFor (en_parent r) in
      match pid with
      | Err e => ret (Err e)
      | Ok pid =>
          ret (Ok (match en_kind r with
                   | KindDir => MkEntry id pid (Filepath.Base pth) KindDir 0 (en_mtimeNS r) (dirToken id) ∅
                   | KindFile => MkEntry id pid (Filepath.Base pth) KindFile (en_size r) (en_mtimeNS r) (en_ctoken r)
                                   (hash_map (en_hashType r) (en_hash r))
                   end))
      end
  end.

Definition PoolList (dirid cursor : string) : M W (res gerr (list Entry * string)) :=
  if decide (cursor <> "") then ret (Err (Gerr (KText "pool: unknown cursor") []))
  else
    let- p := pathOf dirid in
    match p with
    | Err e => ret (Err e)
    | Ok pth => let- r := listDir pth in ret match r with Ok l => Ok (l, "") | Err e => Err e end
    end.

Definition PoolStat (id : string) : M W (res gerr Entry) :=
  let- p := pathOf id in
  match p with
  | Err e => ret (Err e)
  | Ok pth =>
      if decide (pth = "/")
      then reads (fun s => Ok (MkEntry rootID "" "" KindDir 0 (now (world s)) (dirToken rootID) ∅))
      else
        let- row := reads (fun s => entryAt pth (idx s)) in
        match row with
        | Some r => entryFromRow pth r
        | None =>
            let- l := listDir (parentOf pth) in
            match l with
            | Err e => ret (Err e)
            | Ok _ =>
                let- row := reads (fun s => entryAt pth (idx s)) in
                match row with
                | Some r => entryFromRow pth r
                | None => ret (Err (wrap "stat" (sent PErrNotFound)))
                end
            end
        end
  end.
End List.
