(* ===== verification/PoolRepair.v ===== *)
(** * Repair (repair.go, write.go: ensureDir, findDir, ensureRoot)

    Bringing a file up to its replica target: the queue, the choice of the next
    member, the copy, and the bookkeeping of what came of it. *)
From S2P Require Import Prelude Filepath GoLib SqlText Retry Health PoolState PoolMember PoolPlacement PoolIndex PoolList.
Open Scope Z_scope.

Section Repair.
Context {W : Type} {E : Env W} {P : Pool}.

Definition err_of {A} (r : res gerr A) : option gerr := match r with Ok _ => None | Err e => Some e end.

(** ** Directories on the destination *)

Definition findDir (m : member) (parentID pth : string) : M W (res gerr string) :=
  let- r := listAll m parentID in
  match r with
  | Err e => ret (Err e)
  | Ok es =>
      let- found := learn_dirs m (parentOf pth) (Filepath.Base pth) es "" in
      do- markEnumerated m (parentOf pth);
      if decide (found = "") then ret (Err no_such_dir) else ret (Ok found)
  end.

Fixpoint make_root (m : member) (segs : list string) (id : string) : M W (res gerr string) :=
  match segs with
  | [] => ret (Ok id)
  | seg :: rest =>
      let- r := listAll m id in
      match r with
      | Err e => ret (Err e)
      | Ok es =>
          let next := default "" (find_dir_entry es seg) in
          if decide (next <> "") then make_root m rest next
          else
            let- r := call (b_Mkdir m id seg) in
            match r with
            | Err e => do- note m (Some e); ret (Err e)
            | Ok e => make_root m rest (e_ID e)
            end
      end
  end.

Definition ensureRoot (m : member) : M W (res gerr string) :=
  let- r := rootDirID m in
  match r with
  | Ok id => ret (Ok id)
  | Err e =>
      if negb (errors_Is e PErrNotFound) then ret (Err e)
      else
        let- r := make_root m (root_segments m) (m_rootOf m) in
        match r with
        | Err e => ret (Err e)
        | Ok id => do- rememberDirID m "/" id; ret (Ok id)
        end
  end.

Fixpoint ensure_dir (fuel : nat) (m : member) (pth : string) : M W (res gerr string) :=
  if decide (pth = "/") then ensureRoot m
  else
    let- r := dirID m pth in
    match r, fuel with
    | Ok id, _ => ret (Ok id)
    | Err e, O => ret (Err e)
    | Err e, S fuel' =>
        if negb (errors_Is e PErrNotFound) then ret (Err e)
        else
          let- r := ensure_dir fuel' m (parentOf pth) in
          match r with
          | Err e => ret (Err e)
          | Ok parentID =>
              let- r := call (b_Mkdir m parentID (Filepath.Base pth)) in
              match r with
              | Ok e => do- note m None; do- rememberDirID m pth (e_ID e); ret (Ok (e_ID e))
              | Err e => if errors_Is e PErrExists then findDir m parentID pth
                         else do- note m (Some e); ret (Err e)
              end
          end
    end.
Definition ensureDir (m : member) (pth : string) : M W (res gerr string) := ensure_dir (String.length pth) m pth.

(** ** One copy *)

(** [p.noteWrite(m, err)] around a call. *)
Definition noted_write {A} (m : member) (r : res gerr A) : M W unit := noteWrite m (err_of r).

Fixpoint first_source (rs : list replicaRow) (dst : member) (s : pst W) : option string :=
  match rs with
  | [] => None
  | r :: rest =>
      match byName (rp_member r) with
      | Some m =>
          if bool_decide (m_name m = m_name dst \/ m_domain m <> m_domain dst)
             || negb (usable m (ProbeInterval settings) s)
          then first_source rest dst s else Some (remoteID r)
      | None => first_source rest dst s
      end
  end.

(** The outer option says whether the copy was handled at all. *)
Definition serverCopy (pth : string) (live : list replicaRow) (dst : member) (dirid : string)
  : M W (option (res gerr Entry)) :=
  if negb (is_ServerCopier (m_caps dst) && ServerCopy (m_caps dst)) then ret None
  else
    let- src := reads (first_source live dst) in
    match src with
    | None | Some EmptyString => ret None
    | Some srcID =>
        let- r := call (b_Copy dst srcID dirid (Filepath.Base pth)) in
        match r with
        | Ok e => do- note dst None; ret (Some (Ok e))
        | Err e =>
            if errors_Is e PErrUnsupported || errors_Is e PErrNotFound then do- note dst None; ret None
            else if outOfSpace (Some e) then do- noteWrite dst (Some e); ret (Some (Err e))
            else do- note dst (Some e);
                 ret (Some (Err (Gerr (KText "copy") [sent errCopyUnconfirmed; e])))
        end
    end.

Definition no_source : gerr := wrap "no source" (sent PErrUnavailable).

Fixpoint replica_source (rs : list replicaRow) (s : pst W) : option source_from :=
  match rs with
  | [] => None
  | r :: rest =>
      match byName (rp_member r) with
      | Some m =>
          if bool_decide (rp_state r <> "live") || negb (usable m (ProbeInterval settings) s)
             || bool_decide (state_of m s = HealthOut \/ state_of m s = HealthDisabled)
          then replica_source rest s else Some (SrcReplica m r)
      | None => replica_source rest s
      end
  end.

(** The source, and the hashes that come with it. *)
Definition openSource (pth : string) (row : entryRow) : M W (res gerr (source_from * Hashes)) :=
  let- hp := holdFor pth (en_ctoken row) in
  let- held := reads (fun s => match hp with
                               | Some hp => pair (SrcHold hp) <$> hash_file hp (en_size row) (world s)
                               | None => None
                               end) in
  match held with
  | Some sh => ret (Ok sh)
  | None =>
      reads (fun s =>
        match replica_source (replicasOf pth (en_ctoken row) s) s with
        | Some src => Ok (src, hash_map (en_hashType row) (en_hash row))
        | None => Err no_source
        end)
  end.

(** The reads of the source made on behalf of a call, noted on its member. *)
Fixpoint note_reads (src : source_from) (rs : list (option gerr)) : M W unit :=
  match src, rs with
  | SrcReplica m _, e :: rest => do- note m e; note_reads src rest
  | _, _ => ret tt
  end.
Definition sending {A} (dst : member) (src : source_from) (f : W -> (res gerr A * list (option gerr)) * W)
  : M W (res gerr A) :=
  let- (r, rs) := call f in
  do- note_reads src rs;
  do- noted_write dst r;
  ret r.

Fixpoint upload_parts (dst : member) (sess : UploadSession) (src : source_from) (size partSize : Z)
  (left : nat) (i : Z) (acc : list PartToken) : M W (res gerr (list PartToken)) :=
  match left with
  | O => ret (Ok acc)
  | S left' =>
      let off := i * partSize in
      let n := if decide (size < off + partSize) then size - off else partSize in
      let- r := sending dst src (b_UploadPart dst sess i src off n) in
      match r with
      | Err e => ret (Err e)
      | Ok pt => upload_parts dst sess src size partSize left' (i + 1) (acc ++ [pt])
      end
  end.

Definition part_size (dst : member) (sess : UploadSession) : Z :=
  if decide (0 < ses_PartSize sess) then ses_PartSize sess
  else if decide (0 < cap_PartSize (m_caps dst)) then cap_PartSize (m_caps dst)
  else 4194304.

Definition send_file (dst : member) (dirid name : string) (src : source_from) (size : Z) (hashes : Hashes)
  : M W (res gerr Entry) :=
  if is_SinglePutter (m_caps dst) && bool_decide (0 < SinglePutMax (m_caps dst) /\ size <= SinglePutMax (m_caps dst))
  then sending dst src (b_PutFile dst dirid name src size hashes)
  else
    let- r := call (b_BeginUpload dst dirid name size hashes) in
    do- noted_write dst r;
    match r with
    | Err e =>
        do- (if refusedName (Some e) then learnDenial dst name else ret tt);
        ret (Err e)
    | Ok sess =>
        match (if RapidDone sess then ses_Entry sess else None) with
        | Some e => ret (Ok e)
        | None =>
            let partSize := part_size dst sess in
            let nParts := Z.quot (size + partSize - 1) partSize in
            let nParts := if decide (nParts = 0) then 1 else nParts in
            let- r := upload_parts dst sess src size partSize (Z.to_nat nParts) 0 [] in
            match r with
            | Err e => ret (Err e)
            | Ok parts =>
                let- r := call (b_CompleteUpload dst sess parts) in
                do- noted_write dst r;
                ret r
            end
        end
    end.

Definition record_copy (pth : string) (dst : member) (e : Entry) (ctoken : string) : M W (res gerr unit) :=
  let- t := reads (fun s => UnixNano (now (world s))) in
  tx (do- exec (upsertReplica pth (parentOf pth) (m_name dst) e ctoken "live" t); ret (Ok tt)).

Definition copyReplica (pth : string) (row : entryRow) (live : list replicaRow) (dst : member) : M W (res gerr unit) :=
  let- r := ensureDir dst (parentOf pth) in
  match r with
  | Err e => ret (Err e)
  | Ok dirid =>
      let- sc := serverCopy pth live dst dirid in
      match sc with
      | Some (Err e) => ret (Err e)
      | Some (Ok e) => record_copy pth dst e (en_ctoken row)
      | None =>
          let- src := openSource pth row in
          match src with
          | Err e => ret (Err e)
          | Ok (src, hashes) =>
              let- r := send_file dst dirid (Filepath.Base pth) src (en_size row) hashes in
              match r with
              | Err e => ret (Err e)
              | Ok e => record_copy pth dst e (en_ctoken row)
              end
          end
      end
  end.

(** ** The queue *)

Definition enqueue (pth reason : string) (priority t : Z) (i : index) : index :=
  i <| repair_queue ::= partial_alter (fun q => Some match q with
         | Some q => ((q <| rq_reason := reason |>) <| rq_priority ::= Z.max priority |>) <| rq_nextAt := 0 |>
         | None => MkRepairRow reason priority 0 0 "" t
         end) pth |>.
Definition enqueueRepair (pth reason : string) (priority : Z) : M W unit :=
  let- t := reads (fun s => UnixNano (now (world s))) in
  exec (enqueue pth reason priority t).

(** SELECT path, ctoken FROM entries WHERE kind = file AND conflict_of = '' *)
Definition plain_files (i : index) : list (string * string) :=
  map (fun kr => (fst kr, en_ctoken (snd kr)))
    (filter (fun kr => en_kind (snd kr) = KindFile /\ en_conflictOf (snd kr) = "") (map_to_list (entries i))).

Definition count {A} (l : list A) : Z := Z.of_nat (length l).

Fixpoint scan_files (fs : list (string * string)) (queued : Z) : M W Z :=
  match fs with
  | [] => ret queued
  | (pth, ctoken) :: rest =>
      let- live := reads (liveReplicas pth ctoken) in
      let- (target, _) := reads (targetFor pth) in
      if decide (target <= count live) then scan_files rest queued
      else
        let below := bool_decide (count live < minReplicas pth) in
        do- enqueueRepair pth (if (below : bool) then "below min_replicas" else "under-replicated")
              (if (below : bool) then 2 else 0);
        scan_files rest (queued + 1)
  end.
Definition ScanOnce : M W Z := let- fs := reads (fun s => plain_files (idx s)) in scan_files fs 0.

Definition underReplicated (s : pst W) : Z * Z :=
  foldl (fun c f =>
    let live := count (liveReplicas (fst f) (snd f) s) in
    ((if decide (live < fst (targetFor (fst f) s)) then fst c + 1 else fst c),
     (if decide (live < minReplicas (fst f)) then snd c + 1 else snd c))) (0, 0) (plain_files (idx s)).

(** The best candidate that is not already carrying a live copy. *)
Definition repairTarget (pth : string) (live : list replicaRow) : M W (option member) :=
  let- cs := candidates pth in
  ret (find (fun m => negb (bool_decide (m_name m ∈ map rp_member live))) cs).

Definition failed_row (dst : member) : replicaRow := MkReplica "" "" (m_name dst) "" "" 0 0 "" "" "" "failed" "" 0.

Record repair_result := MkRepaired { made : Z; lastError : option gerr; noMember : bool }.

(** The loop; [fuel] bounds the copies attempted. *)
Fixpoint repair_loop (fuel : nat) (pth : string) (row : entryRow) (target : Z) (live : list replicaRow)
  (acc : repair_result) : M W repair_result :=
  if decide (target <= count live) then ret acc
  else match fuel with
  | O => ret acc
  | S fuel' =>
      let- dst := repairTarget pth live in
      match dst with
      | None => ret (MkRepaired (made acc) (lastError acc) true)
      | Some dst =>
          let- r := copyReplica pth row live dst in
          match r with
          | Err e =>
              do- (if unreachable (Some e) || outOfSpace (Some e) then ret tt
                   else let- t := reads (fun s => UnixNano (now (world s))) in
                        modify (fun s => snd (tx (do- exec (recordDivergence pth (m_name dst) "repair-failed" (errText e) t);
                                                  ret (Ok tt)) s)));
              repair_loop fuel' pth row target (live ++ [failed_row dst]) (MkRepaired (made acc) (Some e) (noMember acc))
          | Ok _ =>
              let- live := reads (liveReplicas pth (en_ctoken row)) in
              repair_loop fuel' pth row target live (MkRepaired (made acc + 1) (lastError acc) (noMember acc))
          end
      end
  end.

Definition reasonCopyUnsure : string := "server-copy-unsure".

Definition repair_delay (attempts : Z) : Z := Z.min Hour (30 * Second * 2 ^ Z.min attempts 7).

Definition retry_reason (acc : repair_result) : string :=
  if noMember acc && bool_decide (lastError acc = None) then "no-eligible-member"
  else match lastError acc with
       | None => "retry"
       | Some e => if errors_Is e errCopyUnconfirmed then reasonCopyUnsure +:+ ": " +:+ errText e
                   else "retry: " +:+ errText e
       end.

Definition repair_fuel (target : Z) : nat := (S (Z.to_nat target) * S (length members))%nat.

Definition dequeue (pth : string) : M W unit := exec (fun i => i <| repair_queue ::= delete pth |>).

Definition repairPath (pth : string) : M W (Z * option gerr) :=
  let- row := reads (fun s => entryAt pth (idx s)) in
  match row with
  | None => do- dequeue pth; ret (0, None)
  | Some row =>
      if decide (en_kind row <> KindFile) then do- dequeue pth; ret (0, None)
      else
        let- (target, capped) := reads (targetFor pth) in
        let- live := reads (liveReplicas pth (en_ctoken row)) in
        let- acc := repair_loop (repair_fuel target) pth row target live (MkRepaired 0 None false) in
        let- live := reads (liveReplicas pth (en_ctoken row)) in
        do- (if decide (target <= count live) then
               do- dequeue pth;
               if bool_decide (wantReplicas pth <= count live) || capped then releaseHolds pth else ret tt
             else
               let- attempts := reads (fun s => default 0 (rq_attempts <$> repair_queue (idx s) !! pth)) in
               let delay := if noMember acc && bool_decide (lastError acc = None) then Hour else repair_delay attempts in
               let- t := reads (fun s => UnixNano (now (world s) + delay)) in
               exec (fun i => i <| repair_queue ::= alter (fun q =>
                       ((q <| rq_attempts ::= Z.add 1 |>) <| rq_nextAt := t |>) <| rq_reason := retry_reason acc |>) pth |>));
        ret (made acc, lastError acc)
  end.

Definition repairDue (pth reason : string) : M W (Z * option gerr) :=
  if hasPrefix reason reasonCopyUnsure then
    let- r := ScrubPath pth in
    let- cerr := reads (fun s => ctx_Err (world s)) in
    match r, cerr with
    | Err e, Some _ => ret (0, Some e)
    | _, _ => repairPath pth
    end
  else repairPath pth.

Definition repairBatch : nat := 16.
Definition due_repairs (i : index) (t : Z) : list (string * string) :=
  map (fun kq => (fst kq, rq_reason (snd kq)))
    (take repairBatch
      (stable_sort (fun a b => bool_decide (rq_priority (snd b) < rq_priority (snd a)) ||
                               (bool_decide (rq_priority (snd b) = rq_priority (snd a)) &&
                                bool_decide (rq_createdAt (snd a) < rq_createdAt (snd b))))
        (filter (fun kq => rq_nextAt (snd kq) <= t) (map_to_list (repair_queue i))))).

(** What the workers report together; an error counts once the context ended. *)
Fixpoint collect (rs : list (Z * option gerr)) (n : Z) (cerr : option gerr) : Z * option gerr :=
  match rs with
  | [] => (n, None)
  | (k, e) :: rest =>
      match e, cerr with
      | Some e, Some _ => (n + k, Some e)
      | _, _ => collect rest (n + k) cerr
      end
  end.
(** The batch, worked through by one worker: a context that ends stops the
    hand-out of paths. *)
Fixpoint repair_batch (ds : list (string * string)) (rs : list (Z * option gerr)) : M W (Z * option gerr) :=
  let- cerr := reads (fun s => ctx_Err (world s)) in
  match ds with
  | [] => ret (collect rs 0 cerr)
  | (pth, reason) :: rest =>
      match cerr with
      | Some e => ret (fst (collect rs 0 None), Some e)
      | None => let- r := repairDue pth reason in repair_batch rest (rs ++ [r])
      end
  end.
Definition RepairOnce : M W (Z * option gerr) :=
  let- ds := reads (fun s => due_repairs (idx s) (UnixNano (now (world s)))) in
  repair_batch ds [].

Record RepairStats := MkRepairStats { Queued : Z; Blocked : Z; OldestWait : Z }.
Definition RepairStatus (s : pst W) : RepairStats :=
  let t := UnixNano (now (world s)) in
  let qs := map snd (map_to_list (repair_queue (idx s))) in
  let oldest := match qs with [] => 0 | q :: l => foldl Z.min (rq_createdAt q) (map rq_createdAt l) end in
  MkRepairStats (count qs) (count (filter (fun q => t < rq_nextAt q) qs))
    (if decide (0 < oldest < t) then t - oldest else 0).
End Repair.
