(* ===== verification/PoolBalance.v ===== *)
(** * Moving and removing copies (rebalance.go, scrub.go: TrimOnce, drain.go)

    The operations that delete a copy: a rebalance move, the trimming of surplus
    copies, and the draining of a member. *)
From S2P Require Import Prelude Filepath GoLib SqlText Retry Health PoolState PoolMember PoolPlacement PoolIndex PoolList PoolRepair.
From Stdlib Require Import SpecFloat Ascii.
Open Scope Z_scope.

Section Balance.
Context {W : Type} {E : Env W} {P : Pool}.

(** ** Dropping one copy *)

Definition dropReplica (pth : string) (m : member) : M W (res gerr unit) :=
  let- row := reads (fun s => replicas (idx s) !! (pth, m_name m)) in
  match row with
  | None => ret (Ok tt)
  | Some row =>
      let- r := call (b_Delete m (remoteID row)) in
      let err := match r with
                 | Ok _ => None
                 | Err e => if errors_Is e PErrNotFound then None else Some e
                 end in
      do- note m err;
      match err with
      | Some e => ret (Err e)
      | None => do- execIndex (del_replica (pth, m_name m)); ret (Ok tt)
      end
  end.

(** ** Moves *)

Definition not_entry_content : gerr := Gerr (KText "pool: the copy is not the entry's content") [].
Definition no_second_replica : gerr := Gerr (KText "pool: no second replica to fall back on") [].

Definition moveReplica (pth : string) (src dst : member) : M W (res gerr unit) :=
  let- row := reads (fun s => entryAt pth (idx s)) in
  match row with
  | None => ret (Ok tt)
  | Some row =>
      if decide (en_kind row <> KindFile) then ret (Ok tt)
      else
        let- live := reads (liveReplicas pth (en_ctoken row)) in
        let held := bool_decide (m_name dst ∈ map rp_member live) in
        let- r := (if (held : bool) then ret (Ok tt) else copyReplica pth row live dst) in
        match r with
        | Err e => ret (Err e)
        | Ok _ =>
            let- after := reads (liveReplicas pth (en_ctoken row)) in
            if negb (existsb (fun r => bool_decide (rp_member r = m_name dst /\ rp_ctoken r = en_ctoken row)) after)
            then ret (Err not_entry_content)
            else if decide (count after < 2) then ret (Err no_second_replica)
            else dropReplica pth src
        end
  end.

(** The oldest due move. *)
Definition next_move (i : index) (t : Z) : option (string * rebalanceRow) :=
  head (stable_sort (fun a b => bool_decide (rb_createdAt (snd a) < rb_createdAt (snd b)))
    (filter (fun kr => (rb_state (snd kr) = "pending" \/ rb_state (snd kr) = "copied") /\ rb_nextAt (snd kr) <= t)
       (map_to_list (rebalance_queue i)))).

Definition set_move (pth : string) (f : rebalanceRow -> rebalanceRow) : M W unit :=
  exec (fun i => i <| rebalance_queue ::= alter f pth |>).

(** rebalanceWait only waits. *)
Definition RebalanceOnce : M W (Z * option gerr) :=
  let- busy := reads (fun s => isBusy (world s)) in
  if (busy : bool) then ret (0, None)
  else
    let- mv := reads (fun s => next_move (idx s) (UnixNano (now (world s)))) in
    match mv with
    | None => ret (0, None)
    | Some (pth, row) =>
        match byName (rb_from row), byName (rb_to row) with
        | Some src, Some dst =>
            let- r := moveReplica pth src dst in
            match r with
            | Err e =>
                let- t := reads (fun s => UnixNano (now (world s) + 30 * Second * 2 ^ Z.min (rb_attempts row) 6)) in
                do- set_move pth (fun q => (((q <| rb_state := if decide (5 <= rb_attempts row + 1) then "failed" else "pending" |>)
                                               <| rb_attempts ::= Z.add 1 |>) <| rb_nextAt := t |>)
                                               <| rb_lastError := errText e |>);
                ret (0, Some e)
            | Ok _ =>
                do- set_move pth (fun q => (q <| rb_state := "done" |>) <| rb_lastError := "" |>);
                ret (1, None)
            end
        | _, _ =>
            do- set_move pth (fun q => (q <| rb_state := "failed" |>)
                                          <| rb_lastError := "member is no longer in the pool" |>);
            ret (0, None)
        end
    end.

(** ** Planning *)

Record fill := MkFill { fl_m : member; fl_ratio : float; fl_free : Z; fl_known : bool }.

Fixpoint fill_all (ms : list member) : M W (list fill) :=
  match ms with
  | [] => ret []
  | m :: rest =>
      let- ok := reads (in_service m) in
      if negb ok then fill_all rest
      else
        let- q := memberQuota m in
        let- fs := fill_all rest in
        ret ((if decide (Total q <= 0) then MkFill m f0 0 false
              else MkFill m (fdiv (f64 (Used q)) (f64 (Total q))) (Free q) true) :: fs)
  end.
Definition fills : M W (list fill) := fill_all members.

Definition Skew : M W float :=
  let- fs := fills in
  let known := filter (fun f => fl_known f = true) fs in
  if decide (count known < 2) then ret f0
  else
    let lo := foldl (fun m f => if flt (fl_ratio f) m then fl_ratio f else m) f1 known in
    let hi := foldl (fun m f => if flt m (fl_ratio f) then fl_ratio f else m) f0 known in
    ret (fsub hi lo).

Definition f_tenth : float := S754_finite false 7205759403792794 (-56).
Definition targetSkew : float := if flt f0 (TargetSkew (Rebalance settings)) then TargetSkew (Rebalance settings) else f_tenth.

Definition capacityOf (m : member) : M W Z :=
  let- q := memberQuota m in ret (if decide (0 < Total q) then Total q else m_capacity m).

Fixpoint keep_allowed (to : member) (l : list (string * Z)) : M W (list (string * Z)) :=
  match l with
  | [] => ret []
  | mv :: rest =>
      let- cs := candidates (fst mv) in
      let- l := keep_allowed to rest in
      ret (if bool_decide (m_name to ∈ map m_name cs) then mv :: l else l)
  end.

(** Files on [from] with a live copy, not on [to]; biggest first. *)
Definition movable_rows (from to : member) (i : index) : list (string * Z) :=
  stable_sort (fun a b => bool_decide (snd b < snd a))
    (map (fun r => (rp_path r, rp_size r))
      (rows_where (fun r => bool_decide (rp_member r = m_name from /\ rp_state r = "live") &&
         match entries i !! rp_path r with
         | Some e => bool_decide (en_kind e = KindFile /\ en_conflictOf e = "")
         | None => false
         end && negb (bool_decide (is_Some (replicas i !! (rp_path r, m_name to))))) i)).
Definition movableFrom (from to : member) : M W (list (string * Z)) :=
  let- l := reads (fun s => movable_rows from to (idx s)) in keep_allowed to l.

Record RebalanceMove := MkMove { mv_Path : string; mv_From : string; mv_To : string; mv_Size : Z }.
Record RebalancePlan := MkPlan {
  PlanID : string; pl_Skew : float; pl_Target : float; pl_Moves : list RebalanceMove; pl_Bytes : Z; pl_Reason : string; Planned : bool
}.

(** The selection loop: until the budget is reached, skipping what does not fit
    beside the moves already selected. *)
Fixpoint select_moves (from to : string) (toFree budget : Z) (cs : list (string * Z)) (bytes : Z)
  : list RebalanceMove * Z :=
  match cs with
  | [] => ([], bytes)
  | (pth, size) :: rest =>
      if decide (budget <= bytes) then ([], bytes)
      else if bool_decide (0 <= toFree /\ (toFree <= bytes \/ toFree - bytes < size))
           then select_moves from to toFree budget rest bytes
      else let '(mvs, b) := select_moves from to toFree budget rest (bytes + size) in
           (MkMove pth from to size :: mvs, b)
  end.

(** strconv.FormatInt(n, 36) *)
Definition digit36 (d : Z) : ascii := ascii_of_nat (if decide (d < 10) then 48 + Z.to_nat d else 87 + Z.to_nat d).
Fixpoint digits36 (fuel : nat) (n : Z) (acc : string) : string :=
  match fuel with
  | O => acc
  | S fuel' => let acc := String (digit36 (n mod 36)) acc in
               if decide (n < 36) then acc else digits36 fuel' (n / 36) acc
  end.
Definition FormatInt36 (n : Z) : string := if decide (n < 0) then "-" +:+ digits36 13 (- n) "" else digits36 13 n "".

Definition queue_move (planID : string) (t : Z) (i : index) (mv : RebalanceMove) : index :=
  i <| rebalance_queue ::= partial_alter (fun q => Some
         (MkRebalanceRow (mv_From mv) (mv_To mv) (mv_Size mv) "pending" 0 0 "" planID
            (match q with Some q => rb_createdAt q | None => t end))) (mv_Path mv) |>.

Definition half_gap (skew target : float) (smaller : Z) : Z :=
  ftrunc (fmul (fdiv (fsub skew target) (f64 2)) (f64 smaller)).

(** The ratios in descending order; sort.Slice is not stable, the first and the
    last of equal ratios are as good as any. *)
Definition by_ratio (fs : list fill) : list fill :=
  stable_sort (fun a b => flt (fl_ratio b) (fl_ratio a)) (filter (fun f => fl_known f = true) fs).

Definition PlanRebalance (target : float) (dryRun : bool) : M W RebalancePlan :=
  let target := if fle target f0 then targetSkew else target in
  let- fs := fills in
  match by_ratio fs with
  | fullest :: _ :: _ =>
      let emptiest := default fullest (last (by_ratio fs)) in
      let skew := fsub (fl_ratio fullest) (fl_ratio emptiest) in
      let nothing (id why : string) := ret (MkPlan id skew target [] 0 why false) in
      if fle skew target then nothing "" ("skew " +:+ showF3 skew +:+ " is within the target of " +:+ showF3 target)
      else
        let- smaller := capacityOf (fl_m fullest) in
        let- c := capacityOf (fl_m emptiest) in
        let smaller := if decide (0 < c < smaller) then c else smaller in
        let budget := half_gap skew target smaller in
        if decide (budget <= 0) then nothing "" "the gap is smaller than one file"
        else
          let- cs := movableFrom (fl_m fullest) (fl_m emptiest) in
          let- t := reads (fun s => UnixNano (now (world s))) in
          let '(mvs, bytes) := select_moves (m_name (fl_m fullest)) (m_name (fl_m emptiest)) (fl_free emptiest) budget cs 0 in
          if decide (mvs = []) then nothing (FormatInt36 t) "no file can move under the pool's rules"
          else if (dryRun : bool) then ret (MkPlan (FormatInt36 t) skew target mvs bytes "dry run: nothing was queued" false)
          else
            do- tx (do- exec (fun i => foldl (queue_move (FormatInt36 t) t) i mvs); ret (Ok tt));
            ret (MkPlan (FormatInt36 t) skew target mvs bytes "" true)
  | _ => ret (MkPlan "" f0 target [] 0 "fewer than two members report their size" false)
  end.

Record RebalanceStats := MkRebStats { rs_Queued : Z; rs_Done : Z; rs_Failed : Z; rs_BytesMoved : Z }.
Definition rebalance_counts (i : index) : RebalanceStats :=
  let rows := map snd (map_to_list (rebalance_queue i)) in
  let done := filter (fun r => rb_state r = "done") rows in
  let failed := filter (fun r => rb_state r = "failed") rows in
  MkRebStats (count rows - count done - count failed) (count done) (count failed)
    (foldr (fun r n => rb_size r + n) 0 done).
Definition RebalanceStatus : M W (RebalanceStats * float) :=
  let- c := reads (fun s => rebalance_counts (idx s)) in
  let- k := Skew in ret (c, k).

Definition ClearRebalance : M W unit :=
  exec (fun i => i <| rebalance_queue ::= filter (fun kr => rb_state (snd kr) <> "done" /\ rb_state (snd kr) <> "failed") |>).

Definition backfillIfNeeded : M W unit :=
  if decide (AutoBackfill (Rebalance settings) = Some false) then ret tt
  else
    let- ms := reads (fun s => filter (fun m => in_service m s = true) members) in
    let- empty := reads (fun s => existsb (fun m => bool_decide (memberFiles (m_name m) s = 0)) ms) in
    let- filled := reads (fun s => existsb (fun m => bool_decide (memberFiles (m_name m) s <> 0)) ms) in
    if (empty && filled : bool) then do- PlanRebalance targetSkew false; ret tt else ret tt.

(** ** Trimming surplus copies *)

Definition index_of (n : string) (cs : list member) : option nat := fst <$> list_find (fun m => m_name m = n) cs.
Definition placed_rank (cs : list member) (r : replicaRow) : Z :=
  match index_of (rp_member r) cs with Some i => Z.of_nat i | None => count cs + 1 end.
Definition worstPlacedFirst (pth : string) (live : list replicaRow) : M W (list replicaRow) :=
  let- cs := candidates pth in
  ret (stable_sort (fun a b => bool_decide (placed_rank cs b < placed_rank cs a)) live).

Fixpoint remove_member (n : string) (l : list replicaRow) : list replicaRow :=
  match l with
  | [] => []
  | r :: rest => if decide (rp_member r = n) then rest else r :: remove_member n rest
  end.

(** [live] shrinks as copies are dropped. *)
Fixpoint trim_rows (cutoff target : Z) (victims live : list replicaRow) (trimmed : Z) : M W Z :=
  match victims with
  | [] => ret trimmed
  | r :: rest =>
      if decide (count live <= target) then ret trimmed
      else
        let- seen := reads (fun s => default 0 (seenAt <$> replicas (idx s) !! (rp_path r, rp_member r))) in
        if decide (cutoff < seen) then trim_rows cutoff target rest live trimmed
        else
          match byName (rp_member r) with
          | None => trim_rows cutoff target rest live trimmed
          | Some m =>
              let- u := reads (usable m (ProbeInterval settings)) in
              if negb u then trim_rows cutoff target rest live trimmed
              else
                let- d := dropReplica (rp_path r) m in
                match d with
                | Err _ => trim_rows cutoff target rest live trimmed
                | Ok _ => trim_rows cutoff target rest (remove_member (rp_member r) live) (trimmed + 1)
                end
          end
  end.

Definition trim_file (cutoff : Z) (pth ctoken : string) (trimmed : Z) : M W Z :=
  if negb (hasPrefix ctoken "h1:") then ret trimmed
  else
    let- live := reads (liveReplicas pth ctoken) in
    let target := wantReplicas pth in
    if decide (count live <= target) then ret trimmed
    else
      let- victims := worstPlacedFirst pth live in
      trim_rows cutoff target victims live trimmed.

Fixpoint trim_files (cutoff : Z) (fs : list (string * string)) (trimmed : Z) : M W Z :=
  match fs with
  | [] => ret trimmed
  | (pth, ctoken) :: rest => let- n := trim_file cutoff pth ctoken trimmed in trim_files cutoff rest n
  end.
Definition TrimOnce : M W Z :=
  let- fs := reads (fun s => plain_files (idx s)) in
  let- cutoff := reads (fun s => UnixNano (now (world s) - TrimGrace settings)) in
  trim_files cutoff fs 0.

(** ** Draining *)

(** The copies on a member with the token of their entry. *)
Definition copies_on (m : member) (i : index) : list (string * string) :=
  omap (fun r => e ← entries i !! rp_path r; Some (rp_path r, en_ctoken e))
    (rows_where (fun r => bool_decide (rp_member r = m_name m)) i).

Fixpoint drain_copies (m : member) (cs : list (string * string)) (removed : Z) (empty : bool) : M W (Z * bool) :=
  match cs with
  | [] => ret (removed, empty)
  | (pth, ctoken) :: rest =>
      let- live := reads (liveReplicas pth ctoken) in
      let- (target, _) := reads (targetFor pth) in
      if decide (count live < target) then drain_copies m rest removed false
      else
        let- u := reads (usable m (ProbeInterval settings)) in
        if negb u then drain_copies m rest removed false
        else
          let- d := dropReplica pth m in
          match d with
          | Err _ => drain_copies m rest removed false
          | Ok _ => drain_copies m rest (removed + 1) empty
          end
  end.

Definition drain_member (m : member) (removed : Z) (empty : bool) : M W (Z * bool) :=
  let- cs := reads (fun s => copies_on m (idx s)) in
  let- (removed, empty) := drain_copies m cs removed empty in
  let- kept := reads (fun s => rows_where (fun r => bool_decide (rp_member r = m_name m)) (idx s)) in
  ret (removed, empty && bool_decide (kept = [])).

Fixpoint drain_members (ms : list member) (removed : Z) (empty : bool) : M W (Z * bool) :=
  match ms with
  | [] => ret (removed, empty)
  | m :: rest => let- (removed, empty) := drain_member m removed empty in drain_members rest removed empty
  end.

Definition DrainOnce : M W (Z * bool * option gerr) :=
  let- ms := reads (fun s => filter (fun m => state_of m s = HealthDraining) members) in
  if decide (ms = []) then ret (0, true, None)
  else
    do- ScanOnce;
    let- (_, err) := RepairOnce in
    let- cerr := reads (fun s => ctx_Err (world s)) in
    match err, cerr with
    | Some e, Some _ => ret (0, false, Some e)
    | _, _ => let- (removed, empty) := drain_members ms 0 true in ret (removed, empty, None)
    end.
End Balance.
