(* ===== verification/PoolRead.v ===== *)
(** * Reading (read.go, pick.go, replicacache.go)

    Which replica serves a read: one ordered attempt after the other, or the
    least loaded and fastest holder with a reservation that lasts as long as the
    read; what the outcome says about the member; and the cache in front of the
    index lookups. *)
From S2P Require Import Prelude Filepath GoLib Retry Health PoolState PoolMember PoolPlacement PoolIndex PoolRepair.
From Stdlib Require Import SpecFloat.
Open Scope Z_scope.

Definition defaultMaxInflight : Z := 4.

Section Read.
Context {W : Type} {E : Env W} {P : Pool}.

(** ** The replica cache *)

Definition cache_get (id ver : string) (t : Z) (c : replicaCache) : option resolved * replicaCache :=
  match rc_m c !! (id, ver) with
  | None => (None, c)
  | Some e =>
      if bool_decide (cr_gen e <> rc_gen c) || bool_decide (cr_expires e <= t)
      then (None, c <| rc_m ::= delete (id, ver) |>)
      else (Some (cr_resolved e), c)
  end.

(** A full cache first drops what is stale, then everything. *)
Definition cache_put (id ver : string) (gen : Z) (v : resolved) (t : Z) (c : replicaCache) : replicaCache :=
  if decide (gen <> rc_gen c) then c
  else
    let m := rc_m c in
    let m := if decide (replicaCacheMax <= Z.of_nat (size m)) then
               let m := filter (fun ke => cr_gen (snd ke) = gen /\ t < cr_expires (snd ke)) m in
               if decide (replicaCacheMax <= Z.of_nat (size m)) then ∅ else m
             else m in
    c <| rc_m := <[(id, ver) := MkCached v gen (t + replicaCacheTTL)]> m |>.

Definition resolveFile (id ver : string) : M W (res gerr resolved) :=
  let- hit := (fun s => let '(v, c) := cache_get id ver (now (world s)) (cache s) in (v, s <| cache := c |>)) in
  match hit with
  | Some v => ret (Ok v)
  | None =>
      let- gen := reads (fun s => rc_gen (cache s)) in
      let- p := pathOf id in
      match p with
      | Err e => ret (Err e)
      | Ok pth =>
          let- row := reads (fun s => entryAt pth (idx s)) in
          match row with
          | None => ret (Err (wrap "resolve" (sent PErrNotFound)))
          | Some row =>
              if decide (en_kind row <> KindFile) then ret (Err (wrap "resolve" (sent PErrNotFound)))
              else if decide (ver <> "" /\ en_ctoken row <> ver) then ret (Err (wrap "changed" (sent PErrConflict)))
              else
                let- reps := reads (replicasOf pth (en_ctoken row)) in
                let v := MkResolved pth row reps in
                do- modify (fun s => s <| cache ::= cache_put id ver gen v (now (world s)) |>);
                ret (Ok v)
          end
      end
  end.

(** ** What a failed read says about a replica *)

Definition confirmMissing (m : member) (r : replicaRow) : M W unit :=
  let- st := call (b_Stat m (remoteID r)) in
  match st with
  | Ok _ => ret tt
  | Err e =>
      if errors_Is e PErrNotFound
      then execIndex (update_replicas (fun x => bool_decide (rp_path x = rp_path r /\ rp_member x = rp_member r))
                        (fun x => x <| rp_state := "missing" |>))
      else if unreachable (Some e) then note m (Some e) else ret tt
  end.

Definition no_replica : gerr := wrap "no replica" (sent PErrNotFound).
Definition all_gone : gerr := wrap "every replica is gone" (sent PErrNotFound).
Definition unavailable : gerr := wrap "unavailable" (sent PErrUnavailable).
Definition is_down (m : member) : gerr := Gerr (KText (m_name m)) [].

(** ** One ordered stream (read_fanout off) *)

Section Ordered.
(** One read of a replica: its result, the bytes it covered, and how long it
    took. *)
Context {A : Type} (act : member -> replicaRow -> M W (res gerr (A * Z))).

Fixpoint try_each (reps : list replicaRow) (lastUnreachable : option gerr) : M W (res gerr A) :=
  match reps with
  | [] => ret (Err match lastUnreachable with Some _ => unavailable | None => all_gone end)
  | r :: rest =>
      match byName (rp_member r) with
      | None => try_each rest lastUnreachable
      | Some m =>
          let- u := reads (usable m (ProbeInterval settings)) in
          if negb u then try_each rest (Some (is_down m))
          else
            let- start := reads (fun s => wall (world s)) in
            let- out := act m r in
            match out with
            | Ok (a, n) =>
                do- note m None;
                let- stop := reads (fun s => wall (world s)) in
                do- noteLatency m (stop - start) n;
                ret (Ok a)
            | Err e =>
                let- cerr := reads (fun s => ctx_Err (world s)) in
                match cerr with
                | Some _ => ret (Err e)
                | None =>
                    if errors_Is e PErrUnsupported then ret (Err e)
                    else if unreachable (Some e) then do- note m (Some e); try_each rest (Some e)
                    else if errors_Is e PErrNotFound then
                      do- note m None; do- confirmMissing m r; try_each rest lastUnreachable
                    else do- note m None; ret (Err e)
                end
            end
      end
  end.
Definition tryReplicas (reps : list replicaRow) : M W (res gerr A) :=
  if decide (reps = []) then ret (Err no_replica) else try_each reps None.
End Ordered.

(** ** Picking a replica *)

Record candidate := MkCandidate { c_m : member; c_r : replicaRow; c_degraded : bool }.

Definition limitsStreams (m : member) : bool := bool_decide (readFanout = fanoutAuto) && m_unofficial m.
Definition stream_count (s : pst W) (m : member) (r : replicaRow) : Z :=
  default 0 (streams s !! (m_name m, rp_path r)).

Definition streamFree (s : pst W) (cands : list candidate) : list candidate :=
  filter (fun c => limitsStreams (c_m c) = false \/ stream_count s (c_m c) (c_r c) = 0) cands.

Definition keepIf {A} (ok : A -> bool) (l : list A) : list A :=
  match filter (fun a => ok a = true) l with [] => l | k => k end.

(** *** choose *)

Definition lat_of (s : pst W) (c : candidate) : float :=
  let r := mrt_of s (c_m c) in if measured r then latency r else f0.
Definition fastest_of (s : pst W) (cands : list candidate) : float :=
  foldl (fun f c => let l := lat_of s c in if flt f0 l && (feq f f0 || flt l f) then l else f) f0 cands.
Definition load_of (s : pst W) (c : candidate) : float :=
  fdiv (f64 (inflight (mrt_of s (c_m c)))) (f64 (m_maxInflight (c_m c))).
Definition score_of (s : pst W) (fastest : float) (c : candidate) : float :=
  let l := lat_of s c in
  let rel := if flt f0 l && flt f0 fastest then fdiv l fastest else f1 in
  let sc := fadd (load_of s c) rel in
  if c_degraded c then fadd sc f1 else sc.
(** math.Min *)
Definition fnan (a : float) : bool := match a with S754_nan => true | _ => false end.
Definition fmin (a b : float) : float :=
  if fnan a then a else if fnan b then b else if flt b a then b else a.
Definition finf : float := S754_infinity false.

Definition lessBusy (s : pst W) (a b : candidate) : bool :=
  if negb (feq (load_of s a) (load_of s b)) then flt (load_of s a) (load_of s b)
  else
    let sa := served (mrt_of s (c_m a)) in
    let sb := served (mrt_of s (c_m b)) in
    if decide (sa <> sb) then bool_decide (sa < sb) else bool_decide (m_order (c_m a) < m_order (c_m b)).

Definition choose (s : pst W) (cands : list candidate) : option candidate :=
  let fastest := fastest_of s cands in
  let best := foldl (fun b c => fmin b (score_of s fastest c)) finf cands in
  foldl (fun pick c =>
    if flt (fadd best f02) (score_of s fastest c) then pick
    else match pick with
         | None => Some c
         | Some p => if lessBusy s c p then Some c else pick
         end) None cands.

(** *** One look at the candidates *)

Inductive picked := Picked (c : candidate) | WaitFor (pth : string) | NoHolder.

Definition healthy_of (s : pst W) (reps : list replicaRow) : list candidate :=
  omap (fun r => m ← byName (rp_member r);
    if Usable (snapshot m s) then Some (MkCandidate m r (bool_decide (state_of m s = HealthDegraded))) else None) reps.
Definition probing_of (s : pst W) (reps : list replicaRow) : list candidate :=
  omap (fun r => m ← byName (rp_member r);
    if Usable (snapshot m s) then None
    else if usable m (ProbeInterval settings) s then Some (MkCandidate m r false) else None) reps.

Definition pick_look (s : pst W) (reps : list replicaRow) : picked :=
  let healthy := healthy_of s reps in
  let probing := probing_of s reps in
  let usable_n := (length healthy + length probing)%nat in
  let final (cands : list candidate) :=
    match choose s (keepIf (fun c => bool_decide (inflight (mrt_of s (c_m c)) < m_maxInflight (c_m c))) cands) with
    | Some c => Picked c
    | None => NoHolder
    end in
  if decide (usable_n = 0)%nat then NoHolder
  else if decide (1 < usable_n)%nat then
    let fr := match streamFree s healthy with [] => streamFree s probing | l => l end in
    match fr with
    | [] => WaitFor (match reps with r :: _ => rp_path r | [] => "" end)
    | _ => final fr
    end
  else final (match healthy with [] => probing | l => l end).

(** The channel closed when a stream of the file ends, shared by every pick that
    waits for one. *)
Definition streamWaitLocked (pth : string) : M W nat := fun s =>
  match streamWake s !! pth with
  | Some ch => (ch, s)
  | None => (nextChan s, s <| streamWake ::= <[pth := nextChan s]> |> <| nextChan ::= S |>)
  end.

Inductive answered := Answer (c : candidate) | Wait (ch : nat) | Nothing.
Definition pickLocked (reps : list replicaRow) : M W answered := fun s =>
  match pick_look s reps with
  | Picked c => (Answer c, s)
  | WaitFor pth => let '(ch, s') := streamWaitLocked pth s in (Wait ch, s')
  | NoHolder => (Nothing, s)
  end.

(** The reservation a pick makes, and its return, which wakes whoever waits for
    a stream of the file. *)
Definition reserve (c : candidate) (s : pst W) : pst W :=
  let s := upd_mrt (c_m c) (fun r => r <| inflight ::= Z.add 1 |>) s in
  if limitsStreams (c_m c)
  then s <| streams ::= <[(m_name (c_m c), rp_path (c_r c)) := stream_count s (c_m c) (c_r c) + 1]> |>
  else s.

Definition release (m : member) (r : replicaRow) (s : pst W) : pst W :=
  let s := upd_mrt m (fun x => x <| inflight ::= fun n => n - 1 |>) s in
  if limitsStreams m
  then
    let s := if decide (stream_count s m r <= 1) then s <| streams ::= delete (m_name m, rp_path r) |>
             else s <| streams ::= <[(m_name m, rp_path r) := stream_count s m r - 1]> |> in
    match streamWake s !! rp_path r with
    | Some ch => s <| closedChans ::= union {[ch]} |> <| streamWake ::= delete (rp_path r) |>
    | None => s
    end
  else s.

(** lease.done: [ok] is the bytes delivered and the time taken. *)
Definition lease_done (m : member) (r : replicaRow) (ok : option (Z * Z)) : M W unit :=
  do- modify (release m r);
  match ok with
  | None => ret tt
  | Some (n, d) =>
      do- modify (upd_mrt m (fun x => x <| served ::= Z.add n |>));
      noteLatency m d n
  end.

Definition dropMember (reps : list replicaRow) (n : string) : list replicaRow :=
  filter (fun r => rp_member r <> n) reps.

Section FanOut.
(** One read of a reserved replica; on success it has returned the reservation
    or handed it on.  [others] is what other readers do while a pick waits, and
    [woken] which case select takes when both are ready. *)
Context {A : Type} (act : member -> replicaRow -> M W (res gerr A)) (others : pst W -> pst W) (woken : pst W -> bool).

(** The select of pickReplica: [Some None] is a closed channel, [None] still
    waiting when the fuel ran out. *)
Fixpoint await_wake (fuel : nat) (ch : nat) : M W (option (option gerr)) := fun s =>
  let closed := bool_decide (ch ∈ closedChans s) in
  match ctx_Err (world s) with
  | Some e => if closed && woken s then (Some None, s) else (Some (Some e), s)
  | None =>
      if closed then (Some None, s)
      else match fuel with O => (None, s) | S fuel' => await_wake fuel' ch (others s) end
  end.

(** [None]: still waiting when the fuel ran out. *)
Fixpoint pickReplica (fuel : nat) (reps : list replicaRow) : M W (option (res gerr (option candidate))) :=
  match fuel with
  | O => ret None
  | S fuel' =>
      let- p := pickLocked reps in
      match p with
      | Answer c => do- modify (reserve c); ret (Some (Ok (Some c)))
      | Nothing => ret (Some (Ok None))
      | Wait ch =>
          let- w := await_wake fuel ch in
          match w with
          | None => ret None
          | Some (Some e) => ret (Some (Err e))
          | Some None => pickReplica fuel' reps
          end
      end
  end.

Definition nobody_left (reps : list replicaRow) (lastUnreachable : option gerr) : gerr :=
  if bool_decide (lastUnreachable <> None) || existsb (fun r => bool_decide (is_Some (byName (rp_member r)))) reps
  then unavailable else all_gone.

Fixpoint fan_out (waits : nat) (fuel : nat) (reps : list replicaRow) (lastUnreachable : option gerr) : M W (option (res gerr A)) :=
  match fuel with
  | O => ret None
  | S fuel' =>
      let- p := pickReplica waits reps in
      match p with
      | None => ret None
      | Some (Err e) => ret (Some (Err e))
      | Some (Ok None) => ret (Some (Err (nobody_left reps lastUnreachable)))
      | Some (Ok (Some c)) =>
          let rest := dropMember reps (rp_member (c_r c)) in
          let m := c_m c in
          let- out := act m (c_r c) in
          match out with
          | Ok a => do- note m None; ret (Some (Ok a))
          | Err e =>
              do- lease_done m (c_r c) None;
              let- cerr := reads (fun s => ctx_Err (world s)) in
              match cerr with
              | Some _ => ret (Some (Err e))
              | None =>
                  if errors_Is e PErrUnsupported then ret (Some (Err e))
                  else if unreachable (Some e) then do- note m (Some e); fan_out waits fuel' rest (Some e)
                  else if errors_Is e PErrNotFound then
                    do- note m None; do- confirmMissing m (c_r c); fan_out waits fuel' rest lastUnreachable
                  else do- note m None; ret (Some (Err e))
              end
          end
      end
  end.
Definition fanOut (waits : nat) (reps : list replicaRow) : M W (option (res gerr A)) :=
  if decide (reps = []) then ret (Some (Err no_replica)) else fan_out waits (S (length reps)) reps None.
End FanOut.
End Read.
