(* ===== verification/PoolWrite.v ===== *)
(** * Writing through a pool (write.go)

    Uploads, which land on one member and are committed to the index, and tree
    operations, which go to every member that has the object, with a pending
    operation for each member that could not take part. *)
From S2P Require Import Prelude Filepath GoLib SqlText Retry Health PoolState PoolMember PoolPlacement PoolIndex PoolList PoolRepair.
From stdpp Require Import pretty.
From Stdlib Require Import Ascii.
Open Scope Z_scope.

(** ** Sessions *)

Definition sessMember : string := "pool.member".
Definition sessPath : string := "pool.path".
Definition sessHold : string := "pool.hold".
Definition memberPrefix : string := "m.".
Definition memberID : string := "m.id".
Definition memberParts : string := "m.part_size".

(** strconv.ParseInt of a decimal, as far as strconv.FormatInt's output goes:
    anything else is 0. *)
Definition digit_of (c : ascii) : option Z :=
  let d := Z.of_nat (nat_of_ascii c) - 48 in if decide (0 <= d < 10) then Some d else None.
Fixpoint parse_digits (s : string) (acc : Z) : option Z :=
  match s with
  | EmptyString => Some acc
  | String c s' => d ← digit_of c; parse_digits s' (10 * acc + d)
  end.
Definition ParseInt (s : string) : Z :=
  default 0 match s with
            | EmptyString => None
            | String c s' => if decide (c = "-"%char /\ s' <> "") then Z.opp <$> parse_digits s' 0 else parse_digits s 0
            end.

(** The backend's own entries, under a prefix: they replace what is there. *)
Definition pack_opaque (base own : gmap string string) : gmap string string :=
  kmap (fun k => memberPrefix +:+ k) own ∪ base.

Section Write.
Context {W : Type} {E : Env W} {P : Pool}.

Definition packSession (m : member) (pth hold : string) (ms : UploadSession) : M W UploadSession :=
  let opaque := pack_opaque
    (<[memberParts := pretty (ses_PartSize ms)]> (<[memberID := ses_ID ms]> (<[sessHold := hold]>
       (<[sessPath := pth]> {[sessMember := m_name m]})))) (Opaque ms) in
  let- id := call newID in
  ret (MkSession ("ps-" +:+ trimPrefix id idPrefix) (ses_PartSize ms) false None opaque).

Definition field (o : gmap string string) (k : string) : string := default "" (o !! k).
Definition own_key (k : string) : bool :=
  hasPrefix k memberPrefix && bool_decide (k <> memberID /\ k <> memberParts).
Definition unpackSession (s : UploadSession) : res gerr (member * string * string * UploadSession) :=
  let o := Opaque s in
  match byName (field o sessMember) with
  | None => Err (wrap "upload session" (sent PErrNotFound))
  | Some m =>
      let own := list_to_map (map (fun kv => (trimPrefix (fst kv) memberPrefix, snd kv))
                   (filter (fun kv => own_key (fst kv) = true) (map_to_list o))) in
      Ok (m, field o sessPath, field o sessHold,
          MkSession (field o memberID) (ParseInt (field o memberParts)) false None own)
  end.

Definition validName (name : string) : option gerr :=
  if bool_decide (name = "" \/ name = "." \/ name = "..") || hidden name || slash_or_nul name
  then Some (wrap "name" (sent PErrUnsupported)) else None.

(** ** Committing an upload *)

Definition content_token (me : Entry) : string :=
  let '(ht, hv) := bestHash (e_Hashes me) in
  if decide (ht <> "") then hashToken ht hv else timeToken (e_Size me) (e_ModTime me).

Definition stale_others (pth mname ctoken : string) : index -> index :=
  update_replicas (fun r => bool_decide (rp_path r = pth /\ rp_member r <> mname /\ rp_ctoken r <> ctoken))
    (fun r => r <| rp_state := "stale" |>).

Definition enqueue_upload (pth hold : string) (t : Z) (i : index) : index :=
  i <| repair_queue ::= partial_alter (fun q => Some match q with
         | Some q => (((q <| rq_reason := "under-replicated" |>) <| rq_nextAt := 0 |>) <| rq_attempts := 0 |>) <| rq_hint := hold |>
         | None => MkRepairRow "under-replicated" 1 0 0 hold t
         end) pth |>.

Definition commit_upload (m : member) (pth : string) (me : Entry) (hold ctoken : string) (t : Z) (i : index) : index :=
  let '(ht, hv) := bestHash (e_Hashes me) in
  let parent := parentOf pth in
  let i := upsertEntry pth (MkEntryRow parent KindFile (e_Size me) (UnixNano (e_ModTime me)) ctoken ht hv "" t) t i in
  let i := upsertReplica pth parent (m_name m) me ctoken "live" t i in
  let i := stale_others pth (m_name m) ctoken i in
  let i := if decide (hold <> "") then setHoldToken hold ctoken i else i in
  if decide (1 < wantReplicas pth) then enqueue_upload pth hold t i else i.

Definition finishUpload (m : member) (pth : string) (me : Entry) (hold : string) : M W (res gerr Entry) :=
  let '(ht, hv) := bestHash (e_Hashes me) in
  let ctoken := content_token me in
  let- t := reads (fun s => UnixNano (now (world s))) in
  let- r := tx (
    let- id := idForTx pth in
    match id with
    | Err e => ret (Err e)
    | Ok id =>
        let- pid := idForTx (parentOf pth) in
        match pid with
        | Err e => ret (Err e)
        | Ok pid => do- exec (commit_upload m pth me hold ctoken t); ret (Ok (id, pid))
        end
    end) in
  match r with
  | Err e => ret (Err e)
  | Ok (id, pid) =>
      do- (if decide (wantReplicas pth <= 1 /\ hold <> "") then releaseHolds pth else ret tt);
      ret (Ok (MkEntry id pid (Filepath.Base pth) KindFile (e_Size me) (e_ModTime me) ctoken (hash_map ht hv)))
  end.

(** ** write_mode: strict

    [passes] is how often the loop gets round before min_replicas_timeout. *)
Definition WriteModeStrict : string := "strict".
Definition WriteModeRelaxed : string := "relaxed".
Definition writeMode : string := if decide (WriteMode settings = WriteModeStrict) then WriteModeStrict else WriteModeRelaxed.

Fixpoint await_loop (passes : nat) (pth : string) (min : Z) : M W unit :=
  match passes with
  | O => ret tt
  | S passes' =>
      let- cerr := reads (fun s => ctx_Err (world s)) in
      match cerr with
      | Some _ => ret tt
      | None =>
          let- row := reads (fun s => entryAt pth (idx s)) in
          match row with
          | None => ret tt
          | Some row =>
              let- live := reads (fun s => count (liveReplicas pth (en_ctoken row) s)) in
              let- (target, capped) := reads (targetFor pth) in
              if bool_decide (min <= live) || (capped && bool_decide (target <= live)) then ret tt
              else
                let- (_, err) := repairPath pth in
                let- cerr := reads (fun s => ctx_Err (world s)) in
                match err, cerr with
                | Some _, Some _ => ret tt
                | _, _ => await_loop passes' pth min
                end
          end
      end
  end.
Definition awaitMinReplicas (passes : nat) (pth : string) : M W unit :=
  if decide (writeMode <> WriteModeStrict) then ret tt
  else
    let min := minReplicas pth in
    if decide (min <= 1) then ret tt else await_loop passes pth min.

(** ** BeginUpload *)

Record begin_acc := MkBegin { ba_unreach : option gerr; ba_refusal : option gerr; ba_full : option gerr }.

(** The members in the order of placement; [None]: none took the upload. *)
Fixpoint begin_on (link : option (string -> POp W unit)) (passes : nat) (parentPath name pth : string) (size : Z) (h : Hashes)
  (ms : list member) (acc : begin_acc) : M W (option (res gerr UploadSession) * begin_acc) :=
  match ms with
  | [] => ret (None, acc)
  | m :: rest =>
      let next acc := begin_on link passes parentPath name pth size h rest acc in
      let- d := ensureDir m parentPath in
      match d with
      | Err e => if unreachable (Some e) then next (MkBegin (Some e) (ba_refusal acc) (ba_full acc))
                 else ret (Some (Err e), acc)
      | Ok dirid =>
          let- r := call (b_BeginUpload m dirid name size h) in
          match r with
          | Err e =>
              if outOfSpace (Some e) then
                do- note m None; do- markFull m; next (MkBegin (ba_unreach acc) (ba_refusal acc) (Some e))
              else if unreachable (Some e) then
                do- note m (Some e); next (MkBegin (Some e) (ba_refusal acc) (ba_full acc))
              else if refusedName (Some e) then
                do- note m None; do- learnDenial m name; next (MkBegin (ba_unreach acc) (Some e) (ba_full acc))
              else ret (Some (Err e), acc)
          | Ok ms =>
              do- note m None;
              let- hold := takeHold link pth size in
              let hold := default "" hold in
              match (if RapidDone ms then ses_Entry ms else None) with
              | Some me =>
                  let- r := finishUpload m pth me hold in
                  match r with
                  | Err e => ret (Some (Err e), acc)
                  | Ok e =>
                      do- awaitMinReplicas passes pth;
                      ret (Some (Ok (MkSession ("rapid-" +:+ e_ID e) 0 true (Some e) ∅)), acc)
                  end
              | None => let- s := packSession m pth hold ms in ret (Some (Ok s), acc)
              end
          end
      end
  end.

(** The first refusal by name, and how many members are in service. *)
Fixpoint why_each (parent name : string) (ms : list member) (n : Z) (first : option gerr) : M W (Z * option gerr) :=
  match ms with
  | [] => ret (n, first)
  | m :: rest =>
      let- out := reads (fun s => bool_decide (state_of m s = HealthDraining \/ state_of m s = HealthDisabled)
                                  || negb (usable m (ProbeInterval settings) s)) in
      if (out : bool) then why_each parent name rest n first
      else
        let- e := canHold m parent name in
        why_each parent name rest (n + 1) (match first with None => e | Some _ => first end)
  end.
Definition whyNoMember (pth : string) : M W (option gerr) :=
  let- (n, first) := why_each (parentOf pth) (lastSegment pth) members 0 None in
  ret (if decide (0 < n) then wrap "no member can hold it" <$> first else None).

Definition no_room : gerr := wrap "no member has room" (sent PErrQuotaExceeded).
Definition no_taker : gerr := wrap "no member can take it" (sent PErrUnavailable).

Definition BeginUpload (link : option (string -> POp W unit)) (passes : nat) (parentID name : string) (size : Z) (h : Hashes)
  : M W (res gerr UploadSession) :=
  match validName name with
  | Some e => ret (Err e)
  | None =>
      let- p := pathOf parentID in
      match p with
      | Err e => ret (Err e)
      | Ok parentPath =>
          let pth := joinPath parentPath name in
          let- cs := candidates pth in
          let- (r, acc) := begin_on link passes parentPath name pth size h cs (MkBegin None None None) in
          match r with
          | Some r => ret r
          | None =>
              match ba_full acc, ba_unreach acc, ba_refusal acc with
              | Some _, _, _ => ret (Err no_room)
              | None, Some _, _ => ret (Err no_taker)
              | None, None, Some e => ret (Err e)
              | None, None, None =>
                  let- cs := candidates pth in
                  let- why := (if decide (cs = []) then whyNoMember pth else ret None) in
                  ret (Err (default no_taker why))
              end
          end
      end
  end.

(** ** Parts and completion *)

Definition restart_upload (e : gerr) : gerr := Gerr (KText "restart") [sent PErrRestartUpload; e].

Definition UploadPart (s : UploadSession) (i n : Z) : M W (res gerr PartToken) :=
  match unpackSession s with
  | Err e => ret (Err e)
  | Ok (m, _, _, ms) =>
      let- (r, _) := call (b_UploadPart m ms i SrcCaller 0 n) in
      if outOfSpace (err_of r) then
        do- note m None; do- markFull m;
        ret match r with Err e => Err (restart_upload e) | Ok pt => Ok pt end
      else do- note m (err_of r); ret r
  end.

Definition CompleteUpload (passes : nat) (s : UploadSession) (parts : list PartToken) : M W (res gerr Entry) :=
  match unpackSession s with
  | Err e => ret (Err e)
  | Ok (m, pth, hold, ms) =>
      let- r := call (b_CompleteUpload m ms parts) in
      match r with
      | Err e =>
          if outOfSpace (Some e) then do- note m None; do- markFull m; ret (Err (restart_upload e))
          else do- note m (Some e); ret (Err e)
      | Ok me =>
          do- note m None;
          let- r := finishUpload m pth me hold in
          match r with
          | Err e => ret (Err e)
          | Ok e => do- awaitMinReplicas passes pth; ret (Ok e)
          end
      end
  end.
End Write.
