(* ===== verification/PoolTree.v ===== *)
(** * Tree operations of a pool (write.go: fanout to Delete)

    A directory made, an object renamed, moved or deleted: the call goes to each
    member that has the object, members that could not take part are owed a
    pending operation, and the index follows once one member took it.  Targets
    are taken in the order the members are declared in. *)
From S2P Require Import Prelude Filepath GoLib SqlText Retry Health PoolState PoolMember PoolPlacement PoolIndex PoolList PoolRepair PoolWrite.
Open Scope Z_scope.

Record target := MkTarget { tg_m : member; tg_id : string }.

Section Tree.
Context {W : Type} {E : Env W} {P : Pool}.

(** ** Pending operations *)

Definition add_op (m : member) (op pth : string) (args : gmap string string) (t : Z) (i : index) : index :=
  let n := last_seq i + 1 in
  (i <| pending_ops ::= fun l => l ++ [MkOpRow n (m_name m) op pth (parentOf pth) args 0 0 "" "pending" t] |>)
     <| last_seq := n |>.
Definition pendingOp (m : member) (op pth : string) (args : gmap string string) (t : Z) : M W unit :=
  exec (add_op m op pth args t).

(** recordDivergence in a transaction of its own. *)
Definition divergence (pth mname kind detail : string) (t : Z) : M W (res gerr unit) :=
  tx (do- exec (recordDivergence pth mname kind detail t); ret (Ok tt)).

(** ** One operation on several members *)

Record fan_acc := MkFan { fa_ok : Z; fa_err : option gerr; fa_unreach : option gerr }.

Section Fanout.
(** The call made on one member. *)
Context {A : Type} (op pth : string) (args : gmap string string) (act : target -> M W (res gerr A)).

(** What became of it, and what the member answered if it did take it. *)
Definition fan_one (t : Z) (tg : target) (acc : fan_acc) : M W (fan_acc * option A) :=
  let m := tg_m tg in
  let- u := reads (usable m (ProbeInterval settings)) in
  if negb u then
    do- pendingOp m op pth args t;
    ret (MkFan (fa_ok acc) (fa_err acc) (Some (Gerr (KText (m_name m)) [])), None)
  else
    let- r := act tg in
    match r with
    | Ok a => do- note m None; ret (MkFan (fa_ok acc + 1) (fa_err acc) (fa_unreach acc), Some a)
    | Err e =>
        if errors_Is e PErrNotFound then do- note m None; ret (MkFan (fa_ok acc + 1) (fa_err acc) (fa_unreach acc), None)
        else if unreachable (Some e) then
          do- note m (Some e);
          do- pendingOp m op pth args t;
          ret (MkFan (fa_ok acc) (fa_err acc) (Some e), None)
        else
          do- note m None;
          do- divergence pth (m_name m) ("refused-" +:+ op) (errText e) t;
          do- pendingOp m op pth args t;
          ret (MkFan (fa_ok acc) (Some e) (fa_unreach acc), None)
    end.
(** [took]: the members that took it, with their answers. *)
Fixpoint fan_all (t : Z) (tgs : list target) (acc : fan_acc) (took : gmap string A) : M W (fan_acc * gmap string A) :=
  match tgs with
  | [] => ret (acc, took)
  | tg :: rest =>
      let- (acc, a) := fan_one t tg acc in
      fan_all t rest acc match a with Some a => <[m_name (tg_m tg) := a]> took | None => took end
  end.
Definition fan_verdict (acc : fan_acc) : Z * option gerr :=
  if decide (0 < fa_ok acc) then (fa_ok acc, None)
  else match fa_err acc, fa_unreach acc with
       | Some e, _ => (0, Some e)
       | None, Some _ => (0, Some (wrap op (sent PErrUnavailable)))
       | None, None => (0, None)
       end.
Definition fanout (tgs : list target) : M W (Z * option gerr * gmap string A) :=
  let- t := reads (fun s => UnixNano (now (world s))) in
  let- (acc, took) := fan_all t tgs (MkFan 0 None None) ∅ in
  ret (fan_verdict acc, took).
End Fanout.

Definition fileTargets (pth : string) (i : index) : list target :=
  omap (fun m => (fun r => MkTarget m (remoteID r)) <$> replicas i !! (pth, m_name m)) members.
Definition dirTargets (pth : string) (i : index) : list target :=
  omap (fun m => (fun d => MkTarget m (d_remoteID d)) <$> member_dirs i !! (m_name m, pth)) members.

Definition entryTargets (pth : string) : M W (res gerr (entryRow * list target)) :=
  let targets (row : entryRow) (i : index) :=
    match en_kind row with KindDir => dirTargets pth i | KindFile => fileTargets pth i end in
  let- row := reads (fun s => entryAt pth (idx s)) in
  match row with
  | Some row => reads (fun s => Ok (row, targets row (idx s)))
  | None =>
      let- l := listDir (parentOf pth) in
      match l with
      | Err e => ret (Err e)
      | Ok _ => reads (fun s => match entryAt pth (idx s) with
                                | Some row => Ok (row, targets row (idx s))
                                | None => Err (wrap "no entry" (sent PErrNotFound))
                                end)
      end
  end.

(** ** Mkdir *)

Fixpoint mkdir_targets (parentPath pth : string) (args : gmap string string) (ms : list member)
  (tgs : list target) (unreach : option gerr) : M W (list target * option gerr) :=
  match ms with
  | [] => ret (tgs, unreach)
  | m :: rest =>
      let owe e :=
        let- t := reads (fun s => UnixNano (now (world s))) in
        do- pendingOp m "mkdir" pth args t; mkdir_targets parentPath pth args rest tgs (Some e) in
      let- u := reads (usable m (ProbeInterval settings)) in
      if negb u then owe (Gerr (KText (m_name m)) [])
      else
        let- r := dirID m parentPath in
        match r with
        | Ok id => mkdir_targets parentPath pth args rest (tgs ++ [MkTarget m id]) unreach
        | Err e => if unreachable (Some e) then owe e else mkdir_targets parentPath pth args rest tgs unreach
        end
  end.

Definition mkdir_on (pth name : string) (tg : target) : M W (res gerr unit) :=
  let m := tg_m tg in
  let- r := call (b_Mkdir m (tg_id tg) name) in
  match r with
  | Ok e => do- rememberDirID m pth (e_ID e); ret (Ok tt)
  | Err e =>
      if errors_Is e PErrExists then
        let- f := findDir m (tg_id tg) pth in
        match f with
        | Err _ => ret (Err e)
        | Ok id => do- rememberDirID m pth id; ret (Ok tt)
        end
      else ret (Err e)
  end.

Definition Mkdir (parentID name : string) : M W (res gerr Entry) :=
  match validName name with
  | Some e => ret (Err e)
  | None =>
      let- p := pathOf parentID in
      match p with
      | Err e => ret (Err e)
      | Ok parentPath =>
          let pth := joinPath parentPath name in
          let- there := reads (fun s => bool_decide (is_Some (entryAt pth (idx s)))) in
          if (there : bool) then ret (Err (wrap "mkdir" (sent PErrExists)))
          else
            let- did := idFor pth in
            match did with
            | Err e => ret (Err e)
            | Ok did =>
                let args := {["id" := did]} in
                let- (tgs, unreach) := mkdir_targets parentPath pth args members [] None in
                match tgs, unreach with
                | [], Some _ => ret (Err (wrap "mkdir" (sent PErrUnavailable)))
                | [], None => ret (Err (wrap "parent" (sent PErrNotFound)))
                | _, _ =>
                    let- (ok, err, _) := fanout "mkdir" pth args (mkdir_on pth name) tgs in
                    match err with
                    | Some e => ret (Err e)
                    | None =>
                        if decide (ok = 0) then ret (Err (wrap "mkdir" (sent PErrUnavailable)))
                        else
                          let- r := tx (
                            let- id := idForTx pth in
                            match id with
                            | Err e => ret (Err e)
                            | Ok id =>
                                let- pid := idForTx parentPath in
                                match pid with
                                | Err e => ret (Err e)
                                | Ok pid =>
                                    let- t := reads (fun s => UnixNano (now (world s))) in
                                    do- exec (upsertEntry pth (MkEntryRow parentPath KindDir 0 t (dirToken id) "" "" "" t) t);
                                    ret (Ok (id, pid))
                                end
                            end) in
                          match r with
                          | Err e => ret (Err e)
                          | Ok (id, pid) =>
                              reads (fun s => Ok (MkEntry id pid name KindDir 0 (now (world s)) (dirToken id) ∅))
                          end
                    end
                end
            end
      end
  end.

(** ** Rename and Move *)

Definition forget_dirs_below (pth : string) : M W unit :=
  modify (fun s => foldl (fun s m => upd_mrt m (fun r => r <| dirIDs ::=
    filter (fun kv => fst kv <> pth /\ hasPrefix (fst kv) (pth +:+ "/") = false) |>) s) s members).

(** Rows of members that did not apply the operation wait for them. *)
Definition not_conflict (i : index) (r : replicaRow) : bool :=
  negb match entries i !! rp_path r with Some e => bool_decide (en_conflictOf e <> "") | None => false end.
Definition mark_owed (newPath : string) (m : member) (i : index) : index :=
  update_replicas (fun r => bool_decide (rp_member r = m_name m) && subtree newPath (rp_path r) &&
                            bool_decide (rp_state r = "live") && not_conflict i r)
    (fun r => r <| rp_state := "pending" |>) i.
Definition set_applied (newPath : string) (kind : Kind) (t : Z) (i : index) (ne : string * Entry) : index :=
  let '(n, e) := ne in
  match kind with
  | KindDir => i <| member_dirs ::= alter (fun d => (d <| d_remoteID := e_ID e |>) <| d_verifiedAt := t |>) (n, newPath) |>
  | KindFile => update_replicas (fun r => bool_decide (rp_member r = n /\ rp_path r = newPath))
                  (fun r => ((r <| remoteID := e_ID e |>) <| memberName := e_Name e |>) <| seenAt := t |>) i
  end.
Definition drop_ids (pth : string) (i : index) : index :=
  i <| ids ::= filter (fun kv => subtree pth (fst kv) = false) |>.

(** The statements of relocate's transaction after the ids. *)
Definition relocated (kind : Kind) (oldPath newPath : string) (applied : gmap string Entry) (t : Z) (i : index) : option index :=
  i ← movePaths oldPath newPath (drop_ids newPath (dropSubtree newPath i));
  let i := foldl (fun i m => if decide (is_Some (applied !! m_name m)) then i else mark_owed newPath m i) i members in
  Some (foldl (set_applied newPath kind t) i (map_to_list applied)).

Definition unique_error : gerr := Gerr (KText "UNIQUE constraint failed") [].

Definition relocate (row : entryRow) (oldPath newPath : string) (applied : gmap string Entry) : M W (res gerr Entry) :=
  let- t := reads (fun s => UnixNano (now (world s))) in
  let- r := tx (
    let- id := idForTx oldPath in
    match id with
    | Err e => ret (Err e)
    | Ok id =>
        let- pid := idForTx (parentOf newPath) in
        match pid with
        | Err e => ret (Err e)
        | Ok pid =>
            let- i := reads (fun s => relocated (en_kind row) oldPath newPath applied t (idx s)) in
            match i with
            | None => ret (Err unique_error)
            | Some i =>
                do- exec (fun _ => i);
                do- (if decide (en_kind row = KindDir)
                     then modify (fun s => foldl (fun s m => if decide (is_Some (applied !! m_name m))
                                                             then upd_mrt m (fun r => r <| dirIDs := ∅ |>) s else s) s members)
                     else ret tt);
                ret (Ok (id, pid))
            end
        end
    end) in
  match r with
  | Err e => ret (Err e)
  | Ok (id, pid) =>
      do- (if decide (en_kind row = KindDir) then forget_dirs_below oldPath else ret tt);
      ret (Ok (match en_kind row with
               | KindDir => MkEntry id pid (Filepath.Base newPath) KindDir (en_size row) zero_time (dirToken id) ∅
               | KindFile => MkEntry id pid (Filepath.Base newPath) KindFile (en_size row) zero_time (en_ctoken row)
                               (hash_map (en_hashType row) (en_hash row))
               end))
  end.

Definition relocate_everywhere (op id pth newPath : string) (act : target -> M W (res gerr Entry)) : M W (res gerr Entry) :=
  let- et := entryTargets pth in
  match et with
  | Err e => ret (Err e)
  | Ok (row, tgs) =>
      let args : gmap string string := <["id" := id]> (<["from" := pth]> (<["to" := newPath]> {["ctoken" := en_ctoken row]})) in
      let- (ok, err, applied) := fanout op pth args act tgs in
      match err with
      | Some e => ret (Err e)
      | None => if decide (ok = 0 /\ tgs <> []) then ret (Err (wrap op (sent PErrUnavailable)))
                else relocate row pth newPath applied
      end
  end.

Definition Rename (id newName : string) : M W (res gerr Entry) :=
  match validName newName with
  | Some e => ret (Err e)
  | None =>
      let- p := pathOf id in
      match p with
      | Err e => ret (Err e)
      | Ok pth =>
          if decide (pth = "/") then ret (Err (sent PErrUnsupported))
          else relocate_everywhere "rename" id pth (joinPath (parentOf pth) newName)
                 (fun tg => call (b_Rename (tg_m tg) (tg_id tg) newName))
      end
  end.

Definition Move (id newParentID : string) : M W (res gerr Entry) :=
  let- p := pathOf id in
  match p with
  | Err e => ret (Err e)
  | Ok pth =>
      if decide (pth = "/") then ret (Err (sent PErrUnsupported))
      else
        let- np := pathOf newParentID in
        match np with
        | Err e => ret (Err e)
        | Ok newParent =>
            if bool_decide (newParent = pth) || hasPrefix newParent (pth +:+ "/")
            then ret (Err (wrap "cannot move into itself" (sent PErrUnsupported)))
            else relocate_everywhere "move" id pth (joinPath newParent (Filepath.Base pth))
                   (fun tg => let- d := ensureDir (tg_m tg) newParent in
                              match d with
                              | Err e => ret (Err e)
                              | Ok dst => call (b_Move (tg_m tg) (tg_id tg) dst)
                              end)
        end
  end.

(** ** Delete *)

Definition Delete (id : string) : M W (res gerr unit) :=
  let- p := pathOf id in
  match p with
  | Err e => ret (Err e)
  | Ok pth =>
      if decide (pth = "/") then ret (Err (sent PErrUnsupported))
      else
        let- et := entryTargets pth in
        match et with
        | Err e => ret (Err e)
        | Ok (row, tgs) =>
            let- (ok, err, _) := fanout "delete" pth {["ctoken" := en_ctoken row]}
                                   (fun tg => call (b_Delete (tg_m tg) (tg_id tg))) tgs in
            match err with
            | Some e => ret (Err e)
            | None =>
                if decide (ok = 0 /\ tgs <> []) then ret (Err (wrap "delete" (sent PErrUnavailable)))
                else
                  do- releaseHolds pth;
                  do- forget_dirs_below pth;
                  tx (do- exec (fun i => dropSubtree pth
                        (i <| repair_queue ::= filter (fun kq => subtree pth (fst kq) = false) |>)); ret (Ok tt))
            end
        end
  end.
End Tree.
