(* ===== verification/PoolOps.v ===== *)
(** * The pool's background work (ops.go, scrub.go: ScrubOnce, health.go: Start)

    Replaying the operations members are owed, re-listing directories, and the
    three background loops as ticks. *)
From S2P Require Import Prelude Filepath GoLib SqlText Retry Health PoolState PoolMember PoolPlacement PoolIndex PoolList PoolRepair PoolBalance PoolWrite PoolTree.
From Stdlib Require Import SpecFloat.
Open Scope Z_scope.

Definition opMaxAttempts : Z := 5.

Section Ops.
Context {W : Type} {E : Env W} {P : Pool}.

(** ** The op log *)

Definition due_op (n : string) (t : Z) (o : opRow) : Prop :=
  op_member o = n /\ op_state o = "pending" /\ op_nextAt o <= t.
#[local] Instance due_op_dec n t o : Decision (due_op n t o).
Proof. unfold due_op. apply _. Defined.
Definition pendingOpsFor (n : string) (t : Z) (i : index) : list opRow :=
  stable_sort (fun a b => bool_decide (op_seq a < op_seq b)) (filter (due_op n t) (pending_ops i)).

Definition delete_op (seq : Z) (i : index) : index := i <| pending_ops ::= filter (fun o => op_seq o <> seq) |>.
Definition set_op (seq : Z) (f : opRow -> opRow) (i : index) : index :=
  i <| pending_ops ::= map (fun o => if decide (op_seq o = seq) then f o else o) |>.

Definition flag_scrub (m : member) : M W unit := modify (upd_mrt m (fun r => r <| needsScrub := true |>)).

(** A member keeps what it refused to move: the claim that it has the copy at
    the entry's path is dropped. *)
Definition giveUpOn (m : member) (o : opRow) : M W unit :=
  if decide (op_op o = "rename" \/ op_op o = "move") then
    do- execIndex (del_replica (op_path o, m_name m));
    do- flag_scrub m;
    enqueueRepair (op_path o) ("op-failed-" +:+ op_op o) 1
  else ret tt.

Definition expired (cutoff : Z) (o : opRow) : Prop := op_state o = "pending" /\ op_createdAt o < cutoff.
#[local] Instance expired_dec c o : Decision (expired c o).
Proof. unfold expired. apply _. Defined.
Fixpoint flag_all (ns : list string) : M W unit :=
  match ns with
  | [] => ret tt
  | n :: rest => do- match byName n with Some m => flag_scrub m | None => ret tt end; flag_all rest
  end.
Definition expireOps : M W unit :=
  if decide (OpTTL settings <= 0) then ret tt
  else
    let- cutoff := reads (fun s => UnixNano (now (world s) - OpTTL settings)) in
    let- gone := reads (fun s => map op_member (filter (expired cutoff) (pending_ops (idx s)))) in
    if decide (gone = []) then ret tt
    else
      do- exec (fun i => i <| pending_ops ::= filter (fun o => ~ expired cutoff o) |>);
      flag_all gone.

(** ** Replaying one operation *)

Definition findChild (m : member) (parentID name : string) : M W (option Entry) :=
  let- r := listAll m parentID in
  ret match r with
      | Ok es => find (fun e => bool_decide (e_Name e = name)) es
      | Err _ => None
      end.

Definition adopt_dir (m : member) (e : Entry) (current : string) (t : Z) (i : index) : index :=
  let below (p : string) := like p (likePrefix current) in
  let i := i <| member_dirs ::= filter (fun kd => ~ (fst (fst kd) = m_name m /\ below (snd (fst kd)) = true)) |> in
  let i := update_replicas (fun r => bool_decide (rp_member r = m_name m) && below (rp_path r) &&
                                     bool_decide (rp_state r = "live"))
             (fun r => r <| rp_state := "pending" |>) i in
  i <| member_dirs ::= partial_alter (fun d => Some match d with
         | Some d => ((d <| d_remoteID := e_ID e |>) <| d_verifiedAt := t |>) <| d_listedAt := 0 |>
         | None => MkDirRow (dirParent current) (e_ID e) t 0
         end) (m_name m, current) |>.
Definition adopt_file (m : member) (e : Entry) (current : string) (t : Z) : index -> index :=
  update_replicas (fun r => bool_decide (rp_member r = m_name m /\ rp_path r = current))
    (fun r => ((((r <| remoteID := e_ID e |>) <| memberName := e_Name e |>) <| version := e_Version e |>)
                 <| rp_state := "live" |>) <| seenAt := t |>).
Definition adoptRelocated (m : member) (e : Entry) (current : string) (kind : Kind) : M W (res gerr unit) :=
  let- t := reads (fun s => UnixNano (now (world s))) in
  match kind with
  | KindDir => do- modify (upd_mrt m (fun r => r <| dirIDs := ∅ |>));
               tx (do- exec (adopt_dir m e current t); ret (Ok tt))
  | KindFile => tx (do- exec (adopt_file m e current t); ret (Ok tt))
  end.

Definition dropMemberCopy (m : member) (current : string) (kind : Kind) : M W (res gerr unit) :=
  tx (do- match kind with
          | KindDir => forgetDirIDTx m current
          | KindFile => exec (del_replica (current, m_name m))
          end; ret (Ok tt)).

(** A Move or Rename refused because the name is taken says so. *)
Definition step_on_member (m : member) (current : string) (f : W -> res gerr Entry * W) : M W (res gerr Entry) :=
  let- r := call f in
  match r with
  | Ok e => ret (Ok e)
  | Err e =>
      do- (if errors_Is e PErrExists then
             let- t := reads (fun s => UnixNano (now (world s))) in
             do- divergence current (m_name m) "relocate-conflict" "another item with that name exists on the member" t;
             ret tt
           else ret tt);
      ret (Err e)
  end.

Definition relocateOnMember (m : member) (rid current : string) (kind : Kind) : M W (res gerr unit) :=
  let- d := ensureDir m (parentOf current) in
  match d with
  | Err e => ret (Err e)
  | Ok parentID =>
      let name := Filepath.Base current in
      let- st := call (b_Stat m rid) in
      match st with
      | Err e =>
          if errors_Is e PErrNotFound then
            let- f := findChild m parentID name in
            match f with
            | Some found => adoptRelocated m found current kind
            | None => dropMemberCopy m current kind
            end
          else ret (Err e)
      | Ok e =>
          do- note m None;
          let- e := (if decide (e_ParentID e <> "" /\ e_ParentID e <> parentID)
                     then step_on_member m current (b_Move m rid parentID) else ret (Ok e)) in
          match e with
          | Err err => ret (Err err)
          | Ok e =>
              let- e := (if decide (e_Name e <> name)
                         then step_on_member m current (b_Rename m rid name) else ret (Ok e)) in
              match e with
              | Err err => ret (Err err)
              | Ok e => adoptRelocated m e current kind
              end
          end
      end
  end.

Definition no_paths : gerr := Gerr (KText "pool: relocate op without paths") [].
Definition replayRelocate (m : member) (o : opRow) : M W (res gerr unit) :=
  let to := arg o "to" in
  if decide (arg o "from" = "" \/ to = "") then ret (Err no_paths)
  else
    let- current := (if decide (arg o "id" <> "") then
                       let- r := pathOf (arg o "id") in ret match r with Ok p => p | Err _ => to end
                     else ret to) in
    let- d := reads (fun s => member_dirs (idx s) !! (m_name m, current)) in
    match d with
    | Some d => relocateOnMember m (d_remoteID d) current KindDir
    | None =>
        let- r := reads (fun s => replicas (idx s) !! (current, m_name m)) in
        match r with
        | None => ret (Ok tt)
        | Some r =>
            if decide (memberName r = Filepath.Base current /\ rp_state r <> "pending") then ret (Ok tt)
            else relocateOnMember m (remoteID r) current KindFile
        end
    end.

(** An observation can carry a token: the hash it names, or the time token. *)
Definition sameToken (token : string) (e : Entry) : bool :=
  existsb (fun ht => bool_decide (hash_of (e_Hashes e) ht <> "" /\ hashToken ht (hash_of (e_Hashes e) ht) = token)) preferredHashes
  || bool_decide (timeToken (e_Size e) (e_ModTime e) = token).

Definition skip_delete (pth mname why : string) : M W (res gerr unit) :=
  let- t := reads (fun s => UnixNano (now (world s))) in divergence pth mname "delete-skipped" why t.

Definition delete_there (m : member) (pth : string) (e : Entry) : M W (res gerr unit) :=
  let- r := call (b_Delete m (e_ID e)) in
  let err := match r with Ok _ => None | Err e => if errors_Is e PErrNotFound then None else Some e end in
  do- note m err;
  match err with
  | Some e => ret (Err e)
  | None => do- tx (do- exec (dropSubtree pth); ret (Ok tt)); ret (Ok tt)
  end.

Definition replayDelete (m : member) (o : opRow) : M W (res gerr unit) :=
  let pth := op_path o in
  let- d := dirID m (parentOf pth) in
  match d with
  | Err e => ret (if errors_Is e PErrNotFound then Ok tt else Err e)
  | Ok parentID =>
      let- f := findChild m parentID (Filepath.Base pth) in
      match f with
      | None => ret (Ok tt)
      | Some e =>
          match e_Kind e with
          | KindDir =>
              let- c := listAll m (e_ID e) in
              match c with
              | Err err => ret (Err err)
              | Ok [] => delete_there m pth e
              | Ok _ => skip_delete pth (m_name m) "the directory is not empty on the member; its content reappears as adopted"
              end
          | KindFile =>
              let want := arg o "ctoken" in
              if bool_decide (want <> "") && negb (bool_decide (content_token e = want)) && negb (sameToken want e)
              then skip_delete pth (m_name m) "the content changed on the member after the delete; it is kept and reappears as adopted"
              else delete_there m pth e
          end
      end
  end.

Definition replay (m : member) (o : opRow) : M W (res gerr unit) :=
  if decide (op_op o = "mkdir") then
    let- pth := (if decide (arg o "id" <> "") then
                   let- r := pathOf (arg o "id") in ret match r with Ok p => p | Err _ => op_path o end
                 else ret (op_path o)) in
    let- there := reads (fun s => bool_decide (is_Some (entryAt pth (idx s)))) in
    if negb there then ret (Ok tt)
    else let- r := ensureDir m pth in ret match r with Ok _ => Ok tt | Err e => Err e end
  else if decide (op_op o = "rename" \/ op_op o = "move") then replayRelocate m o
  else if decide (op_op o = "delete") then replayDelete m o
  else ret (Err (Gerr (KText "pool: unknown op") [])).

(** ** ReplayOnce *)

Definition op_failed (m : member) (o : opRow) (e : gerr) : M W unit :=
  let attempts := op_attempts o + 1 in
  let parked := bool_decide (opMaxAttempts <= attempts) in
  do- (if (parked : bool) then
         let- t := reads (fun s => UnixNano (now (world s))) in
         do- divergence (op_path o) (m_name m) ("op-failed-" +:+ op_op o) (errText e) t;
         giveUpOn m o
       else ret tt);
  let- next := reads (fun s => UnixNano (now (world s) + 30 * Second * 2 ^ Z.min attempts 6)) in
  exec (set_op (op_seq o) (fun r => (((r <| op_attempts := attempts |>) <| op_nextAt := next |>)
          <| op_lastError := errText e |>) <| op_state := if parked then "failed" else "pending" |>)).

(** The ops of one member: the context ending stops everything, the member
    being unreachable its own ops. *)
Fixpoint replay_ops (m : member) (os : list opRow) (n : Z) : M W (Z * option gerr) :=
  match os with
  | [] => ret (n, None)
  | o :: rest =>
      let- cerr := reads (fun s => ctx_Err (world s)) in
      match cerr with
      | Some e => ret (n, Some e)
      | None =>
          let- r := replay m o in
          match r with
          | Ok _ => do- exec (delete_op (op_seq o)); replay_ops m rest (n + 1)
          | Err e => if unreachable (Some e) then do- note m (Some e); ret (n, None)
                     else do- op_failed m o e; replay_ops m rest n
          end
      end
  end.
Fixpoint replay_members (ms : list member) (n : Z) : M W (Z * option gerr) :=
  match ms with
  | [] => ret (n, None)
  | m :: rest =>
      let- u := reads (usable m (ProbeInterval settings)) in
      if negb u then replay_members rest n
      else
        let- os := reads (fun s => pendingOpsFor (m_name m) (UnixNano (now (world s))) (idx s)) in
        let- (n, err) := replay_ops m os n in
        match err with Some e => ret (n, Some e) | None => replay_members rest n end
  end.
Definition ReplayOnce : M W (Z * option gerr) := do- expireOps; replay_members members 0.

Definition PendingOps (n : string) (s : pst W) : Z :=
  count (filter (fun o => op_state o = "pending" /\ op_member o = n) (pending_ops (idx s))).

(** ** ScrubOnce *)

Definition wants_scrub (m : member) (s : pst W) : bool := needsScrub (mrt_of s m) && Usable (snapshot m s).
Fixpoint take_flags (ms : list member) : M W (list string) :=
  match ms with
  | [] => ret []
  | m :: rest =>
      let- f := reads (wants_scrub m) in
      if (f : bool) then
        do- modify (upd_mrt m (fun r => r <| needsScrub := false |>));
        let- l := take_flags rest in ret (m_name m :: l)
      else take_flags rest
  end.
(** The directories to look at: all of a flagged member, a sample of the rest. *)
Fixpoint sample_dirs (full : list string) (ks : list (string * string)) (seen : list string) : M W (list string) :=
  match ks with
  | [] => ret seen
  | (n, pth) :: rest =>
      if decide (pth ∈ seen) then sample_dirs full rest seen
      else
        let- pick := (if bool_decide (n ∈ full) || fle f1 (ScrubSample settings) then ret true
                      else let- x := call randF in ret (flt x (ScrubSample settings))) in
        sample_dirs full rest (if (pick : bool) then seen ++ [pth] else seen)
  end.
Fixpoint relist (ds : list string) (n : Z) : M W (Z * option gerr) :=
  match ds with
  | [] => ret (n, None)
  | d :: rest =>
      let- cerr := reads (fun s => ctx_Err (world s)) in
      match cerr with
      | Some e => ret (n, Some e)
      | None =>
          let- r := listDir d in
          match r with
          | Err e => if negb (errors_Is e PErrNotFound) && negb (errors_Is e PErrUnavailable)
                     then ret (n, Some e) else relist rest (n + 1)
          | Ok _ => relist rest (n + 1)
          end
      end
  end.
Definition ScrubOnce : M W (Z * option gerr) :=
  let- full := take_flags members in
  let- ks := reads (fun s => stable_sort (fun a b => String.ltb (snd a) (snd b))
                               (filter (fun k => snd k <> "/") (map fst (map_to_list (member_dirs (idx s)))))) in
  let- ds := sample_dirs full ks ["/"] in
  let- (n, err) := relist ds 0 in
  match err with
  | Some e => ret (n, Some e)
  | None => do- (if anyMultiReplica then do- ScanOnce; ret tt else ret tt); ret (n, None)
  end.

(** ** The background loops

    One tick of a loop runs to its end; the loops' ticks interleave. *)
Inductive tick := TickProbe | TickRebalance | TickWork | TickScan | TickScrub.
Definition discard {A} (m : M W A) : M W unit := do- m; ret tt.
Definition on_tick (t : tick) : M W unit :=
  match t with
  | TickProbe => ProbeOnce
  | TickRebalance => discard RebalanceOnce
  | TickWork => do- ReplayOnce; do- RepairOnce; discard DrainOnce
  | TickScan => do- (if anyMultiReplica then discard ScanOnce else ret tt); discard TrimOnce
  | TickScrub => discard ScrubOnce
  end.
Definition start_up : M W unit :=
  do- reconcileHolds;
  do- (if anyMultiReplica then discard ScanOnce else ret tt);
  backfillIfNeeded.

Definition ClearDivergence (pth mname kind : string) : M W unit :=
  exec (fun i => i <| divergences ::= delete (pth, mname, kind) |>).
End Ops.
