(* ===== verification/PoolDelta.v ===== *)
(** * The pool's change feed (delta.go)

    The members' feeds folded through the index: which directories their events
    touch, what the merged listing shows there, and the changes reported.  A
    cursor is the map of the members' cursors; its JSON spelling is left out. *)
From S2P Require Import Prelude Filepath GoLib SqlText Retry Health PoolState PoolMember PoolPlacement PoolIndex PoolList.
From Stdlib Require Import Ascii.
Open Scope Z_scope.

Definition deltaCursor : Type := gmap string string.
Definition memberEvent : Type := (member * Change)%type.
Record touched := MkTouched { to_parent : string; to_name : string; to_known : string }.

Section Delta.
Context {W : Type} {E : Env W} {P : Pool}.

(** ** Asking the members *)

Fixpoint gather (ms : list member) (cur next : deltaCursor) (evs : list memberEvent) : M W (deltaCursor * list memberEvent) :=
  match ms with
  | [] => ret (next, evs)
  | m :: rest =>
      if negb (is_ChangeLister (m_caps m) && cap_Delta (m_caps m)) then gather rest cur next evs
      else
        let- u := reads (usable m (ProbeInterval settings)) in
        if negb u then gather rest cur next evs
        else
          let- r := call (b_Changes m (default "" (cur !! m_name m))) in
          match r with
          | ChangesReset c =>
              do- note m None;
              do- modify (upd_mrt m (fun r => r <| needsScrub := true |>));
              gather rest cur (<[m_name m := c]> next) evs
          | ChangesErr e => do- note m (Some e); gather rest cur next evs
          | ChangesOk l nc =>
              do- note m None;
              gather rest cur (if decide (nc <> "") then <[m_name m := nc]> next else next) (evs ++ map (pair m) l)
          end
  end.

(** ** Paths of member ids *)

Definition dir_with_id (n id : string) (i : index) : option string :=
  head (omap (fun kd => if decide (fst (fst kd) = n /\ d_remoteID (snd kd) = id) then Some (snd (fst kd)) else None)
          (map_to_list (member_dirs i))).
Definition file_with_id (n id : string) (i : index) : option string :=
  head (omap (fun kr => if decide (snd (fst kr) = n /\ remoteID (snd kr) = id) then Some (fst (fst kr)) else None)
          (map_to_list (replicas i))).

Definition dirPathByMemberID (m : member) (id : string) : M W string :=
  if decide (id = "") then ret ""
  else
    let- p := reads (fun s => dir_with_id (m_name m) id (idx s)) in
    match p with
    | Some p => ret p
    | None => let- c := cachedDirID m "/" in ret (if decide (c = Some id) then "/" else "")
    end.
Definition pathByMemberID (m : member) (id : string) : M W string :=
  if decide (id = "") then ret ""
  else
    let- p := reads (fun s => file_with_id (m_name m) id (idx s)) in
    match p with Some p => ret p | None => dirPathByMemberID m id end.

(** ** Which directories the events touch *)

Inductive verdict := Touches (t : touched) | Unresolved | Ignored.
Definition resolve_event (ev : memberEvent) : M W verdict :=
  let '(m, c) := ev in
  let- known := pathByMemberID m (ch_ID c) in
  if decide (known <> "") then ret (Touches (MkTouched (parentOf known) (Filepath.Base known) known))
  else match ch_Entry c with
       | None => ret Ignored
       | Some e =>
           let- pp := dirPathByMemberID m (ch_ParentID c) in
           let- pp := (if decide (pp = "") then dirPathByMemberID m (e_ParentID e) else ret pp) in
           ret (if decide (pp = "") then Unresolved
                else if hidden (e_Name e) then Ignored
                else Touches (MkTouched pp (e_Name e) ""))
       end.

Fixpoint resolve_round (evs : list memberEvent) (unresolved : list memberEvent) (work : list touched)
  : M W (list memberEvent * list touched) :=
  match evs with
  | [] => ret (unresolved, work)
  | ev :: rest =>
      let- v := resolve_event ev in
      match v with
      | Touches t => resolve_round rest unresolved (work ++ [t])
      | Unresolved => resolve_round rest (unresolved ++ [ev]) work
      | Ignored => resolve_round rest unresolved work
      end
  end.

Definition listings : Type := gmap string (list Entry).
Fixpoint list_touched (ds : list string) (listed : listings) : M W (res gerr listings) :=
  match ds with
  | [] => ret (Ok listed)
  | d :: rest =>
      let- r := listDir d in
      match r with
      | Err e => if negb (errors_Is e PErrNotFound) && negb (errors_Is e PErrUnavailable) then ret (Err e)
                 else list_touched rest (<[d := []]> listed)
      | Ok es => list_touched rest (<[d := es]> listed)
      end
  end.

(** An id the index does not know yet may become known once its parent has been
    listed: three rounds, or until nothing new resolves. *)
Fixpoint resolve_rounds (n : nat) (pending : list memberEvent) (work : list touched) (listed : listings)
  : M W (res gerr (list touched * listings)) :=
  match n, pending with
  | O, _ | _, [] => ret (Ok (work, listed))
  | S n', _ =>
      let- (unresolved, fresh) := resolve_round pending [] [] in
      let dirs := remove_dups (filter (fun d => listed !! d = None) (map to_parent fresh)) in
      let- r := list_touched dirs listed in
      match r with
      | Err e => ret (Err e)
      | Ok listed =>
          if decide (length unresolved = length pending) then ret (Ok (work ++ fresh, listed))
          else resolve_rounds n' unresolved (work ++ fresh) listed
      end
  end.

(** ** What is reported *)

Definition findEntry (es : list Entry) (name : string) : option Entry :=
  find (fun e => bool_decide (e_Name e = name)) es.
Definition emit (out : list Change) (c : Change) : list Change :=
  if existsb (fun x => bool_decide (ch_ID x = ch_ID c)) out then out else out ++ [c].
Definition with_parent (pid : string) (e : Entry) : Entry :=
  MkEntry (e_ID e) pid (e_Name e) (e_Kind e) (e_Size e) (e_ModTime e) (e_Version e) (e_Hashes e).

Definition report_known (es : list Entry) (pid id name : string) (out : list Change) : list Change :=
  emit out match findEntry es name with
           | Some e => MkChange ChangeUpsert id pid (Some (with_parent pid e))
           | None => MkChange ChangeDelete id pid None
           end.
Fixpoint report (work : list touched) (listed : listings) (out : list Change) : M W (res gerr (list Change)) :=
  match work with
  | [] => ret (Ok out)
  | w :: rest =>
      let- r := idFor (to_parent w) in
      match r with
      | Err e => ret (Err e)
      | Ok pid =>
          let es := default [] (listed !! to_parent w) in
          let- r := (if decide (to_known w <> "") then
                       let- id := idFor (to_known w) in
                       ret match id with
                           | Err e => Err e
                           | Ok id => Ok (report_known es pid id (Filepath.Base (to_known w)) out)
                           end
                     else ret (Ok out)) in
          match r with
          | Err e => ret (Err e)
          | Ok out =>
              match findEntry es (to_name w) with
              | Some e => report rest listed (emit out (MkChange ChangeUpsert (e_ID e) pid (Some (with_parent pid e))))
              | None =>
                  if decide (to_known w = "") then
                    let- id := idFor (joinPath (to_parent w) (to_name w)) in
                    match id with
                    | Err e => ret (Err e)
                    | Ok id => report rest listed (emit out (MkChange ChangeDelete id pid None))
                    end
                  else report rest listed out
              end
          end
      end
  end.

(** On an error the caller keeps the cursor it had. *)
Definition Changes (cur : deltaCursor) : M W (res gerr (list Change * deltaCursor)) :=
  let- (next, evs) := gather members cur cur [] in
  let- r := resolve_rounds 3 evs [] ∅ in
  match r with
  | Err e => ret (Err e)
  | Ok (work, listed) =>
      let- out := report work listed [] in
      ret match out with
          | Err e => Err e
          | Ok out => Ok (stable_sort (fun a b => String.ltb (ch_ID a) (ch_ID b)) out, next)
          end
  end.
End Delta.
