(* ===== verification/PoolStatus.v ===== *)
(** * What a pool reports about itself (status.go, pool.go: Capabilities)

    The availability of a file, the counts of the status report, rebuilding the
    index, and the capabilities derived from the members'. *)
From S2P Require Import Prelude Filepath GoLib SqlText Retry Health PoolState PoolMember PoolPlacement PoolIndex PoolList PoolRepair PoolOps PoolRead.
From stdpp Require Import pretty.
From Stdlib Require Import SpecFloat.
Open Scope Z_scope.

Definition AvailFull : string := "full".
Definition AvailDegraded : string := "degraded".
Definition AvailUnavailable : string := "unavailable".

Record Availability_ := MkAvail {
  av_State : string; av_Live : Z; av_Target : Z; av_Reason : string; BelowMin : bool
}.

Definition state_name (st : HealthState) : string :=
  match st with
  | HealthUp => "up" | HealthDegraded => "degraded" | HealthDown => "down" | HealthOut => "out"
  | HealthDisabled => "disabled" | HealthDraining => "draining"
  end.

Section Status.
Context {W : Type} {E : Env W} {P : Pool}.

(** ** Availability *)

Definition is_reason (s : pst W) (m : member) : string :=
  "member " +:+ m_name m +:+ " is " +:+ state_name (state_of m s).
(** Copies in service, those reachable among them, and the first complaint. *)
Definition tally (s : pst W) (a : Z * Z * string) (r : replicaRow) : Z * Z * string :=
  let '(reachable, inService, reason) := a in
  match byName (rp_member r) with
  | None => a
  | Some m =>
      let complain := if decide (reason = "") then is_reason s m else reason in
      match state_of m s with
      | HealthOut | HealthDisabled => (reachable, inService, complain)
      | st => if usable m (ProbeInterval settings) s && bool_decide (st <> HealthDown)
              then (reachable + 1, inService + 1, reason)
              else (reachable, inService + 1, complain)
      end
  end.
Definition or_else (a b : string) : string := if decide (a = "") then b else a.
Definition of_replicas (n target : Z) : string := pretty n +:+ " of " +:+ pretty target +:+ " replicas".

Definition Availability (pth : string) (s : pst W) : res gerr Availability_ :=
  match cleanPath pth with
  | Err e => Err e
  | Ok pth =>
      let target := fst (targetFor pth s) in
      if decide (pth = "/") then Ok (MkAvail AvailFull target target "" false)
      else match entryAt pth (idx s) with
      | None => Err (wrap "availability" (sent PErrNotFound))
      | Some row =>
          if decide (en_kind row = KindDir) then Ok (MkAvail AvailFull target target "" false)
          else
            let '(reachable, inService, reason) := foldl (tally s) (0, 0, "") (replicasOf pth (en_ctoken row) s) in
            Ok (if decide (reachable = 0)
                then MkAvail AvailUnavailable inService target (or_else reason "no replica on a reachable member") false
                else if decide (inService < minReplicas pth)
                then MkAvail AvailDegraded inService target
                       (or_else reason ("below min_replicas: " +:+ of_replicas inService (minReplicas pth))) true
                else if decide (inService < target)
                then MkAvail AvailDegraded inService target
                       (or_else reason match repair_queue (idx s) !! pth with
                                       | Some q => if decide (rq_reason q <> "") then "repair: " +:+ rq_reason q
                                                   else of_replicas inService target
                                       | None => of_replicas inService target
                                       end) false
                else if decide (reachable < inService) then MkAvail AvailDegraded inService target reason false
                else MkAvail AvailFull inService target "" false)
      end
  end.

Definition unavailableFiles (s : pst W) : Z :=
  count (filter (fun f => av_State <$> (match Availability (fst f) s with Ok a => Some a | Err _ => None end)
                          = Some AvailUnavailable) (plain_files (idx s))).

(** ** Rebuild *)

Definition forget_index (i : index) : index :=
  let i := i <| entries := ∅ |> in
  let i := delete_replicas (fun _ => true) i in
  let i := i <| member_dirs := ∅ |> in
  let i := i <| divergences := ∅ |> in
  i <| repair_queue := ∅ |>.
Definition addNotice (n : string) : M W unit :=
  modify (fun s => if decide (n ∈ notices s) then s
                   else let l := notices s ++ [n] in
                        s <| notices := if decide (50 < length l)%nat then drop (length l - 50) l else l |>).
Definition rebuilt_notice : string :=
  "the index was rebuilt from the members; uploads queued before the rebuild finish as usual (cloudfs uploads flush)".
Definition Rebuild : M W (option gerr) :=
  do- tx (do- exec forget_index; ret (Ok tt));
  do- modify (fun s => foldl (fun s m => upd_mrt m (fun r => (r <| dirIDs := ∅ |>) <| needsScrub := true |>) s) s members);
  let- r := listDir "/" in
  match r with
  | Err e => ret (Some e)
  | Ok _ =>
      let- (_, err) := ScrubOnce in
      match err with
      | Some e => ret (Some e)
      | None => do- addNotice rebuilt_notice; ret None
      end
  end.
End Status.

(** ** Capabilities *)

Record QPS := MkQPS { Meta : float; Download : float; Upload : float }.
Record FullCaps := MkFullCaps {
  HashTypes : gset string; RapidUpload : gset string; RangeRead : bool; fc_PartSize : Z; MaxParts : Z;
  UploadParallel : Z; LinkTTL : Z; LinkShareable : bool; Delta : bool; fc_QPS : QPS; MaxConnsPerHost : Z
}.

(** One round of a "smallest that is declared" field. *)
Definition least (first : bool) (mine c : Z) : Z :=
  if first || (bool_decide (0 < mine) && bool_decide (mine < c)) then mine else c.

Definition caps_step (fan : fanoutMode) (first : bool) (c mc : FullCaps) : FullCaps :=
  let conns := if decide (MaxConnsPerHost mc <= 0) then defaultMaxInflight else MaxConnsPerHost mc in
  MkFullCaps (HashTypes c ∪ HashTypes mc) (RapidUpload c ∪ RapidUpload mc)
    (RangeRead c && RangeRead mc)
    (if decide (fc_PartSize c < fc_PartSize mc) then fc_PartSize mc else fc_PartSize c)
    (least first (MaxParts mc) (MaxParts c))
    (least first (UploadParallel mc) (UploadParallel c))
    (least first (LinkTTL mc) (LinkTTL c))
    (if first then LinkShareable mc else LinkShareable c && LinkShareable mc)
    (Delta c || Delta mc)
    (MkQPS (fadd (Meta (fc_QPS c)) (Meta (fc_QPS mc))) (fadd (Download (fc_QPS c)) (Download (fc_QPS mc)))
       (fadd (Upload (fc_QPS c)) (Upload (fc_QPS mc))))
    (if decide (fan = fanoutOff) then Z.max (MaxConnsPerHost c) conns else MaxConnsPerHost c + conns).

Fixpoint caps_fold (fan : fanoutMode) (first : bool) (c : FullCaps) (ms : list FullCaps) : FullCaps :=
  match ms with [] => c | mc :: rest => caps_fold fan false (caps_step fan first c mc) rest end.

Definition base_caps : FullCaps := MkFullCaps ∅ {[HashSHA1]} true 0 0 0 0 false false (MkQPS f0 f0 f0) 0.
Definition or_default (n d : Z) : Z := if decide (n = 0) then d else n.

(** The members' matrices in declaration order. *)
Definition Capabilities (fan : fanoutMode) (ms : list FullCaps) : FullCaps :=
  let c := caps_fold fan true base_caps ms in
  MkFullCaps (HashTypes c) (RapidUpload c) (RangeRead c) (or_default (fc_PartSize c) 4194304)
    (or_default (MaxParts c) 10000) (or_default (UploadParallel c) 2) (LinkTTL c) (LinkShareable c) (Delta c)
    (fc_QPS c) (MaxConnsPerHost c).
