(* ===== verification/PoolFrame.v ===== *)
(** * What the pool's operations leave alone

    [Frame f m]: running [m] does not change the part [f] of the state.  Most
    operations of a pool (health notes, quota calls, listing a member, placement)
    never touch the rows that say where a file's copies are; the lemmas here say
    so once, for the theorems about the operations that do. *)
From S2P Require Import Prelude Filepath GoLib SqlText Retry Health PoolState PoolMember PoolPlacement PoolIndex PoolList PoolRepair PoolBalance PoolRead.
Open Scope Z_scope.

Create HintDb frame.

Section Frame.
Context {W : Type} {E : Env W} {P : Pool}.

Definition Frame {A X} (f : pst W -> X) (m : M W A) : Prop := forall s, f (snd (m s)) = f s.

(** *** Composition *)

Lemma frame_let {A B X} (f : pst W -> X) (m : M W A) (k : A -> M W B) :
  Frame f m -> (forall a, Frame f (k a)) -> Frame f (pbind m k).
Proof. intros Hm Hk s. unfold pbind. specialize (Hm s). destruct (m s) as [a s']. simpl in Hm. by rewrite (Hk a s'). Qed.
Lemma frame_do {A B X} (f : pst W -> X) (m : M W A) (k : M W B) :
  Frame f m -> Frame f k -> Frame f (pthen m k).
Proof. intros Hm Hk s. unfold pthen. by rewrite Hk, Hm. Qed.
Lemma frame_ret {A X} (f : pst W -> X) (a : A) : Frame f (ret a).
Proof. done. Qed.
Lemma frame_reads {A X} (f : pst W -> X) (g : pst W -> A) : Frame f (reads g).
Proof. done. Qed.
Lemma frame_modify {X} (f : pst W -> X) g : (forall s, f (g s) = f s) -> Frame f (modify g).
Proof. intros H s. apply H. Qed.
Lemma frame_tx {A X} (f : pst W -> X) (m : M W (res gerr A)) :
  (forall s, f (s <| cache ::= invalidate |>) = f s) ->
  (forall s s', f s = f s' -> f (s <| idx := idx s' |>) = f s') ->
  Frame f m -> Frame f (tx m).
Proof.
  intros Hc Hi Hm s. specialize (Hm s). unfold tx. destruct (m s) as [[a|e] s']; simpl in *.
  - by rewrite Hc.
  - by rewrite Hc, Hi.
Qed.

(** *** The rows of files *)

Definition files_of (s : pst W) := (replicas (idx s), entries (idx s)).

Lemma frame_files_call {A} (g : W -> A * W) : Frame files_of (call g).
Proof. intros s. unfold call. by destruct (g (world s)). Qed.
Lemma frame_files_mrt m g : Frame files_of (modify (upd_mrt m g)).
Proof. done. Qed.
Lemma frame_files_exec g :
  (forall i, replicas (g i) = replicas i) -> (forall i, entries (g i) = entries i) -> Frame files_of (exec g).
Proof. intros H1 H2 s. unfold files_of, exec, modify. simpl. by rewrite H1, H2. Qed.
End Frame.

#[export] Hint Resolve frame_ret frame_reads frame_files_call frame_files_mrt : frame.

(** One step of a frame proof: composition, a case split, or a known lemma. *)
Ltac frame_step :=
  match goal with
  | |- Frame _ (match ?x with _ => _ end) => destruct x
  | |- Frame _ (ret _) => apply frame_ret
  | |- Frame _ (reads _) => apply frame_reads
  | |- Frame _ (exec _) => apply frame_files_exec; intros; reflexivity
  | |- _ => solve [eauto 2 with frame]
  | |- Frame _ (pbind _ _) => apply frame_let; [|intros ?]
  | |- Frame _ (pthen _ _) => apply frame_do
  | |- Frame _ (modify _) => apply frame_modify; intros; reflexivity
  end.
Ltac frames := repeat frame_step.

Section Lemmas.
Context {W : Type} {E : Env W} {P : Pool}.
Notation FF := (Frame (W := W) files_of).

Lemma note_files m e : FF (note m e).
Proof. unfold note. frames. Qed.
Hint Resolve note_files : frame.
Lemma markFull_files m : FF (markFull m).
Proof. unfold markFull. frames. Qed.
Hint Resolve markFull_files : frame.
Lemma noteWrite_files m e : FF (noteWrite m e).
Proof. unfold noteWrite. frames. Qed.
Hint Resolve noteWrite_files : frame.
Lemma noteLatency_files m d n : FF (noteLatency m d n).
Proof. unfold noteLatency. frames. Qed.

Lemma list_pages_files fuel m d c out : FF (list_pages fuel m d c out).
Proof. revert c out. induction fuel; intros; cbn [list_pages]; frames. Qed.
Hint Resolve list_pages_files : frame.
Lemma listAll_files m d : FF (listAll m d).
Proof. unfold listAll. frames. Qed.
Hint Resolve listAll_files : frame.
Lemma cachedDirID_files m p : FF (cachedDirID m p).
Proof. intros s. unfold cachedDirID. destruct (dirIDs _ !! _); [done|]. by destruct (member_dirs _ !! _). Qed.
Hint Resolve cachedDirID_files : frame.
Lemma rememberDirID_files m p id : FF (rememberDirID m p id).
Proof. unfold rememberDirID. frames. Qed.
Hint Resolve rememberDirID_files : frame.
Lemma forgetDirID_files m p : FF (forgetDirID m p).
Proof. unfold forgetDirID. frames. Qed.
Hint Resolve forgetDirID_files : frame.
Lemma markEnumerated_files m p : FF (markEnumerated m p).
Proof. unfold markEnumerated. frames. Qed.
Hint Resolve markEnumerated_files : frame.
Lemma walk_root_files m segs id : FF (walk_root m segs id).
Proof. revert id. induction segs; intros; cbn [walk_root]; frames. Qed.
Hint Resolve walk_root_files : frame.
Lemma rootDirID_files m : FF (rootDirID m).
Proof. unfold rootDirID. frames. Qed.
Hint Resolve rootDirID_files : frame.
Lemma learn_dirs_files m p n es f : FF (learn_dirs m p n es f).
Proof. revert f. induction es; intros; cbn [learn_dirs]; frames. Qed.
Hint Resolve learn_dirs_files : frame.
Lemma dir_id_files fuel m p : FF (dir_id fuel m p).
Proof. revert p. induction fuel; intros; cbn [dir_id]; frames. Qed.
Lemma dirID_files m p : FF (dirID m p).
Proof. apply dir_id_files. Qed.
Hint Resolve dirID_files : frame.

Lemma free_files m : FF (free m).
Proof. unfold free, refresh_space, ask_quota. frames. Qed.
Hint Resolve free_files : frame.
Lemma memberQuota_files m : FF (memberQuota m).
Proof. unfold memberQuota. frames. Qed.
Lemma loadLearned_files m : FF (loadLearned m).
Proof. done. Qed.
Hint Resolve loadLearned_files : frame.
Lemma canHold_files m a b : FF (canHold m a b).
Proof. unfold canHold, naming. frames. Qed.
Hint Resolve canHold_files : frame.
Lemma learnDenial_files m n : FF (learnDenial m n).
Proof. unfold learnDenial. frames. Qed.
Hint Resolve learnDenial_files : frame.
Lemma score_member_files p h t m : FF (score_member p h t m).
Proof. unfold score_member. frames. Qed.
Hint Resolve score_member_files : frame.
Lemma score_all_files p h t ms : FF (score_all p h t ms).
Proof. induction ms; cbn [score_all]; frames. Qed.
Hint Resolve score_all_files : frame.
Lemma candidates_files p : FF (candidates p).
Proof. unfold candidates. frames. Qed.
Hint Resolve candidates_files : frame.

Lemma findDir_files m a b : FF (findDir m a b).
Proof. unfold findDir. frames. Qed.
Hint Resolve findDir_files : frame.
Lemma make_root_files m segs id : FF (make_root m segs id).
Proof. revert id. induction segs; intros; cbn [make_root]; frames. Qed.
Hint Resolve make_root_files : frame.
Lemma ensureRoot_files m : FF (ensureRoot m).
Proof. unfold ensureRoot. frames. Qed.
Hint Resolve ensureRoot_files : frame.
Lemma ensure_dir_files fuel m p : FF (ensure_dir fuel m p).
Proof. revert p. induction fuel; intros; cbn [ensure_dir]; frames. Qed.
Lemma ensureDir_files m p : FF (ensureDir m p).
Proof. apply ensure_dir_files. Qed.
Hint Resolve ensureDir_files : frame.
Lemma serverCopy_files p l d i : FF (serverCopy p l d i).
Proof. unfold serverCopy. frames. Qed.
Hint Resolve serverCopy_files : frame.
Lemma holdFor_files p c : FF (holdFor p c).
Proof. unfold holdFor, delete_hold. frames. Qed.
Hint Resolve holdFor_files : frame.
Lemma openSource_files p r : FF (openSource p r).
Proof. unfold openSource. frames. Qed.
Hint Resolve openSource_files : frame.
Lemma note_reads_files src rs : FF (note_reads src rs).
Proof. destruct src; [by destruct rs| |by destruct rs]. induction rs; cbn [note_reads]; frames. Qed.
Hint Resolve note_reads_files : frame.
Lemma sending_files {A} d src (f : W -> (res gerr A * list (option gerr)) * W) : FF (sending d src f).
Proof. unfold sending, noted_write. frames. Qed.
Hint Resolve sending_files : frame.
Lemma upload_parts_files d ss src sz ps left i acc : FF (upload_parts d ss src sz ps left i acc).
Proof. revert i acc. induction left; intros; cbn [upload_parts]; frames. Qed.
Hint Resolve upload_parts_files : frame.
Lemma send_file_files d di n src sz h : FF (send_file d di n src sz h).
Proof. unfold send_file, noted_write. frames. Qed.
Hint Resolve send_file_files : frame.

Lemma enqueueRepair_files p r n : FF (enqueueRepair p r n).
Proof. unfold enqueueRepair. frames. Qed.
Hint Resolve enqueueRepair_files : frame.
Lemma ScanOnce_files : FF ScanOnce.
Proof.
  unfold ScanOnce. apply frame_let; [frames|]. intros fs. generalize 0.
  induction fs as [|[p c] fs IH]; intros n; cbn [scan_files]; frames.
Qed.
Lemma repairTarget_files p l : FF (repairTarget p l).
Proof. unfold repairTarget. frames. Qed.
Hint Resolve repairTarget_files : frame.
Lemma remove_holds_files l : FF (remove_holds l).
Proof. induction l; cbn [remove_holds]; unfold remove_hold, delete_hold; frames. Qed.
Hint Resolve remove_holds_files : frame.
Lemma releaseHolds_files p : FF (releaseHolds p).
Proof. unfold releaseHolds. frames. Qed.
Hint Resolve releaseHolds_files : frame.
Lemma set_move_files p f : FF (set_move p f).
Proof. unfold set_move. frames. Qed.
Lemma worstPlacedFirst_files p l : FF (worstPlacedFirst p l).
Proof. unfold worstPlacedFirst. frames. Qed.
End Lemmas.

#[export] Hint Resolve note_files markFull_files noteWrite_files noteLatency_files list_pages_files listAll_files
  cachedDirID_files rememberDirID_files forgetDirID_files markEnumerated_files walk_root_files rootDirID_files
  learn_dirs_files dirID_files free_files memberQuota_files canHold_files learnDenial_files score_member_files
  score_all_files candidates_files findDir_files make_root_files ensureRoot_files ensureDir_files serverCopy_files
  holdFor_files openSource_files note_reads_files sending_files upload_parts_files send_file_files
  enqueueRepair_files ScanOnce_files repairTarget_files remove_holds_files releaseHolds_files set_move_files
  worstPlacedFirst_files : frame.
