(* ===== verification/PoolRows.v ===== *)
(** * The replicas table and its triggers

    What UPDATE and DELETE statements do to single rows, and the totals the
    triggers keep. *)
From S2P Require Import Prelude Filepath GoLib SqlText Retry Health PoolState PoolMember PoolPlacement PoolIndex.
Open Scope Z_scope.

(** Every row is stored under its own path and member. *)
Definition KeyOK (R : gmap (string * string) replicaRow) : Prop :=
  forall k r, R !! k = Some r -> k = (rp_path r, rp_member r).

Lemma KeyOK_insert R r : KeyOK R -> KeyOK (<[(rp_path r, rp_member r) := r]> R).
Proof. intros H k x. destruct (decide (k = (rp_path r, rp_member r))) as [->|Hk]; [by rewrite lookup_insert_eq; intros [= ->]|].
  rewrite lookup_insert_ne by done. apply H. Qed.
Lemma KeyOK_delete R k : KeyOK R -> KeyOK (delete k R).
Proof. intros H k' x [_ Hx]%lookup_delete_Some. by apply H. Qed.

Lemma put_replica_rows r i : replicas (put_replica r i) = <[(rp_path r, rp_member r) := r]> (replicas i).
Proof. done. Qed.
Lemma del_replica_rows k i : replicas (del_replica k i) = delete k (replicas i).
Proof. unfold del_replica. destruct (replicas i !! k) eqn:H; [done|]. by rewrite delete_id. Qed.
Lemma put_replica_entries r i : entries (put_replica r i) = entries i.
Proof. done. Qed.
Lemma del_replica_entries k i : entries (del_replica k i) = entries i.
Proof. unfold del_replica. by destruct (replicas i !! k). Qed.

Lemma rows_where_elem f i r :
  r ∈ rows_where f i <-> f r = true /\ exists k, replicas i !! k = Some r.
Proof.
  unfold rows_where. rewrite list_elem_of_filter, list_elem_of_fmap. split.
  - intros (Hf & [k x] & -> & Hx%elem_of_map_to_list). eauto.
  - intros (Hf & k & Hk). split; [done|]. exists (k, r). split; [done|]. by apply elem_of_map_to_list.
Qed.

(** ** DELETE *)

Lemma fold_del_rows (l : list replicaRow) i k :
  replicas (foldl (fun i r => del_replica (rp_path r, rp_member r) i) i l) !! k =
  if decide (k ∈ map (fun r => (rp_path r, rp_member r)) l) then None else replicas i !! k.
Proof.
  revert i. induction l as [|r l IH]; intros i; [done|]. cbn [foldl map].
  rewrite IH, del_replica_rows. destruct (decide (k = (rp_path r, rp_member r))) as [->|Hk].
  - rewrite lookup_delete_eq. repeat destruct decide; set_solver.
  - rewrite lookup_delete_ne by done. repeat destruct decide; set_solver.
Qed.
Lemma fold_del_entries (l : list replicaRow) i :
  entries (foldl (fun i r => del_replica (rp_path r, rp_member r) i) i l) = entries i.
Proof. revert i. induction l as [|r l IH]; intros i; simpl; [done|]. by rewrite IH, del_replica_entries. Qed.

Lemma delete_replicas_lookup f i k :
  KeyOK (replicas i) ->
  replicas (delete_replicas f i) !! k = (r ← replicas i !! k; if f r then None else Some r).
Proof.
  intros HK. unfold delete_replicas. rewrite fold_del_rows.
  destruct (replicas i !! k) as [r|] eqn:Hk; simpl.
  - destruct (f r) eqn:Hf.
    + rewrite decide_True; [done|]. rewrite list_elem_of_fmap. exists r.
      split; [by apply HK|]. apply rows_where_elem. eauto.
    + rewrite decide_False; [done|]. rewrite list_elem_of_fmap. intros (x & -> & [Hx [k' Hk']]%rows_where_elem).
      pose proof (HK _ _ Hk') as ->. congruence.
  - by destruct decide.
Qed.
Lemma delete_replicas_entries f i : entries (delete_replicas f i) = entries i.
Proof. apply fold_del_entries. Qed.
Lemma delete_replicas_KeyOK f i : KeyOK (replicas i) -> KeyOK (replicas (delete_replicas f i)).
Proof.
  intros HK k r. rewrite delete_replicas_lookup by done. destruct (replicas i !! k) eqn:Hk; [|done]. simpl.
  destruct (f r0); [done|]. intros [= ->]. by apply HK.
Qed.

(** ** UPDATE of other columns *)

Definition keeps_key (g : replicaRow -> replicaRow) : Prop :=
  forall r, rp_path (g r) = rp_path r /\ rp_member (g r) = rp_member r.

Definition row_key (r : replicaRow) : string * string := (rp_path r, rp_member r).

(** The last row put under a key wins. *)
Lemma fold_put_rows g (l : list replicaRow) i k :
  keeps_key g ->
  replicas (foldl (fun i r => put_replica (g r) i) i l) !! k =
  match find (fun r => bool_decide (row_key r = k)) (reverse l) with
  | Some r => Some (g r)
  | None => replicas i !! k
  end.
Proof.
  intros Hg. induction l as [|r l IH] using rev_ind; [done|].
  rewrite foldl_snoc, reverse_snoc, put_replica_rows. simpl. destruct (Hg r) as [-> ->].
  fold (row_key r). case_bool_decide as Hk; [subst k; by rewrite lookup_insert_eq|].
  rewrite lookup_insert_ne by done. apply IH.
Qed.

Lemma update_replicas_lookup f g i k :
  KeyOK (replicas i) -> keeps_key g ->
  replicas (update_replicas f g i) !! k = (fun r => if f r then g r else r) <$> replicas i !! k.
Proof.
  intros HK Hg. unfold update_replicas. rewrite fold_put_rows by done.
  destruct (find _ _) as [r|] eqn:Hf.
  - apply find_some in Hf as [Hr Hk]. apply bool_decide_eq_true in Hk.
    apply list_elem_of_In, elem_of_reverse, rows_where_elem in Hr as [Hfr [k' Hr]].
    pose proof (HK _ _ Hr) as ->. unfold row_key in Hk. subst k. rewrite Hr. simpl. by rewrite Hfr.
  - destruct (replicas i !! k) as [r|] eqn:Hr; [|done]. simpl. destruct (f r) eqn:Hfr; [|done].
    exfalso. eapply find_none in Hf; [|apply list_elem_of_In, elem_of_reverse, rows_where_elem; split; [exact Hfr|by exists k]].
    simpl in Hf. apply bool_decide_eq_false in Hf. apply Hf. symmetry. by apply HK.
Qed.
Lemma update_replicas_entries f g i : entries (update_replicas f g i) = entries i.
Proof.
  unfold update_replicas. generalize (rows_where f i). intros l. revert i.
  induction l as [|r l IH]; intros i; simpl; [done|]. by rewrite IH.
Qed.
Lemma update_replicas_KeyOK f g i : KeyOK (replicas i) -> keeps_key g -> KeyOK (replicas (update_replicas f g i)).
Proof.
  intros HK Hg k r. rewrite update_replicas_lookup by done. destruct (replicas i !! k) as [x|] eqn:Hk; [|done].
  simpl. intros [= <-]. destruct (f x); [|by apply HK]. destruct (Hg x) as [-> ->]. by apply HK.
Qed.

(** ** upsertReplica *)

Section Upsert.
Context (pth parent mname : string) (me : Entry) (ctoken st : string) (t : Z).
Notation up := (upsertReplica pth parent mname me ctoken st t).

Definition upserted (i : index) : replicaRow :=
  let '(ht, hv) := bestHash (e_Hashes me) in
  MkReplica pth (match replicas i !! (pth, mname) with Some old => rp_parent old | None => parent end) mname
    (e_ID me) (e_Version me) (e_Size me) (UnixNano (e_ModTime me)) ht hv ctoken st (e_Name me) t.

Lemma upsert_unfold i : up i =
  delete_replicas (fun r => bool_decide (rp_member r = mname /\ rp_parent r = parent /\
                                         memberName r = e_Name me /\ rp_path r <> pth)) (put_replica (upserted i) i).
Proof. unfold upsertReplica, upserted. by destruct (bestHash _). Qed.
Lemma upserted_key i : row_key (upserted i) = (pth, mname).
Proof. unfold upserted, row_key. by destruct (bestHash _). Qed.
Lemma upserted_cols i : rp_ctoken (upserted i) = ctoken /\ rp_state (upserted i) = st /\ rp_size (upserted i) = e_Size me
  /\ rp_member (upserted i) = mname /\ rp_path (upserted i) = pth /\ seenAt (upserted i) = t.
Proof. unfold upserted. by destruct (bestHash _). Qed.

Lemma upsert_KeyOK i : KeyOK (replicas i) -> KeyOK (replicas (up i)).
Proof. intros H. rewrite upsert_unfold. apply delete_replicas_KeyOK. rewrite put_replica_rows. by apply KeyOK_insert. Qed.
Lemma upsert_entries i : entries (up i) = entries i.
Proof. rewrite upsert_unfold, delete_replicas_entries. done. Qed.

(** The row of the copy, and every row of another member. *)
Lemma upsert_same i : KeyOK (replicas i) -> replicas (up i) !! (pth, mname) = Some (upserted i).
Proof.
  intros H. rewrite upsert_unfold, delete_replicas_lookup by (rewrite put_replica_rows; by apply KeyOK_insert).
  rewrite put_replica_rows. fold (row_key (upserted i)). rewrite upserted_key, lookup_insert_eq. simpl.
  destruct (upserted_cols i) as (_ & _ & _ & _ & -> & _). by rewrite bool_decide_eq_false_2 by naive_solver.
Qed.
Lemma upsert_other i p n : KeyOK (replicas i) -> n <> mname -> replicas (up i) !! (p, n) = replicas i !! (p, n).
Proof.
  intros H Hn. rewrite upsert_unfold, delete_replicas_lookup by (rewrite put_replica_rows; by apply KeyOK_insert).
  rewrite put_replica_rows. fold (row_key (upserted i)). rewrite upserted_key, lookup_insert_ne by naive_solver.
  destruct (replicas i !! (p, n)) as [r|] eqn:Hr; [|done]. simpl. pose proof (H _ _ Hr) as [= -> ->].
  by rewrite bool_decide_eq_false_2 by naive_solver.
Qed.
End Upsert.

(** ** The totals the triggers keep *)

Definition on_member (m : string) (r : replicaRow) (v : Z) : Z := if decide (rp_member r = m) then v else 0.
Lemma on_member_eq r v : on_member (rp_member r) r v = v.
Proof. unfold on_member. by rewrite decide_True. Qed.
Lemma on_member_ne m r v : m <> rp_member r -> on_member m r v = 0.
Proof. intros H. unfold on_member. by rewrite decide_False by congruence. Qed.
Definition bytes_on (m : string) (R : gmap (string * string) replicaRow) : Z :=
  map_fold (fun _ r n => n + on_member m r (rp_size r)) 0 R.
Definition files_on (m : string) (R : gmap (string * string) replicaRow) : Z :=
  map_fold (fun _ r n => n + on_member m r 1) 0 R.

Definition UsageOK (i : index) : Prop :=
  forall m, default (0, 0) (member_usage i !! m) = (bytes_on m (replicas i), files_on m (replicas i)).
Definition SizesOK (R : gmap (string * string) replicaRow) : Prop := map_Forall (fun _ r => 0 <= rp_size r) R.

Section Sum.
Context (v : replicaRow -> Z).
Definition total_of (R : gmap (string * string) replicaRow) : Z := map_fold (fun _ r n => n + v r) 0 R.
Lemma total_insert R k r : R !! k = None -> total_of (<[k := r]> R) = total_of R + v r.
Proof. intros H. unfold total_of. rewrite map_fold_insert_L; [done|intros; lia|done]. Qed.
Lemma total_delete R k r : R !! k = Some r -> total_of R = total_of (delete k R) + v r.
Proof.
  intros H. rewrite <- (insert_delete_id R k r H) at 1. rewrite total_insert; [done|]. apply lookup_delete_eq.
Qed.
Lemma total_nonneg R : map_Forall (fun _ r => 0 <= v r) R -> 0 <= total_of R.
Proof.
  induction R as [|k r R Hk IH] using map_ind; [done|]. intros H.
  apply map_Forall_insert in H as [Hr HR]; [|done]. rewrite total_insert by done. specialize (IH HR). lia.
Qed.
End Sum.

Lemma bytes_on_total m R : bytes_on m R = total_of (fun r => on_member m r (rp_size r)) R.
Proof. done. Qed.
Lemma files_on_total m R : files_on m R = total_of (fun r => on_member m r 1) R.
Proof. done. Qed.

Lemma usage_add_lookup m n z u :
  default (0, 0) (usage_add n z u !! m) =
  let '(b, f) := default (0, 0) (u !! m) in if decide (m = n) then (b + z, f + 1) else (b, f).
Proof.
  unfold usage_add. destruct (u !! n) as [[b f]|] eqn:Hn; destruct (decide (m = n)) as [->|Hm].
  - by rewrite Hn, lookup_insert_eq.
  - rewrite lookup_insert_ne by done. by destruct (default _ _).
  - by rewrite Hn, lookup_insert_eq.
  - rewrite lookup_insert_ne by done. by destruct (default _ _).
Qed.

(** Totals after the row [old] is gone. *)
Lemma usage_sub_exact i k old m :
  UsageOK i -> SizesOK (replicas i) -> replicas i !! k = Some old ->
  default (0, 0) (usage_sub (rp_member old) (rp_size old) (member_usage i) !! m) =
  (bytes_on m (delete k (replicas i)), files_on m (delete k (replicas i))).
Proof.
  intros HU HS Hk. specialize (HU m). rewrite bytes_on_total, files_on_total in *.
  rewrite !(total_delete _ _ _ _ Hk) in HU. specialize (HS _ _ Hk) as Hold. simpl in Hold.
  assert (Hb : 0 <= total_of (fun r => on_member m r (rp_size r)) (delete k (replicas i))).
  { apply total_nonneg. intros k' x [_ Hx]%lookup_delete_Some. specialize (HS _ _ Hx). simpl in HS.
    unfold on_member. destruct decide; lia. }
  assert (Hf : 0 <= total_of (fun r => on_member m r 1) (delete k (replicas i))).
  { apply total_nonneg. intros k' x _. unfold on_member. destruct decide; lia. }
  unfold usage_sub. unfold on_member at 2 4 in HU. destruct (decide (rp_member old = m)) as [->|Hne].
  - destruct (member_usage i !! m) as [[b f]|] eqn:Hu; simpl in HU.
    + rewrite lookup_insert_eq. simpl. injection HU as -> ->. f_equal; lia.
    + injection HU as Hb0 Hf0. lia.
  - rewrite !Z.add_0_r in HU. destruct (member_usage i !! rp_member old) as [[b f]|]; [|done].
    by rewrite lookup_insert_ne.
Qed.

Lemma put_usage r i : UsageOK i -> SizesOK (replicas i) -> UsageOK (put_replica r i).
Proof.
  intros HU HS m. unfold put_replica. simpl. rewrite usage_add_lookup.
  set (k := (rp_path r, rp_member r)).
  assert (HR : default (0, 0) (match replicas i !! k with
      | Some old => usage_sub (rp_member old) (rp_size old) (member_usage i) | None => member_usage i end !! m) =
      (bytes_on m (delete k (replicas i)), files_on m (delete k (replicas i)))).
  { destruct (replicas i !! k) as [old|] eqn:Hk; [by apply usage_sub_exact|].
    rewrite delete_id by done. apply HU. }
  rewrite HR, <- insert_delete_eq, !bytes_on_total, !files_on_total, !total_insert by apply lookup_delete_eq.
  destruct (decide (m = rp_member r)) as [->|Hne]; [by rewrite !on_member_eq|].
  by rewrite !on_member_ne, !Z.add_0_r by done.
Qed.

Lemma del_usage k i : UsageOK i -> SizesOK (replicas i) -> UsageOK (del_replica k i).
Proof.
  intros HU HS. unfold del_replica. destruct (replicas i !! k) as [old|] eqn:Hk; [|done].
  intros m. simpl. by apply usage_sub_exact.
Qed.

(** The statements of the program on replicas, row by row; every other
    statement leaves replicas and its totals alone. *)
Inductive row_stmt : index -> index -> Prop :=
| st_put r i : 0 <= rp_size r -> row_stmt i (put_replica r i)
| st_del k i : row_stmt i (del_replica k i)
| st_other i i' : replicas i' = replicas i -> member_usage i' = member_usage i -> row_stmt i i'.

Lemma row_stmt_usage i i' :
  row_stmt i i' -> UsageOK i /\ SizesOK (replicas i) -> UsageOK i' /\ SizesOK (replicas i').
Proof.
  intros [r j Hr|k j|j j' HR HU] [H1 H2].
  - split; [by apply put_usage|]. rewrite put_replica_rows. by apply map_Forall_insert_2.
  - split; [by apply del_usage|]. rewrite del_replica_rows. by apply map_Forall_delete.
  - rewrite HR. split; [|done]. unfold UsageOK. by rewrite HU, HR.
Qed.

Lemma fold_stmts {A} (f : index -> A -> index) (l : list A) i :
  (forall i a, a ∈ l -> row_stmt i (f i a)) -> rtc row_stmt i (foldl f i l).
Proof.
  revert i. induction l as [|a l IH]; intros i H; simpl; [constructor|].
  apply rtc_l with (f i a); [apply H, list_elem_of_here|]. apply IH. intros; apply H. by apply list_elem_of_further.
Qed.

(** The compound statements are sequences of these. *)
Lemma delete_stmts f i : rtc row_stmt i (delete_replicas f i).
Proof. apply fold_stmts. intros. apply st_del. Qed.
Lemma update_stmts f g i :
  SizesOK (replicas i) -> (forall r, rp_size (g r) = rp_size r) -> rtc row_stmt i (update_replicas f g i).
Proof.
  intros HS Hg. apply fold_stmts. intros j r [_ [k Hr]]%rows_where_elem. apply st_put. rewrite Hg.
  by apply (HS _ _ Hr).
Qed.
Lemma upsert_stmts pth parent mname me ctoken st t i :
  0 <= e_Size me -> rtc row_stmt i (upsertReplica pth parent mname me ctoken st t i).
Proof.
  intros H. rewrite upsert_unfold. econstructor; [|apply delete_stmts]. apply st_put.
  destruct (upserted_cols pth parent mname me ctoken st t i) as (_ & _ & -> & _). done.
Qed.
Lemma dropSubtree_stmts p i : rtc row_stmt i (dropSubtree p i).
Proof.
  unfold dropSubtree. cbv zeta.
  do 2 (match goal with |- rtc _ _ (upd _ _ ?j) => apply rtc_r with j; [|by apply st_other] end).
  etrans; [|apply delete_stmts]. by apply rtc_once, st_other.
Qed.

(** migrate and an empty index start from exact totals. *)
Lemma rebuild_usage_exact i : UsageOK (rebuild_usage i).
Proof.
  intros m. unfold rebuild_usage. simpl. unfold bytes_on, files_on. rewrite !map_fold_foldr.
  assert (H : forall (l : list ((string * string) * replicaRow)) u,
    default (0, 0) (foldl (fun u r => usage_add (rp_member r) (rp_size r) u) u (map snd l) !! m) =
    let '(b, f) := default (0, 0) (u !! m) in
    (b + foldr (uncurry (fun _ r n => n + on_member m r (rp_size r))) 0 l,
     f + foldr (uncurry (fun _ r n => n + on_member m r 1)) 0 l)).
  { induction l as [|[k r] l IH]; intros u; cbn [map foldl foldr uncurry snd].
    - destruct (default _ _). by rewrite !Z.add_0_r.
    - rewrite IH, usage_add_lookup. destruct (default _ (u !! m)) as [b f].
      destruct (decide (m = rp_member r)) as [->|Hne].
      + rewrite !on_member_eq. f_equal; lia.
      + rewrite !on_member_ne by done. f_equal; lia. }
  rewrite H, lookup_empty. done.
Qed.

Lemma migrate_usage have i : have < schemaVersion -> UsageOK (snd (migrate have i)).
Proof. intros H. unfold migrate. rewrite decide_False by lia. apply rebuild_usage_exact. Qed.

(** C22: The totals are never off.  Starting from an empty index, or from one that
    migrate brought up to date, whatever inserts, updates, deletes, subtree
    removals and other statements follow, the bytes and the file count kept per
    member are exactly those of the member's rows, provided no backend reports a
    negative size; the triggers' clamping at zero never acts. *)
Theorem usage_exact i0 i m :
  i0 = empty_index \/ (exists have j, have < schemaVersion /\ i0 = snd (migrate have j) /\ SizesOK (replicas j)) ->
  rtc row_stmt i0 i ->
  default (0, 0) (member_usage i !! m) = (bytes_on m (replicas i), files_on m (replicas i)).
Proof.
  intros H0 Hi. cut (UsageOK i /\ SizesOK (replicas i)); [intros [H _]; apply H|].
  assert (HI : UsageOK i0 /\ SizesOK (replicas i0)).
  { destruct H0 as [->|(have & j & Hh & -> & HS)].
    - split; [intros n; unfold empty_index; simpl; by rewrite lookup_empty|apply map_Forall_empty].
    - split; [by apply migrate_usage|]. unfold migrate. rewrite decide_False by lia. exact HS. }
  clear H0. induction Hi as [|x y z Hxy _ IH]; [done|]. apply IH. by eapply row_stmt_usage.
Qed.
