(* ===== verification/PoolInv.v ===== *)
(** * What every operation of a pool keeps true of its index

    [IndexOK]: rows are stored under their own keys, a replica's state is one of
    the four the program knows, and no two paths share an id.  [KI m]: running
    [m] keeps it; a lemma per operation, found by [eauto] in the database
    [keeps]. *)
From S2P Require Import Prelude Filepath GoLib SqlText Retry Health PoolState PoolMember PoolPlacement PoolIndex PoolList PoolRepair PoolBalance PoolRead PoolWrite PoolTree PoolOps PoolDelta PoolStatus PoolRows.
Open Scope Z_scope.

Definition known_states : list string := ["live"; "pending"; "stale"; "missing"].
Definition StatesOK (R : gmap (string * string) replicaRow) : Prop := map_Forall (fun _ r => rp_state r ∈ known_states) R.
Definition IdsOK (I : gmap string string) : Prop := forall p q id, I !! p = Some id -> I !! q = Some id -> p = q.
Record IndexOK (i : index) : Prop := {
  ok_keys : KeyOK (replicas i); ok_states : StatesOK (replicas i); ok_ids : IdsOK (ids i)
}.

Lemma IndexOK_empty : IndexOK empty_index.
Proof.
  split; [intros k r Hk|intros k r Hk|intros p q id Hk]; simpl in Hk; by rewrite lookup_empty in Hk.
Qed.

Create HintDb keeps.

(** ** Statements *)

Definition kept (f : index -> index) : Prop := forall i, IndexOK i -> IndexOK (f i).

Lemma kept_other f : (forall i, replicas (f i) = replicas i) -> (forall i, ids (f i) = ids i) -> kept f.
Proof. intros H1 H2 i [A B C]. split; rewrite ?H1, ?H2; done. Qed.
Lemma kept_rows f :
  (forall i, KeyOK (replicas i) -> StatesOK (replicas i) -> KeyOK (replicas (f i)) /\ StatesOK (replicas (f i))) ->
  (forall i, ids (f i) = ids i) -> kept f.
Proof. intros H1 H2 i [A B C]. destruct (H1 i A B). split; rewrite ?H2; done. Qed.
(** The replicas and the ids of [i'] are those of [i]. *)
Lemma ok_same i i' : replicas i' = replicas i -> ids i' = ids i -> IndexOK i -> IndexOK i'.
Proof. intros H1 H2 [A B C]. split; rewrite ?H1, ?H2; done. Qed.
Lemma kept_foldl {A} (f : index -> A -> index) l : (forall a, kept (fun i => f i a)) -> kept (fun i => foldl f i l).
Proof. intros H. induction l as [|a l IH]; intros i Hi; simpl; [done|]. apply IH. by apply (H a). Qed.

Lemma fold_del_ids (l : list replicaRow) i :
  ids (foldl (fun i r => del_replica (rp_path r, rp_member r) i) i l) = ids i.
Proof.
  revert i. induction l as [|r l IH]; intros i; simpl; [done|]. rewrite IH. unfold del_replica. by destruct (replicas i !! _).
Qed.
Lemma fold_put_ids g (l : list replicaRow) i : ids (foldl (fun i r => put_replica (g r) i) i l) = ids i.
Proof. revert i. induction l as [|r l IH]; intros i; simpl; [done|]. by rewrite IH. Qed.

Lemma kept_del k : kept (del_replica k).
Proof.
  apply kept_rows.
  - intros i A B. rewrite del_replica_rows. split; [by apply KeyOK_delete|by apply map_Forall_delete].
  - intros i. unfold del_replica. by destruct (replicas i !! k).
Qed.
Lemma kept_delete f : kept (delete_replicas f).
Proof.
  apply kept_rows; [|intros i; apply fold_del_ids].
  intros i A B. split; [by apply delete_replicas_KeyOK|]. intros k r. rewrite delete_replicas_lookup by done.
  destruct (replicas i !! k) eqn:Hk; [|done]. simpl. destruct (f r0); [done|]. intros [= ->]. by apply (B k).
Qed.
Lemma kept_update f g :
  keeps_key g -> (forall r, rp_state r ∈ known_states -> rp_state (g r) ∈ known_states) -> kept (update_replicas f g).
Proof.
  intros Hg Hs. apply kept_rows; [|intros i; apply fold_put_ids].
  intros i A B. split; [by apply update_replicas_KeyOK|]. intros k r. rewrite update_replicas_lookup by done.
  destruct (replicas i !! k) as [x|] eqn:Hk; [|done]. simpl. intros [= <-]. specialize (B _ _ Hk).
  destruct (f x); [by apply Hs|done].
Qed.
Lemma kept_upsert pth parent n me ct st t : st ∈ known_states -> kept (upsertReplica pth parent n me ct st t).
Proof.
  intros Hst i Hi. rewrite upsert_unfold. apply kept_delete.
  destruct Hi as [A B C]. pose proof (upserted_key pth parent n me ct st t i) as Hk. split; [|..|done].
  - rewrite put_replica_rows. by apply KeyOK_insert.
  - rewrite put_replica_rows. apply map_Forall_insert_2; [|done].
    destruct (upserted_cols pth parent n me ct st t i) as (_ & -> & _). done.
Qed.

Ltac set_state := intros; simpl; apply (bool_decide_unpack _); exact I.
(** A statement on one of the other tables. *)
Ltac other := apply kept_other; intros; reflexivity.

Lemma kept_subtree p : kept (dropSubtree p).
Proof.
  intros i Hi. unfold dropSubtree. cbv zeta. eapply (ok_same (delete_replicas _ _)); [reflexivity..|].
  apply kept_delete. by apply (ok_same i).
Qed.
Lemma kept_divergence p n k d t : kept (recordDivergence p n k d t).
Proof. other. Qed.
Lemma kept_entry p r t : kept (upsertEntry p r t).
Proof. other. Qed.
Lemma kept_put_dir m p id t : kept (put_dir m p id t).
Proof. other. Qed.
Lemma kept_enqueue p r n t : kept (enqueue p r n t).
Proof. other. Qed.
Lemma kept_stale p n ct : kept (stale_others p n ct).
Proof. apply kept_update; [by intros r|set_state]. Qed.

Lemma kept_publish_obs a b c d e t ob : kept (fun i => publish_obs a b c d e t i ob).
Proof.
  unfold publish_obs. intros i Hi. destruct (ob_snapshot ob); [done|]. apply kept_upsert; [|done].
  destruct decide; set_state.
Qed.
Lemma kept_forget_row n h t kr : kept (fun i => forget_row n h t i kr).
Proof.
  destruct kr as [k row]. intros i Hi. unfold forget_row. cbv zeta. apply (kept_del k) in Hi.
  destruct (h !! _); [|done]. destruct decide; [by apply kept_divergence|done].
Qed.
Lemma kept_drop_gone p a : kept (drop_gone p a).
Proof. unfold drop_gone. intros i Hi. apply (kept_foldl (fun i p => dropSubtree p i)); [intros; apply kept_subtree|done]. Qed.
Lemma kept_commit `{Pool} m p me h ct t : kept (commit_upload m p me h ct t).
Proof.
  intros i Hi. unfold commit_upload. destruct (bestHash _) as [ht hv]. cbv zeta.
  assert (H1 : IndexOK (stale_others p (m_name m) ct (upsertReplica p (parentOf p) (m_name m) me ct "live" t
    (upsertEntry p (MkEntryRow (parentOf p) KindFile (e_Size me) (UnixNano (e_ModTime me)) ct ht hv "" t) t i))))
    by (apply kept_stale, kept_upsert; [set_state|by apply kept_entry]).
  destruct (decide (1 < _)); destruct (decide (h <> "")); try done; by eapply (ok_same (stale_others _ _ _ _)); [reflexivity..|].
Qed.

(** *** Moving paths *)

Lemma rekey_lookup {K A} `{Countable K} (f : K -> K) (m m' : gmap K A) k v :
  rekey f m = Some m' -> m' !! k = Some v -> exists k0, m !! k0 = Some v /\ f k0 = k.
Proof.
  unfold rekey. destruct decide as [Hnd|]; [|done]. intros [= <-] Hl.
  apply elem_of_list_to_map_2, list_elem_of_fmap in Hl as ([k0 v0] & [= -> ->] & Hin).
  apply elem_of_map_to_list in Hin. eauto.
Qed.
Lemma IdsOK_rekey f m m' : rekey f m = Some m' -> IdsOK m -> IdsOK m'.
Proof.
  intros Hr HI p q id Hp Hq. eapply rekey_lookup in Hp as (p0 & Hp & <-); [|done].
  eapply rekey_lookup in Hq as (q0 & Hq & <-); [|done]. by rewrite (HI _ _ _ Hp Hq).
Qed.
Lemma rekey_replicas_ok f i i' :
  rekey_replicas f i = Some i' -> (forall r, rp_state (f r) = rp_state r) -> IndexOK i -> IndexOK i'.
Proof.
  unfold rekey_replicas. destruct decide as [Hnd|]; [|done]. intros [= <-] Hf [A B C]. split; [| |exact C]; simpl.
  - intros k r Hl. apply elem_of_list_to_map_2, list_elem_of_fmap in Hl as (x & [= -> ->] & _). done.
  - intros k r Hl. apply elem_of_list_to_map_2, list_elem_of_fmap in Hl as (x & [= -> ->] & Hx).
    apply list_elem_of_fmap in Hx as ([k0 y] & -> & Hy). apply elem_of_map_to_list in Hy. simpl.
    rewrite Hf. by apply (B _ _ Hy).
Qed.
Lemma mark_pending_ok p : kept (mark_pending p).
Proof. intros i. apply kept_update; [by intros r|set_state]. Qed.

Lemma movePaths_ok old new i i' : movePaths old new i = Some i' -> IndexOK i -> IndexOK i'.
Proof.
  intros H Hi. unfold movePaths in H.
  destruct (rekey _ (ids i)) as [ids'|] eqn:H1; [|done].
  destruct (rekey _ (entries i)) as [ents|]; [|done].
  simpl in H. destruct (rekey_replicas _ i) as [j|] eqn:H2; [|done]. simpl in H.
  assert (Hj : IndexOK j) by (eapply rekey_replicas_ok; [exact H2|by intros|done]).
  destruct (rekey _ (member_dirs j)); [|done]. simpl in H.
  destruct (rekey _ (divergences j)); [|done]. simpl in H.
  destruct (rekey _ (repair_queue j)); [|done]. simpl in H.
  destruct (rekey _ (rebalance_queue j)); [|done]. simpl in H.
  injection H as <-. apply mark_pending_ok.
  assert (Hids : IdsOK ids') by (eapply IdsOK_rekey; [exact H1|apply Hi]).
  eapply (ok_same (update_replicas _ _ _)); [reflexivity..|].
  apply kept_update; [by intros r|by intros|]. destruct Hj as [A B C]. split; [exact A|exact B|exact Hids].
Qed.

Lemma relocated_ok `{Pool} kind old new applied t i i' :
  relocated kind old new applied t i = Some i' -> IndexOK i -> IndexOK i'.
Proof.
  unfold relocated. destruct (movePaths _ _ _) as [j|] eqn:Hm; [|done]. intros [= <-] Hi.
  apply (kept_foldl (set_applied new kind t)).
  { intros [n e] x Hx. destruct kind; simpl; [|by apply (ok_same x)]. apply kept_update; [by intros r|by intros|done]. }
  apply (kept_foldl (fun i m => if decide (is_Some (applied !! m_name m)) then i else mark_owed new m i)).
  { intros m x Hx. destruct decide; [done|]. apply kept_update; [by intros r|set_state|done]. }
  eapply movePaths_ok; [exact Hm|]. pose proof (kept_subtree new i Hi) as [A B C]. split; [exact A|exact B|].
  intros p q id [Hp _]%map_lookup_filter_Some [Hq _]%map_lookup_filter_Some. by apply (C p q id).
Qed.
Lemma kept_adopt_dir m e c t : kept (adopt_dir m e c t).
Proof.
  intros i Hi. unfold adopt_dir. cbv zeta. eapply (ok_same (update_replicas _ _ _)); [reflexivity..|].
  apply kept_update; [by intros r|set_state|]. by apply (ok_same i).
Qed.
Lemma kept_adopt_file m e c t : kept (adopt_file m e c t).
Proof. apply kept_update; [by intros r|set_state]. Qed.
Lemma kept_forget_index : kept forget_index.
Proof.
  intros i Hi. unfold forget_index. cbv zeta. eapply (ok_same (delete_replicas _ _)); [reflexivity..|].
  apply kept_delete. by apply (ok_same i).
Qed.
#[export] Hint Resolve kept_del kept_delete kept_subtree kept_divergence kept_entry kept_put_dir kept_enqueue kept_stale kept_drop_gone kept_commit kept_adopt_dir kept_adopt_file kept_forget_index : keeps.

(** ** Operations *)

Section Keeps.
Context {W : Type} {E : Env W} {P : Pool}.

Definition KI {A} (m : M W A) : Prop := forall s, IndexOK (idx s) -> IndexOK (idx (snd (m s))).

Lemma ki_let {A B} (m : M W A) (k : A -> M W B) : KI m -> (forall a, KI (k a)) -> KI (pbind m k).
Proof. intros Hm Hk s Hs. unfold pbind. specialize (Hm s Hs). destruct (m s) as [a s']. by apply Hk. Qed.
Lemma ki_do {A B} (m : M W A) (k : M W B) : KI m -> KI k -> KI (pthen m k).
Proof. intros Hm Hk s Hs. unfold pthen. by apply Hk, Hm. Qed.
Lemma ki_ret {A} (a : A) : KI (ret a).
Proof. by intros s. Qed.
Lemma ki_reads {A} (g : pst W -> A) : KI (reads g).
Proof. by intros s. Qed.
Lemma ki_call {A} (g : W -> A * W) : KI (call g).
Proof. intros s Hs. unfold call. by destruct (g (world s)). Qed.
Lemma ki_modify (f : pst W -> pst W) : (forall s, idx (f s) = idx s) -> KI (modify f).
Proof. intros H s Hs. unfold modify. simpl. by rewrite H. Qed.
Lemma ki_exec f : kept f -> KI (exec f).
Proof. intros H s Hs. by apply H. Qed.
Lemma ki_execIndex f : kept f -> KI (execIndex f).
Proof. intros H s Hs. by apply H. Qed.
Lemma ki_tx {A} (m : M W (res gerr A)) : KI m -> KI (tx m).
Proof. intros Hm s Hs. specialize (Hm s Hs). unfold tx. by destruct (m s) as [[a|e] s']. Qed.
Lemma ki_lift {A} (m : M W A) : KI m -> KI (modify (fun s => snd (m s))).
Proof. intros Hm s Hs. by apply Hm. Qed.
End Keeps.
#[export] Hint Resolve ki_ret ki_reads ki_call : keeps.

Ltac ki_step :=
  match goal with
  | |- KI (match ?x with _ => _ end) => destruct x
  | |- KI (let '_ := ?x in _) => destruct x
  | |- KI (ret _) => apply ki_ret
  | |- KI (reads _) => apply ki_reads
  | |- _ => solve [eauto 2 with keeps]
  | |- KI (exec _) => apply ki_exec; first [solve [eauto 2 with keeps] | other]
  | |- KI (execIndex _) => apply ki_execIndex; first [solve [eauto 2 with keeps] | other]
  | |- KI (pbind _ _) => apply ki_let; [|intros ?]
  | |- KI (pthen _ _) => apply ki_do
  | |- KI (tx _) => apply ki_tx
  | |- KI (modify (fun s => snd (_ s))) => apply ki_lift
  | |- KI (modify _) => apply ki_modify; intros; reflexivity
  end.
Ltac kis := repeat ki_step.

Section Members.
Context {W : Type} {E : Env W} {P : Pool}.
Notation K := (KI (W := W)).

Lemma note_ki m e : K (note m e).  Proof. unfold note. kis. Qed.
Hint Resolve note_ki : keeps.
Lemma markFull_ki m : K (markFull m).  Proof. unfold markFull. kis. Qed.
Hint Resolve markFull_ki : keeps.
Lemma noteWrite_ki m e : K (noteWrite m e).  Proof. unfold noteWrite. kis. Qed.
Hint Resolve noteWrite_ki : keeps.
Lemma noteLatency_ki m d n : K (noteLatency m d n).  Proof. unfold noteLatency. kis. Qed.
Hint Resolve noteLatency_ki : keeps.
Lemma list_pages_ki fuel m d c out : K (list_pages fuel m d c out).
Proof. revert c out. induction fuel; intros; cbn [list_pages]; kis. Qed.
Hint Resolve list_pages_ki : keeps.
Lemma listAll_ki m d : K (listAll m d).  Proof. unfold listAll. kis. Qed.
Hint Resolve listAll_ki : keeps.
Lemma cachedDirID_ki m p : K (cachedDirID m p).
Proof. intros s Hs. unfold cachedDirID. destruct (dirIDs _ !! _); [done|]. by destruct (member_dirs _ !! _). Qed.
Hint Resolve cachedDirID_ki : keeps.
Lemma rememberDirID_ki m p id : K (rememberDirID m p id).  Proof. unfold rememberDirID. kis. Qed.
Hint Resolve rememberDirID_ki : keeps.
Lemma forgetDirID_ki m p : K (forgetDirID m p).  Proof. unfold forgetDirID. kis. Qed.
Hint Resolve forgetDirID_ki : keeps.
Lemma markEnumerated_ki m p : K (markEnumerated m p).  Proof. unfold markEnumerated. kis. Qed.
Hint Resolve markEnumerated_ki : keeps.
Lemma walk_root_ki m segs id : K (walk_root m segs id).
Proof. revert id. induction segs; intros; cbn [walk_root]; kis. Qed.
Hint Resolve walk_root_ki : keeps.
Lemma rootDirID_ki m : K (rootDirID m).  Proof. unfold rootDirID. kis. Qed.
Hint Resolve rootDirID_ki : keeps.
Lemma learn_dirs_ki m p n es f : K (learn_dirs m p n es f).
Proof. revert f. induction es; intros; cbn [learn_dirs]; kis. Qed.
Hint Resolve learn_dirs_ki : keeps.
Lemma dir_id_ki fuel m p : K (dir_id fuel m p).
Proof. revert p. induction fuel; intros; cbn [dir_id]; kis. Qed.
Lemma dirID_ki m p : K (dirID m p).  Proof. apply dir_id_ki. Qed.
Hint Resolve dirID_ki : keeps.
Lemma SetMemberState_ki n st : K (SetMemberState n st).  Proof. unfold SetMemberState. kis. Qed.
Lemma ProbeOnce_ki : K ProbeOnce.
Proof. unfold ProbeOnce. induction members; cbn [probe_all]; [kis|]. apply ki_do; [unfold probe_member; kis|done]. Qed.

Lemma free_ki m : K (free m).  Proof. unfold free, refresh_space, ask_quota. kis. Qed.
Hint Resolve free_ki : keeps.
Lemma memberQuota_ki m : K (memberQuota m).  Proof. unfold memberQuota. kis. Qed.
Hint Resolve memberQuota_ki : keeps.
Lemma loadLearned_ki m : K (loadLearned m).  Proof. by intros s. Qed.
Hint Resolve loadLearned_ki : keeps.
Lemma canHold_ki m a b : K (canHold m a b).  Proof. unfold canHold, naming. kis. Qed.
Hint Resolve canHold_ki : keeps.
Lemma learnDenial_ki m n : K (learnDenial m n).  Proof. unfold learnDenial. kis. Qed.
Hint Resolve learnDenial_ki : keeps.
Lemma score_member_ki p h t m : K (score_member p h t m).  Proof. unfold score_member. kis. Qed.
Hint Resolve score_member_ki : keeps.
Lemma score_all_ki p h t ms : K (score_all p h t ms).  Proof. induction ms; cbn [score_all]; kis. Qed.
Hint Resolve score_all_ki : keeps.
Lemma candidates_ki p : K (candidates p).  Proof. unfold candidates. kis. Qed.

Lemma remove_holds_ki l : K (remove_holds l).
Proof. induction l; cbn [remove_holds]; unfold remove_hold, delete_hold; kis. Qed.
Hint Resolve remove_holds_ki : keeps.
Lemma releaseHolds_ki p : K (releaseHolds p).  Proof. unfold releaseHolds. kis. Qed.
Lemma holdFor_ki p c : K (holdFor p c).  Proof. unfold holdFor, delete_hold. kis. Qed.
Lemma trim_list_ki hs n t : K (trim_list hs n t).
Proof. revert t. induction hs as [|[hp h] hs IH]; intros; cbn [trim_list]; [kis|]. cbv zeta. unfold remove_hold, delete_hold. kis. Qed.
Hint Resolve trim_list_ki : keeps.
Lemma trimHolds_ki : K trimHolds.  Proof. unfold trimHolds. kis. Qed.
Hint Resolve trimHolds_ki : keeps.
Lemma takeHold_ki l p n : K (takeHold l p n).  Proof. unfold takeHold. kis. Qed.
Lemma reconcileHolds_ki : K reconcileHolds.
Proof.
  assert (H1 : forall l, K (delete_holds l)) by (induction l; cbn [delete_holds]; unfold delete_hold; kis).
  assert (H2 : forall d k c es n, K (remove_orphans d k c es n)).
  { intros d k c es. induction es as [|[a b] es IH]; intros n; cbn [remove_orphans]; [kis|]. cbv zeta. kis. }
  unfold reconcileHolds. kis.
Qed.
End Members.
#[export] Hint Resolve note_ki markFull_ki noteWrite_ki noteLatency_ki listAll_ki cachedDirID_ki rememberDirID_ki forgetDirID_ki markEnumerated_ki rootDirID_ki learn_dirs_ki dirID_ki SetMemberState_ki ProbeOnce_ki free_ki memberQuota_ki canHold_ki learnDenial_ki candidates_ki releaseHolds_ki holdFor_ki takeHold_ki reconcileHolds_ki : keeps.
