(* ===== verification/PoolKeep.v ===== *)
(** * The index of a running pool stays well formed

    A lemma per operation that [IndexOK] is kept, and the theorem about every
    run of a pool, calls and background ticks in any order. *)
From S2P Require Import Prelude Filepath GoLib SqlText Retry Health PoolState PoolMember PoolPlacement PoolIndex PoolList PoolRepair PoolBalance PoolRead PoolWrite PoolTree PoolOps PoolDelta PoolStatus PoolRows PoolInv.
Open Scope Z_scope.

Section Keep.
Context {W : Type} {E : Env W} {P : Pool}.
Notation K := (KI (W := W)).

(** ** Ids *)

Lemma IdsOK_insert (I : gmap string string) p id :
  IdsOK I -> id ∉ map snd (map_to_list I) -> IdsOK (<[p := id]> I).
Proof.
  intros HI Hn. assert (Hu : forall q, I !! q = Some id -> False).
  { intros q Hq. apply Hn. apply list_elem_of_fmap. exists (q, id). split; [done|]. by apply elem_of_map_to_list. }
  intros q r x. destruct (decide (q = p)) as [->|Hq], (decide (r = p)) as [->|Hr]; [done|..];
    rewrite ?lookup_insert_eq, ?lookup_insert_ne by done.
  - intros [= <-] Hx. by destruct (Hu r).
  - intros Hx [= <-]. by destruct (Hu q).
  - apply HI.
Qed.
Lemma pathOf_ki id : K (pathOf id).  Proof. unfold pathOf. kis. Qed.
Hint Resolve pathOf_ki : keeps.
Lemma kept_new_id p id :
  kept (fun i => if decide (id ∈ map snd (map_to_list (ids i))) then i else i <| ids ::= <[p := id]> |>).
Proof.
  intros i Hi. destruct (decide _) as [|Hn]; [done|]. destruct Hi as [A B C]. split; [exact A|exact B|].
  by apply IdsOK_insert.
Qed.
Lemma idFor_ki p : K (idFor p).
Proof.
  unfold idFor. destruct (decide _); [kis|]. apply ki_let; [kis|]. intros [id|]; [kis|].
  apply ki_let; [kis|]. intros id. apply ki_do; [|kis]. apply ki_execIndex, kept_new_id.
Qed.
Hint Resolve idFor_ki : keeps.
Lemma idForTx_ki p : K (idForTx p).
Proof.
  unfold idForTx. destruct (decide _); [kis|]. apply ki_let; [kis|]. intros [id|]; [kis|].
  apply ki_let; [kis|]. intros id s Hs. unfold pbind, reads. case_bool_decide as Hn; [done|].
  unfold pthen, exec, modify, ret. simpl. destruct Hs as [A B C]. split; [exact A|exact B|]. by apply IdsOK_insert.
Qed.
Hint Resolve idForTx_ki : keeps.

(** ** Listings *)

Lemma ask_all_ki p ms : K (ask_all p ms).
Proof.
  assert (H : forall m, K (ask_member p m)) by (intros; unfold ask_member; kis).
  induction ms; cbn [ask_all]; kis.
Qed.
Hint Resolve ask_all_ki : keeps.
Lemma ki_exec_fold {A} (f : index -> A -> index) l : (forall a, kept (fun i => f i a)) -> K (exec (fun i => foldl f i l)).
Proof. intros H. apply ki_exec. intros i. by apply kept_foldl. Qed.
Lemma publishGroup_ki g a b c d e f t acc : K (publishGroup g a b c d e f t acc).
Proof.
  unfold publishGroup. cbv zeta. destruct (bestHash _) as [ht hv]. apply ki_do; [kis|]. apply ki_do; [|kis].
  apply ki_exec_fold. intros ob. apply kept_publish_obs.
Qed.
Hint Resolve publishGroup_ki : keeps.
Lemma rememberDirIDTx_ki m p id t : K (rememberDirIDTx m p id t).  Proof. unfold rememberDirIDTx. kis. Qed.
Hint Resolve rememberDirIDTx_ki : keeps.
Lemma forgetDirIDTx_ki m p : K (forgetDirIDTx m p).  Proof. unfold forgetDirIDTx. kis. Qed.
Hint Resolve forgetDirIDTx_ki : keeps.
Lemma publish_dir_obs_ki c t l mt a : K (publish_dir_obs c t l mt a).
Proof. revert mt a. induction l; intros; cbn [publish_dir_obs]; kis. Qed.
Hint Resolve publish_dir_obs_ki : keeps.
Lemma record_all_ki p k d t l : K (record_all p k d t l).
Proof. induction l; cbn [record_all]; kis. Qed.
Hint Resolve record_all_ki : keeps.
Lemma publish_conflicts_ki p d n c t gs a : K (publish_conflicts p d n c t gs a).
Proof. revert a. induction gs; intros; cbn [publish_conflicts]; cbv zeta; kis. Qed.
Hint Resolve publish_conflicts_ki : keeps.
Lemma publish_name_ki p d t n l a : K (publish_name p d t n l a).
Proof. unfold publish_name. cbv zeta. kis. Qed.
Hint Resolve publish_name_ki : keeps.
Lemma publish_names_ki p d t l a : K (publish_names p d t l a).
Proof. revert a. induction l as [|[n o] l IH]; intros; cbn [publish_names]; kis. Qed.
Hint Resolve publish_names_ki : keeps.
Lemma forget_dirs_ki m l : K (forget_dirs m l).
Proof. induction l; cbn [forget_dirs]; kis. Qed.
Hint Resolve forget_dirs_ki : keeps.
Lemma reconcile_ki p rows dirs t a rs : K (reconcile p rows dirs t a rs).
Proof.
  assert (H : forall r, K (reconcile_result p rows dirs t a r)).
  { intros r. unfold reconcile_result. destruct (ml_err r); [kis|]. cbv zeta. apply ki_do; [kis|]. apply ki_do; [|kis].
    apply ki_exec_fold. intros kr. apply kept_forget_row. }
  induction rs; cbn [reconcile]; kis.
Qed.
Hint Resolve reconcile_ki : keeps.
Lemma listDir_ki p : K (listDir p).
Proof. unfold listDir. apply ki_let; [kis|]. intros rs. apply ki_let; [kis|]. intros [e|]; [kis|]. cbv zeta. kis. Qed.
Hint Resolve listDir_ki : keeps.
Lemma ScrubPath_ki p : K (ScrubPath p).  Proof. unfold ScrubPath. cbv zeta. kis. Qed.
Hint Resolve ScrubPath_ki : keeps.
Lemma PoolStat_ki id : K (PoolStat id).  Proof. unfold PoolStat, entryFromRow. kis. Qed.
Lemma PoolList_ki a b : K (PoolList a b).  Proof. unfold PoolList. kis. Qed.

(** ** Repair *)

Lemma findDir_ki m a b : K (findDir m a b).  Proof. unfold findDir. kis. Qed.
Hint Resolve findDir_ki : keeps.
Lemma make_root_ki m segs id : K (make_root m segs id).
Proof. revert id. induction segs; intros; cbn [make_root]; cbv zeta; kis. Qed.
Hint Resolve make_root_ki : keeps.
Lemma ensureRoot_ki m : K (ensureRoot m).  Proof. unfold ensureRoot. kis. Qed.
Hint Resolve ensureRoot_ki : keeps.
Lemma ensure_dir_ki fuel m p : K (ensure_dir fuel m p).
Proof. revert p. induction fuel; intros; cbn [ensure_dir]; kis. Qed.
Lemma ensureDir_ki m p : K (ensureDir m p).  Proof. apply ensure_dir_ki. Qed.
Hint Resolve ensureDir_ki : keeps.
Lemma serverCopy_ki p l d i : K (serverCopy p l d i).  Proof. unfold serverCopy. kis. Qed.
Hint Resolve serverCopy_ki : keeps.
Lemma openSource_ki p r : K (openSource p r).  Proof. unfold openSource. kis. Qed.
Hint Resolve openSource_ki : keeps.
Lemma note_reads_ki src rs : K (note_reads src rs).
Proof. destruct src; [destruct rs; apply ki_ret| |destruct rs; apply ki_ret]. induction rs; cbn [note_reads]; kis. Qed.
Hint Resolve note_reads_ki : keeps.
Lemma sending_ki {A} d src (f : W -> (res gerr A * list (option gerr)) * W) : K (sending d src f).
Proof. unfold sending, noted_write. kis. Qed.
Hint Resolve sending_ki : keeps.
Lemma upload_parts_ki d ss src sz ps left i acc : K (upload_parts d ss src sz ps left i acc).
Proof. revert i acc. induction left; intros; cbn [upload_parts]; cbv zeta; kis. Qed.
Hint Resolve upload_parts_ki : keeps.
Lemma send_file_ki d di n src sz h : K (send_file d di n src sz h).
Proof. unfold send_file, noted_write. cbv zeta. kis. Qed.
Hint Resolve send_file_ki : keeps.
Lemma record_copy_ki p d e c : K (record_copy p d e c).
Proof. unfold record_copy. apply ki_let; [kis|]. intros t. apply ki_tx, ki_do; [|kis]. apply ki_exec, kept_upsert. set_state. Qed.
Hint Resolve record_copy_ki : keeps.
Lemma copyReplica_ki p r l d : K (copyReplica p r l d).  Proof. unfold copyReplica. kis. Qed.
Hint Resolve copyReplica_ki : keeps.
Lemma enqueueRepair_ki p r n : K (enqueueRepair p r n).  Proof. unfold enqueueRepair. kis. Qed.
Hint Resolve enqueueRepair_ki : keeps.
Lemma ScanOnce_ki : K ScanOnce.
Proof.
  unfold ScanOnce. apply ki_let; [kis|]. intros fs. generalize 0.
  induction fs as [|[p c] fs IH]; intros n; cbn [scan_files]; cbv zeta; kis.
Qed.
Hint Resolve ScanOnce_ki : keeps.
Lemma repairTarget_ki p l : K (repairTarget p l).  Proof. unfold repairTarget. kis. Qed.
Hint Resolve repairTarget_ki : keeps.
Lemma repair_loop_ki fuel p r t l acc : K (repair_loop fuel p r t l acc).
Proof. revert l acc. induction fuel; intros; cbn [repair_loop]; kis. Qed.
Hint Resolve repair_loop_ki : keeps.
Lemma repairPath_ki p : K (repairPath p).  Proof. unfold repairPath, dequeue. cbv zeta. kis. Qed.
Hint Resolve repairPath_ki : keeps.
Lemma RepairOnce_ki : K RepairOnce.
Proof.
  unfold RepairOnce. apply ki_let; [kis|]. intros ds. generalize (@nil (Z * option gerr)).
  induction ds as [|[p r] ds IH]; intros rs; cbn [repair_batch]; [kis|].
  apply ki_let; [kis|]. intros [e|]; [kis|]. apply ki_let; [unfold repairDue; kis|]. intros r1. apply IH.
Qed.
Hint Resolve RepairOnce_ki : keeps.

(** ** Moving, trimming, draining *)

Lemma dropReplica_ki p m : K (dropReplica p m).  Proof. unfold dropReplica. cbv zeta. kis. Qed.
Hint Resolve dropReplica_ki : keeps.
Lemma moveReplica_ki p a b : K (moveReplica p a b).  Proof. unfold moveReplica. cbv zeta. kis. Qed.
Hint Resolve moveReplica_ki : keeps.
Lemma set_move_ki p f : K (set_move p f).  Proof. unfold set_move. kis. Qed.
Hint Resolve set_move_ki : keeps.
Lemma RebalanceOnce_ki : K RebalanceOnce.  Proof. unfold RebalanceOnce. kis. Qed.
Lemma fills_ki : K fills.
Proof. unfold fills. induction members; cbn [fill_all]; kis. Qed.
Hint Resolve fills_ki : keeps.
Lemma capacityOf_ki m : K (capacityOf m).  Proof. unfold capacityOf. kis. Qed.
Hint Resolve capacityOf_ki : keeps.
Lemma movableFrom_ki a b : K (movableFrom a b).
Proof.
  unfold movableFrom. apply ki_let; [kis|]. intros l. induction l; cbn [keep_allowed]; kis.
Qed.
Hint Resolve movableFrom_ki : keeps.
Lemma kept_queue_moves id t l : kept (fun i => foldl (queue_move id t) i l).
Proof. apply kept_foldl. intros mv. other. Qed.
Lemma PlanRebalance_ki x d : K (PlanRebalance x d).
Proof.
  unfold PlanRebalance. cbv zeta. apply ki_let; [kis|]. intros fs. destruct (by_ratio fs) as [|a [|b l]]; [kis..|].
  destruct (fle _ _); [kis|]. apply ki_let; [kis|]. intros c1. apply ki_let; [kis|]. intros c2.
  destruct (decide (half_gap _ _ _ <= 0)); [kis|]. apply ki_let; [kis|]. intros cs. apply ki_let; [kis|]. intros now_.
  destruct (select_moves _ _ _ _ _ _) as [mvs bytes]. destruct (decide (mvs = [])); [kis|]. destruct d; [kis|].
  apply ki_do; [|kis]. apply ki_tx, ki_do; [|kis]. apply ki_exec, kept_queue_moves.
Qed.
Lemma backfill_ki : K backfillIfNeeded.
Proof. unfold backfillIfNeeded. kis; apply PlanRebalance_ki. Qed.
Lemma worstPlacedFirst_ki p l : K (worstPlacedFirst p l).  Proof. unfold worstPlacedFirst. kis. Qed.
Hint Resolve worstPlacedFirst_ki : keeps.
Lemma trim_rows_ki c t vs l n : K (trim_rows c t vs l n).
Proof. revert l n. induction vs; intros; cbn [trim_rows]; kis. Qed.
Hint Resolve trim_rows_ki : keeps.
Lemma TrimOnce_ki : K TrimOnce.
Proof.
  unfold TrimOnce. apply ki_let; [kis|]. intros fs. apply ki_let; [kis|]. intros c. generalize 0.
  induction fs as [|[p t] fs IH]; intros k; cbn [trim_files]; [kis|]. apply ki_let; [unfold trim_file; cbv zeta; kis|done].
Qed.
Lemma drain_copies_ki m cs n b : K (drain_copies m cs n b).
Proof. revert n b. induction cs as [|[p c] cs IH]; intros; cbn [drain_copies]; kis. Qed.
Hint Resolve drain_copies_ki : keeps.
Lemma drain_members_ki ms n b : K (drain_members ms n b).
Proof. revert n b. induction ms; intros; cbn [drain_members]; unfold drain_member; kis. Qed.
Hint Resolve drain_members_ki : keeps.
Lemma DrainOnce_ki : K DrainOnce.  Proof. unfold DrainOnce. kis. Qed.
End Keep.
#[export] Hint Resolve pathOf_ki idFor_ki idForTx_ki listDir_ki ScrubPath_ki PoolStat_ki PoolList_ki findDir_ki ensureDir_ki forgetDirIDTx_ki enqueueRepair_ki ScanOnce_ki repairPath_ki RepairOnce_ki RebalanceOnce_ki PlanRebalance_ki backfill_ki TrimOnce_ki DrainOnce_ki : keeps.

(** ** Reads, writes, tree operations, replay *)

Section Calls.
Context {W : Type} {E : Env W} {P : Pool}.
Notation K := (KI (W := W)).

Lemma kept_missing r : kept (update_replicas (fun x => bool_decide (rp_path x = rp_path r /\ rp_member x = rp_member r))
  (fun x => x <| rp_state := "missing" |>)).
Proof. apply kept_update; [by intros x|set_state]. Qed.
Lemma confirmMissing_ki m r : K (confirmMissing m r).
Proof. unfold confirmMissing. apply ki_let; [kis|]. intros [e|e]; [kis|]. destruct (errors_Is _ _); [apply ki_execIndex, kept_missing|kis]. Qed.
Hint Resolve confirmMissing_ki : keeps.
Lemma resolveFile_ki id v : K (resolveFile id v).
Proof.
  unfold resolveFile. cbv zeta. apply ki_let; [|intros; kis].
  intros s Hs. by destruct (cache_get _ _ _ _).
Qed.
Hint Resolve resolveFile_ki : keeps.
Lemma tryReplicas_ki {A} (act : member -> replicaRow -> M W (res gerr (A * Z))) reps :
  (forall m r, K (act m r)) -> K (tryReplicas act reps).
Proof.
  intros Ha. unfold tryReplicas. destruct (decide _) as [|Hn]; [kis|clear Hn]. generalize (@None gerr).
  induction reps; intros lu; cbn [try_each]; kis.
Qed.
Lemma pickLocked_ki reps : K (pickLocked reps).
Proof. intros s Hs. unfold pickLocked, streamWaitLocked. destruct (pick_look s reps); [done| |done]. by destruct (streamWake s !! _). Qed.
Lemma await_wake_ki others woken fuel ch : (forall s, IndexOK (idx s) -> IndexOK (idx (others s))) -> K (await_wake others woken fuel ch).
Proof.
  intros Ho. induction fuel as [|fuel IH]; intros s Hs; cbn [await_wake]; cbv zeta; destruct (ctx_Err _);
    destruct (bool_decide _); try done; [by destruct (woken s)..|]. by apply IH, Ho.
Qed.
Lemma pickReplica_ki others woken fuel reps :
  (forall s, IndexOK (idx s) -> IndexOK (idx (others s))) -> K (pickReplica others woken fuel reps).
Proof.
  intros Ho. induction fuel as [|fuel IH]; cbn [pickReplica]; [kis|]. apply ki_let; [apply pickLocked_ki|].
  intros [c|ch|]; [|apply ki_let; [by apply await_wake_ki|intros [[e|]|]; [kis|exact IH|kis]]|kis].
  apply ki_do; [|kis]. apply ki_modify. intros s. unfold reserve. by destruct (limitsStreams _).
Qed.
Lemma lease_done_ki m r ok : K (lease_done m r ok).
Proof.
  unfold lease_done. apply ki_do; [|kis]. apply ki_modify. intros s. unfold release.
  destruct (limitsStreams m); [|done]. by destruct (decide _); simpl; destruct (streamWake s !! rp_path r).
Qed.
Hint Resolve lease_done_ki : keeps.
Lemma fanOut_ki {A} (act : member -> replicaRow -> M W (res gerr A)) others woken waits reps :
  (forall m r, K (act m r)) -> (forall s, IndexOK (idx s) -> IndexOK (idx (others s))) -> K (fanOut act others woken waits reps).
Proof.
  intros Ha Ho. unfold fanOut. destruct (decide _) as [|Hn]; [kis|clear Hn]. generalize (S (length reps)) (@None gerr). intros fuel.
  revert reps. induction fuel as [|fuel IH]; intros reps lu; cbn [fan_out]; [kis|].
  apply ki_let; [by apply pickReplica_ki|]. intros p. cbv zeta. kis.
Qed.

Lemma packSession_ki m p h s : K (packSession m p h s).  Proof. unfold packSession. cbv zeta. kis. Qed.
Hint Resolve packSession_ki : keeps.
Lemma finishUpload_ki m p e h : K (finishUpload m p e h).
Proof. unfold finishUpload. destruct (bestHash _). cbv zeta. kis. Qed.
Hint Resolve finishUpload_ki : keeps.
Lemma awaitMinReplicas_ki n p : K (awaitMinReplicas n p).
Proof. unfold awaitMinReplicas. cbv zeta. destruct (decide _); [kis|]. destruct (decide _) as [|Hn]; [kis|clear Hn]. induction n; cbn [await_loop]; kis. Qed.
Hint Resolve awaitMinReplicas_ki : keeps.
Lemma begin_on_ki l n pp nm p z h ms acc : K (begin_on l n pp nm p z h ms acc).
Proof. revert acc. induction ms; intros; cbn [begin_on]; cbv zeta; kis. Qed.
Hint Resolve begin_on_ki : keeps.
Lemma whyNoMember_ki p : K (whyNoMember p).
Proof.
  unfold whyNoMember. apply ki_let; [|intros [n f]; kis]. generalize 0 (@None gerr).
  induction members; intros n f; cbn [why_each]; kis.
Qed.
Hint Resolve whyNoMember_ki : keeps.
Lemma BeginUpload_ki l n p nm z h : K (BeginUpload l n p nm z h).  Proof. unfold BeginUpload. cbv zeta. kis. Qed.
Lemma UploadPart_ki s i n : K (UploadPart s i n).
Proof. unfold UploadPart. destruct (unpackSession s) as [[[[m p] h] ms]|e]; kis. Qed.
Lemma CompleteUpload_ki n s ps : K (CompleteUpload n s ps).
Proof. unfold CompleteUpload. destruct (unpackSession s) as [[[[m p] h] ms]|e]; kis. Qed.

Lemma pendingOp_ki m o p a t : K (pendingOp m o p a t).  Proof. unfold pendingOp. kis. Qed.
Hint Resolve pendingOp_ki : keeps.
Lemma divergence_ki p n k d t : K (divergence p n k d t).  Proof. unfold divergence. kis. Qed.
Hint Resolve divergence_ki : keeps.
Lemma fanout_ki {A} o p a (act : target -> M W (res gerr A)) tgs : (forall t, K (act t)) -> K (fanout o p a act tgs).
Proof.
  intros Ha. unfold fanout. apply ki_let; [kis|]. intros t. apply ki_let; [|intros [acc took]; kis].
  generalize (MkFan 0 None None) (∅ : gmap string A). induction tgs as [|tg tgs IH]; intros acc took; cbn [fan_all]; [kis|].
  apply ki_let; [unfold fan_one; cbv zeta; kis|]. intros [acc' x]. apply IH.
Qed.
Lemma entryTargets_ki p : K (entryTargets p).  Proof. unfold entryTargets. cbv zeta. kis. Qed.
Hint Resolve entryTargets_ki : keeps.
Lemma mkdir_targets_ki pp p a ms tgs u : K (mkdir_targets pp p a ms tgs u).
Proof. revert tgs u. induction ms; intros; cbn [mkdir_targets]; cbv zeta; kis. Qed.
Hint Resolve mkdir_targets_ki : keeps.
Lemma mkdir_on_ki p n t : K (mkdir_on p n t).  Proof. unfold mkdir_on. cbv zeta. kis. Qed.
Lemma Mkdir_ki p n : K (Mkdir p n).
Proof. unfold Mkdir. cbv zeta. kis; apply fanout_ki; intros; apply mkdir_on_ki. Qed.
Lemma forget_dirs_below_ki p : K (forget_dirs_below p).
Proof. intros s Hs. unfold forget_dirs_below, modify. simpl. revert s Hs. induction members; intros s Hs; simpl; [done|]. by apply IHl. Qed.
Hint Resolve forget_dirs_below_ki : keeps.
Lemma fold_mrt_idx (f : member -> bool) g (l : list member) (s : pst W) :
  idx (foldl (fun s m => if f m then upd_mrt m g s else s) s l) = idx s.
Proof. revert s. induction l as [|m l IH]; intros s; simpl; [done|]. rewrite IH. by destruct (f m). Qed.
Lemma relocate_ki r a b ap : K (relocate r a b ap).
Proof.
  unfold relocate. apply ki_let; [kis|]. intros t. apply ki_let; [|intros x; kis]. apply ki_tx.
  apply ki_let; [kis|]. intros [id|e]; [|kis]. apply ki_let; [kis|]. intros [pid|e]; [|kis].
  intros s Hs. unfold pbind, reads. destruct (relocated _ _ _ _ _ _) as [i|] eqn:Hr; [|done].
  pose proof (relocated_ok _ _ _ _ _ _ _ Hr Hs) as Hi.
  cut (K (do- (if decide (en_kind r = KindDir) then modify (fun s => foldl (fun s m =>
     if decide (is_Some (ap !! m_name m)) then upd_mrt m (fun r => r <| dirIDs := ∅ |>) s else s) s members) else ret tt);
     ret (Ok (id, pid) : res gerr (string * string)))).
  { intros H. apply (H (s <| idx := i |>)). exact Hi. }
  apply ki_do; [|kis]. destruct (decide _); [|kis]. apply ki_modify. intros s1.
  rewrite <- (fold_mrt_idx (fun m => bool_decide (is_Some (ap !! m_name m))) (fun r => r <| dirIDs := ∅ |>) members s1).
  f_equal. clear. generalize s1. induction members as [|m l IH]; intros s; simpl; [done|]. rewrite IH. f_equal.
  case_bool_decide; by destruct decide.
Qed.
Hint Resolve relocate_ki : keeps.
Lemma relocate_everywhere_ki o id a b act : (forall t, K (act t)) -> K (relocate_everywhere o id a b act).
Proof. intros Ha. unfold relocate_everywhere. cbv zeta. kis; by apply fanout_ki. Qed.
Lemma Rename_ki id n : K (Rename id n).
Proof. unfold Rename. kis. apply relocate_everywhere_ki. intros; kis. Qed.
Lemma Move_ki id n : K (Move id n).
Proof. unfold Move. kis. apply relocate_everywhere_ki. intros; kis. Qed.
Lemma Delete_ki id : K (Delete id).
Proof.
  unfold Delete. kis; try (apply fanout_ki; intros; kis).
  apply ki_exec. intros i Hi. apply kept_subtree. by apply (ok_same i).
Qed.
End Calls.
#[export] Hint Resolve confirmMissing_ki resolveFile_ki finishUpload_ki BeginUpload_ki UploadPart_ki CompleteUpload_ki divergence_ki Mkdir_ki Rename_ki Move_ki Delete_ki : keeps.

(** ** Background work, changes, rebuilding *)

Section Background.
Context {W : Type} {E : Env W} {P : Pool}.
Notation K := (KI (W := W)).

Lemma flag_scrub_ki m : K (flag_scrub m).  Proof. unfold flag_scrub. kis. Qed.
Hint Resolve flag_scrub_ki : keeps.
Lemma giveUpOn_ki m o : K (giveUpOn m o).  Proof. unfold giveUpOn. kis. Qed.
Hint Resolve giveUpOn_ki : keeps.
Lemma expireOps_ki : K expireOps.
Proof.
  assert (H : forall l, K (flag_all l)) by (induction l; cbn [flag_all]; kis).
  unfold expireOps. kis.
Qed.
Hint Resolve expireOps_ki : keeps.
Lemma listAll_child_ki m a b : K (findChild m a b).
Proof. unfold findChild. apply ki_let; [apply listAll_ki|intros r; kis]. Qed.
Hint Resolve listAll_child_ki : keeps.
Lemma adoptRelocated_ki m e c k : K (adoptRelocated m e c k).
Proof. unfold adoptRelocated. kis. Qed.
Hint Resolve adoptRelocated_ki : keeps.
Lemma dropMemberCopy_ki m c k : K (dropMemberCopy m c k).  Proof. unfold dropMemberCopy. kis. Qed.
Hint Resolve dropMemberCopy_ki : keeps.
Lemma step_on_member_ki m c f : K (step_on_member m c f).  Proof. unfold step_on_member. kis. Qed.
Hint Resolve step_on_member_ki : keeps.
Lemma relocateOnMember_ki m r c k : K (relocateOnMember m r c k).
Proof. unfold relocateOnMember. cbv zeta. kis. Qed.
Hint Resolve relocateOnMember_ki : keeps.
Lemma replayRelocate_ki m o : K (replayRelocate m o).  Proof. unfold replayRelocate. cbv zeta. kis. Qed.
Hint Resolve replayRelocate_ki : keeps.
Lemma replayDelete_ki m o : K (replayDelete m o).
Proof.
  assert (H1 : forall p e, K (delete_there m p e)) by (intros; unfold delete_there; cbv zeta; kis).
  assert (H2 : forall p n w, K (skip_delete p n w)) by (intros; unfold skip_delete; kis).
  unfold replayDelete. cbv zeta. kis.
Qed.
Hint Resolve replayDelete_ki : keeps.
Lemma replay_ki m o : K (replay m o).  Proof. unfold replay. cbv zeta. kis. Qed.
Hint Resolve replay_ki : keeps.
Lemma op_failed_ki m o e : K (op_failed m o e).  Proof. unfold op_failed. cbv zeta. kis. Qed.
Hint Resolve op_failed_ki : keeps.
Lemma replay_ops_ki m os n : K (replay_ops m os n).
Proof. revert n. induction os; intros; cbn [replay_ops]; kis. Qed.
Hint Resolve replay_ops_ki : keeps.
Lemma ReplayOnce_ki : K ReplayOnce.
Proof.
  unfold ReplayOnce. apply ki_do; [kis|]. generalize 0. induction members; intros n; cbn [replay_members]; kis.
Qed.
Lemma ScrubOnce_ki : K ScrubOnce.
Proof.
  assert (H1 : forall l, K (take_flags l)) by (induction l; cbn [take_flags]; kis).
  assert (H2 : forall f ks seen, K (sample_dirs f ks seen)).
  { intros f ks. induction ks as [|[n p] ks IH]; intros seen; cbn [sample_dirs]; kis. }
  assert (H3 : forall ds n, K (relist ds n)) by (induction ds; intros; cbn [relist]; kis).
  unfold ScrubOnce. kis.
Qed.
Hint Resolve ReplayOnce_ki ScrubOnce_ki : keeps.
Lemma discard_ki {A} (m : M W A) : K m -> K (discard m).
Proof. intros H. unfold discard. by apply ki_do, ki_ret. Qed.
Lemma on_tick_ki t : K (on_tick t).
Proof. destruct t; unfold on_tick; repeat first [ki_step | apply discard_ki]. Qed.
Lemma start_up_ki : K start_up.
Proof. unfold start_up. repeat first [ki_step | apply discard_ki]. Qed.

Lemma pathBy_ki m id : K (pathByMemberID m id).
Proof. unfold pathByMemberID, dirPathByMemberID. kis. Qed.
Lemma dirPathBy_ki m id : K (dirPathByMemberID m id).  Proof. unfold dirPathByMemberID. kis. Qed.
Hint Resolve pathBy_ki dirPathBy_ki : keeps.
Lemma gather_ki ms c n evs : K (gather ms c n evs).
Proof. revert n evs. induction ms; intros; cbn [gather]; kis. Qed.
Lemma resolve_round_ki evs u w : K (resolve_round evs u w).
Proof.
  revert u w. induction evs; intros; cbn [resolve_round]; [kis|]. apply ki_let; [unfold resolve_event; kis|intros v; kis].
Qed.
Hint Resolve resolve_round_ki : keeps.
Lemma list_touched_ki ds l : K (list_touched ds l).
Proof. revert l. induction ds; intros; cbn [list_touched]; kis. Qed.
Hint Resolve list_touched_ki : keeps.
Lemma resolve_rounds_ki n p w l : K (resolve_rounds n p w l).
Proof. revert p w l. induction n; intros [|ev p] w l; cbn [resolve_rounds]; cbv zeta; kis. Qed.
Lemma report_ki w l o : K (report w l o).
Proof. revert o. induction w; intros; cbn [report]; cbv zeta; kis. Qed.
Lemma Changes_ki c : K (Changes c).
Proof.
  unfold Changes. apply ki_let; [apply gather_ki|]. intros [n evs]. apply ki_let; [apply resolve_rounds_ki|].
  intros [[w l]|e]; [|kis]. apply ki_let; [apply report_ki|intros r; kis].
Qed.
Lemma fold_upd_idx g (l : list member) (s : pst W) : idx (foldl (fun s m => upd_mrt m g s) s l) = idx s.
Proof. revert s. induction l as [|m l IH]; intros s; simpl; [done|]. by rewrite IH. Qed.
Lemma Rebuild_ki : K Rebuild.
Proof.
  unfold Rebuild. apply ki_do; [kis|]. apply ki_do; [apply ki_modify; intros s; apply fold_upd_idx|].
  apply ki_let; [kis|]. intros [l|e]; [|kis]. apply ki_let; [kis|]. intros [n [e|]]; [kis|].
  apply ki_do; [|kis]. unfold addNotice. apply ki_modify. intros s. by destruct (decide _).
Qed.

(** ** Runs

    What a running pool is asked to do, and its background loops.  A read's
    backend call may be anything that keeps the index. *)
Inductive pool_step : pst W -> pst W -> Prop :=
| ps_tick t s : pool_step s (snd (on_tick t s))
| ps_start s : pool_step s (snd (start_up s))
| ps_list id c s : pool_step s (snd (PoolList id c s))
| ps_stat id s : pool_step s (snd (PoolStat id s))
| ps_resolve id v s : pool_step s (snd (resolveFile id v s))
| ps_try {A} (act : member -> replicaRow -> M W (res gerr (A * Z))) reps s :
    (forall m r, K (act m r)) -> pool_step s (snd (tryReplicas act reps s))
| ps_fan {A} (act : member -> replicaRow -> M W (res gerr A)) others woken waits reps s :
    (forall m r, K (act m r)) -> (forall s, IndexOK (idx s) -> IndexOK (idx (others s))) ->
    pool_step s (snd (fanOut act others woken waits reps s))
| ps_done m r ok s : pool_step s (snd (lease_done m r ok s))
| ps_begin l n p nm z h s : pool_step s (snd (BeginUpload l n p nm z h s))
| ps_part u i n s : pool_step s (snd (UploadPart u i n s))
| ps_complete n u ps s : pool_step s (snd (CompleteUpload n u ps s))
| ps_mkdir p n s : pool_step s (snd (Mkdir p n s))
| ps_rename id n s : pool_step s (snd (Rename id n s))
| ps_move id n s : pool_step s (snd (Move id n s))
| ps_delete id s : pool_step s (snd (Delete id s))
| ps_changes c s : pool_step s (snd (Changes c s))
| ps_state n st s : pool_step s (snd (SetMemberState n st s))
| ps_scrub p s : pool_step s (snd (ScrubPath p s))
| ps_plan t d s : pool_step s (snd (PlanRebalance t d s))
| ps_rebuild s : pool_step s (snd (Rebuild s))
| ps_world s w : pool_step s (s <| world := w |>).

Lemma pool_step_keeps s s' : pool_step s s' -> IndexOK (idx s) -> IndexOK (idx s').
Proof.
  destruct 1; intros Hs; try done.
  - by apply on_tick_ki. - by apply start_up_ki. - by apply PoolList_ki. - by apply PoolStat_ki.
  - by apply resolveFile_ki. - by apply tryReplicas_ki. - by apply fanOut_ki. - by apply lease_done_ki.
  - by apply BeginUpload_ki. - by apply UploadPart_ki. - by apply CompleteUpload_ki. - by apply Mkdir_ki.
  - by apply Rename_ki. - by apply Move_ki. - by apply Delete_ki. - by apply Changes_ki. - by apply SetMemberState_ki.
  - by apply ScrubPath_ki. - by apply PlanRebalance_ki. - by apply Rebuild_ki.
Qed.

(** The index stays well formed.  From an empty index, after any sequence of
    calls on the pool, ticks of its three background loops and changes of the
    world outside, with backends that answer anything at all: every replica row
    is stored under its own path and member, its state is one of live, pending,
    stale and missing, and an id names one path, so pathOf of an id that idFor
    handed out for a path is that path. *)
Theorem pool_index_typed (s0 s : pst W) :
  idx s0 = empty_index -> rtc pool_step s0 s ->
  (forall k r, replicas (idx s) !! k = Some r -> k = (rp_path r, rp_member r) /\ rp_state r ∈ known_states) /\
  (forall p id, ids (idx s) !! p = Some id -> path_with_id (idx s) id = Some p).
Proof.
  intros H0 Hr. assert (HI : IndexOK (idx s)).
  { assert (H : IndexOK (idx s0)).
    { rewrite H0. apply IndexOK_empty. }
    clear H0. induction Hr as [|x y z Hxy _ IH]; [done|]. by apply IH, (pool_step_keeps x). }
  destruct HI as [A B C]. split; [intros k r Hk; split; [by apply A|by apply (B _ _ Hk)]|].
  intros p id Hp. unfold path_with_id.
  assert (Hin : p ∈ omap (fun kv => if decide (snd kv = id) then Some (fst kv) else None) (map_to_list (ids (idx s)))).
  { apply list_elem_of_omap. exists (p, id). split; [by apply elem_of_map_to_list|]. simpl. by rewrite decide_True. }
  destruct (omap _ _) as [|q l] eqn:Ho; [by apply elem_of_nil in Hin|]. simpl. f_equal.
  assert (Hq : q ∈ q :: l) by apply list_elem_of_here. rewrite <- Ho in Hq.
  apply list_elem_of_omap in Hq as ([q' x] & Hx & Heq). simpl in Heq. destruct (decide (x = id)) as [->|]; [|done].
  injection Heq as ->. apply elem_of_map_to_list in Hx. by apply (C _ _ id).
Qed.
End Background.
