(* ===== verification/PoolSafety.v ===== *)
(** * No operation loses the last copy

    What moving, trimming and draining do to the rows of a file: which row they
    may remove, and what must be there when they do. *)
From S2P Require Import Prelude Filepath GoLib SqlText Retry Health PoolState PoolMember PoolPlacement PoolIndex PoolList PoolRepair PoolBalance PoolFrame PoolRows.
Open Scope Z_scope.

Section Safety.
Context {W : Type} {E : Env W} {P : Pool}.

Definition KeysOK (s : pst W) : Prop := KeyOK (replicas (idx s)).

Lemma frame_rows {A} (m : M W A) s : Frame files_of m -> replicas (idx (snd (m s))) = replicas (idx s).
Proof. intros H. specialize (H s). unfold files_of in H. congruence. Qed.
Lemma frame_entries {A} (m : M W A) s : Frame files_of m -> entries (idx (snd (m s))) = entries (idx s).
Proof. intros H. specialize (H s). unfold files_of in H. congruence. Qed.

(** ** Live copies are rows *)

(** A confirmed copy of the content [ct] at [pth] on member [n]. *)
Definition copy_on (R : gmap (string * string) replicaRow) (pth ct n : string) : Prop :=
  exists r, R !! (pth, n) = Some r /\ rp_state r = "live" /\ rp_ctoken r = ct.

Lemma replicasOf_elem pth ct s r :
  r ∈ replicasOf pth ct s <->
  (rp_state r = "live" \/ rp_state r = "pending") /\ (ct = "" \/ rp_ctoken r = ct) /\
  exists m, m ∈ members /\ replicas (idx s) !! (pth, m_name m) = Some r.
Proof.
  unfold replicasOf, sortReplicas, rows_of_path. rewrite stable_sort_elem, list_elem_of_filter, list_elem_of_omap.
  naive_solver.
Qed.

Lemma liveReplicas_elem pth ct s r :
  KeysOK s ->
  r ∈ liveReplicas pth ct s <->
  replicas (idx s) !! (pth, rp_member r) = Some r /\ rp_state r = "live" /\ (ct = "" \/ rp_ctoken r = ct) /\
  row_in_service s r = true.
Proof.
  intros HK. unfold liveReplicas. rewrite list_elem_of_filter, replicasOf_elem. split.
  - intros ((Hl & Hs) & _ & Ht & m & Hm & Hr). pose proof (HK _ _ Hr) as [= Hp Hn]. rewrite <- Hn. auto.
  - intros (Hr & Hl & Ht & Hs). split; [done|]. split; [auto|]. split; [done|].
    unfold row_in_service in Hs. destruct (byName (rp_member r)) as [m|] eqn:Hb; [|done].
    apply byName_Some in Hb as [Hm Hn]. exists m. split; [done|]. by rewrite Hn.
Qed.

Lemma rows_of_path_NoDup pth i : NamesUnique -> KeyOK (replicas i) -> NoDup (rows_of_path pth i).
Proof.
  unfold NamesUnique, rows_of_path. intros Hnd HK. induction members as [|m l IH]; [constructor|].
  cbn [map] in Hnd. apply NoDup_cons in Hnd as [Hm Hl]. simpl.
  destruct (replicas i !! (pth, m_name m)) as [r|] eqn:Hr; [|by apply IH].
  apply NoDup_cons. split; [|by apply IH]. rewrite list_elem_of_omap. intros (m' & Hm' & Hr').
  apply Hm. pose proof (HK _ _ Hr) as [= _ H1]. pose proof (HK _ _ Hr') as [= _ H2].
  rewrite list_elem_of_fmap. exists m'. split; [congruence|done].
Qed.

Lemma liveReplicas_members_NoDup pth ct s : NamesUnique -> KeysOK s -> NoDup (map rp_member (liveReplicas pth ct s)).
Proof.
  intros Hu HK. assert (Hnd : NoDup (liveReplicas pth ct s)).
  { unfold liveReplicas, replicasOf, sortReplicas. apply NoDup_filter, stable_sort_NoDup, NoDup_filter.
    by apply rows_of_path_NoDup. }
  assert (Hin : forall r, r ∈ liveReplicas pth ct s -> replicas (idx s) !! (pth, rp_member r) = Some r)
    by (intros r Hr; by apply liveReplicas_elem in Hr as [? _]).
  induction (liveReplicas pth ct s) as [|r l IH]; [constructor|]. apply NoDup_cons in Hnd as [Hr Hl].
  cbn [map]. apply NoDup_cons. split.
  - rewrite list_elem_of_fmap. intros (x & Hx & Hxl). apply Hr.
    assert (replicas (idx s) !! (pth, rp_member x) = Some x) by (apply Hin; set_solver).
    assert (replicas (idx s) !! (pth, rp_member r) = Some r) by (apply Hin; set_solver).
    congruence.
  - apply IH; [done|]. intros x Hx. apply Hin. set_solver.
Qed.

(** ** dropReplica *)

Lemma dropReplica_spec pth m s r s' :
  dropReplica pth m s = (r, s') ->
  entries (idx s') = entries (idx s) /\
  (replicas (idx s') = replicas (idx s) \/ replicas (idx s') = delete (pth, m_name m) (replicas (idx s))) /\
  (forall u, r = Ok u -> replicas (idx s') = delete (pth, m_name m) (replicas (idx s))) /\
  (forall e, r = Err e -> replicas (idx s') = replicas (idx s)).
Proof.
  unfold dropReplica, pbind, reads. destruct (replicas (idx s) !! (pth, m_name m)) as [row|] eqn:Hrow.
  2:{ intros [= <- <-]. rewrite delete_id by done. naive_solver. }
  unfold call. destruct (b_Delete m (remoteID row) (world s)) as [d w] eqn:Hd.
  set (err := match d with Ok _ => None | Err e => if errors_Is e PErrNotFound then None else Some e end).
  unfold pthen. simpl. destruct err as [e|] eqn:He.
  - intros [= <- <-]. simpl. naive_solver.
  - intros [= <- <-]. unfold execIndex, modify. simpl. rewrite del_replica_rows, del_replica_entries. naive_solver.
Qed.

(** ** copyReplica *)

Lemma record_copy_spec pth dst e ct s r s' :
  record_copy pth dst e ct s = (r, s') -> KeysOK s ->
  KeysOK s' /\ entries (idx s') = entries (idx s) /\ copy_on (replicas (idx s')) pth ct (m_name dst) /\
  (forall p n, n <> m_name dst -> replicas (idx s') !! (p, n) = replicas (idx s) !! (p, n)).
Proof.
  unfold record_copy, pbind, reads, tx, pthen, exec, modify, ret. simpl. intros [= <- <-] HK. unfold KeysOK. simpl.
  split; [by apply upsert_KeyOK|]. split; [apply upsert_entries|]. split.
  - eexists. split; [by apply upsert_same|].
    destruct (upserted_cols pth (parentOf pth) (m_name dst) e ct "live" (UnixNano (now (world s))) (idx s)) as (-> & -> & _).
    done.
  - intros p n Hn. by apply upsert_other.
Qed.

(** A copy is written to [dst] and nowhere else; success leaves a confirmed copy
    there. *)
Lemma copyReplica_spec pth row live dst s r s' :
  copyReplica pth row live dst s = (r, s') -> KeysOK s ->
  KeysOK s' /\ entries (idx s') = entries (idx s) /\
  (forall p n, n <> m_name dst -> replicas (idx s') !! (p, n) = replicas (idx s) !! (p, n)) /\
  (forall u, r = Ok u -> copy_on (replicas (idx s')) pth (en_ctoken row) (m_name dst)) /\
  (forall e, r = Err e -> replicas (idx s') = replicas (idx s)).
Proof.
  intros H HK. unfold copyReplica, pbind in H.
  assert (Hfail : forall e s1, files_of s1 = files_of s -> (Err e, s1) = (r, s') ->
    KeysOK s' /\ entries (idx s') = entries (idx s) /\
    (forall p n, n <> m_name dst -> replicas (idx s') !! (p, n) = replicas (idx s) !! (p, n)) /\
    (forall u, r = Ok u -> copy_on (replicas (idx s')) pth (en_ctoken row) (m_name dst)) /\
    (forall e, r = Err e -> replicas (idx s') = replicas (idx s))).
  { intros e s1 [= F1 F2] [= <- <-]. unfold KeysOK. rewrite F1, F2. naive_solver. }
  assert (Hgood : forall e s1, files_of s1 = files_of s -> record_copy pth dst e (en_ctoken row) s1 = (r, s') ->
    KeysOK s' /\ entries (idx s') = entries (idx s) /\
    (forall p n, n <> m_name dst -> replicas (idx s') !! (p, n) = replicas (idx s) !! (p, n)) /\
    (forall u, r = Ok u -> copy_on (replicas (idx s')) pth (en_ctoken row) (m_name dst)) /\
    (forall e, r = Err e -> replicas (idx s') = replicas (idx s))).
  { intros e s1 [= F1 F2] Hr. assert (r = Ok tt) as ->.
    { revert Hr. unfold record_copy, pbind, reads, tx, pthen. simpl. by intros [= <- _]. }
    apply record_copy_spec in Hr; [|unfold KeysOK; by rewrite F1]. rewrite F1, F2 in Hr. naive_solver. }
  pose proof (ensureDir_files dst (parentOf pth) s) as F1. destruct (ensureDir dst (parentOf pth) s) as [[dirid|e] s1];
    [|by eapply Hfail].
  pose proof (serverCopy_files pth live dst dirid s1) as F2.
  destruct (serverCopy pth live dst dirid s1) as [[[e|e]|] s2]; simpl in F1, F2; rewrite F1 in F2;
    [by eapply Hgood|by eapply Hfail|].
  pose proof (openSource_files pth row s2) as F3. destruct (openSource pth row s2) as [[[src h]|e] s3]; simpl in F3;
    rewrite F2 in F3; [|by eapply Hfail].
  pose proof (send_file_files dst dirid (Filepath.Base pth) src (en_size row) h s3) as F4.
  destruct (send_file dst dirid (Filepath.Base pth) src (en_size row) h s3) as [[e|e] s4]; simpl in F4; rewrite F3 in F4;
    [by eapply Hgood|by eapply Hfail].
Qed.

(** ** Moves *)

Lemma existsb_copy pth ct n s :
  KeysOK s ->
  existsb (fun r => bool_decide (rp_member r = n /\ rp_ctoken r = ct)) (liveReplicas pth ct s) = true ->
  copy_on (replicas (idx s)) pth ct n.
Proof.
  intros HK [r [Hr Hb]]%existsb_exists. apply list_elem_of_In, liveReplicas_elem in Hr as (Hr & Hl & _); [|done].
  apply bool_decide_eq_true in Hb as [<- Ht]. exists r. auto.
Qed.

(** C7: A move never loses a file.  Whatever the backends answer and wherever it
    stops, a move changes no row of a member other than its source and its
    destination, touches only this file's row on the source, and when it removes
    that row, the destination has a confirmed live copy of the entry's content,
    and still has it afterwards. *)
Theorem move_keeps_file pth src dst s r s' :
  KeysOK s -> m_name src <> m_name dst -> moveReplica pth src dst s = (r, s') ->
  entries (idx s') = entries (idx s) /\
  (forall p n, n <> m_name src -> n <> m_name dst -> replicas (idx s') !! (p, n) = replicas (idx s) !! (p, n)) /\
  (forall old, replicas (idx s) !! (pth, m_name src) = Some old -> replicas (idx s') !! (pth, m_name src) = None ->
     exists row, entryAt pth (idx s) = Some row /\ en_kind row = KindFile /\
                 copy_on (replicas (idx s')) pth (en_ctoken row) (m_name dst)) /\
  (forall p, p <> pth -> replicas (idx s') !! (p, m_name src) = replicas (idx s) !! (p, m_name src)).
Proof.
  intros HK Hne H.
  (* the move ends in [s1] without having dropped anything *)
  assert (Hstay : forall r1 s1, entries (idx s1) = entries (idx s) ->
    (forall p n, n <> m_name dst -> replicas (idx s1) !! (p, n) = replicas (idx s) !! (p, n)) -> (r1, s1) = (r, s') ->
    entries (idx s') = entries (idx s) /\
    (forall p n, n <> m_name src -> n <> m_name dst -> replicas (idx s') !! (p, n) = replicas (idx s) !! (p, n)) /\
    (forall old, replicas (idx s) !! (pth, m_name src) = Some old -> replicas (idx s') !! (pth, m_name src) = None ->
       exists row, entryAt pth (idx s) = Some row /\ en_kind row = KindFile /\
                   copy_on (replicas (idx s')) pth (en_ctoken row) (m_name dst)) /\
    (forall p, p <> pth -> replicas (idx s') !! (p, m_name src) = replicas (idx s) !! (p, m_name src))).
  { intros r1 s1 He Ho [= <- <-]. split; [done|]. split; [intros; by apply Ho|]. split; [|intros; by apply Ho].
    intros old Hold Hgone. rewrite Ho in Hgone by done. congruence. }
  unfold moveReplica, pbind, reads in H.
  destruct (entryAt pth (idx s)) as [row|] eqn:Hrow; [|by eapply Hstay].
  destruct (decide (en_kind row <> KindFile)) as [Hk|Hk]; [by eapply Hstay|].
  set (live := liveReplicas pth (en_ctoken row) s) in H.
  destruct ((if bool_decide (m_name dst ∈ map rp_member live) then ret (Ok ()) else copyReplica pth row live dst) s)
    as [r1 s1] eqn:Hc.
  assert (H1 : KeysOK s1 /\ entries (idx s1) = entries (idx s) /\
    (forall p n, n <> m_name dst -> replicas (idx s1) !! (p, n) = replicas (idx s) !! (p, n))).
  { destruct (bool_decide _); [injection Hc as <- <-; done|].
    apply copyReplica_spec in Hc as (? & ? & ? & _); done. }
  destruct H1 as (HK1 & He1 & Ho1). destruct r1 as [u|e]; [|by eapply Hstay].
  destruct (negb _) eqn:Hcf; [by eapply Hstay|]. apply negb_false_iff in Hcf.
  apply existsb_copy in Hcf; [|done].
  destruct (decide (count _ < 2)) as [Hn|Hn]; [by eapply Hstay|]. clear Hstay.
  apply dropReplica_spec in H as (He & Hd & _). rewrite He, He1. split; [done|].
  assert (Hrest : forall p n, (p, n) <> (pth, m_name src) -> replicas (idx s') !! (p, n) = replicas (idx s1) !! (p, n)).
  { intros p n Hpn. destruct Hd as [->| ->]; [done|]. by rewrite lookup_delete_ne. }
  split; [|split].
  - intros p n H1 H2. rewrite Hrest by congruence. by apply Ho1.
  - intros old Hold Hgone. exists row. split; [done|]. split; [by apply dec_stable|].
    destruct Hcf as (x & Hx & Hlx). exists x. split; [|done]. by rewrite Hrest by congruence.
  - intros p Hp. rewrite Hrest by congruence. by apply Ho1.
Qed.

(** ** Trimming *)

(** [names] hold confirmed copies of the content [ct]. *)
Definition copies_on_all (R : gmap (string * string) replicaRow) (pth ct : string) (names : list string) : Prop :=
  NoDup names /\ Forall (copy_on R pth ct) names.

Lemma remove_member_sub n l r : r ∈ remove_member n l -> r ∈ l.
Proof. induction l as [|x l IH]; simpl; [done|]. destruct decide; set_solver. Qed.
Lemma remove_member_length n l : count l - 1 <= count (remove_member n l).
Proof. unfold count. induction l as [|x l IH]; simpl; [lia|]. destruct decide; simpl in *; lia. Qed.
Lemma remove_member_NoDup n l :
  NoDup (map rp_member l) -> NoDup (map rp_member (remove_member n l)) /\ n ∉ map rp_member (remove_member n l).
Proof.
  induction l as [|x l IH]; cbn [map remove_member]; [intros _; split; [constructor|set_solver]|].
  intros [Hx Hl]%NoDup_cons. destruct (IH Hl) as [IH1 IH2]. destruct decide as [<-|Hn]; [done|].
  cbn [map]. split.
  - apply NoDup_cons. split; [|done]. intros (y & Hy & Hyl)%list_elem_of_fmap. apply Hx.
    rewrite Hy. apply list_elem_of_fmap. exists y. split; [done|]. by eapply remove_member_sub.
  - intros [->|?]%elem_of_cons; done.
Qed.

Lemma copies_delete R pth ct n names :
  copies_on_all R pth ct names -> n ∉ names -> copies_on_all (delete (pth, n) R) pth ct names.
Proof.
  intros [Hnd Hc] Hn. split; [done|]. rewrite Forall_forall in *. intros x Hx.
  destruct (Hc _ Hx) as (r & Hr & Hl). exists r. split; [|done]. rewrite lookup_delete_ne; [done|]. intros [= ->]. done.
Qed.

(** What trimming one file did to the rows: nothing, or enough copies remain. *)
Definition trimmed_ok (R R' : gmap (string * string) replicaRow) (pth ct : string) (target : Z) : Prop :=
  R' = R \/ ((forall p n, p <> pth -> R' !! (p, n) = R !! (p, n)) /\ R' ⊆ R /\
             exists names, copies_on_all R' pth ct names /\ target <= count names).

Lemma trim_rows_ok cutoff pth ct target victims live n s s' k :
  trim_rows cutoff target victims live n s = (k, s') ->
  KeysOK s -> Forall (fun r => rp_path r = pth) victims ->
  copies_on_all (replicas (idx s)) pth ct (map rp_member live) ->
  KeysOK s' /\ entries (idx s') = entries (idx s) /\ trimmed_ok (replicas (idx s)) (replicas (idx s')) pth ct target.
Proof.
  revert live n s. induction victims as [|r rest IH]; intros live n s H HK Hp Hc.
  { injection H as <- <-. split; [done|]. split; [done|]. by left. }
  apply Forall_cons in Hp as [Hr Hp]. cbn [trim_rows] in H.
  destruct (decide (count live <= target)) as [Hd|Hd]; [injection H as <- <-; split; [done|]; split; [done|]; by left|].
  unfold pbind, reads in H. destruct (decide (cutoff < _)) as [Hs|Hs]; [by eapply IH in H|].
  destruct (byName (rp_member r)) as [m|] eqn:Hm; [|by eapply IH in H].
  destruct (negb _) eqn:Hu; [by eapply IH in H|].
  destruct (dropReplica (rp_path r) m s) as [[u|e] s1] eqn:Hdr; apply dropReplica_spec in Hdr as (He & _ & Hok & Herr).
  - specialize (Hok _ eq_refl). clear Herr. apply byName_Some in Hm as [_ Hm]. rewrite Hr, Hm in Hok.
    destruct (remove_member_NoDup (rp_member r) live (proj1 Hc)) as [Hnd Hni].
    assert (Hc1 : copies_on_all (replicas (idx s1)) pth ct (map rp_member (remove_member (rp_member r) live))).
    { rewrite Hok. apply copies_delete; [|done]. split; [done|]. apply Forall_forall. intros x (y & -> & Hy)%list_elem_of_fmap.
      destruct Hc as [_ Hc]. rewrite Forall_forall in Hc. apply Hc, list_elem_of_fmap. exists y.
      split; [done|]. by eapply remove_member_sub. }
    assert (HK1 : KeysOK s1) by (unfold KeysOK; rewrite Hok; by apply KeyOK_delete).
    apply IH in H as (HK' & He' & Ht); [|done..]. split; [done|]. split; [congruence|]. right.
    assert (Hsub : replicas (idx s1) ⊆ replicas (idx s)) by (rewrite Hok; apply delete_subseteq).
    assert (Hoth : forall p x, p <> pth -> replicas (idx s1) !! (p, x) = replicas (idx s) !! (p, x))
      by (intros; rewrite Hok, lookup_delete_ne by congruence; done).
    destruct Ht as [->|(Ho & Hs' & names & Hn & Hl)].
    + split; [done|]. split; [done|]. eexists. split; [exact Hc1|].
      pose proof (remove_member_length (rp_member r) live). unfold count in *. rewrite length_map. lia.
    + split; [intros; rewrite Ho, Hoth; done|]. split; [by etrans|]. by exists names.
  - specialize (Herr _ eq_refl).
    apply IH in H as (HK' & He' & Ht); [|unfold KeysOK; by rewrite Herr|done|by rewrite Herr].
    rewrite Herr in Ht. split; [done|]. split; [congruence|done].
Qed.

Lemma trim_file_ok cutoff pth ct n s s' k :
  NamesUnique -> trim_file cutoff pth ct n s = (k, s') -> KeysOK s ->
  KeysOK s' /\ entries (idx s') = entries (idx s) /\
  trimmed_ok (replicas (idx s)) (replicas (idx s')) pth ct (wantReplicas pth).
Proof.
  intros Hu H HK. unfold trim_file, pbind, reads in H.
  destruct (negb _) eqn:Hh; [injection H as <- <-; split; [done|]; split; [done|]; by left|].
  assert (Hct : ct <> "") by (by intros ->).
  destruct (decide _) as [Hd|Hd]; [injection H as <- <-; split; [done|]; split; [done|]; by left|].
  set (live := liveReplicas pth ct s) in *.
  pose proof (worstPlacedFirst_files pth live s) as F.
  destruct (worstPlacedFirst pth live s) as [victims s1] eqn:Hw. simpl in F. injection F as F1 F2.
  assert (Hv : Forall (fun r => rp_path r = pth) victims).
  { unfold worstPlacedFirst, pbind, ret in Hw. destruct (candidates pth s) as [cs s2]. injection Hw as <- _.
    apply Forall_forall. intros r. rewrite stable_sort_elem. intros (Hr & _)%liveReplicas_elem; [|done].
    by pose proof (HK _ _ Hr) as [= ->]. }
  eapply trim_rows_ok in H; [|unfold KeysOK; by rewrite F1|exact Hv|].
  - rewrite F1, F2 in H. exact H.
  - rewrite F1. split; [by apply liveReplicas_members_NoDup|]. apply Forall_forall.
    intros x (r & -> & (Hr & Hl & [?|Ht] & _)%liveReplicas_elem)%list_elem_of_fmap; [done|exists r; auto|done].
Qed.

Lemma trim_files_ok cutoff fs n s s' k :
  NamesUnique -> NoDup (map fst fs) -> trim_files cutoff fs n s = (k, s') -> KeysOK s ->
  KeysOK s' /\ entries (idx s') = entries (idx s) /\ replicas (idx s') ⊆ replicas (idx s) /\
  (forall p x, p ∉ map fst fs -> replicas (idx s') !! (p, x) = replicas (idx s) !! (p, x)) /\
  (forall p ct, (p, ct) ∈ fs ->
     (forall x, replicas (idx s') !! (p, x) = replicas (idx s) !! (p, x)) \/
     exists names, copies_on_all (replicas (idx s')) p ct names /\ wantReplicas p <= count names).
Proof.
  intros Hu. revert n s. induction fs as [|[p ct] fs IH]; intros n s Hnd H HK.
  { injection H as <- <-. repeat split; done || set_solver. }
  cbn [map fst] in Hnd. apply NoDup_cons in Hnd as [Hp Hnd]. cbn [trim_files] in H. unfold pbind in H.
  destruct (trim_file cutoff p ct n s) as [n1 s1] eqn:Hf.
  apply trim_file_ok in Hf as (HK1 & He1 & Ht); [|done..].
  apply IH in H as (HK' & He' & Hsub & Hout & Hin); [|done..].
  assert (Hone : replicas (idx s1) ⊆ replicas (idx s) /\
     (forall q x, q <> p -> replicas (idx s1) !! (q, x) = replicas (idx s) !! (q, x)) /\
     ((forall x, replicas (idx s1) !! (p, x) = replicas (idx s) !! (p, x)) \/
      exists names, copies_on_all (replicas (idx s1)) p ct names /\ wantReplicas p <= count names))
    by (destruct Ht as [->|(? & ? & ?)]; auto).
  destruct Hone as (Hs1 & Hq & Hmine). split; [done|]. split; [congruence|]. split; [by etrans|]. split.
  - intros q x [Hqp Hqf]%not_elem_of_cons. rewrite Hout, Hq by done. done.
  - intros q ct' [[= -> ->]|Hqf]%elem_of_cons.
    + destruct Hmine as [Hs|(names & [Hnn Hc] & Hl)]; [left; intros x; by rewrite Hout|right].
      exists names. split; [|done]. split; [done|]. eapply Forall_impl; [exact Hc|].
      intros x (r & Hr & Hlr). exists r. by rewrite Hout.
    + destruct (decide (q = p)) as [->|Hqp]; [exfalso; apply Hp, list_elem_of_fmap; by exists (p, ct')|].
      destruct (Hin _ _ Hqf) as [Hs|Hs]; [left; intros x; by rewrite Hs, Hq|by right].
Qed.

Lemma plain_files_elem pth ct i :
  (pth, ct) ∈ plain_files i <->
  exists row, entries i !! pth = Some row /\ en_kind row = KindFile /\ en_conflictOf row = "" /\ en_ctoken row = ct.
Proof.
  unfold plain_files. rewrite list_elem_of_fmap. split.
  - intros ([k row] & [= -> ->] & [[Hk Hc] Hr]%list_elem_of_filter). apply elem_of_map_to_list in Hr. eauto.
  - intros (row & Hr & Hk & Hc & <-). exists (pth, row). split; [done|]. apply list_elem_of_filter.
    split; [done|]. by apply elem_of_map_to_list.
Qed.
Lemma plain_files_NoDup i : NoDup (map fst (plain_files i)).
Proof.
  unfold plain_files. rewrite map_map. cbn [fst].
  assert (H : NoDup ((map_to_list (entries i)).*1)) by apply NoDup_fst_map_to_list.
  induction (map_to_list (entries i)) as [|x l IH]; [constructor|]. cbn [fmap list_fmap] in H.
  apply NoDup_cons in H as [Hx Hl]. rewrite filter_cons. destruct decide; [|by apply IH].
  cbn [map]. apply NoDup_cons. split; [|by apply IH]. intros (y & Hy & Hyl)%list_elem_of_fmap.
  apply Hx. rewrite Hy. apply list_elem_of_fmap. exists y. split; [done|]. by apply list_elem_of_filter in Hyl as [_ ?].
Qed.

(** C40: Trimming never goes below what was asked for.  With distinct member names
    and rows stored under their own keys (both are invariants of a pool),
    TrimOnce removes rows and changes none; a file that lost any row to it still has confirmed live
    copies of its content on at least as many members as its rule asks for,
    never fewer than one, whatever the backends answered to the deletes. *)
Theorem trim_keeps_target s n s' :
  NamesUnique -> KeysOK s -> TrimOnce s = (n, s') ->
  entries (idx s') = entries (idx s) /\ replicas (idx s') ⊆ replicas (idx s) /\
  forall pth x old, replicas (idx s) !! (pth, x) = Some old -> replicas (idx s') !! (pth, x) = None ->
    exists row names, entries (idx s) !! pth = Some row /\ en_kind row = KindFile /\
      copies_on_all (replicas (idx s')) pth (en_ctoken row) names /\
      wantReplicas pth <= count names /\ 1 <= count names.
Proof.
  intros Hu HK H. unfold TrimOnce, pbind, reads in H.
  apply trim_files_ok in H as (_ & He & Hsub & Hout & Hin); [|done|apply plain_files_NoDup|done].
  split; [done|]. split; [done|]. intros pth x old Hold Hgone.
  destruct (decide (pth ∈ map fst (plain_files (idx s)))) as [Hp|Hp]; [|rewrite Hout in Hgone by done; congruence].
  apply list_elem_of_fmap in Hp as ([p ct] & [= ->] & Hp).
  destruct (Hin _ _ Hp) as [Hs|(names & Hn & Hl)]; [rewrite Hs in Hgone; congruence|].
  apply plain_files_elem in Hp as (row & Hr & Hk & _ & <-). exists row, names.
  split; [done|]. split; [done|]. split; [done|]. split; [done|].
  revert Hl. unfold wantReplicas. destruct (decide (_ < 1)); lia.
Qed.

(** ** Draining *)

Definition live_copy (R : gmap (string * string) replicaRow) (pth ct n : string) : Prop :=
  exists r, R !! (pth, n) = Some r /\ rp_state r = "live" /\ (ct = "" \/ rp_ctoken r = ct).

(** A member without a recorded outage that the operator left enabled is in
    service at any time. *)
Definition steady (m : member) (s : pst W) : Prop :=
  let h := health (mrt_of s m) in disabled h = false /\ draining h = false /\ downSince h = None.
Definition drained (m : member) (s : pst W) : Prop := draining (health (mrt_of s m)) = true.

Lemma steady_in_service m s : steady m s -> in_service m s = true.
Proof.
  intros (H1 & H2 & H3). unfold in_service, state_of, snapshot, Snapshot. simpl. rewrite H1, H2, H3. by destruct decide.
Qed.
Lemma drained_not_in_service m s : drained m s -> in_service m s = false.
Proof. unfold drained, in_service, state_of, snapshot, Snapshot. simpl. by intros ->. Qed.

Lemma steady_target pth m0 s : m0 ∈ members -> steady m0 s -> 1 <= fst (targetFor pth s).
Proof.
  intros Hm H. apply steady_in_service in H. unfold targetFor, eligibleMembers.
  assert (1 <= Z.of_nat (length (filter (fun m => in_service m s = true) members))).
  { assert (Hin : m0 ∈ filter (fun m => in_service m s = true) members) by (by apply list_elem_of_filter).
    destruct (filter _ members); [by apply elem_of_nil in Hin|simpl; lia]. }
  destruct decide; simpl; [done|]. unfold wantReplicas. destruct (decide (_ < 1)); lia.
Qed.

Lemma dropReplica_mrt pth m s r s' m' :
  dropReplica pth m s = (r, s') ->
  operator_view (health (mrt_of s' m')) = operator_view (health (mrt_of s m')) /\
  (m_name m <> m_name m' -> mrt_of s' m' = mrt_of s m').
Proof.
  assert (Hn : forall e (t : pst W), operator_view (health (mrt_of (snd (note m e t)) m')) = operator_view (health (mrt_of t m')) /\
    (m_name m <> m_name m' -> mrt_of (snd (note m e t)) m' = mrt_of t m')).
  { intros e t. unfold note, modify. simpl. split; [|intros; by apply mrt_of_upd_ne].
    destruct (decide (m_name m = m_name m')) as [Heq|Hne]; [|by rewrite mrt_of_upd_ne].
    unfold mrt_of at 1, upd_mrt. simpl. rewrite Heq, lookup_insert_eq. simpl. rewrite note_operator_view.
    unfold mrt_of. by rewrite Heq. }
  unfold dropReplica, pbind, reads. destruct (replicas (idx s) !! (pth, m_name m)) as [row|]; [|by intros [= <- <-]].
  unfold call. destruct (b_Delete m (remoteID row) (world s)) as [d w].
  set (err := match d with Ok _ => None | Err e => if errors_Is e PErrNotFound then None else Some e end).
  unfold pthen. specialize (Hn err (s <| world := w |>)). destruct err; intros [= <- <-]; exact Hn.
Qed.

Section Drain.
Context (ms : list member) (m0 : member).

Definition drain_pre (s : pst W) : Prop :=
  KeysOK s /\ steady m0 s /\ Forall (fun m => drained m s) ms.

Definition drain_post (tok : string -> string -> Prop) (s s' : pst W) : Prop :=
  drain_pre s' /\ entries (idx s') = entries (idx s) /\ replicas (idx s') ⊆ replicas (idx s) /\
  (forall p x, x ∉ map m_name ms -> replicas (idx s') !! (p, x) = replicas (idx s) !! (p, x)) /\
  (forall p x old, replicas (idx s) !! (p, x) = Some old -> replicas (idx s') !! (p, x) = None ->
     exists ct n, tok p ct /\ n ∉ map m_name ms /\ live_copy (replicas (idx s')) p ct n).

Lemma drain_post_refl tok s : drain_pre s -> drain_post tok s s.
Proof. intros H. repeat split; try done; [apply H..|]. intros; congruence. Qed.
Lemma drain_post_trans tok s1 s2 s3 : drain_post tok s1 s2 -> drain_post tok s2 s3 -> drain_post tok s1 s3.
Proof.
  intros (_ & E1 & S1 & O1 & D1) (H & E2 & S2 & O2 & D2). split; [done|]. split; [congruence|]. split; [by etrans|].
  split; [intros; by rewrite O2, O1|]. intros p x old Ho Hg.
  destruct (replicas (idx s2) !! (p, x)) as [r|] eqn:Hr.
  - destruct (D2 _ _ _ Hr Hg) as (ct & n & ? & ? & ?). eauto.
  - destruct (D1 _ _ _ Ho Hr) as (ct & n & Ht & Hn & r & Hl & Hlr). exists ct, n. split; [done|]. split; [done|].
    exists r. by rewrite O2.
Qed.

(** A live copy is never on a draining member. *)
Lemma live_elsewhere pth ct s r :
  drain_pre s -> r ∈ liveReplicas pth ct s -> rp_member r ∉ map m_name ms /\ live_copy (replicas (idx s)) pth ct (rp_member r).
Proof.
  intros (HK & _ & Hd) (Hr & Hl & Ht & Hs)%liveReplicas_elem; [|done]. split; [|by exists r].
  unfold row_in_service in Hs. destruct (byName (rp_member r)) as [m|] eqn:Hb; [|done].
  apply byName_Some in Hb as [_ Hb]. rewrite list_elem_of_fmap. intros (m' & Hm' & Hin).
  rewrite Forall_forall in Hd. specialize (Hd _ Hin). apply drained_not_in_service in Hd.
  assert (in_service m s = in_service m' s); [|congruence].
  unfold in_service, state_of, snapshot, mrt_of. by rewrite Hb, Hm'.
Qed.

Lemma drop_pre pth m s r s' :
  drain_pre s -> m ∈ ms -> m_name m0 ∉ map m_name ms -> dropReplica pth m s = (r, s') -> drain_pre s'.
Proof.
  intros (HK & Hs & Hd) Hm H0 H. pose proof (fun m' => dropReplica_mrt _ _ _ _ _ m' H) as Hmrt.
  apply dropReplica_spec in H as (_ & Hrow & _). repeat split.
  - unfold KeysOK. destruct Hrow as [->| ->]; [done|by apply KeyOK_delete].
  - destruct (Hmrt m0) as [_ Hx]. unfold steady. rewrite Hx; [apply Hs|]. intros Heq. apply H0, list_elem_of_fmap. by exists m.
  - destruct (Hmrt m0) as [_ Hx]. rewrite Hx; [apply Hs|]. intros Heq. apply H0, list_elem_of_fmap. by exists m.
  - destruct (Hmrt m0) as [_ Hx]. rewrite Hx; [apply Hs|]. intros Heq. apply H0, list_elem_of_fmap. by exists m.
  - rewrite Forall_forall in *. intros x Hx. specialize (Hd x Hx). destruct (Hmrt x) as [Ho _].
    unfold drained in *. unfold operator_view in Ho. congruence.
Qed.

Lemma drain_copies_ok (tok : string -> string -> Prop) m cs n b s v s' :
  m ∈ ms -> m0 ∈ members -> m_name m0 ∉ map m_name ms -> drain_pre s ->
  (forall p ct, (p, ct) ∈ cs -> tok p ct) -> drain_copies m cs n b s = (v, s') -> drain_post tok s s'.
Proof.
  intros Hm Hm0 H0. revert n b s. induction cs as [|[p ct] cs IH]; intros n b s Hpre Htok H.
  { injection H as <- <-. by apply drain_post_refl. }
  assert (Htok' : forall p ct, (p, ct) ∈ cs -> tok p ct) by (intros; apply Htok; set_solver).
  cbn [drain_copies] in H. unfold pbind, reads in H. destruct (targetFor p s) as [target cap] eqn:Ht.
  destruct (decide _) as [Hlt|Hge]; [by eapply IH|]. destruct (negb _); [by eapply IH|].
  destruct (dropReplica p m s) as [r s1] eqn:Hd.
  assert (Hpre1 : drain_pre s1) by (by eapply drop_pre).
  assert (Hstep : drain_post tok s s1).
  { pose proof (dropReplica_spec _ _ _ _ _ Hd) as (He & Hrow & _).
    assert (Hother : forall q x, (q, x) <> (p, m_name m) -> replicas (idx s1) !! (q, x) = replicas (idx s) !! (q, x)).
    { intros q x Hq. destruct Hrow as [->| ->]; [done|]. by rewrite lookup_delete_ne. }
    split; [done|]. split; [done|]. split; [destruct Hrow as [->| ->]; [done|apply delete_subseteq]|]. split.
    - intros q x Hx. apply Hother. intros [= -> ->]. apply Hx, list_elem_of_fmap. by exists m.
    - intros q x old Ho Hg. assert ((q, x) = (p, m_name m)) as [= -> ->].
      { destruct (decide ((q, x) = (p, m_name m))); [done|]. rewrite Hother in Hg by done. congruence. }
      pose proof (steady_target p m0 s Hm0 (proj1 (proj2 Hpre))) as Htg. rewrite Ht in Htg. simpl in Htg.
      destruct (liveReplicas p ct s) as [|r0 l] eqn:Hl; [unfold count in Hge; simpl in Hge; lia|].
      destruct (live_elsewhere p ct s r0) as [Hr0 (r1 & Hr1 & Hl1)]; [done|rewrite Hl; set_solver|].
      exists ct, (rp_member r0). split; [apply Htok; set_solver|]. split; [done|]. exists r1. split; [|done].
      rewrite Hother; [done|]. intros [= Heq]. apply Hr0. rewrite Heq. apply list_elem_of_fmap. by exists m. }
  eapply drain_post_trans; [exact Hstep|]. destruct r; by eapply IH.
Qed.
End Drain.

Lemma copies_on_tok m i p ct : (p, ct) ∈ copies_on m i -> en_ctoken <$> entries i !! p = Some ct.
Proof.
  unfold copies_on. rewrite list_elem_of_omap. intros (r & _ & Hr).
  destruct (entries i !! rp_path r) as [e|] eqn:He; [|done]. simpl in Hr. injection Hr as <- <-. by rewrite He.
Qed.

Lemma drain_members_ok ms m0 l n b s v s' :
  l ⊆ ms -> m0 ∈ members -> m_name m0 ∉ map m_name ms -> drain_pre ms m0 s ->
  drain_members l n b s = (v, s') ->
  drain_post ms m0 (fun p ct => en_ctoken <$> entries (idx s) !! p = Some ct) s s'.
Proof.
  intros Hl Hm0 H0. revert n b s. induction l as [|m l IH]; intros n b s Hpre H.
  { injection H as <- <-. by apply drain_post_refl. }
  cbn [drain_members] in H. unfold drain_member, pbind, reads in H.
  destruct (drain_copies m (copies_on m (idx s)) n b s) as [[n1 b1] s1] eqn:Hd. simpl in H.
  eapply drain_copies_ok with (tok := fun p ct => en_ctoken <$> entries (idx s) !! p = Some ct) in Hd;
    [|apply Hl; set_solver|exact Hm0|exact H0|done|intros p ct; apply copies_on_tok].
  pose proof Hd as (Hpre1 & He1 & _).
  eapply drain_post_trans; [exact Hd|]. apply IH in H; [|set_solver|done]. by rewrite He1 in H.
Qed.

(** C8: Draining keeps a copy elsewhere, as long as one member of the pool is
    plainly in service: then every row that draining members lose to a drain pass
    leaves behind a live copy of the entry's content on a member that is not
    being drained, and no other row changes. *)
Theorem drain_keeps_copy ms m0 n b s v s' :
  KeysOK s -> m0 ∈ members -> steady m0 s -> m_name m0 ∉ map m_name ms -> Forall (fun m => drained m s) ms ->
  drain_members ms n b s = (v, s') ->
  entries (idx s') = entries (idx s) /\
  (forall p x, x ∉ map m_name ms -> replicas (idx s') !! (p, x) = replicas (idx s) !! (p, x)) /\
  (forall p x old, replicas (idx s) !! (p, x) = Some old -> replicas (idx s') !! (p, x) = None ->
     exists row y, entries (idx s) !! p = Some row /\ y ∉ map m_name ms /\
                   live_copy (replicas (idx s')) p (en_ctoken row) y).
Proof.
  intros HK Hm0 Hs H0 Hd H. eapply drain_members_ok in H; [|done..].
  destruct H as (_ & He & _ & Ho & Hg). split; [done|]. split; [done|]. intros p x old Hold Hgone.
  destruct (Hg _ _ _ Hold Hgone) as (ct & y & Ht & Hy & Hc).
  destruct (entries (idx s) !! p) as [row|]; [|done]. simpl in Ht. injection Ht as <-. eauto.
Qed.
End Safety.
