(* ===== verification/PoolLease.v ===== *)
(** * Reservations and waiting (pick.go)

    Leases as a step system: a pick reserves or waits on the channel of its file,
    the end of a read returns exactly one reservation and closes that channel, a
    waiting pick leaves when its channel is closed or its context ends, and
    anything else leaves the counters and channels alone.  The counters are then
    the outstanding leases, and no waiting pick is ever forgotten. *)
From S2P Require Import Prelude Filepath GoLib Retry Health PoolState PoolMember PoolPlacement PoolIndex PoolRead.
Open Scope Z_scope.

Section Lease.
Context {W : Type} {E : Env W} {P : Pool}.

#[local] Notation lease_ := (member * replicaRow)%type.
Definition leases_on (n : string) (L : list lease_) : Z := Z.of_nat (length (filter (fun l => m_name (fst l) = n) L)).
(** The streams of a file a member is held to one of. *)
Definition streaming (n pth : string) (l : lease_) : Prop :=
  m_name (fst l) = n /\ rp_path (snd l) = pth /\ limitsStreams (fst l) = true.
#[local] Instance streaming_dec n p l : Decision (streaming n p l).
Proof. unfold streaming. apply _. Defined.
Definition streams_on (n pth : string) (L : list lease_) : nat := length (filter (streaming n pth) L).

(** The state, the leases not yet returned, and the picks that wait: the file
    each is for, and its channel. *)
Record lsys := MkLsys { l_st : pst W; l_out : list lease_; l_waits : list (string * nat) }.

Inductive lease_step : lsys -> lsys -> Prop :=
| ls_pick s L T reps c s' :
    pickLocked reps s = (Answer c, s') -> lease_step (MkLsys s L T) (MkLsys (reserve c s') ((c_m c, c_r c) :: L) T)
| ls_wait s L T reps pth ch s' :
    Forall (fun r => rp_path r = pth) reps -> pickLocked reps s = (Wait ch, s') ->
    lease_step (MkLsys s L T) (MkLsys s' L ((pth, ch) :: T))
| ls_leave s L T pth ch T' :
    T ≡ₚ (pth, ch) :: T' -> ch ∈ closedChans s \/ is_Some (ctx_Err (world s)) -> lease_step (MkLsys s L T) (MkLsys s L T')
| ls_done s L T m r ok L' :
    L ≡ₚ (m, r) :: L' -> lease_step (MkLsys s L T) (MkLsys (snd (lease_done m r ok s)) L' T)
| ls_other s s' L T :
    (forall m, inflight (mrt_of s' m) = inflight (mrt_of s m)) -> streams s' = streams s ->
    streamWake s' = streamWake s -> nextChan s' = nextChan s -> closedChans s' = closedChans s ->
    lease_step (MkLsys s L T) (MkLsys s' L T).

(** The counters are the outstanding leases. *)
Definition Accounted (sl : pst W * list lease_) : Prop :=
  let '(s, L) := sl in
  (forall m, inflight (mrt_of s m) = leases_on (m_name m) L) /\
  (forall n p, streams s !! (n, p) = if decide (streams_on n p L = 0)%nat then None else Some (Z.of_nat (streams_on n p L))).

(** A limited stream of the file is out. *)
Definition streamed (pth : string) (L : list lease_) : Prop :=
  exists m r, (m, r) ∈ L /\ rp_path r = pth /\ limitsStreams m = true.

(** Every open channel belongs to one file of which a limited stream is out, and
    every pick that waits on an open channel waits on that of its file. *)
Record Waking (x : lsys) : Prop := {
  wk_out : forall p ch, streamWake (l_st x) !! p = Some ch -> streamed p (l_out x);
  wk_open : forall p ch, streamWake (l_st x) !! p = Some ch -> ch ∉ closedChans (l_st x) /\ (ch < nextChan (l_st x))%nat;
  wk_one : forall p q ch, streamWake (l_st x) !! p = Some ch -> streamWake (l_st x) !! q = Some ch -> p = q;
  wk_closed : forall ch, ch ∈ closedChans (l_st x) -> (ch < nextChan (l_st x))%nat;
  wk_waits : forall p ch, (p, ch) ∈ l_waits x -> ch ∈ closedChans (l_st x) \/ streamWake (l_st x) !! p = Some ch
}.

(** *** Counting *)

Lemma leases_cons n l L : leases_on n (l :: L) = leases_on n L + (if decide (m_name (fst l) = n) then 1 else 0).
Proof. unfold leases_on. rewrite filter_cons. destruct (decide _); simpl; lia. Qed.
Lemma streams_yes n p l L : streaming n p l -> streams_on n p (l :: L) = S (streams_on n p L).
Proof. intros H. unfold streams_on. by rewrite filter_cons_True. Qed.
Lemma streams_no n p l L : ~ streaming n p l -> streams_on n p (l :: L) = streams_on n p L.
Proof. intros H. unfold streams_on. by rewrite filter_cons_False. Qed.
Lemma leases_perm n L L' : L ≡ₚ L' -> leases_on n L = leases_on n L'.
Proof. intros H. unfold leases_on. by rewrite H. Qed.
Lemma streams_perm n p L L' : L ≡ₚ L' -> streams_on n p L = streams_on n p L'.
Proof. intros H. unfold streams_on. by rewrite H. Qed.

Lemma mrt_of_name (s : pst W) m m' : m_name m = m_name m' -> mrt_of s m = mrt_of s m'.
Proof. intros H. unfold mrt_of. by rewrite H. Qed.
Lemma inflight_upd m (f : Z -> Z) (g : mrt -> mrt) (s : pst W) m' :
  (forall x, inflight (g x) = f (inflight x)) ->
  inflight (mrt_of (upd_mrt m g s) m') =
  if decide (m_name m = m_name m') then f (inflight (mrt_of s m')) else inflight (mrt_of s m').
Proof.
  intros Hg. destruct (decide _) as [Hn|Hn]; [|by rewrite mrt_of_upd_ne].
  by rewrite <- (mrt_of_name _ m m'), mrt_of_upd, Hg, (mrt_of_name _ m m').
Qed.

Lemma stream_count_on s L m r :
  Accounted (s, L) -> stream_count s m r = Z.of_nat (streams_on (m_name m) (rp_path r) L).
Proof. intros [_ H]. unfold stream_count. rewrite H. destruct (decide _); simpl; lia. Qed.

Lemma reserve_accounted c s L : Accounted (s, L) -> Accounted (reserve c s, (c_m c, c_r c) :: L).
Proof.
  intros HA. pose proof HA as [Hi Hs]. unfold reserve. cbv zeta.
  set (s1 := upd_mrt (c_m c) (fun r => r <| inflight ::= Z.add 1 |>) s).
  assert (H1 : forall m, inflight (mrt_of s1 m) = leases_on (m_name m) ((c_m c, c_r c) :: L)).
  { intros m. unfold s1. rewrite (inflight_upd _ (Z.add 1)) by done. rewrite leases_cons, <- Hi. simpl. destruct (decide _); lia. }
  assert (Hc : stream_count s1 (c_m c) (c_r c) = Z.of_nat (streams_on (m_name (c_m c)) (rp_path (c_r c)) L))
    by apply (stream_count_on s L _ _ HA).
  assert (Hoff : forall n p, ~ streaming n p (c_m c, c_r c) -> streams s !! (n, p) =
    if decide (streams_on n p ((c_m c, c_r c) :: L) = 0)%nat then None
    else Some (Z.of_nat (streams_on n p ((c_m c, c_r c) :: L)))) by (intros; rewrite streams_no by done; apply Hs).
  destruct (limitsStreams (c_m c)) eqn:Hl; (split; [exact H1|]); intros n p; simpl.
  - destruct (decide ((n, p) = (m_name (c_m c), rp_path (c_r c)))) as [[= -> ->]|Hne].
    + rewrite lookup_insert_eq, streams_yes by done. rewrite decide_False by lia. rewrite Hc. f_equal. lia.
    + rewrite lookup_insert_ne by congruence. apply Hoff. intros (H & H' & _). simpl in *. congruence.
  - apply Hoff. intros (_ & _ & H). simpl in *. congruence.
Qed.

Lemma release_accounted m r s L' : Accounted (s, (m, r) :: L') -> Accounted (release m r s, L').
Proof.
  intros HA. pose proof HA as [Hi Hs]. unfold release. cbv zeta.
  set (s1 := upd_mrt m (fun x => x <| inflight ::= fun n => n - 1 |>) s).
  assert (H1 : forall m', inflight (mrt_of s1 m') = leases_on (m_name m') L').
  { intros m'. unfold s1. rewrite (inflight_upd _ (fun n => n - 1)) by done. rewrite Hi, leases_cons. simpl. destruct (decide _); lia. }
  assert (Hc : stream_count s1 m r = Z.of_nat (streams_on (m_name m) (rp_path r) ((m, r) :: L')))
    by apply (stream_count_on s _ _ _ HA).
  assert (Hoff : forall n p, ~ streaming n p (m, r) -> streams s !! (n, p) =
    if decide (streams_on n p L' = 0)%nat then None else Some (Z.of_nat (streams_on n p L')))
    by (intros; rewrite Hs, streams_no by done; done).
  destruct (limitsStreams m) eqn:Hl.
  - rewrite streams_yes in Hc by done. cbv zeta.
    assert (H2 : forall n p, (n, p) <> (m_name m, rp_path r) -> streams s !! (n, p) =
      if decide (streams_on n p L' = 0)%nat then None else Some (Z.of_nat (streams_on n p L'))).
    { intros n p Hne. apply Hoff. intros (H & H' & _). simpl in *. congruence. }
    assert (Hkeep : forall s2 : pst W, Accounted (s2, L') -> Accounted (match streamWake s2 !! rp_path r with
      | Some ch => s2 <| closedChans ::= union {[ch]} |> <| streamWake ::= delete (rp_path r) |> | None => s2 end, L')).
    { intros s2 H. by destruct (streamWake s2 !! _). }
    destruct (decide _) as [Hle|Hgt]; apply Hkeep; (split; [exact H1|]); intros n p; simpl.
    + destruct (decide ((n, p) = (m_name m, rp_path r))) as [[= -> ->]|Hne].
      * rewrite lookup_delete_eq, decide_True by lia. done.
      * rewrite lookup_delete_ne by congruence. by apply H2.
    + destruct (decide ((n, p) = (m_name m, rp_path r))) as [[= -> ->]|Hne].
      * rewrite lookup_insert_eq, decide_False by lia. rewrite Hc. f_equal. lia.
      * rewrite lookup_insert_ne by congruence. by apply H2.
  - split; [exact H1|]. intros n p. simpl. apply Hoff. intros (_ & _ & H). simpl in *. congruence.
Qed.

Lemma release_wake m r (s : pst W) :
  streamWake (release m r s) = (if limitsStreams m then delete (rp_path r) (streamWake s) else streamWake s) /\
  nextChan (release m r s) = nextChan s /\
  closedChans (release m r s) = match (if limitsStreams m then streamWake s !! rp_path r else None) with
                                | Some ch => {[ch]} ∪ closedChans s | None => closedChans s end.
Proof.
  unfold release. cbv zeta. destruct (limitsStreams m); [|done].
  destruct (decide _); simpl; destruct (streamWake s !! rp_path r) eqn:He; simpl; rewrite ?delete_id by done; done.
Qed.

Lemma lease_done_counters m r ok (s : pst W) :
  (forall m', inflight (mrt_of (snd (lease_done m r ok s)) m') = inflight (mrt_of (release m r s) m')) /\
  streams (snd (lease_done m r ok s)) = streams (release m r s) /\
  streamWake (snd (lease_done m r ok s)) = streamWake (release m r s) /\
  nextChan (snd (lease_done m r ok s)) = nextChan (release m r s) /\
  closedChans (snd (lease_done m r ok s)) = closedChans (release m r s).
Proof.
  unfold lease_done, pthen. destruct ok as [[n d]|]; [|done]. unfold modify, noteLatency. simpl. split; [|done].
  intros m'. unfold noteLatency, modify. simpl. rewrite (inflight_upd _ (fun x => x)).
  - rewrite (inflight_upd _ (fun x => x)) by done. by destruct (decide _).
  - intros x. by destruct (measured x).
Qed.

Lemma pickLocked_counters reps (s s' : pst W) a L :
  pickLocked reps s = (a, s') -> Accounted (s, L) -> Accounted (s', L).
Proof.
  unfold pickLocked, streamWaitLocked. destruct (pick_look s reps); [by intros [= _ <-]| |by intros [= _ <-]].
  by destruct (streamWake s !! _); intros [= _ <-].
Qed.

Lemma lease_step_accounted x y : lease_step x y -> Accounted (l_st x, l_out x) -> Accounted (l_st y, l_out y).
Proof.
  destruct 1 as [s L T reps c s' Hp|s L T reps pth ch s' _ Hp|s L T pth ch T' HT _|s L T m r ok L' HL|s s' L T Hi Hs _ _ _];
    intros HA; cbn [l_st l_out] in *.
  - apply reserve_accounted. by eapply pickLocked_counters.
  - by eapply pickLocked_counters.
  - done.
  - assert (HA' : Accounted (s, (m, r) :: L')).
    { destruct HA as [H1 H2]. split; intros; [rewrite H1; by apply leases_perm|].
      rewrite H2. by rewrite (streams_perm _ _ _ _ HL). }
    apply release_accounted in HA' as [H1 H2]. destruct (lease_done_counters m r ok s) as (C1 & C2 & _).
    split; [intros; by rewrite C1|intros; by rewrite C2].
  - destruct HA as [H1 H2]. split; intros; [by rewrite Hi|by rewrite Hs].
Qed.

(** *** What a pick that waits waits for *)

Lemma streamFree_nil (s : pst W) cands c :
  streamFree s cands = [] -> c ∈ cands -> limitsStreams (c_m c) = true /\ stream_count s (c_m c) (c_r c) <> 0.
Proof.
  unfold streamFree. intros Hf Hc.
  destruct (decide (limitsStreams (c_m c) = false \/ stream_count s (c_m c) (c_r c) = 0)) as [Hy|Hn].
  - assert (Hin : c ∈ filter (fun c => limitsStreams (c_m c) = false \/ stream_count s (c_m c) (c_r c) = 0) cands)
      by (by apply list_elem_of_filter).
    rewrite Hf in Hin. by apply elem_of_nil in Hin.
  - destruct (limitsStreams (c_m c)); naive_solver.
Qed.

Lemma candidate_row (s : pst W) reps c : c ∈ healthy_of s reps ++ probing_of s reps -> c_r c ∈ reps.
Proof.
  rewrite elem_of_app. unfold healthy_of, probing_of. rewrite !list_elem_of_omap.
  intros [(r & Hr & Hc)|(r & Hr & Hc)]; destruct (byName (rp_member r)); simpl in Hc; try done.
  - destruct (Usable _); [|done]. by injection Hc as <-.
  - destruct (Usable _); [done|]. destruct (usable _ _ _); [|done]. by injection Hc as <-.
Qed.

Lemma wait_for_stream (s : pst W) reps p c :
  pick_look s reps = WaitFor p -> c ∈ healthy_of s reps ++ probing_of s reps ->
  limitsStreams (c_m c) = true /\ stream_count s (c_m c) (c_r c) <> 0.
Proof.
  unfold pick_look. cbv zeta. intros H Hc.
  destruct (decide (_ = 0)%nat); [done|]. destruct (decide (1 < _)%nat).
  - destruct (streamFree s (healthy_of s reps)) eqn:H1; [|destruct (choose _ _); done].
    destruct (streamFree s (probing_of s reps)) eqn:H2; [|destruct (choose _ _); done].
    apply elem_of_app in Hc as [Hc|Hc]; [by eapply streamFree_nil in H1|by eapply streamFree_nil in H2].
  - destruct (choose _ _); done.
Qed.

Lemma wait_has_candidates (s : pst W) reps p :
  pick_look s reps = WaitFor p ->
  exists c, c ∈ healthy_of s reps ++ probing_of s reps /\ exists r l, reps = r :: l /\ p = rp_path r.
Proof.
  unfold pick_look. cbv zeta. intros H. destruct (decide (_ = 0)%nat) as [|Hn]; [done|].
  destruct (decide (1 < _)%nat); [|destruct (choose _ _); done].
  destruct (streamFree s (healthy_of s reps)); [|destruct (choose _ _); done].
  destruct (streamFree s (probing_of s reps)); [|destruct (choose _ _); done]. injection H as <-.
  rewrite <- length_app in Hn. destruct (healthy_of s reps ++ probing_of s reps) as [|c cs] eqn:Hl; [simpl in Hn; lia|].
  exists c. split; [apply list_elem_of_here|]. destruct reps as [|r reps]; [done|]. eauto.
Qed.

(** A look that finds no stream free: one is out. *)
Lemma wait_streamed (s : pst W) reps p pth L :
  Accounted (s, L) -> Forall (fun r => rp_path r = pth) reps -> pick_look s reps = WaitFor p -> p = pth /\ streamed pth L.
Proof.
  intros HA Hp Hpk. destruct (wait_has_candidates _ _ _ Hpk) as (c & Hc & r0 & l0 & -> & ->).
  split; [by apply Forall_inv in Hp|].
  destruct (wait_for_stream _ _ _ _ Hpk Hc) as [Hl Hn]. rewrite (stream_count_on s L _ _ HA) in Hn.
  unfold streams_on in Hn. destruct (filter _ L) as [|[m r] l] eqn:Hf; [done|].
  assert (Hin : (m, r) ∈ filter (streaming (m_name (c_m c)) (rp_path (c_r c))) L) by (rewrite Hf; apply list_elem_of_here).
  apply list_elem_of_filter in Hin as [(H1 & H2 & H3) Hin]. simpl in *. exists m, r. split; [done|]. split; [|done].
  rewrite H2. rewrite Forall_forall in Hp. apply Hp. by eapply candidate_row.
Qed.

Lemma reserve_wake c (s : pst W) :
  streamWake (reserve c s) = streamWake s /\ nextChan (reserve c s) = nextChan s /\ closedChans (reserve c s) = closedChans s.
Proof. unfold reserve. cbv zeta. by destruct (limitsStreams (c_m c)). Qed.

Lemma pickLocked_answer reps (s s' : pst W) c : pickLocked reps s = (Answer c, s') -> s' = s.
Proof. unfold pickLocked, streamWaitLocked. destruct (pick_look s reps); [by intros [= _ <-]| |done]. by destruct (streamWake s !! _). Qed.
Lemma pickLocked_wait reps (s s' : pst W) ch :
  pickLocked reps s = (Wait ch, s') -> exists p, pick_look s reps = WaitFor p /\ streamWaitLocked p s = (ch, s').
Proof.
  unfold pickLocked. destruct (pick_look s reps) as [|p|]; [done| |done]. intros H. exists p. split; [done|].
  destruct (streamWaitLocked p s). congruence.
Qed.

(** Waiting makes the channel if there is none. *)
Lemma wait_waking s L T pth ch s' :
  Waking (MkLsys s L T) -> streamed pth L -> streamWaitLocked pth s = (ch, s') -> Waking (MkLsys s' L ((pth, ch) :: T)).
Proof.
  intros [Ho Hop H1 Hc Hw] Hst. cbn in *. unfold streamWaitLocked. destruct (streamWake s !! pth) as [c0|] eqn:He; intros [= <- <-].
  - split; cbn; try done. intros p ch [[= -> ->]|Hin]%elem_of_cons; [by right|by apply Hw].
  - assert (Hnew : nextChan s ∉ closedChans s) by (intros Hin; pose proof (Hc _ Hin); lia).
    split; cbn.
    + intros p ch [[<- <-]|[_ Hp]]%lookup_insert_Some; [done|by eapply Ho].
    + intros p ch [[<- <-]|[_ Hp]]%lookup_insert_Some; [split; [done|lia]|]. destruct (Hop _ _ Hp). split; [done|lia].
    + intros p q ch [[<- <-]|[Hp Hp']]%lookup_insert_Some [[<- Hq]|[Hq Hq']]%lookup_insert_Some; try done.
      * pose proof (proj2 (Hop _ _ Hq')). lia.
      * subst. pose proof (proj2 (Hop _ _ Hp')). lia.
      * by eapply H1.
    + intros ch Hin. pose proof (Hc _ Hin). lia.
    + intros p ch [[= -> ->]|Hin]%elem_of_cons; [right; by rewrite lookup_insert_eq|].
      destruct (Hw _ _ Hin) as [|Hp]; [by left|right]. rewrite lookup_insert_ne by congruence. done.
Qed.

(** Returning a stream closes the channel of its file. *)
Lemma done_waking s L T m r ok L' :
  Waking (MkLsys s L T) -> L ≡ₚ (m, r) :: L' -> Waking (MkLsys (snd (lease_done m r ok s)) L' T).
Proof.
  intros [Ho Hop H1 Hc Hw] HL. destruct (lease_done_counters m r ok s) as (_ & _ & E1 & E2 & E3).
  destruct (release_wake m r s) as (R1 & R2 & R3). rewrite R1 in E1. rewrite R2 in E2. rewrite R3 in E3. cbn in *.
  assert (Hsub : forall p ch, streamWake (snd (lease_done m r ok s)) !! p = Some ch ->
    streamWake s !! p = Some ch /\ (limitsStreams m = true -> p <> rp_path r)).
  { intros p ch. rewrite E1. destruct (limitsStreams m); [|done]. rewrite lookup_delete_Some. intros [Hn Hp]. split; [done|by intros _ ->]. }
  split; cbn.
  - intros p ch [Hp Hne]%Hsub. destruct (Ho _ _ Hp) as (m' & r' & Hin & Hpth & Hlim). exists m', r'. split; [|done].
    rewrite HL in Hin. apply elem_of_cons in Hin as [[= -> ->]|Hin]; [|done]. exfalso. by apply (Hne Hlim).
  - intros p ch [Hp Hne]%Hsub. destruct (Hop _ _ Hp) as [Hn Hlt]. rewrite E2, E3. split; [|done].
    destruct (limitsStreams m) eqn:Hlim; [|done]. destruct (streamWake s !! rp_path r) as [c0|] eqn:He; [|done].
    intros [->%elem_of_singleton|]%elem_of_union; [|done]. by apply (Hne eq_refl), (H1 _ _ c0).
  - intros p q ch [Hp _]%Hsub [Hq _]%Hsub. by eapply H1.
  - intros ch. rewrite E2, E3. destruct (limitsStreams m); [|apply Hc]. destruct (streamWake s !! rp_path r) as [c0|] eqn:He; [|apply Hc].
    intros [->%elem_of_singleton|Hin]%elem_of_union; [by eapply Hop|by apply Hc].
  - intros p ch Hin. rewrite E1, E3. destruct (Hw _ _ Hin) as [Hcl|Hp].
    + left. destruct (limitsStreams m); [destruct (streamWake s !! rp_path r); set_solver|done].
    + destruct (limitsStreams m); [|by right]. destruct (decide (p = rp_path r)) as [->|Hne].
      * left. rewrite Hp. set_solver.
      * right. by rewrite lookup_delete_ne.
Qed.

Lemma lease_step_waking x y : lease_step x y -> Accounted (l_st x, l_out x) -> Waking x -> Waking y.
Proof.
  destruct 1 as [s L T reps c s' Hp|s L T reps pth ch s' Hf Hp|s L T pth ch T' HT _|s L T m r ok L' HL|s s' L T _ _ E1 E2 E3];
    intros HA HK; cbn [l_st l_out] in *.
  - apply pickLocked_answer in Hp as ->. destruct (reserve_wake c s) as (R1 & R2 & R3). destruct HK as [Ho Hop H1 Hc Hw].
    split; cbn in *; rewrite ?R1, ?R2, ?R3; try done. intros p ch Hp. destruct (Ho _ _ Hp) as (m & r & Hin & Hr).
    exists m, r. split; [by right|done].
  - apply pickLocked_wait in Hp as (p & Hl & Hs). destruct (wait_streamed _ _ _ _ _ HA Hf Hl) as [-> Hst].
    by eapply wait_waking.
  - destruct HK as [Ho Hop H1 Hc Hw]. split; cbn in *; try done. intros p c Hin. apply Hw. rewrite HT. by right.
  - by eapply done_waking.
  - destruct HK as [Ho Hop H1 Hc Hw]. split; cbn in *; rewrite ?E1, ?E2, ?E3; done.
Qed.

Lemma lease_steps_inv x y : rtc lease_step x y -> Accounted (l_st x, l_out x) -> Waking x ->
  Accounted (l_st y, l_out y) /\ Waking y.
Proof.
  induction 1 as [|x y z Hxy _ IH]; [done|]. intros HA HK. apply IH; [by eapply lease_step_accounted|by eapply lease_step_waking].
Qed.

(** C12: A pick never waits for nothing, and no wake-up is lost.  Start a pool
    without reservations or waiting picks and let picks reserve or wait, reads
    end, waiting picks leave once their channel is closed or their context has
    ended, and everything else happen in any order.  The counters are always
    exactly the leases not yet returned.  When a pick for a file waits, a lease
    on that very file is outstanding, on a member held to one stream; every pick
    whose channel is still open waits on the channel recorded for its file, with
    such a lease outstanding; the return of any such lease closes the channel of
    every pick waiting for the file, and no channel is ever closed twice.  Once
    no such lease is left, a pick finds a member or reports that there is none. *)
Theorem pick_wait_is_woken s0 s L T reps pth :
  (forall m, inflight (mrt_of s0 m) = 0) -> streams s0 = ∅ -> streamWake s0 = ∅ -> closedChans s0 = ∅ ->
  rtc lease_step (MkLsys s0 [] []) (MkLsys s L T) ->
  Forall (fun r => rp_path r = pth) reps ->
  (forall m, inflight (mrt_of s m) = leases_on (m_name m) L) /\
  (forall ch s', pickLocked reps s = (Wait ch, s') -> streamed pth L) /\
  (forall p ch, (p, ch) ∈ T -> ch ∈ closedChans s \/ (streamWake s !! p = Some ch /\ streamed p L)) /\
  (forall m r ok, (m, r) ∈ L -> limitsStreams m = true ->
     forall ch, (rp_path r, ch) ∈ T -> ch ∈ closedChans (snd (lease_done m r ok s))) /\
  (forall p ch, streamWake s !! p = Some ch -> ch ∉ closedChans s) /\
  (~ streamed pth L -> forall ch, fst (pickLocked reps s) <> Wait ch).
Proof.
  intros Hi Hs Hwk Hcl Hr Hp.
  destruct (lease_steps_inv _ _ Hr) as [HA HK]; cbn.
  { split; intros; [by rewrite Hi|by rewrite Hs, lookup_empty]. }
  { split; cbn; rewrite ?Hwk, ?Hcl; try (intros *; rewrite ?lookup_empty; done).
    intros p ch Hin. by apply not_elem_of_nil in Hin. }
  cbn in HA. assert (Hw : forall ch s', pickLocked reps s = (Wait ch, s') -> streamed pth L).
  { intros ch s' (p & Hl & _)%pickLocked_wait. by eapply wait_streamed. }
  split; [apply HA|]. split; [exact Hw|]. split; [|split; [|split]].
  - intros p ch Hin. destruct (wk_waits _ HK p ch Hin) as [|He]; [by left|right]. split; [done|]. by apply (wk_out _ HK p ch).
  - intros m r ok Hin Hl ch Hch. destruct (lease_done_counters m r ok s) as (_ & _ & _ & _ & ->).
    destruct (release_wake m r s) as (_ & _ & ->). rewrite Hl.
    destruct (wk_waits _ HK _ ch Hch) as [Hc|He]; cbn in *; [|rewrite He; set_solver].
    destruct (streamWake s !! rp_path r); [set_solver|done].
  - intros p ch He. by apply (wk_open _ HK p ch).
  - intros Hn ch Hpk. destruct (pickLocked reps s) as [a s'] eqn:He. simpl in Hpk. subst a. by apply Hn, (Hw ch s').
Qed.
End Lease.

(** ** The replica cache is coherent (replicacache.go, read.go: resolveFile)

    Lookups, commits and invalidations as a step system in which a lookup's
    three reads of the index and its [put], and a commit and its invalidation,
    are separate steps that interleave with everything else. *)

Section Cache.
Context {W : Type} {E : Env W} {P : Pool}.

(** What the index says about a file: its path, its row, and its replicas in
    some order. *)
Definition answer (s : pst W) (id ver : string) (v : resolved) : Prop :=
  fst (pathOf id s) = Ok (rv_pth v) /\ entryAt (rv_pth v) (idx s) = Some (rv_row v) /\
  en_kind (rv_row v) = KindFile /\ (ver = "" \/ en_ctoken (rv_row v) = ver) /\
  rv_reps v ≡ₚ replicasOf (rv_pth v) (en_ctoken (rv_row v)) s.

Inductive stage := AtStart | HavePath (p : string) | HaveRow (p : string) (row : entryRow) | HaveReps (v : resolved).
Record flight := MkFlight { f_id : string; f_ver : string; f_gen : Z; f_stage : stage }.
Definition advance (f : flight) (st : stage) : flight := MkFlight (f_id f) (f_ver f) (f_gen f) st.

(** [dirty] counts the commits whose invalidation is still to come. *)
Record csys := MkCsys { c_st : pst W; dirty : nat; flights : list flight }.

(** One read of a lookup in flight. *)
Inductive read_step (s : pst W) (f : flight) : flight -> Prop :=
| rs_path p : f_stage f = AtStart -> fst (pathOf (f_id f) s) = Ok p -> read_step s f (advance f (HavePath p))
| rs_row p row :
    f_stage f = HavePath p -> entryAt p (idx s) = Some row -> en_kind row = KindFile ->
    (f_ver f = "" \/ en_ctoken row = f_ver f) -> read_step s f (advance f (HaveRow p row))
| rs_reps p row :
    f_stage f = HaveRow p row ->
    read_step s f (advance f (HaveReps (MkResolved p row (replicasOf p (en_ctoken row) s)))).

Inductive cache_step : csys -> csys -> Prop :=
| cs_commit s n fs i : cache_step (MkCsys s n fs) (MkCsys (s <| idx := i |>) (S n) fs)
| cs_invalidate s n fs : cache_step (MkCsys s (S n) fs) (MkCsys (s <| cache ::= invalidate |>) n fs)
| cs_get s n fs id ver t : cache_step (MkCsys s n fs) (MkCsys (s <| cache := snd (cache_get id ver t (cache s)) |>) n fs)
| cs_start s n fs id ver :
    cache_step (MkCsys s n fs) (MkCsys s n (MkFlight id ver (rc_gen (cache s)) AtStart :: fs))
| cs_read s n fs1 f f' fs2 :
    read_step s f f' -> cache_step (MkCsys s n (fs1 ++ f :: fs2)) (MkCsys s n (fs1 ++ f' :: fs2))
| cs_put s n fs1 f v fs2 t :
    f_stage f = HaveReps v ->
    cache_step (MkCsys s n (fs1 ++ f :: fs2))
      (MkCsys (s <| cache ::= cache_put (f_id f) (f_ver f) (f_gen f) v t |>) n (fs1 ++ fs2))
| cs_give_up s n fs1 f fs2 : cache_step (MkCsys s n (fs1 ++ f :: fs2)) (MkCsys s n (fs1 ++ fs2))
| cs_other s s' n fs : idx s' = idx s -> cache s' = cache s -> cache_step (MkCsys s n fs) (MkCsys s' n fs).

(** ** The invariant *)

Definition stage_ok (s : pst W) (f : flight) : Prop :=
  match f_stage f with
  | AtStart => True
  | HavePath p => fst (pathOf (f_id f) s) = Ok p
  | HaveRow p row => fst (pathOf (f_id f) s) = Ok p /\ entryAt p (idx s) = Some row /\ en_kind row = KindFile /\
                     (f_ver f = "" \/ en_ctoken row = f_ver f)
  | HaveReps v => answer s (f_id f) (f_ver f) v
  end.
Definition entries_ok (s : pst W) (n : nat) (c : replicaCache) : Prop :=
  forall k e, rc_m c !! k = Some e ->
    cr_gen e <= rc_gen c /\ (n = O -> cr_gen e = rc_gen c -> answer s (fst k) (snd k) (cr_resolved e)).
Definition flight_ok (s : pst W) (n : nat) (g : Z) (f : flight) : Prop :=
  f_gen f <= g /\ (n = O -> f_gen f = g -> stage_ok s f).
Definition Coherent (c : csys) : Prop :=
  let s := c_st c in
  entries_ok s (dirty c) (cache s) /\ Forall (flight_ok s (dirty c) (rc_gen (cache s))) (flights c) /\
  Z.of_nat (size (rc_m (cache s))) <= replicaCacheMax.

(** An answer depends on the index only. *)
Lemma pathOf_idx (s s' : pst W) id : idx s' = idx s -> fst (pathOf id s') = fst (pathOf id s).
Proof.
  intros H. unfold pathOf. destruct (bool_decide _); [done|]. destruct (hasPrefix id "/"); [done|].
  destruct (negb _); [done|]. unfold reads. simpl. by rewrite H.
Qed.
Lemma replicasOf_idx (s s' : pst W) p ct : idx s' = idx s -> replicasOf p ct s' ≡ₚ replicasOf p ct s.
Proof. intros H. unfold replicasOf, sortReplicas. by rewrite !stable_sort_perm, H. Qed.
Lemma answer_idx s s' id ver v : idx s' = idx s -> answer s id ver v -> answer s' id ver v.
Proof.
  intros H (H1 & H2 & H3 & H4 & H5). unfold answer. rewrite (pathOf_idx s s'), H by done.
  split; [done|]. split; [done|]. split; [done|]. split; [done|]. rewrite H5. symmetry. by apply replicasOf_idx.
Qed.
Lemma stage_idx s s' f : idx s' = idx s -> stage_ok s f -> stage_ok s' f.
Proof.
  intros H. unfold stage_ok. destruct (f_stage f); [done|..]; rewrite ?(pathOf_idx s s'), ?H by done; [done..|].
  by apply answer_idx.
Qed.
Lemma flights_idx s s' n g fs : idx s' = idx s -> Forall (flight_ok s n g) fs -> Forall (flight_ok s' n g) fs.
Proof.
  intros H Hf. eapply Forall_impl; [exact Hf|]. intros f [H1 H2]. split; [done|]. intros Hn Hg. eapply stage_idx; [exact H|by apply H2].
Qed.
Lemma entries_idx s s' n c : idx s' = idx s -> entries_ok s n c -> entries_ok s' n c.
Proof.
  intros H He k e Hk. destruct (He _ _ Hk) as [H1 H2]. split; [done|]. intros Hn Hg. eapply answer_idx; [exact H|by apply H2].
Qed.

Lemma read_step_ok s f f' n g : read_step s f f' -> flight_ok s n g f -> flight_ok s n g f'.
Proof.
  intros Hr [H1 H2]. destruct Hr as [p Hs Hp|p row Hs He Hk Hv|p row Hs]; (split; [exact H1|]); intros Hn Hg;
    specialize (H2 Hn Hg); unfold stage_ok in *; rewrite Hs in H2; simpl in *; [done|done|].
  destruct H2 as (A & B & C & D). by repeat split.
Qed.

Lemma cache_put_gen id ver g v t c : rc_gen (cache_put id ver g v t c) = rc_gen c.
Proof. unfold cache_put. by destruct (decide _). Qed.
Lemma cache_put_entry id ver g v t c k e :
  rc_m (cache_put id ver g v t c) !! k = Some e ->
  rc_m c !! k = Some e \/ (g = rc_gen c /\ k = (id, ver) /\ e = MkCached v g (t + replicaCacheTTL)).
Proof.
  unfold cache_put. destruct (decide (g <> rc_gen c)) as [|Hg%dec_stable]; [auto|]. cbv zeta. simpl.
  destruct (decide (k = (id, ver))) as [->|Hk]; [rewrite lookup_insert_eq; intros [= <-]; auto|].
  rewrite lookup_insert_ne by done. destruct (decide _); [|auto].
  destruct (decide _); [by rewrite lookup_empty|]. intros [H _]%map_lookup_filter_Some. auto.
Qed.
Lemma cache_put_size id ver g v t c :
  Z.of_nat (size (rc_m c)) <= replicaCacheMax -> Z.of_nat (size (rc_m (cache_put id ver g v t c))) <= replicaCacheMax.
Proof.
  intros Hc. unfold cache_put. destruct (decide (g <> rc_gen c)); [done|]. cbv zeta. simpl.
  set (m := if decide _ then _ else _).
  assert (Hm : Z.of_nat (size m) < replicaCacheMax).
  { unfold m. destruct (decide (replicaCacheMax <= _)) as [H1|H1]; [|lia].
    destruct (decide (replicaCacheMax <= _)) as [H2|H2]; [rewrite map_size_empty; done|lia]. }
  destruct (m !! (id, ver)) as [x|] eqn:Hx; [rewrite map_size_insert_Some by (by rewrite Hx); lia|].
  rewrite map_size_insert_None by done. lia.
Qed.
Lemma cache_get_sub id ver t c :
  rc_gen (snd (cache_get id ver t c)) = rc_gen c /\ rc_m (snd (cache_get id ver t c)) ⊆ rc_m c.
Proof.
  unfold cache_get. destruct (rc_m c !! (id, ver)) as [e|]; [|done]. destruct (_ || _); [|done].
  simpl. split; [done|apply delete_subseteq].
Qed.

Lemma cache_step_coherent c c' : cache_step c c' -> Coherent c -> Coherent c'.
Proof.
  intros Hst (He & Hf & Hz). destruct Hst as [s n fs i|s n fs|s n fs id ver t|s n fs id ver|s n fs1 f f' fs2 Hr
    |s n fs1 f v fs2 t Hv|s n fs1 f fs2|s s' n fs Hi Hc]; unfold Coherent; simpl in *.
  - split; [|split; [|done]].
    + intros k e Hk. destruct (He _ _ Hk) as [H1 _]. split; [done|]. intros; lia.
    + eapply Forall_impl; [exact Hf|]. intros f [H1 _]. split; [done|]. intros; lia.
  - split; [|split; [|rewrite map_size_empty; done]].
    + intros k e Hk. simpl in Hk. by rewrite lookup_empty in Hk.
    + eapply Forall_impl; [exact Hf|]. intros f [H1 _]. split; [simpl; lia|]. simpl. intros; lia.
  - destruct (cache_get_sub id ver t (cache s)) as [Hg Hsub]. split; [|split].
    + intros k e Hk. rewrite Hg. eapply lookup_weaken in Hk; [|exact Hsub]. apply (entries_idx s); [done|exact He|done].
    + rewrite Hg. by apply (flights_idx s).
    + pose proof (map_subseteq_size _ _ Hsub). lia.
  - split; [done|]. split; [|done]. constructor; [|done]. split; [simpl; lia|done].
  - split; [done|]. split; [|done]. apply Forall_app in Hf as [Hf1 Hf2]. apply Forall_cons in Hf2 as [Hff Hf2].
    apply Forall_app. split; [done|]. constructor; [by eapply read_step_ok|done].
  - apply Forall_app in Hf as [Hf1 Hf2]. apply Forall_cons in Hf2 as [[Hg Hff] Hf2].
    split; [|split; [|by apply cache_put_size]].
    + intros k e Hk. rewrite cache_put_gen. apply cache_put_entry in Hk as [Hk|(Hgen & -> & ->)].
      * apply (entries_idx s); [done|exact He|done].
      * simpl. split; [lia|]. intros Hn _. specialize (Hff Hn Hgen). unfold stage_ok in Hff. rewrite Hv in Hff.
        by apply (answer_idx s).
    + rewrite cache_put_gen. apply (flights_idx s); [done|]. by apply Forall_app.
  - split; [done|]. split; [|done]. apply Forall_app in Hf as [Hf1 Hf2]. apply Forall_cons in Hf2 as [_ Hf2].
    by apply Forall_app.
  - rewrite Hc. split; [by apply (entries_idx s)|]. split; [by apply (flights_idx s)|done].
Qed.

Lemma resolveFile_miss id ver s v s' :
  resolveFile id ver s = (Ok v, s') ->
  (exists t, fst (cache_get id ver t (cache s)) = Some v) \/ answer s id ver v.
Proof.
  unfold resolveFile, pbind at 1. destruct (cache_get id ver (now (world s)) (cache s)) as [[v0|] c] eqn:Hg.
  { unfold ret. intros [= -> _]. left. exists (now (world s)). by rewrite Hg. }
  set (s1 := s <| cache := c |>). unfold pbind at 1, reads at 1. unfold pbind at 1.
  assert (Hp : fst (pathOf id s1) = fst (pathOf id s)) by (by apply pathOf_idx).
  assert (Hi : idx (snd (pathOf id s1)) = idx s).
  { unfold pathOf, ret, reads. destruct (bool_decide _); [done|]. destruct (hasPrefix id "/"); [done|]. by destruct (negb _). }
  destruct (pathOf id s1) as [[p|e] s2]; [|unfold ret; by intros [= ]]. simpl in Hp, Hi.
  unfold pbind at 1, reads at 1. rewrite Hi. destruct (entryAt p (idx s)) as [row|] eqn:Hrow; [|unfold ret; by intros [= ]].
  destruct (decide (en_kind row <> KindFile)) as [|Hk%dec_stable]; [unfold ret; by intros [= ]|].
  destruct (decide (ver <> "" /\ en_ctoken row <> ver)) as [|Hv]; [unfold ret; by intros [= ]|].
  unfold pbind, reads, pthen, modify, ret. simpl. intros [= <- _]. right.
  split; [done|]. split; [done|]. split; [done|]. split; [|by apply replicasOf_idx].
  simpl. destruct (decide (ver = "")); [auto|right]. destruct (decide (en_ctoken row = ver)); [done|naive_solver].
Qed.

(** C13: A cached lookup is as good as a fresh one.  From a new cache, interleave in
    any way commits to the index, the invalidations that follow them, and lookups,
    whose reads of the path, the entry and the replicas happen at different
    moments, with whatever else.  Whenever no commit still awaits its
    invalidation, resolveFile, from the cache or not, answers what the index
    holds at that moment: the path behind the id, that path's entry, which is a
    file of the version asked for, and exactly its replicas (in some order); and
    the cache never holds more than its limit. *)
Theorem cache_is_transparent (s0 s : pst W) fs id ver v s' :
  rc_m (cache s0) = ∅ -> rtc cache_step (MkCsys s0 O []) (MkCsys s O fs) ->
  resolveFile id ver s = (Ok v, s') ->
  answer s id ver v /\ Z.of_nat (size (rc_m (cache s))) <= replicaCacheMax.
Proof.
  intros H0 Hr Hres.
  assert (HC : Coherent (MkCsys s O fs)).
  { assert (Hi : Coherent (MkCsys s0 O [])).
    { unfold Coherent, entries_ok. simpl. rewrite H0. split; [intros k e Hk; by rewrite lookup_empty in Hk|].
      split; [constructor|]. rewrite map_size_empty. done. }
    clear H0. remember (MkCsys s0 O []) as a eqn:Ha. clear Ha Hres. induction Hr as [|x y z Hxy _ IH]; [done|].
    by eapply IH, cache_step_coherent. }
  destruct HC as (He & _ & Hz). split; [|exact Hz]. simpl in *.
  destruct (resolveFile_miss _ _ _ _ _ Hres) as [[t Ht]|Ha]; [|done].
  unfold cache_get in Ht. destruct (rc_m (cache s) !! (id, ver)) as [e|] eqn:Hk; [|done].
  destruct (bool_decide (cr_gen e <> rc_gen (cache s))) eqn:Hg; [done|]. simpl in Ht.
  apply bool_decide_eq_false in Hg. apply dec_stable in Hg. destruct (bool_decide (cr_expires e <= t)); [done|].
  injection Ht as <-. by apply (He _ _ Hk).
Qed.
End Cache.
