(* ===== verification/PoolPlaceOk.v ===== *)
(** * Placement puts files where the rules say (rules.go, placement.go) *)
From S2P Require Import Prelude Filepath GoLib SqlText Retry Health PoolState PoolMember PoolPlacement PoolIndex PoolFrame.
Open Scope Z_scope.

Section Place.
Context {W : Type} {E : Env W} {P : Pool}.

(** ** Which rule applies *)

Definition covering (rules : list PoolRule) (pth : string) : list PoolRule :=
  filter (fun r => prefixCovers (Prefix r) pth = true) rules.
Definition longer (a b : PoolRule) : bool := bool_decide (String.length (Prefix b) < String.length (Prefix a))%nat.

Lemma best_rule_fold rules pth best :
  best_rule rules pth best =
  foldl (fun b r => match b with None => Some r | Some b => if longer r b then Some r else Some b end) best (covering rules pth).
Proof.
  revert best. induction rules as [|r rules IH]; intros best; [done|]. cbn [best_rule]. unfold covering.
  destruct (prefixCovers (Prefix r) pth) eqn:Hc.
  - rewrite filter_cons_True by done. simpl. rewrite IH. f_equal. destruct best as [b|]; [|done].
    unfold longer. destruct (decide _); [by rewrite bool_decide_eq_true_2|by rewrite bool_decide_eq_false_2].
  - rewrite filter_cons_False by congruence. apply IH.
Qed.

(** The first of the longest, after [before], which are all shorter or not
    longer. *)
Definition first_longest (l : list PoolRule) (r : PoolRule) : Prop :=
  exists l1 l2, l = l1 ++ r :: l2 /\ Forall (fun x => longer r x = true) l1 /\ Forall (fun x => longer x r = false) l2.

Lemma fold_longest l b :
  exists r, foldl (fun b r => match b with None => Some r | Some b => if longer r b then Some r else Some b end) (Some b) l = Some r /\
            first_longest (b :: l) r.
Proof.
  induction l as [|x l IH] using rev_ind.
  - exists b. split; [done|]. exists [], []. done.
  - destruct IH as (r & Hr & l1 & l2 & Heq & H1 & H2). rewrite foldl_app, Hr. simpl. destruct (longer x r) eqn:Hx.
    + exists x. split; [done|]. exists (b :: l), []. split; [done|]. split; [|constructor].
      assert (Hxr : (String.length (Prefix r) < String.length (Prefix x))%nat) by (by apply bool_decide_eq_true in Hx).
      rewrite Heq. apply Forall_app. split; [|constructor; [done|]].
      * eapply Forall_impl; [exact H1|]. intros y Hy. unfold longer in *. rewrite bool_decide_eq_true in *. lia.
      * eapply Forall_impl; [exact H2|]. intros y Hy. unfold longer in *.
        rewrite bool_decide_eq_false in Hy. rewrite bool_decide_eq_true. lia.
    + exists r. split; [done|]. exists l1, (l2 ++ [x]). rewrite app_comm_cons, Heq, <- app_assoc. split; [done|].
      split; [done|]. apply Forall_app. split; [done|]. by constructor.
Qed.

Lemma ruleFor_spec pth :
  match ruleFor pth with
  | None => covering (Rules settings) pth = []
  | Some r => first_longest (covering (Rules settings) pth) r
  end.
Proof.
  unfold ruleFor. rewrite best_rule_fold. destruct (covering _ _) as [|r l]; [done|]. simpl.
  destruct (fold_longest l r) as (x & -> & Hx). exact Hx.
Qed.

(** The number of copies a path gets is the rule's.  The rule that applies is
    the first of the longest prefixes that cover the path, whole segments only;
    the copies wanted are that rule's count, or the pool's where it names none,
    and at least one; the target never exceeds what is wanted or the members in
    service, and says so when it is cut; min_replicas lies between one and what
    is wanted. *)
Theorem targets_follow_rules pth (s : pst W) :
  match ruleFor pth with
  | None => Forall (fun r => prefixCovers (Prefix r) pth = false) (Rules settings)
  | Some r => first_longest (covering (Rules settings) pth) r
  end /\
  wantReplicas pth = Z.max 1 (match ruleFor pth with
                              | Some r => if decide (r_Replicas r = 0) then Replicas settings else r_Replicas r
                              | None => Replicas settings end) /\
  fst (targetFor pth s) = Z.min (wantReplicas pth) (eligibleMembers s) /\
  (snd (targetFor pth s) = true <-> fst (targetFor pth s) < wantReplicas pth) /\
  1 <= minReplicas pth <= wantReplicas pth.
Proof.
  assert (Hw : wantReplicas pth = Z.max 1 (match ruleFor pth with
                              | Some r => if decide (r_Replicas r = 0) then Replicas settings else r_Replicas r
                              | None => Replicas settings end)).
  { unfold wantReplicas. destruct (ruleFor pth) as [r|]; [destruct (decide (r_Replicas r <> 0)), (decide (r_Replicas r = 0))|];
      try done; destruct (decide (_ < 1)); lia. }
  split; [|split; [exact Hw|]].
  - pose proof (ruleFor_spec pth) as H. destruct (ruleFor pth); [done|]. apply Forall_forall. intros r Hr.
    destruct (prefixCovers (Prefix r) pth) eqn:Hc; [|done].
    assert (Hin : r ∈ covering (Rules settings) pth) by (by apply list_elem_of_filter). rewrite H in Hin. by apply elem_of_nil in Hin.
  - unfold targetFor. split; [|split].
    + destruct (decide _); simpl; lia.
    + destruct (decide _); simpl; split; intros; done || lia.
    + unfold minReplicas. destruct (decide (MinReplicas settings < 1)), (decide (wantReplicas pth < _)); lia.
Qed.

(** ** The order of candidates *)

(** The verdicts as a number: the earlier the verdict, the more it weighs. *)
Definition flag_rank (l : list bool) : Z := foldl (fun n (b : bool) => 2 * n + if b then 0 else 1) 0 l.
Definition sc_rank (x : scored) : Z := flag_rank (flags x).

Lemma scored_less_rank a b : (scored_less a b = true -> sc_rank a <= sc_rank b) /\ (scored_less a b = false -> sc_rank b <= sc_rank a).
Proof.
  unfold scored_less, sc_rank, flag_rank, flags.
  destruct (sc_prefer a), (sc_dupDomain a), (sc_avoid a), (sc_full a), (sc_out a),
    (sc_prefer b), (sc_dupDomain b), (sc_avoid b), (sc_full b), (sc_out b); simpl; split; intros; done || lia.
Qed.
Lemma scored_sorted l : StronglySorted (fun a b => sc_rank a <= sc_rank b) (stable_sort scored_less l).
Proof.
  apply stable_sort_sorted.
  - intros x y z Hxy Hyz. by etrans.
  - intros x y. apply (scored_less_rank x y).
  - intros x y. apply (scored_less_rank x y).
Qed.

(** *** What a run of the loop leaves alone *)

Definition ops_of (s : pst W) := (fun m => operator_view (health (mrt_of s m))).
Lemma frame_ops_upd m g : (forall r, health (g r) = health r) -> forall s m', ops_of (upd_mrt m g s) m' = ops_of s m'.
Proof.
  intros Hg s m'. unfold ops_of. destruct (decide (m_name m = m_name m')) as [Hn|Hn].
  - assert (He : forall t : pst W, mrt_of t m' = mrt_of t m) by (intros; unfold mrt_of; by rewrite Hn).
    by rewrite !He, mrt_of_upd, Hg.
  - by rewrite mrt_of_upd_ne.
Qed.

(** [same s s']: what placement reads but never changes. *)
Definition same (s s' : pst W) : Prop := idx s' = idx s /\ forall m, ops_of s' m = ops_of s m.
Definition Still {A} (m : M W A) : Prop := forall s, same s (snd (m s)).
Lemma same_trans s1 s2 s3 : same s1 s2 -> same s2 s3 -> same s1 s3.
Proof. intros [A B] [C D]. split; [congruence|]. intros m. by rewrite D. Qed.
Lemma still_let {A B} (m : M W A) (k : A -> M W B) : Still m -> (forall a, Still (k a)) -> Still (pbind m k).
Proof. intros Hm Hk s. specialize (Hm s). unfold pbind. destruct (m s) as [a s']. eapply same_trans; [exact Hm|apply Hk]. Qed.
Lemma still_do {A B} (m : M W A) (k : M W B) : Still m -> Still k -> Still (pthen m k).
Proof. intros Hm Hk s. unfold pthen. eapply same_trans; [apply Hm|apply Hk]. Qed.
Lemma still_ret {A} (a : A) : Still (ret a).  Proof. by intros s. Qed.
Lemma still_reads {A} (f : pst W -> A) : Still (reads f).  Proof. by intros s. Qed.
Lemma still_call {A} (f : W -> A * W) : Still (call f).
Proof. intros s. unfold call. by destruct (f (world s)). Qed.
Lemma still_upd (g : pst W -> mrt -> mrt) m : (forall s r, health (g s r) = health r) -> Still (modify (fun s => upd_mrt m (g s) s)).
Proof. intros Hg s. split; [done|]. intros m'. by apply frame_ops_upd. Qed.

Lemma free_still m : Still (free m).
Proof.
  unfold free, refresh_space, ask_quota. apply still_let; [apply still_reads|]. intros [|]; [apply still_ret|].
  apply still_let; [apply still_reads|]. intros b. apply still_let.
  - destruct b; [apply still_reads|]. apply still_let.
    + destruct (is_Quotaer _); [|apply still_ret]. apply still_let; [apply still_call|intros; apply still_ret].
    + intros q. apply still_do; [|apply still_ret].
      apply (still_upd (fun s r => let r := r <| sp_fetched := Some (now (world s)) |> in
        match q with Some q => (r <| sp_quota := q |>) <| sp_known := true |> | None => r <| sp_known := false |> end)).
      intros s r. by destruct q.
  - intros q. destruct (decide _); [apply still_ret|]. destruct (decide _); [apply still_reads|apply still_ret].
Qed.
Lemma canHold_still m a b : Still (canHold m a b).
Proof.
  unfold canHold, naming. apply still_let.
  - apply still_let; [apply still_reads|]. intros l. apply still_let; [|intros; apply still_ret].
    destruct l; [apply still_ret|]. unfold loadLearned.
    intros s. split; [done|]. intros m'. by apply frame_ops_upd.
  - intros n. destruct (CheckName n b); [apply still_ret|]. destruct (CaseInsensitive n); [apply still_reads|apply still_ret].
Qed.

(** *** The loop *)

Definition operator_off (s : pst W) (m : member) : Prop :=
  disabled (health (mrt_of s m)) = true \/ draining (health (mrt_of s m)) = true.

Lemma in_rotation s m : bool_decide (state_of m s = HealthDraining \/ state_of m s = HealthDisabled) = false -> ~ operator_off s m.
Proof.
  intros H%bool_decide_eq_false Ho. apply H. unfold state_of, snapshot, Snapshot. simpl.
  destruct Ho as [Ho|Ho]; rewrite Ho; [|by left]. destruct (draining _); [by left|by right].
Qed.
Lemma off_same s s' m : same s s' -> operator_off s m <-> operator_off s' m.
Proof. intros [_ H]. specialize (H m). unfold ops_of, operator_view in H. unfold operator_off. injection H as H1 H2 H3.
  by rewrite ?H1, ?H2, ?H3. Qed.

(** What is known of one scored member. *)
Definition placed (s0 : pst W) (pth : string) (holding : member -> bool) (taken : list string) (hold : bool) (x : scored) : Prop :=
  ~ operator_off s0 (sc_m x) /\ holding (sc_m x) = hold /\
  (hold = false ->
   (forall r, ruleFor pth = Some r -> hasAllClasses (sc_m x) (Require_ r) = true) /\
   sc_prefer x = match ruleFor pth with Some r => hasAnyClass (sc_m x) (Prefer r) | None => false end /\
   sc_avoid x = match ruleFor pth with Some r => hasAnyClass (sc_m x) (Avoid r) | None => false end /\
   sc_dupDomain x = bool_decide (m_domain (sc_m x) ∈ taken)).

Lemma score_member_spec s0 pth holding taken m s v s' :
  same s0 s -> score_member pth holding taken m s = (v, s') ->
  same s0 s' /\ match v with None => True | Some (b, x) => sc_m x = m /\ placed s0 pth holding taken b x end.
Proof.
  intros Hs. unfold score_member. cbv zeta. unfold pbind, reads.
  destruct (bool_decide _) eqn:Hst; [unfold ret; by intros [= <- <-]|].
  assert (Hoff : ~ operator_off s0 m) by (rewrite (off_same s0 s) by done; by apply in_rotation).
  destruct (negb (usable _ _ _)); [unfold ret; by intros [= <- <-]|]. destruct (holding m) eqn:Hh.
  - pose proof (free_still m s) as Hf. destruct (free m s) as [f s1]. unfold ret. intros [= <- <-].
    split; [by eapply same_trans|]. simpl. split; [done|]. by split.
  - pose proof (canHold_still m (parentOf pth) (lastSegment pth) s) as Hc.
    destruct (canHold m (parentOf pth) (lastSegment pth) s) as [[e|] s1]; simpl in Hc; [unfold ret; intros [= <- <-]; by split; [eapply same_trans|]|].
    destruct (match ruleFor pth with Some r => _ | None => _ end) eqn:Hreq;
      [unfold ret; intros [= <- <-]; by split; [eapply same_trans|]|].
    pose proof (free_still m s1) as Hf. destruct (free m s1) as [f s2]. simpl in Hf. intros [= <- <-].
    split; [by do 2 (eapply same_trans; [|done])|]. simpl. split; [done|]. split; [done|]. split; [done|]. simpl. intros _.
    split; [|done]. intros r Hr. rewrite Hr in Hreq. by apply negb_false_iff in Hreq.
Qed.

Lemma score_all_spec s0 pth holding taken ms s hs os s' :
  same s0 s -> score_all pth holding taken ms s = ((hs, os), s') ->
  same s0 s' /\ Forall (placed s0 pth holding taken true) hs /\ Forall (placed s0 pth holding taken false) os /\
  sublist (map sc_m hs) ms /\ sublist (map sc_m os) ms.
Proof.
  revert s s' hs os. induction ms as [|m ms IH]; intros s s' hs os Hs; cbn [score_all].
  { unfold ret. intros [= <- <- <-]. split; [done|]. split; [constructor|]. split; [constructor|]. split; apply sublist_nil. }
  unfold pbind. destruct (score_member pth holding taken m s) as [v s1] eqn:Hm.
  apply (score_member_spec s0) in Hm as [H1 Hv]; [|done].
  destruct (score_all pth holding taken ms s1) as [[hs1 os1] s2] eqn:Ha. apply IH in Ha as (H2 & Hh & Ho & Sh & So); [|done].
  destruct v as [[[|] x]|]; simpl in Hv; unfold ret; intros [= <- <- <-]; (split; [done|]).
  - destruct Hv as [<- Hp]. split; [by constructor|]. split; [done|]. split; [by apply sublist_skip|by apply sublist_cons].
  - destruct Hv as [<- Hp]. split; [done|]. split; [by constructor|]. split; [by apply sublist_cons|by apply sublist_skip].
  - split; [done|]. split; [done|]. split; by apply sublist_cons.
Qed.

(** Candidates obey the placement rules.  Every candidate is a member the
    operator neither disabled nor is draining, and none is named twice.  Members
    that already hold the path come first; the others lack no class the rule
    requires, and their order puts preferred before not preferred, then a domain
    without a copy before one that has one, then not avoided before avoided,
    then not full before full, then in service before out, whatever the free
    space, the weights and the backends' answers. *)
Theorem candidates_follow_rules pth (s : pst W) cs s' :
  NamesUnique -> candidates pth s = (cs, s') ->
  NoDup cs /\ Forall (fun m => m ∈ members /\ ~ operator_off s m) cs /\
  exists hs os,
    cs = map sc_m hs ++ map sc_m os /\
    Forall (fun x => is_Some (replicas (idx s) !! (pth, m_name (sc_m x)))) hs /\
    Forall (fun x => replicas (idx s) !! (pth, m_name (sc_m x)) = None /\
      (forall r, ruleFor pth = Some r -> hasAllClasses (sc_m x) (Require_ r) = true) /\
      sc_prefer x = match ruleFor pth with Some r => hasAnyClass (sc_m x) (Prefer r) | None => false end /\
      sc_avoid x = match ruleFor pth with Some r => hasAnyClass (sc_m x) (Avoid r) | None => false end /\
      (sc_dupDomain x = true <-> exists m, m ∈ members /\ m_domain m = m_domain (sc_m x) /\ is_Some (replicas (idx s) !! (pth, m_name m)))) os /\
    StronglySorted (fun a b => sc_rank a <= sc_rank b) os.
Proof.
  intros Hu. unfold candidates, pbind, reads. cbv zeta.
  set (holding := holds_row pth (idx s)). set (taken := map m_domain (filter (fun m => holding m = true) members)).
  destruct (score_all pth holding taken members s) as [[hs os] s1] eqn:Ha.
  apply (score_all_spec s) in Ha as (_ & Hh & Ho & Sh & So); [|done]. unfold ret. intros [= <- _].
  assert (Hnd : NoDup members).
  { unfold NamesUnique in Hu. clear -Hu. induction members as [|m l IH]; [constructor|]. cbn [map] in Hu.
    apply NoDup_cons in Hu as [Hm Hl]. apply NoDup_cons. split; [|by apply IH]. intros Hin. apply Hm, list_elem_of_fmap. eauto. }
  assert (Hsort : forall l, map sc_m (stable_sort scored_less l) ≡ₚ map sc_m l) by (intros; by rewrite stable_sort_perm).
  assert (HF : forall b l, Forall (placed s pth holding taken b) l -> Forall (placed s pth holding taken b) (stable_sort scored_less l)).
  { intros b l Hl. apply Forall_forall. intros x. rewrite stable_sort_elem. rewrite Forall_forall in Hl. apply Hl. }
  split; [|split].
  - apply NoDup_app. split; [rewrite Hsort; by eapply sublist_NoDup|].
    split; [|rewrite Hsort; by eapply sublist_NoDup].
    intros m. rewrite !Hsort. intros Hm1 Hm2. apply list_elem_of_fmap in Hm1 as (x & -> & Hx). apply list_elem_of_fmap in Hm2 as (y & Hxy & Hy).
    rewrite Forall_forall in Hh. rewrite Forall_forall in Ho. destruct (Hh _ Hx) as (_ & H1 & _). destruct (Ho _ Hy) as (_ & H2 & _). congruence.
  - rewrite Forall_forall in Hh. rewrite Forall_forall in Ho.
    apply Forall_app. split; apply Forall_forall; intros m; rewrite Hsort; intros Hm; (split; [by eapply sublist_subseteq in Hm|]);
      apply list_elem_of_fmap in Hm as (x & -> & Hx); [apply Hh, Hx|apply Ho, Hx].
  - exists (stable_sort scored_less hs), (stable_sort scored_less os). split; [done|].
    split; [|split; [|apply scored_sorted]].
    + eapply Forall_impl; [by apply HF|]. intros x (_ & Hx & _). by apply bool_decide_eq_true in Hx.
    + eapply Forall_impl; [by apply HF|]. intros x (_ & Hx & Hr). apply bool_decide_eq_false in Hx.
      destruct (Hr eq_refl) as (R1 & R2 & R3 & R4). split; [by apply eq_None_not_Some|]. split; [done|]. split; [done|]. split; [done|].
      rewrite R4, bool_decide_eq_true. unfold taken. rewrite list_elem_of_fmap. split.
      * intros (m & Hd & [Hm1 Hm2]%list_elem_of_filter). exists m. split; [done|]. split; [done|]. by apply bool_decide_eq_true in Hm1.
      * intros (m & Hm & Hd & Hs). exists m. split; [done|]. apply list_elem_of_filter. split; [|done]. by apply bool_decide_eq_true.
Qed.
End Place.
