(* ===== verification/PoolUpload.v ===== *)
(** * What an upload does to the index, and when (write.go)

    The session survives its packing; nothing of the tree changes before the
    upload is complete; a complete upload replaces the content and leaves no
    older copy in service. *)
From S2P Require Import Prelude Filepath GoLib SqlText Retry Health PoolState PoolMember PoolPlacement PoolIndex PoolList PoolRepair PoolWrite PoolFrame PoolRows PoolSafety.
From stdpp Require Import pretty.
From Stdlib Require Import Ascii.
Open Scope Z_scope.

(** ** Decimal numbers *)

Lemma digit_of_pretty (x : N) : digit_of (pretty_N_char (x mod 10)) = Some (Z.of_N (x mod 10)).
Proof.
  assert (H : (x mod 10 < 10)%N) by (apply N.mod_lt; lia). revert H. generalize (x mod 10)%N as d. intros d Hd.
  assert (d ∈ [0;1;2;3;4;5;6;7;8;9]%N) as Hin.
  { destruct (decide (d ∈ [0;1;2;3;4;5;6;7;8;9]%N)) as [|Hn]; [done|]. exfalso.
    repeat (rewrite not_elem_of_cons in Hn; destruct Hn as [? Hn]). lia. }
  repeat (apply elem_of_cons in Hin as [->|Hin]; [reflexivity|]). by apply elem_of_nil in Hin.
Qed.

Lemma parse_pretty_go (x : N) (s : string) : parse_digits (pretty_N_go x s) 0 = parse_digits s (Z.of_N x).
Proof.
  revert s. induction (N.lt_wf_0 x) as [x _ IH]; intros s.
  destruct (decide (x = 0)%N) as [->|Hx]; [done|].
  rewrite pretty_N_go_step by lia. rewrite IH by (apply N.div_lt; lia). cbn [parse_digits].
  rewrite digit_of_pretty. simpl. f_equal. rewrite (N.div_mod' x 10) at 3. lia.
Qed.

Lemma parse_pretty_N (x : N) : parse_digits (pretty x) 0 = Some (Z.of_N x).
Proof.
  unfold pretty, pretty_N. destruct (decide (x = 0)%N) as [->|Hx]; [done|]. apply parse_pretty_go.
Qed.
Lemma pretty_N_nonempty (x : N) : pretty x <> "".
Proof.
  intros H. destruct (decide (x = 0)%N) as [->|Hx]; [done|].
  assert (He : parse_digits (pretty x) 0 = Some (Z.of_N x)) by apply parse_pretty_N.
  rewrite H in He. simpl in He. injection He as He. lia.
Qed.

(** strconv.ParseInt undoes strconv.FormatInt. *)
Lemma ParseInt_pretty (z : Z) : ParseInt (pretty z) = z.
Proof.
  assert (Hpos : forall n : N, ParseInt (pretty n) = Z.of_N n).
  { intros n. unfold ParseInt. pose proof (parse_pretty_N n) as Hp. pose proof (pretty_N_nonempty n).
    destruct (pretty n) as [|c s']; [done|]. destruct (decide _) as [[-> _]|]; [done|]. by rewrite Hp. }
  destruct z as [|p|p]; [done|apply (Hpos (N.pos p))|].
  change (pretty (Z.neg p)) with (String "-" (pretty (N.pos p))). unfold ParseInt.
  rewrite decide_True by (split; [done|apply pretty_N_nonempty]). by rewrite parse_pretty_N.
Qed.

Section Upload.
Context {W : Type} {E : Env W} {P : Pool}.
Notation FF := (Frame (W := W) files_of).

(** ** Sessions *)

Lemma hasPrefix_app p s : hasPrefix (p +:+ s) p = true.
Proof.
  unfold hasPrefix. induction p as [|c p IH]; [by destruct s|]. simpl. by destruct (ascii_dec c c).
Qed.
Lemma trimPrefix_app p s : trimPrefix (p +:+ s) p = s.
Proof.
  unfold trimPrefix. rewrite hasPrefix_app. induction p as [|c p IH]; simpl; [|exact IH].
  rewrite Nat.sub_0_r. apply substring_all.
Qed.

Lemma own_prefix k : hasPrefix k memberPrefix = true -> exists k', k = memberPrefix +:+ k'.
Proof.
  unfold hasPrefix, memberPrefix. destruct k as [|c [|c' k]]; cbn [String.prefix]; [done| |].
  - by destruct (ascii_dec "m" c).
  - destruct (ascii_dec "m" c) as [<-|]; [|done]. destruct (ascii_dec "." c') as [<-|]; [|done]. by exists k.
Qed.

Section Packed.
Context (b own : gmap string string).
Notation packed := (pack_opaque b own).

Lemma packed_base k : hasPrefix k memberPrefix = false -> packed !! k = b !! k.
Proof.
  intros Hk. unfold pack_opaque. apply lookup_union_r. apply lookup_kmap_None; [apply _|].
  intros k' ->. by rewrite hasPrefix_app in Hk.
Qed.
Lemma packed_own k : packed !! (memberPrefix +:+ k) = union_with (fun x _ => Some x) (own !! k) (b !! (memberPrefix +:+ k)).
Proof.
  unfold pack_opaque. rewrite lookup_union. f_equal. apply (lookup_kmap (fun k => memberPrefix +:+ k)).
Qed.

(** The member's own entries come out as they went in. *)
Lemma unpacked_own :
  (forall k, k <> "id" -> k <> "part_size" -> b !! (memberPrefix +:+ k) = None) ->
  own !! "id" = None -> own !! "part_size" = None ->
  (list_to_map (map (fun kv => (trimPrefix (fst kv) memberPrefix, snd kv))
     (filter (fun kv => own_key (fst kv) = true) (map_to_list packed))) : gmap string string) = own.
Proof.
  intros Hb Hi Hp. set (l := map _ _).
  assert (Hl : forall k v, (k, v) ∈ l <-> own !! k = Some v).
  { intros k v. unfold l. rewrite list_elem_of_fmap. split.
    - intros ([kk x] & [= -> ->] & [Hk Hx%elem_of_map_to_list]%list_elem_of_filter). simpl in *.
      unfold own_key in Hk. apply andb_true_iff in Hk as [Hpre [H1 H2]%bool_decide_eq_true].
      apply own_prefix in Hpre as [k' ->]. rewrite trimPrefix_app. rewrite packed_own, Hb in Hx.
      + by destruct (own !! k').
      + by intros ->.
      + by intros ->.
    - intros Hk. exists (memberPrefix +:+ k, v). cbn [fst snd]. rewrite trimPrefix_app. split; [done|].
      apply list_elem_of_filter. cbn [fst snd]. split.
      + unfold own_key. rewrite hasPrefix_app. cbn [andb]. apply bool_decide_eq_true.
        split; intros Hx; cbv in Hx; injection Hx as ->; congruence.
      + apply elem_of_map_to_list. rewrite packed_own, Hk. by destruct (b !! _). }
  apply map_eq. intros k. destruct (own !! k) as [v|] eqn:Hk.
  - apply elem_of_list_to_map_1'; [|by apply Hl]. intros y Hy%Hl. congruence.
  - apply not_elem_of_list_to_map_1. intros ([k' v] & Hkk & Hv)%list_elem_of_fmap. apply Hl in Hv. simpl in Hkk. congruence.
Qed.
End Packed.

Lemma not_pool_key (k id ps hold pth n : string) : k <> "id" -> k <> "part_size" ->
  (<[memberParts := ps]> (<[memberID := id]> (<[sessHold := hold]> (<[sessPath := pth]> {[sessMember := n]})))
   : gmap string string) !! (memberPrefix +:+ k) = None.
Proof.
  intros H1 H2. rewrite !lookup_insert_ne; [apply lookup_singleton_ne|..]; intros H; cbv in H; by injection H.
Qed.

(** A session survives its packing.  What the pool hands the uploader, handed
    back, names the member, the path, the hold and the session the member opened,
    whatever else the member keeps in its session, as long as its keys are not
    the two names the pool uses for the session's id and part size. *)
Theorem session_packed m pth hold ms s :
  NamesUnique -> m ∈ members -> RapidDone ms = false -> ses_Entry ms = None ->
  Opaque ms !! "id" = None -> Opaque ms !! "part_size" = None ->
  unpackSession (fst (packSession m pth hold ms s)) = Ok (m, pth, hold, ms).
Proof.
  intros Hu Hm Hr He Hi Hp. unfold packSession, pbind. destruct (call newID s) as [id s1]. simpl.
  unfold unpackSession, field. cbn [Opaque]. set (base := <[memberParts := _]> _).
  assert (Hb : forall k, hasPrefix k memberPrefix = false -> pack_opaque base (Opaque ms) !! k = base !! k)
    by (intros; by apply packed_base).
  rewrite !Hb by done.
  assert (H1 : base !! sessMember = Some (m_name m)) by reflexivity.
  assert (H2 : base !! sessPath = Some pth) by reflexivity.
  assert (H3 : base !! sessHold = Some hold) by reflexivity.
  assert (H4 : pack_opaque base (Opaque ms) !! memberID = Some (ses_ID ms)).
  { change memberID with (memberPrefix +:+ "id"). by rewrite packed_own, Hi. }
  assert (H5 : pack_opaque base (Opaque ms) !! memberParts = Some (pretty (ses_PartSize ms))).
  { change memberParts with (memberPrefix +:+ "part_size"). by rewrite packed_own, Hp. }
  rewrite H1, H2, H3, H4, H5. simpl. rewrite byName_member by done. do 2 f_equal.
  rewrite unpacked_own, ParseInt_pretty by (try done; intros k Hk1 Hk2; apply not_pool_key; done).
  destruct ms; simpl in *. by subst.
Qed.
(** ** Before an upload is complete *)

Lemma pathOf_files id : FF (pathOf id).
Proof. unfold pathOf. frames. Qed.
Lemma trim_list_files hs t n : FF (trim_list hs t n).
Proof. revert n. induction hs as [|[hp h] hs IH]; intros n; cbn [trim_list]; unfold remove_hold, delete_hold; frames; apply IH. Qed.
Lemma trimHolds_files : FF trimHolds.
Proof. unfold trimHolds. frames. apply trim_list_files. Qed.
Lemma takeHold_files link pth n : FF (takeHold link pth n).
Proof. unfold takeHold. frames. apply trimHolds_files. Qed.
Lemma packSession_files m pth hold ms : FF (packSession m pth hold ms).
Proof. unfold packSession. frames. Qed.

Lemma tx_fails {A} (b : M W (res gerr A)) s e s' : tx b s = (Err e, s') -> idx s' = idx s.
Proof. unfold tx. destruct (b s) as [[a|x] s2]; [discriminate|]. by intros [= _ <-]. Qed.
Lemma tx_works {A} (b : M W (res gerr A)) s a s' : tx b s = (Ok a, s') -> exists s2, b s = (Ok a, s2) /\ idx s' = idx s2.
Proof. unfold tx. destruct (b s) as [[x|x] s2]; [|discriminate]. intros [= <- <-]. by exists s2. Qed.

(** The commit itself: one transaction, or nothing. *)
Lemma finishUpload_fails m pth me hold s e s' :
  finishUpload m pth me hold s = (Err e, s') -> files_of s' = files_of s.
Proof.
  unfold finishUpload. destruct (bestHash _) as [ht hv]. unfold pbind, reads. cbv zeta.
  destruct (tx _ s) as [[[id pid]|x] s1] eqn:Htx; [unfold pthen, ret; discriminate|]. unfold ret. intros [= <- <-].
  apply tx_fails in Htx. unfold files_of. by rewrite Htx.
Qed.

Definition not_rapid (r : res gerr UploadSession) : Prop := forall ss, r = Ok ss -> RapidDone ss = false.

Lemma begin_on_files link passes pp name pth size h ms acc s r acc' s' :
  begin_on link passes pp name pth size h ms acc s = ((r, acc'), s') ->
  (forall x, r = Some x -> not_rapid x) -> files_of s' = files_of s.
Proof.
  revert acc s. induction ms as [|m ms IH]; intros acc s; [by intros [= _ _ <-]|]. cbn [begin_on]. cbv zeta.
  unfold pbind at 1. pose proof (ensureDir_files m pp s) as F1. destruct (ensureDir m pp s) as [[d|e] s1]; simpl in F1.
  2:{ destruct (unreachable (Some e)); [|by intros [= _ _ <-]]. intros H Hr. rewrite <- F1. by eapply IH. }
  unfold pbind at 1. pose proof (frame_files_call (b_BeginUpload m d name size h) s1) as F2.
  destruct (call _ s1) as [[ses|e] s2]; simpl in F2.
  - unfold pthen at 1. pose proof (note_files m None s2) as F3. set (s3 := snd (note m None s2)) in *.
    unfold pbind at 1. pose proof (takeHold_files link pth size s3) as F4. destruct (takeHold link pth size s3) as [hd s4]. simpl in F4.
    destruct (if RapidDone ses then _ else _) as [me|]; unfold pbind.
    + destruct (finishUpload m pth me (default "" hd) s4) as [[en|e] s5] eqn:Hf.
      * unfold pthen, ret. intros [= <- _ _] H. by specialize (H _ eq_refl _ eq_refl).
      * intros [= _ _ <-] _. apply finishUpload_fails in Hf. congruence.
    + pose proof (packSession_files m pth (default "" hd) ses s4) as F5.
      destruct (packSession _ _ _ _ s4) as [ss s5]. intros [= _ _ <-] _. simpl in *. congruence.
  - destruct (outOfSpace (Some e)); [|destruct (unreachable (Some e)); [|destruct (refusedName (Some e)); [|intros [= _ _ <-] _; congruence]]];
      unfold pthen; intros H Hr; rewrite (IH _ _ H Hr), ?markFull_files, ?learnDenial_files, ?note_files; congruence.
Qed.

Lemma whyNoMember_files pth : FF (whyNoMember pth).
Proof.
  unfold whyNoMember. apply frame_let; [|intros [n f]; frames]. generalize 0 (@None gerr).
  induction members as [|m ms IH]; intros n f; cbn [why_each]; frames; apply IH.
Qed.

(** An upload destroys nothing before it is complete.  Opening a session,
    whichever members are asked, unless a member already had the content and the
    upload ended there; sending parts; a completion that fails, at the member or
    in the index: each leaves every entry and every copy's row as it was. *)
Theorem upload_leaves_tree :
  (forall link passes parent name size h (s s' : pst W) r,
     BeginUpload link passes parent name size h s = (r, s') -> not_rapid r -> files_of s' = files_of s) /\
  (forall ss i n (s : pst W), files_of (snd (UploadPart ss i n s)) = files_of s) /\
  (forall passes ss parts (s s' : pst W) e, CompleteUpload passes ss parts s = (Err e, s') -> files_of s' = files_of s).
Proof.
  split; [|split].
  - intros link passes parent name size h s s' r. unfold BeginUpload. destruct (validName name); [by intros [= _ <-]|].
    unfold pbind at 1. pose proof (pathOf_files parent s) as F1. destruct (pathOf parent s) as [[pp|e] s1]; simpl in F1;
      [|by intros [= _ <-]].
    unfold pbind at 1. pose proof (candidates_files (joinPath pp name) s1) as F2.
    destruct (candidates _ s1) as [cs s2]. simpl in F2. unfold pbind at 1.
    destruct (begin_on _ _ _ _ _ _ _ cs _ s2) as [[[x|] acc] s3] eqn:Hb;
      pose proof (begin_on_files _ _ _ _ _ _ _ _ _ _ _ _ _ Hb) as Hb'.
    + intros [= <- <-] H. rewrite <- F1, <- F2. apply Hb'. by intros r' [= <-].
    + intros Hr _. rewrite <- F1, <- F2, <- Hb' by done.
      assert (HF : forall k : M W (res gerr UploadSession), FF k -> k s3 = (r, s') -> files_of s' = files_of s3)
        by (intros k Hk Hks; specialize (Hk s3); by rewrite Hks in Hk).
      revert Hr. apply HF. frames. apply whyNoMember_files.
  - intros ss i n s. apply (fun (H : FF _) => H s). unfold UploadPart. frames.
  - intros passes ss parts s s' e. unfold CompleteUpload. destruct (unpackSession ss) as [[[[m pth] hold] ms]|]; [|by intros [= _ <-]].
    unfold pbind at 1. pose proof (frame_files_call (b_CompleteUpload m ms parts) s) as F1.
    destruct (call _ s) as [[me|x] s1]; simpl in F1.
    + unfold pthen at 1, pbind. pose proof (note_files m None s1) as F2. set (s2 := snd (note m None s1)) in *.
      destruct (finishUpload m pth me hold s2) as [[en|x] s3] eqn:Hf; [unfold pthen, ret; discriminate|].
      intros [= <- <-]. apply finishUpload_fails in Hf. congruence.
    + destruct (outOfSpace _); unfold pthen, ret; intros [= <- <-]; rewrite ?markFull_files, ?note_files; done.
Qed.
(** ** The commit *)

Lemma stale_keeps : keeps_key (fun r => r <| rp_state := "stale" |>).
Proof. by intros r. Qed.
Lemma stale_others_lookup pth n ct i k :
  KeyOK (replicas i) ->
  replicas (stale_others pth n ct i) !! k =
  (fun r => if bool_decide (rp_path r = pth /\ rp_member r <> n /\ rp_ctoken r <> ct) then r <| rp_state := "stale" |> else r)
    <$> replicas i !! k.
Proof. intros HK. unfold stale_others. by rewrite update_replicas_lookup by (done || apply stale_keeps). Qed.

(** What the row of another member becomes. *)
Definition outdated (ct : string) (r : replicaRow) : replicaRow :=
  if decide (rp_ctoken r = ct) then r else r <| rp_state := "stale" |>.

Section Commit.
Context (m : member) (pth : string) (me : Entry) (hold : string) (t : Z) (i : index).
Let ct := content_token me.
Notation i' := (commit_upload m pth me hold ct t i).
Context (HK : KeyOK (replicas i)).

(** The rows once copy and staleness are recorded; what follows leaves them. *)
Lemma commit_rows ht hv : bestHash (e_Hashes me) = (ht, hv) ->
  exists i1, replicas i1 = replicas i /\
    replicas i' = replicas (stale_others pth (m_name m) ct (upsertReplica pth (parentOf pth) (m_name m) me ct "live" t i1)).
Proof.
  intros Hb. unfold commit_upload. rewrite Hb. eexists. split; [|by destruct (decide (hold <> "")), (decide (1 < wantReplicas pth))]. done.
Qed.

Lemma commit_own_row : exists r, replicas i' !! (pth, m_name m) = Some r /\
  rp_state r = "live" /\ rp_ctoken r = ct /\ remoteID r = e_ID me /\ rp_size r = e_Size me /\ memberName r = e_Name me.
Proof.
  destruct (bestHash (e_Hashes me)) as [ht hv] eqn:Hb. destruct (commit_rows ht hv Hb) as (i1 & H1 & ->).
  assert (HK1 : KeyOK (replicas i1)) by by rewrite H1.
  rewrite stale_others_lookup by (by apply upsert_KeyOK). rewrite upsert_same by done. simpl.
  eexists. split; [done|]. destruct (upserted_cols pth (parentOf pth) (m_name m) me ct "live" t i1) as (C1 & C2 & C3 & C4 & C5 & _).
  rewrite bool_decide_eq_false_2 by naive_solver. rewrite C1, C2, C3. unfold upserted. by rewrite Hb.
Qed.

Lemma commit_other_rows p n : n <> m_name m ->
  replicas i' !! (p, n) = (if decide (p = pth) then outdated ct else id) <$> replicas i !! (p, n).
Proof.
  intros Hn. destruct (bestHash (e_Hashes me)) as [ht hv] eqn:Hb. destruct (commit_rows ht hv Hb) as (i1 & H1 & ->).
  assert (HK1 : KeyOK (replicas i1)) by by rewrite H1.
  rewrite stale_others_lookup by (by apply upsert_KeyOK). rewrite upsert_other, H1 by done.
  destruct (replicas i !! (p, n)) as [r|] eqn:Hr; [|done]. simpl. f_equal. pose proof (HK _ _ Hr) as [= -> ->].
  unfold outdated. destruct (decide (rp_path r = pth)), (decide (rp_ctoken r = ct));
    [rewrite bool_decide_eq_false_2|rewrite bool_decide_eq_true_2|rewrite bool_decide_eq_false_2|rewrite bool_decide_eq_false_2];
    naive_solver.
Qed.

Lemma commit_entry p : entries i' !! p = if decide (p = pth) then
    Some (MkEntryRow (parentOf pth) KindFile (e_Size me) (UnixNano (e_ModTime me)) ct
            (fst (bestHash (e_Hashes me))) (snd (bestHash (e_Hashes me))) "" t) else entries i !! p.
Proof.
  unfold commit_upload. destruct (bestHash (e_Hashes me)) as [ht hv] eqn:Hb.
  assert (He : forall x, entries (stale_others pth (m_name m) ct (upsertReplica pth (parentOf pth) (m_name m) me ct "live" t x)) = entries x)
    by (intros x; unfold stale_others; by rewrite update_replicas_entries, upsert_entries).
  destruct (decide (hold <> "")), (decide (1 < wantReplicas pth)); cbn -[stale_others upsertReplica]; rewrite He; cbn;
    (destruct (decide (p = pth)) as [->|]; [by rewrite lookup_insert_eq|by rewrite lookup_insert_ne]).
Qed.

Lemma commit_queued : 1 < wantReplicas pth -> exists q, repair_queue i' !! pth = Some q /\
  rq_reason q = "under-replicated" /\ rq_nextAt q = 0 /\ rq_attempts q = 0 /\ rq_hint q = hold.
Proof.
  intros Hw. unfold commit_upload. destruct (bestHash _) as [ht hv]. rewrite (decide_True (P := 1 < wantReplicas pth)) by done.
  unfold enqueue_upload. cbn -[stale_others upsertReplica]. rewrite lookup_partial_alter_eq.
  eexists. split; [done|]. by destruct (_ !! pth).
Qed.
End Commit.
(** An id, once given, is the path's. *)
Lemma idForTx_spec pth s id s' : idForTx pth s = (Ok id, s') ->
  files_of s' = files_of s /\ repair_queue (idx s') = repair_queue (idx s) /\ ids (idx s) ⊆ ids (idx s') /\
  (pth <> "/" -> ids (idx s') !! pth = Some id).
Proof.
  unfold idForTx. destruct (decide _); [by intros [= _ <-]|]. unfold pbind, reads.
  destruct (ids (idx s) !! pth) as [k|] eqn:Hk; [by intros [= <- <-]|]. unfold call. destruct (newID (world s)) as [k w].
  destruct (bool_decide _); [discriminate|]. intros [= <- <-]. unfold files_of. simpl.
  split; [done|]. split; [done|]. split; [by apply insert_subseteq|]. intros _. apply lookup_insert_eq.
Qed.

Lemma commit_ids m pth me hold ct t i : ids (commit_upload m pth me hold ct t i) = ids i.
Proof.
  assert (Hdel : forall (l : list replicaRow) i, ids (foldl (fun i r => del_replica (rp_path r, rp_member r) i) i l) = ids i).
  { intros l. induction l as [|r l IH]; intros j; [done|]. cbn [foldl]. rewrite IH. unfold del_replica. by destruct (_ !! _). }
  assert (Hput : forall g (l : list replicaRow) i, ids (foldl (fun i r => put_replica (g r) i) i l) = ids i).
  { intros g l. induction l as [|r l IH]; intros j; [done|]. cbn [foldl]. by rewrite IH. }
  assert (Hs : forall x, ids (stale_others pth (m_name m) ct (upsertReplica pth (parentOf pth) (m_name m) me ct "live" t x)) = ids x).
  { intros x. unfold stale_others, update_replicas. rewrite Hput, upsert_unfold. unfold delete_replicas. by rewrite Hdel. }
  unfold commit_upload. destruct (bestHash _).
  destruct (decide (hold <> "")), (decide (1 < wantReplicas pth)); cbn -[stale_others upsertReplica]; by rewrite Hs.
Qed.

Definition index_kept (s s' : pst W) : Prop :=
  files_of s' = files_of s /\ ids (idx s') = ids (idx s).
Lemma remove_holds_kept hps s : index_kept s (snd (remove_holds hps s)).
Proof.
  revert s. induction hps as [|hp hps IH]; intros s; [done|]. cbn [remove_holds]. unfold pthen at 1.
  destruct (IH (snd (remove_hold hp s))) as [H1 H2]. split; [by rewrite H1|by rewrite H2].
Qed.
Lemma releaseHolds_kept pth s : index_kept s (snd (releaseHolds pth s)).
Proof. unfold releaseHolds, pbind, reads. apply remove_holds_kept. Qed.

(** C9: A complete upload replaces the content everywhere at once.  The entry has
    the new content's token and keeps the path's id; the member that took it has
    a confirmed copy; every other member's copy of other content is stale from
    then on, so no copy of another content is in service; a path wanted on more
    than one member is queued for repair, due at once, with the hold as its
    source; other paths keep their entries and, on other members, their rows. *)
Theorem upload_commits m pth me hold s e s' :
  KeysOK s -> pth <> "/" -> finishUpload m pth me hold s = (Ok e, s') ->
  let ct := content_token me in
  (ids (idx s') !! pth = Some (e_ID e) /\ (forall k, ids (idx s) !! pth = Some k -> e_ID e = k) /\ e_Version e = ct) /\
  (exists row, entries (idx s') !! pth = Some row /\ en_kind row = KindFile /\ en_ctoken row = ct /\ en_size row = e_Size me) /\
  (exists r, replicas (idx s') !! (pth, m_name m) = Some r /\ rp_state r = "live" /\ rp_ctoken r = ct /\
             remoteID r = e_ID me /\ rp_size r = e_Size me /\ memberName r = e_Name me) /\
  (forall r, r ∈ replicasOf pth "" s' -> rp_ctoken r = ct) /\
  (1 < wantReplicas pth -> exists q, repair_queue (idx s') !! pth = Some q /\
     rq_reason q = "under-replicated" /\ rq_nextAt q = 0 /\ rq_attempts q = 0 /\ rq_hint q = hold) /\
  (forall p, p <> pth -> entries (idx s') !! p = entries (idx s) !! p /\
     forall n, n <> m_name m -> replicas (idx s') !! (p, n) = replicas (idx s) !! (p, n)).
Proof.
  intros HK Hroot H ct. unfold finishUpload in H. destruct (bestHash (e_Hashes me)) as [ht hv] eqn:Hbh. cbv zeta in H. unfold pbind at 1, reads at 1 in H.
  unfold pbind at 1 in H. destruct (tx _ s) as [[[id pid]|x] s1] eqn:Htx; [|discriminate].
  apply tx_works in Htx as (s2 & Hb & Hidx). unfold pbind at 1 in Hb.
  destruct (idForTx pth s) as [[k|x] s3] eqn:Hid; [|discriminate]. apply idForTx_spec in Hid as (F1 & _ & I1 & Hk). specialize (Hk Hroot).
  unfold pbind at 1 in Hb. destruct (idForTx (parentOf pth) s3) as [[kp|x] s4] eqn:Hpid; [|discriminate].
  apply idForTx_spec in Hpid as (F2 & _ & I2 & _). unfold pthen, exec, modify, ret in Hb. injection Hb as -> -> <-. simpl in Hidx.
  set (t := UnixNano (now (world s))) in *. set (i := idx s4) in *.
  assert (Hfin : index_kept s1 s' /\ e_ID e = id /\ e_Version e = ct /\
                 (1 < wantReplicas pth -> repair_queue (idx s') = repair_queue (idx s1))).
  { unfold pthen in H. destruct (decide (wantReplicas pth <= 1 /\ hold <> "")) as [[Hw _]|]; injection H as <- <-.
    - split; [apply releaseHolds_kept|]. split; [done|]. split; [done|lia].
    - done. }
  clear H. destruct Hfin as ([Hf Hids] & -> & -> & Hrq). injection Hf as HR HE.
  assert (HR0 : replicas i = replicas (idx s)) by (injection F1; injection F2; unfold i; congruence).
  assert (HE0 : entries i = entries (idx s)) by (injection F1; injection F2; unfold i; congruence).
  assert (HKi : KeyOK (replicas i)) by by rewrite HR0.
  rewrite Hidx in HR, HE, Hids, Hrq. rewrite commit_ids in Hids. rewrite HR, HE, Hids. fold ct.
  assert (Hkk : forall q, ids (idx s3) !! pth = Some q -> ids i !! pth = Some q) by (intros q Hq; exact (lookup_weaken _ _ _ _ Hq I2)).
  split; [|split; [|split; [|split; [|split]]]].
  - split; [by apply Hkk|]. split; [|done]. intros q Hq. pose proof (lookup_weaken _ _ _ _ Hq I1). congruence.
  - rewrite commit_entry, decide_True by done. by eexists.
  - by apply commit_own_row.
  - intros r (Hst & _ & m' & Hm' & Hr)%replicasOf_elem. rewrite HR in Hr. destruct (decide (m_name m' = m_name m)) as [Hn|Hn].
    + rewrite Hn in Hr. destruct (commit_own_row m pth me hold t i HKi) as (r' & Hr' & _ & Hc & _). unfold ct. congruence.
    + rewrite (commit_other_rows m pth me hold t i HKi pth (m_name m') Hn), decide_True in Hr by done.
      destruct (replicas i !! (pth, m_name m')) as [o|]; [|done]. simpl in Hr. injection Hr as <-. revert Hst. unfold outdated.
      destruct (decide _) as [Hc|]; [done|]. simpl. by intros [?|?].
  - intros Hw. rewrite Hrq by done. by apply commit_queued.
  - intros p Hp. rewrite commit_entry, decide_False, HE0 by done. split; [done|]. intros n Hn.
    unfold ct. rewrite (commit_other_rows m pth me hold t i HKi p n Hn), decide_False, HR0 by done. by destruct (replicas (idx s) !! (p, n)).
Qed.
End Upload.
