(* ===== verification/PoolReplay.v ===== *)
(** * Operations on several members: who is owed, and what a replay may do

    The fan-out and the op log it fills (write.go), the replay of deletes (ops.go)
    and the budget of the holds (holds.go). *)
From S2P Require Import Prelude Filepath GoLib SqlText Retry Health PoolState PoolMember PoolPlacement PoolIndex PoolList PoolRepair PoolWrite PoolTree PoolOps PoolFrame PoolRows PoolSafety.
Open Scope Z_scope.

Section Fan.
Context {W : Type} {E : Env W} {P : Pool}.

(** ** Nobody is left behind *)

(** The member is owed the operation. *)
Definition owed (op pth : string) (args : gmap string string) (tg : target) (s : pst W) : Prop :=
  exists o, o ∈ pending_ops (idx s) /\ op_member o = m_name (tg_m tg) /\ op_op o = op /\ op_path o = pth /\
            op_args o = args /\ op_state o = "pending" /\ op_attempts o = 0 /\ op_nextAt o = 0.

(** The log only grows. *)
Definition grows (s s' : pst W) : Prop := pending_ops (idx s) ⊆ pending_ops (idx s').
#[local] Instance grows_trans : Transitive grows.
Proof. intros x y z H1 H2 o Ho. by apply H2, H1. Qed.
Definition Grows {A} (m : M W A) : Prop := forall s, grows s (snd (m s)).

Lemma owed_grows op pth args tg s s' : grows s s' -> owed op pth args tg s -> owed op pth args tg s'.
Proof. intros H (o & Ho & Hr). exists o. split; [by apply H|done]. Qed.

(** Between the calls nothing but the pool's own books changes: the log stays, or
    gets the operation the member is owed. *)
Definition noted_only (s s' : pst W) : Prop := world s' = world s /\ pending_ops (idx s') = pending_ops (idx s).
Definition now_owed (op pth : string) (args : gmap string string) (tg : target) (s s' : pst W) : Prop :=
  world s' = world s /\ exists o, pending_ops (idx s') = pending_ops (idx s) ++ [o] /\
    op_member o = m_name (tg_m tg) /\ op_op o = op /\ op_path o = pth /\ op_args o = args /\
    op_state o = "pending" /\ op_attempts o = 0 /\ op_nextAt o = 0.

Lemma noted_only_grows s s' : noted_only s s' -> grows s s'.
Proof. intros [_ H] o Ho. by rewrite H. Qed.
Lemma now_owed_grows op pth args tg s s' : now_owed op pth args tg s s' -> grows s s'.
Proof. intros (_ & o & H & _) o' Ho. rewrite H. set_solver. Qed.
Lemma now_owed_owed op pth args tg s s' : now_owed op pth args tg s s' -> owed op pth args tg s'.
Proof. intros (_ & o & H & Hr). exists o. split; [rewrite H; set_solver|done]. Qed.

Lemma note_only m e s : noted_only s (snd (note m e s)).
Proof. done. Qed.
Lemma divergence_only pth n k d t s : noted_only s (snd (divergence pth n k d t s)).
Proof. done. Qed.
Lemma pendingOp_owed op pth args tg t s s1 : noted_only s s1 -> now_owed op pth args tg s (snd (pendingOp (tg_m tg) op pth args t s1)).
Proof.
  intros [Hw Hl]. unfold now_owed, pendingOp, exec, modify, add_op. simpl. split; [done|]. rewrite Hl. eexists. split; [done|]. by split_and!.
Qed.

#[local] Opaque note pendingOp divergence.

Section Op.
Context {A : Type} (op pth : string) (args : gmap string string) (act : target -> M W (res gerr A)).

(** A member took the operation when it says so, or does not have the entry. *)
Definition took_it (r : res gerr A) : bool := match r with Ok _ => true | Err e => errors_Is e PErrNotFound end.
(** What one target answered; [None]: it was not asked. *)
Notation visit_ := (target * option (res gerr A))%type.
Definition did (v : visit_) : bool := match snd v with Some r => took_it r | None => false end.
Definition answered_by (v : visit_) : option A := match snd v with Some (Ok a) => Some a | _ => None end.

(** One target: skipped when the member may not be used, else called once; owed
    unless it took the operation. *)
Inductive visit (tg : target) (s : pst W) : option (res gerr A) -> pst W -> Prop :=
| visit_skip s' : usable (tg_m tg) (ProbeInterval settings) s = false -> now_owed op pth args tg s s' -> visit tg s None s'
| visit_took r s1 s' :
    usable (tg_m tg) (ProbeInterval settings) s = true -> act tg s = (r, s1) -> took_it r = true -> noted_only s1 s' ->
    visit tg s (Some r) s'
| visit_owed r s1 s' :
    usable (tg_m tg) (ProbeInterval settings) s = true -> act tg s = (r, s1) -> took_it r = false ->
    now_owed op pth args tg s1 s' -> visit tg s (Some r) s'.
(** The targets in order. *)
Inductive visits : pst W -> list visit_ -> pst W -> Prop :=
| visits_nil s : visits s [] s
| visits_cons s tg v s1 vs s' : visit tg s v s1 -> visits s1 vs s' -> visits s ((tg, v) :: vs) s'.

Context (Hact : forall tg, Grows (act tg)).

Lemma visit_grows tg s v s' : visit tg s v s' -> grows s s' /\ (did (tg, v) = false -> owed op pth args tg s').
Proof.
  destruct 1 as [s' _ H|r s1 s' _ Ha Hr H|r s1 s' _ Ha Hr H].
  - split; [by eapply now_owed_grows|intros _; by eapply now_owed_owed].
  - split; [|intros Hd; unfold did in Hd; simpl in Hd; congruence]. pose proof (Hact tg s) as G. rewrite Ha in G.
    etrans; [exact G|by apply noted_only_grows].
  - split; [|intros _; by eapply now_owed_owed]. pose proof (Hact tg s) as G. rewrite Ha in G.
    etrans; [exact G|by eapply now_owed_grows].
Qed.
Lemma visits_grow s vs s' : visits s vs s' ->
  grows s s' /\ Forall (fun v => did v = false -> owed op pth args (fst v) s') vs.
Proof.
  induction 1 as [s|s tg v s1 vs s' Hv _ [G IH]]; [split; [by intros o|constructor]|].
  destruct (visit_grows _ _ _ _ Hv) as [G1 Ho]. split; [by etrans|]. constructor; [|done].
  intros Hd. eapply owed_grows; [exact G|by apply Ho].
Qed.

(** One target. *)
Lemma fan_one_spec t tg acc s acc' a s' :
  fan_one op pth args act t tg acc s = ((acc', a), s') ->
  exists v, visit tg s v s' /\ a = answered_by (tg, v) /\
    (if did (tg, v) then fa_ok acc' = fa_ok acc + 1 /\ fa_err acc' = fa_err acc /\ fa_unreach acc' = fa_unreach acc
     else fa_ok acc' = fa_ok acc /\ (is_Some (fa_err acc') \/ is_Some (fa_unreach acc'))) /\
    (is_Some (fa_err acc) -> is_Some (fa_err acc')) /\ (is_Some (fa_unreach acc) -> is_Some (fa_unreach acc')).
Proof.
  unfold fan_one. cbv zeta. unfold pbind at 1, reads. destruct (usable _ _ s) eqn:Hu; cbn [negb].
  - unfold pbind at 1. destruct (act tg s) as [r s1] eqn:Ha. assert (Hr : forall e, r = Err e -> took_it r = errors_Is e PErrNotFound) by (by intros e ->).
    destruct r as [x|e].
    + unfold pthen, ret. intros [= <- <- <-]. exists (Some (Ok x)). split; [by eapply visit_took|]. done.
    + destruct (errors_Is e PErrNotFound) eqn:He; [|destruct (unreachable (Some e))]; unfold pthen, ret; intros [= <- <- <-];
        exists (Some (Err e)).
      * split; [eapply visit_took; [done|done|by rewrite (Hr e eq_refl)|apply note_only]|]. unfold did. simpl. by rewrite He.
      * split; [eapply visit_owed; [done|done|by rewrite (Hr e eq_refl)|]|]; [apply pendingOp_owed, note_only|].
        unfold did. simpl. rewrite He. split; [done|]. split; [split; [done|right; by eexists]|]. split; [done|by eexists].
      * split; [eapply visit_owed; [done|done|by rewrite (Hr e eq_refl)|]|].
        { apply pendingOp_owed. destruct (note_only (tg_m tg) None s1) as [W1 L1].
          match goal with |- noted_only s1 (snd (divergence ?p ?n ?k ?d ?t ?s2)) => destruct (divergence_only p n k d t s2) as [W2 L2] end.
          split; congruence. }
        unfold did. simpl. rewrite He. split; [done|]. split; [split; [done|left; by eexists]|]. split; [by eexists|done].
  - unfold pthen, ret. intros [= <- <- <-]. exists None. split; [apply visit_skip; [done|by apply pendingOp_owed]|].
    unfold did. simpl. split; [done|]. split; [split; [done|right; by eexists]|]. split; [done|by eexists].
Qed.

Definition dones (vs : list visit_) : list visit_ := filter (fun v => did v = true) vs.

Lemma fan_all_spec t tgs acc took s acc' took' s' :
  fan_all op pth args act t tgs acc took s = ((acc', took'), s') ->
  (is_Some (fa_err acc) -> is_Some (fa_err acc')) /\ (is_Some (fa_unreach acc) -> is_Some (fa_unreach acc')) /\
  exists vs, visits s vs s' /\ map fst vs = tgs /\ fa_ok acc' = fa_ok acc + count (dones vs) /\
    (existsb (fun v => negb (did v)) vs = true -> is_Some (fa_err acc') \/ is_Some (fa_unreach acc')) /\
    (vs = [] -> fa_err acc' = fa_err acc /\ fa_unreach acc' = fa_unreach acc) /\
    (forall n a, took' !! n = Some a -> took !! n = Some a \/ exists v, v ∈ vs /\ m_name (tg_m (fst v)) = n /\ answered_by v = Some a) /\
    (forall n, is_Some (took !! n) \/ (exists v, v ∈ vs /\ m_name (tg_m (fst v)) = n /\ is_Some (answered_by v)) -> is_Some (took' !! n)).
Proof.
  revert acc took s. induction tgs as [|tg tgs IH]; intros acc took s; cbn [fan_all].
  { unfold ret. intros [= <- <- <-]. split; [done|]. split; [done|]. exists []. split; [constructor|]. split; [done|].
    split; [unfold count; simpl; lia|]. split; [done|]. split; [done|]. split; [by left|].
    intros n [Hn|(v & Hv & _)]; [done|by apply not_elem_of_nil in Hv]. }
  unfold pbind. destruct (fan_one op pth args act t tg acc s) as [[acc1 a] s1] eqn:H1.
  apply fan_one_spec in H1 as (v & Hv & -> & Hcase & E1 & U1). intros H.
  apply IH in H as (E2 & U2 & vs & Hvs & Hm & Hn & Hl & Hz & Ht & Ht'). split; [auto|]. split; [auto|].
  exists ((tg, v) :: vs). split; [by econstructor|]. split; [simpl; by rewrite Hm|]. split; [|split; [|split; [done|split]]].
  - unfold dones, count in *. rewrite filter_cons. destruct (did (tg, v)); destruct Hcase as [Hok _];
      destruct (decide _); try done; cbn [length]; lia.
  - cbn [existsb]. intros [Hd|Hd]%orb_true_iff; [|by apply Hl]. apply negb_true_iff in Hd. rewrite Hd in Hcase.
    destruct Hcase as [_ [|]]; [left|right]; auto.
  - intros n a Ha%Ht. destruct Ha as [Ha|(u & Hu & Hr)]; [|right; exists u; split; [by right|done]].
    destruct (answered_by (tg, v)) as [b|] eqn:Hb; [|by left]. apply lookup_insert_Some in Ha as [[<- <-]|[_ Ha]]; [|by left].
    right. exists (tg, v). split; [by left|done].
  - intros n Hs. apply Ht'. destruct Hs as [Hs|(u & [->|Hu]%elem_of_cons & Hnm & Ha)]; [left|left|right; by exists u].
    + destruct (answered_by (tg, v)); [|done]. destruct (decide (m_name (tg_m tg) = n)) as [->|];
        [by rewrite lookup_insert_eq|by rewrite lookup_insert_ne].
    + destruct Ha as [b Hb]. rewrite Hb. simpl in Hnm. by rewrite Hnm, lookup_insert_eq.
Qed.
End Op.

(** C10: No member is left behind by a tree operation, and none is counted that
    did not take it.  For operations that never shorten the log themselves: the
    targets are gone through in order; one whose member may not be used is not
    called, every other is called exactly once, and between the calls only the
    pool's own books change.  The number reported is that of the targets which
    answered that they took the operation or that they do not have the entry;
    each of the others, unreachable, refusing or not asked, has a pending
    operation of its own with the same path and arguments; the answers handed on
    are those the members gave; and the call fails exactly when there were
    targets and none took the operation. *)
Theorem fanout_owes {A} op pth args (act : target -> M W (res gerr A)) tgs s n err took s' :
  (forall tg, Grows (act tg)) -> fanout op pth args act tgs s = ((n, err, took), s') ->
  exists vs, visits op pth args act s vs s' /\ map fst vs = tgs /\ n = count (dones vs) /\
    Forall (fun v => did v = false -> owed op pth args (fst v) s') vs /\
    (forall k a, took !! k = Some a -> exists v, v ∈ vs /\ m_name (tg_m (fst v)) = k /\ answered_by v = Some a) /\
    (forall v, v ∈ vs -> is_Some (answered_by v) -> is_Some (took !! m_name (tg_m (fst v)))) /\
    (is_Some err <-> tgs <> [] /\ dones vs = []).
Proof.
  intros Hact. unfold fanout, pbind, reads. destruct (fan_all _ _ _ _ _ tgs _ _ s) as [[acc tk] s1] eqn:H.
  apply fan_all_spec in H as (_ & _ & vs & Hvs & Hm & Hn & Hl & Hz & Ht & Ht'). simpl in Hn. unfold ret. intros [= Hv <- <-].
  assert (n = fst (fan_verdict op acc)) as -> by by rewrite Hv. assert (err = snd (fan_verdict op acc)) as -> by by rewrite Hv. clear Hv.
  exists vs. split; [done|]. split; [done|]. unfold fan_verdict, count in *.
  assert (Hd : 0 < fa_ok acc <-> dones vs <> []) by (destruct (dones vs); simpl in *; split; [lia|done|done|lia]).
  split; [|split; [by apply (visits_grow op pth args act Hact s)|split; [|split]]].
  - destruct (decide (0 < fa_ok acc)); [simpl; lia|]. destruct (dones vs); [|simpl in *; lia]. by destruct (fa_err acc), (fa_unreach acc).
  - intros k a Hk%Ht. destruct Hk as [Hk|]; [by rewrite lookup_empty in Hk|done].
  - intros v Hin Ha. apply Ht'. right. by exists v.
  - destruct (decide (0 < fa_ok acc)) as [Hpos|Hneg]; simpl.
    + split; [by intros [? ?]|]. intros [_ Hnil]. by apply Hd in Hpos.
    + assert (Hnil : dones vs = []) by (destruct (dones vs); [done|]; exfalso; apply Hneg, Hd; done). split.
      * intros He. split; [|done]. intros ->. destruct vs; [|done]. destruct (Hz eq_refl) as [H1 H2].
        rewrite H1, H2 in He. simpl in He. by destruct He.
      * intros [Hne _]. destruct vs as [|v vs]; [by subst|].
        assert (Hdv : did v = false).
        { destruct (did v) eqn:Hdv; [|done]. unfold dones in Hnil. by rewrite filter_cons_True in Hnil. }
        destruct Hl as [[e ->]|[e He]]; [cbn [existsb]; by rewrite Hdv|by eexists|]. rewrite He. by destruct (fa_err acc); eexists.
Qed.
End Fan.

Section Replay.
Context {W : Type} {E : Env W} {P : Pool}.

(** ** A replayed delete spares what has changed *)

(** The content the token names: by size and time, or by any hash reported. *)
Definition Carries (want : string) (e : Entry) : Prop :=
  want = "" \/ timeToken (e_Size e) (e_ModTime e) = want \/
  exists ht, ht ∈ preferredHashes /\ hash_of (e_Hashes e) ht <> "" /\ hashToken ht (hash_of (e_Hashes e) ht) = want.

Lemma bestHash_some h : match bestHash h with
  | (ht, hv) => ht = "" \/ ht ∈ preferredHashes /\ hash_of h ht = hv /\ hv <> "" end.
Proof.
  unfold bestHash. assert (H : preferredHashes ⊆ preferredHashes) by done. revert H. generalize preferredHashes at 1 3 as l.
  induction l as [|ht l IH]; intros Hl; cbn [first_hash]; [by left|].
  destruct (decide _) as [|Hne]; [|right; set_solver]. apply IH. set_solver.
Qed.

Lemma changed_spec want e :
  (bool_decide (want <> "") && negb (bool_decide (content_token e = want)) && negb (sameToken want e)) = false <-> Carries want e.
Proof.
  assert (Hs : sameToken want e = true <-> timeToken (e_Size e) (e_ModTime e) = want \/
    exists ht, ht ∈ preferredHashes /\ hash_of (e_Hashes e) ht <> "" /\ hashToken ht (hash_of (e_Hashes e) ht) = want).
  { unfold sameToken. rewrite orb_true_iff, existsb_exists, bool_decide_eq_true.
    setoid_rewrite bool_decide_eq_true. setoid_rewrite <- list_elem_of_In. naive_solver. }
  assert (Hc : content_token e = want -> sameToken want e = true).
  { intros Hc. apply Hs. unfold content_token in Hc. pose proof (bestHash_some (e_Hashes e)) as Hb.
    destruct (bestHash _) as [ht hv]. destruct (decide (ht <> "")) as [Hn|]; [|by left].
    destruct Hb as [?|(H1 & <- & H3)]; [done|]. right. by exists ht. }
  unfold Carries. rewrite <- Hs. rewrite !andb_false_iff, !negb_false_iff, bool_decide_eq_false, bool_decide_eq_true.
  destruct (decide (want = "")); naive_solver.
Qed.

Lemma dropSubtree_gone pth i p n : KeyOK (replicas i) -> subtree pth p = true -> replicas (dropSubtree pth i) !! (p, n) = None.
Proof.
  intros HK Hp. unfold dropSubtree. set (i1 := i <| entries ::= _ |>). change (replicas (delete_replicas (fun r => subtree pth (rp_path r)) i1) !! (p, n) = None).
  rewrite delete_replicas_lookup by done. change (replicas i1) with (replicas i).
  destruct (replicas i !! (p, n)) as [r|] eqn:Hr; [|done]. simpl. pose proof (HK _ _ Hr) as [= <- _]. by rewrite Hp.
Qed.

(** C11: A replayed delete spares what has changed.  On the member, a file whose
    observation carries neither the deleted content's time token nor a hash of it
    is not touched: the world stays as it was, no row changes, a divergence says
    so, and the operation is done; so is a directory that still has children.
    A file that does carry the token is deleted, once, by its id; its rows go
    when the member confirms and stay when it does not. *)
Theorem replayed_delete_spares m o s pid s1 e s2 r s' :
  KeysOK s -> dirID m (parentOf (op_path o)) s = (Ok pid, s1) -> findChild m pid (Filepath.Base (op_path o)) s1 = (Some e, s2) ->
  replayDelete m o s = (r, s') ->
  match e_Kind e with
  | KindFile =>
      (~ Carries (arg o "ctoken") e -> world s' = world s2 /\ files_of s' = files_of s /\ r = Ok tt /\
         is_Some (divergences (idx s') !! (op_path o, m_name m, "delete-skipped"))) /\
      (Carries (arg o "ctoken") e -> world s' = snd (b_Delete m (e_ID e) (world s2)) /\
         (r = Ok tt -> forall p n, subtree (op_path o) p = true -> replicas (idx s') !! (p, n) = None) /\
         (r <> Ok tt -> files_of s' = files_of s))
  | KindDir => forall c cs s3, listAll m (e_ID e) s2 = (Ok (c :: cs), s3) ->
      world s' = world s3 /\ files_of s' = files_of s /\ r = Ok tt /\
      is_Some (divergences (idx s') !! (op_path o, m_name m, "delete-skipped"))
  end.
Proof.
  intros HK Hd Hf H. unfold replayDelete in H. cbv zeta in H. unfold pbind at 1 in H. rewrite Hd in H.
  unfold pbind at 1 in H. rewrite Hf in H.
  assert (F2 : files_of s2 = files_of s).
  { pose proof (dirID_files m (parentOf (op_path o)) s) as F1. rewrite Hd in F1. simpl in F1. rewrite <- F1.
    unfold findChild, pbind in Hf. pose proof (listAll_files m pid s1) as F2. destruct (listAll m pid s1) as [l s2']. unfold ret in Hf.
    by injection Hf as _ <-. }
  assert (Hskip : forall why s3, files_of s3 = files_of s -> skip_delete (op_path o) (m_name m) why s3 = (r, s') ->
     world s' = world s3 /\ files_of s' = files_of s /\ r = Ok tt /\
     is_Some (divergences (idx s') !! (op_path o, m_name m, "delete-skipped"))).
  { intros why s3 F3. unfold skip_delete, divergence, pbind, reads, tx, pthen, exec, modify, ret, recordDivergence. simpl.
    intros [= <- <-]. simpl. split; [done|]. split; [exact F3|]. split; [done|]. rewrite lookup_insert_eq. by eexists. }
  destruct (e_Kind e).
  - destruct (_ && _) eqn:Hc.
    + split; [intros _; by eapply Hskip|]. intros Hcar%changed_spec. congruence.
    + split; [intros Hn; by apply changed_spec in Hc|]. intros _. revert H. unfold delete_there, pbind, call.
      destruct (b_Delete m (e_ID e) (world s2)) as [d w] eqn:Hdel.
      destruct (match d with Ok _ => None | Err e0 => _ end) as [err|]; unfold pthen, note, modify, ret, tx, exec; simpl; intros [= <- <-]; simpl.
      * split; [done|]. split; [done|]. intros _. exact F2.
      * split; [done|]. split; [|done]. intros _ p n Hp. apply dropSubtree_gone; [|done]. injection F2 as F2 _. by rewrite F2.
  - intros c cs s3 Hl. unfold pbind at 1 in H. rewrite Hl in H. eapply Hskip; [|exact H]. rewrite <- F2.
    pose proof (listAll_files m (e_ID e) s2) as F3. by rewrite Hl in F3.
Qed.
End Replay.

Section Holds.
Context {W : Type} {E : Env W} {P : Pool}.

(** ** The holds' budget *)

Definition hold_over (tnow total : Z) (h : holdRow) : bool :=
  bool_decide (0 < HoldMaxAge settings /\ HoldMaxAge settings < tnow - h_createdAt h) ||
  bool_decide (0 < HoldMaxBytes settings /\ HoldMaxBytes settings < total).
(** What is left of holds taken in this order. *)
Fixpoint kept_holds (hs : list (string * holdRow)) (tnow total : Z) : list (string * holdRow) :=
  match hs with
  | [] => []
  | (hp, h) :: rest => if hold_over tnow total h then kept_holds rest tnow (total - h_size h)
                       else (hp, h) :: kept_holds rest tnow total
  end.

Lemma trim_list_holds hs tnow total (s : pst W) pre :
  hold_list (idx s) ≡ₚ pre ++ hs -> hold_list (idx (snd (trim_list hs tnow total s))) ≡ₚ pre ++ kept_holds hs tnow total.
Proof.
  revert total s pre. induction hs as [|[hp h] hs IH]; intros total s pre Hp; [done|]. cbn [trim_list kept_holds]. cbv zeta.
  rewrite <- negb_orb. fold (hold_over tnow total h). destruct (hold_over tnow total h); cbn [negb].
  - apply IH. unfold hold_list in *. simpl.
    assert (Hh : holds (idx s) !! hp = Some h) by (apply elem_of_map_to_list; rewrite Hp; set_solver).
    apply (Permutation_cons_inv (a := (hp, h))). rewrite map_to_list_delete by done. rewrite Hp. symmetry. apply Permutation_middle.
  - rewrite (app_assoc pre [(hp, h)] (kept_holds hs tnow total) : pre ++ (hp, h) :: kept_holds hs tnow total = _).
    apply IH. by rewrite <- app_assoc.
Qed.

Lemma kept_total hs tnow total : Forall (fun h => 0 <= h_size (snd h)) hs -> 0 < HoldMaxBytes settings ->
  total <= HoldMaxBytes settings \/ total = holds_total hs ->
  holds_total (kept_holds hs tnow total) + (total - holds_total hs) <= HoldMaxBytes settings.
Proof.
  intros Hn Hm. revert total. induction Hn as [|[hp h] hs Hh Hn IH]; intros total Ht; simpl; [simpl in Ht; lia|].
  simpl in Hh, Ht. destruct (hold_over tnow total h) eqn:Ho.
  - specialize (IH (total - h_size h)). lia.
  - unfold hold_over in Ho. apply orb_false_iff in Ho as [_ Ho%bool_decide_eq_false]. simpl. specialize (IH total). lia.
Qed.
Lemma kept_elem hs tnow total x : x ∈ kept_holds hs tnow total ->
  x ∈ hs /\ (0 < HoldMaxAge settings -> tnow - h_createdAt (snd x) <= HoldMaxAge settings).
Proof.
  revert total. induction hs as [|[hp h] hs IH]; intros total; simpl; [by intros ?%elem_of_nil|].
  destruct (hold_over tnow total h) eqn:Ho.
  - intros [H1 H2]%IH. set_solver.
  - intros [->|[H1 H2]%IH]%elem_of_cons; [|set_solver]. split; [set_solver|]. intros Ha. simpl.
    unfold hold_over in Ho. apply orb_false_iff in Ho as [Ho%bool_decide_eq_false _]. lia.
Qed.
Lemma kept_all hs tnow total :
  ~ (0 < HoldMaxBytes settings < total) ->
  Forall (fun h => ~ (0 < HoldMaxAge settings < tnow - h_createdAt (snd h))) hs -> kept_holds hs tnow total = hs.
Proof.
  intros Ht. induction 1 as [|[hp h] hs Hh Hn IH]; simpl; [done|]. unfold hold_over. simpl in Hh.
  rewrite !bool_decide_eq_false_2 by lia. simpl. by rewrite IH.
Qed.
Lemma holds_total_perm l1 l2 : l1 ≡ₚ l2 -> holds_total l1 = holds_total l2.
Proof. induction 1; simpl; lia. Qed.

(** The holds stay within their budget.  After a trim the held bytes are at
    most [HoldMaxBytes] and no hold is older than [HoldMaxAge], where these are
    set; what is left is what was there; and a budget that already holds costs
    no hold. *)
Theorem holds_bounded (s : pst W) :
  map_Forall (fun _ h => 0 <= h_size h) (holds (idx s)) ->
  let s' := snd (trimHolds s) in
  let tnow := UnixNano (now (world s)) in
  (0 < HoldMaxBytes settings -> HoldsBytes s' <= HoldMaxBytes settings) /\
  (0 < HoldMaxAge settings -> map_Forall (fun _ h => tnow - h_createdAt h <= HoldMaxAge settings) (holds (idx s'))) /\
  holds (idx s') ⊆ holds (idx s) /\
  (~ (0 < HoldMaxBytes settings < HoldsBytes s) ->
   map_Forall (fun _ h => ~ (0 < HoldMaxAge settings < tnow - h_createdAt h)) (holds (idx s)) -> holds (idx s') = holds (idx s)).
Proof.
  intros Hn s' tnow. set (hs := holds_by_age (idx s)).
  assert (Hp : hold_list (idx s) ≡ₚ hs) by (unfold hs, holds_by_age; by rewrite stable_sort_perm).
  assert (Hs' : hold_list (idx s') ≡ₚ kept_holds hs tnow (holds_total hs)).
  { unfold s', trimHolds, pbind, reads. by apply (trim_list_holds hs tnow (holds_total hs) s []). }
  assert (Hin : forall k h, holds (idx s') !! k = Some h <-> (k, h) ∈ kept_holds hs tnow (holds_total hs))
    by (intros; rewrite <- Hs'; unfold hold_list; by rewrite elem_of_map_to_list).
  assert (HF : forall Q : holdRow -> Prop, map_Forall (fun _ h => Q h) (holds (idx s)) -> Forall (fun h => Q (snd h)) hs).
  { intros Q HQ. rewrite <- Hp. apply Forall_forall. intros [k h] Hk%elem_of_map_to_list. by apply (HQ k). }
  split; [|split; [|split]].
  - intros Hm. unfold HoldsBytes. rewrite (holds_total_perm _ _ Hs').
    pose proof (kept_total hs tnow (holds_total hs) (HF _ Hn) Hm (or_intror eq_refl)). lia.
  - intros Ha k h Hk%Hin. by apply kept_elem in Hk as [_ Hk]; apply Hk.
  - apply map_subseteq_spec. intros k h Hk%Hin. apply kept_elem in Hk as [Hk _]. rewrite <- Hp in Hk. by apply elem_of_map_to_list.
  - intros Hb Ha. rewrite kept_all in Hs'.
    + apply map_eq. intros k. apply option_eq. intros h. rewrite <- !elem_of_map_to_list. unfold hold_list in *. by rewrite Hs', Hp.
    + unfold HoldsBytes in Hb. by rewrite (holds_total_perm _ _ Hp) in Hb.
    + by apply (HF (fun h => ~ (0 < HoldMaxAge settings < tnow - h_createdAt h))).
Qed.
End Holds.
