(* ===== verification/PoolTrial.v ===== *)
(** * Pools at concrete inputs

    Two concrete worlds, with inputs at which the theorems about pools apply,
    and runs of behaviour that comments or callers would not expect. *)
From S2P Require Import Prelude Filepath GoLib SqlText Retry Health PoolState PoolMember PoolPlacement PoolIndex PoolList PoolRepair PoolBalance PoolRead PoolWrite PoolTree PoolOps PoolDelta PoolStatus PoolFrame PoolRows PoolSafety PoolInv PoolKeep PoolLease PoolPlaceOk PoolUpload PoolReplay.
From stdpp Require Import pretty.
From Stdlib Require Import Ascii.
Open Scope Z_scope.

(** ** A pool of three drives

    Its world has a clock, a counter for fresh ids, the members that refuse
    writes, and a log of the uploads it was asked for. *)
Record dw := MkDw { dw_clock : Z; dw_ids : nat; dw_refuse : list string; dw_puts : list string }.
#[export] Instance dw_eta : Settable dw := fun w => MkDw (dw_clock w) (dw_ids w) (dw_refuse w) (dw_puts w).

Definition refusal : gerr := Gerr (KText "quota exceeded for this folder") [].
Definition put_entry (name : string) (size : Z) (w : dw) : Entry :=
  MkEntry ("f-" +:+ pretty (dw_ids w)) "" name KindFile size (dw_clock w) "v1" ∅.
Definition b_put (m : member) (dirid name : string) (src : source_from) (size : Z) (h : Hashes) (w : dw)
  : (res gerr Entry * list (option gerr)) * dw :=
  let w' := (w <| dw_puts ::= fun l => l ++ [m_name m] |>) <| dw_ids ::= S |> in
  if decide (m_name m ∈ dw_refuse w) then ((Err refusal, []), w') else ((Ok (put_entry name size w), [None]), w').

#[export] Instance demo_env : Env dw := {|
  now := dw_clock; wall := dw_clock; ctx_Err := fun _ => None; isBusy := fun _ => false;
  errText := fun _ => "error"; sha1_8 := fun s => s; foldCase := fun s => s; showF3 := fun _ => "";
  showDate := fun _ => "2026-01-01";
  randF := fun w => (f0, w);
  newID := fun w => ("p-" +:+ pretty (dw_ids w), w <| dw_ids ::= S |>);
  b_List := fun m d c w => (Ok ([], ""), w);
  b_ListStream := fun m d w => (([], Some (sent PErrUnsupported)), w);
  b_Stat := fun m id w => (Ok no_entry, w);
  b_Mkdir := fun m d n w => (Ok (MkEntry ("d-" +:+ n) d n KindDir 0 0 "" ∅), w);
  b_Rename := fun m id n w => (Err refusal, w);
  b_Move := fun m id n w => (Err refusal, w);
  b_Delete := fun m id w => (Ok tt, w);
  b_Copy := fun m a b c w => (Err (sent PErrUnsupported), w);
  b_Quota := fun m w => (Err (sent PErrUnsupported), w);
  b_PutFile := b_put;
  b_BeginUpload := fun m d n z h w => (Err refusal, w);
  b_UploadPart := fun m s i src o n w => ((Err refusal, []), w);
  b_CompleteUpload := fun m s l w => (Err refusal, w);
  b_Changes := fun m c w => (ChangesOk [] "", w);
  os_Stat := fun p w => false; os_Remove := fun p w => w; os_MkdirAll := fun p w => (true, w);
  os_ReadDir := fun p w => None; hash_file := fun p z w => None |}.

Definition demo_caps : Caps :=
  MkCaps 0 1000000 false false (MkNaming false 0 0 "" [] false false) true false false false false false false.
Definition drive (n : string) (order : Z) : member :=
  MkMember n "/" f1 0 order [] n 4 false demo_caps ("root-" +:+ n).
Definition dA : member := drive "A" 0.
Definition dB : member := drive "B" 1.
Definition dC : member := drive "C" 2.

Definition demo_settings (want : Z) : Settings :=
  MkSettings want 1 Hour Minute 0 0 0 1 [] "relaxed" 0 0 f0 (MkRebalance f0 None 0 0).
Definition demo_pool (want : Z) (ms : list member) : Pool := MkPool "p" (demo_settings want) ms "" fanoutAuto.
#[export] Instance demo_pool2 : Pool := demo_pool 2 [dA; dB; dC].

Definition file_row : entryRow := MkEntryRow "/" KindFile 10 0 "h1:md5:x" "md5" "x" "" 0.
Definition copy_row (pth n : string) : replicaRow :=
  MkReplica pth "/" n ("r-" +:+ n) "v1" 10 0 "md5" "x" "h1:md5:x" "live" (Filepath.Base pth) 0.
Definition demo_index (pth : string) (names : list string) : index :=
  foldl (fun i n => put_replica (copy_row pth n) i) (empty_index <| entries := {[pth := file_row]} |>) names.
Definition demo_state (i : index) (refuse : list string) : pst dw :=
  MkPst i ∅ (MkCache 0 ∅) ∅ ∅ 0 ∅ [] (MkDw (24 * Hour) 0 refuse []).

(** A member with a given health. *)
Definition set_health (m : member) (f : Health -> Health) (s : pst dw) : pst dw :=
  upd_mrt m (fun r => r <| health ::= f |>) s.

Lemma KeyOK_check (R : gmap (string * string) replicaRow) :
  bool_decide (map_Forall (fun k r => k = (rp_path r, rp_member r)) R) = true -> KeyOK R.
Proof. intros H%bool_decide_eq_true. exact H. Qed.

(** ** The safety theorems apply *)

Definition one_copy : pst dw := demo_state (demo_index "/a" ["A"]) [].
Definition three_copies : pst dw := demo_state (demo_index "/a" ["A"; "B"; "C"]) [].
Definition draining_A : pst dw := set_health dA (SetDraining true) three_copies.

Lemma move_keeps_file_witness :
  let s' := snd (moveReplica "/a" dA dB one_copy) in
  replicas (idx s') !! ("/a", "A") = None /\
  exists row, entryAt "/a" (idx one_copy) = Some row /\ en_kind row = KindFile /\
              copy_on (replicas (idx s')) "/a" (en_ctoken row) "B".
Proof.
  assert (Hgone : replicas (idx (snd (moveReplica "/a" dA dB one_copy))) !! ("/a", "A") = None)
    by (vm_compute; reflexivity).
  split; [exact Hgone|].
  apply (move_keeps_file "/a" dA dB one_copy _ _ ltac:(apply KeyOK_check; vm_compute; reflexivity)
           ltac:(discriminate) (surjective_pairing _)) with (old := copy_row "/a" "A"); [vm_compute; reflexivity|exact Hgone].
Defined.

Lemma demo_names : @NamesUnique demo_pool2.
Proof. apply (bool_decide_unpack _). vm_compute. exact I. Qed.

Lemma trim_keeps_target_witness :
  let s' := snd (TrimOnce three_copies) in
  replicas (idx s') !! ("/a", "C") = None /\
  exists row names, entries (idx three_copies) !! "/a" = Some row /\ en_kind row = KindFile /\
    copies_on_all (replicas (idx s')) "/a" (en_ctoken row) names /\ wantReplicas "/a" <= count names /\ 1 <= count names.
Proof.
  assert (Hgone : replicas (idx (snd (TrimOnce three_copies))) !! ("/a", "C") = None) by (vm_compute; reflexivity).
  split; [exact Hgone|].
  apply (trim_keeps_target three_copies _ _ demo_names ltac:(apply KeyOK_check; vm_compute; reflexivity)
           (surjective_pairing _)) with (x := "C") (old := copy_row "/a" "C"); [vm_compute; reflexivity|exact Hgone].
Defined.

Lemma drain_keeps_copy_witness :
  let s' := snd (drain_members [dA] 0 true draining_A) in
  replicas (idx s') !! ("/a", "A") = None /\
  exists row y, entries (idx draining_A) !! "/a" = Some row /\ y ∉ ["A"] /\
                live_copy (replicas (idx s')) "/a" (en_ctoken row) y.
Proof.
  assert (Hgone : replicas (idx (snd (drain_members [dA] 0 true draining_A))) !! ("/a", "A") = None)
    by (vm_compute; reflexivity).
  split; [exact Hgone|].
  destruct (drain_keeps_copy [dA] dB 0 true draining_A _ _
    ltac:(apply KeyOK_check; vm_compute; reflexivity) ltac:(apply list_elem_of_In; right; left; reflexivity)
    ltac:(repeat split; vm_compute; reflexivity) ltac:(apply (bool_decide_unpack _); vm_compute; exact I)
    ltac:(constructor; [vm_compute; reflexivity|constructor]) (surjective_pairing _)) as (_ & _ & H).
  apply (H "/a" "A" (copy_row "/a" "A")); [vm_compute; reflexivity|exact Hgone].
Defined.

Lemma usage_exact_witness :
  default (0, 0) (member_usage (put_replica (copy_row "/a" "A") empty_index) !! "A") = (10, 1).
Proof.
  rewrite (usage_exact empty_index (put_replica (copy_row "/a" "A") empty_index) "A" (or_introl eq_refl)
             (rtc_once _ _ (st_put (copy_row "/a" "A") empty_index ltac:(vm_compute; discriminate)))).
  vm_compute. reflexivity.
Defined.

(** ** Drives with files on them

    A second world, in which the drives hold files under ids that are their
    paths. *)
Record fw := MkFw { fw_clock : Z; fw_ids : nat; fw_down : list string; fw_refuse : list string; fw_files : gmap (string * string) Entry }.
#[export] Instance fw_eta : Settable fw := fun w => MkFw (fw_clock w) (fw_ids w) (fw_down w) (fw_refuse w) (fw_files w).

(** What a drive that does not answer says. *)
Definition offline : gerr := sent PErrUnavailable.
Definition answering {A} (m : member) (f : fw -> res gerr A * fw) (w : fw) : res gerr A * fw :=
  if decide (m_name m ∈ fw_down w) then (Err offline, w) else f w.
Definition stat (m : member) (id : string) (w : fw) : res gerr Entry :=
  match fw_files w !! (m_name m, id) with Some e => Ok e | None => Err (sent PErrNotFound) end.
Definition store (m : member) (e : Entry) (w : fw) : fw := w <| fw_files ::= <[(m_name m, e_ID e) := e]> |>.
Definition at_place (dirid name : string) (e : Entry) : Entry :=
  MkEntry (dirid +:+ "/" +:+ name) dirid name (e_Kind e) (e_Size e) (e_ModTime e) (e_Version e) (e_Hashes e).
(** An object taken from one id and stored under another. *)
Definition shift (m : member) (id : string) (f : Entry -> Entry) : POp fw Entry := fun w =>
  match stat m id w with
  | Err e => (Err e, w)
  | Ok e => (Ok (f e), store m (f e) (w <| fw_files ::= delete (m_name m, id) |>))
  end.
Definition put (m : member) (dirid name : string) (size : Z) (h : Hashes) : POp fw Entry := fun w =>
  let e := at_place dirid name (MkEntry "" "" "" KindFile size (fw_clock w) "v1" h) in
  if decide (m_name m ∈ fw_refuse w) then (Err refusal, w) else (Ok e, store m e w).
Definition no_reads {A} (r : res gerr A * fw) : (res gerr A * list (option gerr)) * fw := ((fst r, []), snd r).
Definition children (m : member) (d : string) (w : fw) : list Entry :=
  map snd (filter (fun kv => fst (fst kv) = m_name m /\ e_ParentID (snd kv) = d) (map_to_list (fw_files w))).

#[export] Instance trial_env : Env fw := {|
  now := fw_clock; wall := fw_clock; ctx_Err := fun _ => None; isBusy := fun _ => false;
  errText := fun _ => "error"; sha1_8 := fun s => s; foldCase := fun s => s; showF3 := fun _ => "";
  showDate := fun _ => "2026-01-01";
  randF := fun w => (f0, w);
  newID := fun w => ("p-" +:+ pretty (fw_ids w), w <| fw_ids ::= S |>);
  b_List := fun m d c => answering m (fun w => (Ok (children m d w, ""), w));
  b_ListStream := fun m d w => (([], Some (sent PErrUnsupported)), w);
  b_Stat := fun m id => answering m (fun w => (stat m id w, w));
  b_Mkdir := fun m d n => answering m (fun w => let e := at_place d n (MkEntry "" "" "" KindDir 0 (fw_clock w) "" ∅) in (Ok e, store m e w));
  b_Rename := fun m id n => answering m (shift m id (fun e => at_place (e_ParentID e) n e));
  b_Move := fun m id d => answering m (shift m id (fun e => at_place d (e_Name e) e));
  b_Delete := fun m id => answering m (fun w =>
    match stat m id w with Ok _ => (Ok tt, w <| fw_files ::= delete (m_name m, id) |>) | Err e => (Err e, w) end);
  b_Copy := fun m a b c w => (Err (sent PErrUnsupported), w);
  b_Quota := fun m w => (Err (sent PErrUnsupported), w);
  b_PutFile := fun m d n src size h w => no_reads (answering m (put m d n size h) w);
  b_BeginUpload := fun m d n size h => answering m (fun w =>
    (Ok (MkSession "u-1" 4 false None (<["dir" := d]> (<["name" := n]> ∅))), w));
  b_UploadPart := fun m s i src o n w => no_reads (answering m (fun w => (Ok (MkToken i "etag"), w)) w);
  b_CompleteUpload := fun m s l => answering m (put m (default "" (Opaque s !! "dir")) (default "" (Opaque s !! "name")) 10 ∅);
  b_Changes := fun m c w => (ChangesOk [] "", w);
  os_Stat := fun p w => false; os_Remove := fun p w => w; os_MkdirAll := fun p w => (true, w);
  os_ReadDir := fun p w => None; hash_file := fun p z w => None |}.

Definition on_drive (m : member) (name : string) (size mtime : Z) (h : Hashes) : (string * string) * Entry :=
  let e := at_place ("root-" +:+ m_name m) name (MkEntry "" "" "" KindFile size mtime "v1" h) in ((m_name m, e_ID e), e).
Definition trial_world (down : list string) (files : list ((string * string) * Entry)) : fw :=
  MkFw (24 * Hour) 0 down [] (list_to_map files).
Definition trial_state (i : index) (w : fw) : pst fw := MkPst i ∅ (MkCache 0 ∅) ∅ ∅ 0 ∅ [] w.
Definition later (d : Z) (s : pst fw) : pst fw := s <| world ::= fun w => w <| fw_clock ::= Z.add d |> |>.
Definition up_again (s : pst fw) : pst fw := s <| world ::= fun w => w <| fw_down := [] |> |>.

(** A file the index knows: its entry and a confirmed copy per drive, under the
    token of its size and time. *)
Definition token (size mtime : Z) : string := timeToken (W := fw) size mtime.
Definition known_file (pth name : string) (size mtime : Z) (ms : list member) (i : index) : index :=
  let row := MkEntryRow "/" KindFile size mtime (token size mtime) "" "" "" 0 in
  foldl (fun i m => put_replica (MkReplica pth "/" (m_name m) ("root-" +:+ m_name m +:+ "/" +:+ name) "v1" size mtime "" ""
                                   (token size mtime) "live" name 0) i)
    (i <| entries ::= <[pth := row]> |>) ms.
Definition trial_pool (want : Z) (ms : list member) : Pool := demo_pool want ms.

(** ** Behaviour worth knowing *)

Ltac evaluate := repeat match goal with |- _ /\ _ => apply conj end; vm_compute; first [reflexivity|exact I].

Section OneDrive.
#[local] Instance single : Pool := trial_pool 1 [dA].
Definition offline_a : pst fw :=
  trial_state (known_file "/a" "a" 10 0 [dA] empty_index) (trial_world ["A"] [on_drive dA "a" 10 0 ∅]).

(** A delete that failed is carried out later.  With the only drive offline,
    Delete fails and the index keeps the file, but the operation is owed; once
    the drive answers again, the replay removes the file and its entry. *)
Example failed_delete_happens_later :
  let delete := PoolTree.Delete "/a" offline_a in
  let replay := ReplayOnce (later Hour (up_again (snd delete))) in
  fst delete = Err (wrap "delete" (sent PErrUnavailable)) /\
  map fst (map_to_list (entries (idx (snd delete)))) = ["/a"] /\
  map fst (map_to_list (fw_files (world (snd delete)))) = [("A", "root-A/a")] /\
  fst replay = (1, None) /\ map_to_list (entries (idx (snd replay))) = [] /\ map_to_list (fw_files (world (snd replay))) = [].
Proof. cbv zeta. evaluate. Qed.
End OneDrive.

Section TwoDrives.
#[local] Instance couple : Pool := trial_pool 1 [dA; dB].
Definition both : index := known_file "/a" "a" 10 0 [dA; dB] empty_index.
Definition offline_b : pst fw :=
  trial_state both (trial_world ["B"] [on_drive dA "a" 10 0 ∅; on_drive dB "a" 10 0 ∅]).

(** A deleted file comes back.  Delete succeeds on one drive and is owed to
    the other, which is offline.  A replay that comes before that drive answers
    takes the failed listing for "already gone" and drops the operation; when the
    drive is back, its copy is adopted and the file is there again. *)
Example deleted_file_returns :
  let delete := PoolTree.Delete "/a" offline_b in
  let replay := ReplayOnce (later Hour (snd delete)) in
  let seen := fst (PoolStat "/a" (up_again (snd replay))) in
  fst delete = Ok tt /\ length (pending_ops (idx (snd delete))) = 1%nat /\
  fst replay = (1, None) /\ length (pending_ops (idx (snd replay))) = 0%nat /\
  map fst (map_to_list (fw_files (world (snd replay)))) = [("B", "root-B/a")] /\
  match seen with Ok e => e_Name e = "a" | Err _ => False end.
Proof. cbv zeta. evaluate. Qed.

Definition last_copy : pst fw :=
  let s := trial_state (known_file "/a" "a" 10 0 [dA] empty_index) (trial_world [] [on_drive dA "a" 10 0 ∅]) in
  upd_mrt dB (fun r => r <| health ::= SetDisabled true |>) (upd_mrt dA (fun r => r <| health ::= SetDraining true |>) s).

(** A drain can delete the only copy.  With every other drive disabled the
    target of a file is capped to none, so the draining drive's copy counts as
    superfluous: DrainOnce deletes the file's only copy and reports that it is
    done. *)
Example drain_deletes_last_copy :
  let drain := DrainOnce last_copy in
  map fst (map_to_list (fw_files (world last_copy))) = [("A", "root-A/a")] /\
  fst drain = (1, true, None) /\ map fst (map_to_list (entries (idx (snd drain)))) = ["/a"] /\
  map_to_list (replicas (idx (snd drain))) = [] /\ map_to_list (fw_files (world (snd drain))) = [].
Proof. cbv zeta. evaluate. Qed.

(** The delete owed for a file that is gone drops the entry of the file that took
    its place: the new one's copy stays on its drive, out of the index. *)
Definition replaced : pst fw :=
  let i := snd (PoolTree.Delete "/a" offline_b) in
  trial_state (known_file "/a" "a" 20 (100 * Second) [dA] (idx i)) 
    (trial_world [] [on_drive dA "a" 20 (100 * Second) ∅; on_drive dB "a" 10 0 ∅]).
Example stale_delete_drops_entry :
  let s1 := snd (ReplayOnce replaced) in
  map fst (map_to_list (entries (idx replaced))) = ["/a"] /\ map_to_list (entries (idx s1)) = [] /\
  map_to_list (replicas (idx s1)) = [] /\ map fst (map_to_list (fw_files (world s1))) = [("A", "root-A/a")].
Proof. cbv zeta. evaluate. Qed.
End TwoDrives.

Section ThreeDrives.
#[local] Instance trio : Pool := trial_pool 2 [dA; dB; dC].
Definition b_refuses : pst fw :=
  trial_state (known_file "/a" "a" 10 0 [dA] empty_index) ((trial_world [] [on_drive dA "a" 10 0 ∅]) <| fw_refuse := ["B"] |>).

(** The row that stands for a member that failed counts as a copy, so a repair
    short of one copy tries one member and no other. *)
Example repair_asks_no_second_member :
  let repair := repairPath "/a" b_refuses in
  fst (candidates "/a" b_refuses) = [dA; dB; dC] /\
  fst repair = (0, Some refusal) /\ map fst (map_to_list (replicas (idx (snd repair)))) = [("/a", "A")] /\
  map_to_list (repair_queue (idx (snd repair))) = [].
Proof. cbv zeta. evaluate. Qed.
End ThreeDrives.

(** ** Names *)

Section Names.
#[local] Instance names_pool : Pool := trial_pool 1 [dA].
Definition dir_row (parent : string) : entryRow := MkEntryRow parent KindDir 0 0 "dir" "" "" "" 0.
Definition tree (top child : string) : index :=
  let sub := top +:+ "/" +:+ child in
  empty_index <| entries := {[top := dir_row "/"; sub := dir_row top]} |> <| ids := {[top := "p-1"; sub := "p-2"]} |>.
Definition renamed_with (old new child : string) : option (list string) :=
  (fun i => map fst (map_to_list (entries i))) <$> relocated KindDir old new ∅ 0 (tree old child).
Definition renamed (old new : string) : option (list string) := renamed_with old new "x".

(** A rename takes the directory's content along. *)
Example rename_takes_children : renamed "/photos" "/pics" = Some ["/pics/x"; "/pics"].
Proof. vm_compute. reflexivity. Qed.
(** One that changes only the case of a letter forgets it: the new name's stale
    rows are dropped first, by a LIKE that ignores case. *)
Example case_rename_forgets_children : renamed "/photos" "/Photos" = Some ["/Photos"].
Proof. vm_compute. reflexivity. Qed.
(** One of a name that is not ASCII misplaces it or fails: the length of the prefix
    is in bytes, the cut in characters. *)
Example accent_rename_misplaces_children :
  renamed_with "/été" "/e" "photos" = Some ["/ehotos"; "/e"] /\ renamed_with "/été" "/e" "x" = None.
Proof. vm_compute. split; reflexivity. Qed.
End Names.

(** ** The theorems apply *)

Section Applied.
#[local] Instance wit_pool : Pool := trial_pool 2 [dA; dB; dC].
Definition blank : pst fw := trial_state empty_index (trial_world [] []).
Definition opened : res gerr UploadSession * pst fw := BeginUpload None 0 "/" "a" 10 ∅ blank.
Definition session_of (r : res gerr UploadSession) : UploadSession := match r with Ok u => u | Err _ => MkSession "" 0 false None ∅ end.
Definition completed : res gerr Entry * pst fw := CompleteUpload 0 (session_of (fst opened)) [] (snd opened).

Lemma wit_names : NamesUnique.
Proof. apply (bool_decide_unpack _). vm_compute. exact I. Qed.

Lemma pool_index_typed_witness :
  exists r, replicas (idx (snd completed)) !! ("/a", "A") = Some r /\ rp_state r ∈ known_states.
Proof.
  destruct (replicas (idx (snd completed)) !! ("/a", "A")) as [r|] eqn:Hr; [|exfalso; revert Hr; vm_compute; discriminate].
  exists r. split; [reflexivity|].
  apply (proj1 (pool_index_typed blank (snd completed) eq_refl
    (rtc_l _ _ _ _ (ps_begin None 0 "/" "a" 10 ∅ blank) (rtc_once _ _ (ps_complete 0 (session_of (fst opened)) [] (snd opened))))) _ _ Hr).
Defined.

Lemma session_packed_witness :
  unpackSession (fst (packSession dB "/a" "h" (MkSession "u-7" 4 false None {["k" := "v"]}) blank))
  = Ok (dB, "/a", "h", MkSession "u-7" 4 false None {["k" := "v"]}).
Proof.
  apply (session_packed dB "/a" "h" (MkSession "u-7" 4 false None {["k" := "v"]}) blank wit_names); [|reflexivity..].
  apply list_elem_of_In. right. left. reflexivity.
Defined.

Definition put_at_b : Entry := MkEntry "root-B/a" "root-B" "a" KindFile 20 (100 * Second) "v2" ∅.
Definition old_on_a : pst fw := trial_state (known_file "/a" "a" 10 0 [dA] empty_index) (trial_world [] []).
Definition committed : res gerr Entry * pst fw := finishUpload dB "/a" put_at_b "" old_on_a.
Definition committed_entry : Entry := MkEntry "p-0" "p-root" "a" KindFile 20 (100 * Second) (token 20 (100 * Second)) ∅.
Lemma upload_commits_witness :
  replicas (idx (snd committed)) !! ("/a", "A") <> None /\
  forall r, r ∈ replicasOf "/a" "" (snd committed) -> rp_ctoken r = token 20 (100 * Second).
Proof.
  split; [vm_compute; discriminate|].
  assert (Hc : fst committed = Ok committed_entry) by (vm_compute; reflexivity).
  apply (proj1 (proj2 (proj2 (proj2 (upload_commits dB "/a" put_at_b "" old_on_a committed_entry (snd committed)
    ltac:(apply KeyOK_check; vm_compute; reflexivity) ltac:(discriminate) ltac:(rewrite <- Hc; apply surjective_pairing)))))).
Defined.

Definition remove_on (tg : target) : M fw (res gerr unit) := call (b_Delete (tg_m tg) (tg_id tg)).
Definition two_targets : list target := [MkTarget dA "root-A/a"; MkTarget dB "root-B/a"].
Lemma fanout_owes_witness :
  let out := fanout "delete" "/a" ∅ remove_on two_targets (later Hour offline_b) in
  fst (fst (fst out)) = 1 /\ exists tg, tg ∈ two_targets /\ owed "delete" "/a" ∅ tg (snd out).
Proof.
  assert (H1 : fst (fst (fst (fanout "delete" "/a" ∅ remove_on two_targets (later Hour offline_b)))) = 1) by (vm_compute; reflexivity).
  split; [exact H1|].
  destruct (fanout_owes "delete" "/a" ∅ remove_on two_targets (later Hour offline_b) _ _ _ _
    ltac:(intros tg s o Ho; unfold remove_on, call; destruct (b_Delete _ _ _); exact Ho)
    (eq_trans (surjective_pairing _) (f_equal (fun x => (x, _)) (eq_trans (surjective_pairing _) (f_equal (fun x => (x, _)) (surjective_pairing _))))))
    as (vs & _ & Hm & Hn & Ho & _).
  rewrite H1 in Hn. destruct vs as [|v1 [|v2 [|]]]; try discriminate Hm. injection Hm as E1 E2.
  rewrite Forall_cons, Forall_singleton in Ho. destruct Ho as [O1 O2]. destruct (did v1) eqn:D1.
  - destruct (did v2) eqn:D2; [exfalso; unfold dones in Hn; rewrite !filter_cons, D1, D2 in Hn; discriminate Hn|].
    exists (fst v2). split; [rewrite E2; right; left|exact (O2 eq_refl)].
  - exists (fst v1). split; [rewrite E1; left|exact (O1 eq_refl)].
Defined.

Definition delete_op_b : opRow := MkOpRow 1 "B" "delete" "/a" "/" {["ctoken" := token 10 0]} 0 0 "" "pending" 0.
Definition edited_on_b : pst fw := trial_state empty_index (trial_world [] [on_drive dB "a" 20 (100 * Second) ∅]).
Definition b_root_known : pst fw := snd (dirID dB "/" edited_on_b).
Definition b_listed : pst fw := snd (findChild dB "root-B" "a" b_root_known).
Lemma replayed_delete_spares_witness : world (snd (replayDelete dB delete_op_b edited_on_b)) = world b_listed.
Proof.
  refine (proj1 (proj1 (replayed_delete_spares dB delete_op_b edited_on_b "root-B" b_root_known
    (snd (on_drive dB "a" 20 (100 * Second) ∅)) b_listed _ _
    ltac:(apply KeyOK_check; vm_compute; reflexivity) ltac:(vm_compute; reflexivity) ltac:(vm_compute; reflexivity) (surjective_pairing _)) _)).
  intros Hc%changed_spec. revert Hc. vm_compute. discriminate.
Defined.

Lemma candidates_follow_rules_witness :
  NoDup (fst (candidates "/a" old_on_a)) /\ fst (candidates "/a" old_on_a) = [dA; dB; dC].
Proof.
  split; [|vm_compute; reflexivity].
  apply (candidates_follow_rules "/a" old_on_a _ (snd (candidates "/a" old_on_a)) wit_names (surjective_pairing _)).
Defined.

Definition commit_index : index := known_file "/a" "a" 10 0 [dA; dB] empty_index.
Definition after_commit : pst fw := (blank <| idx := commit_index |>) <| cache ::= invalidate |>.
Lemma cache_is_transparent_witness :
  exists v, fst (resolveFile "/a" "" after_commit) = Ok v /\ rv_reps v ≡ₚ replicasOf "/a" (token 10 0) after_commit.
Proof.
  destruct (resolveFile "/a" "" after_commit) as [[v|e] s'] eqn:Hr; [|exfalso; revert Hr; vm_compute; discriminate].
  exists v. split; [reflexivity|].
  destruct (cache_is_transparent blank after_commit [] "/a" "" v s' eq_refl
    (rtc_l _ _ _ _ (cs_commit blank 0 [] commit_index) (rtc_once _ _ (cs_invalidate _ 0 []))) Hr) as [(H1 & H2 & _ & _ & H5) _].
  revert H1 H2 H5.
  assert (Hp : fst (pathOf "/a" after_commit) = Ok "/a") by (vm_compute; reflexivity). rewrite Hp. intros [= <-].
  assert (He : option_map en_ctoken (entryAt "/a" (idx after_commit)) = Some (token 10 0)) by (vm_compute; reflexivity).
  intros H2. rewrite H2 in He. simpl in He. injection He as ->. exact (fun H => H).
Defined.
End Applied.

Section Held.
#[local] Instance small_pool : Pool :=
  MkPool "p" (MkSettings 2 1 Hour Minute 0 100 Hour 1 [] "relaxed" 0 0 f0 (MkRebalance f0 None 0 0)) [dA] "/state" fanoutAuto.
Definition three_holds : index := empty_index <| holds :=
  <["h1" := MkHoldRow "/a" "" 60 (24 * Hour)]> (<["h2" := MkHoldRow "/b" "" 60 (23 * Hour + Minute)]> {["h3" := MkHoldRow "/c" "" 10 0]}) |>.
Definition held : pst fw := trial_state three_holds (trial_world [] []).
Lemma holds_bounded_witness :
  HoldsBytes (snd (trimHolds held)) <= 100 /\ is_Some (holds (idx (snd (trimHolds held))) !! "h1").
Proof.
  split; [|vm_compute; by eexists].
  apply (proj1 (holds_bounded held ltac:(apply (bool_decide_unpack _); vm_compute; exact I))). vm_compute. reflexivity.
Defined.
End Held.

Section Waiting.
(** Two drives that allow one stream of a file at a time. *)
Definition shy (n : string) : member := MkMember n "/" f1 0 0 [] n 4 true demo_caps ("root-" +:+ n).
#[local] Instance one_stream : Pool := MkPool "p" (demo_settings 1) [shy "U"; shy "V"] "" fanoutAuto.
Definition shy_reps : list replicaRow := [copy_row "/a" "U"; copy_row "/a" "V"].
Definition idle : pst dw := demo_state (demo_index "/a" ["U"; "V"]) [].
Definition cand (n : string) : candidate := MkCandidate (shy n) (copy_row "/a" n) false.
Definition one_busy : pst dw := reserve (cand "U") idle.
Definition both_busy : pst dw := reserve (cand "V") one_busy.
Definition both_leases : list (member * replicaRow) := [(shy "V", copy_row "/a" "V"); (shy "U", copy_row "/a" "U")].
(** Both drives stream the file, and a third reader waits. *)
Definition waiting : pst dw := snd (pickLocked shy_reps both_busy).
Lemma pick_wait_is_woken_witness :
  streamed "/a" both_leases /\ 0%nat ∉ closedChans waiting /\
  0%nat ∈ closedChans (snd (lease_done (shy "U") (copy_row "/a" "U") None waiting)).
Proof.
  assert (Hw : pickLocked shy_reps both_busy = (Wait 0, waiting)) by (vm_compute; reflexivity).
  assert (H1 : pickLocked shy_reps idle = (Answer (cand "U"), idle)) by (vm_compute; reflexivity).
  assert (H2 : pickLocked shy_reps one_busy = (Answer (cand "V"), one_busy)) by (vm_compute; reflexivity).
  assert (Hp : Forall (fun r => rp_path r = "/a") shy_reps) by (constructor; [reflexivity|constructor; [reflexivity|constructor]]).
  assert (Hr : rtc lease_step (MkLsys idle [] []) (MkLsys waiting both_leases [("/a", 0%nat)])).
  { eapply rtc_l; [exact (ls_pick idle [] [] shy_reps (cand "U") idle H1)|].
    eapply rtc_l; [exact (ls_pick one_busy _ [] shy_reps (cand "V") one_busy H2)|].
    apply rtc_once. exact (ls_wait both_busy _ [] shy_reps "/a" 0 waiting Hp Hw). }
  assert (Hi : forall m, inflight (mrt_of idle m) = 0) by (intros m; reflexivity).
  destruct (pick_wait_is_woken idle waiting both_leases _ shy_reps "/a" Hi eq_refl eq_refl eq_refl Hr Hp) as (_ & _ & H3 & H4 & H5 & _).
  assert (Hn : 0%nat ∉ closedChans waiting) by (apply (H5 "/a"); vm_compute; reflexivity).
  apply conj; [|apply conj].
  - destruct (H3 "/a" 0%nat) as [Hc|[_ Hs]]; [by left|exact (False_ind _ (Hn Hc))|exact Hs].
  - exact Hn.
  - apply (H4 (shy "U") (copy_row "/a" "U") None); [right; left|reflexivity|left].
Defined.
End Waiting.
