(* ===== verification/MetaState.v ===== *)
(** * The metadata store's data (internal/meta: schema.go, store.go)

    The tables of the metadata database as finite maps keyed by their primary
    keys, with the unique index, the AUTOINCREMENT sequence and the triggers of
    schema.go as part of the statements; the in-memory negative cache; and the
    transactions and operations that run on them.  A statement fails only where
    the unique index on (parent, name) refuses it.  Times are nanoseconds. *)
From S2P Require Import Prelude GoLib Retry.
From Stdlib Require Import Ascii.
Open Scope Z_scope.

(** strings.ToLower, over Unicode's tables *)
Class Fold := { ToLower : string -> string }.

Definition RootIno : Z := 1.
Definition Second : Z := 1000000000.

(** ** Errors *)

Inductive merr :=
| ErrNotFound | ErrExists | ErrListingChanged | ErrNodeChanged
| ErrCopyTargetChanged | ErrCopyReferenced | ErrLocalVersionChanged
| SkipDir                         (* returned by a WalkSubtree visit *)
| ErrNoRows                       (* sql.ErrNoRows *)
| ErrConstraint                   (* UNIQUE constraint failed *)
| ErrDiverges                     (* a recursion that does not end *)
| ErrText (what : string).
#[export] Instance merr_eq_dec : EqDecision merr.
Proof. solve_decision. Defined.

(** ** Nodes and rows *)

Record Node := MkNode {
  Ino : Z; ParentIno : Z; Name : string; NKind : Kind; Size : Z; MTime : Z; Mode : Z;
  Remote : string; RemoteID : string; Version : string; RemoteVersion : string;
  HashType : string; Hash : string; FetchedAt : Z; TTL : Z; Dirty : bool
}.
#[export] Instance Node_eta : Settable Node := fun n =>
  MkNode (Ino n) (ParentIno n) (Name n) (NKind n) (Size n) (MTime n) (Mode n) (Remote n) (RemoteID n)
    (Version n) (RemoteVersion n) (HashType n) (Hash n) (FetchedAt n) (TTL n) (Dirty n).
#[export] Instance Node_eq_dec : EqDecision Node.
Proof. solve_decision. Defined.

Definition no_node : Node := MkNode 0 0 "" KindFile 0 zero_time 0 "" "" "" "" "" "" zero_time 0 false.

Definition IsDir (n : Node) : bool := bool_decide (NKind n = KindDir).

(** time.Time.Sub saturates. *)
Definition tsub (a b : Z) : Z := Z.max (- 2 ^ 63) (Z.min (2 ^ 63 - 1) (a - b)).

Definition Fresh (n : Node) (now : Z) : bool :=
  bool_decide (0 < TTL n) && bool_decide (tsub now (FetchedAt n) < TTL n).

(** One row of [nodes]; the key is the inode. *)
Record Row := MkRow {
  r_parent : Z; r_name : string; r_kind : Kind; r_size : Z; r_mtime : Z; r_mode : Z;
  r_remote : string; r_remote_id : string; r_version : string; r_remote_version : string;
  r_hash_type : string; r_hash : string; r_fetched : Z; r_ttl : Z; r_dirty : bool; r_applied : Z
}.
#[export] Instance Row_eta : Settable Row := fun r =>
  MkRow (r_parent r) (r_name r) (r_kind r) (r_size r) (r_mtime r) (r_mode r) (r_remote r) (r_remote_id r)
    (r_version r) (r_remote_version r) (r_hash_type r) (r_hash r) (r_fetched r) (r_ttl r) (r_dirty r) (r_applied r).
#[export] Instance Row_eq_dec : EqDecision Row.
Proof. solve_decision. Defined.

Definition UnixNano (t : Z) : Z := wrap64 t.
Definition Unix (t : Z) : Z := t / Second.
(** int64(d.Seconds()): the quotient; the float64 in between is exact below
    2^22 seconds. *)
Definition ttl_s (d : Z) : Z := Z.quot d Second.

(** The values a statement binds for a node. *)
Definition bind_row (n : Node) : Row :=
  MkRow (ParentIno n) (Name n) (NKind n) (Size n) (UnixNano (MTime n)) (Mode n) (Remote n) (RemoteID n)
    (Version n) (RemoteVersion n) (HashType n) (Hash n) (Unix (FetchedAt n)) (ttl_s (TTL n)) (Dirty n) 0.

Definition scanNode (ino : Z) (r : Row) : Node :=
  MkNode ino (r_parent r) (r_name r) (r_kind r) (r_size r) (r_mtime r) (r_mode r) (r_remote r) (r_remote_id r)
    (r_version r) (r_remote_version r) (r_hash_type r) (r_hash r) (r_fetched r * Second)
    (wrap64 (r_ttl r * Second)) (r_dirty r).

Definition fillMode (n : Node) : Node :=
  if decide (Mode n <> 0) then n
  else if IsDir n then n <| Mode := 493 |> else n <| Mode := 420 |>.

(** ** The database *)

Record DirRow := MkDir { complete : bool; listed_at : Z; cursor : string; d_dirty : bool }.
Record Gen := MkGen { generation : Z; stale_generation : Z }.
#[export] Instance Gen_eta : Settable Gen := fun g => MkGen (generation g) (stale_generation g).
Record PinRow := MkPinRow { p_recursive : bool; p_mode : string }.
Record CursorRow := MkCursorRow { delta_cursor : string; updated_at : Z }.

Record DB := MkDB {
  nodes : gmap Z Row; seq : Z;                     (* sqlite_sequence *)
  dir_state : gmap Z DirRow;
  refresh : gmap Z Gen;                            (* directory_refresh_generation *)
  pins : gmap string PinRow;
  remote_cursor : gmap string CursorRow;
  name_index : gmap Z string;                      (* rowid to name *)
  name_indexed : gmap Z string;
  name_index_pending : gmap Z string;
  short_name_index : gmap Z string;                (* rowid to terms *)
  copy_bindings : gmap string Z;
  store_identity : string;
  copy_cleanup_fence : bool
}.
#[export] Instance DB_eta : Settable DB := fun d =>
  MkDB (nodes d) (seq d) (dir_state d) (refresh d) (pins d) (remote_cursor d) (name_index d) (name_indexed d)
    (name_index_pending d) (short_name_index d) (copy_bindings d) (store_identity d) (copy_cleanup_fence d).

(** The process: its database, negative cache (deadlines) and clock. *)
Record Store := MkStore { db : DB; absent : gmap (Z * string) Z; now : Z }.
#[export] Instance Store_eta : Settable Store := fun s => MkStore (db s) (absent s) (now s).

(** ** SELECT *)

(** Rows in the order of the unique index and of the primary key. *)
Definition by_name (a b : Z * Row) : bool := String.ltb (r_name (snd a)) (r_name (snd b)).
Definition by_ino (a b : Z * Row) : bool := bool_decide (fst a < fst b).

Definition select (P : Z -> Row -> bool) (d : DB) : list (Z * Row) :=
  filter (fun kv => P (fst kv) (snd kv) = true) (map_to_list (nodes d)).

Definition is_child (dir ino : Z) (r : Row) : bool := bool_decide (r_parent r = dir /\ ino <> RootIno).

(** WHERE parent_ino = ? AND ino != 1 ORDER BY name *)
Definition children (d : DB) (dir : Z) : list (Z * Row) := stable_sort by_name (select (is_child dir) d).

(** WHERE parent_ino = ? AND name = ?: at most one row. *)
Definition entry_at (d : DB) (dir : Z) (name : string) : option (Z * Row) :=
  head (select (fun _ r => bool_decide (r_parent r = dir /\ r_name r = name)) d).

(** WITH RECURSIVE subtree: the rows below a set of inodes.  [skip] is the
    condition [n.ino != 1]. *)
Definition kids_of (skip : bool) (d : DB) (S : gset Z) : gset Z :=
  list_to_set (map fst (select (fun i r => bool_decide (r_parent r ∈ S) && negb (skip && bool_decide (i = RootIno))) d)).
Fixpoint closure (n : nat) (skip : bool) (d : DB) (S : gset Z) : gset Z :=
  match n with O => S | Datatypes.S n' => closure n' skip d (S ∪ kids_of skip d S) end.
Definition closed_below (skip : bool) (d : DB) (S : gset Z) : gset Z := closure (size (nodes d)) skip d S.
Definition subtree (d : DB) (ino : Z) : gset Z := closed_below true d {[ino]}.
Definition below (d : DB) (ino : Z) : gset Z := closed_below true d (kids_of true d {[ino]}).

(** ** Search terms (search_functions.go) *)

Fixpoint hex_string (s : string) : string :=
  match s with
  | EmptyString => ""
  | String c s' =>
      let digit n := default c (String.get n "0123456789abcdef") in
      let n := nat_of_ascii c in String (digit (n / 16)%nat) (String (digit (n mod 16)%nat) (hex_string s'))
  end.
Definition shortNameToken (s : string) : string := "x" +:+ hex_string s.

Section Statements.
Context {F : Fold}.

Definition short_terms (name : string) : list string :=
  let l := runes (ToLower name) in
  foldl (fun terms i =>
           foldl (fun terms n =>
                    let t := shortNameToken (encode_runes (take n (drop i l))) in
                    if decide (i + n <= length l /\ t ∉ terms)%nat then terms ++ [t] else terms)
             terms [1; 2]%nat)
    [] (List.seq 0 (length l)).
Definition shortNameTerms (name : string) : string := String.concat " " (short_terms name).

(** ** INSERT, UPDATE and DELETE on nodes, with the triggers of schema v8 and v9 *)

Definition queue_name (ino : Z) (name : string) (d : DB) : DB :=
  (d <| short_name_index ::= <[ino := shortNameTerms name]> |>) <| name_index_pending ::= <[ino := name]> |>.

Definition insert_row (r : Row) : Tx DB merr Z := fun d =>
  match entry_at d (r_parent r) (r_name r) with
  | Some _ => Err ErrConstraint
  | None =>
      let ino := seq d + 1 in
      Ok (ino, queue_name ino (r_name r) ((d <| nodes ::= <[ino := r]> |>) <| seq := ino |>))
  end.

(** An UPDATE of other columns than parent and name; the rows affected. *)
Definition update_row (ino : Z) (f : Row -> Row) (d : DB) : DB := d <| nodes ::= alter f ino |>.
Definition update_rows (P : Z -> Row -> bool) (f : Row -> Row) (d : DB) : DB :=
  d <| nodes ::= map_imap (fun i r => Some (if P i r then f r else r)) |>.

(** UPDATE nodes SET parent_ino = ?, name = ? WHERE ino = ? *)
Definition move_row (ino parent : Z) (name : string) : Tx DB merr unit := fun d =>
  match nodes d !! ino with
  | None => Ok (tt, d)
  | Some r =>
      match entry_at d parent name with
      | Some (k, _) =>
          if decide (k = ino) then Ok (tt, d) else Err ErrConstraint
      | None =>
          let d' := update_row ino (fun r => (r <| r_parent := parent |>) <| r_name := name |>) d in
          Ok (tt, if decide (name <> r_name r /\ ino <> RootIno) then queue_name ino name d' else d')
      end
  end.

(** DELETE FROM nodes WHERE ino = ? *)
Definition delete_row (ino : Z) (d : DB) : DB :=
  match nodes d !! ino with
  | None => d
  | Some _ =>
      let d := (d <| nodes ::= delete ino |>) <| refresh ::= delete ino |> in
      if decide (ino = RootIno) then d
      else (d <| short_name_index ::= delete ino |>) <| name_index_pending ::= delete ino |>
  end.

(** The other tables' rows of an inode. *)
Definition forget_ino (ino : Z) (d : DB) : DB :=
  (((d <| dir_state ::= delete ino |>) <| name_index ::= delete ino |>)
     <| name_indexed ::= delete ino |>) <| name_index_pending ::= delete ino |>.

(** DELETE ... WHERE ino IN (subtree), for each table. *)
Definition delete_set (S : gset Z) (d : DB) : DB :=
  foldl (fun d i => delete_row i d) (foldl (fun d i => forget_ino i d) d (elements S)) (elements S).

(** INSERT OR IGNORE INTO dir_state (ino) VALUES (?) *)
Definition ensure_dir (ino : Z) (d : DB) : DB :=
  match dir_state d !! ino with
  | Some _ => d
  | None => d <| dir_state ::= <[ino := MkDir false 0 "" false]> |>
  end.
End Statements.

(** ** Transactions *)

(** [s.tx] and [s.durableTx]: BEGIN, the callback, COMMIT or ROLLBACK.  The two
    differ in what a power failure can undo. *)
Definition tx {A} (body : Tx DB merr A) : Op Store merr A := fun s =>
  match body (db s) with
  | Ok (a, d) => (Ok a, s <| db := d |>)
  | Err e => (Err e, s)
  end.
Definition durableTx {A} (body : Tx DB merr A) : Op Store merr A := tx body.

(** A query outside a transaction. *)
Definition query {A} (f : DB -> res merr A) : Op Store merr A := fun s => (f (db s), s).

Definition treads {A} (f : DB -> A) : Tx DB merr A := fun d => Ok (f d, d).

(** ** A new database (store.go: migrate, ensureRoot) *)

Definition root_row (t : Z) : Row :=
  MkRow RootIno "" KindDir 0 (UnixNano t) 493 "" "" "" "" "" "" (Unix t) (365 * 24 * 3600) false 0.

Definition empty_db (identity : string) : DB :=
  MkDB ∅ 0 ∅ ∅ ∅ ∅ ∅ ∅ ∅ ∅ ∅ identity false.
Definition ensureRoot (t : Z) (d : DB) : DB :=
  match nodes d !! RootIno with
  | Some _ => d
  | None =>
      ((d <| nodes ::= <[RootIno := root_row t]> |>) <| seq ::= Z.max RootIno |>)
        <| dir_state ::= <[RootIno := MkDir false 0 "" false]> |>
  end.
Definition Open (identity : string) (t : Z) : Store :=
  MkStore (ensureRoot t (empty_db identity)) ∅ t.
