(* ===== verification/MetaTree.v ===== *)
(** * Reading and changing the metadata tree (internal/meta: store.go,
    listing_fence.go, indexer.go)

    Point queries and paths, inserting, updating, removing and moving nodes,
    the listing fences, the negative cache, cursors, pins, counters and the
    name index.  Directory listings are in MetaListing. *)
From S2P Require Import Prelude Filepath GoLib SqlText Retry MetaState.
Open Scope Z_scope.

(** Run a statement for each element of a list. *)
Definition tforeach {S E A} (f : A -> Tx S E unit) (l : list A) : Tx S E unit :=
  foldr (fun x m => do! f x; m) (tret tt) l.

(** ** Reading *)

Definition node_of (kv : Z * Row) : Node := scanNode (fst kv) (snd kv).
Definition get (d : DB) (ino : Z) : res merr Node :=
  match nodes d !! ino with Some r => Ok (scanNode ino r) | None => Err ErrNotFound end.
Definition lookup_child (d : DB) (parent : Z) (name : string) : res merr Node :=
  match entry_at d parent name with
  | Some (i, r) => if decide (i = RootIno) then Err ErrNotFound else Ok (scanNode i r)
  | None => Err ErrNotFound
  end.

Definition Get (ino : Z) : Op Store merr Node := query (fun d => get d ino).
Definition Lookup (parent : Z) (name : string) : Op Store merr Node := query (fun d => lookup_child d parent name).

(** The index on (remote, remote_id) ends in the rowid. *)
Definition aliases (d : DB) (remote remoteID : string) : list Node :=
  map node_of (stable_sort by_ino
    (select (fun _ r => bool_decide (r_remote r = remote /\ r_remote_id r = remoteID)) d)).
Definition ByRemoteID (remote remoteID : string) : Op Store merr Node :=
  query (fun d => match aliases d remote remoteID with n :: _ => Ok n | [] => Err ErrNotFound end).
Definition Aliases (remote remoteID : string) : Op Store merr (list Node) :=
  query (fun d => Ok (aliases d remote remoteID)).
Definition Children (dir : Z) : Op Store merr (list Node) :=
  query (fun d => Ok (map node_of (children d dir))).

(** type DirState, as the API returns it *)
Record DirState := MkDirState { ds_Complete : bool; ds_ListedAt : Z; ds_Cursor : string; ds_Dirty : bool }.
Definition DirFresh (ds : DirState) (now ttl : Z) : bool :=
  ds_Complete ds && bool_decide (0 < ttl) && bool_decide (tsub now (ds_ListedAt ds) < ttl).
Definition DirStateOf (dir : Z) : Op Store merr DirState :=
  query (fun d => Ok match dir_state d !! dir with
                     | None => MkDirState false zero_time "" false
                     | Some r => MkDirState (complete r) (listed_at r * Second) (cursor r) (d_dirty r)
                     end).

(** The rows of the recursive query of [Path]: the node and its ancestors. *)
Fixpoint up (n : nat) (d : DB) (ino : Z) (r : Row) : list (Z * Row) :=
  (ino, r) ::
  match n with
  | O => []
  | S n' => if decide (ino <> RootIno /\ r_parent r <> ino) then
              match nodes d !! r_parent r with Some r' => up n' d (r_parent r) r' | None => [] end
            else []
  end.

(** The loop over those rows: the names from the node up, and whether the walk
    reached the top. *)
Fixpoint path_parts (l : list (Z * Row)) : list string * bool :=
  match l with
  | [] => ([], false)
  | (cur, r) :: l' =>
      if decide (cur = RootIno) then ([], true)
      else if decide (r_parent r = cur) then ([r_name r], true)
      else let '(parts, ok) := path_parts l' in (r_name r :: parts, ok)
  end.

Definition path_depth : nat := 512.
Definition path_of (d : DB) (ino : Z) : res merr string :=
  if decide (ino = RootIno) then Ok "/" else
  match nodes d !! ino with
  | None => Err ErrNotFound
  | Some r =>
      let '(parts, reachedRoot) := path_parts (up path_depth d ino r) in
      if reachedRoot then Ok ("/" +:+ Filepath.joined (rev parts)) else Err ErrNotFound
  end.
Definition Path (ino : Z) : Op Store merr string := query (fun d => path_of d ino).

(** strings.Split(strings.Trim(path.Clean("/"+p), "/"), "/"): a cleaned rooted
    path has one slash in front and none behind. *)
Definition resolve_segments (p : string) : list string :=
  Filepath.split (trimPrefix (Filepath.Clean ("/" +:+ p)) "/").
Fixpoint resolve_from (d : DB) (cur : Node) (segs : list string) : res merr Node :=
  match segs with
  | [] => Ok cur
  | seg :: rest =>
      if decide (seg = "") then resolve_from d cur rest
      else match lookup_child d (Ino cur) seg with
           | Ok n => resolve_from d n rest
           | Err e => Err e
           end
  end.
Definition Resolve (p : string) : Op Store merr Node :=
  query (fun d => match get d RootIno with
                  | Ok root => resolve_from d root (resolve_segments p)
                  | Err e => Err e
                  end).

(** ** The negative cache *)

Definition defaultNegativeTTL : Z := 5 * Second.

Definition markAbsent (parent : Z) (name : string) (ttl : Z) : Op Store merr unit := omodify (fun s =>
  let live := if decide (65536 < Z.of_nat (size (absent s)))
              then filter (fun kv => now s < snd kv) (absent s) else absent s in
  s <| absent := <[(parent, name) := now s + ttl]> live |>).
Definition clearAbsent (parent : Z) (name : string) : Op Store merr unit :=
  omodify (fun s => s <| absent ::= delete (parent, name) |>).

Definition MarkAbsent (parent : Z) (name : string) (ttl : Z) : Op Store merr unit :=
  markAbsent parent name (if decide (ttl <= 0) then defaultNegativeTTL else ttl).
Definition IsAbsent (parent : Z) (name : string) : Op Store merr bool := fun s =>
  match absent s !! (parent, name) with
  | None => (Ok false, s)
  | Some until =>
      if decide (now s < until) then (Ok true, s)
      else (Ok false, s <| absent ::= delete (parent, name) |>)
  end.
Definition ClearAbsent (parent : Z) : Op Store merr unit :=
  omodify (fun s => s <| absent ::= filter (fun kv => fst (fst kv) <> parent) |>).
Definition absentCount (s : Store) : Z :=
  Z.of_nat (size (filter (fun kv => now s < snd kv) (absent s))).

(** ** Listing fences (listing_fence.go) *)

Definition bumpListingCounters (f : Gen -> Gen) (dirs : list Z) : Tx DB merr unit :=
  tforeach (fun dir => tmodify (fun d => d <| refresh ::= alter f dir |>)) (remove_dups dirs).
Definition fenceDirListingTx (dirs : list Z) : Tx DB merr unit :=
  bumpListingCounters (fun g => g <| generation ::= Z.add 1 |>) dirs.
Definition markDirStaleTx (dirs : list Z) : Tx DB merr unit :=
  bumpListingCounters (fun g => g <| stale_generation ::= Z.add 1 |>) dirs.

Definition Invalidate (dir : Z) : Op Store merr unit :=
  tx (do! markDirStaleTx [dir];
      tmodify (fun d => d <| dir_state ::= alter (fun r => MkDir false (listed_at r) (cursor r) true) dir |>)).
Definition InvalidateAll : Op Store merr unit :=
  do* omodify (fun s => s <| absent := ∅ |>);
  tx (tmodify (fun d =>
        (d <| dir_state ::= fmap (fun r => MkDir false (listed_at r) (cursor r) true) |>)
           <| refresh ::= fmap (fun g => g <| stale_generation ::= Z.add 1 |>) |>)).

(** ** Writing nodes *)

Section Tree.
Context {F : Fold}.

(** The columns an UPDATE by name sets. *)
Definition set_content (r' r : Row) : Row :=
  MkRow (r_parent r) (r_name r) (r_kind r') (r_size r') (r_mtime r') (r_mode r') (r_remote r') (r_remote_id r')
    (r_version r') (r_remote_version r') (r_hash_type r') (r_hash r') (r_fetched r') (r_ttl r') (r_dirty r')
    (r_applied r).

Definition with_fetched (t : Z) (n : Node) : Node :=
  if decide (FetchedAt n = zero_time) then n <| FetchedAt := t |> else n.

Definition upsertNodeTx (t : Z) (n : Node) : Tx DB merr Z := fun d =>
  let n := fillMode (with_fetched t n) in
  match entry_at d (ParentIno n) (Name n) with
  | Some (existing, _) => Ok (existing, update_row existing (set_content (bind_row n)) d)
  | None =>
      (let! ino := insert_row (bind_row n) in
       do! tmodify (if IsDir n then ensure_dir ino else id);
       tret ino) d
  end.

Definition Upsert (n : Node) : Op Store merr Node :=
  let* t := (fun s => (Ok (now s), s)) in
  let* ino := tx (upsertNodeTx t n) in
  do* clearAbsent (ParentIno n) (Name n);
  oret (with_fetched t (n <| Ino := ino |>)).

Definition Insert (n : Node) : Op Store merr Node :=
  let* t := (fun s => (Ok (now s), s)) in
  let* ino := tx (fun d => match entry_at d (ParentIno n) (Name n) with
                           | Some _ => Err ErrExists
                           | None => upsertNodeTx t n d
                           end) in
  do* clearAbsent (ParentIno n) (Name n);
  oret (with_fetched t (n <| Ino := ino |>)).

(** indexNameTx *)
Definition indexNameTx (ino : Z) (name : string) : Tx DB merr unit := tmodify (fun d =>
  ((d <| name_index ::= <[ino := name]> |>) <| name_indexed ::= <[ino := name]> |>)
    <| name_index_pending ::= delete ino |>).

(** updateNodeSQL *)
Definition set_remote (r' r : Row) : Row :=
  MkRow (r_parent r) (r_name r) (r_kind r) (r_size r') (r_mtime r') (r_mode r) (r_remote r') (r_remote_id r')
    (r_version r') (r_remote_version r') (r_hash_type r') (r_hash r') (r_fetched r') (r_ttl r') (r_dirty r')
    (r_applied r).

Definition affected (b : bool) : Op Store merr unit := if b then oret tt else ofail ErrNotFound.

Definition updateByIno (n : Node) : Op Store merr unit :=
  let* t := (fun s => (Ok (now s), s)) in
  let* hit := tx (fun d => Ok (bool_decide (is_Some (nodes d !! Ino n)),
                               update_row (Ino n) (set_remote (bind_row (with_fetched t n))) d)) in
  affected hit.
Definition UpdateByIno (n : Node) : Op Store merr unit := updateByIno n.
Definition PublishByIno (n : Node) : Op Store merr unit := updateByIno n.

Definition AdoptByIno (n : Node) (expect : string) : Op Store merr bool :=
  let* t := (fun s => (Ok (now s), s)) in
  tx (fun d => match nodes d !! Ino n with
               | Some r => if decide (r_remote_id r = expect)
                           then Ok (true, update_row (Ino n) (set_remote (bind_row (with_fetched t n))) d)
                           else Ok (false, d)
               | None => Ok (false, d)
               end).

Definition SetRemoteVersion (ino : Z) (version : string) : Op Store merr unit :=
  let* hit := tx (fun d => Ok (bool_decide (is_Some (nodes d !! ino)),
                               update_row ino (fun r => r <| r_remote_version := version |>) d)) in
  affected hit.

Definition Touch (ino : Z) : Op Store merr unit :=
  let* t := (fun s => (Ok (now s), s)) in
  tx (tmodify (update_row ino (fun r => r <| r_fetched := Unix t |>))).

(** ** Removing and moving *)

Fixpoint removeSubtree (n : nat) (ino : Z) : Tx DB merr unit :=
  match n with
  | O => tfail ErrDiverges
  | S n' => let! kids := treads (fun d => map fst (children d ino)) in
            do! tforeach (removeSubtree n') kids;
            tmodify (fun d => forget_ino ino (delete_row ino d))
  end.
(** The recursion goes no deeper than there are nodes, unless it does not end. *)
Definition removeSubtreeTx (ino : Z) : Tx DB merr unit := fun d =>
  removeSubtree (S (size (nodes d))) ino d.

Definition row_at (ino : Z) : Tx DB merr Row := fun d =>
  match nodes d !! ino with Some r => Ok (r, d) | None => Err ErrNotFound end.

Definition Remove (ino : Z) : Op Store merr unit :=
  if decide (ino = RootIno) then ofail (ErrText "meta: cannot remove the root") else
  let* r := tx (let! r := row_at ino in
                do! fenceDirListingTx [r_parent r];
                do! removeSubtreeTx ino;
                tret r) in
  markAbsent (r_parent r) (r_name r) defaultNegativeTTL.

(** The row before the move carries [oldParent] and [oldName]. *)
Definition renameTx (ino newParent : Z) (newName : string) : Tx DB merr Row :=
  let! r := row_at ino in
  do! (if decide (r_parent r <> newParent \/ r_name r <> newName)
       then fenceDirListingTx [r_parent r; newParent] else tret tt);
  let! victim := treads (fun d => entry_at d newParent newName) in
  do! (match victim with
       | Some (v, _) => if decide (v = ino) then tret tt else removeSubtreeTx v
       | None => tret tt
       end);
  do! move_row ino newParent newName;
  do! indexNameTx ino newName;
  tret r.

Definition moved_absent (r : Row) (newParent : Z) (newName : string) : Op Store merr unit :=
  do* clearAbsent newParent newName;
  markAbsent (r_parent r) (r_name r) defaultNegativeTTL.

Definition Rename (ino newParent : Z) (newName : string) : Op Store merr unit :=
  if decide (ino = RootIno) then ofail (ErrText "meta: cannot rename the root") else
  let* r := tx (renameTx ino newParent newName) in
  moved_absent r newParent newName.

(** ** Backend ids (retarget.go) *)

(** substr(s, 1, n) *)
Definition substr_to (s : string) (n : Z) : string := concat_strings (take (Z.to_nat n) (chars s)).
Definition id_prefix (id : string) : string := Filepath.TrimSuffix id "/" +:+ "/".

Definition retargetTx (ino : Z) (newID : string) (descendants : bool) : Tx DB merr unit :=
  let! r := row_at ino in
  let oldID := r_remote_id r in
  if decide (oldID = newID) then tret tt else
  do! tmodify (update_row ino (fun r => r <| r_remote_id := newID |>));
  if negb descendants || bool_decide (oldID = "") then tret tt else
  let oldPrefix := id_prefix oldID in
  let newPrefix := id_prefix newID in
  tmodify (fun d =>
    let sub := closed_below false d {[ino]} in
    update_rows (fun i x => bool_decide (i ∈ sub) && bool_decide (i <> ino) && bool_decide (r_remote x = r_remote r) &&
                            bool_decide (substr_to (r_remote_id x) (sql_length oldPrefix) = oldPrefix))
      (fun x => x <| r_remote_id := newPrefix +:+ substr (r_remote_id x) (sql_length oldPrefix + 1) |>) d).

Definition Retarget (ino : Z) (newID : string) (descendants : bool) : Op Store merr unit :=
  if decide (ino = RootIno) then ofail (ErrText "meta: cannot retarget the root") else
  tx (retargetTx ino newID descendants).

Definition RenameAndRetarget (ino newParent : Z) (newName newID : string) (descendants : bool) : Op Store merr unit :=
  if decide (ino = RootIno) then ofail (ErrText "meta: cannot rename the root") else
  let* r := tx (let! r := renameTx ino newParent newName in
                do! retargetTx ino newID descendants;
                tret r) in
  moved_absent r newParent newName.

(** ** The name index (indexer.go) *)

Definition indexBatch : nat := 1000.
Definition pending_batch (d : DB) : list (Z * string) :=
  take indexBatch (stable_sort (fun a b => bool_decide (fst a < fst b))
    (omap (fun kv => match nodes d !! fst kv with Some r => Some (fst kv, r_name r) | None => None end)
       (map_to_list (name_index_pending d)))).
Definition flushIndexOnce : Op Store merr nat :=
  tx (let! batch := treads pending_batch in
      do! tforeach (fun e => indexNameTx (fst e) (snd e)) batch;
      do! tforeach (fun e => tmodify (fun d => d <| name_index_pending ::= delete (fst e) |>)) batch;
      tret (length batch)).
Fixpoint FlushIndex_loop (fuel : nat) : Op Store merr unit :=
  match fuel with
  | O => ofail ErrDiverges
  | S fuel' => let* n := flushIndexOnce in
               if decide (n < indexBatch)%nat then oret tt else FlushIndex_loop fuel'
  end.
Definition FlushIndex : Op Store merr unit := fun s =>
  FlushIndex_loop (S (size (name_index_pending (db s)))) s.
End Tree.

(** ** Cursors and pins *)

Definition Cursor (remote : string) : Op Store merr string :=
  query (fun d => Ok match remote_cursor d !! remote with Some r => delta_cursor r | None => "" end).
Definition SetCursor (remote cur : string) : Op Store merr unit :=
  let* t := (fun s => (Ok (now s), s)) in
  tx (tmodify (fun d => d <| remote_cursor ::= <[remote := MkCursorRow cur (Unix t)]> |>)).

Record Pin := MkPin { pin_Path : string; pin_Recursive : bool; pin_Mode : string }.
Definition AddPin (p : Pin) : Op Store merr unit :=
  let mode := if decide (pin_Mode p = "") then "keep" else pin_Mode p in
  tx (tmodify (fun d => d <| pins ::= <[pin_Path p := MkPinRow (pin_Recursive p) mode]> |>)).
Definition RemovePin (pth : string) : Op Store merr unit :=
  tx (tmodify (fun d => d <| pins ::= delete pth |>)).
Definition pin_list (d : DB) : list Pin :=
  map (fun kv => MkPin (fst kv) (p_recursive (snd kv)) (p_mode (snd kv)))
    (stable_sort (fun a b => String.ltb (fst a) (fst b)) (map_to_list (pins d))).
Definition Pins : Op Store merr (list Pin) := query (fun d => Ok (pin_list d)).
Definition pin_covers (p : string) (pin : Pin) : bool :=
  bool_decide (pin_Path pin = p) ||
  (pin_Recursive pin && hasPrefix p (Filepath.TrimSuffix (pin_Path pin) "/" +:+ "/")).
Definition IsPinned (p : string) : Op Store merr bool := query (fun d => Ok (existsb (pin_covers p) (pin_list d))).

(** ** Counters *)

Definition count {A} (l : list A) : Z := Z.of_nat (length l).
Definition is_dir_row (r : Row) : bool := bool_decide (r_kind r = KindDir).
Definition listed_dirs (d : DB) : list Z :=
  map fst (filter (fun kv => complete (snd kv) = true) (map_to_list (dir_state d))).

Record Stats_ := MkStats { st_Nodes : Z; st_Dirs : Z; st_CompleteDs : Z; st_Absent : Z; st_Pins : Z; st_LastCrawl : Z }.
Definition Stats : Op Store merr Stats_ := fun s =>
  let d := db s in
  let last := foldr Z.max 0 (map (fun kv => listed_at (snd kv)) (map_to_list (dir_state d))) in
  (Ok (MkStats (count (select (fun i _ => bool_decide (i <> RootIno)) d))
         (count (select (fun i r => is_dir_row r && bool_decide (i <> RootIno)) d))
         (count (listed_dirs d)) (absentCount s) (count (map_to_list (pins d)))
         (if decide (0 < last) then last * Second else zero_time)), s).

(** coverage.go *)
Record Coverage_ := MkCoverage { cv_Listed : Z; cv_Known : Z }.
Definition Coverage : Op Store merr Coverage_ :=
  query (fun d => Ok (MkCoverage (count (listed_dirs d)) (count (select (fun _ r => is_dir_row r) d)))).
Definition IncompleteDirs (after limit : Z) : Op Store merr (list Node) :=
  query (fun d => Ok (if decide (limit <= 0) then [] else
    map node_of (take (Z.to_nat limit) (stable_sort by_ino (select (fun i r =>
      is_dir_row r && bool_decide (after < i) &&
      negb match dir_state d !! i with Some ds => complete ds | None => false end) d))))).

(** ** Pages, references and walks (children_page.go, subtree_refs.go, walk_subtree.go) *)

Definition children_page (d : DB) (dir : Z) (after : string) (offset limit : Z) : res merr (list Node) :=
  if decide (limit < 1 \/ 4096 < limit \/ offset < 0 \/ (after <> "" /\ offset <> 0))
  then Err (ErrText "meta: invalid directory page")
  else Ok (map node_of (take (Z.to_nat limit) (drop (Z.to_nat offset)
         (filter (fun kv => String.ltb after (r_name (snd kv)) = true) (children d dir))))).
Definition ChildrenPage (dir : Z) (after : string) (offset limit : Z) : Op Store merr (list Node) :=
  query (fun d => children_page d dir after offset limit).
Definition ChildrenCount (dir : Z) : Op Store merr Z := query (fun d => Ok (count (children d dir))).

Record RemoteRef := MkRef { ref_Remote : string; ref_RemoteID : string; ref_Version : string }.
Definition refs_in (d : DB) (P : Z -> bool) : list RemoteRef :=
  map (fun kv => MkRef (r_remote (snd kv)) (r_remote_id (snd kv)) (r_version (snd kv)))
    (stable_sort by_ino (select (fun i r =>
       P i && bool_decide (r_kind r = KindFile) && bool_decide (r_remote_id r <> "")) d)).
(** The references visited, in the order of the visits. *)
Definition SubtreeRefs (ino : Z) (recursive : bool) : Op Store merr (list RemoteRef) :=
  query (fun d => Ok (refs_in d (fun i => if recursive then bool_decide (i ∈ subtree d ino) else bool_decide (i = ino)))).

(** path.Join(base, name) *)
Definition walkPageSize : Z := 500.

(** A visit is an operation of its own; between visits the tree can change.
    [after] is the name the next page starts behind. *)
Fixpoint walk (fuel : nat) (visit : Node -> string -> Op Store merr unit) (ino : Z) (base after : string) : Op Store merr unit :=
  match fuel with
  | O => ofail ErrDiverges
  | S fuel' =>
      let* page := ChildrenPage ino after 0 walkPageSize in
      do* foldr (fun n m =>
            let p := Filepath.Join [base; Name n] in
            let* r := otry (visit n p) in
            match r with
            | Ok _ => do* (if IsDir n then walk fuel' visit (Ino n) p "" else oret tt); m
            | Err e => if decide (e = SkipDir) then m else ofail e
            end) (oret tt) page;
      if decide (count page < walkPageSize) then oret tt
      else walk fuel' visit ino base (default "" (Name <$> last page))
  end.
Definition WalkSubtree (fuel : nat) (ino : Z) (base : string) (visit : Node -> string -> Op Store merr unit) : Op Store merr unit :=
  walk fuel visit ino base "".
