(* ===== verification/MetaListing.v ===== *)
(** * Directory listings (internal/meta: store.go PutDirChanged,
    directory_replace.go, dir_listing.go, remote_change.go)

    A listing of a backend directory is staged in temporary tables and merged
    in one transaction; what the callback [protect] names, what the change feed
    wrote after the listing began, and the ancestors of protected nodes stay.
    Waiting for one of the eight listing slots and closing the store under a
    listing are left out, and a staged node's JSON is the node. *)
From S2P Require Import Prelude GoLib Retry MetaState MetaTree.
From Stdlib Require Import Ascii.
Open Scope Z_scope.

(** The caller's policy; nil protects nothing. *)
Definition Protect : Type := option (Node -> bool).
Definition asks (protect : Protect) (n : Node) : bool :=
  match protect with Some f => f n | None => false end.

(** type DirChange *)
Record DirChange := MkChange { Added : list string; Removed : list string; Updated : list Z }.
Definition no_change : DirChange := MkChange [] [] [].
Definition change_app (a b : DirChange) : DirChange :=
  MkChange (Added a ++ Added b) (Removed a ++ Removed b) (Updated a ++ Updated b).
Definition Any (c : DirChange) : bool :=
  negb (bool_decide (length (Added c) + length (Removed c) + length (Updated c) = 0)%nat).

Section Listing.
Context {F : Fold}.

(** ** Replacing a directory (directory_replace.go) *)

Definition directoryReplacement (old next : Node) : bool :=
  (IsDir old || IsDir next) &&
  (bool_decide (NKind old <> NKind next) || bool_decide (Remote old <> Remote next) ||
   bool_decide (RemoteID old <> RemoteID next)).

Definition protectedSubtree (d : DB) (ino : Z) (protect : Node -> bool) : bool :=
  existsb (fun kv => protect (node_of kv)) (select (fun i _ => bool_decide (i ∈ below d ino)) d).

(** True: the old object is retained. *)
Definition prepareDirectoryReplacementTx (old : Node) (protect : Protect) : Tx DB merr bool := fun d =>
  if match protect with Some f => protectedSubtree d (Ino old) f | None => false end then Ok (true, d)
  else Ok (false, delete_set (subtree d (Ino old)) d).

Definition insertNodesTx (l : list Node) : Tx DB merr unit :=
  tforeach (fun n => let! _ := insert_row (bind_row n) in tret tt) l.

(** The identity and size columns a listing compares. *)
Definition same_entry (old c : Node) : bool :=
  bool_decide (Version old = Version c /\ Size old = Size c /\ NKind old = NKind c /\
               RemoteID old = RemoteID c /\ RemoteVersion old = RemoteVersion c /\ Remote old = Remote c).

(** The staged node as it is written. *)
Definition listed_node (dir t childTTL : Z) (c : Node) : Node :=
  let c := (c <| ParentIno := dir |>) <| FetchedAt := t |> in
  fillMode (if decide (TTL c = 0) then c <| TTL := childTTL |> else c).
Definition listed_row (c : Node) : Row := bind_row (c <| Dirty := false |>).

Definition upsert_dir (dir : Z) (r : DirRow) (d : DB) : DB := d <| dir_state ::= <[dir := r]> |>.

(** ** PutDirChanged (store.go) *)

(** What the scan of the existing children reads. *)
Definition scan_partial (kv : Z * Row) : Node :=
  let r := snd kv in
  MkNode (fst kv) 0 (r_name r) (r_kind r) (r_size r) zero_time 0 (r_remote r) (r_remote_id r) (r_version r)
    (r_remote_version r) "" "" (r_fetched r * Second) 0 (r_dirty r).

(** One entry of the listing: the rows to insert and the change so far. *)
Definition put_child (dir t childTTL : Z) (protect : Protect) (existing : list Node) (c : Node)
    (acc : list Node * DirChange) : Tx DB merr (list Node * DirChange) :=
  let '(inserts, change) := acc in
  let old := find (fun n => bool_decide (Name n = Name c)) existing in
  if match old with Some n => asks protect n | None => false end then tret acc else
  let c := listed_node dir t childTTL c in
  match old with
  | None => tret (inserts ++ [c], change_app change (MkChange [Name c] [] []))
  | Some old =>
      if directoryReplacement old c then
        let! retained := prepareDirectoryReplacementTx old protect in
        if (retained : bool) then tret acc
        else tret (inserts ++ [c], change_app change (MkChange [Name c] [Name c] [Ino old]))
      else if same_entry old c then tret acc
      else
        do! tmodify (update_row (Ino old) (set_content (listed_row c)));
        tret (inserts,
              if decide (Version old <> Version c \/ Size old <> Size c \/ NKind old <> NKind c)
              then change_app change (MkChange [] [] [Ino old]) else change)
  end.

(** A child that the listing no longer has. *)
Definition drop_child (protect : Protect) (keep : list string) (n : Node) (change : DirChange) : Tx DB merr DirChange :=
  if bool_decide (Name n ∈ keep) || asks protect n then tret change else
  let! kept := treads (fun d => match protect with
                                | Some f => IsDir n && protectedSubtree d (Ino n) f
                                | None => false
                                end) in
  if (kept : bool) then tret change else
  do! removeSubtreeTx (Ino n);
  tret (change_app change (MkChange [] [Name n] [])).

Fixpoint tfold {S E A B} (f : A -> B -> Tx S E B) (l : list A) (b : B) : Tx S E B :=
  match l with [] => tret b | x :: l' => let! b' := f x b in tfold f l' b' end.

(** The children are walked in name order where Go walks a map. *)
Definition putDirTx (t dir : Z) (entries : list Node) (childTTL : Z) (protect : Protect) : Tx DB merr DirChange :=
  do! fenceDirListingTx [dir];
  let! existing := treads (fun d => map scan_partial (children d dir)) in
  let! acc := tfold (put_child dir t childTTL protect existing) entries ([], no_change) in
  do! insertNodesTx (fst acc);
  do! tmodify (update_rows (fun i r => is_child dir i r && negb (r_dirty r))
                 (fun r => (r <| r_fetched := Unix t |>) <| r_ttl := ttl_s childTTL |>));
  let! change := tfold (drop_child protect (map Name entries)) existing (snd acc) in
  do! tmodify (upsert_dir dir (MkDir true (Unix t) "" false));
  tret change.

Definition PutDirChanged (dir : Z) (entries : list Node) (childTTL : Z) (protect : Protect) : Op Store merr DirChange :=
  let* t := (fun s => (Ok (now s), s)) in
  let* change := tx (putDirTx t dir entries childTTL protect) in
  do* omodify (fun s => s <| absent ::= fun m => foldl (fun m name => delete (dir, name) m) m (Added change) |>);
  oret change.

(** ** Events of the change feed (remote_change.go) *)

Definition stampAppliedGenerationTx (ino parent : Z) : Tx DB merr unit := tmodify (fun d =>
  update_row ino (fun r => r <| r_applied := match refresh d !! parent with Some g => generation g | None => 0 end |>) d).

Definition applyRemoteTx (t : Z) (expected : Node) (next : option Node) (protect : Protect)
    : Tx DB merr (Node * bool) := fun d =>
  match nodes d !! Ino expected with
  | None => Ok ((no_node, false), d)
  | Some r =>
      let current := scanNode (Ino expected) r in
      if asks protect current then Ok ((no_node, false), d)
      else if decide (current <> expected) then Err ErrNodeChanged
      else
        let removesAName := match next with None => true | Some n => directoryReplacement current n end in
        (let! retained := (if removesAName then prepareDirectoryReplacementTx current protect else tret false) in
         if (retained : bool) then tret (no_node, false) else
         do! (if removesAName then fenceDirListingTx else markDirStaleTx) [ParentIno current; Ino current];
         match next with
         | None => tret (no_node, true)
         | Some n =>
             let result := fillMode (with_fetched t n) in
             let! ino := upsertNodeTx t result in
             do! stampAppliedGenerationTx ino (ParentIno current);
             tret (result <| Ino := ino |>, true)
         end) d
  end.

Definition ApplyRemoteNode (expected : Node) (next : option Node) (protect : Protect) : Op Store merr (Node * bool) :=
  if decide (Ino expected = RootIno) then ofail (ErrText "meta: cannot reconcile the root") else
  if match next with
     | Some n => bool_decide (ParentIno n <> ParentIno expected \/ Name n <> Name expected)
     | None => false
     end then ofail (ErrText "meta: remote reconciliation cannot move a name") else
  let* t := (fun s => (Ok (now s), s)) in
  let* r := tx (applyRemoteTx t expected next protect) in
  do* (if (snd r : bool)
       then match next with
            | None => markAbsent (ParentIno expected) (Name expected) defaultNegativeTTL
            | Some _ => clearAbsent (ParentIno expected) (Name expected)
            end
       else oret tt);
  oret r.

(** ** Staged listings (dir_listing.go) *)

Definition DirListingBatch : nat := 200.

Inductive ChangeKind := CAdd | CReplace | CRemove | CUpdate.
Record Change := MkListed { c_ino : Z; c_kind : ChangeKind }.

Record DirListing := MkListing {
  l_parent : Node; l_identity : string; l_generation : Z; l_stale : Z; l_publishedStale : bool;
  l_closed : bool; l_committed : bool; l_failed : bool;
  l_nodes : gmap string Node; l_changes : gmap string Change; l_cursors : gset string
}.
#[export] Instance DirListing_eta : Settable DirListing := fun l =>
  MkListing (l_parent l) (l_identity l) (l_generation l) (l_stale l) (l_publishedStale l) (l_closed l)
    (l_committed l) (l_failed l) (l_nodes l) (l_changes l) (l_cursors l).

Definition beginTx (expected : Node) : Tx DB merr DirListing := fun d =>
  match nodes d !! Ino expected with
  | None => Err ErrNotFound
  | Some r =>
      let parent := scanNode (Ino expected) r in
      if negb (IsDir parent) then Err (ErrText "meta: listing target is not a directory")
      else if decide (Remote parent <> Remote expected \/ RemoteID parent <> RemoteID expected)
           then Err ErrListingChanged
      else
        let g := match refresh d !! Ino expected with
                 | Some g => g <| generation ::= Z.add 1 |>
                 | None => MkGen 1 0
                 end in
        Ok (MkListing parent (store_identity d) (generation g) (stale_generation g) false false false false ∅ ∅ ∅,
            d <| refresh ::= <[Ino expected := g]> |>)
  end.
Definition BeginDirListing (expected : Node) : Op Store merr DirListing :=
  let* l := tx (beginTx expected) in
  let* s := oget in
  if decide (store_identity (db s) = "" \/ store_identity (db s) <> l_identity l)
  then ofail ErrListingChanged else oret l.

Definition collecting (l : DirListing) : bool := negb (l_closed l || l_failed l || l_committed l).
Definition not_collecting : merr := ErrText "meta: directory listing is no longer collecting".
Definition failed (l : DirListing) : DirListing := l <| l_failed := true |>.

Definition RecordCursor (cur : string) (l : DirListing) : res merr unit * DirListing :=
  if negb (collecting l) then (Err not_collecting, l)
  else if decide (2 ^ 20 < Z.of_nat (String.length cur)) then (Err (ErrText "meta: provider cursor exceeds limit"), failed l)
  else if decide (cur ∈ l_cursors l) then (Err (ErrText "meta: repeated or unavailable listing cursor"), failed l)
  else (Ok tt, l <| l_cursors ::= union {[cur]} |>).

Definition bad_name (name : string) : bool :=
  bool_decide (name = "" \/ name = "." \/ name = ".." \/ 4096 < Z.of_nat (String.length name)) ||
  negb (ValidString name) || ContainsAny name (String "/" (String "000" EmptyString)).

Fixpoint append_all (l : list Node) (m : gmap string Node) : res merr (gmap string Node) :=
  match l with
  | [] => Ok m
  | n :: l' =>
      if bad_name (Name n) then Err (ErrText "meta: invalid name in provider listing")
      else match m !! Name n with
           | Some _ => Err ErrConstraint
           | None => append_all l' (<[Name n := n]> m)
           end
  end.
Definition Append (batch : list Node) (l : DirListing) : res merr unit * DirListing :=
  if negb (collecting l) then (Err not_collecting, l)
  else if decide (DirListingBatch < length batch)%nat then (Err (ErrText "meta: listing batch exceeds limit"), failed l)
  else match append_all batch (l_nodes l) with
       | Ok m => (Ok tt, l <| l_nodes := m |>)
       | Err e => (Err e, failed l)
       end.

Definition Close (l : DirListing) : DirListing := l <| l_closed := true |>.

(** INSERT INTO temp.listing_changes *)
Definition add_change (name : string) (ino : Z) (k : ChangeKind) (m : gmap string Change) : Tx DB merr (gmap string Change) :=
  match m !! name with Some _ => tfail ErrConstraint | None => tret (<[name := MkListed ino k]> m) end.

(** The current child of that name. *)
Definition child_row (d : DB) (dir : Z) (name : string) : option (Z * Row) :=
  kv ← entry_at d dir name; if decide (fst kv = RootIno) then None else Some kv.

(** One staged node of a batch; [old] and [applied] are what the batch read. *)
Definition merge_node (t childTTL : Z) (protect : Protect) (dir gen : Z) (old : string -> option (Z * Row)) (n : Node)
    (acc : list Node * gmap string Change) : Tx DB merr (list Node * gmap string Change) :=
  let '(inserts, changes) := acc in
  let previous := old (Name n) in
  let applied := match previous with Some (_, r) => bool_decide (gen <= r_applied r) | None => false end in
  if applied then tret acc else
  if match previous with Some kv => asks protect (node_of kv) | None => false end then tret acc else
  let n := listed_node dir t childTTL n in
  match previous with
  | None => let! changes := add_change (Name n) 0 CAdd changes in tret (inserts ++ [n], changes)
  | Some kv =>
      let previous := node_of kv in
      if directoryReplacement previous n then
        let! retained := prepareDirectoryReplacementTx previous protect in
        if (retained : bool) then tret acc
        else let! changes := add_change (Name n) (Ino previous) CReplace changes in tret (inserts ++ [n], changes)
      else if same_entry previous n then tret acc
      else
        do! tmodify (update_row (Ino previous) (set_content (listed_row n)));
        let! changes := add_change (Name n) (Ino previous) CUpdate changes in tret (inserts, changes)
  end.

Definition merge_batch (t childTTL : Z) (protect : Protect) (dir gen : Z) (batch : list Node) (changes : gmap string Change)
    : Tx DB merr (gmap string Change) :=
  let! old := treads (fun d => child_row d dir) in
  let! acc := tfold (merge_node t childTTL protect dir gen old) batch ([], changes) in
  do! insertNodesTx (fst acc);
  tret (snd acc).

(** Pages of the staged table, in name order. *)
Fixpoint pages {A} (fuel : nat) (l : list A) : list (list A) :=
  match fuel, l with
  | S fuel', _ :: _ => take DirListingBatch l :: pages fuel' (drop DirListingBatch l)
  | _, _ => []
  end.
Definition staged (l : DirListing) : list Node :=
  map snd (stable_sort (fun a b => String.ltb (fst a) (fst b)) (map_to_list (l_nodes l))).
Definition mergeStaged (t childTTL : Z) (protect : Protect) (l : DirListing) : Tx DB merr (gmap string Change) :=
  tfold (merge_batch t childTTL protect (Ino (l_parent l)) (l_generation l))
    (pages (length (staged l)) (staged l)) (l_changes l).

(** A child the listing does not have; the second component collects
    temp.listing_deleted.  Nothing is deleted before the loop ends, so its pages
    together are one pass. *)
Definition drop_missing (protect : Protect) (gen : Z) (kv : Z * Row) (acc : gmap string Change * gset Z)
    : Tx DB merr (gmap string Change * gset Z) := fun d =>
  let n := node_of kv in
  if bool_decide (gen <= r_applied (snd kv)) || asks protect n then Ok (acc, d)
  else if match protect with Some f => IsDir n && protectedSubtree d (Ino n) f | None => false end then Ok (acc, d)
  else (let! changes := add_change (Name n) (Ino n) CRemove (fst acc) in
        tret (changes, snd acc ∪ subtree d (Ino n))) d.
Definition missing (l : DirListing) (d : DB) : list (Z * Row) :=
  filter (fun kv => r_name (snd kv) <> "" /\ l_nodes l !! r_name (snd kv) = None) (children d (Ino (l_parent l))).
Definition removeMissing (protect : Protect) (l : DirListing) (changes : gmap string Change) : Tx DB merr (gmap string Change) :=
  let! miss := treads (missing l) in
  let! acc := tfold (drop_missing protect (l_generation l)) miss (changes, ∅) in
  do! tmodify (delete_set (snd acc));
  tret (fst acc).

(** The transaction of [Commit]: whether it was published stale, and the
    changes. *)
Definition commitTx (t childTTL : Z) (protect : Protect) (l : DirListing) : Tx DB merr (bool * gmap string Change) := fun d =>
  let dir := Ino (l_parent l) in
  if decide (store_identity d <> l_identity l) then Err ErrListingChanged else
  match nodes d !! dir with
  | None => Err ErrListingChanged
  | Some r =>
      if decide (r_kind r <> KindDir \/ r_remote r <> Remote (l_parent l) \/ r_remote_id r <> RemoteID (l_parent l))
      then Err ErrListingChanged else
      match refresh d !! dir with
      | None => Err ErrNoRows
      | Some g =>
          if decide (generation g <> l_generation l) then Err ErrListingChanged else
          let stale := bool_decide (stale_generation g <> l_stale l) in
          (let! changes := mergeStaged t childTTL protect l in
           let! changes := removeMissing protect l changes in
           do! tmodify (update_rows (fun i r => is_child dir i r && negb (r_dirty r) && bool_decide (r_applied r < l_generation l))
                          (fun r => (r <| r_fetched := Unix t |>) <| r_ttl := ttl_s childTTL |>));
           do! tmodify (upsert_dir dir (MkDir (negb stale) (Unix t) "" stale));
           tret (stale, changes)) d
      end
  end.

Definition Commit (childTTL : Z) (protect : Protect) (l : DirListing) : Store -> res merr unit * DirListing * Store := fun s =>
  if negb (collecting l) then (Err not_collecting, l, s) else
  match tx (commitTx (now s) childTTL protect l) s with
  | (Err e, s') => (Err e, failed l, s')
  | (Ok (stale, changes), s') =>
      let l := ((l <| l_committed := true |>) <| l_publishedStale := stale |>) <| l_changes := changes |> in
      (Ok tt, l, snd (ClearAbsent (Ino (l_parent l)) s'))
  end.

(** ** What a commit reports *)

Definition listed_change (name : string) (c : Change) : DirChange :=
  match c_kind c with
  | CReplace => MkChange [name] [name] [c_ino c]
  | CAdd => MkChange [name] [] []
  | CRemove => MkChange [] [name] []
  | CUpdate => MkChange [] [] [c_ino c]
  end.
Definition change_cost (c : Change) : nat := match c_kind c with CReplace => 3 | _ => 1 end.
Definition change_len (c : DirChange) : nat := length (Added c) + length (Removed c) + length (Updated c).

(** The DirChange values given to [visit], in order. *)
Fixpoint notify (rows : list (string * Change)) (cur : DirChange) : list DirChange :=
  match rows with
  | [] => if Any cur then [cur] else []
  | (name, c) :: rest =>
      let '(out, cur) := if decide (128 < change_len cur + change_cost c)%nat then ([cur], no_change) else ([], cur) in
      let cur := change_app cur (listed_change name c) in
      out ++ (if decide (change_len cur = 128)%nat then cur :: notify rest no_change else notify rest cur)
  end.
Definition change_rows (l : DirListing) : list (string * Change) :=
  stable_sort (fun a b => String.ltb (fst a) (fst b)) (map_to_list (l_changes l)).
Definition Changes (l : DirListing) : res merr (list DirChange) :=
  if l_closed l || negb (l_committed l)
  then Err (ErrText "meta: listing changes unavailable before commit or after close")
  else Ok (notify (change_rows l) no_change).

Definition Summary (l : DirListing) : res merr (nat * bool) :=
  if l_closed l || negb (l_committed l) then Err (ErrText "meta: listing summary unavailable")
  else Ok (Nat.min 129 (foldr (fun kv n => change_cost (snd kv) + n)%nat 0%nat (take 129 (change_rows l))),
           existsb (fun kv => match c_kind (snd kv) with CRemove | CReplace => true | _ => false end) (change_rows l)).
End Listing.
