(* ===== verification/MetaCopy.v ===== *)
(** * Copies and upload cleanup in the metadata store (internal/meta: copy.go,
    upload_cleanup.go)

    Binding a copied file to its inode exactly once, and removing the local
    versions of a discarded upload. *)
From S2P Require Import Prelude GoLib Retry MetaState MetaTree.
Open Scope Z_scope.

Section Copy.
Context {F : Fold}.

Definition Identity : Op Store merr string := query (fun d => Ok (store_identity d)).

Definition toggle_fence (d : DB) : DB := d <| copy_cleanup_fence ::= negb |>.

Definition FenceCopyCleanup (identity remote remoteID : string) : Op Store merr unit :=
  durableTx (fun d =>
    if decide (identity = "" \/ store_identity d <> identity) then Err ErrCopyTargetChanged
    else if decide (aliases d remote remoteID <> []) then Err ErrCopyReferenced
    else Ok (tt, toggle_fence d)).

Definition sameCopyTarget (old expected : Node) : bool :=
  bool_decide (ParentIno old = ParentIno expected /\ Name old = Name expected /\ Remote old = Remote expected /\
               RemoteID old = RemoteID expected /\ Version old = Version expected /\ Size old = Size expected /\
               Dirty old = true /\ NKind old = KindFile).

Definition CheckCopyTarget (id : string) (expected : Node) : Op Store merr unit := query (fun d =>
  match copy_bindings d !! id with
  | None => match lookup_child d (ParentIno expected) (Name expected) with
            | Err ErrNotFound => Ok tt
            | Err e => Err e
            | Ok _ => Err ErrExists
            end
  | Some ino => match get d ino with
                | Err ErrNotFound => Err ErrCopyTargetChanged
                | Err e => Err e
                | Ok old => if sameCopyTarget old expected then Ok tt else Err ErrCopyTargetChanged
                end
  end).

(** The binding's inode is unique in its table. *)
Definition insert_binding (id : string) (ino : Z) : Tx DB merr unit := fun d =>
  if decide (is_Some (copy_bindings d !! id) \/ ino ∈ map snd (map_to_list (copy_bindings d)))
  then Err ErrConstraint
  else Ok (tt, d <| copy_bindings ::= <[id := ino]> |>).

Definition bindTx (id : string) (n : Node) : Tx DB merr Node := fun d =>
  match copy_bindings d !! id with
  | Some ino =>
      match nodes d !! ino with
      | None => Err ErrCopyTargetChanged
      | Some r => let old := scanNode ino r in
                  if sameCopyTarget old n then Ok (old, d) else Err ErrCopyTargetChanged
      end
  | None =>
      match nodes d !! ParentIno n with
      | None => Err ErrNotFound
      | Some p =>
          if decide (r_kind p <> KindDir) then Err ErrCopyTargetChanged
          else match entry_at d (ParentIno n) (Name n) with
          | Some _ => Err ErrExists
          | None => (let! ino := insert_row (bind_row n) in
                     do! insert_binding id ino;
                     tret (n <| Ino := ino |>)) d
          end
      end
  end.

Definition BindCopy (id : string) (n : Node) : Op Store merr Node :=
  if decide (id = "" \/ NKind n <> KindFile \/ RemoteID n = "" \/ Version n = "" \/ Size n < 0)
  then ofail (ErrText "meta: invalid copy publication") else
  let* t := (fun s => (Ok (now s), s)) in
  let n := (with_fetched t (if decide (Mode n = 0) then n <| Mode := 420 |> else n)) <| Dirty := true |> in
  let* n := durableTx (bindTx id n) in
  do* clearAbsent (ParentIno n) (Name n);
  oret n.

(** ** RemoveLocalVersion *)

Record LocalVersionCleanup := MkCleanup {
  lc_StoreIdentity : string; lc_Remote : string; lc_RemoteID : string; lc_Version : string; lc_Size : Z;
  lc_Nodes : list Node
}.

Definition localPrefix : string := "cloudfs-local:".

Definition bad_request (q : LocalVersionCleanup) : bool :=
  bool_decide (lc_StoreIdentity q = "" \/ lc_Remote q = "" \/ lc_Version q = "" \/ lc_Size q < 0 \/
               lc_RemoteID q = localPrefix) ||
  negb (hasPrefix (lc_RemoteID q) localPrefix).
Definition bad_node (q : LocalVersionCleanup) (n : Node) : bool :=
  bool_decide (Ino n = 0 \/ Ino n = RootIno \/ NKind n <> KindFile \/ Dirty n = false \/ Remote n <> lc_Remote q \/
               RemoteID n <> lc_RemoteID q \/ Version n <> lc_Version q \/ Size n <> lc_Size q).

Definition by_local_id (d : DB) (id : string) : list (Z * Row) :=
  stable_sort by_ino (select (fun _ r => bool_decide (r_remote_id r = id)) d).

Definition remove_authorized (n : Node) : Tx DB merr unit := fun d =>
  if decide (select (fun _ r => bool_decide (r_parent r = Ino n)) d <> []) then Err ErrLocalVersionChanged
  else (do! fenceDirListingTx [ParentIno n]; removeSubtreeTx (Ino n)) d.

Definition removeLocalTx (q : LocalVersionCleanup) : Tx DB merr unit := fun d =>
  if decide (store_identity d <> lc_StoreIdentity q) then Err ErrLocalVersionChanged else
  let current := map node_of (by_local_id d (lc_RemoteID q)) in
  if negb (forallb (fun n => bool_decide (n ∈ lc_Nodes q)) current &&
           bool_decide (length current = length (lc_Nodes q)))
  then Err ErrLocalVersionChanged
  else (do! tforeach remove_authorized (lc_Nodes q); tmodify toggle_fence) d.

Definition RemoveLocalVersion (q : LocalVersionCleanup) : Op Store merr unit :=
  if bad_request q || existsb (bad_node q) (lc_Nodes q) || negb (bool_decide (NoDup (map Ino (lc_Nodes q))))
  then ofail ErrLocalVersionChanged else
  do* durableTx (removeLocalTx q);
  foldr (fun n m => do* markAbsent (ParentIno n) (Name n) defaultNegativeTTL; m) (oret tt) (lc_Nodes q).
End Copy.
