(* ===== verification/MetaRows.v ===== *)
(** * Rows of the metadata database

    What the queries return, what a subtree is, and that deleting a subtree,
    whether by recursion or by a recursive query, removes exactly it. *)
From S2P Require Import Prelude GoLib Retry MetaState MetaTree MetaListing.
Open Scope Z_scope.

(** ** Queries *)

Lemma elem_of_select P d i r : (i, r) ∈ select P d <-> nodes d !! i = Some r /\ P i r = true.
Proof. unfold select. rewrite list_elem_of_filter, elem_of_map_to_list. simpl. tauto. Qed.

Lemma NoDup_select P d : NoDup (map fst (select P d)).
Proof.
  apply (NoDup_fmap_fst (A:=Z) (B:=Row)).
  - intros i r x [Hr _]%elem_of_select [Hx _]%elem_of_select. congruence.
  - apply NoDup_filter, NoDup_map_to_list.
Qed.

Lemma elem_of_children d dir i r :
  (i, r) ∈ children d dir <-> nodes d !! i = Some r /\ r_parent r = dir /\ i <> RootIno.
Proof.
  unfold children. rewrite stable_sort_elem, elem_of_select. unfold is_child.
  rewrite bool_decide_eq_true. tauto.
Qed.

Lemma NoDup_children d dir : NoDup (map fst (children d dir)).
Proof. unfold children. rewrite (fmap_Permutation fst _ _ (stable_sort_perm _ _)). apply NoDup_select. Qed.

Lemma entry_at_Some d p n i r : entry_at d p n = Some (i, r) -> nodes d !! i = Some r /\ r_parent r = p /\ r_name r = n.
Proof.
  unfold entry_at. intros H. apply head_Some_elem_of, elem_of_select in H.
  rewrite bool_decide_eq_true in H. tauto.
Qed.

Definition uniq (d : DB) : Prop :=
  forall i j r x, nodes d !! i = Some r -> nodes d !! j = Some x ->
    r_parent r = r_parent x -> r_name r = r_name x -> i = j.

Lemma entry_at_row d i r : uniq d -> nodes d !! i = Some r -> entry_at d (r_parent r) (r_name r) = Some (i, r).
Proof.
  intros HU Hi. destruct (entry_at d _ _) as [[j x]|] eqn:He.
  - apply entry_at_Some in He as (Hj & Hp & Hn). pose proof (HU _ _ _ _ Hi Hj (eq_sym Hp) (eq_sym Hn)). by simplify_eq.
  - unfold entry_at in He. apply head_None in He.
    assert (Hin : (i, r) ∈ select (fun _ x => bool_decide (r_parent x = r_parent r /\ r_name x = r_name r)) d)
      by (apply elem_of_select; rewrite bool_decide_eq_true; auto).
    rewrite He in Hin. by apply not_elem_of_nil in Hin.
Qed.

Lemma entry_at_None d p n :
  entry_at d p n = None <-> forall i r, nodes d !! i = Some r -> r_parent r = p -> r_name r <> n.
Proof.
  unfold entry_at. rewrite head_None. split.
  - intros He i r Hi <- <-. eapply not_elem_of_nil. rewrite <- He. apply elem_of_select. split; [exact Hi|].
    by apply bool_decide_eq_true.
  - intros H. apply elem_of_nil_inv. intros [i r] [Hi [Hp Hn]%bool_decide_eq_true]%elem_of_select. by apply (H i r).
Qed.

(** ** Subtrees *)

(** [par skip d i p]: [p] is the parent of row [i]; the root has none when
    [skip]. *)
Definition par (skip : bool) (d : DB) (i p : Z) : Prop :=
  exists r, nodes d !! i = Some r /\ r_parent r = p /\ (skip = true -> i <> RootIno).

Lemma elem_of_kids skip d S i : i ∈ kids_of skip d S <-> exists p, p ∈ S /\ par skip d i p.
Proof.
  unfold kids_of, par. rewrite elem_of_list_to_set, list_elem_of_fmap. split.
  - intros ([j r] & Hij & [Hj Hb]%elem_of_select). simpl in Hij. subst j. apply andb_true_iff in Hb as [Hp Hs].
    apply bool_decide_eq_true in Hp. exists (r_parent r). split; [done|]. exists r. split; [done|]. split; [done|].
    intros -> ->. by rewrite bool_decide_eq_true_2 in Hs.
  - intros (p & HpS & r & Hi & <- & Hs). exists (i, r). split; [done|]. apply elem_of_select. split; [done|].
    rewrite bool_decide_eq_true_2 by done. destruct skip; [|done]. by rewrite bool_decide_eq_false_2 by auto.
Qed.

Lemma kids_dom skip d S : kids_of skip d S ⊆ dom (nodes d).
Proof. intros i. rewrite elem_of_kids. intros (p & _ & r & Hi & _). by eapply elem_of_dom_2. Qed.

Lemma closure_incl n skip d S : S ⊆ closure n skip d S.
Proof. revert S. induction n as [|n IH]; intros S; simpl; [done|]. etrans; [|apply IH]. apply union_subseteq_l. Qed.

Lemma closure_sound n skip d S i : i ∈ closure n skip d S -> exists s, s ∈ S /\ rtc (par skip d) i s.
Proof.
  revert S. induction n as [|n IH]; intros S; simpl; [intros H; exists i; split; [done|apply rtc_refl]|].
  intros (s & [Hs|(p & Hp & Hk)%elem_of_kids]%elem_of_union & Hr)%IH; [by exists s|].
  exists p. split; [done|]. by eapply rtc_r.
Qed.

Lemma closure_stable n skip d S : kids_of skip d S ⊆ S -> closure n skip d S = S.
Proof.
  intros H. assert (HS : S ∪ kids_of skip d S = S) by set_solver.
  induction n as [|n IH]; simpl; [done|]. by rewrite HS.
Qed.

Lemma closure_closed n skip d S :
  (size (dom (nodes d) ∖ S) <= n)%nat -> kids_of skip d (closure n skip d S) ⊆ closure n skip d S.
Proof.
  revert S. induction n as [|n IH]; intros S Hn; simpl.
  - assert (dom (nodes d) ⊆ S) by (apply Nat.le_0_r, size_empty_inv in Hn; set_solver).
    pose proof (kids_dom skip d S). set_solver.
  - destruct (decide (kids_of skip d S ⊆ S)) as [Hk|Hk].
    + assert (HS : S ∪ kids_of skip d S = S) by set_solver. by rewrite HS, closure_stable.
    + apply IH. assert (Hlt : (size (dom (nodes d) ∖ (S ∪ kids_of skip d S)) < size (dom (nodes d) ∖ S))%nat); [|lia].
      apply subset_size. split; [set_solver|]. intros Hsub. apply Hk. intros i Hi.
      destruct (decide (i ∈ S)) as [|Hn']; [done|]. exfalso. pose proof (kids_dom skip d S i Hi). set_solver.
Qed.

Lemma elem_of_closed_below skip d S i : i ∈ closed_below skip d S <-> exists s, s ∈ S /\ rtc (par skip d) i s.
Proof.
  unfold closed_below. split; [apply closure_sound|]. intros (s & Hs & Hr).
  set (T := closure _ _ _ _). assert (HT : kids_of skip d T ⊆ T).
  { apply closure_closed. rewrite <- (size_dom (D:=gset Z)). apply subseteq_size, subseteq_difference_l. done. }
  assert (HsT : s ∈ T) by (by apply closure_incl).
  induction Hr as [x|x y z Hxy _ IH]; [done|]. apply HT, elem_of_kids. eauto.
Qed.

Lemma elem_of_subtree d ino i : i ∈ subtree d ino <-> rtc (par true d) i ino.
Proof. unfold subtree. rewrite elem_of_closed_below. set_solver. Qed.
Lemma tc_last {A} (R : relation A) x z : tc R x z <-> exists y, rtc R x y /\ R y z.
Proof.
  split; [|intros (y & Hxy & Hyz); by eapply tc_rtc_l, tc_once].
  induction 1 as [x z H|x y z H _ (u & Hr & Hu)]; [exists x; split; [done|done]|].
  exists u. split; [by eapply rtc_l|done].
Qed.

Lemma elem_of_below d ino i : i ∈ below d ino <-> tc (par true d) i ino.
Proof.
  unfold below. rewrite elem_of_closed_below, tc_last.
  setoid_rewrite elem_of_kids. setoid_rewrite elem_of_singleton. naive_solver.
Qed.

Lemma subtree_self d i : i ∈ subtree d i.
Proof. apply elem_of_subtree, rtc_refl. Qed.

(** Deleting below a set keeps whole subtrees out or in. *)
Definition lower (d : DB) (T : gset Z) : Prop := forall x p, par true d x p -> p ∈ T -> x ∈ T.

Lemma lower_rtc d T x p : lower d T -> rtc (par true d) x p -> p ∈ T -> x ∈ T.
Proof. intros HT. induction 1 as [|x y z Hxy _ IH]; [done|]. intros Hz. eapply HT; [exact Hxy|auto]. Qed.

Lemma lower_subtree d i : lower d (subtree d i).
Proof. intros x p Hx Hp. apply elem_of_subtree in Hp. apply elem_of_subtree. by eapply rtc_l. Qed.
Lemma lower_union d T U : lower d T -> lower d U -> lower d (T ∪ U).
Proof. intros HT HU x p Hx [Hp|Hp]%elem_of_union; apply elem_of_union; eauto. Qed.
Lemma lower_empty d : lower d ∅.
Proof. intros x p _ H. by apply not_elem_of_empty in H. Qed.

(** ** Dropping a set of inodes from every table *)

Definition without {A} (S : gset Z) (m : gmap Z A) : gmap Z A := filter (fun kv => fst kv ∉ S) m.
Lemma lookup_without {A} S (m : gmap Z A) i : without S m !! i = if decide (i ∈ S) then None else m !! i.
Proof.
  unfold without. apply option_eq. intros x. rewrite map_lookup_filter_Some. simpl.
  destruct (decide (i ∈ S)); naive_solver.
Qed.
Lemma without_union {A} S T (m : gmap Z A) : without S (without T m) = without (T ∪ S) m.
Proof. apply map_eq. intros i. rewrite !lookup_without. repeat case_decide; set_solver. Qed.
Lemma delete_without {A} i (m : gmap Z A) : delete i m = without {[i]} m.
Proof.
  apply map_eq. intros j. rewrite lookup_without. case_decide as H.
  - apply elem_of_singleton in H as ->. apply lookup_delete_eq.
  - rewrite lookup_delete_ne; [done|]. intros ->. apply H, elem_of_singleton. done.
Qed.
Lemma foldl_delete {A} l (m : gmap Z A) : foldl (fun m i => delete i m) m l = without (list_to_set l) m.
Proof.
  revert m. induction l as [|i l IH]; intros m; simpl.
  - apply map_eq. intros j. rewrite lookup_without. by case_decide.
  - by rewrite IH, delete_without, without_union.
Qed.
Lemma without_empty {A} (m : gmap Z A) : without ∅ m = m.
Proof. apply map_eq. intros i. rewrite lookup_without. by case_decide. Qed.

Definition drop_set (S : gset Z) (d : DB) : DB :=
  MkDB (without S (nodes d)) (seq d) (without S (dir_state d)) (without S (refresh d)) (pins d) (remote_cursor d)
    (without S (name_index d)) (without S (name_indexed d)) (without S (name_index_pending d))
    (without S (short_name_index d)) (copy_bindings d) (store_identity d) (copy_cleanup_fence d).

Lemma drop_drop S T d : drop_set S (drop_set T d) = drop_set (T ∪ S) d.
Proof. unfold drop_set; simpl. by rewrite !without_union. Qed.
Lemma drop_empty d : drop_set ∅ d = d.
Proof. destruct d. unfold drop_set; simpl. by rewrite !without_empty. Qed.

(** No search term and no refresh counter outlives its node. *)
Definition tidy (d : DB) : Prop :=
  forall i, nodes d !! i = None -> short_name_index d !! i = None /\ refresh d !! i = None.

Lemma tidy_drop S d : tidy d -> tidy (drop_set S d).
Proof. intros HT i. simpl. rewrite !lookup_without. case_decide; [done|]. apply HT. Qed.

Lemma par_drop S d i p : par true (drop_set S d) i p <-> i ∉ S /\ par true d i p.
Proof. unfold par. simpl. setoid_rewrite lookup_without. case_decide; naive_solver. Qed.

Lemma subtree_drop T d k : lower d T -> T ∪ subtree (drop_set T d) k = T ∪ subtree d k.
Proof.
  intros HT. apply set_eq. intros x. rewrite !elem_of_union, !elem_of_subtree. split; intros [H|H]; auto.
  - right. eapply rtc_subrel; [|exact H]. intros a b [_ Hab]%par_drop. exact Hab.
  - induction H as [z|a b z Hab Hr IH]; [right; apply rtc_refl|].
    destruct (decide (a ∈ T)) as [|HaT]; [by left|].
    destruct IH as [Hb|Hb]; [left; by eapply HT|]. right. eapply rtc_l; [|exact Hb]. by apply par_drop.
Qed.

Lemma subtree_drop_incl T d k : subtree (drop_set T d) k ⊆ subtree d k.
Proof.
  intros x. rewrite !elem_of_subtree. apply rtc_subrel. intros a b [_ Hab]%par_drop. exact Hab.
Qed.

Definition acyclic (d : DB) : Prop := forall i, ~ tc (par true d) i i.
Lemma acyclic_drop S d : acyclic d -> acyclic (drop_set S d).
Proof.
  intros HA i Hi. apply (HA i). eapply tc_congruence with (f := fun x => x); [|exact Hi].
  intros a b [_ Hab]%par_drop. exact Hab.
Qed.

Section Drop.
Context {F : Fold}.

Lemma forget_ino_eq i d :
  forget_ino i d =
  MkDB (nodes d) (seq d) (delete i (dir_state d)) (refresh d) (pins d) (remote_cursor d) (delete i (name_index d))
    (delete i (name_indexed d)) (delete i (name_index_pending d)) (short_name_index d) (copy_bindings d)
    (store_identity d) (copy_cleanup_fence d).
Proof. by destruct d. Qed.
Lemma delete_row_eq i r d :
  nodes d !! i = Some r -> i <> RootIno ->
  delete_row i d =
  MkDB (delete i (nodes d)) (seq d) (dir_state d) (delete i (refresh d)) (pins d) (remote_cursor d) (name_index d)
    (name_indexed d) (delete i (name_index_pending d)) (delete i (short_name_index d)) (copy_bindings d)
    (store_identity d) (copy_cleanup_fence d).
Proof. intros Hr Hi. unfold delete_row. rewrite Hr, decide_False by done. by destruct d. Qed.
Lemma delete_row_none i d : nodes d !! i = None -> delete_row i d = d.
Proof. intros H. unfold delete_row. by rewrite H. Qed.

Lemma delete_forget i d : tidy d -> i <> RootIno -> forget_ino i (delete_row i d) = drop_set {[i]} d.
Proof.
  intros HT Hi. rewrite forget_ino_eq. unfold drop_set. rewrite <- !delete_without. destruct (nodes d !! i) as [r|] eqn:Hn.
  - rewrite (delete_row_eq i r) by done. simpl. by rewrite delete_delete_eq.
  - destruct (HT i Hn) as [Hs Hr]. rewrite delete_row_none by done.
    by rewrite (delete_id (nodes d)), (delete_id (short_name_index d)), (delete_id (refresh d)).
Qed.

Lemma foldl_forget l d :
  foldl (fun d i => forget_ino i d) d l =
  let S := list_to_set l in
  MkDB (nodes d) (seq d) (without S (dir_state d)) (refresh d) (pins d) (remote_cursor d)
    (without S (name_index d)) (without S (name_indexed d)) (without S (name_index_pending d))
    (short_name_index d) (copy_bindings d) (store_identity d) (copy_cleanup_fence d).
Proof.
  revert d. induction l as [|i l IH]; intros d; simpl.
  - rewrite !without_empty. by destruct d.
  - rewrite IH, forget_ino_eq. simpl. by rewrite !delete_without, !without_union.
Qed.

Lemma foldl_delete_row l d :
  tidy d -> RootIno ∉ l -> (forall i, i ∈ l -> name_index_pending d !! i = None) ->
  foldl (fun d i => delete_row i d) d l =
  let S := list_to_set l in
  MkDB (without S (nodes d)) (seq d) (dir_state d) (without S (refresh d)) (pins d) (remote_cursor d)
    (name_index d) (name_indexed d) (name_index_pending d)
    (without S (short_name_index d)) (copy_bindings d) (store_identity d) (copy_cleanup_fence d).
Proof.
  revert d. induction l as [|i l IH]; intros d HT H1 Hp; simpl; [rewrite !without_empty; by destruct d|].
  assert (Hd : delete_row i d = MkDB (without {[i]} (nodes d)) (seq d) (dir_state d) (without {[i]} (refresh d)) (pins d)
      (remote_cursor d) (name_index d) (name_indexed d) (name_index_pending d) (without {[i]} (short_name_index d))
      (copy_bindings d) (store_identity d) (copy_cleanup_fence d)).
  { rewrite <- !delete_without. destruct (nodes d !! i) as [r|] eqn:Hn.
    - rewrite (delete_row_eq i r), (delete_id (name_index_pending d)); [done| |done|].
      + apply Hp. left.
      + intros ->. apply H1. left.
    - destruct (HT i Hn) as [Hs Hr]. rewrite delete_row_none, !delete_id by done. by destruct d. }
  rewrite Hd, IH; simpl.
  - simpl. by rewrite !without_union.
  - intros j. simpl. rewrite !lookup_without. case_decide; [done|]. apply HT.
  - intros H. apply H1. by right.
  - intros j Hj. simpl. apply Hp. by right.
Qed.

Lemma delete_set_drop S d : tidy d -> RootIno ∉ S -> delete_set S d = drop_set S d.
Proof.
  intros HT H1. unfold delete_set. rewrite foldl_delete_row, foldl_forget; simpl.
  - by rewrite !list_to_set_elements_L.
  - rewrite foldl_forget. exact HT.
  - by rewrite elem_of_elements.
  - intros i Hi. rewrite foldl_forget; simpl. rewrite lookup_without, list_to_set_elements_L.
    by rewrite decide_True by (by apply elem_of_elements).
Qed.

(** ** The recursive removal *)

Lemma tforeach_Ok {S' E A} (f : A -> Tx S' E unit) (I : list A -> S' -> Prop) l s :
  I l s -> (forall x l' s1, I (x :: l') s1 -> exists s2, f x s1 = Ok (tt, s2) /\ I l' s2) ->
  exists s', tforeach f l s = Ok (tt, s') /\ I [] s'.
Proof.
  intros HI Hf. revert s HI. induction l as [|x l IH]; intros s HI; simpl; [by exists s|].
  destruct (Hf x l s HI) as (s2 & H2 & HI2). unfold tbind. rewrite H2. by apply IH.
Qed.

Lemma removeSubtree_drop n ino d :
  tidy d -> acyclic d -> ino <> RootIno -> (size (subtree d ino) <= n)%nat ->
  removeSubtree n ino d = Ok (tt, drop_set (subtree d ino) d).
Proof.
  revert ino d. induction n as [|n IH]; intros ino d HT HA H1 Hn.
  { apply Nat.le_0_r, size_empty_inv in Hn. pose proof (subtree_self d ino). set_solver. }
  simpl. unfold tbind at 1, treads.
  set (kids := map fst (children d ino)).
  assert (Hk : forall k, k ∈ kids <-> par true d k ino).
  { intros k. unfold kids, par. rewrite list_elem_of_fmap. split.
    - intros ([j r] & -> & (Hj & Hp & Hne)%elem_of_children). exists r. done.
    - intros (r & Hr & <- & Hne). exists (k, r). split; [done|]. apply elem_of_children. auto. }
  destruct (tforeach_Ok (removeSubtree n)
    (fun l s => (forall k, k ∈ l -> k ∈ kids) /\ exists T, s = drop_set T d /\ lower d T /\
                T ∪ ⋃ (map (subtree d) l) = below d ino) kids d)
    as (s & Hs & _ & T & -> & HTl & HTb).
  - split; [done|]. exists ∅. rewrite drop_empty. split; [done|]. split; [apply lower_empty|].
    apply set_eq. intros x. rewrite elem_of_union, elem_of_union_list, elem_of_below, tc_last.
    setoid_rewrite list_elem_of_fmap. split.
    + intros [Hx|(U & (k & -> & Hkk) & Hx)]; [set_solver|]. apply elem_of_subtree in Hx. exists k. by rewrite <- Hk.
    + intros (k & Hr & Hkk). right. exists (subtree d k). rewrite elem_of_subtree. split; [|done].
      exists k. by rewrite Hk.
  - intros k l s (Hl & T & -> & HTl & HTb). exists (drop_set (T ∪ subtree d k) d). split.
    + assert (Hkk : par true d k ino) by (apply Hk, Hl; left).
      rewrite IH.
      * by rewrite drop_drop, subtree_drop.
      * by apply tidy_drop.
      * by apply acyclic_drop.
      * destruct Hkk as (r & _ & _ & H). by apply H.
      * assert (Hlt : (size (subtree d k) < size (subtree d ino))%nat).
        { apply subset_size. split.
          - intros x. rewrite !elem_of_subtree. intros Hx. eapply rtc_r; eauto.
          - intros Hsub. apply (HA ino). pose proof (Hsub _ (subtree_self d ino)) as Hi.
            apply elem_of_subtree in Hi. apply tc_last. eauto. }
        pose proof (subseteq_size _ _ (subtree_drop_incl T d k)). lia.
    + split; [intros k' Hk'; apply Hl; by right|]. exists (T ∪ subtree d k).
      split; [done|]. split; [apply lower_union; [done|apply lower_subtree]|].
      rewrite <- HTb. simpl. by rewrite (assoc_L (∪)).
  - unfold tbind. rewrite Hs. unfold tmodify. do 2 f_equal. simpl in HTb. rewrite union_empty_r_L in HTb. subst T.
    rewrite delete_forget by (by try apply tidy_drop). rewrite drop_drop. f_equal.
    apply set_eq. intros x. rewrite elem_of_union, elem_of_below, elem_of_singleton, elem_of_subtree, rtc_tc. naive_solver.
Qed.

Lemma removeSubtreeTx_drop ino d :
  tidy d -> acyclic d -> ino <> RootIno -> removeSubtreeTx ino d = Ok (tt, drop_set (subtree d ino) d).
Proof.
  intros HT HA H1. apply removeSubtree_drop; [done..|].
  etrans; [apply subseteq_size with (Y := {[ino]} ∪ dom (nodes d))|].
  - intros x. rewrite elem_of_subtree, elem_of_union, elem_of_singleton. intros [->|Hx]%rtc_tc; [by left|]. right.
    inversion Hx as [? ? (r & Hr & _)|? ? ? (r & Hr & _)]; subst; apply elem_of_dom; eauto.
  - rewrite size_union_alt, size_singleton. pose proof (subseteq_size (dom (nodes d) ∖ {[ino]}) (dom (nodes d))) as H.
    rewrite size_dom in H. specialize (H ltac:(apply subseteq_difference_l; done)). lia.
Qed.
End Drop.
