(* ===== verification/MetaInv.v ===== *)
(** * The invariant of the metadata database

    Every transaction is a sequence of a few kinds of events; each event keeps
    the invariant [WF]: rows are unique under their parents, the root stays, the
    tree has no cycle, inodes are never reused and the search index is
    complete. *)
From S2P Require Import Prelude GoLib Retry MetaState MetaTree MetaListing MetaCopy MetaRows.
Open Scope Z_scope.

Section Inv.
Context {F : Fold}.

Record WF (d : DB) : Prop := {
  wf_seq : forall i r, nodes d !! i = Some r -> 0 < i <= seq d;
  wf_uniq : uniq d;
  wf_root : exists r, nodes d !! RootIno = Some r /\ r_parent r = RootIno /\ r_name r = "" /\ r_kind r = KindDir;
  wf_acyclic : acyclic d;
  wf_parent : forall i r, nodes d !! i = Some r -> r_parent r <= seq d;
  wf_tidy : tidy d;
  wf_short : forall i r, nodes d !! i = Some r -> i <> RootIno ->
    short_name_index d !! i = Some (shortNameTerms (r_name r));
  wf_pending : forall i n, name_index_pending d !! i = Some n ->
    i <> RootIno /\ exists r, nodes d !! i = Some r /\ r_name r = n;
  wf_index : forall i r, nodes d !! i = Some r -> i <> RootIno -> name_index_pending d !! i = None ->
    name_index d !! i = Some (r_name r);
  wf_index_only : forall i n, name_index d !! i = Some n ->
    i <> RootIno /\ exists r, nodes d !! i = Some r /\ r_name r = n;
  wf_indexed : name_indexed d = name_index d;
  wf_bind : forall id i, copy_bindings d !! id = Some i -> 0 < i <= seq d
}.

(** ** Events *)

(** Two versions of a row in the same place of the tree. *)
Definition same_place (i : Z) (r x : Row) : Prop :=
  r_parent r = r_parent x /\ r_name r = r_name x /\ (i = RootIno -> r_kind r = r_kind x).

Definition moved_db (ino : Z) (r : Row) (p : Z) (n : string) (d : DB) : DB :=
  MkDB (<[ino := (r <| r_parent := p |>) <| r_name := n |>]> (nodes d)) (seq d) (dir_state d) (refresh d) (pins d)
    (remote_cursor d) (<[ino := n]> (name_index d)) (<[ino := n]> (name_indexed d)) (delete ino (name_index_pending d))
    (<[ino := shortNameTerms n]> (short_name_index d)) (copy_bindings d) (store_identity d) (copy_cleanup_fence d).

Inductive event (d : DB) : DB -> Prop :=
| ev_insert r ino d' : insert_row r d = Ok (ino, d') -> r_parent r <= seq d -> event d d'
| ev_content m :
    (forall i, match nodes d !! i, m !! i with
               | Some r, Some x => same_place i r x | None, None => True | _, _ => False end) ->
    event d (d <| nodes := m |>)
| ev_drop S : RootIno ∉ S -> event d (drop_set S d)
| ev_move ino r p n :
    nodes d !! ino = Some r -> ino <> RootIno -> p <= seq d -> p ∉ subtree d ino ->
    (forall i x, nodes d !! i = Some x -> r_parent x = p -> r_name x = n -> i = ino) ->
    event d (moved_db ino r p n d)
| ev_gens g :
    (forall i, is_Some (g !! i) -> is_Some (nodes d !! i)) ->
    (forall i x, refresh d !! i = Some x -> exists y, g !! i = Some y /\
       generation x <= generation y /\ stale_generation x <= stale_generation y) ->
    event d (d <| refresh := g |>)
| ev_index i r : nodes d !! i = Some r -> i <> RootIno ->
    event d (((d <| name_index ::= <[i := r_name r]> |>) <| name_indexed ::= <[i := r_name r]> |>)
               <| name_index_pending ::= delete i |>)
| ev_unpend i : is_Some (name_index d !! i) -> event d (d <| name_index_pending ::= delete i |>)
| ev_dirs m : event d (d <| dir_state := m |>)
| ev_pins m : event d (d <| pins := m |>)
| ev_cursor m : event d (d <| remote_cursor := m |>)
| ev_fence b : event d (d <| copy_cleanup_fence := b |>)
| ev_bind id i : copy_bindings d !! id = None -> 0 < i <= seq d -> event d (d <| copy_bindings ::= <[id := i]> |>).

Definition evs : DB -> DB -> Prop := rtc event.

Lemma insert_row_Ok r d ino d' :
  insert_row r d = Ok (ino, d') <->
  entry_at d (r_parent r) (r_name r) = None /\ ino = seq d + 1 /\
  d' = MkDB (<[ino := r]> (nodes d)) ino (dir_state d) (refresh d) (pins d) (remote_cursor d) (name_index d)
         (name_indexed d) (<[ino := r_name r]> (name_index_pending d))
         (<[ino := shortNameTerms (r_name r)]> (short_name_index d)) (copy_bindings d) (store_identity d)
         (copy_cleanup_fence d).
Proof.
  unfold insert_row. destruct (entry_at d _ _); [naive_solver|].
  assert (H : queue_name (seq d + 1) (r_name r) ((d <| nodes ::= <[seq d + 1 := r]> |>) <| MetaState.seq := seq d + 1 |>) =
    MkDB (<[seq d + 1 := r]> (nodes d)) (seq d + 1) (dir_state d) (refresh d) (pins d) (remote_cursor d) (name_index d)
         (name_indexed d) (<[seq d + 1 := r_name r]> (name_index_pending d))
         (<[seq d + 1 := shortNameTerms (r_name r)]> (short_name_index d)) (copy_bindings d) (store_identity d)
         (copy_cleanup_fence d)) by (by destruct d).
  rewrite H. split; [intros [= <- <-]; done|]. by intros (_ & -> & ->).
Qed.

(** ** Acyclicity *)

Lemma par_content d m :
  (forall i, match nodes d !! i, m !! i with
             | Some r, Some x => same_place i r x | None, None => True | _, _ => False end) ->
  forall i p, par true (d <| nodes := m |>) i p -> par true d i p.
Proof.
  intros H i p (x & Hx & <- & Hi). simpl in Hx. specialize (H i). rewrite Hx in H.
  destruct (nodes d !! i) as [r|] eqn:Hr; [|done]. destruct H as (Hp & _). by exists r.
Qed.

Lemma acyclic_sub d d' : acyclic d -> (forall i p, par true d' i p -> par true d i p) -> acyclic d'.
Proof. intros HA H i Hi. apply (HA i). eapply tc_congruence with (f := fun x => x); [|exact Hi]. exact H. Qed.

Lemma par_moved ino r p n d i q :
  par true (moved_db ino r p n d) i q <->
  (i = ino /\ q = p /\ ino <> RootIno) \/ (i <> ino /\ par true d i q).
Proof.
  unfold par, moved_db. simpl. destruct (decide (i = ino)) as [->|Hi].
  - rewrite lookup_insert_eq. split; [intros (x & [= <-] & <- & Hn); left; auto|].
    intros [(_ & -> & Hn)|[? _]]; [|done]. eexists. split; [done|]. auto.
  - rewrite lookup_insert_ne by done. naive_solver.
Qed.

Lemma rtc_moved ino r p n d x y :
  rtc (par true (moved_db ino r p n d)) x y ->
  rtc (par true d) x y \/ (rtc (par true d) x ino /\ rtc (par true (moved_db ino r p n d)) p y).
Proof.
  induction 1 as [x|x z y Hxz Hr IH]; [left; apply rtc_refl|].
  apply par_moved in Hxz as [(-> & -> & _)|[Hx Hxz]]; [right; split; [apply rtc_refl|done]|].
  destruct IH as [IH|[IH1 IH2]]; [left|right; split; [|done]]; by eapply rtc_l.
Qed.

Lemma acyclic_moved ino r p n d : acyclic d -> p ∉ subtree d ino -> acyclic (moved_db ino r p n d).
Proof.
  rewrite elem_of_subtree. intros HA Hp.
  assert (Hno : ~ rtc (par true (moved_db ino r p n d)) p ino) by (intros [H|[H _]]%rtc_moved; done).
  intros i (z & Hiz & Hzi)%tc_last. apply rtc_moved in Hiz as [Hiz|[Hi Hpz]].
  - apply par_moved in Hzi as [(-> & -> & _)|[Hz Hzi]]; [done|]. apply (HA i), tc_last. eauto.
  - assert (Hpi : rtc (par true (moved_db ino r p n d)) p i) by (by eapply rtc_r).
    apply rtc_moved in Hpi as [Hpi|[Hpi _]]; [|done]. apply Hp. by etrans.
Qed.

Lemma acyclic_insert d r ino d' :
  WF d -> insert_row r d = Ok (ino, d') -> r_parent r <= seq d -> acyclic d'.
Proof.
  intros HW (Hn & -> & ->)%insert_row_Ok Hp. set (d' := MkDB _ _ _ _ _ _ _ _ _ _ _ _ _).
  assert (Hpar : forall x y, par true d' x y -> y <> seq d + 1 /\ (x <> seq d + 1 -> par true d x y)).
  { intros x y (z & Hz & <- & Hx). simpl in Hz. destruct (decide (x = seq d + 1)) as [->|Hne].
    - rewrite lookup_insert_eq in Hz. injection Hz as <-. split; [lia|done].
    - rewrite lookup_insert_ne in Hz by done. pose proof (wf_parent d HW _ _ Hz). split; [lia|]. intros _. by exists z. }
  intros i Hi. apply (wf_acyclic d HW i).
  assert (Hne : i <> seq d + 1) by (apply tc_last in Hi as (z & _ & Hz); by apply Hpar in Hz as [? _]).
  revert Hi Hne. generalize i at 1 3 4 as x. intros x Hi. induction Hi as [x y H|x y z H _ IH]; intros Hne.
  - apply tc_once. by apply Hpar.
  - destruct (Hpar _ _ H) as [Hy Hx]. eapply tc_l; [by apply Hx|by apply IH].
Qed.

(** ** Each event keeps the invariant *)

Lemma WF_insert d r ino d' : WF d -> insert_row r d = Ok (ino, d') -> r_parent r <= seq d -> WF d'.
Proof.
  intros HW HI Hp. pose proof (acyclic_insert _ _ _ _ HW HI Hp) as HA.
  apply insert_row_Ok in HI as (Hn & -> & ->). rewrite entry_at_None in Hn.
  destruct (wf_root d HW) as (rr & Hrr & Hrest). pose proof (wf_seq d HW _ _ Hrr) as Hs. unfold RootIno in Hs.
  assert (Hfresh : forall i x, nodes d !! i = Some x -> i <> seq d + 1) by (intros i x Hx; pose proof (wf_seq d HW _ _ Hx); lia).
  assert (HN : nodes d !! (seq d + 1) = None) by (destruct (nodes d !! (seq d + 1)) eqn:H; [by apply Hfresh in H|done]).
  split; simpl; try exact HA.
  - intros i x. rewrite lookup_insert_Some. intros [[<- <-]|[_ Hx]]; [lia|]. pose proof (wf_seq d HW _ _ Hx). lia.
  - intros i j x y. simpl. rewrite !lookup_insert_Some. intros [[<- <-]|[Hi Hx]] [[<- <-]|[Hj Hy]] HP HNm; [done| | |].
    + by destruct (Hn j y Hy).
    + by destruct (Hn i x Hx).
    + by eapply (wf_uniq d HW).
  - exists rr. split; [|done]. rewrite lookup_insert_ne; [done|]. unfold RootIno. lia.
  - intros i x. rewrite lookup_insert_Some. intros [[<- <-]|[_ Hx]]; [lia|]. pose proof (wf_parent d HW _ _ Hx). lia.
  - intros i. simpl. rewrite lookup_insert_None. intros [Hi Hne]. rewrite lookup_insert_ne by done. by apply (wf_tidy d HW).
  - intros i x. rewrite lookup_insert_Some. intros [[<- <-]|[Hi Hx]] H1; [by rewrite lookup_insert_eq|].
    rewrite lookup_insert_ne by done. by apply (wf_short d HW).
  - intros i n. rewrite lookup_insert_Some. intros [[<- <-]|[Hi Hx]].
    + split; [unfold RootIno; lia|]. exists r. by rewrite lookup_insert_eq.
    + destruct (wf_pending d HW _ _ Hx) as (H1 & x & Hxx & Hnm). split; [done|]. exists x. by rewrite lookup_insert_ne.
  - intros i x. rewrite lookup_insert_Some. intros [[<- <-]|[Hi Hx]] H1; [by rewrite lookup_insert_eq|].
    rewrite lookup_insert_ne by done. by apply (wf_index d HW).
  - intros i n Hx. destruct (wf_index_only d HW _ _ Hx) as (H1 & x & Hxx & Hnm). split; [done|]. exists x.
    rewrite lookup_insert_ne; [done|]. apply not_eq_sym. by eapply Hfresh.
  - apply (wf_indexed d HW).
  - intros id i Hi. pose proof (wf_bind d HW _ _ Hi). lia.
Qed.

Lemma WF_content d m :
  (forall i, match nodes d !! i, m !! i with
             | Some r, Some x => same_place i r x | None, None => True | _, _ => False end) ->
  WF d -> WF (d <| nodes := m |>).
Proof.
  intros H HW.
  assert (Hb : forall i x, m !! i = Some x -> exists r, nodes d !! i = Some r /\ same_place i r x).
  { intros i x Hx. specialize (H i). rewrite Hx in H. destruct (nodes d !! i) as [r|]; [|done]. eauto. }
  assert (Hf : forall i r, nodes d !! i = Some r -> exists x, m !! i = Some x /\ same_place i r x).
  { intros i r Hr. specialize (H i). rewrite Hr in H. destruct (m !! i) as [x|]; [|done]. eauto. }
  split; simpl.
  - intros i x (r & Hr & _)%Hb. by eapply (wf_seq d HW).
  - intros i j x y (r & Hr & Hp & Hn & _)%Hb (r2 & Hr2 & Hp2 & Hn2 & _)%Hb HP HN.
    eapply (wf_uniq d HW); [exact Hr|exact Hr2|congruence|congruence].
  - destruct (wf_root d HW) as (r & Hr & Hp & Hn & Hk). destruct (Hf _ _ Hr) as (x & Hx & Hp' & Hn' & Hk').
    exists x. split; [done|]. rewrite <- Hp', <- Hn', <- Hk' by done. done.
  - eapply acyclic_sub; [apply (wf_acyclic d HW)|]. by apply par_content.
  - intros i x (r & Hr & Hp & _)%Hb. rewrite <- Hp. by eapply (wf_parent d HW).
  - intros i Hi. simpl in *. apply (wf_tidy d HW). specialize (H i). rewrite Hi in H. by destruct (nodes d !! i).
  - intros i x (r & Hr & _ & Hn & _)%Hb H1. rewrite <- Hn. by apply (wf_short d HW).
  - intros i n Hi. destruct (wf_pending d HW _ _ Hi) as (H1 & r & Hr & Hn). split; [done|].
    destruct (Hf _ _ Hr) as (x & Hx & _ & Hn' & _). exists x. split; [done|]. congruence.
  - intros i x (r & Hr & _ & Hn & _)%Hb H1 Hpn. rewrite <- Hn. by apply (wf_index d HW).
  - intros i n Hi. destruct (wf_index_only d HW _ _ Hi) as (H1 & r & Hr & Hn). split; [done|].
    destruct (Hf _ _ Hr) as (x & Hx & _ & Hn' & _). exists x. split; [done|]. congruence.
  - apply (wf_indexed d HW).
  - apply (wf_bind d HW).
Qed.

Lemma WF_drop d S : RootIno ∉ S -> WF d -> WF (drop_set S d).
Proof.
  intros HS HW. split; simpl.
  - intros i r. rewrite lookup_without. case_decide; [done|]. apply (wf_seq d HW).
  - intros i j r x. simpl. rewrite !lookup_without. do 2 (case_decide; [done|]). apply (wf_uniq d HW).
  - destruct (wf_root d HW) as (r & Hr & H). exists r. rewrite lookup_without, decide_False by done. done.
  - apply acyclic_drop, (wf_acyclic d HW).
  - intros i r. rewrite lookup_without. case_decide; [done|]. apply (wf_parent d HW).
  - apply tidy_drop, (wf_tidy d HW).
  - intros i r. rewrite !lookup_without. case_decide; [done|]. apply (wf_short d HW).
  - intros i n. setoid_rewrite lookup_without. case_decide; [done|]. apply (wf_pending d HW).
  - intros i r. rewrite !lookup_without. case_decide; [done|]. apply (wf_index d HW).
  - intros i n. setoid_rewrite lookup_without. case_decide; [done|]. apply (wf_index_only d HW).
  - by rewrite (wf_indexed d HW).
  - apply (wf_bind d HW).
Qed.

Lemma WF_moved d ino r p n :
  nodes d !! ino = Some r -> ino <> RootIno -> p <= seq d -> p ∉ subtree d ino ->
  (forall i x, nodes d !! i = Some x -> r_parent x = p -> r_name x = n -> i = ino) ->
  WF d -> WF (moved_db ino r p n d).
Proof.
  intros Hr H1 Hp Hsub Hfree HW.
  pose proof (acyclic_moved ino r p n d (wf_acyclic d HW) Hsub) as HA.
  split; try exact HA; unfold moved_db; simpl.
  - intros i x. rewrite lookup_insert_Some. intros [[<- <-]|[_ Hx]]; by eapply (wf_seq d HW).
  - intros i j x y. simpl. rewrite !lookup_insert_Some. intros [[<- <-]|[Hi Hx]] [[<- <-]|[Hj Hy]]; simpl; intros HP HN.
    + done.
    + symmetry. by eapply Hfree.
    + by eapply Hfree.
    + by eapply (wf_uniq d HW).
  - destruct (wf_root d HW) as (x & Hx & H). exists x. split; [|done]. by rewrite lookup_insert_ne.
  - intros i x. rewrite lookup_insert_Some. intros [[<- <-]|[_ Hx]]; [done|]. by eapply (wf_parent d HW).
  - intros i. simpl. rewrite lookup_insert_None. intros [Hi Hne]. rewrite lookup_insert_ne by done. by apply (wf_tidy d HW).
  - intros i x. rewrite lookup_insert_Some. intros [[<- <-]|[Hi Hx]] Hi1; [by rewrite lookup_insert_eq|].
    rewrite lookup_insert_ne by done. by apply (wf_short d HW).
  - intros i m. rewrite lookup_delete_Some. intros [Hi Hm]. destruct (wf_pending d HW _ _ Hm) as (Hi1 & x & Hx & Hn).
    split; [done|]. exists x. by rewrite lookup_insert_ne.
  - intros i x. rewrite lookup_insert_Some. intros [[<- <-]|[Hi Hx]] Hi1; [by rewrite lookup_insert_eq|].
    rewrite lookup_insert_ne, lookup_delete_ne by done. by apply (wf_index d HW).
  - intros i m. rewrite lookup_insert_Some. intros [[<- <-]|[Hi Hm]].
    + split; [done|]. eexists. by rewrite lookup_insert_eq.
    + destruct (wf_index_only d HW _ _ Hm) as (Hi1 & x & Hx & Hn). split; [done|]. exists x. by rewrite lookup_insert_ne.
  - by rewrite (wf_indexed d HW).
  - apply (wf_bind d HW).
Qed.

Lemma WF_gens d g : (forall i, is_Some (g !! i) -> is_Some (nodes d !! i)) -> WF d -> WF (d <| refresh := g |>).
Proof.
  intros Hg [? ? ? ? ? HT ? ? ? ? ? ?]. split; simpl; try done. intros i Hi. simpl in *. split; [by apply HT|].
  destruct (g !! i) eqn:H; [|done]. destruct (Hg i) as [x Hx]; [eauto|]. congruence.
Qed.

Lemma WF_index d i r :
  nodes d !! i = Some r -> i <> RootIno -> WF d ->
  WF (((d <| name_index ::= <[i := r_name r]> |>) <| name_indexed ::= <[i := r_name r]> |>) <| name_index_pending ::= delete i |>).
Proof.
  intros Hr H1 [? ? ? ? ? ? ? HP HI HO HM ?]. split; simpl; try done.
  - intros j n. rewrite lookup_delete_Some. intros [_ Hj]. by apply HP.
  - intros j x Hx Hj. destruct (decide (j = i)) as [->|Hne].
    + intros _. rewrite lookup_insert_eq. congruence.
    + rewrite lookup_insert_ne, lookup_delete_ne by done. by apply HI.
  - intros j n. rewrite lookup_insert_Some. intros [[<- <-]|[Hj Hn]]; [eauto|by apply HO].
  - by rewrite HM.
Qed.

Lemma WF_unpend d i : is_Some (name_index d !! i) -> WF d -> WF (d <| name_index_pending ::= delete i |>).
Proof.
  intros [n Hn] [? ? ? ? ? ? ? HP HI HO HM ?]. split; simpl; try done.
  - intros j m. rewrite lookup_delete_Some. intros [_ Hj]. by apply HP.
  - intros j x Hx Hj. destruct (decide (j = i)) as [->|Hne].
    + intros _. destruct (HO _ _ Hn) as (_ & y & Hy & Hny). congruence.
    + rewrite lookup_delete_ne by done. by apply HI.
Qed.

Theorem event_WF d d' : event d d' -> WF d -> WF d'.
Proof.
  intros HE HW. destruct HE.
  - by eapply WF_insert.
  - by apply WF_content.
  - by apply WF_drop.
  - by apply WF_moved.
  - by apply WF_gens.
  - by apply WF_index.
  - by apply WF_unpend.
  - destruct HW; by split.
  - destruct HW; by split.
  - destruct HW; by split.
  - destruct HW; by split.
  - destruct HW as [? ? ? ? ? ? ? ? ? ? ? HB]. split; try done. simpl. intros id' j. rewrite lookup_insert_Some.
    intros [[<- <-]|[_ Hj]]; [done|]. by eapply HB.
Qed.

Lemma evs_WF d d' : evs d d' -> WF d -> WF d'.
Proof. induction 1; eauto using event_WF. Qed.

(** ** What events never undo *)

Lemma evs_seq d d' : evs d d' -> seq d <= seq d'.
Proof.
  induction 1 as [|x y z H _ IH]; [lia|]. assert (seq x <= seq y); [|lia]. destruct H; simpl; try lia.
  apply insert_row_Ok in H as (_ & -> & ->). simpl. lia.
Qed.

(** An inode that is gone stays gone. *)
Lemma evs_gone d d' i : evs d d' -> i <= seq d -> nodes d !! i = None -> nodes d' !! i = None.
Proof.
  induction 1 as [|x y z H _ IH]; intros Hi Hn; [done|]. apply IH.
  - assert (seq x <= seq y); [|lia]. apply evs_seq. by apply rtc_once.
  - destruct H; simpl; try done.
    + apply insert_row_Ok in H as (_ & -> & ->). simpl. rewrite lookup_insert_ne by lia. done.
    + specialize (H i). rewrite Hn in H. by destruct (m !! i).
    + rewrite lookup_without. by case_decide.
    + rewrite lookup_insert_ne by congruence. done.
Qed.

(** A directory's counters only grow while it exists. *)
Lemma evs_gens d d' i x :
  WF d -> evs d d' -> is_Some (nodes d' !! i) -> refresh d !! i = Some x ->
  exists y, refresh d' !! i = Some y /\ generation x <= generation y /\ stale_generation x <= stale_generation y.
Proof.
  intros HW HE Hi. revert x. induction HE as [d|a b c H Hr IH]; intros x Hx; [exists x; split; [done|lia]|].
  assert (HWb : WF b) by (by eapply event_WF).
  assert (Hb : exists y, refresh b !! i = Some y /\ generation x <= generation y /\ stale_generation x <= stale_generation y).
  { destruct H; simpl; try (exists x; split; [done|lia]).
    - apply insert_row_Ok in H as (_ & -> & ->). exists x; simpl; split; [done|lia].
    - rewrite lookup_without. case_decide as HS; [|exists x; split; [done|lia]]. exfalso.
      assert (Hnone : nodes c !! i = None); [|rewrite Hnone in Hi; by destruct Hi].
      destruct (nodes a !! i) as [r|] eqn:Hai; [|by destruct (wf_tidy a HW i Hai); congruence].
      apply (evs_gone _ _ _ Hr); simpl; [by apply (wf_seq a HW _ _ Hai)|]. rewrite lookup_without. by rewrite decide_True.
    - by apply H0. }
  destruct Hb as (y & Hy & Hg & Hs). destruct (IH HWb Hi y Hy) as (z & Hz & Hg' & Hs'). exists z. split; [done|lia].
Qed.

Lemma evs_bindings d d' id i : evs d d' -> copy_bindings d !! id = Some i -> copy_bindings d' !! id = Some i.
Proof.
  induction 1 as [|x y z H _ IH]; intros Hi; [done|]. apply IH. destruct H; simpl; try done.
  - by apply insert_row_Ok in H as (_ & -> & ->).
  - rewrite lookup_insert_ne; congruence.
Qed.

Lemma evs_identity d d' : evs d d' -> store_identity d' = store_identity d.
Proof.
  induction 1 as [|x y z H _ IH]; [done|]. rewrite IH. destruct H; simpl; try done.
  by apply insert_row_Ok in H as (_ & -> & ->).
Qed.
End Inv.
