(* ===== verification/MetaReach.v ===== *)
(** * Operations as events

    Every transaction of the store, run on a database that satisfies [WF], is a
    sequence of events; [mstep] is one call of any public operation, under what
    its callers guarantee. *)
From S2P Require Import Prelude GoLib Retry MetaState MetaTree MetaListing MetaCopy MetaRows MetaInv.
Open Scope Z_scope.

Section Reach.
Context {F : Fold}.

(** ** Transactions that only make events *)

(** Every row stays where it is. *)
Definition keeps_places (d d' : DB) : Prop :=
  forall i r, nodes d !! i = Some r -> exists x, nodes d' !! i = Some x /\ r_parent x = r_parent r /\ r_name x = r_name r.

(** A way to say what a transaction may do: at least the events that leave
    every row in its place. *)
Class Effect (R : DB -> DB -> Prop) := {
  change_refl d : R d d;
  change_trans d1 d2 d3 : WF d1 -> R d1 d2 -> R d2 d3 -> R d1 d3;
  change_evs d d' : R d d' -> evs d d';
  change_quiet d d' : WF d -> event d d' -> keeps_places d d' -> R d d'
}.
#[export] Instance evs_change : Effect evs.
Proof.
  split; [intros d; apply rtc_refl| |done|intros d d' _ H _; by apply rtc_once]. intros d1 d2 d3 _ H. by etrans.
Qed.

Lemma keeps_places_refl d : keeps_places d d.
Proof. intros i r Hr. by exists r. Qed.
Lemma keeps_places_trans d1 d2 d3 : keeps_places d1 d2 -> keeps_places d2 d3 -> keeps_places d1 d3.
Proof.
  intros H1 H2 i r Hr. destruct (H1 i r Hr) as (x & Hx & Hp & Hn). destruct (H2 i x Hx) as (y & Hy & Hp' & Hn').
  exists y. split; [done|]. split; congruence.
Qed.
Lemma keeps_places_nodes d d' : nodes d' = nodes d -> keeps_places d d'.
Proof. intros H i r Hr. exists r. by rewrite H. Qed.

Section Rel.
Context {R : DB -> DB -> Prop} `{HR : !Effect R}.

Definition tr {A} (P : DB -> Prop) (m : Tx DB merr A) : Prop :=
  forall d a d', WF d -> P d -> m d = Ok (a, d') -> R d d'.
(** A condition no such change breaks. *)
Definition stays (P : DB -> Prop) : Prop := forall d d', WF d -> R d d' -> P d -> P d'.

Lemma tr_weaken {A} (P Q : DB -> Prop) (m : Tx DB merr A) : (forall d, P d -> Q d) -> tr Q m -> tr P m.
Proof. intros H Hm d a d' HW HP. eauto. Qed.
Lemma tr_WF {A} P (m : Tx DB merr A) d a d' : tr P m -> WF d -> P d -> m d = Ok (a, d') -> WF d'.
Proof. intros H HW HP Hm. eapply evs_WF; [eapply change_evs, H|]; eauto. Qed.

Lemma tr_bind {A B} P (m : Tx DB merr A) (k : A -> Tx DB merr B) :
  stays P -> tr P m -> (forall a, tr P (k a)) -> tr P (tbind m k).
Proof.
  intros HS Hm Hk d b d' HW HP (a & s1 & H1 & H2)%tbind_Ok.
  pose proof (Hm _ _ _ HW HP H1) as E1. eapply change_trans; [exact HW|exact E1|].
  eapply Hk; [by eapply evs_WF; [apply change_evs|]|by eapply HS|exact H2].
Qed.
Lemma tr_ret {A} P (a : A) : tr P (tret a).
Proof. intros d b d' _ _ [= <- <-]. apply change_refl. Qed.
Lemma tr_fail {A} P e : tr P (tfail (A:=A) e).
Proof. by intros d b d' _ _ H. Qed.
Lemma tr_reads {A} P (f : DB -> A) : tr P (treads f).
Proof. intros d b d' _ _ [= <- <-]. apply change_refl. Qed.
Lemma tr_modify P (f : DB -> DB) : (forall d, WF d -> P d -> R d (f d)) -> tr P (tmodify f).
Proof. intros H d b d' HW HP [= <- <-]. by apply H. Qed.
Lemma tr_foreach {A} P (f : A -> Tx DB merr unit) l : stays P -> (forall x, x ∈ l -> tr P (f x)) -> tr P (tforeach f l).
Proof.
  intros HS Hf. induction l as [|x l IH]; simpl; [apply tr_ret|].
  apply tr_bind; [done|apply Hf; left|]. intros _. apply IH. intros y Hy. apply Hf. by right.
Qed.
Lemma tr_tfold {A B} P (f : A -> B -> Tx DB merr B) l b :
  stays P -> (forall x b, x ∈ l -> tr P (f x b)) -> tr P (tfold f l b).
Proof.
  intros HS Hf. revert b. induction l as [|x l IH]; intros b; simpl; [apply tr_ret|].
  apply tr_bind; [done|apply Hf; left|]. intros b'. apply IH. intros y c Hy. apply Hf. by right.
Qed.
Lemma tr_if {A} P (b : bool) (m k : Tx DB merr A) : tr P m -> tr P k -> tr P (if b then m else k).
Proof. by destruct b. Qed.

(** [tr], and what the transaction returns satisfies [Q]. *)
Definition tr_post {A} (P : DB -> Prop) (Q : A -> Prop) (m : Tx DB merr A) : Prop :=
  forall d a d', WF d -> P d -> m d = Ok (a, d') -> R d d' /\ Q a.
Lemma tr_post_bind {A B} P (Q : A -> Prop) (T : B -> Prop) (m : Tx DB merr A) (k : A -> Tx DB merr B) :
  stays P -> tr_post P Q m -> (forall a, Q a -> tr_post P T (k a)) -> tr_post P T (tbind m k).
Proof.
  intros HS Hm Hk d b d' HW HP (a & s1 & H1 & H2)%tbind_Ok.
  destruct (Hm _ _ _ HW HP H1) as [E1 HQ].
  destruct (Hk a HQ s1 b d') as [E2 HT]; [eapply evs_WF; [by apply change_evs|done]|by eapply HS|done|].
  split; [exact (change_trans _ _ _ HW E1 E2)|done].
Qed.
Lemma tr_post_ret {A} P (Q : A -> Prop) a : Q a -> tr_post P Q (tret a).
Proof. intros HQ d b d' _ _ [= <- <-]. split; [apply change_refl|done]. Qed.
Lemma tr_post_of {A} P (m : Tx DB merr A) : tr P m -> tr_post P (fun _ => True) m.
Proof. intros H d a d' HW HP Hm. split; [eauto|done]. Qed.
Lemma tr_of_post {A} P Q (m : Tx DB merr A) : tr_post P Q m -> tr P m.
Proof. intros H d a d' HW HP Hm. by destruct (H _ _ _ HW HP Hm). Qed.
Lemma tr_post_tfold {A B} P (Q : B -> Prop) (f : A -> B -> Tx DB merr B) l b :
  stays P -> Q b -> (forall x b, x ∈ l -> Q b -> tr_post P Q (f x b)) -> tr_post P Q (tfold f l b).
Proof.
  intros HS HQ Hf. revert b HQ. induction l as [|x l IH]; intros b HQ; simpl; [by apply tr_post_ret|].
  eapply tr_post_bind; [done|apply Hf; [left|done]|]. intros b' HQ'. apply IH; [|done]. intros y c Hy. apply Hf. by right.
Qed.

(** ** Statements *)

Lemma update_row_event i f d :
  (forall r, nodes d !! i = Some r -> same_place i r (f r)) -> event d (update_row i f d).
Proof.
  intros H. apply (ev_content d (alter f i (nodes d))). intros j. destruct (decide (j = i)) as [->|Hj].
  - rewrite lookup_alter_eq. destruct (nodes d !! i); simpl; auto.
  - rewrite lookup_alter_ne by done. by destruct (nodes d !! j).
Qed.
Lemma update_row_places i f d :
  (forall r, nodes d !! i = Some r -> same_place i r (f r)) -> keeps_places d (update_row i f d).
Proof.
  intros H j r Hr. unfold update_row. simpl. destruct (decide (j = i)) as [->|Hj].
  - exists (f r). rewrite lookup_alter_eq, Hr. destruct (H r Hr) as (Hp & Hn & _). auto.
  - exists r. by rewrite lookup_alter_ne.
Qed.
Lemma change_update i f d :
  WF d -> (forall r, nodes d !! i = Some r -> same_place i r (f r)) -> R d (update_row i f d).
Proof. intros HW H. apply change_quiet; [done|by apply update_row_event|by apply update_row_places]. Qed.

Lemma lookup_update_rows P f d i :
  nodes (update_rows P f d) !! i = (fun r => if P i r then f r else r) <$> nodes d !! i.
Proof. unfold update_rows. simpl. rewrite map_lookup_imap. by destruct (nodes d !! i). Qed.
Lemma change_update_rows P f d : WF d -> (forall i r, same_place i r (f r)) -> R d (update_rows P f d).
Proof.
  intros HW H. apply change_quiet; [done| |].
  - apply (ev_content d (nodes (update_rows P f d))). intros i. rewrite lookup_update_rows.
    destruct (nodes d !! i); simpl; [|done]. by destruct (P i r).
  - intros i r Hr. rewrite lookup_update_rows, Hr. eexists. split; [done|]. destruct (H i r) as (Hp & Hn & _). by destruct (P i r).
Qed.

Lemma tr_update P i f : (forall r, same_place i r (f r)) -> tr P (tmodify (update_row i f)).
Proof. intros H. apply tr_modify. intros d HW _. apply change_update; auto. Qed.
Lemma tr_update_rows P Q f : (forall i r, same_place i r (f r)) -> tr P (tmodify (update_rows Q f)).
Proof. intros H. apply tr_modify. intros d HW _. by apply change_update_rows. Qed.

Lemma insert_places r d ino d' : WF d -> insert_row r d = Ok (ino, d') -> keeps_places d d'.
Proof.
  intros HW (_ & -> & ->)%insert_row_Ok i x Hx. exists x. simpl. rewrite lookup_insert_ne; [done|].
  pose proof (wf_seq d HW _ _ Hx). lia.
Qed.
Lemma tr_insert P r : (forall d, P d -> r_parent r <= seq d) -> tr P (insert_row r).
Proof. intros H d a d' HW HP HI. apply change_quiet; [done|eapply ev_insert; eauto|by eapply insert_places]. Qed.

Lemma change_dirs d m : WF d -> R d (d <| dir_state := m |>).
Proof. intros HW. apply change_quiet; [done|apply ev_dirs|by apply keeps_places_nodes]. Qed.

Lemma alter_gens_event f d i :
  (forall g, generation g <= generation (f g) /\ stale_generation g <= stale_generation (f g)) -> WF d ->
  event d (d <| refresh ::= alter f i |>).
Proof.
  intros H HW. apply (ev_gens d (alter f i (refresh d))).
  - intros j [y Hy]. destruct (nodes d !! j) eqn:Hn; [eauto|]. destruct (wf_tidy d HW j Hn) as [_ Hr].
    destruct (decide (j = i)) as [->|Hj]; [rewrite lookup_alter_eq in Hy|rewrite lookup_alter_ne in Hy by done]; by rewrite Hr in Hy.
  - intros j x Hx. destruct (decide (j = i)) as [->|Hj].
    + exists (f x). rewrite lookup_alter_eq, Hx. auto.
    + exists x. rewrite lookup_alter_ne by done. split; [done|lia].
Qed.

Lemma tr_bump P f dirs :
  (forall g, generation g <= generation (f g) /\ stale_generation g <= stale_generation (f g)) ->
  tr P (bumpListingCounters f dirs).
Proof.
  intros H. apply (tr_weaken P (fun _ => True)); [done|]. unfold bumpListingCounters. apply tr_foreach; [done|]. intros x _.
  apply tr_modify. intros d HW _. apply change_quiet; [done|by apply alter_gens_event|by apply keeps_places_nodes].
Qed.
Lemma tr_fence P dirs : tr P (fenceDirListingTx dirs).
Proof. apply tr_bump. intros g. simpl. lia. Qed.
Lemma tr_stale P dirs : tr P (markDirStaleTx dirs).
Proof. apply tr_bump. intros g. simpl. lia. Qed.
End Rel.
#[global] Arguments tr : clear implicits.
#[global] Arguments tr R {A}.
#[global] Arguments tr_post : clear implicits.
#[global] Arguments tr_post R {A}.
#[global] Arguments stays : clear implicits.

Definition always (d : DB) : Prop := True.
Definition known (p : Z) (d : DB) : Prop := p <= seq d.
Lemma stays_always R : stays R always. Proof. done. Qed.
Lemma stays_known R `{!Effect R} p : stays R (known p).
Proof. intros d d' _ H Hp. unfold known in *. apply change_evs, evs_seq in H. lia. Qed.
Lemma stays_from R `{!Effect R} d0 : WF d0 -> stays R (R d0).
Proof. intros HW d d' _ H Hp. exact (change_trans _ _ _ HW Hp H). Qed.

Lemma root_not_below d i : i <> RootIno -> RootIno ∉ subtree d i.
Proof.
  intros Hi H. apply elem_of_subtree, rtc_tc in H as [<-|H]; [done|].
  inversion H as [? ? (r & _ & _ & Hn)|? ? ? (r & _ & _ & Hn)]; by apply Hn.
Qed.
Lemma drop_evs d i : i <> RootIno -> evs d (drop_set (subtree d i) d).
Proof. intros Hi. by apply rtc_once, ev_drop, root_not_below. Qed.

Lemma tr_remove P ino : ino <> RootIno -> tr evs P (removeSubtreeTx ino).
Proof.
  intros H1 d [] d' HW _ H. rewrite removeSubtreeTx_drop in H by (by try apply HW). injection H as <-. by apply drop_evs.
Qed.

Lemma prepare_eq old protect d :
  WF d -> Ino old <> RootIno ->
  prepareDirectoryReplacementTx old protect d =
  if match protect with Some f => protectedSubtree d (Ino old) f | None => false end
  then Ok (true, d) else Ok (false, drop_set (subtree d (Ino old)) d).
Proof.
  intros HW H1. unfold prepareDirectoryReplacementTx. rewrite delete_set_drop; [done|apply HW|by apply root_not_below].
Qed.
Lemma tr_prepare R `{!Effect R} P old protect :
  Ino old <> RootIno -> (forall d, WF d -> P d -> R d (drop_set (subtree d (Ino old)) d)) ->
  tr R P (prepareDirectoryReplacementTx old protect).
Proof.
  intros H1 HD d a d' HW HP. rewrite prepare_eq by done.
  destruct (match protect with Some f => _ | None => _ end); intros [= <- <-]; [apply change_refl|by apply HD].
Qed.

(** Dropping what hangs below a directory, too, is such a change. *)
Class Prune (dir : Z) (R : DB -> DB -> Prop) := {
  prune_change :: Effect R;
  prune_drop d0 d c r : WF d0 -> WF d -> nodes d0 !! c = Some r -> r_parent r = dir -> c <> RootIno -> R d0 d ->
    R d (drop_set (subtree d c) d)
}.
#[export] Instance evs_prune dir : Prune dir evs.
Proof. split; [apply _|]. intros d0 d c r _ _ _ _ Hc _. by apply drop_evs. Qed.

(** ** Writing nodes *)

(** A node may be put there: its parent's inode was handed out, and it is not
    the root's own name. *)
Definition placeable (n : Node) (d : DB) : Prop :=
  ParentIno n <= seq d /\ ~ (ParentIno n = RootIno /\ Name n = "").
Lemma stays_placeable R `{!Effect R} n : stays R (placeable n).
Proof. intros d d' HW H [Hp Hn]. split; [|done]. apply change_evs, evs_seq in H. lia. Qed.

Lemma entry_not_root d p n i r : WF d -> entry_at d p n = Some (i, r) -> ~ (p = RootIno /\ n = "") -> i <> RootIno.
Proof.
  intros HW (Hr & Hp & Hn)%entry_at_Some Hne ->. destruct (wf_root d HW) as (x & Hx & HP & HN & _).
  rewrite Hx in Hr. injection Hr as ->. apply Hne. split; congruence.
Qed.

Lemma bind_row_parent n : r_parent (bind_row n) = ParentIno n. Proof. done. Qed.
Lemma fillMode_place n : ParentIno (fillMode n) = ParentIno n /\ Name (fillMode n) = Name n.
Proof. unfold fillMode. repeat case_match; done. Qed.
Lemma with_fetched_place t n : ParentIno (with_fetched t n) = ParentIno n /\ Name (with_fetched t n) = Name n.
Proof. unfold with_fetched. case_match; done. Qed.

Lemma tr_upsert R `{!Effect R} t n : tr R (placeable n) (upsertNodeTx t n).
Proof.
  intros d ino d' HW [Hp Hne]. unfold upsertNodeTx. set (m := fillMode _).
  assert (Hm : ParentIno m = ParentIno n /\ Name m = Name n).
  { destruct (fillMode_place (with_fetched t n)), (with_fetched_place t n). unfold m. split; congruence. }
  destruct Hm as [Hm1 Hm2]. rewrite Hm1, Hm2. destruct (entry_at d _ _) as [[i r]|] eqn:He.
  - intros [= <- <-]. apply change_update; [done|]. intros x _. split; [done|]. split; [done|].
    intros ->. exfalso. by eapply (entry_not_root d).
  - intros H. revert H. apply (tr_bind (known (ParentIno n))); [by apply stays_known| | |done..].
    + apply tr_insert. intros s Hs. rewrite bind_row_parent, Hm1. exact Hs.
    + intros j. apply tr_bind; [by apply stays_known| |intros _; apply tr_ret].
      apply tr_modify. intros s HWs _. destruct (IsDir m); [|apply change_refl]. unfold ensure_dir.
      destruct (dir_state s !! j); [apply change_refl|]. by apply (change_dirs s (<[j := _]> (dir_state s))).
Qed.

Lemma same_place_content i r x : i <> RootIno -> same_place i r (set_content x r).
Proof. intros Hi. split; [done|]. split; [done|]. done. Qed.

Lemma known_child d i r dir : WF d -> nodes d !! i = Some r -> r_parent r = dir -> known dir d.
Proof. intros HW Hi <-. by apply (wf_parent d HW i). Qed.
Lemma known_ino d i r : WF d -> nodes d !! i = Some r -> known i d.
Proof. intros HW Hi. by apply (wf_seq d HW i r). Qed.

(** ** Moving *)

Definition bump_map (f : Gen -> Gen) (dirs : list Z) (g : gmap Z Gen) : gmap Z Gen :=
  foldl (fun g i => alter f i g) g (remove_dups dirs).

Lemma bump_eq f dirs d :
  bumpListingCounters f dirs d = Ok (tt, d <| refresh := bump_map f dirs (refresh d) |>).
Proof.
  unfold bumpListingCounters, bump_map. generalize (remove_dups dirs) as l. intros l. revert d.
  induction l as [|i l IH]; intros d; simpl; [by destruct d|]. unfold tbind, tmodify. rewrite IH. by destruct d.
Qed.

Lemma lookup_foldl_alter f l (g : gmap Z Gen) i :
  NoDup l -> foldl (fun g i => alter f i g) g l !! i = if decide (i ∈ l) then f <$> g !! i else g !! i.
Proof.
  revert g. induction l as [|j l IH]; intros g HN; simpl; [done|]. apply NoDup_cons in HN as [Hj HN]. rewrite IH by done.
  destruct (decide (i = j)) as [->|Hij].
  - rewrite decide_False, decide_True by (done || left). apply lookup_alter_eq.
  - rewrite lookup_alter_ne by done. repeat case_decide; set_solver.
Qed.

Lemma lookup_bump f dirs g i : bump_map f dirs g !! i = if decide (i ∈ dirs) then f <$> g !! i else g !! i.
Proof.
  unfold bump_map. rewrite lookup_foldl_alter by apply NoDup_remove_dups. apply decide_ext, elem_of_remove_dups.
Qed.

Lemma alter_Some {A} (g : A -> A) (m : gmap Z A) i r : m !! i = Some r -> alter g i m = <[i := g r]> m.
Proof. intros H. rewrite <- (insert_id m i r) at 1 by done. by rewrite alter_insert_eq. Qed.

Lemma queue_name_eq i n d :
  queue_name i n d =
  MkDB (nodes d) (MetaState.seq d) (dir_state d) (refresh d) (pins d) (remote_cursor d) (name_index d) (name_indexed d)
    (<[i := n]> (name_index_pending d)) (<[i := shortNameTerms n]> (short_name_index d)) (copy_bindings d)
    (store_identity d) (copy_cleanup_fence d).
Proof. by destruct d. Qed.
Lemma update_row_eq i f d :
  update_row i f d =
  MkDB (alter f i (nodes d)) (MetaState.seq d) (dir_state d) (refresh d) (pins d) (remote_cursor d) (name_index d)
    (name_indexed d) (name_index_pending d) (short_name_index d) (copy_bindings d)
    (store_identity d) (copy_cleanup_fence d).
Proof. by destruct d. Qed.
Lemma indexNameTx_eq i n d :
  indexNameTx i n d =
  Ok (tt, MkDB (nodes d) (MetaState.seq d) (dir_state d) (refresh d) (pins d) (remote_cursor d) (<[i := n]> (name_index d))
    (<[i := n]> (name_indexed d)) (delete i (name_index_pending d)) (short_name_index d) (copy_bindings d)
    (store_identity d) (copy_cleanup_fence d)).
Proof. by destruct d. Qed.

Lemma move_index d ino r p n :
  nodes d !! ino = Some r -> ino <> RootIno ->
  short_name_index d !! ino = Some (shortNameTerms (r_name r)) ->
  match entry_at d p n with Some (k, x) => k = ino /\ x = r /\ r_parent r = p /\ r_name r = n | None => True end ->
  (do! move_row ino p n; do! indexNameTx ino n; tret r) d = Ok (r, moved_db ino r p n d).
Proof.
  intros Hr H1 Hs He. unfold tbind, move_row. rewrite Hr. destruct (entry_at d p n) as [[k x]|].
  - destruct He as (-> & -> & <- & <-). rewrite decide_True, indexNameTx_eq by done. unfold tret, moved_db. do 2 f_equal.
    rewrite (insert_id (short_name_index d)) by done. by rewrite (insert_id (nodes d)) by (rewrite Hr; by destruct r).
  - rewrite update_row_eq, (alter_Some _ _ _ r) by done.
    destruct (decide (n <> r_name r /\ ino <> RootIno)) as [_|Hn].
    + rewrite queue_name_eq, indexNameTx_eq. simpl. unfold moved_db. by rewrite delete_insert_eq.
    + assert (n = r_name r) as -> by (destruct (decide (n = r_name r)); [done|]; exfalso; auto).
      rewrite indexNameTx_eq. simpl. unfold moved_db. by rewrite (insert_id (short_name_index d)) by done.
Qed.

(** What the file system guarantees of a rename: the new parent is not in the
    moved subtree, and the entry replaced does not hold the moved node. *)
Definition rename_ok (d : DB) (ino p : Z) (n : string) : Prop :=
  p <= seq d /\ ~ (p = RootIno /\ n = "") /\ p ∉ subtree d ino /\
  (forall v x, entry_at d p n = Some (v, x) -> v <> ino -> ino ∉ subtree d v).

(** The rows that give way to the moved one. *)
Definition victims (d : DB) (ino p : Z) (n : string) : gset Z :=
  match entry_at d p n with Some (v, _) => if decide (v = ino) then ∅ else subtree d v | None => ∅ end.
Definition bump1 (g : Gen) : Gen := g <| generation ::= Z.add 1 |>.
Definition fenced (dirs : list Z) (d : DB) : DB := d <| refresh := bump_map bump1 dirs (refresh d) |>.
Definition rename_fence (r : Row) (p : Z) (n : string) (d : DB) : DB :=
  if decide (r_parent r <> p \/ r_name r <> n) then fenced [r_parent r; p] d else d.

Lemma fence_eq dirs d : fenceDirListingTx dirs d = Ok (tt, fenced dirs d).
Proof. apply bump_eq. Qed.
Lemma fenced_event dirs d : WF d -> evs d (fenced dirs d).
Proof. intros HW. apply (tr_fence always dirs d tt); [done|done|apply fence_eq]. Qed.

Lemma rename_fence_nodes r p n d :
  nodes (rename_fence r p n d) = nodes d /\ short_name_index (rename_fence r p n d) = short_name_index d /\
  seq (rename_fence r p n d) = seq d.
Proof. unfold rename_fence. by case_decide. Qed.

Lemma subtree_nodes d d' i : nodes d = nodes d' -> subtree d i = subtree d' i.
Proof.
  intros H. unfold subtree, closed_below. rewrite H. generalize (size (nodes d')) as k. intros k. generalize ({[i]} : gset Z).
  induction k as [|k IH]; intros S; simpl; [done|]. unfold kids_of at 1, select at 1. rewrite H. apply IH.
Qed.
Lemma entry_at_nodes d d' p n : nodes d = nodes d' -> entry_at d p n = entry_at d' p n.
Proof. intros H. unfold entry_at, select. by rewrite H. Qed.
Lemma entry_at_drop d S p n :
  uniq d -> entry_at (drop_set S d) p n =
  match entry_at d p n with Some (v, x) => if decide (v ∈ S) then None else Some (v, x) | None => None end.
Proof.
  intros HU. destruct (entry_at d p n) as [[v x]|] eqn:He.
  - pose proof (entry_at_Some _ _ _ _ _ He) as (Hv & <- & <-). case_decide as HvS.
    + apply entry_at_None. intros i r. simpl. rewrite lookup_without. case_decide; [done|]. intros Hr Hp Hn.
      rewrite (HU _ _ _ _ Hr Hv Hp Hn) in *. done.
    + apply entry_at_row.
      * intros i j r y. simpl. rewrite !lookup_without. do 2 (case_decide; [done|]). apply HU.
      * simpl. by rewrite lookup_without, decide_False.
  - rewrite entry_at_None in He. apply entry_at_None. intros i r. simpl. rewrite lookup_without. case_decide; [done|]. apply He.
Qed.

Lemma renameTx_eq d ino r p n :
  WF d -> ino <> RootIno -> nodes d !! ino = Some r -> rename_ok d ino p n ->
  renameTx ino p n d = Ok (r, moved_db ino r p n (drop_set (victims d ino p n) (rename_fence r p n d))).
Proof.
  intros HW H1 Hr (Hp & Hn & Hps & Hv). unfold renameTx, row_at. unfold tbind at 1. rewrite Hr.
  set (d1 := rename_fence r p n d).
  assert (H0 : (if decide (r_parent r <> p \/ r_name r <> n) then fenceDirListingTx [r_parent r; p] else tret tt) d = Ok (tt, d1)).
  { unfold d1, rename_fence. case_decide; [apply fence_eq|done]. }
  unfold tbind at 1. rewrite H0. destruct (rename_fence_nodes r p n d) as (HN & HS & _). fold d1 in HN, HS.
  assert (HW1 : WF d1). { unfold d1, rename_fence. case_decide; [|done]. apply (evs_WF d); [by apply fenced_event|done]. }
  unfold tbind at 1, treads. rewrite (entry_at_nodes d1 d) by done.
  assert (Hmid : (match entry_at d p n with
       | Some (v, _) => if decide (v = ino) then tret tt else removeSubtreeTx v
       | None => tret tt end) d1 = Ok (tt, drop_set (victims d ino p n) d1)).
  { unfold victims. destruct (entry_at d p n) as [[v x]|] eqn:He; [|by rewrite drop_empty].
    destruct (decide (v = ino)); [by rewrite drop_empty|].
    rewrite removeSubtreeTx_drop; [by rewrite (subtree_nodes d1 d)|apply HW1|apply HW1|].
    exact (entry_not_root d p n v x HW He Hn). }
  unfold tbind at 1. rewrite Hmid.
  assert (Hino : ino ∉ victims d ino p n).
  { unfold victims. destruct (entry_at d p n) as [[v x]|]; [|set_solver]. destruct (decide (v = ino)); [set_solver|]. by eapply Hv. }
  apply move_index; simpl; rewrite ?lookup_without, ?(decide_False _ _ Hino), ?HN, ?HS; try done.
  - by apply (wf_short d HW).
  - rewrite entry_at_drop by apply HW1. rewrite (entry_at_nodes d1 d) by done. unfold victims.
    destruct (entry_at d p n) as [[v x]|] eqn:He; [|done]. apply entry_at_Some in He as (Hvx & <- & <-).
    destruct (decide (v = ino)) as [->|Hne].
    + rewrite decide_False by set_solver. rewrite Hr in Hvx. injection Hvx as <-. done.
    + rewrite decide_True by apply subtree_self. done.
Qed.

Lemma moved_event d ino r p n :
  WF d -> ino <> RootIno -> nodes d !! ino = Some r -> rename_ok d ino p n ->
  evs d (moved_db ino r p n (drop_set (victims d ino p n) (rename_fence r p n d))).
Proof.
  intros HW H1 Hr (Hp & Hn & Hps & Hv). set (d1 := rename_fence r p n d). set (V := victims d ino p n).
  destruct (rename_fence_nodes r p n d) as (HN & HS & Hq). fold d1 in HN, HS, Hq.
  assert (E1 : evs d d1). { unfold d1, rename_fence. case_decide; [by apply fenced_event|apply rtc_refl]. }
  assert (HV : RootIno ∉ V /\ ino ∉ V).
  { unfold V, victims. destruct (entry_at d p n) as [[v x]|] eqn:He; [|set_solver]. destruct (decide (v = ino)); [set_solver|].
    split; [|by eapply Hv]. apply root_not_below. exact (entry_not_root d p n v x HW He Hn). }
  destruct HV as [HV1 HVi]. etrans; [exact E1|]. etrans; [apply rtc_once; by apply (ev_drop d1 V)|]. apply rtc_once, ev_move.
  - simpl. by rewrite lookup_without, decide_False, HN by done.
  - done.
  - simpl. by rewrite Hq.
  - intros H. apply subtree_drop_incl in H. rewrite (subtree_nodes d1 d) in H by done. done.
  - intros i x. simpl. rewrite lookup_without, HN. case_decide as HiV; [done|]. intros Hx Hxp Hxn.
    unfold V, victims in HiV. pose proof (entry_at_row d i x (wf_uniq d HW) Hx) as He. rewrite Hxp, Hxn in He. rewrite He in HiV.
    destruct (decide (i = ino)); [done|]. exfalso. apply HiV, subtree_self.
Qed.

(** ** Backend ids, the index, listings and copies *)

Lemma tr_retarget R `{!Effect R} P ino newID desc : tr R P (retargetTx ino newID desc).
Proof.
  apply (tr_weaken P always); [done|]. intros d [] d' HW _. unfold retargetTx, row_at. unfold tbind at 1.
  destruct (nodes d !! ino) as [r|] eqn:Hr; [|done].
  destruct (decide (r_remote_id r = newID)); [intros [= <-]; apply change_refl|].
  intros H. revert H. apply (tr_bind always); [apply stays_always| | |done|done].
  - by apply tr_update.
  - intros _. destruct (_ || _); [apply tr_ret|]. apply tr_modify. intros e HWe _. by apply change_update_rows.
Qed.

Lemma pending_batch_row d i n : (i, n) ∈ pending_batch d -> exists r, nodes d !! i = Some r /\ r_name r = n /\ is_Some (name_index_pending d !! i).
Proof.
  unfold pending_batch. intros H. apply elem_of_take in H as (k & Hk & _). apply list_elem_of_lookup_2 in Hk.
  rewrite stable_sort_elem in Hk. apply list_elem_of_omap in Hk as ([j m] & Hj & Hm). apply elem_of_map_to_list in Hj.
  simpl in Hm. destruct (nodes d !! j) as [r|] eqn:Hr; [|done]. injection Hm as -> <-. eauto.
Qed.
End Reach.
