(* ===== verification/MetaSteps.v ===== *)
(** * The remaining transactions as changes

    The name index, listings, change-feed events and copies, each for any kind
    of change ([Effect]) that allows what the transaction does. *)
From S2P Require Import Prelude GoLib Retry MetaState MetaTree MetaListing MetaCopy MetaRows MetaInv MetaReach.
Open Scope Z_scope.

Section Steps.
Context {F : Fold}.

(** ** The name index *)

Lemma index_batch R `{!Effect R} l d :
  WF d -> (forall i n, (i, n) ∈ l -> i <> RootIno /\ exists r, nodes d !! i = Some r /\ r_name r = n) ->
  exists d', tforeach (fun e => indexNameTx (fst e) (snd e)) l d = Ok (tt, d') /\ R d d' /\ nodes d' = nodes d /\
    forall i, name_index_pending d' !! i = if decide (i ∈ map fst l) then None else name_index_pending d !! i.
Proof.
  revert d. induction l as [|[i n] l IH]; intros d HW Hl.
  { exists d. split; [done|]. split; [apply change_refl|]. split; [done|]. intros i. by rewrite decide_False by set_solver. }
  cbn [tforeach foldr map fst snd].
  destruct (Hl i n) as (Hi & r & Hr & <-); [left|].
  pose proof (ev_index d i r Hr Hi) as HE. set (d1 := upd name_index_pending _ _) in HE.
  assert (H1 : indexNameTx i (r_name r) d = Ok (tt, d1)) by done.
  destruct (IH d1) as (d' & H & HEs & HN & HP); [by eapply event_WF| |].
  { intros j m Hj. apply (Hl j m). by right. }
  exists d'. unfold tbind. rewrite H1. split; [exact H|].
  split; [eapply change_trans; [exact HW| |exact HEs]; by apply change_quiet, keeps_places_nodes|]. split; [by rewrite HN|].
  intros j. rewrite HP. unfold d1. simpl. destruct (decide (j = i)) as [->|Hji].
  - rewrite lookup_delete_eq. repeat case_decide; set_solver.
  - rewrite lookup_delete_ne by done. repeat case_decide; set_solver.
Qed.

Lemma unpend_batch (l : list (Z * string)) d :
  (forall i, i ∈ map fst l -> name_index_pending d !! i = None) ->
  tforeach (E:=merr) (fun e => tmodify (fun d => d <| name_index_pending ::= delete (fst e) |>)) l d = Ok (tt, d).
Proof.
  induction l as [|e l IH]; intros Hl; simpl; [done|]. unfold tbind, tmodify.
  assert (He : d <| name_index_pending ::= delete (fst e) |> = d).
  { pose proof (Hl (fst e) ltac:(left)) as Hn. destruct d; simpl in *. unfold upd; simpl. by rewrite delete_id. }
  rewrite He. apply IH. intros i Hi. apply Hl. by right.
Qed.

Lemma flush_eq {R} `{!Effect R} d :
  WF d -> exists d', R d d' /\ nodes d' = nodes d /\
    (let! batch := treads pending_batch in
     do! tforeach (fun e => indexNameTx (fst e) (snd e)) batch;
     do! tforeach (fun e => tmodify (fun d => d <| name_index_pending ::= delete (fst e) |>)) batch;
     tret (length batch)) d = Ok (length (pending_batch d), d') /\
    forall i, name_index_pending d' !! i =
      if decide (i ∈ map fst (pending_batch d)) then None else name_index_pending d !! i.
Proof.
  intros HW. destruct (index_batch R (pending_batch d) d HW) as (d' & H & HE & HN & HP).
  { intros i n (r & Hr & Hn & [m Hm])%pending_batch_row. split; [by apply (wf_pending d HW _ _ Hm)|eauto]. }
  exists d'. split; [done|]. split; [done|]. split; [|done]. unfold tbind at 1, treads. unfold tbind at 1. rewrite H.
  unfold tbind. rewrite unpend_batch; [done|]. intros i Hi. rewrite HP. by rewrite decide_True.
Qed.

(** ** Listings *)

Section Merge.
Context {R : DB -> DB -> Prop} (dir : Z) `{HR : !Prune dir R}.

Lemma tr_upsert_dir P i r : tr R P (tmodify (upsert_dir i r)).
Proof. apply tr_modify. intros d HW _. by apply (change_dirs d (<[i := r]> (dir_state d))). Qed.

(** The rows to insert belong to the directory. *)
Definition to_insert (l : list Node) : Prop := forall n, n ∈ l -> ParentIno n = dir.
Lemma listed_node_parent t ttl c : ParentIno (listed_node dir t ttl c) = dir.
Proof. unfold listed_node. set (m := if decide _ then _ else _). destruct (fillMode_place m) as [-> _]. unfold m. by case_decide. Qed.
Lemma to_insert_snoc t ttl c l : to_insert l -> to_insert (l ++ [listed_node dir t ttl c]).
Proof. intros H n [Hn| ->%list_elem_of_singleton]%elem_of_app; [auto|apply listed_node_parent]. Qed.
Lemma to_insert_nil : to_insert [].
Proof. intros n Hn. by apply not_elem_of_nil in Hn. Qed.

Lemma tr_insert_nodes l : to_insert l -> tr R (known dir) (insertNodesTx l).
Proof.
  intros H. apply tr_foreach; [apply (stays_known R)|]. intros n Hn. apply tr_bind; [apply (stays_known R)| |intros; apply tr_ret].
  apply tr_insert. intros d Hd. rewrite bind_row_parent, (H n Hn). exact Hd.
Qed.

(** The children of the directory when the merge read them. *)
Definition child_in (d0 : DB) (i : Z) : Prop := exists r, nodes d0 !! i = Some r /\ r_parent r = dir /\ i <> RootIno.

Lemma tr_prepare_child d0 old protect :
  WF d0 -> child_in d0 (Ino old) -> tr R (R d0) (prepareDirectoryReplacementTx old protect).
Proof.
  intros HW0 (r & Hr & Hp & H1). apply (tr_prepare R); [done|]. intros d HW H.
  exact (prune_drop _ _ _ _ HW0 HW Hr Hp H1 H).
Qed.

Lemma tr_put_child d0 t ttl protect existing c acc :
  WF d0 -> (forall n, n ∈ existing -> child_in d0 (Ino n)) -> to_insert (fst acc) ->
  tr_post R (R d0) (fun acc => to_insert (fst acc)) (put_child dir t ttl protect existing c acc).
Proof.
  intros HW0 He HQ. destruct acc as [inserts change]. unfold put_child. destruct (find _ existing) as [old|] eqn:Hf.
  - apply find_some in Hf as [Hold _]. apply list_elem_of_In in Hold. pose proof (He _ Hold) as Hc.
    destruct (asks protect old); [by apply tr_post_ret|]. destruct (directoryReplacement _ _).
    + eapply tr_post_bind; [by apply (stays_from R)|by apply tr_post_of, tr_prepare_child|]. intros [] _; apply tr_post_ret; [done|].
      by apply to_insert_snoc.
    + destruct (same_entry _ _); [by apply tr_post_ret|]. destruct Hc as (_ & _ & _ & H1).
      eapply tr_post_bind; [by apply (stays_from R)|apply tr_post_of, tr_update; intros; by apply same_place_content|].
      intros _ _. by apply tr_post_ret.
  - apply tr_post_ret. by apply to_insert_snoc.
Qed.

Lemma tr_drop_child d0 protect keep n change :
  WF d0 -> child_in d0 (Ino n) -> tr R (R d0) (drop_child protect keep n change).
Proof.
  intros HW0 (r & Hr & Hp & H1). unfold drop_child. apply tr_if; [apply tr_ret|]. apply tr_bind; [by apply (stays_from R)|apply tr_reads|].
  intros b. apply tr_if; [apply tr_ret|]. apply tr_bind; [by apply (stays_from R)| |intros _; apply tr_ret].
  intros d [] d' HW HRd H. rewrite removeSubtreeTx_drop in H by (by try apply HW). injection H as <-.
  exact (prune_drop _ _ _ _ HW0 HW Hr Hp H1 HRd).
Qed.

Lemma scan_children d n : n ∈ map scan_partial (children d dir) -> child_in d (Ino n).
Proof. rewrite list_elem_of_fmap. intros ([i r] & -> & (Hr & Hp & Hi)%elem_of_children). by exists r. Qed.

Lemma R_known d0 d : known dir d0 -> R d0 d -> known dir d.
Proof. unfold known. intros Hk H. apply change_evs, evs_seq in H. lia. Qed.

(** [putDirTx] behind its fence. *)
Definition putDir_rest (t : Z) (entries : list Node) (childTTL : Z) (protect : Protect) : Tx DB merr DirChange :=
  let! existing := treads (fun d => map scan_partial (children d dir)) in
  let! acc := tfold (put_child dir t childTTL protect existing) entries ([], no_change) in
  do! insertNodesTx (fst acc);
  do! tmodify (update_rows (fun i r => is_child dir i r && negb (r_dirty r))
                 (fun r => (r <| r_fetched := Unix t |>) <| r_ttl := ttl_s childTTL |>));
  let! change := tfold (drop_child protect (map Name entries)) existing (snd acc) in
  do! tmodify (upsert_dir dir (MkDir true (Unix t) "" false));
  tret change.

Lemma tr_putDir_rest t entries ttl protect : tr R (known dir) (putDir_rest t entries ttl protect).
Proof.
  intros d0 a d' HW0 HP H. apply tbind_Ok in H as (existing & s1 & [= <- <-] & H). revert H.
  pose proof (scan_children d0) as Hch. revert Hch. generalize (map scan_partial (children d0 dir)) as existing. intros existing Hch.
  pose proof (change_refl (R:=R) d0) as H0. revert H0. apply (tr_of_post (R d0) (fun _ => True)); [|done].
  eapply (tr_post_bind _ (fun acc => to_insert (fst acc))); [by apply (stays_from R)| |].
  - apply tr_post_tfold; [by apply (stays_from R)|apply to_insert_nil|]. intros c b _ HQ. by apply tr_put_child.
  - intros acc Hacc. apply tr_post_of. apply tr_bind; [by apply (stays_from R)| |intros _].
    { eapply tr_weaken; [|by apply tr_insert_nodes]. intros d. by apply R_known. }
    apply tr_bind; [by apply (stays_from R)|by apply tr_update_rows|intros _].
    apply tr_bind; [by apply (stays_from R)| |].
    + apply tr_tfold; [by apply (stays_from R)|]. intros n b Hn. apply tr_drop_child; [done|by apply Hch].
    + intros ch. apply tr_bind; [by apply (stays_from R)|apply tr_upsert_dir|]. intros _. apply tr_ret.
Qed.

Lemma tr_putDir t entries ttl protect : tr R (known dir) (putDirTx t dir entries ttl protect).
Proof. apply tr_bind; [apply (stays_known R)|apply tr_fence|]. intros _. apply tr_putDir_rest. Qed.

Lemma child_row_Some d i0 n i r :
  child_row d i0 n = Some (i, r) -> nodes d !! i = Some r /\ r_parent r = i0 /\ r_name r = n /\ i <> RootIno.
Proof.
  unfold child_row. intros H. apply bind_Some in H as ([j x] & He & H). simpl in H.
  destruct (decide (j = RootIno)); [done|]. injection H as -> ->. apply entry_at_Some in He. tauto.
Qed.

Lemma tr_add_change P n i k m : tr R P (add_change n i k m).
Proof. unfold add_change. destruct (m !! n); [apply tr_fail|apply tr_ret]. Qed.

Lemma tr_merge_node d0 t ttl protect gen old n acc :
  WF d0 -> (forall nm kv, old nm = Some kv -> child_in d0 (fst kv)) -> to_insert (fst acc) ->
  tr_post R (R d0) (fun acc => to_insert (fst acc)) (merge_node t ttl protect dir gen old n acc).
Proof.
  intros HW0 Ho HQ. destruct acc as [inserts changes]. unfold merge_node. destruct (old (Name n)) as [[i r]|] eqn:Hi.
  - pose proof (Ho _ _ Hi) as Hc. simpl in Hc. destruct (bool_decide _); [by apply tr_post_ret|].
    destruct (asks protect _); [by apply tr_post_ret|]. destruct (directoryReplacement _ _).
    + eapply tr_post_bind; [by apply (stays_from R)|apply tr_post_of, tr_prepare_child; [done|exact Hc]|]. intros [] _; [by apply tr_post_ret|].
      eapply tr_post_bind; [by apply (stays_from R)|apply tr_post_of, tr_add_change|]. intros ch _. apply tr_post_ret.
      by apply to_insert_snoc.
    + destruct (same_entry _ _); [by apply tr_post_ret|]. destruct Hc as (_ & _ & _ & H1).
      eapply tr_post_bind; [by apply (stays_from R)|apply tr_post_of, tr_update; intros; by apply same_place_content|].
      intros _ _. eapply tr_post_bind; [by apply (stays_from R)|apply tr_post_of, tr_add_change|]. intros ch _. by apply tr_post_ret.
  - eapply tr_post_bind; [by apply (stays_from R)|apply tr_post_of, tr_add_change|]. intros ch _. apply tr_post_ret.
    by apply to_insert_snoc.
Qed.

Lemma tr_merge_batch t ttl protect gen batch changes : tr R (known dir) (merge_batch t ttl protect dir gen batch changes).
Proof.
  intros d0 a d' HW0 HP H. apply tbind_Ok in H as (old & s1 & [= <- <-] & H). revert H.
  pose proof (change_refl (R:=R) d0) as H0. revert H0. apply (tr_of_post (R d0) (fun _ => True)); [|done].
  eapply (tr_post_bind _ (fun acc => to_insert (fst acc))); [by apply (stays_from R)| |].
  - apply tr_post_tfold; [by apply (stays_from R)|apply to_insert_nil|]. intros c b _ HQ. apply tr_merge_node; [done| |done].
    intros nm [i r] Hi. apply child_row_Some in Hi as (Hr & Hp & _ & Hi). exists r. done.
  - intros acc Hacc. apply tr_post_of. apply tr_bind; [by apply (stays_from R)| |intros _; apply tr_ret].
    eapply tr_weaken; [|by apply tr_insert_nodes]. intros d. by apply R_known.
Qed.

(** The loop over the missing children collects whole subtrees of children. *)
Definition collected (d : DB) (T : gset Z) : Prop := exists l, Forall (child_in d) l /\ T = ⋃ (map (subtree d) l).

Lemma drop_missing_set protect gen l acc d a d' :
  tfold (drop_missing protect gen) l acc d = Ok (a, d') -> (forall kv, kv ∈ l -> child_in d (fst kv)) ->
  collected d (snd acc) -> d' = d /\ collected d (snd a).
Proof.
  revert acc. induction l as [|kv l IH]; intros acc; simpl; [intros [= <- <-]; done|].
  intros (b & s1 & H1 & H2)%tbind_Ok Hl Hacc.
  assert (Hb : s1 = d /\ collected d (snd b)).
  { unfold drop_missing in H1. destruct (_ || _); [by injection H1 as <- <-|].
    destruct (match protect with Some f => _ | None => _ end); [by injection H1 as <- <-|].
    apply tbind_Ok in H1 as (ch & s2 & H1 & [= <- <-]). unfold add_change in H1. destruct (_ !! _); [done|].
    injection H1 as _ <-. split; [done|]. destruct Hacc as (cs & Hcs & ->). exists (fst kv :: cs).
    split; [constructor; [|done]; apply Hl; left|]. simpl. apply (comm_L (∪)). }
  destruct Hb as [-> Hb]. apply (IH b); [done| |done]. intros kv' Hkv'. apply Hl. by right.
Qed.

Lemma collected_root d T : collected d T -> RootIno ∉ T.
Proof.
  intros (l & Hl & ->) H. apply elem_of_union_list in H as (U & (c & -> & Hc)%list_elem_of_fmap & HU).
  rewrite Forall_forall in Hl. destruct (Hl c Hc) as (r & _ & _ & H1). by apply (root_not_below d c).
Qed.

Lemma collected_drop d T : WF d -> collected d T -> R d (drop_set T d).
Proof.
  intros HW (l & Hl & ->).
  assert (H : forall U, lower d U -> R d (drop_set U d) -> R d (drop_set (U ∪ ⋃ (map (subtree d) l)) d)).
  { induction Hl as [|c l Hc Hl IH]; intros U HU HRU; simpl; [by rewrite union_empty_r_L|].
    rewrite (assoc_L (∪)). apply IH; [apply lower_union; [done|apply lower_subtree]|].
    rewrite <- subtree_drop, <- drop_drop by done. destruct Hc as (r & Hr & Hp & H1).
    assert (HWU : WF (drop_set U d)) by exact (evs_WF _ _ (change_evs _ _ HRU) HW).
    eapply change_trans; [exact HW|exact HRU|]. exact (prune_drop _ _ _ _ HW HWU Hr Hp H1 HRU). }
  rewrite <- (union_empty_l_L (⋃ _)). apply H; [apply lower_empty|]. rewrite drop_empty. apply change_refl.
Qed.

Lemma missing_children l d kv : Ino (l_parent l) = dir -> kv ∈ missing l d -> child_in d (fst kv).
Proof.
  destruct kv as [i r]. intros Hd [_ Hi]%list_elem_of_filter. rewrite Hd in Hi.
  apply elem_of_children in Hi as (Hr & Hp & H1). by exists r.
Qed.

Lemma tr_removeMissing P protect l changes : Ino (l_parent l) = dir -> tr R P (removeMissing protect l changes).
Proof.
  intros Hd d a d' HW _ H. unfold removeMissing in H. apply tbind_Ok in H as (miss & s1 & [= <- <-] & H).
  apply tbind_Ok in H as (acc & s2 & H1 & H). apply drop_missing_set in H1 as [-> Hr].
  - apply tbind_Ok in H as ([] & s3 & [= <-] & [= <- <-]).
    rewrite delete_set_drop by (apply HW || by eapply collected_root). by apply collected_drop.
  - intros kv. by apply missing_children.
  - exists []. done.
Qed.

Lemma tr_commit t ttl protect l : Ino (l_parent l) = dir -> tr R always (commitTx t ttl protect l).
Proof.
  intros Hd d a d' HW _. unfold commitTx. case_decide; [done|]. rewrite Hd. destruct (nodes d !! dir) as [r|] eqn:Hr; [|done].
  case_decide; [done|]. destruct (refresh d !! _) as [g|]; [|done]. case_decide; [done|].
  pose proof (known_ino _ _ _ HW Hr) as HK.
  intros Hm. revert Hm. apply (tr_bind (known dir)); [apply (stays_known R)| | |done|done].
  - unfold mergeStaged. rewrite Hd. apply tr_tfold; [apply (stays_known R)|]. intros b c _. apply tr_merge_batch.
  - intros ch. apply tr_bind; [apply (stays_known R)|by apply tr_removeMissing|]. intros ch'. apply tr_bind; [apply (stays_known R)| |].
    + by apply tr_update_rows.
    + intros _. apply tr_bind; [apply (stays_known R)|apply tr_upsert_dir|]. intros _. apply tr_ret.
Qed.
End Merge.

Lemma begin_event n d a d' : WF d -> beginTx n d = Ok (a, d') -> event d d' /\ nodes d' = nodes d.
Proof.
  intros HW. unfold beginTx. destruct (nodes d !! Ino n) as [r|] eqn:Hr; [|done].
  case_match; [done|]. case_decide; [done|]. intros [= _ <-]. split; [|done].
  apply (ev_gens d (<[Ino n := _]> (refresh d))).
  - intros i [y Hy]. destruct (decide (i = Ino n)) as [->|Hi]; [eauto|]. rewrite lookup_insert_ne in Hy by done.
    destruct (nodes d !! i) eqn:Hn; [eauto|]. destruct (wf_tidy d HW i Hn). congruence.
  - intros i x Hx. destruct (decide (i = Ino n)) as [->|Hi].
    + rewrite lookup_insert_eq, Hx. eexists. split; [done|]. simpl. lia.
    + exists x. rewrite lookup_insert_ne by done. split; [done|lia].
Qed.
Lemma tr_begin R `{!Effect R} P n : tr R P (beginTx n).
Proof. intros d a d' HW _ H. apply begin_event in H as [HE HN]; [|done]. apply change_quiet; [done|done|by apply keeps_places_nodes]. Qed.

Lemma current_placeable d expected r :
  WF d -> Ino expected <> RootIno -> nodes d !! Ino expected = Some r -> scanNode (Ino expected) r = expected ->
  placeable expected d.
Proof.
  intros HW H1 Hr Hcur. rewrite <- Hcur. split; [simpl; by apply (wf_parent d HW (Ino expected))|]. simpl. intros [Hp Hn].
  destruct (wf_root d HW) as (x & Hx & HPx & HNx & _). apply H1. eapply (wf_uniq d HW); [exact Hr|exact Hx|congruence|congruence].
Qed.

(** What follows the removal in [ApplyRemoteNode]. *)
Definition apply_tail (t : Z) (expected : Node) (next : option Node) : Tx DB merr (Node * bool) :=
  match next with
  | None => tret (no_node, true)
  | Some n =>
      let result := fillMode (with_fetched t n) in
      let! ino := upsertNodeTx t result in
      do! stampAppliedGenerationTx ino (ParentIno expected);
      tret (result <| Ino := ino |>, true)
  end.
Definition apply_rest (t : Z) (expected : Node) (next : option Node) (removesAName : bool) : Tx DB merr (Node * bool) :=
  do! (if removesAName then fenceDirListingTx else markDirStaleTx) [ParentIno expected; Ino expected];
  apply_tail t expected next.
Lemma tr_apply_tail R `{!Effect R} t expected next :
  (forall n, next = Some n -> ParentIno n = ParentIno expected /\ Name n = Name expected) ->
  tr R (placeable expected) (apply_tail t expected next).
Proof.
  intros Hnext. destruct next as [n|]; [|apply tr_ret]. destruct (Hnext n eq_refl) as [Hp Hn].
  apply tr_bind; [exact (stays_placeable R expected)| |].
  - eapply tr_weaken; [|exact (tr_upsert R t _)]. unfold placeable. intros e He.
    destruct (fillMode_place (with_fetched t n)) as [-> ->], (with_fetched_place t n) as [-> ->]. by rewrite Hp, Hn.
  - intros ino. apply tr_bind; [exact (stays_placeable R expected)| |intros; apply tr_ret].
    apply tr_modify. intros e HWe _. by apply change_update.
Qed.
Lemma tr_apply_rest R `{!Effect R} t expected next b :
  (forall n, next = Some n -> ParentIno n = ParentIno expected /\ Name n = Name expected) ->
  tr R (placeable expected) (apply_rest t expected next b).
Proof.
  intros Hnext. apply tr_bind; [exact (stays_placeable R expected)|destruct b; [apply tr_fence|apply tr_stale]|].
  intros _. exact (tr_apply_tail R t expected next Hnext).
Qed.

Lemma applyRemote_eq t expected next protect d r :
  nodes d !! Ino expected = Some r -> asks protect (scanNode (Ino expected) r) = false ->
  scanNode (Ino expected) r = expected ->
  applyRemoteTx t expected next protect d =
  (let removesAName := match next with None => true | Some n => directoryReplacement expected n end in
   let! retained := (if removesAName then prepareDirectoryReplacementTx expected protect else tret false) in
   if (retained : bool) then tret (no_node, false) else apply_rest t expected next removesAName) d.
Proof. intros Hr Hk Hc. unfold applyRemoteTx. rewrite Hr, Hk, Hc, decide_False by auto. done. Qed.

Lemma tr_applyRemote t expected next protect :
  Ino expected <> RootIno ->
  (forall n, next = Some n -> ParentIno n = ParentIno expected /\ Name n = Name expected) ->
  tr evs always (applyRemoteTx t expected next protect).
Proof.
  intros H1 Hnext d a d' HW _ H. destruct (nodes d !! Ino expected) as [r|] eqn:Hr;
    [|unfold applyRemoteTx in H; rewrite Hr in H; injection H as _ <-; apply rtc_refl].
  destruct (asks protect (scanNode (Ino expected) r)) eqn:Hk;
    [unfold applyRemoteTx in H; rewrite Hr, Hk in H; injection H as _ <-; apply rtc_refl|].
  destruct (decide (scanNode (Ino expected) r = expected)) as [Hc|Hc];
    [|unfold applyRemoteTx in H; by rewrite Hr, Hk, decide_True in H].
  rewrite (applyRemote_eq _ _ _ _ _ r) in H by done. pose proof (current_placeable _ _ _ HW H1 Hr Hc) as HP.
  revert H. apply (tr_bind (placeable expected)); [by apply (stays_placeable evs)| | |done|done].
  - apply tr_if; [|apply tr_ret]. apply (tr_prepare evs); [done|]. intros. by apply drop_evs.
  - intros b. apply tr_if; [apply tr_ret|]. exact (tr_apply_rest evs t expected next _ Hnext).
Qed.

(** ** Copies *)

Lemma tr_bindTx R `{!Effect R} P id n : tr R P (bindTx id n).
Proof.
  intros d a d' HW _. unfold bindTx. destruct (copy_bindings d !! id) as [i|] eqn:Hb.
  { destruct (nodes d !! i); [|done]. destruct (sameCopyTarget _ _); [|done]. intros [= <- <-]. apply change_refl. }
  destruct (nodes d !! ParentIno n) as [p|] eqn:Hp; [|done]. case_decide; [done|]. destruct (entry_at d _ _); [done|].
  intros (ino & s1 & H1 & H2)%tbind_Ok. apply tbind_Ok in H2 as ([] & s2 & H2 & [= <- <-]).
  assert (E1 : R d s1).
  { revert H1. apply (tr_insert (known (ParentIno n))); [done|done|by apply (wf_seq d HW _ _ Hp)]. }
  apply (change_trans d s1); [done|exact E1|]. pose proof (evs_WF _ _ (change_evs _ _ E1) HW) as HW1.
  unfold insert_binding in H2. case_decide as Hb2; [done|]. injection H2 as <-.
  apply insert_row_Ok in H1 as (_ & -> & ->). apply change_quiet; [done| |by apply keeps_places_nodes].
  apply ev_bind; [by apply eq_None_not_Some; intros Hs; apply Hb2; left|]. simpl. pose proof (wf_seq d HW _ _ Hp). lia.
Qed.

Lemma tr_removeLocal q : (forall n, n ∈ lc_Nodes q -> Ino n <> RootIno) -> tr evs always (removeLocalTx q).
Proof.
  intros Hn d a d' HW _. unfold removeLocalTx. case_decide; [done|]. case_match; [done|]. intros H1. revert H1.
  apply (tr_bind always); [apply stays_always| | |done|done].
  - apply tr_foreach; [apply stays_always|]. intros n Hin e b e' HWe _. unfold remove_authorized.
    destruct (decide (select _ e <> [])) as [|_]; [done|].
    apply (tr_bind always); [apply stays_always|apply tr_fence|intros; by apply tr_remove, Hn|done|done].
  - intros _. apply tr_modify. intros e _ _. apply rtc_once, (ev_fence e (negb (copy_cleanup_fence e))).
Qed.

End Steps.
