(* ===== verification/MetaCalls.v ===== *)
(** * Calls of the metadata store

    [run_call] is one call of any public operation that can change a store;
    [allowed] is what its callers guarantee: a node goes under an inode the store
    handed out and not under the root's own name; a rename does not move a node
    below itself (the kernel and path resolution exclude it).  Every allowed call
    is a sequence of events. *)
From S2P Require Import Prelude GoLib Retry MetaState MetaTree MetaListing MetaCopy MetaRows MetaInv MetaReach MetaSteps.
Open Scope Z_scope.

Section Calls.
Context {F : Fold}.

(** ** Operations *)

Section Op.
Context {R : DB -> DB -> Prop} `{HR : !Effect R}.

Definition osafe {A} (P : DB -> Prop) (m : Op Store merr A) : Prop :=
  forall s, WF (db s) -> P (db s) -> R (db s) (db (snd (m s))).

Lemma osafe_bind {A B} P (m : Op Store merr A) (k : A -> Op Store merr B) :
  stays R P -> osafe P m -> (forall a, osafe P (k a)) -> osafe P (obind m k).
Proof.
  intros HS Hm Hk s HW HP. specialize (Hm s HW HP). unfold obind. destruct (m s) as [[a|e] s1]; [|done]. simpl in Hm.
  eapply change_trans; [exact HW|exact Hm|]. apply Hk; [exact (evs_WF _ _ (change_evs _ _ Hm) HW)|by eapply HS].
Qed.
Lemma osafe_tx {A} P (b : Tx DB merr A) : tr R P b -> osafe P (tx b).
Proof. intros H s HW HP. unfold tx. destruct (b (db s)) as [[a d]|e] eqn:Hb; simpl; [by eapply H|apply change_refl]. Qed.
Lemma osafe_same {A} P (m : Op Store merr A) : (forall s, db (snd (m s)) = db s) -> osafe P m.
Proof. intros H s _ _. rewrite H. apply change_refl. Qed.
Lemma osafe_clock {A} P (k : Z -> Op Store merr A) : (forall t, osafe P (k t)) -> osafe P (let* t := (fun s => (Ok (now s), s)) in k t).
Proof. intros H s HW HP. apply H; done. Qed.
(** A call that ends in the in-memory part. *)
Lemma osafe_then {A B} P (m : Op Store merr A) (k : A -> Op Store merr B) :
  osafe P m -> (forall a s, db (snd (k a s)) = db s) -> osafe P (obind m k).
Proof.
  intros Hm Hk s HW HP. specialize (Hm s HW HP). unfold obind. destruct (m s) as [[a|e] s1]; [|done]. by rewrite Hk.
Qed.

Lemma osafe_update P n : osafe P (updateByIno n).
Proof.
  apply osafe_clock. intros t. apply osafe_then; [|intros []; done].
  apply osafe_tx. intros d a d' HW _ [= <- <-]. by apply change_update.
Qed.
Lemma osafe_upsert n : osafe (placeable n) (Upsert n).
Proof. apply osafe_clock. intros t. apply osafe_then; [by apply osafe_tx, tr_upsert|done]. Qed.
Lemma osafe_insert n : osafe (placeable n) (Insert n).
Proof.
  apply osafe_clock. intros t. apply osafe_then; [|done]. apply osafe_tx. intros d a d' HW HP.
  destruct (entry_at d _ _); [done|]. by apply (tr_upsert R).
Qed.
Lemma osafe_adopt P n e : osafe P (AdoptByIno n e).
Proof.
  apply osafe_clock. intros t. apply osafe_tx. intros d a d' HW _. destruct (nodes d !! Ino n) as [r|] eqn:Hr.
  - case_decide; intros [= <- <-]; [|apply change_refl]. by apply change_update.
  - intros [= <- <-]. apply change_refl.
Qed.
Lemma osafe_setversion P i v : osafe P (SetRemoteVersion i v).
Proof.
  apply osafe_then; [|intros []; done]. apply osafe_tx. intros d a d' HW _ [= <- <-]. by apply change_update.
Qed.
Lemma osafe_touch P i : osafe P (Touch i).
Proof. apply osafe_clock. intros t. by apply osafe_tx, tr_update. Qed.
Lemma osafe_retarget P i id b : osafe P (Retarget i id b).
Proof. unfold Retarget. case_decide; [by apply osafe_same|]. by apply osafe_tx, tr_retarget. Qed.
Lemma osafe_invalidate P i : osafe P (Invalidate i).
Proof.
  intros s HW _. refine (osafe_tx always _ _ s HW I). apply tr_bind; [apply stays_always|apply tr_stale|]. intros _.
  apply tr_modify. intros d HWd _. by apply (change_dirs d (alter _ _ (dir_state d))).
Qed.
Lemma osafe_invalidateAll P : osafe P InvalidateAll.
Proof.
  intros s HW _. refine (osafe_bind always _ _ (stays_always R) _ _ s HW I); [by apply osafe_same|]. intros _.
  apply osafe_tx, tr_modify. intros d HWd _. set (f := fun r => MkDir false (listed_at r) (MetaState.cursor r) true).
  assert (E1 : R d (d <| dir_state ::= fmap f |>)) by (by apply (change_dirs d (f <$> dir_state d))).
  eapply change_trans; [done|exact E1|].
  apply change_quiet; [exact (evs_WF _ _ (change_evs _ _ E1) HWd)| |by apply keeps_places_nodes].
  apply (ev_gens (d <| dir_state ::= fmap f |>) ((fun g => g <| stale_generation ::= Z.add 1 |>) <$> refresh d)).
  - intros i. rewrite lookup_fmap, fmap_is_Some. intros [g Hg]. destruct (nodes d !! i) eqn:Hn; [simpl; rewrite Hn; eauto|].
    destruct (wf_tidy d HWd i Hn). congruence.
  - simpl. intros i x Hx. rewrite lookup_fmap, Hx. eexists. split; [done|]. simpl. lia.
Qed.
Lemma osafe_event P (f : DB -> DB) :
  (forall d, event d (f d) /\ nodes (f d) = nodes d) -> osafe P (tx (tmodify f)).
Proof.
  intros H. apply osafe_tx, tr_modify. intros d HW _. destruct (H d). by apply change_quiet, keeps_places_nodes.
Qed.
Lemma osafe_setCursor P r c : osafe P (SetCursor r c).
Proof.
  apply osafe_clock. intros t. apply osafe_event. intros d. split; [|done]. apply (ev_cursor d (<[r := _]> (remote_cursor d))).
Qed.
Lemma osafe_fenceCopy P i r id : osafe P (FenceCopyCleanup i r id).
Proof.
  apply osafe_tx. intros d a d' HW _. repeat (case_decide; [done|]). intros [= <- <-].
  apply change_quiet; [done|apply (ev_fence d (negb (copy_cleanup_fence d)))|by apply keeps_places_nodes].
Qed.
Lemma osafe_begin P n : osafe P (BeginDirListing n).
Proof. apply osafe_then; [by apply osafe_tx, tr_begin|]. intros l s. unfold obind, oget. by case_decide. Qed.
Lemma osafe_bindCopy P id n : osafe P (BindCopy id n).
Proof.
  unfold BindCopy. case_decide; [by apply osafe_same|]. apply osafe_clock. intros t. apply osafe_then; [|done].
  by apply osafe_tx, tr_bindTx.
Qed.
Lemma osafe_flush P : osafe P flushIndexOnce.
Proof.
  apply osafe_tx. intros d n d' HW _ H. destruct (flush_eq (R:=R) d HW) as (d1 & HE & _ & H1 & _). congruence.
Qed.
End Op.
#[global] Arguments osafe : clear implicits.
#[global] Arguments osafe R {A}.

Lemma osafe_putDir R dir `{!Prune dir R} l t p : osafe R (known dir) (PutDirChanged dir l t p).
Proof. apply osafe_clock. intros x. apply osafe_then; [by apply osafe_tx, tr_putDir|done]. Qed.
Lemma change_commit R t p l s `{!Prune (Ino (l_parent l)) R} : WF (db s) -> R (db s) (db (snd (Commit t p l s))).
Proof.
  intros HW. unfold Commit. destruct (negb _); [apply change_refl|].
  pose proof (osafe_tx (R:=R) always (commitTx (now s) t p l) (tr_commit (R:=R) (Ino (l_parent l)) (now s) t p l eq_refl) s HW I) as H.
  destruct (tx _ s) as [[[st ch]|e] s1]; exact H.
Qed.

(** The calls that can change a store's database; reads change nothing. *)
Inductive mcall :=
| KUpsert (n : Node) | KInsert (n : Node) | KUpdate (n : Node) | KAdopt (n : Node) (expect : string)
| KSetRemoteVersion (ino : Z) (v : string) | KTouch (ino : Z)
| KRemove (ino : Z) | KRename (ino p : Z) (n : string) | KRetarget (ino : Z) (id : string) (desc : bool)
| KRenameRetarget (ino p : Z) (n id : string) (desc : bool)
| KInvalidate (dir : Z) | KInvalidateAll | KMarkAbsent (p : Z) (n : string) (ttl : Z) | KIsAbsent (p : Z) (n : string)
| KClearAbsent (p : Z) | KSetCursor (r c : string) | KAddPin (p : Pin) | KRemovePin (p : string) | KFlushOnce
| KPutDir (dir : Z) (entries : list Node) (ttl : Z) (protect : Protect)
| KApply (expected : Node) (next : option Node) (protect : Protect)
| KBegin (expected : Node) | KCommit (ttl : Z) (protect : Protect) (l : DirListing)
| KFence (identity remote id : string) | KBind (id : string) (n : Node) | KCleanup (q : LocalVersionCleanup)
| KClock (t : Z).

Definition run_call (c : mcall) (s : Store) : Store :=
  match c with
  | KUpsert n => snd (Upsert n s) | KInsert n => snd (Insert n s) | KUpdate n => snd (updateByIno n s)
  | KAdopt n e => snd (AdoptByIno n e s) | KSetRemoteVersion i v => snd (SetRemoteVersion i v s)
  | KTouch i => snd (Touch i s) | KRemove i => snd (Remove i s) | KRename i p n => snd (Rename i p n s)
  | KRetarget i id b => snd (Retarget i id b s) | KRenameRetarget i p n id b => snd (RenameAndRetarget i p n id b s)
  | KInvalidate d => snd (Invalidate d s) | KInvalidateAll => snd (InvalidateAll s)
  | KMarkAbsent p n t => snd (MarkAbsent p n t s) | KIsAbsent p n => snd (IsAbsent p n s)
  | KClearAbsent p => snd (ClearAbsent p s) | KSetCursor r c => snd (SetCursor r c s)
  | KAddPin p => snd (AddPin p s) | KRemovePin p => snd (RemovePin p s) | KFlushOnce => snd (flushIndexOnce s)
  | KPutDir d l t p => snd (PutDirChanged d l t p s) | KApply e n p => snd (ApplyRemoteNode e n p s)
  | KBegin e => snd (BeginDirListing e s) | KCommit t p l => snd (Commit t p l s)
  | KFence i r id => snd (FenceCopyCleanup i r id s) | KBind id n => snd (BindCopy id n s)
  | KCleanup q => snd (RemoveLocalVersion q s) | KClock t => s <| now := t |>
  end.

(** What the callers guarantee. *)
Definition allowed (c : mcall) (d : DB) : Prop :=
  match c with
  | KUpsert n | KInsert n => placeable n d
  | KRename i p n | KRenameRetarget i p n _ _ => rename_ok d i p n
  | KPutDir dir _ _ _ => known dir d
  | _ => True
  end.

(** ** Every call is a sequence of events *)

(** The calls that take no name away. *)
Definition quiet_call (c : mcall) : bool :=
  match c with
  | KRemove _ | KRename _ _ _ | KRenameRetarget _ _ _ _ _ | KPutDir _ _ _ _ | KApply _ _ _ | KCommit _ _ _ | KCleanup _ => false
  | _ => true
  end.

Theorem quiet_calls R `{!Effect R} c s :
  quiet_call c = true -> WF (db s) -> allowed c (db s) -> R (db s) (db (run_call c s)).
Proof.
  intros Hq HW HA. destruct c; cbn [run_call allowed quiet_call] in *; try done; try (by apply change_refl).
  - by apply (osafe_upsert (R:=R)).
  - by apply (osafe_insert (R:=R)).
  - by apply (osafe_update (R:=R) always).
  - by apply (osafe_adopt (R:=R) always).
  - by apply (osafe_setversion (R:=R) always).
  - by apply (osafe_touch (R:=R) always).
  - by apply (osafe_retarget (R:=R) always).
  - by apply (osafe_invalidate (R:=R) always).
  - by apply (osafe_invalidateAll (R:=R) always).
  - unfold IsAbsent. destruct (absent s !! _); [case_decide|]; apply change_refl.
  - by apply (osafe_setCursor (R:=R) always).
  - refine (osafe_event (R:=R) always _ _ s HW I). intros d. split; [|done]. apply (ev_pins d (<[pin_Path p := _]> (pins d))).
  - refine (osafe_event (R:=R) always _ _ s HW I). intros d. split; [|done]. apply (ev_pins d (delete p (pins d))).
  - by apply (osafe_flush (R:=R) always).
  - by apply (osafe_begin (R:=R) always).
  - by apply (osafe_fenceCopy (R:=R) always).
  - by apply (osafe_bindCopy (R:=R) always).
Qed.
Lemma safe_renameTx ino p n d r d' :
  WF d -> ino <> RootIno -> rename_ok d ino p n -> renameTx ino p n d = Ok (r, d') -> evs d d'.
Proof.
  intros HW H1 Hok H. destruct (nodes d !! ino) as [x|] eqn:Hr.
  - rewrite (renameTx_eq d ino x) in H by done. injection H as <- <-. by apply moved_event.
  - unfold renameTx, row_at, tbind in H. by rewrite Hr in H.
Qed.

Lemma absents_same {A} (l : list A) (f : A -> Op Store merr unit) s :
  (forall x s, db (snd (f x s)) = db s) -> db (snd (foldr (fun x m => do* f x; m) (oret tt) l s)) = db s.
Proof.
  intros Hf. revert s. induction l as [|x l IH]; intros s; simpl; [done|]. unfold obind. specialize (Hf x s).
  destruct (f x s) as [[[]|e] s1]; simpl in *; [by rewrite IH|done].
Qed.

Lemma osafe_remove P i : osafe evs P (Remove i).
Proof.
  unfold Remove. case_decide; [by apply osafe_same|]. apply osafe_then; [|done]. apply osafe_tx, (tr_weaken _ always); [done|].
  intros d a d' HW HP Ht. unfold row_at in Ht. unfold tbind at 1 in Ht. destruct (nodes d !! i) as [r|]; [|done]. revert Ht.
  apply (tr_bind always); [apply stays_always|apply tr_fence| |done|done]. intros _.
  apply tr_bind; [apply stays_always|by apply tr_remove|]. intros _. apply tr_ret.
Qed.
Lemma evs_rename i p n s : WF (db s) -> rename_ok (db s) i p n -> evs (db s) (db (snd (Rename i p n s))).
Proof.
  intros HW Hok. unfold Rename. case_decide; [apply rtc_refl|]. apply (osafe_then (fun d => rename_ok d i p n)); [|done..].
  apply osafe_tx. intros d a d' HWd HP. by apply safe_renameTx.
Qed.
Lemma evs_rename_retarget i p n id b s :
  WF (db s) -> rename_ok (db s) i p n -> evs (db s) (db (snd (RenameAndRetarget i p n id b s))).
Proof.
  intros HW Hok. unfold RenameAndRetarget. case_decide; [apply rtc_refl|].
  apply (osafe_then (fun d => rename_ok d i p n)); [|done..]. apply osafe_tx. intros d a d' HWd HP (r & d1 & H1 & H2)%tbind_Ok.
  assert (E1 : evs d d1) by (by eapply safe_renameTx). etrans; [exact E1|].
  apply tbind_Ok in H2 as ([] & d2 & H2 & [= <- <-]). eapply ((tr_retarget evs) always); [by eapply evs_WF|done|exact H2].
Qed.
Lemma osafe_apply e n p : osafe evs always (ApplyRemoteNode e n p).
Proof.
  unfold ApplyRemoteNode. case_decide; [by apply osafe_same|]. destruct (match n with Some _ => _ | None => _ end) eqn:Hm; [by apply osafe_same|].
  apply osafe_clock. intros t. apply osafe_then.
  - apply osafe_tx, tr_applyRemote; [done|]. intros m ->. apply bool_decide_eq_false in Hm.
    split; [destruct (decide (ParentIno m = ParentIno e))|destruct (decide (Name m = Name e))]; tauto.
  - intros [x []] s; [|done]. by destruct n.
Qed.
Lemma osafe_cleanup q : osafe evs always (RemoveLocalVersion q).
Proof.
  unfold RemoveLocalVersion. destruct (_ || _) eqn:Hb; [by apply osafe_same|]. apply osafe_then.
  - apply osafe_tx, tr_removeLocal. intros n Hn Hr.
    apply orb_false_iff in Hb as [Hb _]. apply orb_false_iff in Hb as [_ Hb].
    rewrite <- not_true_iff_false, existsb_exists in Hb. apply Hb. exists n. split; [by apply list_elem_of_In|].
    unfold bad_node. apply bool_decide_eq_true. auto.
  - intros [] s. by apply absents_same.
Qed.

Theorem call_evs c s : WF (db s) -> allowed c (db s) -> evs (db s) (db (run_call c s)).
Proof.
  intros HW HA. destruct (quiet_call c) eqn:Hq; [by apply (quiet_calls evs)|].
  destruct c; cbn [run_call allowed quiet_call] in *; try done.
  - by apply (osafe_remove always).
  - by apply evs_rename.
  - by apply evs_rename_retarget.
  - exact (osafe_putDir evs dir entries ttl protect s HW HA).
  - by apply osafe_apply.
  - exact (change_commit evs ttl protect l s HW).
  - by apply osafe_cleanup.
Qed.

(** ** Reachable stores *)

(** A step: a call its callers may make. *)
Definition mstep (s s' : Store) : Prop := exists c, allowed c (db s) /\ s' = run_call c s.

Lemma mstep_evs s s' : WF (db s) -> mstep s s' -> evs (db s) (db s').
Proof. intros HW (c & HA & ->). by apply call_evs. Qed.
Lemma msteps_evs s s' : WF (db s) -> rtc mstep s s' -> evs (db s) (db s').
Proof.
  intros HW H. revert HW. induction H as [|x y z H _ IH]; intros HW; [apply rtc_refl|].
  pose proof (mstep_evs _ _ HW H) as E. etrans; [exact E|]. apply IH. by eapply evs_WF.
Qed.
Lemma msteps_WF s s' : WF (db s) -> rtc mstep s s' -> WF (db s').
Proof. intros HW H. eapply evs_WF; [by eapply msteps_evs|done]. Qed.

Lemma WF_Open identity t : WF (db (Open identity t)).
Proof.
  assert (Hn : forall i r, nodes (db (Open identity t)) !! i = Some r -> i = RootIno /\ r = root_row t).
  { intros i r. assert (Hr : nodes (db (Open identity t)) = {[RootIno := root_row t]}) by done.
    rewrite Hr, lookup_singleton_Some. naive_solver. }
  assert (Hseq : seq (db (Open identity t)) = 1) by done.
  assert (Hroot : nodes (db (Open identity t)) !! RootIno = Some (root_row t)) by done.
  split; rewrite ?Hseq; try done.
  - intros i r [-> _]%Hn. done.
  - intros i j r x [-> _]%Hn [-> _]%Hn. done.
  - exists (root_row t). done.
  - intros i Hi. apply tc_last in Hi as (y & _ & r & [-> _]%Hn & _ & H1). by apply H1.
  - intros i r [_ ->]%Hn. done.
  - intros i r [-> _]%Hn. done.
  - intros i r [-> _]%Hn. done.
Qed.
End Calls.
