(* ===== verification/MetaFence.v ===== *)
(** * The listing fence

    Whatever takes a name out of a directory either is seen by a listing that
    is being collected, which then refuses to publish, or happens by removing
    the directory itself. *)
From S2P Require Import Prelude GoLib Retry MetaState MetaTree MetaListing MetaCopy MetaRows MetaInv MetaReach MetaSteps MetaCalls.
Open Scope Z_scope.

Section Fence.
Context {F : Fold}.

(** ** Kinds of change *)

(** Nothing moves or goes. *)
Definition quietly (d d' : DB) : Prop := evs d d' /\ keeps_places d d'.
#[local] Instance quietly_change : Effect quietly.
Proof.
  split.
  - intros d. split; [apply rtc_refl|apply keeps_places_refl].
  - intros a b c _ [H1 H2] [H3 H4]. split; [by etrans|by eapply keeps_places_trans].
  - by intros d d' [H _].
  - intros d d' _ H1 H2. split; [by apply rtc_once|done].
Qed.

(** Rows that go are children of [dir] or go with their parents. *)
Definition pruned (dir : Z) (d d' : DB) : Prop :=
  forall i r, nodes d !! i = Some r ->
    (exists x, nodes d' !! i = Some x /\ r_parent x = r_parent r /\ r_name x = r_name r) \/
    (nodes d' !! i = None /\ (r_parent r = dir \/ nodes d' !! r_parent r = None)).
Definition prunes (dir : Z) (d d' : DB) : Prop := evs d d' /\ pruned dir d d'.

Lemma keeps_places_pruned dir d d' : keeps_places d d' -> pruned dir d d'.
Proof. intros H i r Hr. left. by apply H. Qed.

Lemma prunes_trans dir d1 d2 d3 : WF d1 -> prunes dir d1 d2 -> prunes dir d2 d3 -> prunes dir d1 d3.
Proof.
  intros HW [E1 P1] [E2 P2]. split; [by etrans|].
  assert (Hgone : forall i, i <= seq d1 -> nodes d2 !! i = None -> nodes d3 !! i = None).
  { intros i Hi. apply (evs_gone _ _ _ E2). pose proof (evs_seq _ _ E1). lia. }
  intros i r Hr. pose proof (wf_seq d1 HW i r Hr) as Hi. pose proof (wf_parent d1 HW i r Hr) as Hpi.
  destruct (P1 i r Hr) as [(x & Hx & Hp & Hn)|[Hn HP]].
  - destruct (P2 i x Hx) as [(y & Hy & Hp' & Hn')|[Hn' HP']].
    + left. exists y. split; [done|]. split; congruence.
    + right. split; [done|]. by rewrite <- Hp.
  - right. split; [apply Hgone; [lia|done]|]. destruct HP as [HP|HP]; [by left|right; by apply Hgone].
Qed.

#[local] Instance prunes_change dir : Effect (prunes dir).
Proof.
  split.
  - intros d. split; [apply rtc_refl|apply keeps_places_pruned, keeps_places_refl].
  - apply prunes_trans.
  - by intros d d' [H _].
  - intros d d' _ H1 H2. split; [by apply rtc_once|by apply keeps_places_pruned].
Qed.

Lemma drop_subtree_row d c i r :
  nodes d !! i = Some r ->
  nodes (drop_set (subtree d c) d) !! i = Some r \/
  (nodes (drop_set (subtree d c) d) !! i = None /\ (i = c \/ nodes (drop_set (subtree d c) d) !! r_parent r = None)).
Proof.
  intros Hr. simpl. rewrite !lookup_without. destruct (decide (i ∈ subtree d c)) as [Hi|Hi]; [|by left].
  right. split; [done|]. apply elem_of_subtree, rtc_inv in Hi as [->|(p & (x & Hx & <- & _) & Hpc)]; [by left|right].
  rewrite Hr in Hx. injection Hx as <-. rewrite decide_True; [done|]. by apply elem_of_subtree.
Qed.

#[local] Instance prunes_prune dir : Prune dir (prunes dir).
Proof.
  split; [apply _|]. intros d0 d c r HW0 HW Hr Hp Hc [_ HP]. split; [by apply drop_evs|].
  intros i x Hx. destruct (drop_subtree_row d c i x Hx) as [H|[H1 [->|H2]]]; [left; by exists x| |right; auto].
  right. split; [done|]. left. destruct (HP c r Hr) as [(y & Hy & Hyp & _)|[Hn _]]; congruence.
Qed.

(** ** Kept or fenced *)

(** [dir] is gone, or an older listing of it will refuse, or every name in it
    still belongs to the same inode. *)
Definition kept_or_fenced (dir : Z) (d d' : DB) : Prop :=
  nodes d' !! dir = None \/
  (forall g, refresh d !! dir = Some g -> exists g', refresh d' !! dir = Some g' /\ generation g < generation g') \/
  (forall i r, nodes d !! i = Some r -> r_parent r = dir -> i <> RootIno ->
     exists x, nodes d' !! i = Some x /\ r_parent x = dir /\ r_name x = r_name r).

Lemma kf_places dir d d' : keeps_places d d' -> kept_or_fenced dir d d'.
Proof.
  intros H. right; right. intros i r Hr Hp _. destruct (H i r Hr) as (x & Hx & Hxp & Hxn). exists x. by rewrite Hxp.
Qed.

Lemma kf_pruned dir dir0 d d' : dir <> dir0 -> pruned dir0 d d' -> kept_or_fenced dir d d'.
Proof.
  intros Hne H. destruct (nodes d' !! dir) as [y|] eqn:Hd; [|by left]. right; right. intros i r Hr Hp _.
  destruct (H i r Hr) as [(x & Hx & Hxp & Hxn)|[_ [HP|HP]]]; [exists x; by rewrite Hxp|congruence|].
  rewrite Hp in HP. congruence.
Qed.

Lemma kf_drop dir d c :
  (forall r, nodes d !! c = Some r -> r_parent r <> dir) -> kept_or_fenced dir d (drop_set (subtree d c) d).
Proof.
  intros Hc. destruct (nodes (drop_set (subtree d c) d) !! dir) as [y|] eqn:Hd; [|by left]. right; right. intros i r Hr Hp _.
  destruct (drop_subtree_row d c i r Hr) as [H|[_ [->|H]]]; [by exists r|by destruct (Hc r Hr)|]. rewrite Hp in H. congruence.
Qed.

(** Once fenced or gone, it stays so. *)
Definition sealed (dir : Z) (d d' : DB) : Prop :=
  nodes d' !! dir = None \/
  (forall g, refresh d !! dir = Some g -> exists g', refresh d' !! dir = Some g' /\ generation g < generation g').

Lemma sealed_kf dir d d' : sealed dir d d' -> kept_or_fenced dir d d'.
Proof. unfold sealed, kept_or_fenced. tauto. Qed.

Lemma sealed_evs dir d d1 d2 : WF d -> evs d d1 -> dir <= seq d -> sealed dir d d1 -> evs d1 d2 -> sealed dir d d2.
Proof.
  intros HW E1 Hs H E2. pose proof (evs_seq _ _ E1).
  destruct H as [H|H]; [left; apply (evs_gone _ _ _ E2); [lia|done]|].
  destruct (nodes d2 !! dir) as [r|] eqn:Hd; [right|by left]. intros g Hg. destruct (H g Hg) as (g1 & Hg1 & Hlt).
  destruct (evs_gens d1 d2 dir g1) as (g2 & Hg2 & Hle & _); [by eapply evs_WF|done|by rewrite Hd|done|]. exists g2. split; [done|lia].
Qed.

Lemma evs_sealed dir d d1 d2 : WF d -> evs d d1 -> sealed dir d1 d2 -> evs d1 d2 -> sealed dir d d2.
Proof.
  intros HW E1 [H|H] E2; [by left|]. destruct (nodes d2 !! dir) as [r|] eqn:Hd; [right|by left]. intros g Hg.
  destruct (evs_gens d d1 dir g HW E1) as (g1 & Hg1 & Hle & _); [|done|].
  - destruct (nodes d1 !! dir) as [y|] eqn:Hd1; [done|]. exfalso.
    destruct (nodes d !! dir) as [y|] eqn:Hd0; [|destruct (wf_tidy d HW dir Hd0); congruence].
    pose proof (wf_seq d HW _ _ Hd0). pose proof (evs_seq _ _ E1).
    rewrite (evs_gone _ _ dir E2) in Hd; [done|lia|done].
  - destruct (H g1 Hg1) as (g2 & Hg2 & Hlt). exists g2. split; [done|lia].
Qed.

Lemma kf_trans dir d d1 d2 :
  WF d -> dir <= seq d -> evs d d1 -> evs d1 d2 ->
  kept_or_fenced dir d d1 -> kept_or_fenced dir d1 d2 -> kept_or_fenced dir d d2.
Proof.
  intros HW Hs E1 E2 H1 H2.
  assert (Hs1 : sealed dir d d1 -> kept_or_fenced dir d d2) by (intros; by eapply sealed_kf, sealed_evs).
  assert (Hs2 : sealed dir d1 d2 -> kept_or_fenced dir d d2) by (intros; by eapply sealed_kf, evs_sealed).
  destruct H1 as [H1|[H1|H1]]; [apply Hs1; by left|apply Hs1; by right|].
  destruct H2 as [H2|[H2|H2]]; [apply Hs2; by left|apply Hs2; by right|].
  right; right. intros i r Hr Hp Hi. destruct (H1 i r Hr Hp Hi) as (x & Hx & Hxp & Hxn).
  destruct (H2 i x Hx Hxp Hi) as (y & Hy & Hyp & Hyn). exists y. split; [done|]. split; [done|congruence].
Qed.

Lemma sealed_fenced dir dirs d : dir ∈ dirs -> sealed dir d (fenced dirs d).
Proof.
  intros Hd. right. intros g Hg. unfold fenced. simpl. rewrite lookup_bump, decide_True, Hg by done. simpl.
  eexists. split; [done|]. simpl. lia.
Qed.

(** ** Every call keeps or fences *)

(** Fencing the parent of [c] and dropping its subtree. *)
Lemma kf_fence_drop dir dirs d c :
  WF d -> dir <= seq d -> c <> RootIno ->
  (dir ∈ dirs \/ forall r, nodes d !! c = Some r -> r_parent r <> dir) ->
  evs d (drop_set (subtree d c) (fenced dirs d)) /\ kept_or_fenced dir d (drop_set (subtree d c) (fenced dirs d)).
Proof.
  intros HW Hs Hc H. pose proof (fenced_event dirs d HW) as E1.
  assert (E2 : evs (fenced dirs d) (drop_set (subtree d c) (fenced dirs d))) by (by apply rtc_once, ev_drop, root_not_below).
  split; [by etrans|]. destruct H as [H|H].
  - apply sealed_kf. eapply sealed_evs; [done|exact E1|done|by apply sealed_fenced|done].
  - eapply kf_trans; [done|done|exact E1|exact E2|by apply kf_places, keeps_places_nodes|].
    rewrite (subtree_nodes d (fenced dirs d)) by done. by apply kf_drop.
Qed.

Lemma kf_same dir d : kept_or_fenced dir d d.
Proof. apply kf_places, keeps_places_refl. Qed.

Lemma remove_eq i r s :
  WF (db s) -> i <> RootIno -> nodes (db s) !! i = Some r ->
  db (snd (Remove i s)) = drop_set (subtree (db s) i) (fenced [r_parent r] (db s)) /\ fst (Remove i s) = Ok tt.
Proof.
  intros HW Hi Hr. unfold Remove. rewrite decide_False by done. unfold obind, tx.
  assert (H : (let! r := row_at i in do! fenceDirListingTx [r_parent r]; do! removeSubtreeTx i; tret r) (db s) =
              Ok (r, drop_set (subtree (db s) i) (fenced [r_parent r] (db s)))).
  { unfold tbind, row_at. rewrite Hr, fence_eq. pose proof (evs_WF _ _ (fenced_event [r_parent r] (db s) HW) HW) as HW1.
    rewrite removeSubtreeTx_drop; [|apply HW1|apply HW1|done]. by rewrite (subtree_nodes (fenced _ _) (db s)). }
  rewrite H. done.
Qed.

Lemma kf_remove dir i s : WF (db s) -> dir <= seq (db s) -> kept_or_fenced dir (db s) (db (snd (Remove i s))).
Proof.
  intros HW Hs. destruct (decide (i = RootIno)) as [->|Hi]; [apply kf_same|].
  destruct (nodes (db s) !! i) as [r|] eqn:Hr.
  - destruct (remove_eq i r s HW Hi Hr) as [-> _]. apply kf_fence_drop; [done|done|done|].
    destruct (decide (r_parent r = dir)) as [->|Hne]; [left; set_solver|right]. intros x Hx. congruence.
  - unfold Remove, obind, tx, tbind, row_at. rewrite decide_False, Hr by done. apply kf_same.
Qed.

Lemma kf_moved dir d ino r p n :
  WF d -> dir <= seq d -> ino <> RootIno -> nodes d !! ino = Some r -> rename_ok d ino p n ->
  kept_or_fenced dir d (moved_db ino r p n (drop_set (victims d ino p n) (rename_fence r p n d))).
Proof.
  intros HW Hs H1 Hr Hok. pose proof (moved_event d ino r p n HW H1 Hr Hok) as HE.
  set (V := victims d ino p n) in *.
  destruct (decide (r_parent r <> p \/ r_name r <> n)) as [Hch|Hsame].
  - unfold rename_fence in *. rewrite decide_True in * by done.
    destruct (decide (dir ∈ [r_parent r; p])) as [Hin|Hout].
    + right; left. intros g Hg. simpl. rewrite lookup_without. destruct (decide (dir ∈ V)) as [HV|HV].
      * (* the directory went with the victim *)
        unfold V, victims in HV. destruct (entry_at d p n) as [[v x]|] eqn:He; [|set_solver].
        destruct (decide (v = ino)); [set_solver|]. exfalso. pose proof He as (Hv & Hvp & Hvn)%entry_at_Some.
        destruct Hok as (Hp & Hn & Hps & Hvict). apply (Hvict v x) in He as Hiv; [|done].
        apply elem_of_subtree in HV. apply list_elem_of_In in Hin. simpl in Hin.
        assert (v <> RootIno) as Hv1 by (exact (entry_not_root d p n v x HW He Hn)).
        destruct Hin as [<-|[<-|[]]].
        -- apply Hiv, elem_of_subtree. eapply rtc_l; [|exact HV]. exists r. auto.
        -- apply (wf_acyclic d HW v). eapply tc_rtc_r; [apply tc_once|exact HV]. exists x. auto.
      * unfold fenced. simpl. rewrite lookup_bump, decide_True, Hg by done. simpl. eexists. split; [done|]. simpl. lia.
    + assert (Hold : r_parent r <> dir /\ p <> dir) by (split; intros <-; apply Hout; set_solver). destruct Hold as [Ho Hp].
      destruct (nodes (moved_db ino r p n (drop_set V (fenced [r_parent r; p] d))) !! dir) as [y|] eqn:Hd; [|by left].
      right; right. intros i x Hx Hxp Hxi. simpl in Hd |- *.
      assert (Hii : i <> ino) by (intros ->; congruence).
      rewrite lookup_insert_ne, lookup_without by done. destruct (decide (i ∈ V)) as [HV|]; [|by exists x]. exfalso.
      unfold V, victims in HV. destruct (entry_at d p n) as [[v z]|] eqn:He; [|set_solver].
      destruct (decide (v = ino)); [set_solver|]. apply elem_of_subtree, rtc_inv in HV as [->|(q & (w & Hw & <- & _) & Hq)].
      { apply entry_at_Some in He as (Hv & Hvp & _). congruence. }
      rewrite Hx in Hw. injection Hw as <-. rewrite Hxp in Hq.
      assert (HdV : dir ∈ V). { unfold V, victims. rewrite He, decide_False by done. by apply elem_of_subtree. }
      destruct (decide (dir = ino)) as [->|Hdi].
      { destruct Hok as (_ & _ & _ & Hv). apply (Hv v z He); [done|]. by apply elem_of_subtree. }
      rewrite lookup_insert_ne, lookup_without, decide_True in Hd by done. done.
  - assert (r_parent r = p /\ r_name r = n) as [<- <-] by (destruct (decide (r_parent r = p)), (decide (r_name r = n)); tauto).
    assert (HVe : V = ∅). { unfold V, victims. by rewrite (entry_at_row d ino r (wf_uniq d HW) Hr), decide_True. }
    rewrite HVe. unfold rename_fence. rewrite decide_False by done. rewrite drop_empty. apply kf_places.
    intros i x Hx. simpl. destruct (decide (i = ino)) as [->|Hi]; [rewrite lookup_insert_eq|rewrite lookup_insert_ne by done]; eexists; [|eauto].
    split; [done|]. rewrite Hr in Hx. injection Hx as <-. done.
Qed.

Lemma rename_eq i r p n s :
  WF (db s) -> i <> RootIno -> nodes (db s) !! i = Some r -> rename_ok (db s) i p n ->
  db (snd (Rename i p n s)) = moved_db i r p n (drop_set (victims (db s) i p n) (rename_fence r p n (db s))) /\
  fst (Rename i p n s) = Ok tt.
Proof.
  intros HW Hi Hr Hok. unfold Rename. rewrite decide_False by done. unfold obind, tx. rewrite (renameTx_eq _ i r) by done. done.
Qed.

Lemma rename_none i p n d : nodes d !! i = None -> renameTx i p n d = Err ErrNotFound.
Proof. intros H. unfold renameTx, tbind, row_at. by rewrite H. Qed.

Lemma kf_rename dir i p n s :
  WF (db s) -> dir <= seq (db s) -> rename_ok (db s) i p n -> kept_or_fenced dir (db s) (db (snd (Rename i p n s))).
Proof.
  intros HW Hs Hok. destruct (decide (i = RootIno)) as [->|Hi]; [apply kf_same|].
  destruct (nodes (db s) !! i) as [r|] eqn:Hr.
  - destruct (rename_eq i r p n s HW Hi Hr Hok) as [-> _]. by apply kf_moved.
  - unfold Rename, obind, tx. rewrite decide_False, rename_none by done. apply kf_same.
Qed.

Lemma kf_rename_retarget dir i p n id b s :
  WF (db s) -> dir <= seq (db s) -> rename_ok (db s) i p n ->
  kept_or_fenced dir (db s) (db (snd (RenameAndRetarget i p n id b s))).
Proof.
  intros HW Hs Hok. destruct (decide (i = RootIno)) as [->|Hi]; [apply kf_same|].
  unfold RenameAndRetarget. rewrite decide_False by done. unfold obind, tx, tbind at 1.
  destruct (nodes (db s) !! i) as [r|] eqn:Hr; [|rewrite rename_none by done; apply kf_same].
  rewrite (renameTx_eq _ i r) by done. set (d1 := moved_db _ _ _ _ _).
  assert (E1 : evs (db s) d1) by (by apply moved_event). pose proof (evs_WF _ _ E1 HW) as HW1.
  unfold tbind. destruct (retargetTx i id b d1) as [[[] d2]|e] eqn:Hrt; [|apply kf_same]. simpl.
  destruct (tr_retarget quietly always i id b d1 tt d2 HW1 I Hrt) as [E2 Hk].
  eapply kf_trans; [done|done|exact E1|exact E2|by apply kf_moved|by apply kf_places].
Qed.

Lemma kf_putDir dir dir0 l t p s :
  WF (db s) -> dir <= seq (db s) -> known dir0 (db s) -> kept_or_fenced dir (db s) (db (snd (PutDirChanged dir0 l t p s))).
Proof.
  intros HW Hs HK. destruct (decide (dir = dir0)) as [<-|Hne].
  - unfold PutDirChanged, obind, tx. destruct (putDirTx (now s) dir l t p (db s)) as [[ch d']|e] eqn:Hp; [simpl|apply kf_same].
    pose proof (tr_putDir (R:=evs) dir (now s) l t p _ _ _ HW HK Hp) as HE.
    assert (Hf : evs (fenced [dir] (db s)) d').
    { unfold putDirTx in Hp. apply tbind_Ok in Hp as ([] & s1 & Hf & Hp). rewrite fence_eq in Hf. injection Hf as <-.
      pose proof (evs_WF _ _ (fenced_event [dir] (db s) HW) HW) as HW1.
      eapply (tr_putDir_rest (R:=evs) dir (now s) l t p); [exact HW1|exact HK|exact Hp]. }
    apply sealed_kf. apply (sealed_evs dir (db s) (fenced [dir] (db s))); [done|by apply fenced_event|done| |done].
    apply sealed_fenced. set_solver.
  - eapply kf_pruned; [done|]. exact (proj2 (osafe_putDir (prunes dir0) dir0 l t p s HW HK)).
Qed.

Lemma kf_commit dir t p l s :
  WF (db s) -> dir <> Ino (l_parent l) -> kept_or_fenced dir (db s) (db (snd (Commit t p l s))).
Proof.
  intros HW Hne. eapply kf_pruned; [exact Hne|]. exact (proj2 (change_commit (prunes (Ino (l_parent l))) t p l s HW)).
Qed.

Lemma applyRemote_cases t expected next protect d a d' :
  applyRemoteTx t expected next protect d = Ok (a, d') ->
  d' = d \/ exists r, nodes d !! Ino expected = Some r /\ scanNode (Ino expected) r = expected /\
    asks protect expected = false /\
    (let removesAName := match next with None => true | Some n => directoryReplacement expected n end in
     let! retained := (if removesAName then prepareDirectoryReplacementTx expected protect else tret false) in
     if (retained : bool) then tret (no_node, false) else apply_rest t expected next removesAName) d = Ok (a, d').
Proof.
  intros H. destruct (nodes d !! Ino expected) as [r|] eqn:Hr; [|unfold applyRemoteTx in H; rewrite Hr in H; left; congruence].
  destruct (asks protect (scanNode (Ino expected) r)) eqn:Hk; [unfold applyRemoteTx in H; rewrite Hr, Hk in H; left; congruence|].
  destruct (decide (scanNode (Ino expected) r = expected)) as [Hc|Hc];
    [|unfold applyRemoteTx in H; by rewrite Hr, Hk, decide_True in H].
  right. exists r. split; [done|]. split; [done|]. rewrite (applyRemote_eq _ _ _ _ _ r) in H by done.
  split; [by rewrite <- Hc|exact H].
Qed.

Lemma kf_applyTx dir t expected next protect d a d' :
  WF d -> dir <= seq d -> Ino expected <> RootIno ->
  (forall n, next = Some n -> ParentIno n = ParentIno expected /\ Name n = Name expected) ->
  applyRemoteTx t expected next protect d = Ok (a, d') -> kept_or_fenced dir d d'.
Proof.
  intros HW Hs H1 Hnext [->|(r & Hr & Hc & Hk & H)]%applyRemote_cases; [apply kf_same|].
  pose proof (current_placeable _ _ _ HW H1 Hr Hc) as HP. set (b := match next with None => true | Some n => directoryReplacement expected n end) in H.
  destruct b eqn:Hb.
  - apply tbind_Ok in H as (ret & d1 & H2 & H3). rewrite prepare_eq in H2 by done.
    destruct (match protect with Some f => _ | None => _ end); injection H2 as <- <-; [injection H3 as _ <-; apply kf_same|].
    set (d1 := drop_set (subtree d (Ino expected)) d) in *.
    assert (E1 : evs d d1) by (by apply drop_evs). pose proof (evs_WF _ _ E1 HW) as HW1.
    pose proof (stays_placeable evs expected d d1 HW E1 HP) as HP1.
    destruct (tr_apply_rest quietly t expected next true Hnext d1 a d' HW1 HP1 H3) as [E2 HKP].
    destruct (decide (ParentIno expected = dir)) as [<-|Hne].
    + apply sealed_kf. unfold apply_rest in H3. apply tbind_Ok in H3 as ([] & d2 & H2 & H3). rewrite fence_eq in H2. injection H2 as <-.
      assert (E3 : evs (fenced [ParentIno expected; Ino expected] d1) d').
      { pose proof (fenced_event [ParentIno expected; Ino expected] d1 HW1) as Ef. pose proof (evs_WF _ _ Ef HW1) as HWf.
        pose proof (stays_placeable evs expected _ _ HW1 Ef HP1) as HPf.
        exact (tr_apply_tail evs t expected next Hnext _ _ _ HWf HPf H3). }
      eapply evs_sealed; [done|exact E1| |exact E2].
      eapply sealed_evs; [exact HW1|by apply fenced_event| | |exact E3]; [|apply sealed_fenced; set_solver].
      pose proof (evs_seq _ _ E1). lia.
    + eapply kf_trans; [done|done|exact E1|exact E2| |by apply kf_places]. apply kf_drop. intros x Hx.
      rewrite Hr in Hx. injection Hx as <-. by rewrite <- Hc in Hne.
  - destruct (tr_apply_rest quietly t expected next false Hnext d a d' HW HP H) as [_ HKP]. by apply kf_places.
Qed.

(** ** RemoveLocalVersion *)

Definition childless (d : DB) (i : Z) : Prop := forall j r, nodes d !! j = Some r -> r_parent r <> i.

Lemma remove_authorized_Ok n d a d' :
  WF d -> Ino n <> RootIno -> remove_authorized n d = Ok (a, d') ->
  childless d (Ino n) /\ d' = drop_set {[Ino n]} (fenced [ParentIno n] d).
Proof.
  intros HW H1. unfold remove_authorized. destruct (decide (select _ d <> [])) as [|Hs]; [done|].
  assert (Hc : childless d (Ino n)).
  { intros j r Hr Hp. apply Hs. intros He. assert (Hin : (j, r) ∈ ([] : list (Z * Row))); [|by apply not_elem_of_nil in Hin].
    rewrite <- He. apply elem_of_select. split; [done|]. by apply bool_decide_eq_true. }
  unfold tbind. rewrite fence_eq. pose proof (evs_WF _ _ (fenced_event [ParentIno n] d HW) HW) as HW1.
  rewrite removeSubtreeTx_drop by (done || apply HW1). intros [= _ <-]. split; [done|]. f_equal.
  rewrite (subtree_nodes _ d) by done. apply set_eq. intros x. rewrite elem_of_subtree, elem_of_singleton, rtc_tc. split; [|by left].
  intros [->|(p & _ & r & Hr & Hp & _)%tc_last]; [done|]. by destruct (Hc _ _ Hr).
Qed.

Lemma drop_single_subtree d i : childless d i -> drop_set {[i]} d = drop_set (subtree d i) d.
Proof.
  intros Hc. f_equal. apply set_eq. intros x. rewrite elem_of_subtree, elem_of_singleton, rtc_tc. split; [by left|].
  intros [->|(p & _ & r & Hr & Hp & _)%tc_last]; [done|]. by destruct (Hc _ _ Hr).
Qed.

(** The nodes of an accepted request are the rows as they are. *)
Definition authorized (d : DB) (l : list Node) : Prop :=
  forall n, n ∈ l -> Ino n <> RootIno /\ exists r, nodes d !! Ino n = Some r /\ scanNode (Ino n) r = n.

Lemma by_local_id_elem d id i r : (i, r) ∈ by_local_id d id <-> nodes d !! i = Some r /\ r_remote_id r = id.
Proof. unfold by_local_id. by rewrite stable_sort_elem, elem_of_select, bool_decide_eq_true. Qed.

Lemma cleanup_authorized q d :
  NoDup (map Ino (lc_Nodes q)) -> existsb (bad_node q) (lc_Nodes q) = false ->
  let current := map node_of (by_local_id d (lc_RemoteID q)) in
  forallb (fun n => bool_decide (n ∈ lc_Nodes q)) current && bool_decide (length current = length (lc_Nodes q)) = true ->
  authorized d (lc_Nodes q) /\ forall i r, nodes d !! i = Some r -> r_remote_id r = lc_RemoteID q -> i ∈ map Ino (lc_Nodes q).
Proof.
  intros HN Hbad current [Hall Hlen]%andb_true_iff. apply bool_decide_eq_true in Hlen.
  assert (HNc : NoDup current).
  { apply (NoDup_fmap_1 Ino). unfold current. rewrite map_map.
    rewrite (map_ext (fun x => Ino (node_of x)) fst) by done. unfold by_local_id.
    rewrite (fmap_Permutation fst _ _ (stable_sort_perm _ _)). apply NoDup_select. }
  assert (Hsub : current ⊆ lc_Nodes q).
  { intros n Hn. rewrite forallb_forall in Hall. apply list_elem_of_In, Hall in Hn. by apply bool_decide_eq_true in Hn. }
  assert (HP : current ≡ₚ lc_Nodes q).
  { apply submseteq_length_Permutation; [|lia]. apply NoDup_submseteq; [done|exact Hsub]. }
  split.
  - intros n Hn. split.
    + intros Hr. rewrite <- not_true_iff_false, existsb_exists in Hbad. apply Hbad. exists n.
      split; [by apply list_elem_of_In|]. unfold bad_node. apply bool_decide_eq_true. auto.
    + rewrite <- HP in Hn. apply list_elem_of_fmap in Hn as ([i r] & -> & [Hr _]%by_local_id_elem). by exists r.
  - intros i r Hr Hid. assert (Hin : node_of (i, r) ∈ lc_Nodes q).
    { rewrite <- HP. apply list_elem_of_fmap. exists (i, r). split; [done|]. by apply by_local_id_elem. }
    apply list_elem_of_fmap. by exists (node_of (i, r)).
Qed.

(** The loop removes exactly those rows and fences their parents. *)
Lemma cleanup_loop dir l d a d' :
  WF d -> dir <= seq d -> NoDup (map Ino l) -> authorized d l ->
  tforeach remove_authorized l d = Ok (a, d') ->
  evs d d' /\ kept_or_fenced dir d d' /\ nodes d' = without (list_to_set (map Ino l)) (nodes d) /\
  Forall (fun n => childless d' (Ino n)) l.
Proof.
  revert d. induction l as [|n l IH]; intros d HW Hs HN HA.
  { intros [= _ <-]. split; [apply rtc_refl|]. split; [apply kf_same|]. split; [by rewrite without_empty|done]. }
  cbn [tforeach foldr map]. intros (u & d1 & H1 & H2)%tbind_Ok. apply NoDup_cons in HN as [Hn HN].
  destruct (HA n) as (Hroot & r & Hr & Hsc); [left|].
  destruct (remove_authorized_Ok _ _ _ _ HW Hroot H1) as [Hc ->].
  assert (E1 : evs d (drop_set {[Ino n]} (fenced [ParentIno n] d)) /\ kept_or_fenced dir d (drop_set {[Ino n]} (fenced [ParentIno n] d))).
  { rewrite (drop_single_subtree (fenced _ d)), (subtree_nodes (fenced _ d) d) by done. apply kf_fence_drop; [done|done|done|].
    destruct (decide (ParentIno n = dir)) as [->|Hne]; [left; set_solver|right]. intros x Hx. rewrite Hr in Hx. injection Hx as <-.
    by rewrite <- Hsc in Hne. }
  destruct E1 as [E1 K1]. pose proof (evs_WF _ _ E1 HW) as HW1.
  assert (HA1 : authorized (drop_set {[Ino n]} (fenced [ParentIno n] d)) l).
  { intros m Hm. destruct (HA m) as (Hm1 & x & Hx & Hxs); [by right|]. split; [done|]. exists x. split; [|done]. simpl.
    rewrite lookup_without, decide_False; [done|]. intros He%elem_of_singleton. apply Hn. rewrite <- He. by apply list_elem_of_In, in_map, list_elem_of_In. }
  destruct (IH _ HW1 ltac:(pose proof (evs_seq _ _ E1); lia) HN HA1 H2) as (E2 & K2 & HNd & HC).
  split; [by etrans|]. split; [by eapply kf_trans|]. split.
  - rewrite HNd. simpl. by rewrite without_union.
  - constructor; [|done]. intros j x. rewrite HNd. simpl. rewrite !lookup_without. do 2 (case_decide; [done|]). apply Hc.
Qed.

Lemma obind_same {A B} (m : Op Store merr A) (k : A -> Op Store merr B) s :
  (forall a s, db (snd (k a s)) = db s) -> db (snd (obind m k s)) = db (snd (m s)).
Proof. intros Hk. unfold obind. destruct (m s) as [[a|e] s1]; simpl; [apply Hk|done]. Qed.

Lemma kf_cleanup dir q s : WF (db s) -> dir <= seq (db s) -> kept_or_fenced dir (db s) (db (snd (RemoveLocalVersion q s))).
Proof.
  intros HW Hs. unfold RemoveLocalVersion. destruct (_ || _ || _) eqn:Hb; [apply kf_same|].
  apply orb_false_iff in Hb as [[_ Hb]%orb_false_iff HN]. apply negb_false_iff, bool_decide_eq_true in HN.
  rewrite obind_same by (intros; by apply absents_same). unfold durableTx, tx.
  destruct (removeLocalTx q (db s)) as [[[] d']|e] eqn:Hq; [|apply kf_same]. simpl. unfold removeLocalTx in Hq. case_decide; [done|].
  destruct (negb _) eqn:Hc; [done|]. apply negb_false_iff in Hc.
  destruct (cleanup_authorized q (db s) HN Hb Hc) as [HA _]. apply tbind_Ok in Hq as (u & d1 & H1 & [= <-]).
  destruct (cleanup_loop dir _ _ _ _ HW Hs HN HA H1) as (E1 & K1 & _).
  eapply kf_trans; [done|done|exact E1|apply rtc_once, (ev_fence d1 (negb (copy_cleanup_fence d1)))|done|].
  by apply kf_places, keeps_places_nodes.
Qed.

(** A commit of the directory itself, unless it is stale. *)
Definition commits (dir : Z) (g : option Gen) (c : mcall) : Prop :=
  exists t p l x, c = KCommit t p l /\ Ino (l_parent l) = dir /\ g = Some x /\ l_generation l = generation x.

Lemma commit_stale_same t p l s x :
  refresh (db s) !! Ino (l_parent l) = Some x -> l_generation l <> generation x -> db (snd (Commit t p l s)) = db s.
Proof.
  intros Hx Hne. unfold Commit. destruct (negb (collecting l)); [done|]. unfold tx.
  assert (He : exists e, commitTx (now s) t p l (db s) = Err e).
  { unfold commitTx. case_decide; [eauto|]. destruct (nodes (db s) !! _); [|eauto]. case_decide; [eauto|].
    rewrite Hx, decide_True by auto. eauto. }
  destruct He as (e & ->). done.
Qed.

Lemma commit_unknown_same t p l s :
  refresh (db s) !! Ino (l_parent l) = None -> db (snd (Commit t p l s)) = db s.
Proof.
  intros Hx. unfold Commit. destruct (negb (collecting l)); [done|]. unfold tx.
  assert (He : exists e, commitTx (now s) t p l (db s) = Err e).
  { unfold commitTx. case_decide; [eauto|]. destruct (nodes (db s) !! _); [|eauto]. case_decide; [eauto|]. rewrite Hx. eauto. }
  destruct He as (e & ->). done.
Qed.

Theorem call_kf dir c s :
  WF (db s) -> allowed c (db s) -> dir <= seq (db s) -> ~ commits dir (refresh (db s) !! dir) c ->
  kept_or_fenced dir (db s) (db (run_call c s)).
Proof.
  intros HW HA Hs Hc. destruct (quiet_call c) eqn:Hq; [apply kf_places; exact (proj2 (quiet_calls quietly c s Hq HW HA))|].
  destruct c; cbn [run_call allowed quiet_call] in *; try done.
  - by apply kf_remove.
  - by apply kf_rename.
  - by apply kf_rename_retarget.
  - by apply kf_putDir.
  - unfold ApplyRemoteNode. destruct (decide (Ino expected = RootIno)) as [|H1]; [apply kf_same|].
    destruct (match next with Some _ => _ | None => _ end) eqn:Hm; [apply kf_same|]. unfold obind, tx.
    destruct (applyRemoteTx (now s) expected next protect (db s)) as [[[n b] d']|e] eqn:Ht; [|apply kf_same].
    assert (K : kept_or_fenced dir (db s) d').
    { eapply kf_applyTx; [done|done|exact H1| |exact Ht]. intros m ->. apply bool_decide_eq_false in Hm.
      split; [destruct (decide (ParentIno m = ParentIno expected))|destruct (decide (Name m = Name expected))]; tauto. }
    destruct b; [by destruct next|exact K].
  - destruct (decide (dir = Ino (l_parent l))) as [->|Hne]; [|by apply kf_commit].
    destruct (refresh (db s) !! Ino (l_parent l)) as [x|] eqn:Hx; [|rewrite commit_unknown_same by done; apply kf_same].
    rewrite (commit_stale_same _ _ _ _ x); [apply kf_same|done|]. intros He. apply Hc. by exists ttl, protect, l, x.
  - by apply kf_cleanup.
Qed.
End Fence.
