(* ===== verification/MetaMerge.v ===== *)
(** * What merging a listing does to its directory (internal/meta: dir_listing.go)

    The state of the database while a listing is merged, compared with the one
    the transaction began on: what must be spared stays, what the listing has
    not reached is untouched, and each name it has reached is settled. *)
From S2P Require Import Prelude GoLib Retry MetaState MetaTree MetaListing MetaCopy MetaRows MetaInv MetaReach MetaSteps.
Open Scope Z_scope.

Lemma tc_first {A} (R : relation A) x z : tc R x z -> exists y, R x y /\ rtc R y z.
Proof. destruct 1 as [x y H|x y z H Hr]; exists y; split; try done. by apply tc_rtc. Qed.

(** ** An entry of a directory *)

Section Entry.
Context {F : Fold} (dir : Z).


Lemma child_row_iff d m i x :
  uniq d -> child_row d dir m = Some (i, x) <-> nodes d !! i = Some x /\ r_parent x = dir /\ r_name x = m /\ i <> RootIno.
Proof.
  intros HU. split; [apply child_row_Some|]. intros (Hx & <- & <- & Hi). unfold child_row.
  rewrite (entry_at_row d i x) by done. simpl. by rewrite decide_False.
Qed.
Lemma child_row_none d m : WF d -> m <> "" -> child_row d dir m = None -> entry_at d dir m = None.
Proof.
  intros HW Hm H. unfold child_row in H. destruct (entry_at d dir m) as [[i x]|] eqn:He; [|done]. simpl in H.
  case_decide as Hi; [|done]. subst i. exfalso. destruct (wf_root d HW) as (r & Hr & _ & Hn & _).
  apply entry_at_Some in He as (Hx & _ & Hxn). congruence.
Qed.
End Entry.

Section Merge.
Context {F : Fold} (dir t childTTL gen : Z) (protect : Protect) (L : gmap string Node) (d0 : DB).
Hypothesis HL : forall m n, L !! m = Some n -> Name n = m /\ m <> "".
Hypothesis HW0 : WF d0.
Hypothesis Hdir : known dir d0.

(** ** What a commit must leave alone *)

(** Nodes the policy protects, and children the change feed wrote since the
    listing began. *)
Definition spared (i : Z) (r : Row) : Prop :=
  nodes d0 !! i = Some r /\
  (asks protect (scanNode i r) = true \/ (r_parent r = dir /\ i <> RootIno /\ gen <= r_applied r)).
(** The node itself or something below it is spared. *)
Definition heldup (i : Z) : Prop := exists j r, spared j r /\ rtc (par true d0) j i.

(** [removeMissing] looks below directories only: of the protected nodes, those
    that no entry of the listed directory other than a directory lies above. *)
Definition led (i : Z) : Prop := forall c x,
  tc (par true d0) i c -> nodes d0 !! c = Some x -> r_parent x = dir -> c <> RootIno -> r_kind x = KindDir.
Definition secure (i : Z) (r : Row) : Prop :=
  nodes d0 !! i = Some r /\
  ((asks protect (scanNode i r) = true /\ led i) \/ (r_parent r = dir /\ i <> RootIno /\ gen <= r_applied r)).
Definition held (i : Z) : Prop := exists j r, secure j r /\ rtc (par true d0) j i.

(** ** The settled names *)

(** The entry has what the listing says, in the old inode unless the backend
    object is another one; or something there is spared. *)
Definition settled (d : DB) (m : string) (n : Node) : Prop :=
  exists i x, child_row d dir m = Some (i, x) /\
    ((same_entry (scanNode i x) n = true /\
      forall kv, child_row d0 dir m = Some kv ->
        i = fst kv \/ (seq d0 < i /\ directoryReplacement (node_of kv) (listed_node dir t childTTL n) = true)) \/
     (heldup i /\ nodes d0 !! i = Some x)).

Record Mid (N : gset string) (d : DB) : Prop := {
  mid_evs : evs d0 d;
  mid_rest : forall i x, nodes d !! i = Some x -> r_parent x <> dir -> nodes d0 !! i = Some x;
  mid_spared : forall i r, secure i r -> nodes d !! i = Some r;
  mid_above : forall i r, held i -> nodes d0 !! i = Some r ->
    exists x, nodes d !! i = Some x /\ r_parent x = r_parent r /\ r_name x = r_name r;
  mid_todo : forall m, m ∉ N -> child_row d dir m = child_row d0 dir m
}.

Lemma settled_same d d' m n : settled d m n -> child_row d' dir m = child_row d dir m -> settled d' m n.
Proof. intros (i & x & Hc & H) He. exists i, x. by rewrite He. Qed.

Lemma mid_WF N d : Mid N d -> WF d.
Proof. intros H. eapply evs_WF; [apply H|done]. Qed.
Lemma mid_start : Mid ∅ d0.
Proof. split; [apply rtc_refl|done|by intros i r []|intros i r _ Hr; by exists r|done]. Qed.

(** The way from a node up to a child of the directory is as it was. *)
Lemma below_child N d c x j :
  Mid N d -> nodes d !! c = Some x -> r_parent x = dir -> c <> RootIno -> tc (par true d) j c ->
  rtc (par true d0) j c /\ exists y, nodes d !! j = Some y /\ nodes d0 !! j = Some y.
Proof.
  intros HM Hc Hp H1 Hj. pose proof (mid_WF _ _ HM) as HW.
  assert (Hstep : forall a b, par true d a b -> rtc (par true d) b c -> par true d0 a b /\ exists y, nodes d !! a = Some y /\ nodes d0 !! a = Some y).
  { intros a b (y & Hy & Hyp & Hn) Hb. assert (Hne : r_parent y <> dir).
    { intros He. apply (wf_acyclic d HW c). eapply tc_rtc_r; [apply tc_once|exact Hb]. exists x. split; [done|].
      split; [congruence|done]. }
    pose proof (mid_rest _ _ HM _ _ Hy Hne) as Hy0. split; [by exists y|by exists y]. }
  assert (HR : forall a, rtc (par true d) a c -> rtc (par true d0) a c).
  { intros a Ha. induction Ha as [|a b c' Hab Hbc IH]; [done|]. eapply rtc_l; [by eapply Hstep|by apply IH]. }
  split; [apply HR; by apply tc_rtc|]. apply tc_first in Hj as (b & Hb & Hbc). by eapply Hstep.
Qed.

(** Nodes above a spared one are above it all along. *)
Lemma above_chain N d j r i : Mid N d -> secure j r -> rtc (par true d0) j i -> rtc (par true d) j i.
Proof.
  intros HM Hs Hji. revert i Hji. apply rtc_ind_r; [apply rtc_refl|]. intros a b Hja (y & Hy & Hyp & Hn) IH.
  eapply rtc_r; [exact IH|]. destruct (mid_above _ _ HM a y) as (x & Hx & Hxp & _); [by exists j, r|done|].
  exists x. split; [done|]. split; [congruence|done].
Qed.

(** The checks of the code find every child that is held up. *)
Lemma code_not_heldup N d c x :
  Mid N d -> nodes d !! c = Some x -> r_parent x = dir -> c <> RootIno ->
  asks protect (scanNode c x) = false -> r_applied x < gen ->
  match protect with Some f => protectedSubtree d c f | None => false end = false -> ~ held c.
Proof.
  intros HM Hc Hp H1 Ha Hg Hps (j & r & Hs & Hjc). pose proof (above_chain _ _ _ _ _ HM Hs Hjc) as Hd.
  pose proof (mid_spared _ _ HM _ _ Hs) as Hj. destruct Hs as [_ Hs]. pose proof (mid_WF _ _ HM) as HW.
  apply rtc_tc in Hd as [->|Hd].
  - rewrite Hc in Hj. injection Hj as <-. destruct Hs as [[Hs _]|(_ & _ & Hs)]; [congruence|lia].
  - destruct Hs as [[Hs _]|(Hjp & Hj1 & _)].
    + unfold asks in Hs. destruct protect as [f|]; [|done]. rewrite <- not_true_iff_false in Hps. apply Hps.
      unfold protectedSubtree. apply existsb_exists. exists (j, r). split; [|exact Hs]. apply list_elem_of_In, elem_of_select.
      split; [done|]. by apply bool_decide_eq_true, elem_of_below.
    + apply (wf_acyclic d HW c). apply tc_first in Hd as (b & (y & Hy & Hyp & _) & Hb).
      rewrite Hj in Hy. injection Hy as <-. eapply tc_rtc_r; [apply tc_once|exact Hb]. exists x. split; [done|].
      split; [congruence|done].
Qed.
(** And only those. *)
Lemma code_heldup N d c x f :
  Mid N d -> nodes d !! c = Some x -> r_parent x = dir -> c <> RootIno -> protect = Some f ->
  protectedSubtree d c f = true -> heldup c.
Proof.
  intros HM Hc Hp H1 Hf ([j r] & Hin & Hfj)%existsb_exists. apply list_elem_of_In, elem_of_select in Hin as [Hj Hb].
  apply bool_decide_eq_true, elem_of_below in Hb. destruct (below_child _ _ _ _ _ HM Hc Hp H1 Hb) as (Hd & y & Hy & Hy0).
  rewrite Hj in Hy. injection Hy as <-. exists j, r. split; [|done]. split; [done|]. left. by rewrite Hf.
Qed.

(** ** Each statement of the merge *)

Lemma siblings_apart d c x i y :
  WF d -> nodes d !! c = Some x -> r_parent x = dir -> c <> RootIno -> nodes d !! i = Some y -> r_parent y = dir -> i <> RootIno ->
  i ∈ subtree d c -> i = c.
Proof.
  intros HW Hc Hp H1 Hi Hip Hi1 Hs. apply elem_of_subtree, rtc_inv in Hs as [->|(q & (z & Hz & <- & _) & Hq)]; [done|].
  rewrite Hi in Hz. injection Hz as <-. exfalso. apply (wf_acyclic d HW c). eapply tc_rtc_r; [apply tc_once|exact Hq].
  exists x. split; [done|]. split; [congruence|done].
Qed.

Lemma child_row_drop d S m :
  WF d -> RootIno ∉ S -> (forall i x, nodes d !! i = Some x -> r_parent x = dir -> r_name x = m -> i <> RootIno -> i ∉ S) ->
  child_row (drop_set S d) dir m = child_row d dir m.
Proof.
  intros HW HS H. pose proof (WF_drop d S HS HW) as HW'. apply option_eq. intros [i x].
  rewrite !child_row_iff by (apply HW || apply HW'). simpl. rewrite lookup_without. case_decide as Hi; [|done].
  split; [by intros [? _]|]. intros (Hx & Hp & Hn & H1). by destruct (H _ _ Hx Hp Hn H1).
Qed.

(** Dropping children that are not held up. *)
Lemma mid_drop (N : gset string) d (S : gset Z) :
  Mid N d -> RootIno ∉ S -> evs d (drop_set S d) ->
  (forall i : Z, i ∈ S -> exists c x, nodes d !! c = Some x /\ r_parent x = dir /\ c <> RootIno /\ i ∈ subtree d c /\
     ~ held c /\ r_name x ∈ N) ->
  Mid N (drop_set S d) /\ forall i, held i -> i ∉ S.
Proof.
  intros HM HS HE HC. pose proof (mid_WF _ _ HM) as HW.
  assert (Hheld : forall i, held i -> i ∉ S).
  { intros i (j & r & Hs & Hji) Hi. destruct (HC i Hi) as (c & x & Hc & Hp & H1 & Hsub & Hn & _). apply Hn. exists j, r.
    split; [done|]. etrans; [exact Hji|]. apply elem_of_subtree, rtc_tc in Hsub as [->|Hsub]; [done|].
    by eapply below_child. }
  split; [|done]. split.
  - etrans; [apply HM|exact HE].
  - intros i x. simpl. rewrite lookup_without. case_decide; [done|]. apply HM.
  - intros i r Hs. simpl. rewrite lookup_without, decide_False; [by apply HM|]. apply Hheld. by exists i, r.
  - intros i r Hi Hr. simpl. rewrite lookup_without, decide_False by auto. by apply (mid_above _ _ HM).
  - intros m Hm. rewrite child_row_drop; [by apply (mid_todo _ _ HM)|done|done|]. intros i x Hx Hp Hn H1 Hi.
    destruct (HC i Hi) as (c & y & Hc & Hcp & Hc1 & Hsub & _ & Hcn).
    rewrite (siblings_apart _ _ _ _ _ HW Hc Hcp Hc1 Hx Hp H1 Hsub) in Hx. rewrite Hc in Hx. injection Hx as ->. congruence.
Qed.

(** Changing the columns of a child that is not spared. *)
Lemma mid_update N d c x f :
  Mid N d -> nodes d !! c = Some x -> r_parent x = dir -> c <> RootIno -> r_name x ∈ N -> ~ secure c x ->
  (forall r, r_parent (f r) = r_parent r /\ r_name (f r) = r_name r) -> Mid N (update_row c f d).
Proof.
  intros HM Hc Hp H1 HN Hs Hf. pose proof (mid_WF _ _ HM) as HW.
  assert (HE : evs d (update_row c f d)).
  { apply (change_update (R:=evs)); [done|]. intros r _. destruct (Hf r). by split. }
  pose proof (evs_WF _ _ HE HW) as HW'.
  assert (Hl : forall i, nodes (update_row c f d) !! i = if decide (i = c) then Some (f x) else nodes d !! i).
  { intros i. simpl. case_decide as Hi; [subst; by rewrite lookup_alter_eq, Hc|by rewrite lookup_alter_ne]. }
  destruct (Hf x) as [Hfp Hfn]. split.
  - etrans; [apply HM|done].
  - intros i y. rewrite Hl. case_decide; [intros [= <-]; congruence|]. apply HM.
  - intros i r Hi. rewrite Hl. case_decide as He; [|by apply HM]. subst i. pose proof (mid_spared _ _ HM _ _ Hi) as Hr.
    rewrite Hc in Hr. injection Hr as <-. done.
  - intros i r Hi Hr. rewrite Hl. destruct (mid_above _ _ HM i r Hi Hr) as (y & Hy & Hyp & Hyn). case_decide as He; [|eauto].
    subst i. rewrite Hc in Hy. injection Hy as <-. exists (f x). split; [done|]. split; congruence.
  - intros m Hm. rewrite <- (mid_todo _ _ HM) by done. apply option_eq. intros [i y].
    rewrite !child_row_iff by (apply HW || apply HW'). rewrite Hl. case_decide as He; [|done]. subst i.
    split; [intros ([= <-] & _ & Hn & _)|intros (Hy & _ & Hn & _)]; exfalso; congruence.
Qed.

(** A row inserted under a name the listing has reached. *)
Lemma mid_insert N d r :
  Mid N d -> r_parent r = dir -> r_name r ∈ N -> entry_at d dir (r_name r) = None ->
  exists d', insert_row r d = Ok (seq d + 1, d') /\ Mid N d' /\ nodes d' = <[seq d + 1 := r]> (nodes d).
Proof.
  intros HM Hp HN He. pose proof (mid_WF _ _ HM) as HW.
  assert (HI := insert_row_Ok r d (seq d + 1)). rewrite <- Hp in He.
  eexists. split; [by apply HI|]. match goal with |- Mid N ?x /\ _ => set (d' := x) end. split; [|done].
  assert (HE : evs d d').
  { apply rtc_once, (ev_insert d r (seq d + 1)); [by apply HI|]. rewrite Hp. pose proof (evs_seq _ _ (mid_evs _ _ HM)).
    unfold known in Hdir. lia. }
  pose proof (evs_WF _ _ HE HW) as HW'.
  assert (Hfresh : nodes d !! (seq d + 1) = None).
  { destruct (nodes d !! (seq d + 1)) as [y|] eqn:Hy; [|done]. pose proof (wf_seq d HW _ _ Hy). lia. }
  split.
  - etrans; [apply HM|done].
  - intros i y. simpl. rewrite lookup_insert_Some. intros [[<- <-]|[_ Hy]]; [done|]. by apply (mid_rest _ _ HM).
  - intros i y Hs. simpl. pose proof (mid_spared _ _ HM _ _ Hs). rewrite lookup_insert_ne by congruence. done.
  - intros i y Hi Hy. simpl. destruct (mid_above _ _ HM i y Hi Hy) as (z & Hz & Hzz). exists z.
    rewrite lookup_insert_ne by congruence. done.
  - intros m Hm. rewrite <- (mid_todo _ _ HM) by done. apply option_eq. intros [i y].
    rewrite !child_row_iff by (apply HW || apply HW'). simpl. rewrite lookup_insert_Some.
    split; [|intros (Hy & Hr); split; [|done]; right; split; [congruence|done]].
    intros ([[<- <-]|[_ Hy]] & Hyp & Hyn & H1); [congruence|done].
Qed.

(** ** The names reached so far *)

(** Only the entry called [m] changed. *)
Definition same_but (m : string) (d d' : DB) : Prop := forall m', m' <> m -> child_row d' dir m' = child_row d dir m'.

Lemma update_same_but d c x f :
  WF d -> WF (update_row c f d) -> nodes d !! c = Some x -> r_parent x = dir -> c <> RootIno ->
  (forall r, r_parent (f r) = r_parent r /\ r_name (f r) = r_name r) -> same_but (r_name x) d (update_row c f d).
Proof.
  intros HW HW' Hc Hp H1 Hf m' Hm. apply option_eq. intros [i y]. rewrite !child_row_iff by (apply HW || apply HW').
  simpl. destruct (decide (i = c)) as [->|Hi]; [|by rewrite lookup_alter_ne]. rewrite lookup_alter_eq, Hc. simpl.
  destruct (Hf x) as [Hfp Hfn]. split; [intros ([= <-] & _ & Hn & _)|intros ([= <-] & _ & Hn & _)]; exfalso; congruence.
Qed.

(** A row the listing asks for, not yet inserted. *)
Definition pending (d : DB) (m : string) (n c : Node) : Prop :=
  c = listed_node dir t childTTL n /\ child_row d dir m = None /\
  forall kv, child_row d0 dir m = Some kv -> directoryReplacement (node_of kv) c = true.

Record Prog (N : gset string) (P : list Node) (ch : gmap string Change) (d : DB) : Prop := {
  prog_mid : Mid N d;
  prog_names : forall m n, m ∈ N -> L !! m = Some n -> settled d m n \/ exists c, c ∈ P /\ pending d m n c;
  prog_nodup : NoDup (map Name P);
  prog_pending : forall c, c ∈ P -> exists n, L !! Name c = Some n /\ Name c ∈ N /\ pending d (Name c) n c;
  prog_changes : dom ch ⊆ N
}.

Lemma listed_name n : Name (listed_node dir t childTTL n) = Name n.
Proof. unfold listed_node. match goal with |- Name (fillMode ?x) = _ => destruct (fillMode_place x) as [_ ->] end. by case_decide. Qed.
Lemma fillMode_entry m o : same_entry o (fillMode m) = same_entry o m.
Proof. unfold fillMode. case_decide; [done|]. by destruct (IsDir m). Qed.
Lemma listed_entry o n : same_entry o (listed_node dir t childTTL n) = same_entry o n.
Proof. unfold listed_node. rewrite fillMode_entry. by case_decide. Qed.
Lemma entry_refl o n :
  Version o = Version n -> Size o = Size n -> NKind o = NKind n -> RemoteID o = RemoteID n ->
  RemoteVersion o = RemoteVersion n -> Remote o = Remote n -> same_entry o n = true.
Proof. intros. by apply bool_decide_eq_true. Qed.
Lemma inserted_entry i n : same_entry (scanNode i (bind_row (listed_node dir t childTTL n))) n = true.
Proof. rewrite <- (listed_entry _ n). by apply entry_refl. Qed.
Lemma updated_entry i n r : same_entry (scanNode i (set_content (listed_row (listed_node dir t childTTL n)) r)) n = true.
Proof. rewrite <- (listed_entry _ n). by apply entry_refl. Qed.

(** What is done for one name leaves the others. *)
Lemma prog_step N P ch d m d' :
  Prog N P ch d -> m ∉ N -> Mid ({[m]} ∪ N) d' -> same_but m d d' ->
  (forall m' n, m' ∈ N -> L !! m' = Some n -> settled d' m' n \/ exists c, c ∈ P /\ pending d' m' n c) /\
  (forall c, c ∈ P -> exists n, L !! Name c = Some n /\ Name c ∈ {[m]} ∪ N /\ pending d' (Name c) n c).
Proof.
  intros HP Hm HM Hs. split.
  - intros m' n Hm' Hn. assert (Hne : m' <> m) by congruence.
    destruct (prog_names _ _ _ _ HP m' n Hm' Hn) as [H|(c & Hc & H1 & H2 & H3)].
    + left. eapply settled_same; [exact H|]. by apply Hs.
    + right. exists c. split; [done|]. split; [done|]. split; [by rewrite Hs|done].
  - intros c Hc. destruct (prog_pending _ _ _ _ HP c Hc) as (n & Hn & HN & H1 & H2 & H3). exists n. split; [done|].
    split; [set_solver|]. split; [done|]. split; [|done]. rewrite (Hs (Name c)); [done|]. intros He. congruence.
Qed.

(** The name is settled, or its row is pending. *)
Lemma prog_settle N P ch d m n d' ch' :
  Prog N P ch d -> m ∉ N -> L !! m = Some n -> Mid ({[m]} ∪ N) d' -> same_but m d d' -> settled d' m n ->
  dom ch' ⊆ {[m]} ∪ dom ch -> Prog ({[m]} ∪ N) P ch' d'.
Proof.
  intros HP Hm Hn HM Hs Hset Hch. destruct (prog_step _ _ _ _ _ _ HP Hm HM Hs) as [H1 H2].
  pose proof (prog_changes _ _ _ _ HP). split; [done| |apply HP|done|set_solver].
  intros m' n' [->%elem_of_singleton|Hm']%elem_of_union Hn'; [left; congruence|by apply H1].
Qed.
Lemma prog_pend N P ch d m n d' ch' :
  Prog N P ch d -> m ∉ N -> L !! m = Some n -> Mid ({[m]} ∪ N) d' -> same_but m d d' ->
  pending d' m n (listed_node dir t childTTL n) ->
  dom ch' ⊆ {[m]} ∪ dom ch -> Prog ({[m]} ∪ N) (P ++ [listed_node dir t childTTL n]) ch' d'.
Proof.
  intros HP Hm Hn HM Hs Hset Hch. destruct (prog_step _ _ _ _ _ _ HP Hm HM Hs) as [H1 H2].
  destruct (HL _ _ Hn) as [Hnm _]. assert (Hcn : Name (listed_node dir t childTTL n) = m) by (by rewrite listed_name).
  pose proof (prog_changes _ _ _ _ HP). split; [done| | | |set_solver].
  - intros m' n' [->%elem_of_singleton|Hm']%elem_of_union Hn'.
    + right. eexists. split; [apply elem_of_app; right; by left|]. congruence.
    + destruct (H1 m' n' Hm' Hn') as [H0|(c & Hc & H0)]; [by left|right]. exists c. split; [apply elem_of_app; by left|done].
  - rewrite map_app. apply NoDup_app. split; [apply HP|]. split; [|simpl; apply NoDup_singleton].
    intros x (c & -> & Hc)%list_elem_of_fmap. simpl. rewrite list_elem_of_singleton, Hcn.
    destruct (prog_pending _ _ _ _ HP c Hc) as (_ & _ & HcN & _). by intros He; rewrite He in HcN.
  - intros c [Hc| ->%list_elem_of_singleton]%elem_of_app; [by apply H2|]. rewrite Hcn. exists n. split; [done|].
    split; [set_solver|done].
Qed.

Lemma mid_more N d m : Mid N d -> Mid ({[m]} ∪ N) d.
Proof. intros HM. split; try apply HM. intros m' Hm'. apply HM. set_solver. Qed.
Lemma add_change_fresh N P ch d m i k :
  Prog N P ch d -> m ∉ N -> add_change m i k ch d = Ok (<[m := MkListed i k]> ch, d).
Proof.
  intros HP Hm. unfold add_change. destruct (ch !! m) eqn:Hc; [|done]. exfalso. apply Hm.
  apply (prog_changes _ _ _ _ HP), elem_of_dom. by eexists.
Qed.

Lemma kept_settles N d m n i x :
  Mid N d -> m ∉ N -> child_row d0 dir m = Some (i, x) -> heldup i -> settled d m n.
Proof.
  intros HM Hm Hc Hh. exists i, x. split; [by rewrite (mid_todo _ _ HM)|]. right. split; [done|].
  by apply child_row_Some in Hc as (? & _).
Qed.

Lemma drop_child_step N d c x :
  Mid N d -> r_name x ∉ N -> child_row d dir (r_name x) = Some (c, x) -> ~ held c ->
  Mid ({[r_name x]} ∪ N) (drop_set (subtree d c) d) /\ same_but (r_name x) d (drop_set (subtree d c) d) /\
  child_row (drop_set (subtree d c) d) dir (r_name x) = None.
Proof.
  intros HM Hm Hc Hh. pose proof (mid_WF _ _ HM) as HW. apply child_row_Some in Hc as (Hx & Hp & _ & H1).
  pose proof (root_not_below d c H1) as HR. pose proof (drop_evs d c H1) as HE. pose proof (evs_WF _ _ HE HW) as HW'.
  assert (Hsib : forall i y, nodes d !! i = Some y -> r_parent y = dir -> i <> RootIno -> i ∈ subtree d c -> i = c).
  { intros i y Hy Hyp Hi Hs. by eapply (siblings_apart d c x i y). }
  split; [|split].
  - apply mid_drop; [by apply mid_more|done|done|]. intros i Hi. exists c, x. do 5 (split; [done|]). set_solver.
  - intros m' Hm'. apply child_row_drop; [done|done|]. intros i y Hy Hyp Hyn Hi Hs.
    rewrite (Hsib _ _ Hy Hyp Hi Hs) in Hy. congruence.
  - destruct (child_row (drop_set _ _) _ _) as [[i y]|] eqn:Hy; [|done]. exfalso.
    apply child_row_Some in Hy as (Hy & Hyp & Hyn & Hi). simpl in Hy. rewrite lookup_without in Hy. case_decide as Hs; [done|].
    apply Hs. rewrite (wf_uniq d HW i c y x Hy Hx) by congruence. apply subtree_self.
Qed.

(** One staged node: it always succeeds, and its name is reached. *)
Lemma merge_node_spec N P ch d old n :
  Prog N P ch d -> L !! Name n = Some n -> Name n ∉ N -> old (Name n) = child_row d0 dir (Name n) ->
  exists P' ch' d', merge_node t childTTL protect dir gen old n (P, ch) d = Ok ((P', ch'), d') /\
    Prog ({[Name n]} ∪ N) P' ch' d'.
Proof.
  intros HP Hn Hm Ho. pose proof (prog_mid _ _ _ _ HP) as HM. pose proof (mid_WF _ _ HM) as HW.
  pose proof (mid_more _ _ (Name n) HM) as HM'. destruct (HL _ _ Hn) as [_ Hne].
  assert (Hsame : settled d (Name n) n -> Prog ({[Name n]} ∪ N) P ch d).
  { intros Hs. eapply (prog_settle _ _ _ _ _ n); try done. set_solver. }
  unfold merge_node. cbv zeta. rewrite Ho, !listed_name. destruct (child_row d0 dir (Name n)) as [[i x]|] eqn:Hc.
  2:{ unfold tbind. rewrite (add_change_fresh _ _ _ _ _ _ _ HP Hm). eexists _, _, _. split; [done|].
      apply (prog_pend N P ch d (Name n) n); [done|done|done|done|done| |rewrite dom_insert_L; set_solver].
      split; [done|]. rewrite (mid_todo _ _ HM) by done. split; [done|]. by rewrite Hc. }
  assert (Hcd : child_row d dir (Name n) = Some (i, x)) by (by rewrite (mid_todo _ _ HM)).
  pose proof Hcd as (Hx & Hp & Hxn & H1)%child_row_Some. pose proof Hc as (Hx0 & _)%child_row_Some.
  cbv beta iota. destruct (bool_decide (gen <= r_applied x)) eqn:Hap.
  { apply bool_decide_eq_true in Hap. exists P, ch, d. split; [done|]. apply Hsame. apply (kept_settles N d _ _ i x); [done|done|done|].
    exists i, x. split; [|apply rtc_refl]. split; [done|]. by right. }
  apply bool_decide_eq_false in Hap. change (node_of (i, x)) with (scanNode i x). change (Ino (scanNode i x)) with i.
  destruct (asks protect (scanNode i x)) eqn:Ha.
  { exists P, ch, d. split; [done|]. apply Hsame. apply (kept_settles N d _ _ i x); [done|done|done|].
    exists i, x. split; [|apply rtc_refl]. split; [done|]. by left. }
  destruct (directoryReplacement _ _) eqn:Hrep.
  - unfold tbind. rewrite prepare_eq by done. change (Ino (scanNode i x)) with i.
    destruct (match protect with Some f => protectedSubtree d i f | None => false end) eqn:Hps.
    + exists P, ch, d. split; [done|]. apply Hsame. apply (kept_settles N d _ _ i x); [done|done|done|].
      destruct protect as [f|] eqn:Hf; [|done]. rewrite <- Hf in *. by eapply code_heldup.
    + pose proof (code_not_heldup N d i x HM Hx Hp H1 Ha ltac:(lia) Hps) as Hnh. rewrite <- Hxn in Hcd.
      destruct (drop_child_step N d i x HM) as (HMd & Hsd & Hcn); [by rewrite Hxn|done|done|]. rewrite Hxn in *.
      unfold add_change. destruct (ch !! Name n) eqn:Hch.
      { exfalso. apply Hm, (prog_changes _ _ _ _ HP), elem_of_dom. by eexists. }
      eexists _, _, _. split; [done|]. apply (prog_pend N P ch d (Name n) n); [done|done|done|done|done| |rewrite dom_insert_L; set_solver].
      split; [done|]. split; [done|]. intros kv. rewrite Hc. by intros [= <-].
  - destruct (same_entry _ _) eqn:Hse.
    + exists P, ch, d. split; [done|]. apply Hsame. exists i, x. split; [done|]. left. rewrite listed_entry in Hse.
      split; [done|]. intros kv. rewrite Hc. intros [= <-]. by left.
    + pose proof (code_not_heldup N d i x HM Hx Hp H1 Ha ltac:(lia)) as Hnh.
      unfold tbind, tmodify, add_change. destruct (ch !! Name n) eqn:Hch.
      { exfalso. apply Hm, (prog_changes _ _ _ _ HP), elem_of_dom. by eexists. }
      eexists _, _, _. split; [done|]. set (f := set_content _).
      assert (Hns : ~ secure i x) by (intros [_ [[Hs _]|(_ & _ & Hs)]]; [congruence|lia]).
      assert (HMu : Mid ({[Name n]} ∪ N) (update_row i f d)).
      { eapply mid_update; [done|done|done|done| |done|done]. rewrite Hxn. set_solver. }
      assert (HWu : WF (update_row i f d)) by (by eapply mid_WF).
      eapply prog_settle; [done|done|done|done| | |rewrite dom_insert_L; set_solver].
      * rewrite <- Hxn. by eapply update_same_but.
      * exists i, (f x). split.
        -- apply child_row_iff; [apply HWu|]. simpl. rewrite lookup_alter_eq, Hx. done.
        -- left. split; [apply updated_entry|]. intros kv. rewrite Hc. intros [= <-]. by left.
Qed.

Definition names_of (l : list Node) : gset string := list_to_set (map Name l).
Definition staged_nodes (l : list Node) : Prop := NoDup (map Name l) /\ forall n, n ∈ l -> L !! Name n = Some n.

Lemma merge_nodes_spec l N P ch d old :
  Prog N P ch d -> staged_nodes l -> (forall n, n ∈ l -> Name n ∉ N /\ old (Name n) = child_row d0 dir (Name n)) ->
  exists P' ch' d', tfold (merge_node t childTTL protect dir gen old) l (P, ch) d = Ok ((P', ch'), d') /\
    Prog (names_of l ∪ N) P' ch' d'.
Proof.
  revert N P ch d. induction l as [|n l IH]; intros N P ch d HP [HN HL'] Hl; cbn [tfold].
  { exists P, ch, d. split; [done|]. unfold names_of. simpl. by rewrite (left_id_L ∅ (∪)). }
  apply NoDup_cons in HN as [Hn HN]. destruct (Hl n) as [HnN Ho]; [by left|].
  destruct (merge_node_spec N P ch d old n HP (HL' n ltac:(by left)) HnN Ho) as (P1 & ch1 & d1 & H1 & HP1).
  destruct (IH _ _ _ _ HP1) as (P2 & ch2 & d2 & H2 & HP2).
  - split; [done|]. intros m Hm. apply HL'. by right.
  - intros m Hm. destruct (Hl m) as [HmN Hom]; [by right|]. split; [|done]. intros [He%elem_of_singleton|]%elem_of_union; [|done].
    apply Hn. rewrite <- He. by apply list_elem_of_In, in_map, list_elem_of_In.
  - exists P2, ch2, d2. unfold tbind. rewrite H1. split; [done|].
    assert (He : names_of (n :: l) ∪ N = names_of l ∪ ({[Name n]} ∪ N)) by (unfold names_of; set_solver). by rewrite He.
Qed.

Lemma insert_same_but N d r d' :
  Mid N d -> Mid N d' -> r_parent r = dir -> nodes d' = <[seq d + 1 := r]> (nodes d) ->
  entry_at d dir (r_name r) = None -> r_name r <> "" ->
  same_but (r_name r) d d' /\ child_row d' dir (r_name r) = Some (seq d + 1, r).
Proof.
  intros HM HM' Hp Hn He Hne. pose proof (mid_WF _ _ HM) as HW. pose proof (mid_WF _ _ HM') as HW'.
  assert (Hfresh : forall i y, nodes d !! i = Some y -> i <> seq d + 1) by (intros i y Hy; pose proof (wf_seq d HW _ _ Hy); lia).
  assert (Hs1 : seq d + 1 <> RootIno).
  { destruct (wf_root d HW) as (y & Hy & _). intros Hr. exact (Hfresh _ _ Hy (eq_sym Hr)). }
  split; [intros m' Hm'; apply option_eq; intros [i y]|]; rewrite !child_row_iff by (apply HW || apply HW');
    rewrite Hn, lookup_insert_Some.
  - split; [|intros (Hy & Hr); split; [|done]; right; split; [by apply not_eq_sym, (Hfresh i y)|done]].
    intros ([[<- <-]|[_ Hy]] & Hyp & Hyn & H1); [congruence|done].
  - split; [by left|done].
Qed.

(** The pending rows of a batch go in. *)
Lemma insert_pending P N ch d :
  Prog N P ch d -> exists d', insertNodesTx P d = Ok (tt, d') /\ Prog N [] ch d'.
Proof.
  revert d. induction P as [|c P IH]; intros d HP; [by exists d|].
  pose proof (prog_mid _ _ _ _ HP) as HM. pose proof (mid_WF _ _ HM) as HW.
  destruct (prog_pending _ _ _ _ HP c) as (n & Hn & HcN & Hcn & Hc0 & Hrep); [by left|].
  pose proof (HL _ _ Hn) as [Hnm Hne]. pose proof (prog_nodup _ _ _ _ HP) as [HcP HN]%NoDup_cons.
  pose proof (child_row_none _ _ _ HW Hne Hc0) as He.
  assert (Hrp : r_parent (bind_row c) = dir) by (rewrite Hcn; apply listed_node_parent).
  destruct (mid_insert N d (bind_row c) HM Hrp HcN He) as (d1 & H1 & HM1 & Hn1).
  destruct (insert_same_but N d (bind_row c) d1 HM HM1 Hrp Hn1 He Hne) as [Hsb Hin].
  destruct (IH d1) as (d2 & H2 & HP2).
  - split; [exact HM1| |done| |apply HP].
    + intros m n' Hm Hn'. destruct (decide (m = Name c)) as [->|Hmc].
      * left. rewrite Hn in Hn'. injection Hn' as <-. eexists _, _. split; [exact Hin|]. left.
        split; [rewrite Hcn; apply inserted_entry|]. intros kv Hkv. right. split; [|rewrite <- Hcn; by apply Hrep].
        pose proof (evs_seq _ _ (mid_evs _ _ HM)). lia.
      * destruct (prog_names _ _ _ _ HP m n' Hm Hn') as [Hs|(c' & Hc' & Hpd)].
        -- left. eapply settled_same; [exact Hs|]. by apply Hsb.
        -- apply elem_of_cons in Hc' as [->|Hc'].
           ++ exfalso. apply Hmc. destruct Hpd as [He' _]. rewrite He', listed_name. symmetry. apply (HL m n'). done.
           ++ right. exists c'. split; [done|]. destruct Hpd as (Hx & Hy & Hz). split; [done|]. split; [|done]. by rewrite Hsb.
    + intros c' Hc'. destruct (prog_pending _ _ _ _ HP c') as (n' & Hn' & HN' & Hx & Hy & Hz); [by right|].
      exists n'. split; [done|]. split; [done|]. split; [done|]. split; [|done]. rewrite (Hsb (Name c')); [done|].
      intros Heq. apply HcP. change (Name c' = Name c) in Heq. change (Name c ∈ map Name P). rewrite <- Heq. by apply list_elem_of_In, in_map, list_elem_of_In.
  - exists d2. split; [|done]. unfold insertNodesTx in *. cbn [tforeach foldr]. unfold tbind. by rewrite H1.
Qed.

Lemma merge_batch_spec l N ch d :
  Prog N [] ch d -> staged_nodes l -> (forall n, n ∈ l -> Name n ∉ N) ->
  exists ch' d', merge_batch t childTTL protect dir gen l ch d = Ok (ch', d') /\ Prog (names_of l ∪ N) [] ch' d'.
Proof.
  intros HP Hl HN. destruct (merge_nodes_spec l N [] ch d (child_row d dir) HP Hl) as (P & ch1 & d1 & H1 & HP1).
  { intros n Hn. split; [by apply HN|]. apply (mid_todo _ _ (prog_mid _ _ _ _ HP)). by apply HN. }
  destruct (insert_pending P _ ch1 d1 HP1) as (d2 & H2 & HP2). exists ch1, d2. split; [|done].
  unfold merge_batch, tbind, treads. rewrite H1. simpl. by rewrite H2.
Qed.

Lemma pages_concat {A} fuel (l : list A) : (length l <= fuel)%nat -> concat (pages fuel l) = l.
Proof.
  revert l. induction fuel as [|fuel IH]; intros l Hl; [by destruct l; simpl in Hl; [|lia]|].
  destruct l as [|x l]; [done|]. cbn [pages concat]. rewrite IH, take_drop; [done|]. rewrite length_drop.
  unfold DirListingBatch. simpl in *. lia.
Qed.

Lemma merge_pages_spec ls N ch d :
  Prog N [] ch d -> staged_nodes (concat ls) -> (forall n, n ∈ concat ls -> Name n ∉ N) ->
  exists ch' d', tfold (merge_batch t childTTL protect dir gen) ls ch d = Ok (ch', d') /\
    Prog (names_of (concat ls) ∪ N) [] ch' d'.
Proof.
  revert N ch d. induction ls as [|l ls IH]; intros N ch d HP [HNd HSt] HN; cbn [tfold concat].
  { exists ch, d. split; [done|]. unfold names_of. simpl. by rewrite (left_id_L ∅ (∪)). }
  cbn [concat] in *. rewrite map_app in HNd. apply NoDup_app in HNd as (HNl & Hdisj & HNs).
  destruct (merge_batch_spec l N ch d HP) as (ch1 & d1 & H1 & HP1).
  { split; [done|]. intros n Hn. apply HSt, elem_of_app. by left. }
  { intros n Hn. apply HN, elem_of_app. by left. }
  destruct (IH _ _ _ HP1) as (ch2 & d2 & H2 & HP2).
  - split; [done|]. intros n Hn. apply HSt, elem_of_app. by right.
  - intros n Hn [Hi|Hi]%elem_of_union; [|by eapply HN; [apply elem_of_app; right|]].
    apply elem_of_list_to_set in Hi. apply (Hdisj _ Hi). by apply list_elem_of_In, in_map, list_elem_of_In.
  - exists ch2, d2. unfold tbind. rewrite H1. split; [done|].
    assert (He : names_of (l ++ concat ls) ∪ N = names_of (concat ls) ∪ (names_of l ∪ N)); [|by rewrite He].
    unfold names_of. rewrite map_app. set_solver.
Qed.

(** ** The whole merge, and the children the listing lacks *)

Context (l : DirListing).
Hypothesis Hl_nodes : l_nodes l = L.
Hypothesis Hl_gen : l_generation l = gen.
Hypothesis Hl_dir : Ino (l_parent l) = dir.
Hypothesis Hl_changes : l_changes l = ∅.

Lemma elem_of_staged n : n ∈ staged l <-> exists m, L !! m = Some n.
Proof.
  unfold staged. rewrite Hl_nodes, list_elem_of_fmap. setoid_rewrite stable_sort_elem. split.
  - intros ([m x] & -> & Hm%elem_of_map_to_list). by exists m.
  - intros (m & Hm). exists (m, n). split; [done|]. by apply elem_of_map_to_list.
Qed.

Lemma staged_staged : staged_nodes (staged l) /\ names_of (staged l) = dom L.
Proof.
  assert (Hn : forall n, n ∈ staged l -> L !! Name n = Some n).
  { intros n (m & Hm)%elem_of_staged. by destruct (HL _ _ Hm) as [-> _]. }
  split; [split; [|done]|].
  - unfold staged. rewrite Hl_nodes, map_map.
    assert (HP : stable_sort (fun a b : string * Node => String.ltb (fst a) (fst b)) (map_to_list L) ≡ₚ map_to_list L) by apply stable_sort_perm.
    assert (He : map (fun x => Name (snd x)) (stable_sort (fun a b : string * Node => String.ltb (fst a) (fst b)) (map_to_list L)) =
                 map fst (stable_sort (fun a b : string * Node => String.ltb (fst a) (fst b)) (map_to_list L))).
    { apply map_ext_in. intros [m n] Hin. apply list_elem_of_In in Hin. rewrite stable_sort_elem in Hin.
      apply elem_of_map_to_list in Hin. by destruct (HL _ _ Hin). }
    rewrite He, (fmap_Permutation fst _ _ HP). apply NoDup_fst_map_to_list.
  - unfold names_of. apply set_eq. intros m. rewrite elem_of_list_to_set, elem_of_dom, list_elem_of_fmap. split.
    + intros (n & -> & Hin). eexists. by apply Hn.
    + intros [n Hm]. exists n. destruct (HL _ _ Hm) as [<- _]. split; [done|]. apply elem_of_staged. eauto.
Qed.

Lemma mergeStaged_spec :
  exists ch d, mergeStaged t childTTL protect l d0 = Ok (ch, d) /\ Prog (dom L) [] ch d.
Proof.
  destruct staged_staged as [Hst Hdom]. pose proof (pages_concat (length (staged l)) (staged l) (le_n _)) as Hc.
  destruct (merge_pages_spec (pages (length (staged l)) (staged l)) ∅ ∅ d0) as (ch & d & H & HP).
  - split; [apply mid_start|set_solver|constructor|intros c Hc'; by apply not_elem_of_nil in Hc'|set_solver].
  - by rewrite Hc.
  - set_solver.
  - exists ch, d. unfold mergeStaged. rewrite Hl_dir, Hl_gen, Hl_changes. split; [done|].
    by rewrite Hc, Hdom, (right_id_L ∅ (∪)) in HP.
Qed.

Lemma missing_not_held N d c x :
  Mid N d -> nodes d !! c = Some x -> nodes d0 !! c = Some x -> r_parent x = dir -> c <> RootIno ->
  asks protect (scanNode c x) = false -> ~ gen <= r_applied x ->
  match protect with Some f => IsDir (scanNode c x) && protectedSubtree d c f | None => false end = false -> ~ held c.
Proof.
  intros HM Hc Hc0 Hp H1 Ha Hg Hps. destruct (decide (r_kind x = KindDir)) as [Hd|Hd].
  - assert (HI : IsDir (scanNode c x) = true) by (by apply bool_decide_eq_true). rewrite HI in Hps.
    eapply code_not_heldup; [exact HM|exact Hc|done|done|done|lia|by destruct protect].
  - intros (j & r & [Hj Hs] & [->|Hjc]%rtc_tc).
    { rewrite Hc0 in Hj. injection Hj as <-. destruct Hs as [[Hs _]|(_ & _ & Hs)]; [congruence|lia]. }
    destruct Hs as [[_ Hs]|(Hjp & _)]; [exact (Hd (Hs c x Hjc Hc0 Hp H1))|].
    apply (wf_acyclic d0 HW0 c). apply tc_first in Hjc as (b & (y & Hy & Hyp & _) & Hb).
    rewrite Hj in Hy. injection Hy as <-. eapply tc_rtc_r; [apply tc_once|exact Hb]. exists x. split; [done|].
    split; [congruence|done].
Qed.

Lemma drop_missing_spec d rows ch T :
  Mid (dom L) d -> NoDup (map (fun kv => r_name (snd kv)) rows) ->
  (forall kv, kv ∈ rows -> child_row d dir (r_name (snd kv)) = Some kv /\ r_name (snd kv) ∉ dom L /\ r_name (snd kv) ∉ dom ch) ->
  exists ch' T', tfold (drop_missing protect gen) rows (ch, T) d = Ok ((ch', T'), d) /\ T ⊆ T' /\
    (forall kv, kv ∈ rows -> heldup (fst kv) \/ fst kv ∈ T') /\
    (forall i, i ∈ T' -> i ∈ T \/ exists c x, (c, x) ∈ rows /\ ~ held c /\ i ∈ subtree d c).
Proof.
  intros HM. revert ch T. induction rows as [|[c x] rows IH]; intros ch T HN Hr; cbn [tfold].
  { exists ch, T. split; [done|]. split; [done|]. split; [|by left]. intros kv Hkv. by apply not_elem_of_nil in Hkv. }
  apply NoDup_cons in HN as [Hx HN]. destruct (Hr (c, x)) as (Hc & HxL & Hxch); [by left|]. simpl in Hc, HxL, Hxch, Hx.
  pose proof Hc as (Hcx & Hp & _ & H1)%child_row_Some.
  assert (Hc0 : nodes d0 !! c = Some x).
  { rewrite (mid_todo _ _ HM) in Hc by done. by apply child_row_Some in Hc as (? & _). }
  assert (Hstep : exists ch1 T1, drop_missing protect gen (c, x) (ch, T) d = Ok ((ch1, T1), d) /\
    dom ch1 ⊆ {[r_name x]} ∪ dom ch /\ ((T1 = T /\ heldup c) \/ (T1 = T ∪ subtree d c /\ ~ held c))).
  { unfold drop_missing. change (node_of (c, x)) with (scanNode c x). simpl snd. change (Ino (scanNode c x)) with c.
    change (Name (scanNode c x)) with (r_name x).
    destruct (bool_decide (gen <= r_applied x)) eqn:Hap; simpl orb.
    { apply bool_decide_eq_true in Hap. exists ch, T. split; [done|]. split; [set_solver|]. left. split; [done|].
      exists c, x. split; [|apply rtc_refl]. split; [done|]. by right. }
    apply bool_decide_eq_false in Hap. destruct (asks protect (scanNode c x)) eqn:Ha.
    { exists ch, T. split; [done|]. split; [set_solver|]. left. split; [done|].
      exists c, x. split; [|apply rtc_refl]. split; [done|]. by left. }
    destruct (match protect with Some f => _ | None => false end) eqn:Hps.
    { exists ch, T. split; [done|]. split; [set_solver|]. left. split; [done|].
      destruct protect as [f|] eqn:Hf; [|done]. apply andb_true_iff in Hps as [_ Hps]. rewrite <- Hf in *. by eapply code_heldup. }
    exists (<[r_name x := MkListed c CRemove]> ch), (T ∪ subtree d c). split.
    { unfold tbind, add_change. change (fst (ch, T)) with ch. destruct (ch !! r_name x) eqn:Hch; [|done]. exfalso. apply Hxch, elem_of_dom. by eexists. }
    split; [rewrite dom_insert_L; set_solver|]. right. split; [done|].
    by eapply missing_not_held. }
  destruct Hstep as (ch1 & T1 & H1' & Hch1 & HT1).
  destruct (IH ch1 T1 HN) as (ch2 & T2 & H2 & Hsub & Hrows & Hin).
  - intros kv Hkv. destruct (Hr kv) as (Ha & Hb & Hd); [by right|]. split; [done|]. split; [done|].
    intros Hi. apply Hch1, elem_of_union in Hi as [Hi%elem_of_singleton|Hi]; [|done]. apply Hx. rewrite <- Hi.
    apply list_elem_of_fmap. by exists kv.
  - exists ch2, T2. unfold tbind. rewrite H1'. split; [done|].
    split; [destruct HT1 as [[-> _]|[-> _]]; set_solver|]. split.
    + intros kv [->|Hkv]%elem_of_cons; [|by apply Hrows]. simpl. destruct HT1 as [[_ Hh]|[-> _]]; [by left|right].
      apply Hsub, elem_of_union. right. apply subtree_self.
    + intros i Hi. destruct (Hin i Hi) as [Hi'|(c' & x' & Hc' & Hn & Hs)]; [|right; exists c', x'; split; [by right|done]].
      destruct HT1 as [[-> _]|[-> Hn]]; [by left|]. apply elem_of_union in Hi' as [Hi'|Hi']; [by left|right].
      exists c, x. split; [by left|done].
Qed.

Lemma elem_of_missing d i x :
  (i, x) ∈ missing l d <-> nodes d !! i = Some x /\ r_parent x = dir /\ i <> RootIno /\ r_name x <> "" /\ r_name x ∉ dom L.
Proof.
  unfold missing. rewrite list_elem_of_filter, Hl_dir, elem_of_children, Hl_nodes, not_elem_of_dom. simpl. tauto.
Qed.

Lemma missing_nodup d : uniq d -> NoDup (map (fun kv => r_name (snd kv)) (missing l d)).
Proof.
  intros HU. apply NoDup_fmap_2_strong.
  - intros [i x] [j y] (Hx & Hp & _)%elem_of_missing (Hy & Hq & _)%elem_of_missing Hn. simpl in Hn.
    assert (i = j) as -> by (eapply HU; [exact Hx|exact Hy|congruence|done]). congruence.
  - unfold missing. apply NoDup_filter. apply (NoDup_fmap_1 fst), NoDup_children.
Qed.

(** After the merge every name the listing has is settled, and what else is in
    the directory is held up by something spared. *)
Record Merged (d : DB) : Prop := {
  merged_evs : evs d0 d;
  merged_spared : forall i r, secure i r -> nodes d !! i = Some r;
  merged_above : forall i r, held i -> nodes d0 !! i = Some r ->
    exists x, nodes d !! i = Some x /\ r_parent x = r_parent r /\ r_name x = r_name r;
  merged_names : forall m n, L !! m = Some n -> settled d m n;
  merged_only : forall i x, nodes d !! i = Some x -> r_parent x = dir -> i <> RootIno -> r_name x <> "" ->
    L !! r_name x = None -> heldup i /\ nodes d0 !! i = Some x
}.

Lemma removeMissing_spec ch d :
  Prog (dom L) [] ch d -> exists ch' d', removeMissing protect l ch d = Ok (ch', d') /\ Merged d'.
Proof.
  intros HP. pose proof (prog_mid _ _ _ _ HP) as HM. pose proof (mid_WF _ _ HM) as HW.
  destruct (drop_missing_spec d (missing l d) ch ∅ HM) as (ch' & T & H1 & _ & Hrows & HT).
  { apply missing_nodup, HW. }
  { intros [i x] (Hx & Hp & H1 & Hn & HL')%elem_of_missing. simpl. split; [|split; [done|]].
    - apply child_row_iff; [apply HW|done].
    - intros Hc. by apply HL', (prog_changes _ _ _ _ HP). }
  assert (HC : forall i, i ∈ T -> exists c x, nodes d !! c = Some x /\ r_parent x = dir /\ c <> RootIno /\
            i ∈ subtree d c /\ ~ held c /\ r_name x ∉ dom L).
  { intros i Hi. destruct (HT i Hi) as [He|(c & x & Hc & Hn & Hs)]; [set_solver|].
    apply elem_of_missing in Hc as (Hc & Hp & H1' & _ & HcL). exists c, x. done. }
  assert (HR : RootIno ∉ T).
  { intros Hi. destruct (HC _ Hi) as (c & x & _ & _ & H1' & Hs & _). by apply (root_not_below d c). }
  assert (HE : evs d (drop_set T d)) by (by apply rtc_once, ev_drop).
  set (N := dom L ∪ list_to_set (map (fun kv => r_name (snd kv)) (missing l d))).
  assert (HMN : Mid N d).
  { split; try apply HM. intros m Hm. apply (mid_todo _ _ HM). set_solver. }
  destruct (mid_drop N d T HMN HR HE) as [HM' Hheld].
  { intros i Hi. destruct (HT i Hi) as [He|(c & x & Hc & Hn & Hs)]; [set_solver|]. exists c, x.
    pose proof Hc as (Hcx & Hp & H1' & _)%elem_of_missing. do 5 (split; [done|]). apply elem_of_union. right.
    apply elem_of_list_to_set, list_elem_of_fmap. by exists (c, x). }
  exists ch', (drop_set T d). split.
  { unfold removeMissing, tbind, treads, tmodify. rewrite Hl_gen, H1. simpl.
    by rewrite delete_set_drop by (done || apply HW). }
  split; try apply HM'.
  - intros m n Hn. destruct (prog_names _ _ _ _ HP m n) as [Hs|(c & Hc & _)]; [by apply elem_of_dom|done| |by apply not_elem_of_nil in Hc].
    eapply settled_same; [exact Hs|]. apply child_row_drop; [done|done|]. intros i x Hx Hp Hxn Hi HiT.
    destruct (HC i HiT) as (c & y & Hc & Hcp & Hc1 & Hsub & _ & HcL).
    rewrite (siblings_apart d c y i x HW Hc Hcp Hc1 Hx Hp Hi Hsub), Hc in Hx. injection Hx as ->. apply HcL.
    rewrite Hxn. by apply elem_of_dom.
  - intros i x Hx Hp Hi Hne HLn. simpl in Hx. rewrite lookup_without in Hx. case_decide as HiT; [done|].
    destruct (Hrows (i, x)) as [Hh|Hin]; [by apply elem_of_missing; rewrite not_elem_of_dom| |done]. split; [done|].
    assert (Hc : child_row d dir (r_name x) = Some (i, x)) by (by apply child_row_iff; [apply HW|]).
    rewrite (mid_todo _ _ HM) in Hc by (by apply not_elem_of_dom). by apply child_row_Some in Hc as (? & _).
Qed.

Lemma merge_all : exists ch d ch' d',
  mergeStaged t childTTL protect l d0 = Ok (ch, d) /\ removeMissing protect l ch d = Ok (ch', d') /\ Merged d'.
Proof.
  destruct mergeStaged_spec as (ch & d & H1 & HP). destruct (removeMissing_spec ch d HP) as (ch' & d' & H2 & HM).
  by exists ch, d, ch', d'.
Qed.
End Merge.
