(* ===== verification/MetaProps.v ===== *)
(** * What the metadata store guarantees (internal/meta)

    Theorems about a store that any sequence of allowed calls can reach. *)
From S2P Require Import Prelude GoLib Retry MetaState MetaTree MetaListing MetaCopy MetaRows MetaInv MetaReach MetaSteps MetaCalls MetaFence MetaMerge.
Open Scope Z_scope.

Section Props.
Context {F : Fold}.

(** A store after any allowed calls since it was created. *)
Definition stored (s : Store) : Prop := exists id t, rtc mstep (Open id t) s.

Lemma stored_WF s : stored s -> WF (db s).
Proof. intros (id & t & H). eapply msteps_WF; [apply WF_Open|exact H]. Qed.

(** ** A listing in progress *)

(** Pages of a backend listing arrive. *)
Definition gathers (a b : DirListing) : Prop :=
  (exists c, b = snd (RecordCursor c a)) \/ (exists ns, b = snd (Append ns a)).

Lemma gathers_head a b :
  rtc gathers a b ->
  l_parent b = l_parent a /\ l_generation b = l_generation a /\ l_stale b = l_stale a /\ l_identity b = l_identity a /\
  l_changes b = l_changes a.
Proof.
  induction 1 as [|a c b H _ (-> & -> & -> & -> & ->)]; [done|]. destruct H as [(cur & ->)|(ns & ->)].
  - unfold RecordCursor. destruct (negb _); [done|]. repeat (case_decide; [done|]). done.
  - unfold Append. destruct (negb _); [done|]. case_decide; [done|]. by destruct (append_all _ _).
Qed.

(** Steps of other callers: no commit of the listing itself. *)
Definition others (dir gen : Z) (s s' : Store) : Prop :=
  exists c, allowed c (db s) /\ s' = run_call c s /\
    forall t p l, c = KCommit t p l -> ~ (Ino (l_parent l) = dir /\ l_generation l = gen).

Lemma others_mstep dir gen s s' : rtc (others dir gen) s s' -> rtc mstep s s'.
Proof. induction 1 as [|x y z (c & HA & -> & _) _ IH]; [done|]. eapply rtc_l; [by exists c|done]. Qed.

Lemma others_kf dir g s s' :
  WF (db s) -> is_Some (nodes (db s) !! dir) -> refresh (db s) !! dir = Some g ->
  rtc (others dir (generation g)) s s' -> kept_or_fenced dir (db s) (db s').
Proof.
  intros HW [rd Hd] Hg H. pose proof (proj2 (wf_seq _ HW _ _ Hd)) as Hs.
  revert s' H. apply rtc_ind_r; [apply kf_same|]. intros y z Hxy (c & HA & -> & Hc) IH.
  pose proof (msteps_evs _ _ HW (others_mstep _ _ _ _ Hxy)) as E1. pose proof (evs_WF _ _ E1 HW) as HWy.
  pose proof (call_evs c y HWy HA) as E2. pose proof (evs_seq _ _ E1).
  destruct (nodes (db y) !! dir) as [x|] eqn:Hy;
    [|apply sealed_kf; eapply sealed_evs; [exact HW|exact E1|done|by left|exact E2]].
  destruct (evs_gens _ _ dir g HW E1) as (gy & Hgy & Hle & _); [by rewrite Hy|done|].
  destruct (decide (generation gy = generation g)) as [Heq|Hne].
  - eapply kf_trans; [exact HW|exact Hs|exact E1|exact E2|exact IH|]. apply call_kf; [done|done|lia|].
    intros (t & p & l & x' & -> & Hdir & Hgx & Hgen). apply (Hc t p l eq_refl). split; [done|]. rewrite Hgy in Hgx. congruence.
  - apply sealed_kf. eapply sealed_evs; [exact HW|exact E1|exact Hs| |exact E2]. right. intros g' Hg'. exists gy.
    split; [done|]. rewrite Hg in Hg'. injection Hg' as <-. lia.
Qed.

Lemma begin_Ok n s l s1 :
  WF (db s) -> BeginDirListing n s = (Ok l, s1) ->
  exists r g, nodes (db s) !! Ino n = Some r /\ nodes (db s1) = nodes (db s) /\ l_parent l = scanNode (Ino n) r /\
    refresh (db s1) !! Ino n = Some g /\ l_generation l = generation g /\ l_stale l = stale_generation g /\
    r_kind r = KindDir /\ evs (db s) (db s1) /\ l_identity l = store_identity (db s1) /\
    l_nodes l = ∅ /\ l_changes l = ∅.
Proof.
  intros HW. unfold BeginDirListing, obind, tx, oget. destruct (beginTx n (db s)) as [[l' d]|e] eqn:Hb; [|done].
  pose proof (begin_event _ _ _ _ HW Hb) as [HE HN]. simpl. case_decide as Hid; [done|]. intros [= <- <-].
  unfold beginTx in Hb. destruct (nodes (db s) !! Ino n) as [r|] eqn:Hr; [|done].
  destruct (negb (IsDir _)) eqn:Hdir; [done|]. apply negb_false_iff, bool_decide_eq_true in Hdir.
  case_decide; [done|]. injection Hb as <- <-. exists r. eexists. split; [done|]. split; [done|]. split; [done|]. simpl.
  split; [by rewrite lookup_insert_eq|]. repeat split; try done. by apply rtc_once.
Qed.

(** The commit of a listing whose directory is gone or fenced. *)
Lemma commit_refused t p l s g :
  collecting l = true -> nodes (db s) !! Ino (l_parent l) = None \/ refresh (db s) !! Ino (l_parent l) = Some g /\ generation g <> l_generation l ->
  fst (fst (Commit t p l s)) = Err ErrListingChanged /\ db (snd (Commit t p l s)) = db s.
Proof.
  intros Hc H. unfold Commit. rewrite Hc. simpl. unfold tx.
  assert (He : commitTx (now s) t p l (db s) = Err ErrListingChanged); [|by rewrite He].
  unfold commitTx. case_decide; [done|]. destruct H as [->|[Hg Hne]]; [done|].
  destruct (nodes (db s) !! _); [|done]. case_decide; [done|]. rewrite Hg. by rewrite decide_True by auto.
Qed.

(** C3: A listing can never publish over a change it did not see.  Take any
    reachable store, a listing begun on a directory and gathered while any other
    calls run, other than a commit of that same listing: if by then some entry
    of the directory no longer belongs to its inode (it was removed, replaced,
    or moved away, or the directory itself is gone), the commit reports
    ErrListingChanged and leaves the database as it is. *)
Theorem listing_fenced n s0 s1 s2 l l' ttl protect i r :
  stored s0 -> BeginDirListing n s0 = (Ok l, s1) -> rtc gathers l l' ->
  rtc (others (Ino n) (l_generation l)) s1 s2 ->
  nodes (db s1) !! i = Some r -> r_parent r = Ino n -> i <> RootIno ->
  (forall x, nodes (db s2) !! i = Some x -> r_parent x = Ino n -> r_name x <> r_name r) ->
  collecting l' = true ->
  fst (fst (Commit ttl protect l' s2)) = Err ErrListingChanged /\ db (snd (Commit ttl protect l' s2)) = db s2.
Proof.
  intros H0 Hb Hl H12 Hi Hp H1 Hgone Hc. apply stored_WF in H0.
  destruct (begin_Ok _ _ _ _ H0 Hb) as (rd & g & Hd & HN & Hlp & Hg & Hlg & _ & _ & E0 & _).
  destruct (gathers_head _ _ Hl) as (Hp' & Hg' & _). pose proof (evs_WF _ _ E0 H0) as HW1.
  assert (Hdir : Ino (l_parent l') = Ino n) by (by rewrite Hp', Hlp).
  pose proof (msteps_evs _ _ HW1 (others_mstep _ _ _ _ H12)) as E12. rewrite Hlg in H12.
  assert (Hd1 : is_Some (nodes (db s1) !! Ino n)) by (by rewrite HN, Hd).
  destruct (nodes (db s2) !! Ino n) as [y|] eqn:Hy; [|apply (commit_refused _ _ _ _ g); [done|left; by rewrite Hdir]].
  destruct (evs_gens _ _ _ _ HW1 E12 (ltac:(by rewrite Hy)) Hg) as (g2 & Hg2 & _).
  apply (commit_refused _ _ _ _ g2); [done|right]. rewrite Hdir. split; [done|]. rewrite Hg', Hlg.
  destruct (others_kf _ _ _ _ HW1 Hd1 Hg H12) as [Hn|[Hn|Hn]].
  - congruence.
  - destruct (Hn g Hg) as (g3 & Hg3 & Hlt). rewrite Hg2 in Hg3. injection Hg3 as <-. lia.
  - destruct (Hn i r Hi Hp H1) as (x & Hx & Hxp & Hxn). by destruct (Hgone x Hx Hxp).
Qed.
(** ** Committing a listing *)

(** The staged nodes are filed under their names. *)
Definition well_staged (l : DirListing) : Prop := forall m n, l_nodes l !! m = Some n -> Name n = m /\ m <> "".

Lemma append_all_staged ns m m' :
  append_all ns m = Ok m' -> (forall k n, m !! k = Some n -> Name n = k /\ k <> "") ->
  forall k n, m' !! k = Some n -> Name n = k /\ k <> "".
Proof.
  revert m. induction ns as [|x ns IH]; intros m; simpl; [by intros [= <-]|]. destruct (bad_name (Name x)) eqn:Hb; [done|].
  destruct (m !! Name x); [done|]. intros H Hm. apply (IH _ H). intros k n. rewrite lookup_insert_Some.
  intros [[<- <-]|[_ Hk]]; [|by apply Hm]. split; [done|]. intros He. rewrite He in Hb. done.
Qed.

Lemma gathers_staged a b : rtc gathers a b -> well_staged a -> well_staged b.
Proof.
  induction 1 as [|a c b H _ IH]; [done|]. intros Ha. apply IH. destruct H as [(cur & ->)|(ns & ->)].
  - unfold RecordCursor. destruct (negb _); [done|]. repeat (case_decide; [done|]). done.
  - unfold Append. destruct (negb _); [done|]. case_decide; [done|].
    destruct (append_all ns (l_nodes a)) as [m|e] eqn:Hm; [|done]. exact (append_all_staged _ _ _ Hm Ha).
Qed.

(** What [Commit] checks before it changes anything. *)
Definition commit_ready (l : DirListing) (d : DB) : Prop :=
  store_identity d = l_identity l /\
  exists r g, nodes d !! Ino (l_parent l) = Some r /\ r_kind r = KindDir /\ r_remote r = Remote (l_parent l) /\
    r_remote_id r = RemoteID (l_parent l) /\ refresh d !! Ino (l_parent l) = Some g /\ generation g = l_generation l.

Lemma commit_not_ready t p l s :
  ~ commit_ready l (db s) -> (exists e, fst (fst (Commit t p l s)) = Err e) /\ db (snd (Commit t p l s)) = db s.
Proof.
  intros Hn. unfold Commit. destruct (negb (collecting l)); [by eauto|]. unfold tx.
  assert (He : exists e, commitTx (now s) t p l (db s) = Err e); [|by destruct He as (e & ->); eauto].
  unfold commitTx. case_decide; [by eauto|]. destruct (nodes (db s) !! _) as [r|] eqn:Hr; [|by eauto]. case_decide as Hk; [by eauto|].
  destruct (refresh (db s) !! _) as [g|] eqn:Hg; [|by eauto]. case_decide as Hgen; [by eauto|]. exfalso. apply Hn.
  split; [by destruct (decide (store_identity (db s) = l_identity l))|]. exists r, g. split; [done|].
  destruct (decide (r_kind r = KindDir)), (decide (r_remote r = Remote (l_parent l))), (decide (r_remote_id r = RemoteID (l_parent l))); tauto.
Qed.

Lemma classic_ready l d : commit_ready l d \/ ~ commit_ready l d.
Proof.
  unfold commit_ready. destruct (decide (store_identity d = l_identity l)); [|by right; intros []].
  destruct (nodes d !! _) as [r|]; [|right; naive_solver]. destruct (refresh d !! _) as [g|]; [|right; naive_solver].
  destruct (decide (r_kind r = KindDir)); [|right; naive_solver].
  destruct (decide (r_remote r = Remote (l_parent l))); [|right; naive_solver].
  destruct (decide (r_remote_id r = RemoteID (l_parent l))); [|right; naive_solver].
  destruct (decide (generation g = l_generation l)); [left; naive_solver|right; naive_solver].
Qed.

Definition stamped (t ttl : Z) (r : Row) : Row := (r <| r_fetched := Unix t |>) <| r_ttl := ttl_s ttl |>.
(** The bulk refresh of a commit. *)
Definition restamp (dir gen t ttl i : Z) (r : Row) : Row :=
  if is_child dir i r && negb (r_dirty r) && bool_decide (r_applied r < gen) then stamped t ttl r else r.

Lemma commit_ok ttl p l s :
  WF (db s) -> commit_ready l (db s) -> collecting l = true -> well_staged l -> l_changes l = ∅ ->
  let dir := Ino (l_parent l) in
  exists d g, fst (fst (Commit ttl p l s)) = Ok tt /\ refresh (db s) !! dir = Some g /\
    Merged dir (now s) ttl (l_generation l) p (l_nodes l) (db s) d /\
    (forall i, nodes (db (snd (Commit ttl p l s))) !! i = restamp dir (l_generation l) (now s) ttl i <$> nodes d !! i) /\
    dir_state (db (snd (Commit ttl p l s))) !! dir =
      Some (MkDir (bool_decide (stale_generation g = l_stale l)) (Unix (now s)) "" (negb (bool_decide (stale_generation g = l_stale l)))).
Proof.
  intros HW (Hid & r & g & Hr & Hk & Hrem & Hrid & Hg & Hgen) Hc Hst Hch dir.
  destruct (merge_all dir (now s) ttl (l_generation l) p (l_nodes l) (db s) Hst HW (known_ino _ _ _ HW Hr) l eq_refl eq_refl eq_refl Hch)
    as (ch & d1 & ch' & d & H1 & H2 & HM).
  set (stale := bool_decide (stale_generation g <> l_stale l)).
  assert (Ht : commitTx (now s) ttl p l (db s) =
    Ok ((stale, ch'), upsert_dir dir (MkDir (negb stale) (Unix (now s)) "" stale)
      (update_rows (fun i r => is_child dir i r && negb (r_dirty r) && bool_decide (r_applied r < l_generation l)) (stamped (now s) ttl) d))).
  { unfold commitTx. rewrite decide_False by (by intros []). fold dir. fold dir in Hr, Hg. rewrite Hr.
    rewrite decide_False by (intros [?|[?|?]]; congruence). rewrite Hg, decide_False by congruence.
    unfold tbind at 1. rewrite H1. unfold tbind at 1. by rewrite H2. }
  exists d, g. unfold Commit, tx. rewrite Hc, Ht. simpl. split; [done|]. split; [done|]. split; [done|].
  assert (Hb : stale = negb (bool_decide (stale_generation g = l_stale l))) by apply bool_decide_not.
  split; [intros i|by rewrite lookup_insert_eq, Hb, negb_involutive].
  rewrite map_lookup_imap. destruct (nodes d !! i); done.
Qed.

Lemma restamp_place dir gen t ttl i r :
  r_parent (restamp dir gen t ttl i r) = r_parent r /\ r_name (restamp dir gen t ttl i r) = r_name r.
Proof. unfold restamp. by destruct (_ && _). Qed.
Lemma restamp_entry dir gen t ttl i r c :
  same_entry (scanNode i (restamp dir gen t ttl i r)) c = same_entry (scanNode i r) c.
Proof. unfold restamp. by destruct (_ && _). Qed.
Lemma restamp_child d d' dir gen t ttl m i x :
  WF d -> WF d' -> (forall i, nodes d' !! i = restamp dir gen t ttl i <$> nodes d !! i) ->
  child_row d dir m = Some (i, x) -> child_row d' dir m = Some (i, restamp dir gen t ttl i x).
Proof.
  intros HW HW' Hn (Hx & Hp & Hm & H1)%child_row_Some. destruct (restamp_place dir gen t ttl i x).
  apply child_row_iff; [apply HW'|]. rewrite Hn, Hx. repeat (split; [simpl; congruence|]). done.
Qed.

(** A listing that [BeginDirListing] returned, gathered while other calls ran. *)
Record in_flight (n : Node) (l : DirListing) (s : Store) : Prop := {
  fl_WF : WF (db s);
  fl_dir : Ino (l_parent l) = Ino n;
  fl_staged : well_staged l;
  fl_changes : l_changes l = ∅;
  fl_known : known (Ino n) (db s);
  fl_gen : is_Some (nodes (db s) !! Ino n) -> exists g, refresh (db s) !! Ino n = Some g /\ l_generation l <= generation g
}.

Lemma gathered_in_flight n s0 s1 s l l' :
  stored s0 -> BeginDirListing n s0 = (Ok l, s1) -> rtc gathers l l' -> rtc mstep s1 s -> in_flight n l' s.
Proof.
  intros H0 Hb Hl H1. apply stored_WF in H0.
  destruct (begin_Ok _ _ _ _ H0 Hb) as (rd & g & Hd & HN & Hlp & Hg & Hlg & _ & _ & E0 & _ & Hns & Hch).
  destruct (gathers_head _ _ Hl) as (Hp & Hgen & _ & _ & Hc'). pose proof (evs_WF _ _ E0 H0) as HW1. split.
  - by eapply msteps_WF.
  - by rewrite Hp, Hlp.
  - apply (gathers_staged _ _ Hl). intros m x. by rewrite Hns.
  - by rewrite Hc'.
  - unfold known. pose proof (evs_seq _ _ E0). pose proof (evs_seq _ _ (msteps_evs _ _ HW1 H1)). pose proof (wf_seq _ H0 _ _ Hd). lia.
  - intros Hs. destruct (evs_gens _ _ _ _ HW1 (msteps_evs _ _ HW1 H1) Hs Hg) as (y & Hy & Hle & _).
    exists y. by rewrite Hgen, Hlg.
Qed.

(** The entry is the old one, because it or something below it is spared. *)
Definition still_held (p : Protect) (l : DirListing) (ttl : Z) (s : Store) (i : Z) (x : Row) : Prop :=
  let dir := Ino (l_parent l) in
  heldup dir (l_generation l) p (db s) i /\
  exists r, nodes (db s) !! i = Some r /\ x = restamp dir (l_generation l) (now s) ttl i r.

(** C5: Committing a listing makes the directory what the backend listed.  When
    the listing is still being collected (no earlier Commit or Abort ended it),
    the directory is still the listed one and its generation is unchanged, the
    commit succeeds; every staged name is then an entry with the staged type,
    remote, id, version and size, in the inode it had unless the backend object
    is a different one; every other entry is gone; and the directory is complete
    exactly when nothing marked it stale meanwhile.  The only exceptions are old
    entries at or above a node that is spared: protected by the policy, or
    written by the change feed since the listing began. *)
Theorem commit_mirrors n s0 s1 s l0 l ttl p :
  stored s0 -> BeginDirListing n s0 = (Ok l0, s1) -> rtc gathers l0 l -> rtc mstep s1 s ->
  commit_ready l (db s) -> collecting l = true ->
  let dir := Ino n in
  let d := db s in
  let d' := db (snd (Commit ttl p l s)) in
  fst (fst (Commit ttl p l s)) = Ok tt /\
  (forall m c, l_nodes l !! m = Some c -> exists i x, child_row d' dir m = Some (i, x) /\
     ((same_entry (scanNode i x) c = true /\
       forall j r, child_row d dir m = Some (j, r) ->
         i = j \/ (seq d < i /\ directoryReplacement (scanNode j r) (listed_node dir (now s) ttl c) = true)) \/
      still_held p l ttl s i x)) /\
  (forall i x, nodes d' !! i = Some x -> r_parent x = dir -> i <> RootIno -> r_name x <> "" ->
     l_nodes l !! r_name x = None -> still_held p l ttl s i x) /\
  (exists ds g, dir_state d' !! dir = Some ds /\ refresh d !! dir = Some g /\
     (complete ds = true <-> stale_generation g = l_stale l)).
Proof.
  intros H0 Hb Hl H1 Hr Hc dir d d'. subst dir.
  destruct (gathered_in_flight _ _ _ _ _ _ H0 Hb Hl H1) as [HW Hdir Hst Hch _ _].
  destruct (commit_ok ttl p l s HW Hr Hc Hst Hch) as (d1 & g & Hok & Hg & HM & Hn & Hds). fold d d' in Hn, Hds, HM, Hg.
  pose proof (evs_WF _ _ (merged_evs _ _ _ _ _ _ _ _ HM) HW) as HW1.
  assert (HW' : WF d') by (eapply evs_WF; [exact (change_commit evs ttl p l s HW)|done]).
  split; [done|]. split; [|split].
  - intros m c Hm. destruct (merged_names _ _ _ _ _ _ _ _ HM m c Hm) as (i & x & Hcr & Hcase). rewrite Hdir in *.
    exists i, (restamp (Ino n) (l_generation l) (now s) ttl i x). split; [by apply (restamp_child d1 d')|].
    destruct Hcase as [[He Hj]|[Hh Hx]]; [left|right].
    + rewrite restamp_entry. split; [done|]. intros j r Hj'. by apply (Hj (j, r)).
    + split; rewrite Hdir; [done|]. by exists x.
  - intros i x Hx Hp Hi Hne HL. unfold still_held. rewrite Hdir in *. rewrite Hn in Hx.
    destruct (nodes d1 !! i) as [y|] eqn:Hy; [|done]. injection Hx as <-.
    destruct (restamp_place (Ino n) (l_generation l) (now s) ttl i y) as [Hpp Hnn]. rewrite Hpp in Hp. rewrite Hnn in Hne, HL.
    destruct (merged_only _ _ _ _ _ _ _ _ HM i y Hy Hp Hi Hne HL) as [Hh Hy0]. split; [done|]. by exists y.
  - rewrite Hdir in *. eexists _, g. split; [exact Hds|]. split; [done|]. simpl. apply bool_decide_eq_true.
Qed.

(** C4: A commit never overrides what it must not.  In any state of the store,
    whatever the listing says, a child the change feed has written since the
    listing began keeps its row, and so does a node the policy protects, if it is
    an entry of the directory, or below an entry that is a directory, or not
    below the directory at all (what hangs from a file is not looked at), but for
    the time of the last fetch of clean children; and whatever lies above such a
    node keeps its inode, parent and name, so its path still leads to it. *)
Theorem commit_spares n s0 s1 s l0 l ttl p i r :
  stored s0 -> BeginDirListing n s0 = (Ok l0, s1) -> rtc gathers l0 l -> rtc mstep s1 s ->
  secure (Ino n) (l_generation l) p (db s) i r ->
  let d' := db (snd (Commit ttl p l s)) in
  (exists x, nodes d' !! i = Some x /\
     (x = r \/ (x = stamped (now s) ttl r /\ r_dirty r = false /\ r_parent r = Ino n /\ r_applied r < l_generation l))) /\
  (forall j y, rtc (par true (db s)) i j -> nodes (db s) !! j = Some y ->
     exists x, nodes d' !! j = Some x /\ r_parent x = r_parent y /\ r_name x = r_name y).
Proof.
  intros H0 Hb Hl H1 Hs d'. destruct (gathered_in_flight _ _ _ _ _ _ H0 Hb Hl H1) as [HW Hdir Hst Hch _ _].
  assert (Hsame : d' = db s -> (exists x, nodes d' !! i = Some x /\
     (x = r \/ (x = stamped (now s) ttl r /\ r_dirty r = false /\ r_parent r = Ino n /\ r_applied r < l_generation l))) /\
    (forall j y, rtc (par true (db s)) i j -> nodes (db s) !! j = Some y ->
     exists x, nodes d' !! j = Some x /\ r_parent x = r_parent y /\ r_name x = r_name y)).
  { intros ->. split; [exists r; split; [apply Hs|by left]|]. intros j y _ Hy. by exists y. }
  destruct (collecting l) eqn:Hc; [|apply Hsame; unfold d', Commit; by rewrite Hc].
  destruct (classic_ready l (db s)) as [Hr|Hr]; [|by apply Hsame, commit_not_ready].
  destruct (commit_ok ttl p l s HW Hr Hc Hst Hch) as (d1 & g & Hok & Hg & HM & Hn & _). fold d' in Hn. rewrite Hdir in *. split.
  - pose proof (merged_spared _ _ _ _ _ _ _ _ HM i r Hs) as Hi. rewrite Hn, Hi. eexists. split; [done|]. unfold restamp.
    destruct (is_child _ _ _) eqn:Hch'; [|by left]. apply bool_decide_eq_true in Hch' as [Hp _].
    destruct (r_dirty r); [by left|]. simpl. case_bool_decide; [|by left]. right. done.
  - intros j y Hj Hy. destruct (merged_above _ _ _ _ _ _ _ _ HM j y) as (x & Hx & Hxp & Hxn); [by exists i, r|done|].
    rewrite Hn, Hx. eexists. split; [done|]. destruct (restamp_place (Ino n) (l_generation l) (now s) ttl j x). split; congruence.
Qed.

Lemma upsert_row t m d ino d' :
  WF d -> placeable m d -> upsertNodeTx t m d = Ok (ino, d') ->
  exists x, nodes d' !! ino = Some x /\ r_parent x = ParentIno m /\ r_name x = Name m /\ ino <> RootIno.
Proof.
  intros HW [Hp Hne]. unfold upsertNodeTx. set (k := fillMode _).
  assert (Hk : ParentIno k = ParentIno m /\ Name k = Name m).
  { unfold k. destruct (fillMode_place (with_fetched t m)) as [-> ->]. apply with_fetched_place. }
  destruct Hk as [Hkp Hkn]. destruct (entry_at d (ParentIno k) (Name k)) as [[i x]|] eqn:He.
  - intros [= <- <-]. pose proof (entry_not_root d _ _ _ _ HW He) as H1. apply entry_at_Some in He as (Hx & Hxp & Hxn).
    eexists. simpl. rewrite lookup_alter_eq, Hx. split; [done|]. simpl. rewrite <- Hkp, <- Hkn. split; [done|]. split; [done|].
    apply H1. rewrite Hkp, Hkn. exact Hne.
  - intros (i & d1 & H1 & H2)%tbind_Ok. apply tbind_Ok in H2 as ([] & d2 & [= <-] & [= <- <-]).
    apply insert_row_Ok in H1 as (_ & -> & ->). exists (bind_row k).
    assert (Hl : forall b, nodes ((if b : bool then ensure_dir (seq d + 1) else id)
       (MkDB (<[seq d + 1 := bind_row k]> (nodes d)) (seq d + 1) (dir_state d) (refresh d) (pins d) (remote_cursor d) (name_index d)
         (name_indexed d) (<[seq d + 1 := r_name (bind_row k)]> (name_index_pending d))
         (<[seq d + 1 := shortNameTerms (r_name (bind_row k))]> (short_name_index d)) (copy_bindings d) (store_identity d)
         (copy_cleanup_fence d))) = <[seq d + 1 := bind_row k]> (nodes d)).
    { intros []; [|done]. unfold ensure_dir. by destruct (dir_state _ !! _). }
    rewrite Hl, lookup_insert_eq. split; [done|]. split; [done|]. split; [done|].
    destruct (wf_root d HW) as (y & Hy & _). pose proof (wf_seq d HW _ _ Hy). unfold RootIno in *. lia.
Qed.

(** The row an applied event leaves, stamped with the generation of its
    directory. *)
Lemma applied_row e n p s res s' :
  WF (db s) -> ApplyRemoteNode e (Some n) p s = (Ok (res, true), s') ->
  exists x, nodes (db s') !! Ino res = Some x /\ r_parent x = ParentIno e /\ Ino res <> RootIno /\
    r_applied x = match refresh (db s') !! ParentIno e with Some g => generation g | None => 0 end.
Proof.
  intros HW. unfold ApplyRemoteNode. destruct (decide (Ino e = RootIno)) as [|H1]; [done|]. destruct (bool_decide _) eqn:Hm; [done|].
  apply bool_decide_eq_false in Hm.
  assert (Hpn : ParentIno n = ParentIno e /\ Name n = Name e).
  { split; [destruct (decide (ParentIno n = ParentIno e))|destruct (decide (Name n = Name e))]; tauto. }
  unfold obind, tx. destruct (applyRemoteTx (now s) e (Some n) p (db s)) as [[[m b] d]|] eqn:Ht; [|done]. simpl.
  assert (Hb : b = true -> exists x, nodes d !! Ino m = Some x /\ r_parent x = ParentIno e /\ Ino m <> RootIno /\
    r_applied x = match refresh d !! ParentIno e with Some g => generation g | None => 0 end).
  2:{ destruct b; simpl; [|done]. intros [= <- <-]. by apply Hb. }
  intros ->. destruct (nodes (db s) !! Ino e) as [r|] eqn:Hr; [|unfold applyRemoteTx in Ht; by rewrite Hr in Ht].
  destruct (asks p (scanNode (Ino e) r)) eqn:Hk; [unfold applyRemoteTx in Ht; by rewrite Hr, Hk in Ht|].
  destruct (decide (scanNode (Ino e) r = e)) as [Hc|Hc]; [|unfold applyRemoteTx in Ht; by rewrite Hr, Hk, decide_True in Ht].
  rewrite (applyRemote_eq _ _ _ _ _ r) in Ht by done. pose proof (current_placeable _ _ _ HW H1 Hr Hc) as HP.
  apply tbind_Ok in Ht as (ret & d1 & H2 & H3). destruct ret; [done|].
  assert (E1 : evs (db s) d1).
  { revert H2. apply (tr_if always (R:=evs)); [|apply tr_ret|done|done]. apply (tr_prepare evs); [done|]. intros; by apply drop_evs. }
  pose proof (evs_WF _ _ E1 HW) as HW1. pose proof (stays_placeable evs e _ _ HW E1 HP) as HP1.
  unfold apply_rest in H3. apply tbind_Ok in H3 as ([] & d2 & H2' & H3).
  assert (E2 : evs d1 d2).
  { revert H2'. destruct (directoryReplacement e n); [apply (tr_fence (R:=evs) always)|apply (tr_stale (R:=evs) always)]; done. }
  pose proof (evs_WF _ _ E2 HW1) as HW2. pose proof (stays_placeable evs e _ _ HW1 E2 HP1) as HP2.
  apply tbind_Ok in H3 as (ino & d3 & H3 & H4). apply tbind_Ok in H4 as ([] & d4 & [= <-] & [= <- <-]).
  apply upsert_row in H3; [|done|].
  - destruct H3 as (x & Hx & Hxp & _ & Hi). simpl. rewrite lookup_alter_eq, Hx. eexists. split; [done|]. simpl.
    destruct (fillMode_place (with_fetched (now s) n)) as [Hf _], (with_fetched_place (now s) n) as [Hw _]. destruct Hpn as [Hpn _].
    split; [congruence|]. done.
  - unfold placeable in *. destruct (fillMode_place (with_fetched (now s) n)) as [-> ->], (with_fetched_place (now s) n) as [-> ->].
    destruct Hpn as [-> ->]. exact HP2.
Qed.

(** C6: An event of the change feed wins over a listing in progress.  If a
    listing began, then an event for a child of the directory was applied, and
    the row it wrote has not been changed since, then committing the listing
    leaves that row exactly as it is, whether the listing has the old entry or
    none, and whether or not it still publishes. *)
Theorem event_beats_listing n s0 s1 s2 s3 s l0 l ttl p e c pe res x :
  stored s0 -> BeginDirListing n s0 = (Ok l0, s1) -> rtc gathers l0 l -> rtc mstep s1 s2 ->
  ApplyRemoteNode e (Some c) pe s2 = (Ok (res, true), s3) -> ParentIno e = Ino n ->
  rtc mstep s3 s -> nodes (db s3) !! Ino res = Some x -> nodes (db s) !! Ino res = Some x ->
  nodes (db (snd (Commit ttl p l s))) !! Ino res = Some x.
Proof.
  intros H0 Hb Hl H12 Ha Hpe H3 Hx3 Hx.
  assert (H23 : mstep s2 s3) by (exists (KApply e (Some c) pe); split; [done|]; simpl; by rewrite Ha).
  assert (H13 : rtc mstep s1 s3) by (by eapply rtc_r). assert (H1 : rtc mstep s1 s) by (by etrans).
  destruct (gathered_in_flight _ _ _ _ _ _ H0 Hb Hl H12) as [HW2 _ _ _ _ _].
  destruct (gathered_in_flight _ _ _ _ _ _ H0 Hb Hl H13) as [HW3 _ _ _ HK3 Hg3].
  destruct (gathered_in_flight _ _ _ _ _ _ H0 Hb Hl H1) as [HW Hdir Hst Hch _ _].
  destruct (applied_row _ _ _ _ _ _ HW2 Ha) as (x' & Hx' & Hp & Hi & Happ). rewrite Hx3 in Hx'. injection Hx' as <-.
  destruct (collecting l) eqn:Hc; [|unfold Commit; by rewrite Hc].
  destruct (classic_ready l (db s)) as [Hr|Hr]; [|by rewrite (proj2 (commit_not_ready ttl p l s Hr))].
  assert (Hd3 : is_Some (nodes (db s3) !! Ino n)).
  { destruct (nodes (db s3) !! Ino n) as [y|] eqn:Hy; [done|]. exfalso. destruct Hr as (_ & r & g & Hr & _). rewrite Hdir in Hr.
    rewrite (evs_gone _ _ _ (msteps_evs _ _ HW3 H3) HK3 Hy) in Hr. done. }
  destruct (Hg3 Hd3) as (g & Hg & Hle). rewrite Hpe, Hg in Happ.
  destruct (commit_ok ttl p l s HW Hr Hc Hst Hch) as (d1 & g' & _ & _ & HM & Hn & _). rewrite Hdir in *.
  rewrite Hn, (merged_spared _ _ _ _ _ _ _ _ HM (Ino res) x); [simpl; f_equal|].
  - unfold restamp. rewrite andb_comm. rewrite bool_decide_eq_false_2 by lia. done.
  - split; [done|]. right. split; [congruence|]. split; [done|]. lia.
Qed.

End Props.
