(* ===== verification/MetaTreeProps.v ===== *)
(** * What the operations on the metadata tree do (internal/meta)

    The functional behaviour of paths, removal, renaming, backend ids, the name
    index, copies and the cleanup of local versions, on any store that allowed
    calls can reach. *)
From S2P Require Import Prelude Filepath GoLib SqlText Retry MetaState MetaTree MetaListing MetaCopy MetaRows MetaInv MetaReach MetaSteps MetaCalls MetaFence MetaMerge MetaProps.
From Stdlib Require Import Ascii.
Open Scope Z_scope.

Section Props.
Context {F : Fold}.

(** C14: The invariant of the metadata database.  In every store that allowed
    calls can reach: inodes are positive and were handed out; no two rows share
    a parent and a name; the root is its own directory; following parents never
    cycles; every node's name is in the short-name index and, once its queue
    entry is gone, in the name index; the index names nothing else; and counters
    of directories and copy bindings refer to inodes that were handed out. *)
Theorem store_invariant s : stored s -> WF (db s).
Proof. apply stored_WF. Qed.

(** ** Paths *)

(** The names on the way from the root to a node. *)
Inductive lineage (d : DB) : Z -> list string -> Prop :=
| lineage_root : lineage d RootIno []
| lineage_child i r l : nodes d !! i = Some r -> i <> RootIno -> lineage d (r_parent r) l -> lineage d i (l ++ [r_name r]).

Lemma lineage_parts d i l :
  WF d -> lineage d i l -> forall r k, nodes d !! i = Some r ->
  path_parts (up k d i r) = if decide (length l <= k)%nat then (rev l, true) else (take (S k) (rev l), false).
Proof.
  intros HW Hl. induction Hl as [|i r0 l Hr Hi Hl IH]; intros r k Hr'.
  - by destruct k.
  - rewrite Hr in Hr'. injection Hr' as <-. rewrite length_app. simpl length. rewrite rev_app_distr. simpl rev. simpl app.
    assert (Hne : r_parent r0 <> i).
    { intros He. apply (wf_acyclic d HW i), tc_once. exists r0. split; [done|]. split; [done|]. done. }
    assert (Hp : exists p, nodes d !! r_parent r0 = Some p).
    { inversion Hl as [He|? p ? Hp]; [destruct (wf_root d HW) as (p & Hp & _); by exists p|by exists p]. }
    destruct Hp as [p Hp]. destruct k as [|k]; cbn [up path_parts].
    + rewrite !decide_False by (done || lia). done.
    + rewrite (decide_False (P := i = RootIno)), (decide_False (P := r_parent r0 = i)) by done.
      rewrite (decide_True (P := i <> RootIno /\ r_parent r0 <> i)), Hp, (IH p k Hp) by done.
      destruct (decide (length l <= k)%nat); [rewrite decide_True by lia|rewrite decide_False by lia]; done.
Qed.

Lemma resolve_lineage d i l r cur rest :
  WF d -> lineage d i l -> Forall Filepath.plain l -> nodes d !! i = Some r -> Ino cur = RootIno ->
  (i = RootIno -> cur = scanNode i r) ->
  resolve_from d cur (l ++ rest) = resolve_from d (if decide (i = RootIno) then cur else scanNode i r) rest.
Proof.
  intros HW Hl. revert r rest. induction Hl as [|i r0 l Hr Hi Hl IH]; intros r rest HP Hr' Hc Hroot; [done|].
  apply Forall_app in HP as [HP Hx]. apply Forall_singleton in Hx as (_ & Hx & _).
  rewrite Hr in Hr'. injection Hr' as <-. rewrite <- app_assoc. simpl app.
  assert (Hp : exists p, nodes d !! r_parent r0 = Some p).
  { inversion Hl as [He|? p ? Hp]; [destruct (wf_root d HW) as (p & Hp & _); by exists p|by exists p]. }
  destruct Hp as [p Hp].
  assert (Hstep : forall c, Ino c = r_parent r0 -> resolve_from d c (r_name r0 :: rest) = resolve_from d (scanNode i r0) rest).
  { intros c Hci. cbn [resolve_from]. rewrite decide_False by done. unfold lookup_child. rewrite Hci.
    rewrite (entry_at_row d i r0) by (done || apply HW). by rewrite decide_False by done. }
  rewrite (decide_False (P := i = RootIno)) by done.
  destruct (decide (r_parent r0 = RootIno)) as [He|Hne].
  - assert (l = []) as ->. { inversion Hl as [|? ? ? ? Hn]; [done|]. congruence. }
    simpl app. apply Hstep. congruence.
  - rewrite (IH p) by (done || congruence). by apply Hstep.
Qed.

Lemma resolve_segments_canon l : Forall Filepath.plain l -> resolve_segments (Filepath.canon l) = match l with [] => [""] | _ => l end.
Proof.
  intros H. unfold resolve_segments.
  assert (Hc : Filepath.Clean ("/" +:+ Filepath.canon l) = Filepath.canon l).
  { etrans; [|by apply Filepath.Clean_canon]. unfold Filepath.Clean. by rewrite !decide_False by done. }
  rewrite Hc. unfold trimPrefix, Filepath.canon.
  assert (Hp : hasPrefix (String "/"%char (Filepath.joined l)) "/" = true) by (by destruct (Filepath.joined l)).
  rewrite Hp. simpl. rewrite Nat.sub_0_r, substring_all.
  destruct l as [|x l]; [done|]. apply Filepath.split_joined; [done|by apply Filepath.plain_noslash].
Qed.

(** Paths name nodes.  A node at most 512 names below the root has a path,
    the names joined by slashes, and when none of them is special to path
    cleaning, resolving that path finds the node; a deeper node has none. *)
Theorem path_resolves s i r l :
  stored s -> nodes (db s) !! i = Some r -> lineage (db s) i l ->
  (if decide (length l <= 512)%nat then Path i s = (Ok (Filepath.canon l), s) else Path i s = (Err ErrNotFound, s)) /\
  (Forall Filepath.plain l -> Resolve (Filepath.canon l) s = (Ok (scanNode i r), s)).
Proof.
  intros HS Hr Hl. pose proof (stored_WF _ HS) as HW. split.
  - unfold Path, query, path_of. destruct (decide (i = RootIno)) as [->|Hi].
    + assert (l = []) as -> by (inversion Hl; [done|congruence]). done.
    + rewrite Hr, (lineage_parts _ _ _ HW Hl r path_depth Hr). unfold path_depth.
      destruct (decide (length l <= 512)%nat); [by rewrite rev_involutive|done].
  - intros HP. unfold Resolve, query, get. destruct (wf_root _ HW) as (p & Hp & _). rewrite Hp, resolve_segments_canon by done.
    f_equal. assert (Hgo : resolve_from (db s) (scanNode RootIno p) (l ++ []) = Ok (scanNode i r)).
    { rewrite (resolve_lineage (db s) i l r) by (done || intros ->; congruence). simpl.
      destruct (decide (i = RootIno)) as [->|]; [congruence|done]. }
    rewrite app_nil_r in Hgo. destruct l; [|done]. simpl in Hgo |- *. done.
Qed.
(** ** Removing and renaming *)

(** Removing a node removes exactly its subtree.  Every row below it goes,
    with all that the other tables hold about it; no other row changes; a listing
    of its parent that is under way can no longer publish; and its name is
    remembered as absent for five seconds. *)
Theorem remove_exact s i r :
  stored s -> i <> RootIno -> nodes (db s) !! i = Some r ->
  let d := db s in
  let s' := snd (Remove i s) in
  let d' := db s' in
  fst (Remove i s) = Ok tt /\
  (forall j, rtc (par true d) j i ->
     nodes d' !! j = None /\ dir_state d' !! j = None /\ refresh d' !! j = None /\ name_index d' !! j = None /\
     name_index_pending d' !! j = None /\ short_name_index d' !! j = None) /\
  (forall j, ~ rtc (par true d) j i ->
     nodes d' !! j = nodes d !! j /\ dir_state d' !! j = dir_state d !! j /\ name_index d' !! j = name_index d !! j /\
     refresh d' !! j = if decide (j = r_parent r) then bump1 <$> refresh d !! j else refresh d !! j) /\
  absent s' !! (r_parent r, r_name r) = Some (now s + 5 * Second).
Proof.
  intros HS Hi Hr d s' d'. pose proof (stored_WF _ HS) as HW. destruct (remove_eq i r s HW Hi Hr) as [Hd Hok].
  assert (Ha : absent s' !! (r_parent r, r_name r) = Some (now s + 5 * Second)).
  { unfold s', Remove. rewrite decide_False by done. unfold obind, tx.
    assert (Ht : exists e, (let! r := row_at i in do! fenceDirListingTx [r_parent r]; do! removeSubtreeTx i; tret r) (db s) = Ok (r, e)).
    { unfold tbind, row_at. rewrite Hr, fence_eq. pose proof (evs_WF _ _ (fenced_event [r_parent r] (db s) HW) HW) as HW1.
      rewrite removeSubtreeTx_drop by (done || apply HW1). by eexists. }
    destruct Ht as (e & ->). simpl. apply lookup_insert_eq. }
  split; [done|]. split; [|split; [|done]]; intros j Hj; unfold d', s'; rewrite Hd; simpl; rewrite !lookup_without.
  - apply elem_of_subtree in Hj. by rewrite !decide_True.
  - rewrite <- elem_of_subtree in Hj. rewrite !decide_False by done. split; [done|]. split; [done|]. split; [done|].
    rewrite lookup_bump. apply decide_ext. by rewrite list_elem_of_singleton.
Qed.

(** C39: Renaming moves one row and replaces what it lands on.  In any store that
    allowed calls lead to, a rename of a node other than the root that the file
    system allows ([rename_ok]: to an existing parent, under a name, not below
    the node itself, not onto one of its ancestors) succeeds; the node has the new parent and name; whatever had that name goes
    with everything below it; no other row changes, so the children of a moved
    directory stay under it; the new name is in both search indexes; and the old
    name is remembered as absent. *)
Theorem rename_exact s i r p n :
  stored s -> i <> RootIno -> nodes (db s) !! i = Some r -> rename_ok (db s) i p n ->
  let d := db s in
  let s' := snd (Rename i p n s) in
  let d' := db s' in
  let replaced j := exists v x, entry_at d p n = Some (v, x) /\ v <> i /\ rtc (par true d) j v in
  fst (Rename i p n s) = Ok tt /\
  nodes d' !! i = Some ((r <| r_parent := p |>) <| r_name := n |>) /\
  (forall j, j <> i -> replaced j -> nodes d' !! j = None) /\
  (forall j, j <> i -> ~ replaced j -> nodes d' !! j = nodes d !! j) /\
  name_index d' !! i = Some n /\ short_name_index d' !! i = Some (shortNameTerms n) /\
  absent s' !! (r_parent r, r_name r) = Some (now s + 5 * Second).
Proof.
  intros HS Hi Hr Hok d s' d' replaced. pose proof (stored_WF _ HS) as HW.
  destruct (rename_eq i r p n s HW Hi Hr Hok) as [Hd Hres].
  assert (Hv : forall j, j ∈ victims d i p n <-> replaced j).
  { intros j. unfold victims, replaced. destruct (entry_at d p n) as [[v x]|]; [|set_solver].
    destruct (decide (v = i)) as [->|Hv].
    - split; [set_solver|]. intros (? & ? & [= -> ->] & ? & _). done.
    - rewrite elem_of_subtree. split; [intros Hj; by exists v, x|]. by intros (? & ? & [= -> ->] & _ & ?). }
  assert (Hn : nodes (rename_fence r p n d) = nodes d) by (unfold rename_fence; by case_decide).
  assert (Ha : absent s' !! (r_parent r, r_name r) = Some (now s + 5 * Second)).
  { unfold s', Rename. rewrite decide_False by done. unfold obind, tx. rewrite (renameTx_eq _ i r) by done. simpl.
    apply lookup_insert_eq. }
  split; [done|]. unfold d', s', d in *. rewrite Hd. simpl. rewrite !lookup_insert_eq.
  split; [done|]. split; [|split; [|done]]; intros j Hj Hrep; rewrite lookup_insert_ne, lookup_without by done; rewrite Hn;
    apply Hv in Hrep || rewrite <- Hv in Hrep; by case_decide.
Qed.

(** ** The name index *)

Lemma pending_batch_all d :
  WF d -> (length (pending_batch d) < indexBatch)%nat -> forall i, is_Some (name_index_pending d !! i) -> i ∈ map fst (pending_batch d).
Proof.
  intros HW Hlen i [n Hn]. unfold pending_batch in *. set (l := stable_sort _ _) in *.
  assert (Hl : take indexBatch l = l). { apply take_ge. rewrite length_take in Hlen. lia. }
  rewrite Hl. destruct (wf_pending d HW i n Hn) as (_ & r & Hr & Hrn). apply list_elem_of_fmap. exists (i, r_name r). split; [done|].
  unfold l. rewrite stable_sort_elem. apply list_elem_of_omap. exists (i, n). split; [by apply elem_of_map_to_list|]. simpl. by rewrite Hr.
Qed.
Lemma pending_batch_dom d : Forall (fun i => is_Some (name_index_pending d !! i)) (map fst (pending_batch d)).
Proof.
  apply Forall_forall. intros i ([j m] & <- & Hin)%list_elem_of_In%in_map_iff. apply list_elem_of_In in Hin.
  by apply pending_batch_row in Hin as (r & _ & _ & Hp).
Qed.

Lemma flush_once s :
  WF (db s) -> exists d', flushIndexOnce s = (Ok (length (pending_batch (db s))), s <| db := d' |>) /\ evs (db s) d' /\
    nodes d' = nodes (db s) /\ (forall i, name_index_pending d' !! i =
      if decide (i ∈ map fst (pending_batch (db s))) then None else name_index_pending (db s) !! i).
Proof.
  intros HW. destruct (flush_eq (R:=evs) (db s) HW) as (d' & HE & HN & H & HP). exists d'. unfold flushIndexOnce, tx. by rewrite H.
Qed.

Lemma flush_smaller d d' :
  (forall i, name_index_pending d' !! i = if decide (i ∈ map fst (pending_batch d)) then None else name_index_pending d !! i) ->
  (0 < length (pending_batch d))%nat -> (size (name_index_pending d') < size (name_index_pending d))%nat.
Proof.
  intros HP Hlen. pose proof (pending_batch_dom d) as Hd. destruct (pending_batch d) as [|[i n] l] eqn:Hb; [simpl in Hlen; lia|].
  inversion Hd as [|? ? [x Hx] _]; subst. simpl in Hx.
  rewrite <- !size_dom. apply subset_size. split.
  - intros j. rewrite !elem_of_dom, HP. case_decide; [by intros []|done].
  - intros Hs. assert (Hi : i ∈ dom (name_index_pending d')) by (apply Hs, elem_of_dom; by eexists).
    apply elem_of_dom in Hi. rewrite HP, decide_True in Hi by (left; done). by destruct Hi.
Qed.

(** C15: Flushing the name index terminates and leaves nothing behind.  From any
    reachable store, however many names are queued, [FlushIndex] succeeds with
    an empty queue, changes no node, and the index then holds exactly the current
    name of every node but the root. *)
Theorem flush_index_complete s :
  stored s -> exists s', FlushIndex s = (Ok tt, s') /\ name_index_pending (db s') = ∅ /\ nodes (db s') = nodes (db s) /\
    forall i, name_index (db s') !! i = if decide (i = RootIno) then None else r_name <$> nodes (db s) !! i.
Proof.
  intros HS. pose proof (stored_WF _ HS) as HW. unfold FlushIndex.
  assert (Hloop : forall fuel s, WF (db s) -> (size (name_index_pending (db s)) < fuel)%nat ->
    exists s', FlushIndex_loop fuel s = (Ok tt, s') /\ name_index_pending (db s') = ∅ /\ nodes (db s') = nodes (db s) /\ WF (db s')).
  { clear s HS HW. induction fuel as [|fuel IH]; intros s HW Hf; [lia|]. cbn [FlushIndex_loop]. unfold obind.
    destruct (flush_once s HW) as (d' & H & HE & HN & HP). rewrite H.
    destruct (decide (length (pending_batch (db s)) < indexBatch)%nat) as [Hlt|Hge].
    - eexists. split; [done|]. simpl. split; [|split; [done|by eapply evs_WF]]. apply map_eq. intros i. rewrite HP, lookup_empty.
      case_decide as Hi; [done|]. destruct (name_index_pending (db s) !! i) eqn:Hp; [|done]. exfalso. apply Hi.
      apply pending_batch_all; [done|done|by rewrite Hp].
    - destruct (IH (s <| db := d' |>)) as (s' & H' & Hp & Hn & HW').
      + by eapply evs_WF.
      + assert (size (name_index_pending d') < size (name_index_pending (db s)))%nat; [|simpl; lia].
        apply flush_smaller; [done|]. unfold indexBatch in Hge. lia.
      + exists s'. split; [done|]. split; [done|]. split; [by rewrite Hn|done]. }
  destruct (Hloop (S (size (name_index_pending (db s)))) s HW) as (s' & H & Hp & Hn & HW'); [lia|].
  exists s'. split; [done|]. split; [done|]. split; [done|]. intros i. rewrite <- Hn. case_decide as Hi.
  - destruct (name_index (db s') !! i) eqn:Hx; [|done]. by destruct (wf_index_only _ HW' _ _ Hx).
  - destruct (nodes (db s') !! i) as [r|] eqn:Hr; simpl.
    + apply (wf_index _ HW'); [done|done|]. by rewrite Hp.
    + destruct (name_index (db s') !! i) eqn:Hx; [|done]. destruct (wf_index_only _ HW' _ _ Hx) as (_ & r & Hr' & _). congruence.
Qed.
End Props.

(** ** Copies, backend ids and local versions

    A copy id is bound to one inode, renaming a directory on a path-id backend
    rewrites exactly the ids below it, and the cleanup of a discarded upload
    removes all of its rows or nothing. *)

Section CopyProps.
Context {F : Fold}.

(** ** Binding a copy *)

(** The node as [BindCopy] normalises it. *)
Definition copy_node (t : Z) (n : Node) : Node :=
  (with_fetched t (if decide (Mode n = 0) then n <| Mode := 420 |> else n)) <| Dirty := true |>.
Definition bad_copy (id : string) (n : Node) : Prop :=
  id = "" \/ NKind n <> KindFile \/ RemoteID n = "" \/ Version n = "" \/ Size n < 0.
#[local] Instance bad_copy_dec id n : Decision (bad_copy id n).
Proof. unfold bad_copy. apply _. Defined.

Lemma BindCopy_eq id n s :
  ~ bad_copy id n -> BindCopy id n s =
  match bindTx id (copy_node (now s) n) (db s) with
  | Ok (m, d) => (Ok m, snd (clearAbsent (ParentIno m) (Name m) (s <| db := d |>)))
  | Err e => (Err e, s)
  end.
Proof.
  intros Hb. unfold BindCopy. rewrite decide_False by exact Hb. unfold obind, durableTx, tx, copy_node.
  by destruct (bindTx _ _ _) as [[m d]|e].
Qed.
Lemma BindCopy_bad id n s : bad_copy id n -> BindCopy id n s = (Err (ErrText "meta: invalid copy publication"), s).
Proof. intros Hb. unfold BindCopy. by rewrite decide_True by exact Hb. Qed.

Lemma copy_node_same t t' n o : sameCopyTarget o (copy_node t n) = sameCopyTarget o (copy_node t' n).
Proof. unfold copy_node, with_fetched. by repeat case_decide. Qed.

Lemma good_copy_kind id t n : ~ bad_copy id n -> NKind (copy_node t n) = KindFile.
Proof.
  intros Hg. assert (Hk : NKind n = KindFile).
  { destruct (decide (NKind n = KindFile)); [done|]. exfalso. apply Hg. unfold bad_copy. auto. }
  unfold copy_node, with_fetched. by repeat case_decide.
Qed.

(** What a successful publication leaves behind. *)
Lemma bindTx_bound id n d m d' :
  NKind n = KindFile -> Dirty n = true -> bindTx id n d = Ok (m, d') ->
  copy_bindings d' !! id = Some (Ino m) /\ exists r, nodes d' !! Ino m = Some r /\ sameCopyTarget (scanNode (Ino m) r) n = true.
Proof.
  intros Hk Hd. unfold bindTx. destruct (copy_bindings d !! id) as [i|] eqn:Hb.
  - destruct (nodes d !! i) as [r|] eqn:Hr; [|done]. destruct (sameCopyTarget _ _) eqn:Hs; [|done]. intros [= <- <-]. simpl. eauto.
  - destruct (nodes d !! ParentIno n); [|done]. case_decide; [done|]. destruct (entry_at _ _ _); [done|].
    intros (i & d1 & H1 & H2)%tbind_Ok. apply tbind_Ok in H2 as ([] & d2 & H2 & [= <- <-]).
    apply insert_row_Ok in H1 as (_ & -> & ->). unfold insert_binding in H2. case_decide; [done|]. injection H2 as <-. simpl.
    rewrite !lookup_insert_eq. split; [done|]. eexists. split; [done|]. apply bool_decide_eq_true. simpl. auto 10.
Qed.

Lemma bindTx_again id n d i :
  copy_bindings d !! id = Some i ->
  (exists r, nodes d !! i = Some r /\ sameCopyTarget (scanNode i r) n = true /\ bindTx id n d = Ok (scanNode i r, d)) \/
  bindTx id n d = Err ErrCopyTargetChanged.
Proof.
  intros Hb. unfold bindTx. rewrite Hb. destruct (nodes d !! i) as [r|]; [|by right].
  destruct (sameCopyTarget (scanNode i r) n) eqn:Hs; [left|by right]. by exists r.
Qed.

(** A copy is published once.  After [BindCopy] has bound an id, every later
    call for that id, with any node and after any other calls, changes no row: it
    returns the node at the same inode, or fails because that node is gone or
    holds something else.  Repeating the very publication succeeds for as long as
    the node is as it was written. *)
Theorem copy_bound_once id n s m s1 s2 n2 :
  stored s -> BindCopy id n s = (Ok m, s1) -> rtc mstep s1 s2 ->
  let res := BindCopy id n2 s2 in
  db (snd res) = db s2 /\
  (forall m2, fst res = Ok m2 -> Ino m2 = Ino m /\ exists r, nodes (db s2) !! Ino m = Some r /\ m2 = scanNode (Ino m) r) /\
  (n2 = n -> nodes (db s2) !! Ino m = nodes (db s1) !! Ino m -> exists m2, fst res = Ok m2).
Proof.
  intros HS H H12 res. pose proof (stored_WF _ HS) as HW.
  assert (Hgood : ~ bad_copy id n) by (intros Hb; by rewrite BindCopy_bad in H).
  pose proof (call_evs (KBind id n) s HW I) as E1. simpl in E1. rewrite H in E1. simpl in E1.
  rewrite BindCopy_eq in H by done. destruct (bindTx id (copy_node (now s) n) (db s)) as [[m' d1]|] eqn:Hb1; [|done].
  injection H as <- <-. simpl in E1. match type of H12 with rtc _ ?x _ => set (s1 := x) in * end.
  assert (Hd1 : db s1 = d1) by done. pose proof (evs_WF _ _ E1 HW) as HW1.
  destruct (bindTx_bound _ _ _ _ _ (good_copy_kind _ _ _ Hgood) eq_refl Hb1)
    as [Hbind (r & Hr & Hsame)].
  assert (Hbind2 : copy_bindings (db s2) !! id = Some (Ino m')) by (eapply evs_bindings; [exact (msteps_evs s1 s2 HW1 H12)|exact Hbind]).
  destruct (decide (bad_copy id n2)) as [Hbad|Hok].
  { unfold res. rewrite BindCopy_bad by done. split; [done|]. split; [done|]. by intros ->. }
  unfold res. rewrite BindCopy_eq by done.
  destruct (bindTx_again id (copy_node (now s2) n2) (db s2) (Ino m') Hbind2) as [(r2 & Hr2 & Hs2 & Hb2)|Hb2]; rewrite Hb2.
  - split; [done|]. split; [|by eexists]. intros m2 [= <-]. split; [done|]. by exists r2.
  - split; [done|]. split; [done|]. intros -> Hsm. exfalso. rewrite Hd1, Hr in Hsm. unfold bindTx in Hb2. rewrite Hbind2, Hsm in Hb2.
    by rewrite (copy_node_same _ (now s)), Hsame in Hb2.
Qed.
(** ** Backend ids *)

Lemma chars_prefix p s : substr_to s (sql_length p) = p -> exists rest, s = p +:+ rest.
Proof.
  unfold substr_to, sql_length. intros H. exists (concat_strings (drop (length (chars p)) (chars s))).
  rewrite <- (concat_chars s) at 1. rewrite <- (take_drop (length (chars p)) (chars s)) at 1. rewrite concat_strings_app.
  by rewrite Nat2Z.id in H; rewrite H.
Qed.

(** A prefix that ends in a slash is a prefix in characters. *)
Lemma prefix_chars q rest :
  let p := q +:+ "/" in
  substr_to (p +:+ rest) (sql_length p) = p /\ substr (p +:+ rest) (sql_length p + 1) = rest.
Proof.
  intros p. assert (Hp : chars p = chars q ++ ["/"]) by (unfold p; by rewrite chars_app).
  assert (Hc : chars (p +:+ rest) = chars p ++ chars rest).
  { rewrite Hp. unfold p. rewrite Filepath.str_app_assoc. change ("/" +:+ rest) with (String "/"%char rest).
    rewrite chars_app by done. by rewrite <- app_assoc. }
  unfold substr_to, substr, sql_length. rewrite Nat2Z.id, Hc. rewrite take_app_length.
  replace (Z.to_nat (Z.of_nat (length (chars p)) + 1 - 1)) with (length (chars p)) by lia. rewrite drop_app_length.
  by rewrite !concat_chars.
Qed.

(** Retargeting rewrites exactly the ids under a path.  When a directory of a
    backend whose ids are paths gets another id, it and every node below it on
    the same remote whose id starts with the old id and a slash get the new id
    with the rest of theirs; no other row changes. *)
Theorem retarget_exact s i r newID :
  stored s -> i <> RootIno -> nodes (db s) !! i = Some r -> r_remote_id r <> "" -> r_remote_id r <> newID ->
  let d := db s in
  let d' := db (snd (Retarget i newID true s)) in
  let follows j x rest := rtc (par false d) j i /\ r_remote x = r_remote r /\ r_remote_id x = id_prefix (r_remote_id r) +:+ rest in
  fst (Retarget i newID true s) = Ok tt /\
  nodes d' !! i = Some (r <| r_remote_id := newID |>) /\
  forall j x, j <> i -> nodes d !! j = Some x ->
    (forall rest, follows j x rest -> nodes d' !! j = Some (x <| r_remote_id := id_prefix newID +:+ rest |>)) /\
    ((forall rest, ~ follows j x rest) -> nodes d' !! j = Some x).
Proof.
  intros HS Hi Hr Hold Hnew d d' follows. change (nodes d !! i = Some r) in Hr.
  set (d1 := update_row i (fun r => r <| r_remote_id := newID |>) d).
  set (P := fun j x => bool_decide (j ∈ closed_below false d1 {[i]}) && bool_decide (j <> i) && bool_decide (r_remote x = r_remote r) &&
                            bool_decide (substr_to (r_remote_id x) (sql_length (id_prefix (r_remote_id r))) = id_prefix (r_remote_id r))).
  set (f := fun x => x <| r_remote_id := id_prefix newID +:+ substr (r_remote_id x) (sql_length (id_prefix (r_remote_id r)) + 1) |>).
  assert (H : Retarget i newID true s = (Ok tt, s <| db := update_rows P f d1 |>)).
  { unfold Retarget. rewrite decide_False by done. unfold tx, retargetTx, tbind, row_at. fold d. rewrite Hr, decide_False by done.
    unfold tmodify. simpl orb. rewrite bool_decide_eq_false_2 by done. done. }
  unfold d'. rewrite H. simpl db. split; [done|].
  assert (Hd1 : nodes d1 !! i = Some (r <| r_remote_id := newID |>)) by (unfold d1; simpl; by rewrite lookup_alter_eq, Hr).
  split.
  { rewrite lookup_update_rows, Hd1. simpl. unfold P. rewrite (bool_decide_eq_false_2 (i <> i)) by auto. by rewrite andb_false_r. }
  assert (Hpar : forall a b, par false d1 a b <-> par false d a b).
  { intros a b. unfold par, d1. simpl. destruct (decide (a = i)) as [->|Ha]; [|by rewrite lookup_alter_ne].
    rewrite lookup_alter_eq, Hr. simpl. split; [intros (y & [= <-] & Hp & _)|intros (y & [= <-] & Hp & _)]; by eexists. }
  intros j x Hj Hx. assert (Hx1 : nodes d1 !! j = Some x) by (unfold d1; simpl; by rewrite lookup_alter_ne).
  assert (Hsub : j ∈ closed_below false d1 {[i]} <-> rtc (par false d) j i).
  { rewrite elem_of_closed_below. split.
    - intros (k & ->%elem_of_singleton & Hk). eapply rtc_congruence with (f := fun y => y); [|exact Hk]. intros a b. apply Hpar.
    - intros Hk. exists i. split; [by apply elem_of_singleton|]. eapply rtc_congruence with (f := fun y => y); [|exact Hk]. intros a b. apply Hpar. }
  rewrite lookup_update_rows, Hx1. simpl. split.
  - intros rest (Hb & Hrem & Hid). destruct (prefix_chars (Filepath.TrimSuffix (r_remote_id r) "/") rest) as [H1 H2].
    fold (id_prefix (r_remote_id r)) in H1, H2. unfold P, f. rewrite Hid, H1, H2.
    rewrite !bool_decide_eq_true_2 by (done || by apply Hsub). done.
  - intros Hno. destruct (P j x) eqn:HP; [|done]. exfalso. unfold P in HP. rewrite !andb_true_iff, !bool_decide_eq_true in HP.
    destruct HP as (((Hb & _) & Hrem) & Hpre). apply chars_prefix in Hpre as [rest Hrest]. apply (Hno rest).
    split; [by apply Hsub|done].
Qed.

(** ** Local versions *)

(** Cleaning up a discarded upload is all or nothing.  When
    [RemoveLocalVersion] succeeds, the rows it was given are gone and they were
    all and only the rows with that local id, each an unpublished file exactly as
    the caller described it and with nothing below it; no other row changed.
    When it fails, nothing changed. *)
Theorem cleanup_exact q s :
  stored s ->
  let d := db s in
  let d' := db (snd (RemoveLocalVersion q s)) in
  let given := map Ino (lc_Nodes q) in
  (fst (RemoveLocalVersion q s) = Ok tt ->
     (forall i, nodes d' !! i = if decide (i ∈ given) then None else nodes d !! i) /\
     (forall n, n ∈ lc_Nodes q -> exists r, nodes d !! Ino n = Some r /\ scanNode (Ino n) r = n /\
        r_kind r = KindFile /\ r_dirty r = true /\ r_remote_id r = lc_RemoteID q /\ r_version r = lc_Version q) /\
     (forall i r, nodes d' !! i = Some r -> r_remote_id r <> lc_RemoteID q /\ r_parent r ∉ given)) /\
  (forall e, fst (RemoveLocalVersion q s) = Err e -> d' = d).
Proof.
  intros HS d d' given. pose proof (stored_WF _ HS) as HW. unfold d', RemoveLocalVersion.
  destruct (_ || _ || _) eqn:Hb; [done|].
  apply orb_false_iff in Hb as [[_ Hbad]%orb_false_iff HN]. apply negb_false_iff, bool_decide_eq_true in HN.
  rewrite obind_same by (intros; by apply absents_same).
  set (tail := foldr _ (oret tt) (lc_Nodes q)). assert (Htail : forall s, fst (tail s) = Ok tt).
  { unfold tail. clear. induction (lc_Nodes q) as [|n l IH]; intros s; [done|exact (IH _)]. }
  unfold obind, durableTx, tx. destruct (removeLocalTx q (db s)) as [[[] d1]|e] eqn:Hq; [|done].
  split; [intros _; simpl|intros e He; by rewrite Htail in He].
  unfold removeLocalTx in Hq. case_decide; [done|]. destruct (negb _) eqn:Hc; [done|]. apply negb_false_iff in Hc.
  destruct (cleanup_authorized q (db s) HN Hbad Hc) as [HA Hall]. apply tbind_Ok in Hq as ([] & d2 & H1 & [= <-]).
  destruct (wf_root _ HW) as (rr & Hrr & _). pose proof (wf_seq _ HW _ _ Hrr) as Hs.
  destruct (cleanup_loop RootIno _ _ _ _ HW (proj2 Hs) HN HA H1) as (_ & _ & Hn & HC). simpl.
  assert (Hn' : forall i, nodes d2 !! i = if decide (i ∈ given) then None else nodes d !! i).
  { intros i. rewrite Hn, lookup_without. apply decide_ext. by rewrite elem_of_list_to_set. }
  split; [done|]. split.
  - intros n Hnq. destruct (HA n Hnq) as (_ & r & Hr & Hsc). exists r. split; [done|]. split; [done|].
    assert (Hg : bad_node q n = false).
    { apply not_true_is_false. intros Ht. rewrite <- not_true_iff_false, existsb_exists in Hbad. apply Hbad. exists n.
      split; [by apply list_elem_of_In|done]. }
    unfold bad_node in Hg. apply bool_decide_eq_false in Hg. rewrite <- Hsc in Hg. simpl in Hg.
    split; [destruct (decide (r_kind r = KindFile)); tauto|]. split; [destruct (r_dirty r); tauto|].
    split; [destruct (decide (r_remote_id r = lc_RemoteID q))|destruct (decide (r_version r = lc_Version q))]; tauto.
  - intros i r Hi. assert (Hi0 := Hi). rewrite Hn' in Hi. case_decide as Hgiv; [done|]. split.
    + intros Hid. apply Hgiv. by apply (Hall i r).
    + intros (n & Hp & Hnq)%list_elem_of_fmap. rewrite Forall_forall in HC. by apply (HC n Hnq i r Hi0).
Qed.
End CopyProps.
