(* ===== verification/MetaDemo.v ===== *)
(** * The metadata store at concrete inputs (internal/meta)

    A small tree, the calls that build it, and the theorems of MetaProps,
    MetaTreeProps applied to it; and the run in which a file
    renamed between directories outlives the listings of its new one. *)
From S2P Require Import Prelude Filepath GoLib SqlText Retry MetaState MetaTree MetaListing MetaCopy MetaRows MetaInv MetaReach MetaSteps MetaCalls MetaFence MetaMerge MetaProps MetaTreeProps.
From Stdlib Require Import Ascii.
Open Scope Z_scope.

(** Unicode's lower case on ASCII *)
Definition lower_ascii (c : ascii) : ascii :=
  let n := nat_of_ascii c in if decide (65 <= n <= 90)%nat then ascii_of_nat (n + 32) else c.
Fixpoint lower (s : string) : string :=
  match s with EmptyString => EmptyString | String c s' => String (lower_ascii c) (lower s') end.
#[local] Existing Instance Filepath.plain_dec.
#[local] Instance ascii_fold : Fold := {| ToLower := lower |}.

(** ** Checking the guards *)

Definition rename_okb (d : DB) (i p : Z) (n : string) : bool :=
  bool_decide (p <= seq d) && negb (bool_decide (p = RootIno /\ n = "")) && bool_decide (p ∉ subtree d i) &&
  match entry_at d p n with Some (v, _) => bool_decide (v = i) || bool_decide (i ∉ subtree d v) | None => true end.
Definition allowedb (c : mcall) (d : DB) : bool :=
  match c with
  | KUpsert n | KInsert n => bool_decide (ParentIno n <= seq d) && negb (bool_decide (ParentIno n = RootIno /\ Name n = ""))
  | KRename i p n | KRenameRetarget i p n _ _ => rename_okb d i p n
  | KPutDir dir _ _ _ => bool_decide (dir <= seq d)
  | _ => true
  end.

Lemma rename_okb_ok d i p n : rename_okb d i p n = true -> rename_ok d i p n.
Proof.
  unfold rename_okb, rename_ok. rewrite !andb_true_iff, negb_true_iff, !bool_decide_eq_true, bool_decide_eq_false.
  intros [[[Hp Hn] Hs] Hv]. do 3 (split; [done|]). intros v x He Hne. rewrite He in Hv.
  apply orb_true_iff in Hv as [Hv|Hv]; apply bool_decide_eq_true in Hv; done.
Qed.
Lemma allowedb_ok c d : allowedb c d = true -> allowed c d.
Proof.
  destruct c; simpl; try done; try apply rename_okb_ok;
    rewrite ?andb_true_iff, ?negb_true_iff, ?bool_decide_eq_true, ?bool_decide_eq_false; done.
Qed.

Fixpoint run_all (cs : list mcall) (s : Store) : Store :=
  match cs with [] => s | c :: cs' => run_all cs' (run_call c s) end.
Fixpoint allowed_all (cs : list mcall) (s : Store) : bool :=
  match cs with [] => true | c :: cs' => allowedb c (db s) && allowed_all cs' (run_call c s) end.
Definition no_commit (c : mcall) : bool := match c with KCommit _ _ _ => false | _ => true end.

Lemma run_all_steps cs s : allowed_all cs s = true -> rtc mstep s (run_all cs s).
Proof.
  revert s. induction cs as [|c cs IH]; intros s; simpl; [intros _; apply rtc_refl|]. rewrite andb_true_iff. intros [Hc Hcs].
  eapply rtc_l; [|by apply IH]. exists c. split; [by apply allowedb_ok|done].
Qed.
Lemma run_all_others dir gen cs s :
  allowed_all cs s = true -> forallb no_commit cs = true -> rtc (others dir gen) s (run_all cs s).
Proof.
  revert s. induction cs as [|c cs IH]; intros s; simpl; [intros; apply rtc_refl|]. rewrite !andb_true_iff. intros [Hc Hcs] [Hn Hns].
  eapply rtc_l; [|by apply IH]. exists c. split; [by apply allowedb_ok|]. split; [done|]. by intros t p l ->.
Qed.
Lemma run_all_stored id t cs : allowed_all cs (Open id t) = true -> stored (run_all cs (Open id t)).
Proof. intros H. exists id, t. by apply run_all_steps. Qed.

(** ** A tree: /docs with a.txt, b.txt and an unpublished draft, and /old *)

Definition dir_node (p : Z) (n rid : string) : Node :=
  (((no_node <| ParentIno := p |>) <| Name := n |>) <| NKind := KindDir |>) <| RemoteID := rid |> <| Remote := "r" |>.
Definition file_node (p : Z) (n rid v : string) : Node :=
  ((((no_node <| ParentIno := p |>) <| Name := n |>) <| RemoteID := rid |>) <| MetaState.Version := v |>) <| Remote := "r" |>.
Definition draft : Node := (file_node 2 "draft" "cloudfs-local:7" "v1") <| Dirty := true |>.

Definition s0 : Store := run_all
  [KUpsert (dir_node 1 "docs" "/docs"); KUpsert (dir_node 1 "old" "/old"); KUpsert (file_node 2 "a.txt" "/docs/a.txt" "v1");
   KUpsert (file_node 2 "b.txt" "/docs/b.txt" "v1"); KUpsert draft] (Open "store" 0).
Lemma stored_s0 : stored s0.
Proof. apply run_all_stored. vm_compute. reflexivity. Qed.

Definition no_row : Row := root_row 0.
Definition row (s : Store) (i : Z) : Row := default no_row (nodes (db s) !! i).
Definition node_at (s : Store) (i : Z) : Node := scanNode i (row s i).
Definition no_listing : DirListing := MkListing no_node "" 0 0 false false false false ∅ ∅ ∅.
Definition begun (n : Node) (s : Store) : DirListing * Store :=
  match BeginDirListing n s with (Ok l, s') => (l, s') | (Err _, s') => (no_listing, s') end.
Definition gathered (ns : list Node) (l : DirListing) : DirListing := snd (Append ns l).
Lemma gathered_gathers ns l : rtc gathers l (gathered ns l).
Proof. apply rtc_once. right. by exists ns. Qed.

Definition l1 : DirListing := fst (begun (node_at s0 2) s0).
Definition s1 : Store := snd (begun (node_at s0 2) s0).
(** The backend has a new version of a.txt, no b.txt any more, and c.txt. *)
Definition seen : list Node := [file_node 0 "a.txt" "/docs/a.txt" "v2"; file_node 0 "c.txt" "/docs/c.txt" "v1"].
Definition l2 : DirListing := gathered seen l1.
Lemma begun_s0 : BeginDirListing (node_at s0 2) s0 = (Ok l1, s1).
Proof. vm_compute. reflexivity. Qed.

(** ** Listings *)

Definition moved : Store := run_all [KRename 4 3 "a.txt"] s1.
Lemma listing_fenced_witness :
  fst (fst (Commit 60 None l2 moved)) = Err ErrListingChanged /\ db (snd (Commit 60 None l2 moved)) = db moved.
Proof.
  apply (listing_fenced (node_at s0 2) s0 s1 moved l1 l2 60 None 4 (row s1 4)).
  - exact stored_s0.
  - exact begun_s0.
  - apply gathered_gathers.
  - apply run_all_others; vm_compute; reflexivity.
  - vm_compute. reflexivity.
  - vm_compute. reflexivity.
  - discriminate.
  - intros x Hx. assert (row moved 4 = x) as <- by (unfold row; by rewrite Hx). vm_compute. discriminate.
  - vm_compute. reflexivity.
Defined.

Definition keep_drafts : Protect := Some Dirty.
Definition committed : Store := snd (Commit 60 keep_drafts l2 s1).
Lemma ready_s1 : commit_ready l2 (db s1).
Proof.
  apply conj; [vm_compute; reflexivity|]. exists (row s1 2), (MkGen 1 0).
  do 5 (apply conj; [vm_compute; reflexivity|]). vm_compute. reflexivity.
Qed.
Lemma commit_mirrors_witness :
  fst (fst (Commit 60 keep_drafts l2 s1)) = Ok tt /\
  map (fun kv => (r_name (snd kv), r_version (snd kv))) (children (db committed) 2) =
    [("a.txt", "v2"); ("c.txt", "v1"); ("draft", "v1")].
Proof.
  apply conj; [|vm_compute; reflexivity].
  apply (commit_mirrors (node_at s0 2) s0 s1 s1 l1 l2 60 keep_drafts).
  - exact stored_s0.
  - exact begun_s0.
  - apply gathered_gathers.
  - apply rtc_refl.
  - exact ready_s1.
  - vm_compute. reflexivity.
Defined.

(** Nothing in a directory lies above another entry of it. *)
Lemma entry_led dir d i r : WF d -> nodes d !! i = Some r -> r_parent r = dir -> led dir d i.
Proof.
  intros HW Hi Hr c x Hc Hx Hp H1. exfalso. apply (wf_acyclic d HW c). apply tc_first in Hc as (b & (y & Hy & <- & _) & Hb).
  rewrite Hi in Hy. injection Hy as <-. eapply tc_rtc_r; [apply tc_once|rewrite Hr in Hb; exact Hb]. by exists x.
Qed.
Lemma s1_WF : WF (db s1).
Proof. exact (fl_WF _ _ _ (gathered_in_flight _ _ _ _ _ _ stored_s0 begun_s0 (gathered_gathers seen l1) (rtc_refl _ _))). Qed.
Lemma commit_spares_witness : exists x, nodes (db committed) !! 6 = Some x /\ r_dirty x = true.
Proof.
  destruct (commit_spares (node_at s0 2) s0 s1 s1 l1 l2 60 keep_drafts 6 (row s1 6)) as [(x & Hx & Hcase) _].
  - exact stored_s0.
  - exact begun_s0.
  - apply gathered_gathers.
  - apply rtc_refl.
  - apply conj; [vm_compute; reflexivity|]. left. apply conj; [vm_compute; reflexivity|].
    apply (entry_led _ _ 6 (row s1 6) s1_WF); vm_compute; reflexivity.
  - exists x. apply conj; [exact Hx|]. destruct Hcase as [->|(_ & Hd & _)]; [vm_compute; reflexivity|].
    assert (Ht : r_dirty (row s1 6) = true) by (vm_compute; reflexivity). rewrite Ht in Hd. discriminate Hd.
Defined.

(** A change-feed event for a.txt while the listing is gathered. *)
Definition event_in : res merr (Node * bool) * Store :=
  ApplyRemoteNode (node_at s1 4) (Some (file_node 2 "a.txt" "/docs/a.txt" "v3")) None s1.
Definition event_res : Node := match fst event_in with Ok (n, _) => n | Err _ => no_node end.
Lemma event_beats_listing_witness : nodes (db (snd (Commit 60 None l2 (snd event_in)))) !! 4 = Some (row (snd event_in) 4).
Proof.
  change 4 with (Ino event_res) at 1.
  apply (event_beats_listing (node_at s0 2) s0 s1 s1 (snd event_in) (snd event_in) l1 l2 60 None (node_at s1 4)
           (file_node 2 "a.txt" "/docs/a.txt" "v3") None event_res).
  - exact stored_s0.
  - exact begun_s0.
  - apply gathered_gathers.
  - apply rtc_refl.
  - vm_compute. reflexivity.
  - vm_compute. reflexivity.
  - apply rtc_refl.
  - vm_compute. reflexivity.
  - vm_compute. reflexivity.
Defined.

(** ** The tree *)

Lemma store_invariant_witness : WF (db s0).
Proof. apply store_invariant. exact stored_s0. Defined.

Lemma path_resolves_witness :
  Path 4 s0 = (Ok "/docs/a.txt", s0) /\ Resolve "/docs/a.txt" s0 = (Ok (node_at s0 4), s0).
Proof.
  destruct (path_resolves s0 4 (row s0 4) ["docs"; "a.txt"]) as [H1 H2].
  - exact stored_s0.
  - vm_compute. reflexivity.
  - apply (lineage_child (db s0) 4 (row s0 4) ["docs"]); [vm_compute; reflexivity|discriminate|].
    apply (lineage_child (db s0) 2 (row s0 2) []); [vm_compute; reflexivity|discriminate|]. apply lineage_root.
  - apply conj; [exact H1|]. apply H2. apply (bool_decide_unpack _). vm_compute. reflexivity.
Defined.

Lemma remove_exact_witness :
  fst (Remove 2 s0) = Ok tt /\ nodes (db (snd (Remove 2 s0))) !! 6 = None /\ nodes (db (snd (Remove 2 s0))) !! 3 = nodes (db s0) !! 3.
Proof.
  destruct (remove_exact s0 2 (row s0 2)) as (H1 & H2 & H3 & _).
  - exact stored_s0.
  - discriminate.
  - vm_compute. reflexivity.
  - apply conj; [exact H1|]. split.
    + apply H2. apply rtc_once. exists (row s0 6). apply conj; [vm_compute; reflexivity|]. split; [vm_compute; reflexivity|discriminate].
    + apply H3. rewrite <- elem_of_subtree. apply (bool_decide_unpack _). vm_compute. reflexivity.
Defined.

Lemma rename_exact_witness :
  fst (Rename 4 2 "b.txt" s0) = Ok tt /\ nodes (db (snd (Rename 4 2 "b.txt" s0))) !! 5 = None /\
  r_name (row (snd (Rename 4 2 "b.txt" s0)) 4) = "b.txt".
Proof.
  destruct (rename_exact s0 4 (row s0 4) 2 "b.txt") as (H1 & H2 & H3 & _).
  - exact stored_s0.
  - discriminate.
  - vm_compute. reflexivity.
  - apply rename_okb_ok. vm_compute. reflexivity.
  - apply conj; [exact H1|]. apply conj; [|unfold row; rewrite H2; reflexivity].
    apply (H3 5); [discriminate|]. exists 5, (row s0 5). apply conj; [vm_compute; reflexivity|]. apply conj; [discriminate|apply rtc_refl].
Defined.

Lemma flush_index_complete_witness : exists s', FlushIndex s0 = (Ok tt, s') /\ name_index_pending (db s') = ∅.
Proof. destruct (flush_index_complete s0 stored_s0) as (s' & H1 & H2 & _). exists s'. apply conj; [exact H1|exact H2]. Defined.

(** ** Copies, ids and local versions *)

Definition copy1 : Node := file_node 3 "copy.txt" "/old/copy.txt" "v1".
Definition bound : res merr Node * Store := BindCopy "copy-1" copy1 s0.
Definition bound_node : Node := match fst bound with Ok n => n | Err _ => no_node end.
Lemma copy_bound_once_witness : exists m, fst (BindCopy "copy-1" copy1 (snd bound)) = Ok m.
Proof.
  destruct (copy_bound_once "copy-1" copy1 s0 bound_node (snd bound) (snd bound) copy1) as (_ & _ & H).
  - exact stored_s0.
  - vm_compute. reflexivity.
  - apply rtc_refl.
  - apply H; reflexivity.
Defined.

Lemma retarget_exact_witness : r_remote_id (row (snd (Retarget 2 "/papers" true s0)) 4) = "/papers/a.txt".
Proof.
  destruct (retarget_exact s0 2 (row s0 2) "/papers") as (_ & _ & H).
  - exact stored_s0.
  - discriminate.
  - vm_compute. reflexivity.
  - vm_compute. discriminate.
  - vm_compute. discriminate.
  - destruct (H 4 (row s0 4)) as [H1 _]; [discriminate|vm_compute; reflexivity|]. unfold row at 1. rewrite (H1 "a.txt"); [reflexivity|].
    apply conj; [|apply conj; vm_compute; reflexivity]. apply rtc_once. exists (row s0 4).
    apply conj; [vm_compute; reflexivity|]. split; [vm_compute; reflexivity|discriminate].
Defined.

Definition discarded : LocalVersionCleanup := MkCleanup "store" "r" "cloudfs-local:7" "v1" 0 [node_at s0 6].
Lemma cleanup_exact_witness :
  fst (RemoveLocalVersion discarded s0) = Ok tt /\ nodes (db (snd (RemoveLocalVersion discarded s0))) !! 6 = None.
Proof.
  assert (H0 : fst (RemoveLocalVersion discarded s0) = Ok tt) by (vm_compute; reflexivity). apply conj; [exact H0|].
  destruct (cleanup_exact discarded s0 stored_s0) as [H _]. destruct (H H0) as [Hn _]. rewrite Hn. vm_compute. reflexivity.
Defined.

(** ** A moved file and the generations of its new directory *)


