(* ===== verification/CacheBits.v ===== *)
(** * Bitmaps and names of the read cache
    (internal/cache/subblock.go, sparse.go, blockcache.go, temps.go)

    Which parts of a block, or which blocks of a sparse file, are real is a
    bitmap of 64-bit words; its text form is what a restart reads back.  Blocks
    are named after the hash of their file and their index.  [fmt.Sscanf] and
    [strconv.ParseInt] are modelled for the verbs and bases used here;
    [strings.TrimSpace] for ASCII white space.  The lemmas: a bitmap behaves as
    the set of the indices of its bits, and its text decodes to what was encoded. *)
From Stdlib Require Import Ascii.
From stdpp Require Import pretty numbers.
From S2P Require Import Prelude Filepath GoLib SqlText.
Open Scope Z_scope.

(** ** Numbers and hexadecimal *)

Definition hex_digit (n : Z) : ascii := ascii_of_nat (Z.to_nat (if n <? 10 then 48 + n else 87 + n)).
Definition hex_byte (b : Z) (s : string) : string :=
  String (hex_digit (b / 16)) (String (hex_digit (b mod 16)) s).
(** hex.EncodeToString. *)
Definition hex_encode (l : list Z) : string := foldr hex_byte "" l.

Definition code (c : ascii) : Z := Z.of_nat (nat_of_ascii c).
Definition hex_value (c : ascii) : option Z :=
  let n := code c in
  if (48 <=? n) && (n <=? 57) then Some (n - 48)
  else if (97 <=? n) && (n <=? 102) then Some (n - 87)
  else if (65 <=? n) && (n <=? 70) then Some (n - 55)
  else None.
(** hex.DecodeString: an odd digit out or another character is an error. *)
Fixpoint hex_decode (s : string) : option (list Z) :=
  match s with
  | EmptyString => Some []
  | String c (String d s') =>
      match hex_value c, hex_value d, hex_decode s' with
      | Some h, Some l, Some r => Some (16 * h + l :: r)
      | _, _, _ => None
      end
  | String _ EmptyString => None
  end.

Definition is_digit (c : ascii) : bool := (48 <=? code c) && (code c <=? 57).
(** The longest run of characters satisfying [f], and what follows it. *)
Fixpoint span (f : ascii -> bool) (s : string) : string * string :=
  match s with
  | String c s' => if f c then let '(a, b) := span f s' in (String c a, b) else ("", s)
  | EmptyString => ("", "")
  end.
Fixpoint digits_value (acc : Z) (s : string) : Z :=
  match s with
  | EmptyString => acc
  | String c s' => digits_value (10 * acc + (code c - 48)) s'
  end.
Definition MinInt64 : Z := -9223372036854775808.
Definition MaxInt64 : Z := 9223372036854775807.
(** An optional sign. *)
Definition take_sign (s : string) : bool * string :=
  match s with
  | String "-"%char s' => (true, s')
  | String "+"%char s' => (false, s')
  | _ => (false, s)
  end.
Definition in_int64 (neg : bool) (ds : string) : option Z :=
  let v := if neg then - digits_value 0 ds else digits_value 0 ds in
  if (ds =? "")%string then None
  else if (MinInt64 <=? v) && (v <=? MaxInt64) then Some v else None.
(** strconv.ParseInt(s, 10, 64). *)
Definition ParseInt (s : string) : option Z :=
  let '(neg, s1) := take_sign s in
  let '(ds, rest) := span is_digit s1 in
  if (rest =? "")%string then in_int64 neg ds else None.

(** ** Sscanf, for the formats of the bitmaps *)

Definition is_space (c : ascii) : bool :=
  bool_decide (code c = 32) || ((9 <=? code c) && (code c <=? 13)).
(** Sscanf does not skip a newline. *)
Definition is_blank (c : ascii) : bool := is_space c && negb (code c =? 10).
Definition skip_space (s : string) : string := snd (span is_blank s).
Fixpoint TrimRight (s : string) : string :=
  match s with
  | EmptyString => ""
  | String c s' => let r := TrimRight s' in
                   if is_space c && (r =? "")%string then "" else String c r
  end.
Definition TrimSpace (s : string) : string := TrimRight (snd (span is_space s)).

(** Literal text of the format. *)
Fixpoint scan_lit (lit s : string) : option string :=
  match lit, s with
  | EmptyString, _ => Some s
  | String a lit', String b s' => if Ascii.eqb a b then scan_lit lit' s' else None
  | String _ _, EmptyString => None
  end.
(** A space of the format: at least one space of the input, or its end. *)
Definition scan_space (s : string) : option string :=
  match s with
  | EmptyString => Some ""
  | String c s' => if is_blank c then Some (skip_space s') else None
  end.
(** %d *)
Definition scan_int (s : string) : option (Z * string) :=
  let '(neg, s1) := take_sign (skip_space s) in
  let '(ds, rest) := span is_digit s1 in
  match in_int64 neg ds with Some v => Some (v, rest) | None => None end.
(** %s: a run of non-space characters, of which there must be one. *)
Definition scan_str (s : string) : option (string * string) :=
  let '(w, rest) := span (fun c => negb (is_space c)) (skip_space s) in
  if (w =? "")%string then None else Some (w, rest).

(** ** Presence bitmaps (subblock.go) *)

Record partial := MkPartial { p_sub : Z; p_total : Z; p_have : Z; p_bits : list Z }.

Definition newPartialTotal (sub total : Z) : partial :=
  MkPartial sub total 0 (replicate (Z.to_nat ((total + 63) / 64)) 0).
Definition newPartial (sub blockLen : Z) : partial :=
  newPartialTotal sub ((blockLen + sub - 1) / sub).

Definition p_word (p : partial) (i : Z) : Z := nth (Z.to_nat i) (p_bits p) 0.
Definition p_has (p : partial) (i : Z) : bool := Z.testbit (p_word p (i / 64)) (i mod 64).
Definition p_set (i : Z) (p : partial) : partial :=
  if p_has p i then p
  else MkPartial (p_sub p) (p_total p) (p_have p + 1)
         (<[Z.to_nat (i / 64) := Z.lor (p_word p (i / 64)) (Z.shiftl 1 (i mod 64))]> (p_bits p)).
Definition p_full (p : partial) : bool := p_have p =? p_total p.

(** covers: [off, off+n) lies within present sub-blocks. *)
Definition covers (p : partial) (off n : Z) : bool :=
  if n <=? 0 then true
  else
    let first := Z.quot off (p_sub p) in
    let last := Z.quot (off + n - 1) (p_sub p) in
    if p_total p <=? last then false
    else forallb (p_has p) (seqZ first (last - first + 1)).

(** The bytes of a word, least significant first. *)
Definition le_bytes (w : Z) : list Z :=
  map (fun k => Z.land (Z.shiftr w (8 * k)) 255) (seqZ 0 8).
Definition packed (p : partial) : string := hex_encode (mjoin (map le_bytes (p_bits p))).
Definition newline : string := String (ascii_of_nat 10) "".
Definition encode (p : partial) : string :=
  "sub=" +:+ pretty (p_sub p) +:+ " total=" +:+ pretty (p_total p) +:+ " bits=" +:+ packed p +:+ newline.

(** How many of the first [total] bits are set. *)
Definition count_bits (p : partial) : Z :=
  Z.of_nat (length (filter (fun i => p_has p i = true) (seqZ 0 (p_total p)))).

(** The loop of unpackBits: byte [i] goes into word [i/8]; bytes past the
    last word are left alone. *)
Fixpoint unpack_loop (i : Z) (raw bits : list Z) : list Z :=
  match raw with
  | [] => bits
  | b :: raw' =>
      if Z.of_nat (length bits) <=? i / 8 then bits
      else unpack_loop (i + 1) raw'
             (<[Z.to_nat (i / 8) := Z.lor (nth (Z.to_nat (i / 8)) bits 0) (Z.shiftl b (8 * (i mod 8)))]> bits)
  end.
Definition unpackBits (p : partial) (bits : string) : option partial :=
  match hex_decode bits with
  | None => None
  | Some raw =>
      let q := MkPartial (p_sub p) (p_total p) 0 (unpack_loop 0 raw (p_bits p)) in
      Some (MkPartial (p_sub p) (p_total p) (count_bits q) (p_bits q))
  end.

Definition decodePartial (s : string) : option partial :=
  s0 ← scan_lit "sub=" (TrimSpace s); '(sub, s1) ← scan_int s0;
  s2 ← scan_space s1; s3 ← scan_lit "total=" s2; '(total, s4) ← scan_int s3;
  s5 ← scan_space s4; s6 ← scan_lit "bits=" s5; '(bits, _) ← scan_str s6;
  if (sub <=? 0) || (total <=? 0) then None
  else unpackBits (newPartialTotal sub total) bits.

(** ** The bitmap of a sparse whole file (sparse.go) *)

Definition partLayoutVersion : Z := 1.
Definition encodePartBitmap (size : Z) (bits : partial) : string :=
  "part=" +:+ pretty partLayoutVersion +:+ " block=" +:+ pretty (p_sub bits) +:+ " size=" +:+ pretty size
    +:+ " bits=" +:+ packed bits +:+ newline.
Definition decodePartBitmap (s : string) (blockSize : Z) : option (partial * Z) :=
  s0 ← scan_lit "part=" (TrimSpace s); '(version, s1) ← scan_int s0;
  s2 ← scan_space s1; s3 ← scan_lit "block=" s2; '(block, s4) ← scan_int s3;
  s5 ← scan_space s4; s6 ← scan_lit "size=" s5; '(size, s7) ← scan_int s6;
  s8 ← scan_space s7; s9 ← scan_lit "bits=" s8; '(bits, _) ← scan_str s9;
  if negb (version =? partLayoutVersion) || negb (block =? blockSize) || (block <=? 0) || (size <=? 0) then None
  else
    p ← unpackBits (newPartialTotal block ((size + block - 1) / block)) bits;
    Some (p, size).

(** ** Names on disk (blockcache.go, temps.go) *)

Definition hex_char (c : ascii) : bool :=
  is_digit c || ((97 <=? code c) && (code c <=? 102)).
Fixpoint all_hex (s : string) : bool :=
  match s with EmptyString => true | String c s' => hex_char c && all_hex s' end.
Definition validFileHash (s : string) : bool := (String.length s =? 32)%nat && all_hex s.

Definition blockName (fh : string) (idx : Z) : string := fh +:+ "-" +:+ pretty idx.

(** strings.LastIndexByte(name, '-'), with what stands before and after it. *)
Fixpoint cut_last_dash (s : string) : option (string * string) :=
  match s with
  | EmptyString => None
  | String c s' =>
      match cut_last_dash s' with
      | Some (a, b) => Some (String c a, b)
      | None => if Ascii.eqb c "-"%char then Some ("", s') else None
      end
  end.
Definition parseBlockName (name : string) : option (string * Z) :=
  match cut_last_dash name with
  | Some (fh, tail) =>
      if (String.length fh =? 32)%nat && negb (tail =? "")%string && validFileHash fh then
        match ParseInt tail with
        | Some idx => if idx <? 0 then None else Some (fh, idx)
        | None => None
        end
      else None
  | None => None
  end.

Definition cacheTempName (s : string) : bool :=
  if hasPrefix s ".hydrate-" || hasPrefix s ".install-" || hasPrefix s ".flush-" then true
  else if negb (HasSuffix s ".tmp") || (String.length s <? 36)%nat || negb (validFileHash (String.substring 0 32 s))
  then false
  else
    let tail := Filepath.TrimSuffix (sdrop 32 s) ".tmp" in
    if (tail =? "")%string || (tail =? ".key")%string then true
    else match parseBlockName (String.substring 0 32 s +:+ Filepath.TrimSuffix tail ".part") with
         | Some _ => true | None => false
         end.

Example decode_example :
  decodePartial (encode (p_set 65 (p_set 3 (newPartial 16 2000)))) = Some (p_set 65 (p_set 3 (newPartial 16 2000))).
Proof. vm_compute. reflexivity. Qed.
Example temp_example : cacheTempName "0123456789abcdef0123456789abcdef-17.part.tmp" = true.
Proof. vm_compute. reflexivity. Qed.

(** ** Bits *)

Record WFp (p : partial) : Prop := {
  wf_sub : 0 < p_sub p; wf_total : 0 <= p_total p;
  wf_len : length (p_bits p) = Z.to_nat ((p_total p + 63) / 64);
  wf_have : p_have p = count_bits p;
  wf_words : Forall (fun w => 0 <= w < 2 ^ 64) (p_bits p)
}.

Lemma count_bits_ext p q :
  p_total p = p_total q -> (forall i, 0 <= i < p_total p -> p_has p i = p_has q i) -> count_bits p = count_bits q.
Proof.
  intros Ht Hh. unfold count_bits. rewrite <- Ht. f_equal. f_equal.
  assert (H : forall l : list Z, (forall i, i ∈ l -> p_has p i = p_has q i) ->
    filter (fun i => p_has p i = true) l = filter (fun i => p_has q i = true) l).
  { induction l as [|x l IH]; intros Hl; [done|]. rewrite !filter_cons, (Hl x) by left.
    rewrite IH by (intros; apply Hl; by right). done. }
  apply H. intros i Hi%elem_of_seqZ. apply Hh. lia.
Qed.

Lemma count_bits_bounds p : 0 <= p_total p -> 0 <= count_bits p <= p_total p.
Proof.
  intros Ht. unfold count_bits. split; [lia|].
  pose proof (length_filter (fun i => p_has p i = true) (seqZ 0 (p_total p))) as H. rewrite length_seqZ in H. lia.
Qed.

Lemma filter_every {A} (P : A -> Prop) `{forall x, Decision (P x)} (l : list A) :
  (forall x, x ∈ l -> P x) -> filter P l = l.
Proof.
  induction l as [|x l IH]; intros Hl; [done|]. rewrite filter_cons_True by (apply Hl; left). f_equal.
  apply IH. intros y Hy. apply Hl. by right.
Qed.
Lemma filter_nowhere {A} (P : A -> Prop) `{forall x, Decision (P x)} (l : list A) :
  (forall x, x ∈ l -> ~ P x) -> filter P l = [].
Proof.
  induction l as [|x l IH]; intros Hl; [done|]. rewrite filter_cons_False by (apply Hl; left).
  apply IH. intros y Hy. apply Hl. by right.
Qed.
Lemma filter_all_length {A} (P : A -> Prop) `{forall x, Decision (P x)} (l : list A) :
  length (filter P l) = length l -> forall x, x ∈ l -> P x.
Proof.
  induction l as [|x l IH]; intros Hl y Hy; [by apply elem_of_nil in Hy|].
  rewrite filter_cons in Hl. pose proof (length_filter P l). destruct (decide (P x)); simpl in Hl; [|lia].
  apply elem_of_cons in Hy as [->|Hy]; [done|]. apply IH; [lia|done].
Qed.
Lemma full_has p i : WFp p -> p_full p = true -> 0 <= i < p_total p -> p_has p i = true.
Proof.
  intros [_ Ht _ Hh _] Hf Hi. unfold p_full in Hf. apply Z.eqb_eq in Hf. rewrite Hh in Hf. unfold count_bits in Hf.
  apply (filter_all_length (fun i => p_has p i = true) (seqZ 0 (p_total p))).
  - rewrite length_seqZ. lia.
  - apply elem_of_seqZ. lia.
Qed.
Lemma not_full_bit p : WFp p -> p_full p = false -> exists i, 0 <= i < p_total p /\ p_has p i = false.
Proof.
  intros [_ Ht _ Hh _] Hf. unfold p_full in Hf. apply Z.eqb_neq in Hf. rewrite Hh in Hf.
  destruct (decide (Forall (fun i => p_has p i = true) (seqZ 0 (p_total p)))) as [H|H].
  - exfalso. apply Hf. unfold count_bits. rewrite filter_every by (intros i Hi; rewrite Forall_forall in H; auto).
    rewrite length_seqZ. lia.
  - apply not_Forall_Exists in H; [|intros ?; apply _]. apply Exists_exists in H as (i & Hi & Hn).
    apply elem_of_seqZ in Hi. exists i. split; [lia|]. by apply not_true_is_false.
Qed.

Lemma newPartialTotal_has sub total i : p_has (newPartialTotal sub total) i = false.
Proof.
  unfold p_has, p_word, newPartialTotal. simpl.
  assert (H : forall n m, nth n (replicate m 0) 0 = 0) by (intros n m; revert n; induction m; intros []; simpl; auto).
  rewrite H. apply Z.testbit_0_l.
Qed.
Lemma newPartialTotal_wf sub total : 0 < sub -> 0 <= total -> WFp (newPartialTotal sub total).
Proof.
  intros Hs Ht. split; simpl; [done|done|apply length_replicate| |].
  - unfold count_bits. simpl. rewrite filter_nowhere; [done|].
    intros i _ H. by rewrite newPartialTotal_has in H.
  - apply Forall_replicate. lia.
Qed.

Section Set_.
Context (p : partial) (i : Z) (W : WFp p) (Hi : 0 <= i < p_total p).

Lemma bit_word_in : (Z.to_nat (i / 64) < length (p_bits p))%nat.
Proof.
  rewrite (wf_len p W). apply Z2Nat.inj_lt; [apply Z.div_pos; lia|apply Z.div_pos; lia|].
  apply Z.div_lt_upper_bound; [lia|]. pose proof (Z.mul_succ_div_gt (p_total p + 63) 64). lia.
Qed.
Lemma p_has_set j : 0 <= j -> p_has (p_set i p) j = (i =? j) || p_has p j.
Proof.
  intros Hj. unfold p_set. destruct (p_has p i) eqn:Hb.
  { destruct (Z.eqb_spec i j) as [->|]; [by rewrite Hb|done]. }
  unfold p_has, p_word. simpl. pose proof bit_word_in as Hl.
  assert (Hm : 0 <= i mod 64 < 64) by (apply Z.mod_pos_bound; lia).
  assert (Hmj : 0 <= j mod 64 < 64) by (apply Z.mod_pos_bound; lia).
  assert (Ei : i = 64 * (i / 64) + i mod 64) by (apply Z.div_mod; lia).
  assert (Ej : j = 64 * (j / 64) + j mod 64) by (apply Z.div_mod; lia).
  assert (Hd : 0 <= i / 64) by (apply Z.div_pos; lia). assert (Hdj : 0 <= j / 64) by (apply Z.div_pos; lia).
  rewrite !nth_lookup.
  destruct (decide (j / 64 = i / 64)) as [E|E].
  - rewrite E, list_lookup_insert_eq by done. simpl. rewrite Z.lor_spec, Z.shiftl_spec by lia.
    rewrite orb_comm. f_equal.
    destruct (Z.eqb_spec i j) as [->|Hne].
    + by rewrite Z.sub_diag.
    + destruct (Z.ltb_spec (j mod 64) (i mod 64)) as [Hlt|Hge].
      * apply Z.testbit_neg_r. lia.
      * assert (0 < j mod 64 - i mod 64) by lia.
        change 1 with (2 ^ 0). apply Z.pow2_bits_false. lia.
  - rewrite list_lookup_insert_ne by (intros Hx; apply E; apply Z2Nat.inj in Hx; lia).
    destruct (Z.eqb_spec i j) as [->|]; [done|done].
Qed.
Lemma p_set_wf : WFp (p_set i p).
Proof.
  unfold p_set. destruct (p_has p i) eqn:Hb; [done|].
  assert (Hset : forall j, 0 <= j -> p_has (MkPartial (p_sub p) (p_total p) (p_have p + 1)
            (<[Z.to_nat (i / 64):=Z.lor (p_word p (i / 64)) (Z.shiftl 1 (i mod 64))]> (p_bits p))) j = (i =? j) || p_has p j).
  { intros j Hj. pose proof (p_has_set j Hj) as H. unfold p_set in H. by rewrite Hb in H. }
  split; simpl; [apply W|apply W|by rewrite length_insert, (wf_len p W)| |].
  - match goal with |- _ = count_bits ?x => set (q := x) in * end.
    enough (Hc : count_bits q = count_bits p + 1) by (rewrite Hc; f_equal; apply W).
    unfold count_bits. change (p_total q) with (p_total p).
    assert (Hl : forall n lo, 0 <= lo -> lo <= i < lo + Z.of_nat n ->
      length (filter (fun j => p_has q j = true) (seqZ lo (Z.of_nat n)))
      = S (length (filter (fun j => p_has p j = true) (seqZ lo (Z.of_nat n))))).
    { assert (Hrest : forall n lo, 0 <= lo -> i < lo \/ lo + Z.of_nat n <= i ->
        filter (fun j => p_has q j = true) (seqZ lo (Z.of_nat n)) = filter (fun j => p_has p j = true) (seqZ lo (Z.of_nat n))).
      { induction n as [|n IH]; intros lo Hlo Ho; [done|].
        rewrite seqZ_cons by lia. replace (Z.pred (Z.of_nat (S n))) with (Z.of_nat n) by lia.
        rewrite !filter_cons, IH by lia.
        assert (Eq : p_has q lo = p_has p lo) by (rewrite Hset by lia; destruct (Z.eqb_spec i lo); [lia|done]).
        by rewrite Eq. }
      induction n as [|n IH]; intros lo Hlo Ho; [lia|].
      rewrite seqZ_cons by lia. replace (Z.pred (Z.of_nat (S n))) with (Z.of_nat n) by lia.
      rewrite !filter_cons. destruct (decide (i = lo)) as [<-|Hne].
      - rewrite (Hrest n (Z.succ i)) by lia.
        assert (Eq : p_has q i = true) by (rewrite Hset by lia; by rewrite Z.eqb_refl).
        rewrite Eq, Hb. done.
      - assert (Eq : p_has q lo = p_has p lo) by (rewrite Hset by lia; destruct (Z.eqb_spec i lo); [lia|done]).
        rewrite Eq. specialize (IH (Z.succ lo)). destruct (decide (p_has p lo = true)); simpl; rewrite IH by lia; done. }
    specialize (Hl (Z.to_nat (p_total p)) 0). rewrite Z2Nat.id in Hl by apply W. rewrite Hl by lia. lia.
  - apply Forall_insert; [apply W|].
    assert (Hw : 0 <= p_word p (i / 64) < 2 ^ 64).
    { unfold p_word. rewrite nth_lookup. destruct (p_bits p !! Z.to_nat (i / 64)) as [w|] eqn:Hwd; simpl; [|lia].
      exact (Forall_lookup_1 _ _ _ _ (wf_words p W) Hwd). }
    assert (Hm : 0 <= i mod 64 < 64) by (apply Z.mod_pos_bound; lia).
    assert (Hsh : Z.shiftl 1 (i mod 64) = 2 ^ (i mod 64)) by (rewrite Z.shiftl_mul_pow2; lia).
    assert (0 <= Z.lor (p_word p (i / 64)) (Z.shiftl 1 (i mod 64))) by (apply Z.lor_nonneg; lia).
    split; [done|]. destruct (Z.eq_dec (Z.lor (p_word p (i / 64)) (Z.shiftl 1 (i mod 64))) 0) as [->|Hnz]; [lia|].
    apply Z.log2_lt_pow2; [lia|]. rewrite Z.log2_lor by lia. apply Z.max_lub_lt.
    + destruct (Z.eq_dec (p_word p (i / 64)) 0) as [->|]; [simpl; lia|]. apply Z.log2_lt_pow2; lia.
    + rewrite Hsh, Z.log2_pow2; lia.
Qed.
End Set_.

Lemma p_set_sub i p : p_sub (p_set i p) = p_sub p.
Proof. unfold p_set. by destruct (p_has p i). Qed.
Lemma p_set_total i p : p_total (p_set i p) = p_total p.
Proof. unfold p_set. by destruct (p_has p i). Qed.

(** ** Decimal numbers *)

#[local] Notation str_app_assoc := Filepath.str_app_assoc.
Lemma app_cons c a b : String c a +:+ b = String c (a +:+ b).
Proof. done. Qed.
Lemma app_nil b : "" +:+ b = b.
Proof. done. Qed.
Fixpoint all_chars (f : ascii -> bool) (s : string) : bool :=
  match s with EmptyString => true | String c s' => f c && all_chars f s' end.
Lemma all_chars_app f a b : all_chars f (a +:+ b) = all_chars f a && all_chars f b.
Proof. induction a; [done|]. rewrite app_cons. simpl. by rewrite IHa, andb_assoc. Qed.
Lemma span_app f a b :
  all_chars f a = true -> match b with EmptyString => True | String c _ => f c = false end ->
  span f (a +:+ b) = (a, b).
Proof.
  intros Ha Hb. induction a as [|c a IH]; rewrite ?app_nil, ?app_cons; simpl in *.
  - destruct b as [|c b]; simpl; [done|by rewrite Hb].
  - apply andb_prop in Ha as [-> Ha]. by rewrite (IH Ha).
Qed.

Lemma digit_char n : (n < 10)%N ->
  is_digit (pretty_N_char n) = true /\ code (pretty_N_char n) - 48 = Z.of_N n.
Proof.
  intros Hn. assert (H : n ∈ [0;1;2;3;4;5;6;7;8;9]%N) by (rewrite !elem_of_cons; lia).
  rewrite !elem_of_cons in H.
  do 10 (destruct H as [->|H]; [split; reflexivity|]). by apply elem_of_nil in H.
Qed.
Lemma pretty_N_go_spec x : forall s,
  all_chars is_digit s = true ->
  all_chars is_digit (pretty_N_go x s) = true /\ digits_value 0 (pretty_N_go x s) = digits_value (Z.of_N x) s.
Proof.
  induction (N.lt_wf_0 x) as [x _ IH]. intros s Hs.
  destruct (decide (0 < x)%N) as [Hx|Hx].
  - rewrite pretty_N_go_step by done.
    pose proof (N.mod_lt x 10 ltac:(lia)) as Hm. destruct (digit_char (x mod 10) Hm) as [Hd Hc].
    destruct (IH (x / 10)%N) with (s := String (pretty_N_char (x mod 10)) s) as [H1 H2].
    { apply N.div_lt; lia. } { simpl. by rewrite Hd. }
    split; [done|]. rewrite H2. cbn [digits_value]. f_equal. rewrite Hc.
    rewrite N2Z.inj_div, N2Z.inj_mod. pose proof (Z.div_mod (Z.of_N x) 10). simpl Z.of_N in *. lia.
  - assert (x = 0%N) as -> by lia. by rewrite pretty_N_go_0.
Qed.
Lemma pretty_Z_spec z : 0 <= z ->
  all_chars is_digit (pretty z) = true /\ digits_value 0 (pretty z) = z /\ pretty z <> "".
Proof.
  intros Hz. destruct z as [|p|p]; [by vm_compute| |lia].
  change (pretty (Z.pos p)) with (pretty_N_go (N.pos p) "").
  destruct (pretty_N_go_spec (N.pos p) "" eq_refl) as [H1 H2]. split; [done|]. split; [done|].
  intros H. rewrite H in H2. simpl in H2. lia.
Qed.
Lemma take_sign_digits a b : all_chars is_digit a = true -> a <> "" -> take_sign (a +:+ b) = (false, a +:+ b).
Proof.
  intros Ha Hn. destruct a as [|c a]; [done|]. rewrite app_cons. simpl in Ha. apply andb_prop in Ha as [Hc _].
  unfold is_digit in Hc. destruct c as [[] [] [] [] [] [] [] []]; try done.
Qed.
Lemma skip_digits a b : all_chars is_digit a = true -> a <> "" -> skip_space (a +:+ b) = a +:+ b.
Proof.
  intros Ha Hn. destruct a as [|c a]; [done|]. rewrite app_cons. simpl in Ha. apply andb_prop in Ha as [Hc _].
  unfold skip_space. simpl. assert (Hb : is_blank c = false).
  { unfold is_blank, is_space, is_digit in *. destruct c as [[] [] [] [] [] [] [] []]; try done. }
  by rewrite Hb.
Qed.
Definition fits64 (z : Z) : Prop := 0 <= z <= MaxInt64.
Lemma in_int64_pretty z : fits64 z -> in_int64 false (pretty z) = Some z.
Proof.
  intros [H1 H2]. destruct (pretty_Z_spec z H1) as (_ & Hv & Hn). unfold in_int64. rewrite Hv.
  destruct (String.eqb_spec (pretty z) ""); [done|].
  assert (Hlo : (MinInt64 <=? z) = true) by (unfold MinInt64; lia).
  assert (Hhi : (z <=? MaxInt64) = true) by lia. by rewrite Hlo, Hhi.
Qed.
Lemma scan_int_pretty z c rest : fits64 z -> is_digit c = false ->
  scan_int (pretty z +:+ String c rest) = Some (z, String c rest).
Proof.
  intros Hz Hc. destruct (pretty_Z_spec z (proj1 Hz)) as (Ha & _ & Hn). unfold scan_int.
  rewrite skip_digits, take_sign_digits by done. rewrite span_app by done. by rewrite in_int64_pretty.
Qed.
Lemma ParseInt_decimal z : fits64 z -> ParseInt (pretty z) = Some z.
Proof.
  intros Hz. destruct (pretty_Z_spec z (proj1 Hz)) as (Ha & _ & Hn). unfold ParseInt.
  rewrite <- (str_app_nil_r (pretty z)) at 1. rewrite take_sign_digits by done. rewrite span_app by done. simpl. by apply in_int64_pretty.
Qed.

(** ** The text of a bitmap *)

Lemma hex_digit_value n : 0 <= n < 16 ->
  hex_value (hex_digit n) = Some n /\ is_space (hex_digit n) = false /\ hex_char (hex_digit n) = true.
Proof.
  intros Hn. assert (H : n ∈ seqZ 0 16) by (apply elem_of_seqZ; lia). revert H.
  change (seqZ 0 16) with [0;1;2;3;4;5;6;7;8;9;10;11;12;13;14;15]. rewrite !elem_of_cons. intros H.
  do 16 (destruct H as [->|H]; [split_and!; reflexivity|]). by apply elem_of_nil in H.
Qed.
Definition is_byte (b : Z) : Prop := 0 <= b < 256.
Lemma hex_roundtrip l : Forall is_byte l -> hex_decode (hex_encode l) = Some l.
Proof.
  induction 1 as [|b l Hb Hl IH]; [done|]. cbn [hex_encode foldr hex_byte hex_decode].
  assert (H1 : 0 <= b / 16 < 16) by (unfold is_byte in Hb; split; [apply Z.div_pos|apply Z.div_lt_upper_bound]; lia).
  assert (H2 : 0 <= b mod 16 < 16) by (apply Z.mod_pos_bound; lia).
  rewrite (proj1 (hex_digit_value _ H1)), (proj1 (hex_digit_value _ H2)). fold (hex_encode l). rewrite IH.
  f_equal. f_equal. symmetry. apply Z.div_mod. lia.
Qed.
Lemma hex_no_space l : Forall is_byte l -> all_chars (fun c => negb (is_space c)) (hex_encode l) = true.
Proof.
  induction 1 as [|b l Hb Hl IH]; [done|]. cbn [hex_encode foldr hex_byte all_chars].
  assert (H1 : 0 <= b / 16 < 16) by (unfold is_byte in Hb; split; [apply Z.div_pos|apply Z.div_lt_upper_bound]; lia).
  assert (H2 : 0 <= b mod 16 < 16) by (apply Z.mod_pos_bound; lia).
  destruct (hex_digit_value _ H1) as (_ & -> & _). destruct (hex_digit_value _ H2) as (_ & -> & _). done.
Qed.

Lemma le_bytes_bytes w : Forall is_byte (le_bytes w).
Proof.
  unfold le_bytes. apply Forall_forall. intros b Hb. apply list_elem_of_fmap in Hb as (k & -> & _).
  change 255 with (Z.ones 8). rewrite Z.land_ones by lia. apply Z.mod_pos_bound. lia.
Qed.

(** The eight bytes of a word, put back where they were, are the word. *)
Definition byte_of (w k : Z) : Z := Z.shiftl (Z.land (Z.shiftr w (8 * k)) 255) (8 * k).
Lemma byte_of_bit w k n : 0 <= k -> 0 <= n ->
  Z.testbit (byte_of w k) n = Z.testbit w n && ((8 * k <=? n) && (n <? 8 * k + 8)).
Proof.
  intros Hk Hn. unfold byte_of. change 255 with (Z.ones 8).
  destruct (Z.leb_spec (8 * k) n) as [Hle|Hlt].
  - rewrite Z.shiftl_spec, Z.land_spec, Z.shiftr_spec, Z.testbit_ones_nonneg by lia.
    replace (n - 8 * k + 8 * k) with n by lia. f_equal. simpl.
    destruct (Z.ltb_spec (n - 8 * k) 8), (Z.ltb_spec n (8 * k + 8)); lia.
  - rewrite Z.shiftl_spec_low by lia. by rewrite andb_false_r.
Qed.
Lemma word_of_bytes w : 0 <= w < 2 ^ 64 ->
  foldl Z.lor 0 (map (byte_of w) (seqZ 0 8)) = w.
Proof.
  intros Hw. change (seqZ 0 8) with [0;1;2;3;4;5;6;7]. cbn [map foldl].
  apply Z.bits_inj'. intros n Hn. rewrite !Z.lor_spec, Z.testbit_0_l, !byte_of_bit by lia. rewrite orb_false_l.
  destruct (Z.testbit w n) eqn:Hb; [|done]. rewrite !andb_true_l.
  assert (n < 64).
  { destruct (Z.lt_ge_cases n 64) as [|Hge]; [done|]. exfalso.
    rewrite <- (Z.mod_small w (2 ^ 64)) in Hb by done. by rewrite Z.mod_pow2_bits_high in Hb by lia. }
  assert (Hin : n ∈ seqZ 0 64) by (apply elem_of_seqZ; lia). revert Hin.
  let l := eval vm_compute in (seqZ 0 64) in change (seqZ 0 64) with l. rewrite !elem_of_cons. intros Hin.
  clear -Hin. repeat (destruct Hin as [->|Hin]; [reflexivity|]). by apply elem_of_nil in Hin.
Qed.

Lemma unpack_skip i j b l bits : 0 <= i -> i / 8 = j -> j < Z.of_nat (length bits) ->
  unpack_loop i (b :: l) bits =
  unpack_loop (i + 1) l (<[Z.to_nat j := Z.lor (nth (Z.to_nat j) bits 0) (Z.shiftl b (8 * (i mod 8)))]> bits).
Proof.
  intros Hi <- Hj. cbn [unpack_loop]. destruct (Z.leb_spec (Z.of_nat (length bits)) (i / 8)); [lia|done].
Qed.
Lemma unpack_word j w raw bits : 0 <= j < Z.of_nat (length bits) -> nth (Z.to_nat j) bits 0 = 0 -> 0 <= w < 2 ^ 64 ->
  unpack_loop (8 * j) (le_bytes w ++ raw) bits = unpack_loop (8 * (j + 1)) raw (<[Z.to_nat j := w]> bits).
Proof.
  intros Hj Hz Hw.
  assert (Hstep : forall ks k acc, k + Z.of_nat (length ks) = 8 -> ks = seqZ k (8 - k) -> 0 <= k ->
    unpack_loop (8 * j + k) (map (fun k => Z.land (Z.shiftr w (8 * k)) 255) ks ++ raw) (<[Z.to_nat j := acc]> bits)
    = unpack_loop (8 * (j + 1)) raw (<[Z.to_nat j := foldl Z.lor acc (map (byte_of w) ks)]> bits)).
  { induction ks as [|x ks IH]; intros k acc Hl Hks Hk; simpl in Hl.
    - cbn. f_equal. lia.
    - rewrite seqZ_cons in Hks by lia. injection Hks as -> Hks.
      cbn [map app]. rewrite (unpack_skip _ j).
      + rewrite nth_lookup, list_lookup_insert_eq by (rewrite ?length_insert; lia). simpl default.
        rewrite list_insert_insert_eq.
        replace (8 * j + k + 1) with (8 * j + Z.succ k) by lia.
        rewrite (IH (Z.succ k)); [|lia| |lia].
        * cbn [foldl map]. do 3 f_equal. unfold byte_of. f_equal. f_equal. f_equal.
          rewrite Z.add_comm, (Z.mul_comm 8 j), Z.mod_add by lia. apply Z.mod_small. lia.
        * rewrite Hks. f_equal. lia.
      + lia.
      + rewrite Z.add_comm, (Z.mul_comm 8 j), Z.div_add by lia. rewrite Z.div_small by lia. lia.
      + rewrite length_insert. lia. }
  specialize (Hstep (seqZ 0 8) 0 0). rewrite Z.add_0_r in Hstep.
  unfold le_bytes. rewrite <- (list_insert_id bits (Z.to_nat j) 0) at 1.
  - rewrite Hstep by done. by rewrite word_of_bytes.
  - destruct (bits !! Z.to_nat j) as [x|] eqn:Hx.
    + rewrite nth_lookup, Hx in Hz. simpl in Hz. by subst.
    + apply lookup_ge_None in Hx. lia.
Qed.
Lemma unpack_words ws : forall pre, Forall (fun w => 0 <= w < 2 ^ 64) ws ->
  unpack_loop (8 * Z.of_nat (length pre)) (mjoin (map le_bytes ws)) (pre ++ replicate (length ws) 0) = pre ++ ws.
Proof.
  induction ws as [|w ws IH]; intros pre Hws; [cbn; by rewrite !app_nil_r|].
  apply Forall_cons in Hws as [Hw Hws]. cbn [map mjoin list_join].
  change (mjoin (le_bytes w :: map le_bytes ws)) with (le_bytes w ++ mjoin (map le_bytes ws)).
  rewrite unpack_word.
  - rewrite Nat2Z.id. cbn [length replicate]. rewrite insert_app_r_alt, Nat.sub_diag by done. cbn [insert list_insert].
    replace (8 * (Z.of_nat (length pre) + 1)) with (8 * Z.of_nat (length (pre ++ [w]))) by (rewrite length_app; simpl; lia).
    change (pre ++ w :: replicate (length ws) 0) with (pre ++ [w] ++ replicate (length ws) 0).
    rewrite app_assoc, IH by done. by rewrite <- app_assoc.
  - rewrite length_app, length_replicate. simpl. lia.
  - rewrite Nat2Z.id, nth_lookup, lookup_app_r, Nat.sub_diag by done. done.
  - done.
Qed.

(** Trimming a text that begins with a letter and ends with a new line. *)
Lemma TrimRight_newline a : TrimRight (a +:+ newline) = TrimRight a.
Proof.
  induction a as [|c a IH]; [reflexivity|]. rewrite app_cons. cbn [TrimRight]. by rewrite IH.
Qed.
Lemma TrimRight_solid b : all_chars (fun c => negb (is_space c)) b = true -> TrimRight b = b.
Proof.
  induction b as [|c b IH]; [done|]. cbn [all_chars TrimRight]. intros [Hc Hb]%andb_prop.
  rewrite (IH Hb). apply negb_true_iff in Hc. by rewrite Hc.
Qed.
Lemma TrimRight_app a b : all_chars (fun c => negb (is_space c)) b = true -> b <> "" -> TrimRight (a +:+ b) = a +:+ b.
Proof.
  intros Hb Hn. induction a as [|c a IH]; [by apply TrimRight_solid|].
  rewrite app_cons. cbn [TrimRight]. rewrite IH.
  destruct (String.eqb_spec (a +:+ b) "") as [He|]; [|by rewrite andb_false_r].
  exfalso. destruct a; [done|discriminate He].
Qed.
Lemma TrimSpace_line c a b :
  is_space c = false -> all_chars (fun c => negb (is_space c)) b = true -> b <> "" ->
  TrimSpace (String c (a +:+ b +:+ newline)) = String c (a +:+ b).
Proof.
  intros Hc Hb Hn. unfold TrimSpace. cbn [span]. rewrite Hc. cbn [snd].
  rewrite <- str_app_assoc, <- app_cons, TrimRight_newline, <- app_cons. by apply TrimRight_app.
Qed.
Lemma scan_lit_app l s : scan_lit l (l +:+ s) = Some s.
Proof. induction l as [|c l IH]; [done|]. rewrite app_cons. cbn [scan_lit]. by rewrite Ascii.eqb_refl. Qed.
Lemma scan_str_solid b : all_chars (fun c => negb (is_space c)) b = true -> b <> "" -> scan_str b = Some (b, "").
Proof.
  intros Hb Hn. unfold scan_str.
  assert (Hs : skip_space b = b).
  { destruct b as [|c b]; [done|]. simpl in Hb. apply andb_prop in Hb as [Hc _]. apply negb_true_iff in Hc.
    unfold skip_space, is_blank. simpl. by rewrite Hc. }
  rewrite Hs, <- (str_app_nil_r b) at 1. rewrite span_app by done.
  by destruct (String.eqb_spec b "").
Qed.

Lemma packed_solid p : 0 < p_total p -> WFp p ->
  all_chars (fun c => negb (is_space c)) (packed p) = true /\ packed p <> ""
  /\ hex_decode (packed p) = Some (mjoin (map le_bytes (p_bits p))).
Proof.
  intros Ht W. assert (Hb : Forall is_byte (mjoin (map le_bytes (p_bits p)))).
  { apply Forall_forall. intros b (l & Hl & Hbl)%list_elem_of_join. apply list_elem_of_fmap in Hbl as (w & -> & _).
    pose proof (le_bytes_bytes w) as Hw. rewrite Forall_forall in Hw. by apply Hw. }
  unfold packed. split_and!; [by apply hex_no_space| |by apply hex_roundtrip].
  destruct (p_bits p) as [|w ws] eqn:Hbits.
  - exfalso. pose proof (wf_len p W) as Hl. rewrite Hbits in Hl. simpl in Hl.
    assert (0 < (p_total p + 63) / 64) by (apply Z.div_str_pos; lia). lia.
  - discriminate.
Qed.
Lemma unpackBits_packed p : 0 < p_total p -> WFp p ->
  unpackBits (newPartialTotal (p_sub p) (p_total p)) (packed p) = Some p.
Proof.
  intros Ht W. unfold unpackBits. rewrite (proj2 (proj2 (packed_solid p Ht W))).
  cbn [newPartialTotal p_sub p_total p_bits].
  pose proof (unpack_words (p_bits p) [] (wf_words p W)) as Hu. simpl in Hu. change (8 * Z.of_nat 0) with 0 in Hu. rewrite (wf_len p W) in Hu. rewrite Hu.
  do 2 f_equal. destruct p as [su to ha bi]. simpl in *. f_equal. symmetry. apply W.
Qed.

(** The sizes a bitmap can be persisted with. *)
Definition persistable (p : partial) : Prop :=
  WFp p /\ 0 < p_total p /\ fits64 (p_sub p) /\ fits64 (p_total p).
Lemma decode_encode p : persistable p -> decodePartial (encode p) = Some p.
Proof.
  intros (W & Ht & Hs & Htt). destruct (packed_solid p Ht W) as (Hb & Hn & _).
  unfold decodePartial, encode.
  change ("sub=" +:+ pretty (p_sub p) +:+ " total=" +:+ pretty (p_total p) +:+ " bits=" +:+ packed p +:+ newline)
    with (String "s" ("ub=" +:+ pretty (p_sub p) +:+ " total=" +:+ pretty (p_total p) +:+ " bits=" +:+ packed p +:+ newline)).
  assert (E : "ub=" +:+ pretty (p_sub p) +:+ " total=" +:+ pretty (p_total p) +:+ " bits=" +:+ packed p +:+ newline
    = ("ub=" +:+ pretty (p_sub p) +:+ " total=" +:+ pretty (p_total p) +:+ " bits=") +:+ packed p +:+ newline)
    by (by rewrite !str_app_assoc).
  rewrite E, TrimSpace_line by done. rewrite !str_app_assoc.
  change (String "s" ("ub=" +:+ ?x)) with ("sub=" +:+ x).
  rewrite (scan_lit_app "sub="). cbn [mbind option_bind].
  change (" total=" +:+ ?x) with (String " " ("total=" +:+ x)). rewrite scan_int_pretty by done. cbn [mbind option_bind].
  change (scan_space (String " " ("total=" +:+ ?x))) with (Some ("total=" +:+ x)). cbn [mbind option_bind].
  rewrite (scan_lit_app "total="). cbn [mbind option_bind].
  change (" bits=" +:+ ?x) with (String " " ("bits=" +:+ x)). rewrite scan_int_pretty by done. cbn [mbind option_bind].
  change (scan_space (String " " ("bits=" +:+ ?x))) with (Some ("bits=" +:+ x)). cbn [mbind option_bind].
  rewrite (scan_lit_app "bits="). cbn [mbind option_bind].
  rewrite scan_str_solid by done. cbn [mbind option_bind].
  assert (H1 : (p_sub p <=? 0) = false) by (pose proof (wf_sub p W); lia).
  assert (H2 : (p_total p <=? 0) = false) by lia. rewrite H1, H2. by apply unpackBits_packed.
Qed.
Lemma decode_encode_part p size : persistable p -> fits64 size -> p_total p = (size + p_sub p - 1) / p_sub p ->
  0 < size -> decodePartBitmap (encodePartBitmap size p) (p_sub p) = Some (p, size).
Proof.
  intros (W & Ht & Hs & Htt) Hz Htot Hpos. destruct (packed_solid p Ht W) as (Hb & Hn & _).
  unfold decodePartBitmap, encodePartBitmap.
  change ("part=" +:+ ?x) with (String "p" ("art=" +:+ x)).
  assert (E : forall a b c d e f g : string, "art=" +:+ a +:+ b +:+ c +:+ d +:+ e +:+ f +:+ g +:+ newline
    = ("art=" +:+ a +:+ b +:+ c +:+ d +:+ e +:+ f) +:+ g +:+ newline) by (intros; by rewrite !str_app_assoc).
  rewrite E, TrimSpace_line by done. rewrite !str_app_assoc.
  change (String "p" ("art=" +:+ ?x)) with ("part=" +:+ x).
  rewrite (scan_lit_app "part="). cbn [mbind option_bind].
  change (" block=" +:+ ?x) with (String " " ("block=" +:+ x)).
  rewrite scan_int_pretty by (by vm_compute || done). cbn [mbind option_bind].
  change (scan_space (String " " ("block=" +:+ ?x))) with (Some ("block=" +:+ x)). cbn [mbind option_bind].
  rewrite (scan_lit_app "block="). cbn [mbind option_bind].
  change (" size=" +:+ ?x) with (String " " ("size=" +:+ x)). rewrite scan_int_pretty by done. cbn [mbind option_bind].
  change (scan_space (String " " ("size=" +:+ ?x))) with (Some ("size=" +:+ x)). cbn [mbind option_bind].
  rewrite (scan_lit_app "size="). cbn [mbind option_bind].
  change (" bits=" +:+ ?x) with (String " " ("bits=" +:+ x)). rewrite scan_int_pretty by done. cbn [mbind option_bind].
  change (scan_space (String " " ("bits=" +:+ ?x))) with (Some ("bits=" +:+ x)). cbn [mbind option_bind].
  rewrite (scan_lit_app "bits="). cbn [mbind option_bind].
  rewrite scan_str_solid by done. cbn [mbind option_bind]. rewrite Z.eqb_refl, Z.eqb_refl.
  assert (H1 : (p_sub p <=? 0) = false) by (pose proof (wf_sub p W); lia).
  assert (H2 : (size <=? 0) = false) by lia. rewrite H1, H2. cbn [negb orb].
  rewrite <- Htot, unpackBits_packed by done. done.
Qed.

(** The name of a block leads back to it. *)
Lemma cut_last_dash_name fh t :
  all_chars (fun c => negb (Ascii.eqb c "-"%char)) t = true ->
  cut_last_dash (fh +:+ String "-" t) = Some (fh, t).
Proof.
  intros Ht.
  assert (Hno : cut_last_dash t = None).
  { induction t as [|c t IH]; [done|]. cbn [all_chars] in Ht. apply andb_prop in Ht as [Hc Ht].
    cbn [cut_last_dash]. rewrite (IH Ht). apply negb_true_iff in Hc. by rewrite Hc. }
  induction fh as [|c fh IH].
  - rewrite app_nil. cbn [cut_last_dash]. by rewrite Hno.
  - rewrite app_cons. cbn [cut_last_dash]. by rewrite IH.
Qed.
Lemma parse_blockName fh idx : validFileHash fh = true -> fits64 idx ->
  parseBlockName (blockName fh idx) = Some (fh, idx).
Proof.
  intros Hfh Hi. unfold parseBlockName, blockName.
  change ("-" +:+ pretty idx) with (String "-" (pretty idx)).
  destruct (pretty_Z_spec idx (proj1 Hi)) as (Hd & _ & Hn). rewrite cut_last_dash_name.
  - pose proof Hfh as Hv. unfold validFileHash in Hv. apply andb_prop in Hv as [-> _]. rewrite Hfh, ParseInt_decimal by done.
    destruct (String.eqb_spec (pretty idx) ""); [done|]. simpl. assert (H0 : (idx <? 0) = false) by (destruct Hi; lia).
    by rewrite H0.
  - clear -Hd. induction (pretty idx) as [|c s IH]; [done|]. cbn [all_chars] in *. apply andb_prop in Hd as [Hc Hs].
    rewrite (IH Hs), andb_true_r. by destruct c as [[] [] [] [] [] [] [] []].
Qed.
