(* ===== verification/CacheState.v ===== *)
(** * The state of the read cache (internal/cache/blockcache.go, whole.go, sparse.go, subblock.go, temps.go)

    The index in memory, the directory it describes, and the system calls that
    change the directory.  A pointer the code compares ([cur != m],
    [c.files[fh] != fs], [c.parts[fh] == p]) is a number drawn when the object is
    made.  A system call may fail: [io_fault n] and [rm_fault n] are an arbitrary
    schedule of failures, so every theorem holds for every one.  Go's order of
    iteration over a map is a parameter too, of which only the documented part is
    known: every entry comes once.  Then the geometry of blocks, and the helpers
    that run with the cache's lock held. *)
From stdpp Require Import countable.
From S2P Require Import Prelude CacheBits.
Open Scope Z_scope.

(** ** Keys, options, errors *)

Record FileKey := MkKey { Remote : string; RemoteID : string; Version : string }.
#[export] Instance FileKey_eq_dec : EqDecision FileKey.
Proof. solve_decision. Defined.
Definition noKey : FileKey := MkKey "" "" "".

(** FileKey.String. *)
Definition keyString (k : FileKey) : string := Remote k +:+ "/" +:+ RemoteID k +:+ "@" +:+ Version k.
Definition nul : string := String (Ascii.ascii_of_nat 0) "".

Class Options := MkOptions {
  Dir : string; BlockSize : Z; SubBlockSize : Z; MaxBytes : Z; MaxBlocks : Z; MaxAge : Z;
  MinFree : Z; WholeLayoutMin : Z; WriteBehind : Z
}.

Inductive cerr := ErrNoSpace | ErrNotExist | ErrIO | ErrClosed | ErrSuperseded | ErrFreeSpace | EMsg (text : string).

Definition Second : Z := 1000000000.

(** ** The directory *)

(** What a name under the cache directory is; a temporary of [WriteFile] is the
    name with ".tmp" after it, [CreateTemp] draws a fresh one. *)
Inductive pkind := KBlock | KSidecar | KKey | KHydrated | KPart | KBitmap
  | KBlockTmp | KSidecarTmp | KKeyTmp | KBitmapTmp | KScratch | KOutside.
#[export] Instance pkind_eq_dec : EqDecision pkind.
Proof. solve_decision. Defined.
Definition pkind_code (k : pkind) : nat :=
  match k with KBlock => 0 | KSidecar => 1 | KKey => 2 | KHydrated => 3 | KPart => 4 | KBitmap => 5
  | KBlockTmp => 6 | KSidecarTmp => 7 | KKeyTmp => 8 | KBitmapTmp => 9 | KScratch => 10 | KOutside => 11 end.
Definition pkind_of (n : nat) : option pkind :=
  nth_error [KBlock; KSidecar; KKey; KHydrated; KPart; KBitmap; KBlockTmp; KSidecarTmp; KKeyTmp; KBitmapTmp;
             KScratch; KOutside] n.
#[export] Instance pkind_countable : Countable pkind.
Proof. apply (inj_countable pkind_code pkind_of). by intros []. Defined.

Definition cpath : Type := pkind * string * Z.
Definition blockPath (fh : string) (idx : Z) : cpath := (KBlock, fh, idx).
Definition sidecarPath (fh : string) (idx : Z) : cpath := (KSidecar, fh, idx).
Definition keyPath (fh : string) : cpath := (KKey, fh, 0).
Definition hydratedPath (fh : string) : cpath := (KHydrated, fh, 0).
Definition partPath (fh : string) : cpath := (KPart, fh, 0).
Definition partBitmapPath (fh : string) : cpath := (KBitmap, fh, 0).
Definition tmpOf (p : cpath) : cpath :=
  match p with
  | (KBlock, f, i) => (KBlockTmp, f, i) | (KSidecar, f, i) => (KSidecarTmp, f, i)
  | (KKey, f, i) => (KKeyTmp, f, i) | (KBitmap, f, i) => (KBitmapTmp, f, i)
  | (KScratch, f, i) => (KScratch, f, i) | (KHydrated, f, i) => (KScratch, f, i)
  | (_, f, i) => (KScratch, f, i)
  end.

(** A regular file: its bytes (a hole is zeros) and its modification time. *)
Record node := MkNode { n_data : list Z; n_mtime : Z }.
(** Names of data files (several may be links to one file), the small text
    files of claims and keys, and the next inode number. *)
Record disk := MkDisk { names : gmap cpath Z; nodes : gmap Z node; texts : gmap cpath string; next_ino : Z }.
#[export] Instance disk_eta : Settable disk := fun d => MkDisk (names d) (nodes d) (texts d) (next_ino d).

(** ** The index *)

Definition blockID : Type := string * Z.

Record blockMeta := MkMeta {
  bm_ptr : Z;
  subs : gmap Z (list Z); subQueued : bool;
  mem : option (list Z); flushing : bool;
  bm_f : option Z;                       (* the descriptor kept open, by inode *)
  sidecarHave : Z; sidecarAt : Z; sidecarOn : bool;
  bm_size : Z; bm_access : Z; bm_hot : bool; bm_pinned : bool;
  bm_partial : option partial
}.
#[export] Instance blockMeta_eta : Settable blockMeta := fun m =>
  MkMeta (bm_ptr m) (subs m) (subQueued m) (mem m) (flushing m) (bm_f m) (sidecarHave m) (sidecarAt m)
    (sidecarOn m) (bm_size m) (bm_access m) (bm_hot m) (bm_pinned m) (bm_partial m).
(** &blockMeta{size, lastAccess}. *)
Definition newMeta (ptr size now : Z) : blockMeta :=
  MkMeta ptr ∅ false None false None 0 0 false size now false false None.

Record fileState := MkFile {
  fs_ptr : Z; fs_key : FileKey; keyWritten : bool; fs_size : Z; present : gset Z;
  hydrated : bool; pinned : bool; userPinned : bool;
  whole : option Z;                      (* the complete file, by inode *)
  fs_part : option Z;                    (* the sparse file, by pointer *)
  busy : Z; generation : Z
}.
#[export] Instance fileState_eta : Settable fileState := fun f =>
  MkFile (fs_ptr f) (fs_key f) (keyWritten f) (fs_size f) (present f) (hydrated f) (pinned f) (userPinned f)
    (whole f) (fs_part f) (busy f) (generation f).
Definition newFile (ptr : Z) (k : FileKey) : fileState :=
  MkFile ptr k false 0 ∅ false false false None None 0 0.

(** wholeObject, keyed by its disk identity; [refs] are the hashes of the
    files whose hydrated name is a link to it. *)
Record wholeObject := MkObj { o_size : Z; refs : gset string; readers : Z; o_access : Z; o_hot : bool }.
#[export] Instance wholeObject_eta : Settable wholeObject := fun o =>
  MkObj (o_size o) (refs o) (readers o) (o_access o) (o_hot o).

Record wholePart := MkPart {
  wp_ptr : Z; wp_size : Z; wp_bits : partial; wp_bytes : Z; wp_f : option Z;
  claimed : Z; claimedAt : Z; wp_access : Z; wp_hot : bool
}.
#[export] Instance wholePart_eta : Settable wholePart := fun p =>
  MkPart (wp_ptr p) (wp_size p) (wp_bits p) (wp_bytes p) (wp_f p) (claimed p) (claimedAt p) (wp_access p) (wp_hot p).

(** Cache, with the clock, the pointers drawn so far, the number of system
    calls made, the directory, and the flushes whose block was replaced under
    them ([flushDetached]). *)
Record cache := MkCache {
  hydrateWant : gmap string FileKey; lagging : Z;
  wb_queue : option (list blockID); wb_pending : Z; wb_closed : bool;
  openPartials : Z; lastExpire : Z; lastFreeCheck : Z; bytesAtFreeCheck : Z;
  blocks : gmap blockID blockMeta; bytes : Z; files : gmap string fileState;
  hits : Z; misses : Z; evictions : Z;
  objects : gmap Z wholeObject; wholeBytes : Z;
  parts : gmap string wholePart; partBytes : Z;
  reservedBytes : Z; writeReserved : Z; detachedFlushBytes : Z; detachedFlushEntries : Z; reservedEntries : Z;
  orphanTemps : gmap cpath Z; orphanBytes : Z;
  detached : gset Z; now : Z; next_ptr : Z; ticks : Z; dsk : disk
}.
#[export] Instance cache_eta : Settable cache := fun c =>
  MkCache (hydrateWant c) (lagging c) (wb_queue c) (wb_pending c) (wb_closed c) (openPartials c) (lastExpire c)
    (lastFreeCheck c) (bytesAtFreeCheck c) (blocks c) (bytes c) (files c) (hits c) (misses c) (evictions c)
    (objects c) (wholeBytes c) (parts c) (partBytes c) (reservedBytes c) (writeReserved c) (detachedFlushBytes c)
    (detachedFlushEntries c) (reservedEntries c) (orphanTemps c) (orphanBytes c) (detached c) (now c) (next_ptr c)
    (ticks c) (dsk c).

(** The maps a new cache starts from, over a directory. *)
Definition emptyCache (d : disk) (t : Z) : cache :=
  MkCache ∅ 0 None 0 false 0 0 0 0 ∅ 0 ∅ 0 0 0 ∅ 0 ∅ 0 0 0 0 0 0 ∅ 0 ∅ t 0 0 d.

(** What lies outside the repository. *)
Class CacheEnv := {
  sha256_16 : string -> string;          (* hex of the first 16 bytes of SHA-256 *)
  io_fault : Z -> option Z;              (* the n-th call fails, after so many bytes *)
  rm_fault : Z -> bool;                  (* the n-th call, an unlink or the lstat before it, fails *)
  link_ok : Z -> bool;                   (* link(2): same file system, allowed *)
  statfs : Z -> string -> disk -> option Z;
  busyFn : Z -> bool;                    (* the foreground waits for IO *)
  ord_blocks : Z -> list blockID -> list blockID;
  ord_objects : Z -> list Z -> list Z;
  ord_names : Z -> list string -> list string;
  ord_paths : Z -> list cpath -> list cpath;
  ord_blocks_perm : forall n l, ord_blocks n l ≡ₚ l;
  ord_objects_perm : forall n l, ord_objects n l ≡ₚ l;
  ord_names_perm : forall n l, ord_names n l ≡ₚ l;
  ord_paths_perm : forall n l, ord_paths n l ≡ₚ l
}.

Definition zlen {A} (l : list A) : Z := Z.of_nat (length l).

(** ** The monad of the component *)

Definition CM (A : Type) : Type := cache -> A * cache.
Definition cret {A} (a : A) : CM A := fun s => (a, s).
Definition cbind {A B} (m : CM A) (k : A -> CM B) : CM B := fun s => let '(a, s') := m s in k a s'.
Definition cthen {A B} (m : CM A) (k : CM B) : CM B := fun s => k (snd (m s)).
Definition cget {A} (f : cache -> A) : CM A := fun s => (f s, s).
Definition cmod (f : cache -> cache) : CM unit := fun s => (tt, f s).
Notation "'let+' x ':=' m 'in' k" := (cbind m (fun x => k))
  (at level 200, x name, m at level 100, k at level 200, right associativity) : cfs_scope.
Notation "'do+' m ';' k" := (cthen m k)
  (at level 200, m at level 100, k at level 200, right associativity) : cfs_scope.
(** An early [return err]. *)
Notation "'try+' x ':=' m 'in' k" :=
  (cbind m (fun r => match r with Ok x => k | Err e => cret (Err e) end))
  (at level 200, x name, m at level 100, k at level 200, right associativity) : cfs_scope.
Fixpoint cforeach {A} (l : list A) (f : A -> CM unit) : CM unit :=
  match l with [] => cret tt | x :: l' => do+ f x; cforeach l' f end.

Section Syscalls.
Context {E : CacheEnv}.

Definition key_hash (k : FileKey) : string := sha256_16 (Remote k +:+ nul +:+ RemoteID k +:+ nul +:+ Version k).

(** The number of the system call about to be made. *)
Definition tick : CM Z := fun s => (ticks s, s <| ticks ::= Z.succ |>).
Definition new_ptr : CM Z := fun s => (next_ptr s, s <| next_ptr ::= Z.succ |>).
Definition on_disk (f : disk -> disk) : CM unit := cmod (fun s => s <| dsk ::= f |>).

Definition file_at (d : disk) (p : cpath) : option (Z * node) :=
  i ← names d !! p; n ← nodes d !! i; Some (i, n).

Inductive rmres := RmOk | RmAbsent | RmErr.
(** os.Remove. *)
Definition os_remove (p : cpath) : CM rmres :=
  let+ n := tick in
  if rm_fault n then cret RmErr
  else
    let+ d := cget dsk in
    if bool_decide (is_Some (names d !! p)) || bool_decide (is_Some (texts d !! p)) then
      do+ on_disk (fun d => d <| names ::= delete p |> <| texts ::= delete p |>);
      cret RmOk
    else cret RmAbsent.
(** The callers that ignore an unlink of nothing. *)
Definition rm_failed (r : rmres) : bool := match r with RmErr => true | _ => false end.

Definition fresh_node (p : cpath) (data : list Z) (t : Z) (d : disk) : disk :=
  d <| names ::= insert p (next_ino d) |> <| nodes ::= insert (next_ino d) (MkNode data t) |> <| next_ino ::= Z.succ |>.
(** os.WriteFile of a temporary, os.CreateTemp with its writes: a failure
    leaves what was written before it. *)
Definition os_write (p : cpath) (data : list Z) : CM (res cerr Z) :=
  let+ n := tick in
  let+ t := cget now in
  let+ i := cget (fun s => next_ino (dsk s)) in
  match io_fault n with
  | Some k => do+ on_disk (fresh_node p (take (Z.to_nat k) data) t); cret (Err ErrIO)
  | None => do+ on_disk (fresh_node p data t); cret (Ok i)
  end.
Definition os_write_text (p : cpath) (body : string) : CM (res cerr unit) :=
  let+ n := tick in
  match io_fault n with
  | Some k => do+ on_disk (fun d => d <| texts ::= insert p (String.substring 0 (Z.to_nat k) body) |>); cret (Err ErrIO)
  | None => do+ on_disk (fun d => d <| texts ::= insert p body |>); cret (Ok tt)
  end.

(** os.Rename: onto another link of the same file it does nothing. *)
Definition os_rename (src dst : cpath) : CM (res cerr unit) :=
  let+ n := tick in
  let+ d := cget dsk in
  match io_fault n, names d !! src with
  | Some _, _ => cret (Err ErrIO)
  | None, None => cret (Err ErrNotExist)
  | None, Some i =>
      if bool_decide (names d !! dst = Some i) then cret (Ok tt)
      else do+ on_disk (fun d => d <| names ::= fun m => <[dst := i]> (delete src m) |>); cret (Ok tt)
  end.
Definition os_rename_text (src dst : cpath) : CM (res cerr unit) :=
  let+ n := tick in
  let+ d := cget dsk in
  match io_fault n, texts d !! src with
  | Some _, _ => cret (Err ErrIO)
  | None, None => cret (Err ErrNotExist)
  | None, Some b => do+ on_disk (fun d => d <| texts ::= fun m => <[dst := b]> (delete src m) |>); cret (Ok tt)
  end.
(** os.Link. *)
Definition os_link (src dst : cpath) : CM bool :=
  let+ n := tick in
  let+ d := cget dsk in
  match names d !! src, names d !! dst with
  | Some i, None =>
      if link_ok n then do+ on_disk (fun d => d <| names ::= insert dst i |>); cret true else cret false
  | _, _ => cret false
  end.

(** os.Open, os.Stat, os.ReadFile. *)
Definition os_open (p : cpath) : CM (res cerr Z) :=
  let+ n := tick in
  let+ d := cget dsk in
  match io_fault n, names d !! p with
  | Some _, _ => cret (Err ErrIO)
  | None, None => cret (Err ErrNotExist)
  | None, Some i => cret (Ok i)
  end.
Record info := MkInfo { inf_id : Z; inf_size : Z; inf_mtime : Z }.
Definition info_of (i : Z) (n : node) : info := MkInfo i (zlen (n_data n)) (n_mtime n).
Definition os_stat (p : cpath) : CM (res cerr info) :=
  let+ n := tick in
  let+ d := cget dsk in
  match io_fault n, file_at d p with
  | Some _, _ => cret (Err ErrIO)
  | None, None => cret (Err ErrNotExist)
  | None, Some (i, f) => cret (Ok (info_of i f))
  end.
Definition os_read_text (p : cpath) : CM (res cerr string) :=
  let+ n := tick in
  let+ d := cget dsk in
  match io_fault n, texts d !! p with
  | Some _, _ => cret (Err ErrIO)
  | None, None => cret (Err ErrNotExist)
  | None, Some b => cret (Ok b)
  end.

(** The calls on an open descriptor. *)
Definition data_of (d : disk) (i : Z) : list Z := match nodes d !! i with Some n => n_data n | None => [] end.
Definition pread (data : list Z) (off n : Z) : list Z := take (Z.to_nat n) (drop (Z.to_nat off) data).
(** File.ReadAt; the end of the file is not an error to these callers. *)
Definition f_read_at (i off n : Z) : CM (res cerr (list Z)) :=
  let+ t := tick in
  let+ d := cget dsk in
  match io_fault t with
  | Some _ => cret (Err ErrIO)
  | None => cret (Ok (pread (data_of d i) off n))
  end.
Definition pwrite (data : list Z) (off : Z) (bs : list Z) : list Z :=
  let o := Z.to_nat off in
  take o (data ++ replicate (o - length data) 0) ++ bs ++ drop (o + length bs) data.
Definition set_data (i : Z) (data : list Z) (t : Z) (d : disk) : disk :=
  d <| nodes ::= insert i (MkNode data t) |>.
Definition f_write_at (i off : Z) (bs : list Z) : CM (res cerr unit) :=
  let+ n := tick in
  let+ t := cget now in
  let+ d := cget dsk in
  match io_fault n with
  | Some k => do+ on_disk (set_data i (pwrite (data_of d i) off (take (Z.to_nat k) bs)) t); cret (Err ErrIO)
  | None => do+ on_disk (set_data i (pwrite (data_of d i) off bs) t); cret (Ok tt)
  end.
Definition resize (data : list Z) (n : Z) : list Z :=
  take (Z.to_nat n) data ++ replicate (Z.to_nat n - length data) 0.
Definition f_truncate (i n : Z) : CM (res cerr unit) :=
  let+ t := tick in
  let+ at_ := cget now in
  let+ d := cget dsk in
  match io_fault t with
  | Some _ => cret (Err ErrIO)
  | None => do+ on_disk (set_data i (resize (data_of d i) n) at_); cret (Ok tt)
  end.
(** fsync, and any other call that only succeeds or fails. *)
Definition f_sync : CM (res cerr unit) :=
  let+ n := tick in
  match io_fault n with Some _ => cret (Err ErrIO) | None => cret (Ok tt) end.
(** open(2) with O_CREAT. *)
Definition os_create (p : cpath) : CM (res cerr Z) :=
  let+ n := tick in
  let+ t := cget now in
  let+ d := cget dsk in
  match io_fault n, names d !! p with
  | Some _, _ => cret (Err ErrIO)
  | None, Some i => cret (Ok i)
  | None, None => do+ on_disk (fresh_node p [] t); cret (Ok (next_ino d))
  end.
End Syscalls.

(** ** Geometry *)

Section Geometry.
Context {Cfg : Options}.

Definition BlockIndex (off : Z) : Z := Z.quot off BlockSize.
Definition BlockRange (idx size : Z) : Z * Z :=
  let off := idx * BlockSize in
  let n := if size <? off + BlockSize then size - off else BlockSize in
  (off, if n <? 0 then 0 else n).
Definition blockLen (idx size : Z) : Z := snd (BlockRange idx size).
Definition BlockCount (size : Z) : Z := if size <=? 0 then 0 else (size - 1) / BlockSize + 1.

Definition DefaultSubBlockSize : Z := 16384.
Definition subSize : Z :=
  let s := if SubBlockSize <=? 0 then DefaultSubBlockSize else SubBlockSize in
  if (BlockSize <? s) || negb (Z.rem BlockSize s =? 0) then BlockSize else s.
(** SubRange: [off, off+n) of a block, aligned outwards to sub-blocks. *)
Definition SubRange (off n bl : Z) : Z * Z :=
  let sub := subSize in
  let start := Z.quot off sub * sub in
  let end_ := Z.quot (off + n + sub - 1) sub * sub in
  let end_ := if bl <? end_ then bl else end_ in
  (start, end_ - start).

Definition defaultWholeLayoutMin : Z := 67108864.
Definition wholeLayout (size : Z) : bool :=
  if WholeLayoutMin <? 0 then false
  else
    let min := if WholeLayoutMin =? 0 then defaultWholeLayoutMin else WholeLayoutMin in
    (0 <? size) && (min <=? size).
Definition WholeLayoutFrom : Z :=
  if WholeLayoutMin <? 0 then 0 else if WholeLayoutMin =? 0 then defaultWholeLayoutMin else WholeLayoutMin.

Definition writeBehindMax : Z := 268435456.
Definition subBlockReserve : Z := 33554432.
Definition WriteBehindBudget : Z := if 0 <? WriteBehind then WriteBehind else writeBehindMax.
End Geometry.

Definition sidecarEvery : Z := 32.
Definition sidecarMaxLag : Z := 2 * Second.
Definition maxOpenPartials : Z := 256.
Definition partClaimEvery : Z := 8.
Definition claimDue (have claimed_ claimedAt_ now : Z) : bool :=
  (sidecarEvery <=? have - claimed_) || (sidecarMaxLag <=? now - claimedAt_).
Definition partClaimDue (have claimed_ claimedAt_ now : Z) : bool :=
  (partClaimEvery <=? have - claimed_) || (sidecarMaxLag <=? now - claimedAt_).

(** ** Entries *)

(** claimLagsLocked. *)
Definition claimLags (m : blockMeta) : bool :=
  match bm_partial m with Some p => sidecarHave m <? p_have p | None => false end.
(** hasBlock. *)
Definition hasBlock (p : wholePart) (idx : Z) : bool :=
  (0 <=? idx) && (idx <? p_total (wp_bits p)) && p_has (wp_bits p) idx.

Definition sub_bytes (m : blockMeta) : Z := map_fold (fun _ b acc => zlen b + acc) 0 (subs m).
Definition mem_bytes (m : blockMeta) : Z := match mem m with Some d => zlen d | None => 0 end.
Definition b2z (b : bool) : Z := if b then 1 else 0.

Definition upd_block (id : blockID) (f : blockMeta -> blockMeta) : cache -> cache :=
  fun s => s <| blocks ::= alter f id |>.
Definition upd_file (fh : string) (f : fileState -> fileState) : cache -> cache :=
  fun s => s <| files ::= alter f fh |>.
Definition upd_part (fh : string) (f : wholePart -> wholePart) : cache -> cache :=
  fun s => s <| parts ::= alter f fh |>.
Definition upd_object (i : Z) (f : wholeObject -> wholeObject) : cache -> cache :=
  fun s => s <| objects ::= alter f i |>.

(** The blocks of one file. *)
Definition blocks_of (fh : string) (s : cache) : list blockID :=
  filter (fun id => id.1 = fh) (map fst (map_to_list (blocks s))).

(** dropBlockLocked: out of the index, with what the entry held released. *)
Definition dropBlock (id : blockID) (s : cache) : cache :=
  match blocks s !! id with
  | None => s
  | Some m =>
      let s1 := s <| lagging ::= fun x => x - b2z (claimLags m) |>
                  <| openPartials ::= fun x => x - b2z (bool_decide (is_Some (bm_f m))) |> in
      let s2 := match mem m with
                | Some d =>
                    (if flushing m then
                       s1 <| detached ::= union {[bm_ptr m]} |>
                          <| detachedFlushBytes ::= Z.add (zlen d) |> <| detachedFlushEntries ::= Z.succ |>
                     else s1) <| wb_pending ::= fun x => x - zlen d |>
                | None => s1
                end in
      s2 <| wb_pending ::= fun x => x - sub_bytes m |> <| blocks ::= delete id |>
  end.
(** [c.bytes -= m.size] and then dropBlockLocked. *)
Definition uncharge (id : blockID) (s : cache) : cache :=
  match blocks s !! id with
  | Some m => dropBlock id (s <| bytes ::= fun x => x - bm_size m |>)
  | None => s
  end.
Definition del_present (id : blockID) : cache -> cache :=
  upd_file id.1 (fun f => f <| present ::= fun p => p ∖ {[id.2]} |>).

(** The bytes of a block have left memory: what a flush wrote is the entry's
    [mem], which nothing replaces. *)
Definition release_mem (id : blockID) (s : cache) : cache :=
  match blocks s !! id with
  | Some m => upd_block id (fun m => m <| mem := None |>) (s <| wb_pending ::= fun x => x - mem_bytes m |>)
  | None => s
  end.

(** anyInMemoryLocked. *)
Definition anyInMemory (fh : string) (s : cache) : bool :=
  existsb (fun id => match blocks s !! id with Some m => bool_decide (is_Some (mem m)) | None => false end)
    (blocks_of fh s).

(** ** Complete files (whole.go) *)

(** releaseObjectLocked: the last name and the last reader give the bytes back. *)
Definition releaseObject (i : Z) (s : cache) : cache :=
  match objects s !! i with
  | Some o => if bool_decide (refs o = ∅) && (readers o =? 0)
              then s <| wholeBytes ::= fun x => x - o_size o |> <| objects ::= delete i |> else s
  | None => s
  end.
(** detachWholeLocked. *)
Definition detachWhole (fh : string) (s : cache) : cache :=
  match files s !! fh with
  | None => s
  | Some fs =>
      match whole fs with
      | None => upd_file fh (fun f => f <| hydrated := false |>) s
      | Some i =>
          releaseObject i
            (upd_file fh (fun f => f <| whole := None |> <| hydrated := false |>)
               (upd_object i (fun o => o <| refs ::= fun r => r ∖ {[fh]} |>) s))
      end
  end.
(** attachWholeLocked. *)
Definition attachWhole (fh : string) (inf : info) (s : cache) : cache :=
  let i := inf_id inf in
  let s1 := match files s !! fh with
            | Some fs => match whole fs with
                         | Some j => if bool_decide (j = i) then s else detachWhole fh s
                         | None => s end
            | None => s end in
  let s2 := match objects s1 !! i with
            | Some _ => s1
            | None => s1 <| objects ::= insert i (MkObj (inf_size inf) ∅ 0 (inf_mtime inf) false) |>
                         <| wholeBytes ::= Z.add (inf_size inf) |>
            end in
  upd_file fh (fun f => f <| whole := Some i |> <| hydrated := true |> <| fs_size := inf_size inf |>)
    (upd_object i (fun o => o <| refs ::= union {[fh]} |>) s2).
(** [fs.whole.lastAccess = c.opt.Now()]. *)
Definition touchWhole (fh : string) (s : cache) : cache :=
  match files s !! fh with
  | Some fs => match whole fs with
               | Some i => upd_object i (fun o => o <| o_access := now s |>) s
               | None => s end
  | None => s
  end.

Definition file_protected (fs : fileState) : bool := pinned fs || userPinned fs || (0 <? busy fs).
(** objectProtectedLocked. *)
Definition objectProtected (o : wholeObject) (s : cache) : bool :=
  (0 <? readers o) ||
  existsb (fun fh => match files s !! fh with Some fs => file_protected fs | None => false end)
    (elements (refs o)).

(** ** Sparse files (sparse.go) *)

(** The indices of the set bits. *)
Definition set_bits (p : partial) : list Z := filter (fun i => p_has p i = true) (seqZ 0 (p_total p)).

Section IndexOps.
Context {E : CacheEnv} {Cfg : Options}.

(** forgetPartLocked: out of the index and the accounts; with [remove] the
    file and its claim go as well. *)
Definition forgetPart (fh : string) (p : wholePart) (remove : bool) : CM unit :=
  do+ cmod (fun s =>
    let s1 := match parts s !! fh with
              | Some q => if bool_decide (wp_ptr q = wp_ptr p) then s <| parts ::= delete fh |> else s
              | None => s end in
    upd_file fh (fun f => if bool_decide (fs_part f = Some (wp_ptr p)) then f <| fs_part := None |> else f)
      (s1 <| partBytes ::= fun x => x - wp_bytes p |>));
  if remove then
    do+ cmod (upd_file fh (fun f => f <| present ::= fun q => q ∖ list_to_set (set_bits (wp_bits p)) |>));
    do+ os_remove (partPath fh);
    do+ os_remove (partBitmapPath fh); cret tt
  else cret tt.

(** partProtectedLocked. *)
Definition partProtected (fh : string) (s : cache) : bool :=
  match files s !! fh with Some fs => file_protected fs | None => false end.

(** removeFileBlocksLocked: a complete file supersedes the rest. *)
Definition removeFileBlocks (fh : string) : CM unit :=
  let+ s := cget id in
  do+ match files s !! fh with
      | Some fs => match fs_part fs, parts s !! fh with
                   | Some _, Some p => forgetPart fh p true
                   | _, _ => cret tt end
      | None => cret tt end;
  let+ n := tick in
  let+ ids := cget (blocks_of fh) in
  do+ cforeach (ord_blocks n ids) (fun id =>
        do+ cmod (uncharge id);
        do+ os_remove (blockPath id.1 id.2);
        do+ os_remove (sidecarPath id.1 id.2); cret tt);
  cmod (upd_file fh (fun f => f <| present := ∅ |>)).

(** ** Temporaries (temps.go) *)

(** discardTemp: a temporary that cannot be unlinked stays accounted for. *)
Definition discardTemp (p : cpath) : CM unit :=
  let+ r := os_remove p in
  if negb (rm_failed r) then cret tt
  else
    let+ st := os_stat p in
    match st with
    | Err _ => cret tt
    | Ok inf => cmod (fun s => s
        <| orphanBytes ::= Z.add (inf_size inf - default 0 (orphanTemps s !! p)) |>
        <| orphanTemps ::= insert p (inf_size inf) |>)
    end.

(** cleanTempLocked: unlink one abandoned temporary. *)
Fixpoint cleanTemp_loop (l : list cpath) : CM bool :=
  match l with
  | [] => cret false
  | p :: l' =>
      let+ r := os_remove p in
      if rm_failed r then cleanTemp_loop l'
      else
        do+ cmod (fun s => s <| orphanBytes ::= fun x => x - default 0 (orphanTemps s !! p) |>
                             <| orphanTemps ::= delete p |> <| evictions ::= Z.succ |>);
        cret true
  end.
Definition cleanTemp : CM bool :=
  let+ n := tick in
  let+ l := cget (fun s => map fst (map_to_list (orphanTemps s))) in
  cleanTemp_loop (ord_paths n l).

(** rememberKey: record a file's identity beside its blocks, best effort. *)
Definition keyBody (k : FileKey) : string := Remote k +:+ newline +:+ RemoteID k +:+ newline +:+ Version k.
Definition rememberKey (k : FileKey) : CM unit :=
  let p := keyPath (key_hash k) in
  let+ r := os_write_text (tmpOf p) (keyBody k) in
  match r with
  | Err _ => cret tt
  | Ok _ =>
      let+ r := os_rename_text (tmpOf p) p in
      match r with Err _ => do+ os_remove (tmpOf p); cret tt | Ok _ => cret tt end
  end.

(** [fs, ok := c.files[fh]; if !ok { fs = &fileState{key: k, ...} }]. *)
Definition ensureFile (fh : string) (k : FileKey) : CM unit :=
  let+ s := cget id in
  match files s !! fh with
  | Some _ => cret tt
  | None => let+ n := new_ptr in cmod (fun s => s <| files ::= insert fh (newFile n k) |>)
  end.
End IndexOps.
