(* ===== verification/CacheRoom.v ===== *)
(** * Eviction and admission
    (internal/cache/blockcache.go, admission.go, disk.go, whole.go, sparse.go)

    Room is made by evicting one object at a time, the coldest of the
    probationary ones first, until every cap holds or nothing may go.  The
    loops run on a fuel of one more than what could be evicted; CacheEvict shows
    it is never used up. *)
From S2P Require Import Prelude CacheBits CacheState.
Open Scope Z_scope.

Definition housekeepEvery : Z := Second.
Definition freeCheckBytes : Z := 33554432.

(** What eviction may take. *)
Inductive victim := VBlock (id : blockID) | VObject (i : Z) | VPart (fh : string).
(** Its claim to stay: hot, last access. *)
Definition standing : Type := bool * Z * victim.
(** The closure [better] of evictOneExcept. *)
Definition better (best : option standing) (hot : bool) (at_ : Z) : bool :=
  match best with
  | None => true
  | Some (bh, bt, _) => (bh && negb hot) || (Bool.eqb bh hot && (at_ <? bt))
  end.
Definition consider (best : option standing) (c : standing) : option standing :=
  let '(hot, at_, _) := c in if better best hot at_ then Some c else best.

Definition excluded (exclude : option blockID) (id : blockID) : bool :=
  match exclude with Some x => bool_decide (x = id) | None => false end.
(** [fs != nil && fs.busy > 0]. *)
Definition file_busy (fh : string) (s : cache) : bool :=
  match files s !! fh with Some fs => 0 <? busy fs | None => false end.
Definition block_protected (exclude : option blockID) (id : blockID) (m : blockMeta) (s : cache) : bool :=
  bm_pinned m || file_busy id.1 s || excluded exclude id.

Definition block_candidate (exclude : option blockID) (s : cache) (id : blockID) : option standing :=
  match blocks s !! id with
  | Some m => if block_protected exclude id m s then None else Some (bm_hot m, bm_access m, VBlock id)
  | None => None
  end.
Definition object_candidate (s : cache) (i : Z) : option standing :=
  match objects s !! i with
  | Some o => if bool_decide (refs o = ∅) || objectProtected o s then None
              else Some (o_hot o, o_access o, VObject i)
  | None => None
  end.
Definition part_candidate (s : cache) (fh : string) : option standing :=
  match parts s !! fh with
  | Some p => if partProtected fh s then None else Some (wp_hot p, wp_access p, VPart fh)
  | None => None
  end.

Section Room.
Context {E : CacheEnv} {Cfg : Options}.

(** evictObjectLocked: every name of the file goes; one that cannot be
    unlinked stays. *)
Fixpoint drop_names (l : list string) (removed : bool) : CM bool :=
  match l with
  | [] => cret removed
  | fh :: l' =>
      let+ r := os_remove (hydratedPath fh) in
      if rm_failed r then drop_names l' removed
      else do+ cmod (detachWhole fh); drop_names l' true
  end.
Definition evictObject (i : Z) : CM bool :=
  let+ s := cget id in
  match objects s !! i with
  | None => cret false
  | Some o =>
      if objectProtected o s then cret false
      else
        let+ n := tick in
        let+ removed := drop_names (ord_names n (elements (refs o))) false in
        if removed then do+ cmod (fun s => s <| evictions ::= Z.succ |>); cret true else cret false
  end.
(** evictPartLocked. *)
Definition evictPart (fh : string) : CM bool :=
  let+ s := cget id in
  match parts s !! fh with
  | None => cret false
  | Some p =>
      if partProtected fh s then cret false
      else do+ forgetPart fh p true; do+ cmod (fun s => s <| evictions ::= Z.succ |>); cret true
  end.
(** The tail of evictOneExcept, and the body of the loop of evictExpired. *)
Definition evictBlock (id : blockID) : CM bool :=
  let+ r := os_remove (blockPath id.1 id.2) in
  if rm_failed r then cret false
  else
    do+ os_remove (sidecarPath id.1 id.2);
    do+ cmod (uncharge id);
    do+ cmod (fun s => s <| evictions ::= Z.succ |>);
    do+ cmod (del_present id); cret true.

(** evictExpiredExcept. *)
Definition evictExpired (exclude : option blockID) : CM unit :=
  if MaxAge <=? 0 then cret tt
  else
    let+ cutoff := cget (fun s => now s - MaxAge) in
    let+ n := tick in
    let+ ids := cget (fun s => map fst (map_to_list (blocks s))) in
    do+ cforeach (ord_blocks n ids) (fun id =>
          let+ s := cget Datatypes.id in
          match blocks s !! id with
          | Some m => if block_protected exclude id m s || negb (bm_access m <? cutoff) then cret tt
                      else do+ evictBlock id; cret tt
          | None => cret tt
          end);
    let+ n := tick in
    let+ os := cget (fun s => map fst (map_to_list (objects s))) in
    do+ cforeach (ord_objects n os) (fun i =>
          let+ o := cget (fun s => objects s !! i) in
          match o with
          | Some o => if o_access o <? cutoff then do+ evictObject i; cret tt else cret tt
          | None => cret tt end);
    let+ n := tick in
    let+ ps := cget (fun s => map fst (map_to_list (parts s))) in
    cforeach (ord_names n ps) (fun fh =>
          let+ p := cget (fun s => parts s !! fh) in
          match p with
          | Some p => if wp_access p <? cutoff then do+ evictPart fh; cret tt else cret tt
          | None => cret tt end).

(** The victim evictOneExcept picks. *)
Definition pick_victim (exclude : option blockID) (n : Z) (s : cache) : option standing :=
  foldl consider None
    (omap (block_candidate exclude s) (ord_blocks n (map fst (map_to_list (blocks s))))
     ++ omap (object_candidate s) (ord_objects n (map fst (map_to_list (objects s))))
     ++ omap (part_candidate s) (ord_names n (map fst (map_to_list (parts s))))).

(** evictOneExcept: whether anything was freed. *)
Definition evictOne (exclude : option blockID) : CM bool :=
  let+ cleaned := cleanTemp in
  if cleaned then cret true
  else
    let+ n := tick in
    let+ v := cget (pick_victim exclude n) in
    match v with
    | None => cret false
    | Some (_, _, VBlock id) => evictBlock id
    | Some (_, _, VObject i) => evictObject i
    | Some (_, _, VPart fh) => evictPart fh
    end.

(** ** Admission *)

Definition total_bytes (s : cache) : Z :=
  bytes s + wholeBytes s + partBytes s + orphanBytes s + reservedBytes s + detachedFlushBytes s.
Definition total_objects (s : cache) : Z :=
  Z.of_nat (size (blocks s)) + Z.of_nat (size (objects s)) + Z.of_nat (size (parts s))
    + Z.of_nat (size (orphanTemps s)) + reservedEntries s + detachedFlushEntries s.
Definition overBytes (need : Z) (s : cache) : bool := (0 <? MaxBytes) && (MaxBytes <? total_bytes s + need).
Definition overObjects (entries : Z) (s : cache) : bool := (0 <? MaxBlocks) && (MaxBlocks <? total_objects s + entries).
(** The reserved bytes a free-space check adds. *)
Definition reserved_disk (s : cache) : Z :=
  reservedBytes s + writeReserved s + wb_pending s + detachedFlushBytes s.
Definition free_enough (free diskNeed reserved : Z) : bool :=
  (MinFree <=? free) && (diskNeed <=? free - MinFree) && (reserved <=? free - MinFree - diskNeed).

(** What could still be evicted. *)
Definition evictable (s : cache) : nat :=
  (size (orphanTemps s) + size (blocks s)
     + map_fold (fun _ o acc => size (refs o) + acc)%nat 0%nat (objects s) + size (parts s))%nat.

Fixpoint cap_loop (fuel : nat) (need entries : Z) (exclude : option blockID) : CM (res cerr unit) :=
  let+ over := cget (fun s => overBytes need s || overObjects entries s) in
  if negb over then cret (Ok tt)
  else
    match fuel with
    | O => cret (Err ErrNoSpace)
    | S fuel =>
        let+ ok := evictOne exclude in
        if ok then cap_loop fuel need entries exclude else cret (Err ErrNoSpace)
    end.
Fixpoint free_loop (fuel : nat) (dir : string) (diskNeed : Z) (exclude : option blockID) : CM (res cerr unit) :=
  let+ n := tick in
  let+ d := cget dsk in
  match statfs n dir d with
  | None => cret (Err ErrFreeSpace)
  | Some free =>
      let+ reserved := cget reserved_disk in
      if free_enough free diskNeed reserved then cret (Ok tt)
      else
        match fuel with
        | O => cret (Err ErrNoSpace)
        | S fuel =>
            let+ ok := evictOne exclude in
            if ok then free_loop fuel dir diskNeed exclude else cret (Err ErrNoSpace)
        end
  end.

(** makeRoomFor. *)
Definition makeRoomFor (need entries diskNeed : Z) (exclude : option blockID) : CM (res cerr unit) :=
  let+ t := cget now in
  let+ expire := cget (fun s => housekeepEvery <=? t - lastExpire s) in
  do+ cmod (fun s => if expire then s <| lastExpire := t |> else s);
  let+ checkFree := cget (fun s =>
    (0 <? MinFree) && ((0 <? diskNeed) || (housekeepEvery <=? t - lastFreeCheck s)
      || (freeCheckBytes <=? bytes s + wholeBytes s + partBytes s - bytesAtFreeCheck s))) in
  do+ if expire then evictExpired exclude else cret tt;
  let+ f := cget evictable in
  try+ _u := cap_loop (S f) need entries exclude in
  if checkFree then
    let+ f := cget evictable in
    try+ _v := free_loop (S f) Dir diskNeed exclude in
    do+ cmod (fun s => s <| lastFreeCheck := t |> <| bytesAtFreeCheck := bytes s + wholeBytes s + partBytes s |>);
    cret (Ok tt)
  else cret (Ok tt).
(** makeRoom. *)
Definition makeRoom (need : Z) : CM (res cerr unit) :=
  makeRoomFor need (if 0 <? need then 1 else 0) need None.

(** The bytes of [off, off+n) that a partial block does not hold yet. *)
Fixpoint missing_bytes (fuel : nat) (p : partial) (sub bl pos end_ : Z) : Z :=
  match fuel with
  | O => 0
  | S fuel =>
      if pos <? end_ then
        (if p_has p (pos / sub) then 0 else Z.min sub (bl - pos)) + missing_bytes fuel p sub bl (pos + sub) end_
      else 0
  end.

(** What blockRoom asks for: bytes and object slots. *)
Definition block_need (id : blockID) (off n size : Z) (part : bool) (s : cache) : Z * Z :=
  match blocks s !! id with
  | None => (n, 1)
  | Some m =>
      if negb part then
        if flushing m && bool_decide (is_Some (mem m)) then (n, 1) else (Z.max 0 (n - bm_size m), 0)
      else match bm_partial m with
           | None => (0, 0)
           | Some p => (missing_bytes (Z.to_nat n) p subSize (blockLen id.2 size) off (off + n), 0)
           end
  end.
(** blockRoom. *)
Definition blockRoom (id : blockID) (off n size : Z) (part : bool) : CM (res cerr unit) :=
  let+ q := cget (block_need id off n size part) in
  if part && (q.1 =? 0) && (q.2 =? 0) then cret (Ok tt)
  else makeRoomFor q.1 q.2 n (Some id).

(** ReserveDisk; the function it returns is [releaseDisk n]. *)
Fixpoint reserve_loop (fuel : nat) (dir : string) (n : Z) : CM (res cerr unit) :=
  let+ closed := cget wb_closed in
  let+ reserved := cget reserved_disk in
  if closed then cret (Err ErrClosed)
  else if MaxInt64 - reserved <? n then cret (Err ErrNoSpace)
  else if MinFree =? 0 then cret (Ok tt)
  else
    let+ t := tick in
    let+ d := cget dsk in
    match statfs t dir d with
    | None => cret (Err ErrFreeSpace)
    | Some free =>
        if free_enough free n reserved then cret (Ok tt)
        else
          match fuel with
          | O => cret (Err ErrNoSpace)
          | S fuel =>
              let+ ok := evictOne None in
              if ok then reserve_loop fuel dir n else cret (Err ErrNoSpace)
          end
    end.
Definition ReserveDisk (dir : string) (n : Z) : CM (res cerr unit) :=
  if n <? 0 then cret (Err (EMsg "cache: negative disk reservation"))
  else if n =? 0 then cret (Ok tt)
  else
    let+ f := cget evictable in
    try+ _u := reserve_loop (S f) dir n in
    do+ cmod (fun s => s <| writeReserved ::= Z.add n |>); cret (Ok tt).
Definition releaseDisk (n : Z) : CM unit := cmod (fun s => s <| writeReserved ::= fun x => x - n |>).

(** GC: apply every cap without admitting anything. *)
Fixpoint cleanAll (fuel : nat) : CM unit :=
  match fuel with
  | O => cret tt
  | S fuel => let+ ok := cleanTemp in if ok then cleanAll fuel else cret tt
  end.
Definition GC : CM (res cerr unit) :=
  let+ f := cget (fun s => size (orphanTemps s)) in
  do+ cleanAll (S f);
  do+ evictExpired None;
  makeRoom 0.
End Room.
