(* ===== verification/CacheWhole.v ===== *)
(** * Large files: the sparse layout, leases, installation, hydration
    (internal/cache/sparse.go, whole.go, blockcache.go)

    The blocks of a large file go straight to their offsets in one sparse file;
    a bitmap of blocks says which are real, and the full file is renamed to its
    hydrated name.  Installing a complete file is one step.  Hydration and
    PutWhole run for long without a lock, so each is three: begin (room reserved,
    the file held), the copy into a temporary, and publication, which refuses if
    the content changed between.  The deferred calls of the code are [end_job]. *)
From S2P Require Import Prelude CacheBits CacheState CacheRoom.
Open Scope Z_scope.

Section Sparse.
Context {E : CacheEnv} {Cfg : Options}.

(** writePartBitmap. *)
Definition writePartBitmap (fh : string) (size : Z) (bits : partial) : CM (res cerr unit) :=
  let path := partBitmapPath fh in
  try+ _u := os_write_text (tmpOf path) (encodePartBitmap size bits) in
  let+ r := os_rename_text (tmpOf path) path in
  match r with
  | Err e => do+ os_remove (tmpOf path); cret (Err e)
  | Ok _ => cret (Ok tt)
  end.

(** [c.parts[p.fh] == p]. *)
Definition part_live (fh : string) (ptr : Z) (s : cache) : option wholePart :=
  match parts s !! fh with
  | Some p => if bool_decide (wp_ptr p = ptr) then Some p else None
  | None => None
  end.

(** partFile: the descriptor of a sparse file, opened if a restart left it
    closed; gone once the file was evicted or published. *)
Definition partFile (fh : string) (ptr : Z) : CM (res cerr Z) :=
  let+ p := cget (part_live fh ptr) in
  match p with
  | None => cret (Err ErrNotExist)
  | Some p =>
      match wp_f p with
      | Some i => cret (Ok i)
      | None =>
          try+ i := os_open (partPath fh) in
          do+ cmod (upd_part fh (fun p => p <| wp_f := Some i |>)); cret (Ok i)
      end
  end.

(** The file of ensurePart: the empty claim, the file, its length. *)
Definition sparse_file (fh : string) (size : Z) (bits : partial) : CM (res cerr Z) :=
  try+ _u := writePartBitmap fh size bits in
  let+ r := os_create (partPath fh) in
  match r with
  | Err e => do+ os_remove (partBitmapPath fh); cret (Err e)
  | Ok i =>
      let+ r := f_truncate i size in
      match r with
      | Err e => do+ os_remove (partPath fh); do+ os_remove (partBitmapPath fh); cret (Err e)
      | Ok _ => cret (Ok i)
      end
  end.
Definition mount_part (fh : string) (k : FileKey) (p : wholePart) (s : cache) : cache :=
  upd_file fh (fun f => f <| fs_key := k |> <| fs_size := wp_size p |> <| fs_part := Some (wp_ptr p) |>)
    (s <| parts ::= insert fh p |>).
(** ensurePart: the sparse file of a key, made on first use. *)
Definition ensurePart (k : FileKey) (size : Z) : CM (res cerr Z) :=
  let fh := key_hash k in
  let+ p := cget (fun s => parts s !! fh) in
  match p with
  | Some p =>
      if wp_size p =? size then cret (Ok (wp_ptr p))
      else cret (Err (EMsg "cache: sparse file size changed under the cache"))
  | None =>
      let total := BlockCount size in
      if total <=? 0 then cret (Err (EMsg "cache: sparse layout needs a non-empty file"))
      else
        let+ t := cget now in
        let bits := newPartialTotal BlockSize total in
        try+ i := sparse_file fh size bits in
        let+ ptr := new_ptr in
        do+ ensureFile fh noKey;
        do+ cmod (mount_part fh k (MkPart ptr size bits 0 (Some i) 0 t t false));
        cret (Ok ptr)
  end.

(** holdFile and releaseFile: the state of a file kept from eviction. *)
Definition holdFile (k : FileKey) (size : Z) : CM bool :=
  let fh := key_hash k in
  do+ ensureFile fh noKey;
  let+ remember := cget (fun s => match files s !! fh with Some f => negb (keyWritten f) | None => true end) in
  do+ cmod (upd_file fh (fun f => f <| fs_key := k |> <| fs_size := size |> <| busy ::= Z.succ |> <| keyWritten := true |>));
  cret remember.
Definition releaseFile (fh : string) : CM unit := cmod (upd_file fh (fun f => f <| busy ::= Z.pred |>)).

(** partRoom. *)
Definition partRoom (fh : string) (n : Z) : CM (res cerr unit) :=
  let+ entries := cget (fun s => match parts s !! fh with Some _ => 0 | None => 1 end) in
  makeRoomFor n entries n None.

(** notePartBlock: block [idx] is real.  The claim to persist, if one is due,
    and whether the file is complete. *)
Definition notePartBlock (fh : string) (ptr : Z) (k : FileKey) (idx n : Z) : CM (option partial * bool) :=
  let+ p := cget (part_live fh ptr) in
  match p with
  | None => cret (None, false)
  | Some p =>
      do+ (if hasBlock p idx then cret tt
           else cmod (fun s => upd_part fh (fun p => p <| wp_bits ::= p_set idx |> <| wp_bytes ::= Z.add n |>)
                                 (s <| partBytes ::= Z.add n |>)));
      let+ t := cget now in
      do+ cmod (upd_part fh (fun p => p <| wp_access := t |>));
      do+ cmod (upd_file fh (fun f => f <| fs_key := k |> <| fs_size := wp_size p |>
                                        <| present ::= union {[idx]} |> <| generation ::= Z.succ |>));
      let+ p := cget (fun s => parts s !! fh) in
      match p with
      | None => cret (None, false)
      | Some p =>
          if p_full (wp_bits p) then cret (None, true)
          else if negb (partClaimDue (p_have (wp_bits p)) (claimed p) (claimedAt p) t) then cret (None, false)
          else
            do+ cmod (upd_part fh (fun p => p <| claimed := p_have (wp_bits p) |> <| claimedAt := t |>));
            cret (Some (wp_bits p), false)
      end
  end.

(** persistPart: data before claim. *)
Definition persistPart (fh : string) (ptr : Z) (claim : partial) : CM (res cerr unit) :=
  let+ sz := cget (fun s => match parts s !! fh with Some p => wp_size p | None => 0 end) in
  let+ f := partFile fh ptr in
  match f with
  | Err ErrNotExist => cret (Ok tt)
  | Err e => cret (Err e)
  | Ok _ => try+ _u := f_sync in writePartBitmap fh sz claim
  end.

(** finishPartLocked: sync, check, rename, publish. *)
Definition finishPart (k : FileKey) (fh : string) (ptr : Z) : CM (res cerr unit) :=
  let+ f := partFile fh ptr in
  match f with
  | Err ErrNotExist => cret (Ok tt)
  | Err e => cret (Err e)
  | Ok i =>
      try+ _u := f_sync in
      try+ _v := f_sync in (* Stat *)
      let+ inf := cget (fun s => info_of i (default (MkNode [] 0) (nodes (dsk s) !! i))) in
      let+ s := cget id in
      match part_live fh ptr s with
      | None => cret (Ok tt)
      | Some p =>
          if negb (inf_size inf =? wp_size p) then cret (Err (EMsg "cache: sparse file has the wrong size at completion"))
          else if negb (bool_decide (fs_part <$> files s !! fh = Some (Some ptr))) || negb (p_full (wp_bits p)) then cret (Ok tt)
          else
            try+ _w := os_rename (partPath fh) (hydratedPath fh) in
            do+ os_remove (partBitmapPath fh);
            do+ forgetPart fh p false;
            do+ cmod (upd_file fh (fun f => f <| fs_key := k |>));
            do+ cmod (attachWhole fh inf);
            do+ cmod (touchWhole fh);
            do+ cmod (upd_file fh (fun f => f <| generation ::= Z.succ |>));
            do+ removeFileBlocks fh; cret (Ok tt)
      end
  end.

(** What follows a block written to its sparse file. *)
Definition settlePart (k : FileKey) (fh : string) (ptr idx n : Z) : CM (res cerr unit) :=
  let+ r := notePartBlock fh ptr k idx n in
  if r.2 then finishPart k fh ptr
  else match r.1 with
       | Some claim => persistPart fh ptr claim
       | None => cret (Ok tt)
       end.

(** putPart: one whole block of a large file. *)
Definition putPart (k : FileKey) (idx : Z) (data : list Z) (fileSize : Z) : CM (res cerr unit) :=
  let fh := key_hash k in
  let bl := blockLen idx fileSize in
  if bl <=? 0 then cret (Err (EMsg "cache: block is outside the file"))
  else if negb (zlen data =? bl) then cret (Ok tt)
  else
    let+ remember := holdFile k fileSize in
    let+ r :=
      (let+ have := cget (fun s => match parts s !! fh with Some p => hasBlock p idx | None => false end) in
       if have then cret (Ok tt)
       else
         do+ (if remember then rememberKey k else cret tt);
         try+ _u := partRoom fh bl in
         try+ ptr := ensurePart k fileSize in
         try+ f := partFile fh ptr in
         try+ _v := f_write_at f (idx * BlockSize) data in
         settlePart k fh ptr idx bl) in
    do+ releaseFile fh; cret r.

(** adoptBlockIntoPart: a block filled piece by piece joins the sparse file. *)
Definition readInto (p : cpath) : CM (res cerr (list Z)) :=
  try+ i := os_open p in
  let+ d := cget dsk in
  f_read_at i 0 (zlen (data_of d i)).
Definition adoptBlockIntoPart (k : FileKey) (idx : Z) : CM unit :=
  let fh := key_hash k in
  let id := (fh, idx) in
  let+ s := cget Datatypes.id in
  match files s !! fh, blocks s !! id with
  | Some fs, Some m =>
      if bool_decide (is_Some (bm_partial m)) || bool_decide (is_Some (mem m)) then cret tt
      else
        let bl := blockLen idx (fs_size fs) in
        if bl <=? 0 then cret tt
        else
          let+ data := readInto (blockPath fh idx) in
          match data with
          | Err _ => cret tt
          | Ok data =>
              if negb (zlen data =? bl) then cret tt
              else
                let+ ptr := ensurePart k (fs_size fs) in
                match ptr with
                | Err _ => cret tt
                | Ok ptr =>
                    let+ f := partFile fh ptr in
                    match f with
                    | Err _ => cret tt
                    | Ok f =>
                        let+ w := f_write_at f (idx * BlockSize) data in
                        match w with
                        | Err _ => cret tt
                        | Ok _ =>
                            do+ cmod (uncharge id);
                            do+ os_remove (blockPath fh idx);
                            do+ os_remove (sidecarPath fh idx);
                            do+ settlePart k fh ptr idx bl; cret tt
                        end
                    end
                end
          end
  | _, _ => cret tt
  end.

(** flushMemToPart: a block held in memory goes to its sparse file, and its
    charge with it.  [m] is the entry the flush began with. *)
Definition drop_flushed (id : blockID) : CM unit :=
  do+ cmod (uncharge id); cmod (del_present id).
Definition flushMemToPart (id : blockID) (ptr : Z) (data : list Z) : CM unit :=
  let fh := id.1 in
  let+ s := cget Datatypes.id in
  match files s !! fh, blocks s !! id with
  | Some fs, Some m =>
      if negb (bool_decide (bm_ptr m = ptr)) || negb (bool_decide (is_Some (mem m))) then cret tt
      else
        let k := fs_key fs in
        let bl := blockLen id.2 (fs_size fs) in
        if negb (zlen data =? bl) then drop_flushed id
        else
          let+ pp := ensurePart k (fs_size fs) in
          match pp with
          | Err _ => drop_flushed id
          | Ok pp =>
              let+ f := partFile fh pp in
              match f with
              | Err _ => drop_flushed id
              | Ok f =>
                  let+ w := f_write_at f (id.2 * BlockSize) data in
                  match w with
                  | Err _ => drop_flushed id
                  | Ok _ =>
                      do+ cmod (release_mem id);
                      do+ cmod (uncharge id);
                      do+ settlePart k fh pp id.2 bl; cret tt
                  end
              end
          end
  | _, _ => cret tt
  end.

(** closeParts: every bitmap written, every descriptor closed. *)
Definition closePart (fh : string) : CM unit :=
  let+ p := cget (fun s => parts s !! fh) in
  match p with
  | None => cret tt
  | Some p =>
      let+ t := cget now in
      do+ cmod (upd_part fh (fun p => p <| claimed := p_have (wp_bits p) |> <| claimedAt := t |> <| wp_f := None |>));
      do+ (if bool_decide (is_Some (wp_f p)) then do+ f_sync; cret tt else cret tt);
      if claimed p =? p_have (wp_bits p) then cret tt
      else do+ writePartBitmap fh (wp_size p) (wp_bits p); cret tt
  end.
Definition closeParts : CM unit :=
  let+ n := tick in
  let+ l := cget (fun s => map fst (map_to_list (parts s))) in
  cforeach (ord_names n l) closePart.
End Sparse.

Section Whole.
Context {E : CacheEnv} {Cfg : Options}.

(** OpenWhole: a descriptor of the complete file of a key, and the object it
    leases. *)
Definition OpenWhole (k : FileKey) : CM (res cerr (Z * Z)) :=
  let fh := key_hash k in
  let+ s := cget id in
  match files s !! fh with
  | Some fs =>
      match whole fs with
      | Some o =>
          if negb (hydrated fs) then cret (Err ErrNotExist)
          else
            let+ f := os_open (hydratedPath fh) in
            match f with
            | Err ErrNotExist => do+ cmod (detachWhole fh); cret (Err ErrNotExist)
            | Err e => cret (Err e)
            | Ok i =>
                let+ t := cget now in
                do+ cmod (upd_object o (fun o => o <| readers ::= Z.succ |> <| o_access := t |> <| o_hot := true |>));
                cret (Ok (i, o))
            end
      | None => cret (Err ErrNotExist)
      end
  | None => cret (Err ErrNotExist)
  end.
(** WholeFile.Close, of a lease not closed before. *)
Definition closeWhole (o : Z) : CM unit :=
  cmod (fun s => releaseObject o (upd_object o (fun o => o <| readers ::= Z.pred |>) s)).

(** HydratedPath: whether the merged file is there. *)
Definition HydratedPath (k : FileKey) : CM bool :=
  let fh := key_hash k in
  let+ s := cget id in
  match files s !! fh with
  | Some fs =>
      if negb (hydrated fs) || negb (bool_decide (is_Some (whole fs))) then cret false
      else
        let+ st := os_stat (hydratedPath fh) in
        match st with
        | Err ErrNotExist => do+ cmod (detachWhole fh); cret false
        | Err _ => cret false
        | Ok _ => do+ cmod (touchWhole fh); cret true
        end
  | None => cret false
  end.

(** scheduleHydrate: in line for the janitor. *)
Definition scheduleHydrate (k : FileKey) : CM unit :=
  cmod (fun s => s <| hydrateWant ::= insert (key_hash k) k |>).

(** installTemp: publish a finished temporary as the complete file of [k]. *)
Definition installTemp (k : FileKey) (tmp : cpath) (size : Z) (pin : bool) : CM (res cerr unit) :=
  let fh := key_hash k in
  try+ inf := os_stat tmp in
  if negb (inf_size inf =? size) then cret (Err (EMsg "cache: install source has wrong type or size"))
  else
    try+ _u := os_rename tmp (hydratedPath fh) in
    do+ ensureFile fh noKey;
    do+ cmod (upd_file fh (fun f => f <| fs_key := k |> <| pinned ::= orb pin |>));
    do+ cmod (attachWhole fh inf);
    do+ cmod (touchWhole fh);
    do+ cmod (upd_file fh (fun f => f <| generation ::= Z.succ |>));
    do+ removeFileBlocks fh; cret (Ok tt).

(** A name CreateTemp finds unused; it is created at once. *)
Definition fresh_scratch : CM cpath := let+ n := cget (fun s => next_ino (dsk s)) in cret (KScratch, "", n).

(** installWhole. *)
Definition installBody (k : FileKey) (src : cpath) (size : Z) (pin : bool) (tmp : cpath) (inf : info)
  : CM (res cerr unit) :=
  let+ linked := os_link src tmp in
  let+ known := cget (fun s => linked && bool_decide (is_Some (objects s !! inf_id inf))) in
  try+ _room :=
    (if negb known && negb (linked && pin) then makeRoomFor size 1 (if linked then 0 else size) None
     else cret (Ok tt)) in
  try+ inf' :=
    (if linked then cret (Ok inf)
     else
       try+ i := os_open src in
       let+ data := cget (fun s => data_of (dsk s) i) in
       let+ taken := cget (fun s => bool_decide (is_Some (names (dsk s) !! tmp))) in (* O_EXCL *)
       try+ _w := (if taken then cret (Err ErrIO) else os_write tmp (take (Z.to_nat size) data)) in
       if negb (zlen data =? size) then cret (Err (EMsg "cache: source changed size while copying"))
       else try+ _s := f_sync in os_stat tmp) in
  if negb (inf_size inf' =? size) then cret (Err (EMsg "cache: source changed size during import"))
  else installTemp k tmp size pin.
Definition installWhole (k : FileKey) (src : cpath) (size : Z) (adopt pin : bool) : CM (res cerr unit) :=
  if size <? 0 then cret (Err (EMsg "cache: negative complete-file size"))
  else
    try+ inf := os_stat src in
    if negb (inf_size inf =? size) then cret (Err (EMsg "cache: complete-file source has wrong type or size"))
    else
      let+ tmp := fresh_scratch in
      try+ _c := os_create tmp in
      do+ os_remove tmp;
      let+ r := installBody k src size pin tmp inf in
      let+ r :=
        (match r with
         | Ok _ =>
             if adopt && negb (bool_decide (src = hydratedPath (key_hash k))) then
               let+ rm := os_remove src in
               match rm with
               | RmOk => cret (Ok tt)
               | _ => cret (Err (EMsg "cache: installed copy but could not remove source"))
               end
             else cret (Ok tt)
         | Err e => cret (Err e)
         end) in
      do+ discardTemp tmp; cret r.
Definition remembered (k : FileKey) (m : CM (res cerr unit)) : CM (res cerr unit) :=
  try+ _u := m in do+ rememberKey k; cret (Ok tt).
Definition AdoptFile (k : FileKey) (src : cpath) (size : Z) : CM (res cerr unit) :=
  remembered k (installWhole k src size true false).
Definition LinkFile (k : FileKey) (src : cpath) (size : Z) : CM (res cerr unit) :=
  remembered k (installWhole k src size false false).
Definition LinkPinnedFile (k : FileKey) (src : cpath) (size : Z) : CM (res cerr unit) :=
  remembered k (installWhole k src size false true).

(** ** Work that holds a file while no lock is held *)

(** What PutWhole and Hydrate carry between their steps. *)
Record job := MkJob { j_key : FileKey; j_file : Z; j_size : Z; j_generation : Z; j_temp : option cpath }.
#[export] Instance job_eta : Settable job := fun j => MkJob (j_key j) (j_file j) (j_size j) (j_generation j) (j_temp j).

(** [fs.busy--] on the state the job holds; a state no longer in the index is
    not seen again. *)
Definition unhold (fh : string) (ptr : Z) : CM unit :=
  cmod (upd_file fh (fun f => if bool_decide (fs_ptr f = ptr) then f <| busy ::= Z.pred |> else f)).
Definition reserve (size : Z) : CM unit :=
  cmod (fun s => s <| reservedBytes ::= Z.add size |> <| reservedEntries ::= Z.succ |>).
Definition unreserve (size : Z) : CM unit :=
  cmod (fun s => s <| reservedBytes ::= fun x => x - size |> <| reservedEntries ::= Z.pred |>).
(** Room for the job's copy, its source protected first. *)
Definition begin_job (k : FileKey) (ptr size gen : Z) : CM (res cerr job) :=
  let fh := key_hash k in
  do+ cmod (upd_file fh (fun f => f <| busy ::= Z.succ |>));
  let+ r := makeRoomFor size 1 size None in
  match r with
  | Err e => do+ unhold fh ptr; cret (Err e)
  | Ok _ => do+ reserve size; cret (Ok (MkJob k ptr size gen None))
  end.
(** The deferred calls; [consumed]: publication took the reservation. *)
Definition end_job (j : job) (consumed : bool) : CM unit :=
  do+ match j_temp j with Some p => discardTemp p | None => cret tt end;
  do+ unhold (key_hash (j_key j)) (j_file j);
  if consumed then cret tt else unreserve (j_size j).
(** [c.wb.closed || c.files[fh] != fs || fs.generation != generation]. *)
Definition job_stale (j : job) (s : cache) : bool :=
  wb_closed s ||
  match files s !! key_hash (j_key j) with
  | Some f => negb (fs_ptr f =? j_file j) || negb (generation f =? j_generation j)
  | None => true
  end.

(** Hydrate, up to the reservation; [Ok None]: nothing to do. *)
Definition hydrate_begin (k : FileKey) : CM (res cerr (option job)) :=
  let fh := key_hash k in
  let+ s := cget id in
  match files s !! fh with
  | None => cret (Ok None)
  | Some fs =>
      if wb_closed s || hydrated fs || (0 <? busy fs) || bool_decide (is_Some (fs_part fs)) then cret (Ok None)
      else
        let total := BlockCount (fs_size fs) in
        if anyInMemory fh s || (total =? 0) || negb (Z.of_nat (size (present fs)) =? total) then
          cret (Err (EMsg "cache: hydrate on incomplete or unflushed content"))
        else
          try+ j := begin_job k (fs_ptr fs) (fs_size fs) (generation fs) in
          cret (Ok (Some j))
  end.
(** The copy: every block read back and appended.  [Ok None]: the foreground
    became busy and the file waits for its turn again. *)
Fixpoint merge_blocks (k : FileKey) (size : Z) (idxs : list Z) (acc : list Z) : CM (res cerr (option (list Z))) :=
  match idxs with
  | [] => cret (Ok (Some acc))
  | idx :: idxs' =>
      let+ closed := cget wb_closed in
      if closed then cret (Err (EMsg "cache: closed during hydration"))
      else
        let+ n := tick in
        if busyFn n then do+ scheduleHydrate k; cret (Ok None)
        else
          try+ i := os_open (blockPath (key_hash k) idx) in
          let+ len := cget (fun s => zlen (data_of (dsk s) i)) in
          try+ b := f_read_at i 0 len in
          if negb (zlen b =? blockLen idx size) then cret (Err (EMsg "cache: hydrate source block has wrong size"))
          else merge_blocks k size idxs' (acc ++ b)
  end.
Definition hydrate_copy (j : job) : CM (res cerr (option job)) :=
  let+ tmp := fresh_scratch in
  let+ c := os_create tmp in
  match c with
  | Err e => do+ end_job j false; cret (Err e)
  | Ok _ =>
      let j := j <| j_temp := Some tmp |> in
      let+ r := merge_blocks (j_key j) (j_size j) (seqZ 0 (BlockCount (j_size j))) [] in
      match r with
      | Ok (Some data) =>
          let+ w := (try+ _w := os_write tmp data in try+ _s := f_sync in f_sync (* Stat *)) in
          match w with
          | Err e => do+ end_job j false; cret (Err e)
          | Ok _ => cret (Ok (Some j))
          end
      | Ok None => do+ end_job j false; cret (Ok None)
      | Err e => do+ end_job j false; cret (Err e)
      end
  end.
(** Publication. *)
Definition hydrate_publish (j : job) : CM (res cerr unit) :=
  let fh := key_hash (j_key j) in
  let+ s := cget id in
  match j_temp j with
  | None => cret (Err ErrIO)
  | Some tmp =>
      if job_stale j s then
        do+ end_job j false; cret (Err (EMsg "cache: content invalidated during hydration"))
      else
        let+ inf := cget (fun s => match file_at (dsk s) tmp with Some (i, n) => info_of i n | None => MkInfo 0 0 0 end) in
        let+ r := os_rename tmp (hydratedPath fh) in
        match r with
        | Err e => do+ end_job j false; cret (Err e)
        | Ok _ =>
            do+ cmod (attachWhole fh inf);
            do+ cmod (touchWhole fh);
            do+ removeFileBlocks fh;
            do+ unreserve (j_size j);
            do+ end_job j true; cret (Ok tt)
        end
  end.

(** hydrateDue: what the janitor takes up when its timer fires. *)
Definition hydrateDue : CM (list FileKey) :=
  let+ n := tick in
  if busyFn n then cret []
  else
    let+ want := cget (fun s => map snd (map_to_list (hydrateWant s))) in
    do+ cmod (fun s => s <| hydrateWant := ∅ |>); cret want.

(** PutWhole, up to the reservation. *)
Definition putWhole_begin (k : FileKey) (size : Z) : CM (res cerr job) :=
  if size <? 0 then cret (Err (EMsg "cache: negative complete-file size"))
  else
    let fh := key_hash k in
    let+ closed := cget wb_closed in
    if closed then cret (Err ErrClosed)
    else
      do+ ensureFile fh noKey;
      let+ f := cget (fun s => files s !! fh) in
      match f with
      | None => cret (Err ErrIO)
      | Some f => begin_job k (fs_ptr f) size (generation f)
      end.
(** The stream: [r] is what the reader yields before it ends, [failed] that it
    ends with an error.  copyWhole refuses anything but exactly [size] bytes. *)
Definition putWhole_copy (j : job) (r : list Z) (failed : bool) : CM (res cerr job) :=
  let+ tmp := fresh_scratch in
  let+ c := os_create tmp in
  match c with
  | Err e => do+ end_job j false; cret (Err e)
  | Ok _ =>
      let j := j <| j_temp := Some tmp |> in
      let+ w := os_write tmp (take (Z.to_nat (j_size j)) r) in
      match w with
      | Err e => do+ end_job j false; cret (Err e)
      | Ok _ =>
          if (zlen r <? j_size j) || (j_size j <? zlen r) || failed then
            do+ end_job j false; cret (Err (EMsg "cache: source changed size while copying"))
          else cret (Ok j)
      end
  end.
Definition putWhole_publish (j : job) : CM (res cerr unit) :=
  let+ s := cget id in
  match j_temp j with
  | None => cret (Err ErrIO)
  | Some tmp =>
      if job_stale j s then do+ end_job j false; cret (Err ErrSuperseded)
      else
        let+ r := installTemp (j_key j) tmp (j_size j) false in
        match r with
        | Err e => do+ end_job j false; cret (Err e)
        | Ok _ => do+ unreserve (j_size j); do+ rememberKey (j_key j); do+ end_job j true; cret (Ok tt)
        end
  end.
End Whole.
