(* ===== verification/CacheBlocks.v ===== *)
(** * Blocks: lookup, reads, storing, pins, forgetting (internal/cache/blockcache.go)

    A lookup and the read that follows it are one step here, as are the
    sections of an operation that run under one lock. *)
From S2P Require Import Prelude CacheBits CacheState CacheRoom CacheWhole.
Open Scope Z_scope.

(** piece: a sub-block's worth of a read, with the bytes if they are in memory. *)
Record piece := MkPiece { pc_at : Z; pc_n : Z; pc_data : option (list Z) }.

(** partialPiecesLocked; [n] of [len] bytes are split so far. *)
Fixpoint partialPieces (fuel : nat) (m : blockMeta) (sub off len n : Z) : list piece :=
  match fuel with
  | O => []
  | S fuel =>
      if len <=? n then []
      else
        let pos := off + n in
        let i := Z.quot pos sub in
        let within := pos - i * sub in
        let take_ := Z.min (sub - within) (len - n) in
        match subs m !! i with
        | Some b =>
            if zlen b <=? within then []
            else
              let take_ := Z.min take_ (zlen b - within) in
              MkPiece pos take_ (Some (pread b within take_)) :: partialPieces fuel m sub off len (n + take_)
        | None => MkPiece pos take_ None :: partialPieces fuel m sub off len (n + take_)
        end
  end.

Section Blocks.
Context {E : CacheEnv} {Cfg : Options}.

(** readPieces, over an open descriptor; a short read of the file ends it. *)
Fixpoint readPieces_loop (f : Z) (l : list piece) (acc : list Z) : CM (res cerr (list Z)) :=
  match l with
  | [] => cret (Ok acc)
  | p :: l' =>
      match pc_data p with
      | Some b => readPieces_loop f l' (acc ++ b)
      | None =>
          try+ b := f_read_at f (pc_at p) (pc_n p) in
          if zlen b <? pc_n p then cret (Ok (acc ++ b)) else readPieces_loop f l' (acc ++ b)
      end
  end.
Definition readPieces (open : option Z) (p : cpath) (l : list piece) : CM (res cerr (list Z)) :=
  let needDisk := existsb (fun q => match pc_data q with None => true | _ => false end) l in
  match open with
  | Some f => readPieces_loop f l []
  | None =>
      if needDisk then try+ f := os_open p in readPieces_loop f l []
      else readPieces_loop 0 l []
  end.

(** forget: the entry of a block whose file vanished. *)
Definition forgetBlock (id : blockID) : CM unit :=
  let+ m := cget (fun s => blocks s !! id) in
  match m with
  | Some _ => do+ cmod (uncharge id); cmod (del_present id)
  | None => cret tt
  end.

(** The marks a lookup leaves on the complete and the sparse file. *)
Definition touch_block (id : blockID) : cache -> cache :=
  fun s => upd_block id (fun m => m <| bm_hot := true |> <| bm_access := now s |>) s.
Definition touch_files (fh : string) (idx : Z) (s : cache) : cache :=
  match files s !! fh with
  | None => s
  | Some fs =>
      let s1 := match whole fs with
                | Some o => upd_object o (fun o => o <| o_access := now s |> <| o_hot := true |>) s
                | None => s end in
      match fs_part fs, parts s !! fh with
      | Some _, Some p =>
          if hasBlock p idx then upd_part fh (fun p => p <| wp_access := now s |> <| wp_hot := true |>) s1 else s1
      | _, _ => s1
      end
  end.
(** [fs.part != nil && fs.part.hasBlock(idx)]. *)
Definition in_part (fh : string) (idx : Z) (s : cache) : option wholePart :=
  match files s !! fh, parts s !! fh with
  | Some fs, Some p => if bool_decide (is_Some (fs_part fs)) && hasBlock p idx then Some p else None
  | _, _ => None
  end.
Definition size_of (fh : string) (s : cache) : Z := match files s !! fh with Some fs => fs_size fs | None => 0 end.
Definition is_hydrated (fh : string) (s : cache) : bool :=
  match files s !! fh with Some fs => hydrated fs | None => false end.

(** locate: the length of a block and the size of its file, if the block can
    be served here. *)
Definition locate (k : FileKey) (idx : Z) : CM (option (Z * Z)) :=
  let fh := key_hash k in
  let id := (fh, idx) in
  let+ s := cget Datatypes.id in
  do+ cmod (touch_block id);
  do+ cmod (touch_files fh idx);
  let size := size_of fh s in
  let served := is_hydrated fh s || bool_decide (is_Some (in_part fh idx s)) in
  let from_whole := if negb served then None
                    else if blockLen idx size <=? 0 then None else Some (blockLen idx size, size) in
  cret match blocks s !! id with
       | Some m => match bm_partial m with None => Some (bm_size m, size) | Some _ => from_whole end
       | None => from_whole
       end.

(** locateRange: a partial block serves what its bitmap covers. *)
Definition locateRange (k : FileKey) (idx off n : Z) : CM (option (Z * Z)) :=
  let fh := key_hash k in
  let id := (fh, idx) in
  let+ s := cget Datatypes.id in
  let size := size_of fh s in
  let sparse := bool_decide (is_Some (in_part fh idx s)) in
  do+ cmod (touch_files fh idx);
  let bl := blockLen idx size in
  match blocks s !! id, sparse with
  | Some m, false =>
      do+ cmod (touch_block id);
      cret match bm_partial m with
           | None => Some (bm_size m, size)
           | Some p => if covers p off n then Some (if bl <=? 0 then off + n else bl, size) else None
           end
  | _, _ =>
      cret (if negb (is_hydrated fh s) && negb sparse then None
            else if bl <=? 0 then None else Some (bl, size))
  end.

(** readBlock: [n] bytes of a block from [off]. *)
Definition readBlock (k : FileKey) (idx off n fileSize : Z) : CM (res cerr (list Z)) :=
  let fh := key_hash k in
  let id := (fh, idx) in
  let base := (BlockRange idx fileSize).1 in
  if n =? 0 then cret (Ok [])
  else
    let+ s := cget Datatypes.id in
    match in_part fh idx s with
    | Some p =>
        try+ f := partFile fh (wp_ptr p) in
        f_read_at f (base + off) n
    | None =>
        match blocks s !! id with
        | Some m =>
            match bm_partial m with
            | Some p =>
                if bool_decide (subs m <> ∅) then
                  readPieces (bm_f m) (blockPath fh idx) (partialPieces (Z.to_nat n) m (p_sub p) off n 0)
                else
                  match bm_f m with
                  | Some f => f_read_at f off n
                  | None =>
                      let+ r := (try+ f := os_open (blockPath fh idx) in f_read_at f off n) in
                      match r with Err e => do+ forgetBlock id; cret (Err e) | Ok b => cret (Ok b) end
                  end
            | None =>
                match mem m, bm_f m with
                | Some d, _ => cret (Ok (pread d off n))
                | None, Some f => f_read_at f off n
                | None, None =>
                    let+ r := (try+ f := os_open (blockPath fh idx) in f_read_at f off n) in
                    match r with Err e => do+ forgetBlock id; cret (Err e) | Ok b => cret (Ok b) end
                end
            end
        | None =>
            try+ w := OpenWhole k in
            let+ r := f_read_at w.1 (base + off) n in
            do+ closeWhole w.2; cret r
        end
    end.

Definition countHit : CM unit := cmod (fun s => s <| hits ::= Z.succ |>).
Definition countMiss : CM unit := cmod (fun s => s <| misses ::= Z.succ |>).

(** Get: a whole block, or nothing. *)
Definition Get (k : FileKey) (idx : Z) : CM (option (list Z)) :=
  let+ l := locate k idx in
  match l with
  | None => do+ countMiss; cret None
  | Some (n, size) =>
      let+ r := readBlock k idx 0 n size in
      match r with
      | Err _ => do+ countMiss; cret None
      | Ok b => do+ countHit; cret (Some b)
      end
  end.
(** ReadAt: at most [len] bytes from [off] of a block. *)
Definition ReadAt (k : FileKey) (idx off len : Z) : CM (option (list Z)) :=
  let+ l := locateRange k idx off len in
  match l with
  | None => do+ countMiss; cret None
  | Some (n, size) =>
      if n <=? off then do+ countHit; cret (Some [])
      else
        let+ r := readBlock k idx off (Z.min len (n - off)) size in
        match r with
        | Err _ => do+ countMiss; cret None
        | Ok b => do+ countHit; cret (Some b)
        end
  end.
Definition Has (k : FileKey) (idx : Z) : CM bool := let+ l := locate k idx in cret (bool_decide (is_Some l)).
Definition HasRange (k : FileKey) (idx off n : Z) : CM bool :=
  let+ l := locateRange k idx off n in cret (bool_decide (is_Some l)).

(** ** Storing a block *)

(** The bookkeeping of a block admitted: the state of its file.  Whether the
    identity has still to be recorded. *)
Definition note_file (k : FileKey) (fileSize : Z) : CM bool :=
  let fh := key_hash k in
  do+ ensureFile fh k;
  let+ remember := cget (fun s => match files s !! fh with Some f => negb (keyWritten f) | None => true end) in
  do+ cmod (upd_file fh (fun f => f <| fs_key := k |> <| fs_size := fileSize |> <| generation ::= Z.succ |>
                                    <| keyWritten := true |>));
  cret remember.
(** [if fs.pinned || fs.userPinned { m.pinned = true }]. *)
Definition inherit_pin (id : blockID) : cache -> cache := fun s =>
  match files s !! id.1 with
  | Some f => if pinned f || userPinned f then upd_block id (fun m => m <| bm_pinned := true |>) s else s
  | None => s
  end.
Definition add_present (id : blockID) : cache -> cache :=
  upd_file id.1 (fun f => f <| present ::= union {[id.2]} |>).
Definition present_count (fh : string) (s : cache) : Z :=
  match files s !! fh with Some f => Z.of_nat (size (present f)) | None => 0 end.
Definition all_present (fh : string) (fileSize : Z) (s : cache) : bool :=
  (present_count fh s =? BlockCount fileSize) && (0 <? fileSize).
(** A new entry for a block, replacing what was there; bytes it holds in memory
    are pending. *)
Definition replace_block (id : blockID) (m : blockMeta) : cache -> cache := fun s =>
  (uncharge id s) <| blocks ::= insert id m |> <| bytes ::= Z.add (bm_size m) |> <| wb_pending ::= Z.add (mem_bytes m) |>.

(** put, with admitMu held. *)
Definition put (k : FileKey) (idx : Z) (data : list Z) (fileSize : Z) : CM (res cerr unit) :=
  if BlockSize <? zlen data then cret (Err (EMsg "cache: block exceeds block size"))
  else if wholeLayout fileSize then putPart k idx data fileSize
  else
    let fh := key_hash k in
    let id := (fh, idx) in
    let p := blockPath fh idx in
    try+ _room := blockRoom id 0 (zlen data) fileSize false in
    let+ w := os_write (tmpOf p) data in
    match w with
    | Err e => do+ discardTemp (tmpOf p); cret (Err e)
    | Ok _ =>
        let+ r := os_rename (tmpOf p) p in
        match r with
        | Err e => do+ discardTemp (tmpOf p); cret (Err e)
        | Ok _ =>
            let+ hadPartial := cget (fun s => match blocks s !! id with
                                              | Some m => bool_decide (is_Some (bm_partial m)) | None => false end) in
            let+ ptr := new_ptr in
            do+ cmod (fun s => replace_block id (newMeta ptr (zlen data) (now s)) s);
            let+ remember := note_file k fileSize in
            do+ cmod (add_present id);
            do+ cmod (inherit_pin id);
            let+ complete := cget (all_present fh fileSize) in
            do+ (if remember then rememberKey k else cret tt);
            do+ (if hadPartial then do+ os_remove (sidecarPath fh idx); cret tt else cret tt);
            do+ (if complete then scheduleHydrate k else cret tt);
            cret (Ok tt)
        end
    end.
Definition Put := put.

(** Present and Complete. *)
Definition Present (k : FileKey) (s : cache) : Z * Z :=
  match files s !! key_hash k with
  | None => (0, 0)
  | Some fs => let total := BlockCount (fs_size fs) in
               (if hydrated fs then total else Z.of_nat (size (present fs)), total)
  end.
Definition Complete (k : FileKey) (s : cache) : bool :=
  let '(have, total) := Present k s in (0 <? total) && (have =? total).

(** SettleFile: one round of its wait; [None]: still writing. *)
Definition settle_round (k : FileKey) (size_ : Z) (s : cache) : option (res cerr unit) :=
  let fh := key_hash k in
  if anyInMemory fh s then None
  else
    let complete := match files s !! fh with
                    | Some fs => hydrated fs || (Z.of_nat (size (present fs)) =? BlockCount size_)
                    | None => false end in
    Some (if complete then Ok tt else Err (EMsg "cache: pinned file is incomplete after cache writeback")).

(** ** Pins *)

Definition repin (fh : string) (b : bool) (s : cache) : cache :=
  s <| blocks ::= map_imap (fun id m => Some (if bool_decide (id.1 = fh) then m <| bm_pinned := b |> else m)) |>.
Definition Pin (k : FileKey) (b : bool) : CM unit :=
  let fh := key_hash k in
  do+ ensureFile fh k;
  do+ cmod (upd_file fh (fun f => f <| pinned := b |>));
  cmod (fun s => repin fh (b || match files s !! fh with Some f => userPinned f | None => false end) s).
Definition IsPinned (k : FileKey) (s : cache) : bool :=
  match files s !! key_hash k with Some f => pinned f || userPinned f | None => false end.
Definition SetUserPin (k : FileKey) (b : bool) : CM unit :=
  let fh := key_hash k in
  let+ f := cget (fun s => files s !! fh) in
  if bool_decide (f = None) && negb b then cret tt
  else
    do+ ensureFile fh k;
    let+ remember := cget (fun s => match files s !! fh with Some f => negb (keyWritten f) | None => true end) in
    let+ same := cget (fun s => match files s !! fh with Some f => Bool.eqb (userPinned f) b | None => false end) in
    do+ cmod (upd_file fh (fun f => f <| fs_key := k |> <| keyWritten := true |>));
    do+ (if same then cret tt
         else do+ cmod (upd_file fh (fun f => f <| userPinned := b |>));
              cmod (fun s => repin fh (b || match files s !! fh with Some f => pinned f | None => false end) s));
    if remember then rememberKey k else cret tt.

(** ** Forgetting a file *)

(** The closure [remove]: lstat(2), whose failure counts as one to unlink,
    then unlink. *)
Definition removeTarget (p : cpath) : CM (res cerr unit) :=
  let+ n := tick in
  if rm_fault n then cret (Err ErrIO)
  else let+ r := os_remove p in if rm_failed r then cret (Err ErrIO) else cret (Ok tt).
Fixpoint forget_blocks (l : list blockID) : CM (res cerr unit) :=
  match l with
  | [] => cret (Ok tt)
  | id :: l' =>
      try+ _u := removeTarget (blockPath id.1 id.2) in
      try+ _v := removeTarget (sidecarPath id.1 id.2) in
      do+ cmod (uncharge id);
      do+ cmod (del_present id);
      forget_blocks l'
  end.
Definition forget_sparse (fh : string) : CM (res cerr unit) :=
  let+ s := cget id in
  match files s !! fh, parts s !! fh with
  | Some fs, Some p =>
      if bool_decide (is_Some (fs_part fs)) then
        try+ _u := removeTarget (partPath fh) in
        try+ _v := removeTarget (partBitmapPath fh) in
        do+ forgetPart fh p true; cret (Ok tt)
      else cret (Ok tt)
  | _, _ => cret (Ok tt)
  end.
(** forgetFile: an unlink that fails stops it, what is left stays in the index. *)
Definition forgetFile (k : FileKey) (durable : bool) : CM (res cerr unit) :=
  let fh := key_hash k in
  do+ cmod (fun s => s <| hydrateWant ::= delete fh |>);
  let+ s := cget id in
  let+ n := tick in
  try+ _b := (if bool_decide (is_Some (files s !! fh)) then forget_blocks (ord_blocks n (blocks_of fh s))
              else cret (Ok tt)) in
  try+ _h := removeTarget (hydratedPath fh) in
  try+ _p := forget_sparse fh in
  do+ cmod (detachWhole fh);
  try+ _k := removeTarget (keyPath fh) in
  try+ _d := (if durable then try+ _u := f_sync in f_sync else cret (Ok tt)) in
  do+ cmod (fun s => s <| files ::= delete fh |>);
  cret (Ok tt).
Definition Forget (k : FileKey) : CM unit := do+ forgetFile k false; cret tt.
Definition ForgetChecked (k : FileKey) : CM (res cerr unit) := forgetFile k true.

(** ** What the cache says of itself *)

Record Stats := MkStats {
  st_Blocks : Z; st_Bytes : Z; st_Hits : Z; st_Misses : Z; st_Evictions : Z; st_HydratedFiles : Z;
  st_PinnedBlocks : Z; st_WholeBytes : Z; st_SparseBytes : Z; st_ReservedBytes : Z; st_WriteReservedBytes : Z;
  st_LeasedBytes : Z; st_OrphanBytes : Z
}.
Definition cacheStats (s : cache) : Stats :=
  MkStats (Z.of_nat (size (blocks s))) (bytes s + wholeBytes s + partBytes s + orphanBytes s)
    (hits s) (misses s) (evictions s)
    (map_fold (fun _ f acc => b2z (hydrated f) + acc) 0 (files s))
    (map_fold (fun _ m acc => b2z (bm_pinned m) + acc) 0 (blocks s))
    (wholeBytes s) (partBytes s) (reservedBytes s + detachedFlushBytes s) (writeReserved s)
    (map_fold (fun _ o acc => (if 0 <? readers o then o_size o else 0) + acc) 0 (objects s)) (orphanBytes s).

(** Known; Keys and UserPinnedKeys, before they are sorted for display. *)
Definition Known (k : FileKey) (s : cache) : bool :=
  if (RemoteID k =? "")%string then false else bool_decide (is_Some (files s !! key_hash k)).
Definition Keys (s : cache) : list FileKey :=
  map fs_key (filter (fun f => RemoteID (fs_key f) <> "") (map snd (map_to_list (files s)))).
Definition UserPinnedKeys (s : cache) : list FileKey :=
  map fs_key (filter (fun f => userPinned f = true /\ RemoteID (fs_key f) <> "") (map snd (map_to_list (files s)))).
End Blocks.
