(* ===== verification/CacheSub.v ===== *)
(** * Partial blocks (internal/cache/subblock.go)

    A random read stores only the sub-blocks it fetched.  They are kept in
    memory and written behind; a sidecar claims what the sparse block file
    holds, and may claim less than is there but never more. *)
From S2P Require Import Prelude CacheBits CacheState CacheRoom CacheWhole CacheBlocks.
Open Scope Z_scope.

Section Sub.
Context {E : CacheEnv} {Cfg : Options}.

(** writeSidecar. *)
Definition writeSidecar (id : blockID) (p : partial) : CM (res cerr unit) :=
  let path := sidecarPath id.1 id.2 in
  try+ _u := os_write_text (tmpOf path) (encode p) in os_rename_text (tmpOf path) path.

(** onDiskLocked: what the block file holds. *)
Definition onDisk (m : blockMeta) (p : partial) : partial :=
  foldl (fun q i => if p_has p i && bool_decide (subs m !! i = None) then p_set i q else q)
    (newPartialTotal (p_sub p) (p_total p)) (seqZ 0 (p_total p)).

(** noteClaimLocked: [was] is what claimLags said before the change. *)
Definition noteClaim (id : blockID) (was : bool) : cache -> cache := fun s =>
  match blocks s !! id with
  | Some m => s <| lagging ::= fun x => x + b2z (claimLags m) - b2z was |>
  | None => s
  end.

(** sweepClaims: catch up the claim of every block quiet for [minQuiet]. *)
Definition sweepBlock (minQuiet t : Z) (id : blockID) : CM unit :=
  let+ m := cget (fun s => blocks s !! id) in
  match m with
  | Some m =>
      match bm_partial m with
      | Some p =>
          if negb (claimLags m) || (t - sidecarAt m <? minQuiet) then cret tt
          else
            let d := onDisk m p in
            do+ cmod (upd_block id (fun m => m <| sidecarHave := p_have d |> <| sidecarAt := t |>));
            do+ cmod (noteClaim id true);
            do+ writeSidecar id d; cret tt
      | None => cret tt
      end
  | None => cret tt
  end.
Definition sweepClaims (minQuiet : Z) : CM unit :=
  let+ s := cget id in
  if lagging s =? 0 then cret tt
  else
    let+ n := tick in
    cforeach (ord_blocks n (map fst (map_to_list (blocks s)))) (sweepBlock minQuiet (now s)).
Definition sweepAllClaims : CM unit := sweepClaims 0.

(** claimBlock: an empty sidecar next to a partial block. *)
Definition claimBlock (id : blockID) (sub total : Z) : CM (res cerr unit) :=
  let+ m := cget (fun s => blocks s !! id) in
  let have := match m with
              | Some m => sidecarOn m || bool_decide (bm_partial m = None)
              | None => false end in
  let '(sub, total) := match m with
                       | Some m => match bm_partial m with Some p => (p_sub p, p_total p) | None => (sub, total) end
                       | None => (sub, total) end in
  if have then cret (Ok tt)
  else if (total <=? 0) || (sub <=? 0) then cret (Err (EMsg "cache: cannot claim block"))
  else
    let+ n := tick in (* Stat of the sidecar *)
    let+ there := cget (fun s => bool_decide (is_Some (texts (dsk s) !! sidecarPath id.1 id.2)) && bool_decide (io_fault n = None)) in
    try+ _w := (if there then cret (Ok tt) else writeSidecar id (newPartialTotal sub total)) in
    do+ cmod (fun s => upd_block id (fun m => m <| sidecarOn := true |> <| sidecarHave := 0 |> <| sidecarAt := now s |>) s);
    cret (Ok tt).

(** openPartialBlock: the claim, then the file, then its length. *)
Definition openPartialBlock (id : blockID) (sub total bl : Z) : CM (res cerr Z) :=
  try+ _c := claimBlock id sub total in
  try+ i := os_create (blockPath id.1 id.2) in
  let+ len := cget (fun s => zlen (data_of (dsk s) i)) in
  if negb (len =? bl) && (0 <? bl) then try+ _t := f_truncate i bl in cret (Ok i)
  else cret (Ok i).
(** removePartialBlock: data before claim. *)
Definition removePartialBlock (id : blockID) : CM unit :=
  do+ os_remove (blockPath id.1 id.2); do+ os_remove (sidecarPath id.1 id.2); cret tt.
(** dropPartial. *)
Definition dropPartial (id : blockID) : CM unit :=
  do+ cmod (uncharge id); removePartialBlock id.

(** The length of sub-block [i] of a block of [bl] bytes. *)
Definition sub_len (sub bl i : Z) : Z := if bl <? (i + 1) * sub then bl - i * sub else sub.

(** The checks PutRange and putRangeSync begin with; [Some r]: return r. *)
Definition range_checks (idx off len fileSize : Z) : option (res cerr unit) :=
  let bl := blockLen idx fileSize in
  let sub := subSize in
  if bl <=? 0 then Some (Err (EMsg "cache: block is outside the file"))
  else if (off <? 0) || (bl <? off + len) then Some (Err (EMsg "cache: range exceeds block length"))
  else if negb (off mod sub =? 0) || (negb (len mod sub =? 0) && negb (off + len =? bl)) then
    Some (Err (EMsg "cache: range is not sub-block aligned"))
  else if len =? 0 then Some (Ok tt) else None.

(** The sub-blocks [off, off+len) covers. *)
Definition range_subs (off len : Z) : list Z :=
  let sub := subSize in seqZ (off / sub) ((off + len - 1) / sub - off / sub + 1).

(** The entry a partial block starts from. *)
Definition partialMeta (id : blockID) (bl : Z) (s : cache) : cache :=
  match blocks s !! id with
  | Some _ => s
  | None => s <| blocks ::= insert id ((newMeta (next_ptr s) 0 (now s)) <| bm_partial := Some (newPartial subSize bl) |>) |>
              <| next_ptr ::= Z.succ |>
  end.
Definition lags_at (id : blockID) (s : cache) : bool :=
  match blocks s !! id with Some m => claimLags m | None => false end.
Definition part_of (id : blockID) (s : cache) : option partial :=
  match blocks s !! id with Some m => bm_partial m | None => None end.
(** Sub-block [i] is present now; [hold]: its bytes, to be written behind. *)
Definition gain_sub (id : blockID) (bl i : Z) (hold : option (list Z)) (s : cache) : cache :=
  match part_of id s with
  | Some p =>
      if p_has p i then s
      else
        let n := sub_len subSize bl i in
        let s1 := upd_block id (fun m =>
          (match hold with Some b => m <| subs ::= insert i b |> | None => m end)
            <| bm_partial ::= fmap (p_set i) |> <| bm_size ::= Z.add n |>) s <| bytes ::= Z.add n |> in
        match hold with Some _ => s1 <| wb_pending ::= Z.add n |> | None => s1 end
  | None => s
  end.

(** The descriptor of a block being filled is kept, up to a number of them. *)
Definition keep_open (id : blockID) (f : Z) (s : cache) : cache :=
  match blocks s !! id with
  | Some m => if bool_decide (bm_f m = None) && (openPartials s <? maxOpenPartials)
              then upd_block id (fun m => m <| bm_f := Some f |>) (s <| openPartials ::= Z.succ |>) else s
  | None => s
  end.
(** A block whose sub-blocks are all there becomes a whole one.  The code does
    not look at [subs] here: flushSubs has just emptied it, putRangeSync has not. *)
Definition promote (id : blockID) (s : cache) : cache :=
  match blocks s !! id with
  | Some m => upd_block id (fun m => m <| bm_partial := None |> <| sidecarOn := false |>
                                       <| sidecarHave := 0 |> <| bm_f := None |>)
                (s <| openPartials ::= fun x => x - b2z (bool_decide (is_Some (bm_f m))) |>)
  | None => s
  end.

(** The write-behind queue: it exists from the first admission on. *)
Definition start_queue (s : cache) : cache :=
  match wb_queue s with None => s <| wb_queue := Some [] |> | Some _ => s end.
Definition enqueue (id : blockID) : CM bool :=
  let+ s := cget Datatypes.id in
  match wb_queue s with
  | Some _ => if wb_closed s then cret false
              else do+ cmod (fun s => s <| wb_queue ::= fmap (fun q => q ++ [id]) |>); cret true
  | None => cret false
  end.

(** putRangeSync: the range straight to the block file. *)
Definition putRangeSync (k : FileKey) (idx off : Z) (data : list Z) (fileSize : Z) : CM (res cerr unit) :=
  let fh := key_hash k in
  let id := (fh, idx) in
  let bl := blockLen idx fileSize in
  let sub := subSize in
  match range_checks idx off (zlen data) fileSize with
  | Some r => cret r
  | None =>
      try+ _room := blockRoom id off (zlen data) fileSize true in
      let+ open := cget (fun s => match blocks s !! id with Some m => bm_f m | None => None end) in
      try+ f := (match open with
                 | Some f => cret (Ok f)
                 | None => openPartialBlock id sub ((bl + sub - 1) / sub) bl end) in
      try+ _w := f_write_at f off data in
      let+ old := cget (fun s => blocks s !! id) in
      if match old with Some m => bool_decide (bm_partial m = None) | None => false end then cret (Ok tt)
      else
        do+ cmod (partialMeta id bl);
        do+ (if bool_decide (open = None) then cmod (keep_open id f) else cret tt);
        let+ was := cget (lags_at id) in
        do+ cforeach (range_subs off (zlen data)) (fun i => cmod (gain_sub id bl i None));
        do+ cmod (fun s => upd_block id (fun m => m <| bm_access := now s |>) s);
        let+ remember := note_file k fileSize in
        do+ cmod (inherit_pin id);
        let+ s := cget Datatypes.id in
        match blocks s !! id with
        | None => cret (Ok tt)
        | Some m =>
            match bm_partial m with
            | None => cret (Ok tt)
            | Some p =>
                if p_full p then
                  do+ cmod (promote id);
                  do+ cmod (add_present id);
                  do+ cmod (noteClaim id was);
                  let+ complete := cget (fun s => all_present fh fileSize s && negb (anyInMemory fh s)) in
                  do+ (if remember then rememberKey k else cret tt);
                  do+ os_remove (sidecarPath fh idx);
                  do+ (if wholeLayout fileSize then adoptBlockIntoPart k idx
                       else if complete then scheduleHydrate k else cret tt);
                  cret (Ok tt)
                else
                  let due := claimDue (p_have p) (sidecarHave m) (sidecarAt m) (now s) in
                  do+ (if due then cmod (upd_block id (fun m => m <| sidecarHave := p_have p |> <| sidecarAt := now s |>))
                       else cret tt);
                  do+ cmod (noteClaim id was);
                  do+ (if remember then rememberKey k else cret tt);
                  if due then writeSidecar id p else cret (Ok tt)
            end
        end
  end.

Fixpoint write_subs (f sub : Z) (l : list (Z * list Z)) : CM (res cerr unit) :=
  match l with
  | [] => cret (Ok tt)
  | (i, b) :: l' => try+ _w := f_write_at f (i * sub) b in write_subs f sub l'
  end.
(** flushSubs: the sub-blocks in memory go to the file; a block that is whole
    then is promoted. *)
Definition flushSubs (id : blockID) : CM unit :=
  let fh := id.1 in
  let+ s := cget Datatypes.id in
  match blocks s !! id with
  | None => cret tt
  | Some m =>
      do+ cmod (upd_block id (fun m => m <| subQueued := false |>));
      match bm_partial m with
      | None => cret tt
      | Some p =>
          if bool_decide (subs m = ∅) then cret tt
          else
            let '(key, fileSize, bl) := match files s !! fh with
              | Some fs => (fs_key fs, fs_size fs, blockLen id.2 (fs_size fs))
              | None => (noKey, 0, 0) end in
            let+ f := (match bm_f m with
                       | Some f => cret (Ok f)
                       | None => openPartialBlock id (p_sub p) (p_total p) bl end) in
            match f with
            | Err _ => dropPartial id
            | Ok f =>
                let+ w := write_subs f (p_sub p) (map_to_list (subs m)) in
                match w with
                | Err _ => dropPartial id
                | Ok _ =>
                    do+ cmod (upd_block id (fun m => m <| subs := ∅ |>));
                    do+ (if bool_decide (bm_f m = None) then cmod (keep_open id f) else cret tt);
                    let+ s := cget Datatypes.id in
                    match blocks s !! id with
                    | None => cret tt
                    | Some m1 =>
                        let d := onDisk m1 p in
                        let was := claimLags m1 in
                        if p_full d then
                          do+ cmod (promote id);
                          do+ cmod (add_present id);
                          let+ complete := cget (fun s => all_present fh (size_of fh s) s && negb (anyInMemory fh s)) in
                          do+ cmod (noteClaim id was);
                          do+ os_remove (sidecarPath fh id.2);
                          do+ (if wholeLayout fileSize then adoptBlockIntoPart key id.2 else cret tt);
                          do+ cmod (fun s => s <| wb_pending ::= fun x => x - sub_bytes m |>);
                          if complete && negb (wholeLayout fileSize) then scheduleHydrate key else cret tt
                        else
                          let due := claimDue (p_have d) (sidecarHave m1) (sidecarAt m1) (now s) in
                          do+ (if due then cmod (upd_block id (fun m => m <| sidecarHave := p_have d |> <| sidecarAt := now s |>))
                               else cret tt);
                          do+ cmod (noteClaim id was);
                          do+ (if due then do+ writeSidecar id d; cret tt else cret tt);
                          cmod (fun s => s <| wb_pending ::= fun x => x - sub_bytes m |>)
                    end
                end
            end
      end
  end.

(** PutRange: part of a block, kept in memory while there is room for it. *)
Definition hold_subs (id : blockID) (bl off : Z) (data : list Z) : CM unit :=
  cforeach (range_subs off (zlen data)) (fun i =>
    cmod (gain_sub id bl i (Some (pread data ((i - off / subSize) * subSize) (sub_len subSize bl i))))).
Definition PutRange (k : FileKey) (idx off : Z) (data : list Z) (fileSize : Z) : CM (res cerr unit) :=
  let fh := key_hash k in
  let id := (fh, idx) in
  let bl := blockLen idx fileSize in
  match range_checks idx off (zlen data) fileSize with
  | Some r => cret r
  | None =>
      try+ _room := blockRoom id off (zlen data) fileSize true in
      let+ s := cget Datatypes.id in
      if wb_closed s || (WriteBehindBudget <? wb_pending s + zlen data) then putRangeSync k idx off data fileSize
      else if match blocks s !! id with Some m => bool_decide (bm_partial m = None) | None => false end
      then cret (Ok tt)
      else
        do+ cmod (partialMeta id bl);
        let+ was := cget (lags_at id) in
        do+ hold_subs id bl off data;
        do+ cmod (noteClaim id was);
        do+ cmod (fun s => upd_block id (fun m => m <| bm_access := now s |>) s);
        let+ remember := note_file k fileSize in
        do+ cmod (inherit_pin id);
        do+ cmod start_queue;
        let+ queued := cget (fun s => match blocks s !! id with Some m => subQueued m | None => true end) in
        do+ cmod (upd_block id (fun m => m <| subQueued := true |>));
        do+ (if remember then rememberKey k else cret tt);
        if queued then cret (Ok tt)
        else
          let+ ok := enqueue id in
          do+ (if ok then cret tt else flushSubs id); cret (Ok tt)
  end.
End Sub.
