(* ===== verification/CacheBehind.v ===== *)
(** * Write-behind, shutdown and restart (internal/cache/writebehind.go, blockcache.go, sparse.go)

    A block handed over by [PutAsync] is readable at once from memory; a worker
    writes it out later in two steps, between which anything may happen to it.
    A restart rebuilds the index from the names on disk. *)
From S2P Require Import Prelude CacheBits CacheState CacheRoom CacheWhole CacheBlocks CacheSub.
Open Scope Z_scope.

Section Behind.
Context {E : CacheEnv} {Cfg : Options}.

(** A flush under way: the entry it began with, its bytes, whether it goes to
    a sparse file. *)
Record flight := MkFlight { fl_id : blockID; fl_ptr : Z; fl_data : list Z; fl_sparse : bool }.

(** flushBlock up to the write; [None]: there was nothing left to do. *)
Definition flush_begin (id : blockID) : CM (option flight) :=
  let+ s := cget Datatypes.id in
  match blocks s !! id with
  | None => cret None
  | Some m =>
      match mem m with
      | None => match bm_partial m with
                | Some _ => do+ flushSubs id; cret None
                | None => cret None end
      | Some data =>
          if flushing m then cret None
          else
            do+ cmod (upd_block id (fun m => m <| flushing := true |>));
            cret (Some (MkFlight id (bm_ptr m) data
              (match files s !! id.1 with Some fs => wholeLayout (fs_size fs) | None => false end)))
      end
  end.

(** The deferred end of a flush, also of one whose block was replaced. *)
Definition flush_done (f : flight) : CM unit :=
  cmod (fun s =>
    let s1 := match blocks s !! fl_id f with
              | Some m => if bm_ptr m =? fl_ptr f then upd_block (fl_id f) (fun m => m <| flushing := false |>) s else s
              | None => s end in
    if bool_decide (fl_ptr f ∈ detached s1) then
      s1 <| detached ::= fun d => d ∖ {[fl_ptr f]} |>
         <| detachedFlushBytes ::= fun x => x - zlen (fl_data f) |> <| detachedFlushEntries ::= Z.pred |>
    else s1).
(** The file is still the one the flush began with, and still in memory. *)
Definition flush_current (f : flight) (s : cache) : bool :=
  match blocks s !! fl_id f with
  | Some m => (bm_ptr m =? fl_ptr f) && bool_decide (is_Some (mem m))
  | None => false
  end.
(** The write, the validation and the publication under its path. *)
Definition flush_end (f : flight) : CM unit :=
  let id := fl_id f in
  let fh := id.1 in
  if fl_sparse f then do+ flushMemToPart id (fl_ptr f) (fl_data f); flush_done f
  else
    let+ tmp := fresh_scratch in
    let+ c := os_create tmp in
    let+ w := (match c with Err e => cret (Err e) | Ok _ => os_write tmp (fl_data f) end) in
    let+ s := cget Datatypes.id in
    let+ complete :=
      (if negb (flush_current f s) then cret None
       else
         let+ r := (match w with Err e => cret (Err e) | Ok _ => os_rename tmp (blockPath fh id.2) end) in
         match r with
         | Err _ => do+ drop_flushed id; cret None
         | Ok _ =>
             do+ os_remove (sidecarPath fh id.2);
             do+ cmod (release_mem id);
             let+ s := cget Datatypes.id in
             cret match files s !! fh with
                  | Some fs => if negb (hydrated fs) && all_present fh (fs_size fs) s && negb (anyInMemory fh s)
                               then Some (fs_key fs) else None
                  | None => None end
         end) in
    do+ (match complete with Some key => scheduleHydrate key | None => cret tt end);
    do+ (match c with Ok _ => discardTemp tmp | Err _ => cret tt end);
    flush_done f.

(** A worker takes the head of the queue. *)
Definition dequeue : CM (option blockID) :=
  let+ q := cget wb_queue in
  match q with
  | Some (id :: q') => do+ cmod (fun s => s <| wb_queue := Some q' |>); cret (Some id)
  | _ => cret None
  end.

(** PutAsync. *)
Definition PutAsync (k : FileKey) (idx : Z) (data : list Z) (fileSize : Z) : CM (res cerr unit) :=
  if BlockSize <? zlen data then put k idx data fileSize
  else
    let fh := key_hash k in
    let id := (fh, idx) in
    try+ _room := blockRoom id 0 (zlen data) fileSize false in
    let+ s := cget Datatypes.id in
    if wb_closed s || (WriteBehindBudget - subBlockReserve <? wb_pending s + zlen data) then put k idx data fileSize
    else
      let+ ptr := new_ptr in
      do+ cmod (fun s => replace_block id ((newMeta ptr (zlen data) (now s)) <| mem := Some data |>) s);
      let+ remember := note_file k fileSize in
      do+ cmod (add_present id);
      do+ cmod (inherit_pin id);
      do+ cmod start_queue;
      do+ (if remember then rememberKey k else cret tt);
      let+ ok := enqueue id in
      do+ (if ok then cret tt
           else let+ f := flush_begin id in match f with Some f => flush_end f | None => cret tt end);
      cret (Ok tt).

(** Close: no more admissions; then, when the workers have drained the queue
    and no hydration runs, the claims are settled. *)
Definition close_begin : CM unit :=
  cmod (fun s => if wb_closed s then s else s <| wb_closed := true |> <| hydrateWant := ∅ |>).
Definition close_end : CM unit := do+ sweepAllClaims; closeParts.

(** ** Restart (reload) *)

Definition load_file (fh : string) : CM unit := ensureFile fh noKey.
(** readKey: the three lines of a key file. *)
Definition newline_char : Ascii.ascii := Ascii.ascii_of_nat 10.
Fixpoint cut_line (s : string) : string * option string :=
  match s with
  | EmptyString => ("", None)
  | String c s' => if Ascii.eqb c newline_char then ("", Some s')
                   else let '(a, b) := cut_line s' in (String c a, b)
  end.
Definition parseKey (body : string) : option FileKey :=
  match cut_line body with
  | (r, Some rest) =>
      match cut_line rest with
      | (i, Some v) => match cut_line v with
                       | (v, None) => if (i =? "")%string then None else Some (MkKey r i v)
                       | _ => None end
      | _ => None end
  | _ => None
  end.
Definition load_key (fh : string) : CM unit :=
  let+ b := os_read_text (keyPath fh) in
  match b with
  | Err _ => cret tt
  | Ok b => match parseKey b with
            | Some k => if bool_decide (fh = key_hash k) then
                          do+ load_file fh; cmod (upd_file fh (fun f => f <| fs_key := k |>))
                        else cret tt
            | None => cret tt end
  end.
(** A block file, partial if its sidecar says so. *)
Definition load_block (id : blockID) : CM unit :=
  let fh := id.1 in
  let+ d := cget dsk in
  match file_at d (blockPath fh id.2) with
  | None => cret tt
  | Some (_, n) =>
      do+ load_file fh;
      let+ raw := os_read_text (sidecarPath fh id.2) in
      let+ ptr := new_ptr in
      match raw with
      | Ok raw =>
          match decodePartial raw with
          | Some pt =>
              if negb (p_sub pt =? subSize) then removePartialBlock id
              else
                let size := p_have pt * p_sub pt in
                cmod (fun s => s <| blocks ::= insert id ((newMeta ptr size (n_mtime n))
                                     <| bm_partial := Some pt |> <| sidecarOn := true |> <| sidecarHave := p_have pt |>
                                     <| sidecarAt := now s |>) |> <| bytes ::= Z.add size |>)
          | None => removePartialBlock id
          end
      | Err _ =>
          do+ cmod (fun s => s <| blocks ::= insert id (newMeta ptr (zlen (n_data n)) (n_mtime n)) |>
                               <| bytes ::= Z.add (zlen (n_data n)) |>);
          cmod (add_present id)
      end
  end.
Definition load_hydrated (fh : string) : CM unit :=
  let+ d := cget dsk in
  match file_at d (hydratedPath fh) with
  | None => cret tt
  | Some (i, n) => do+ load_file fh; cmod (attachWhole fh (info_of i n))
  end.
(** adoptPart: a sparse file and its bitmap agree, or the file is not kept. *)
Definition adoptPart (fh : string) : CM bool :=
  let+ s := cget id in
  match file_at (dsk s) (partPath fh) with
  | None => cret false
  | Some (i, n) =>
      if is_hydrated fh s then cret false
      else
        let+ raw := os_read_text (partBitmapPath fh) in
        match raw with
        | Err _ => cret false
        | Ok raw =>
            match decodePartBitmap raw BlockSize with
            | None => cret false
            | Some (bits, size) =>
                if negb (size =? zlen (n_data n)) || (p_have bits =? 0) then cret false
                else
                  do+ load_file fh;
                  do+ cmod (upd_file fh (fun f => f <| fs_size := size |>));
                  if p_full bits then
                    let+ r := os_rename (partPath fh) (hydratedPath fh) in
                    match r with
                    | Err _ => cret false
                    | Ok _ =>
                        do+ os_remove (partBitmapPath fh);
                        let+ st := os_stat (hydratedPath fh) in
                        match st with
                        | Err _ => cret false
                        | Ok inf => do+ cmod (attachWhole fh inf); cret true
                        end
                    end
                  else
                    let+ ptr := new_ptr in
                    let have := set_bits bits in
                    let total := foldr (fun i acc => blockLen i size + acc) 0 have in
                    do+ cmod (upd_file fh (fun f => f <| present ::= union (list_to_set have) |> <| fs_part := Some ptr |>));
                    do+ cmod (fun s => s <| parts ::= insert fh (MkPart ptr size bits total None (p_have bits) (now s)
                                                                   (n_mtime n) false) |>
                                         <| partBytes ::= Z.add total |>);
                    cret true
            end
        end
  end.
(** reloadParts, for one sparse file; then the bitmaps left without one. *)
Definition load_part (fh : string) : CM unit :=
  let+ kept := adoptPart fh in
  if kept then cret tt
  else do+ os_remove (partPath fh); do+ os_remove (partBitmapPath fh); cret tt.
Definition drop_bitmap (fh : string) : CM unit :=
  let+ p := cget (fun s => parts s !! fh) in
  match p with Some _ => cret tt | None => do+ os_remove (partBitmapPath fh); cret tt end.

(** The names of one kind, from the walk of the directory. *)
Definition names_of (k : pkind) (d : disk) : list (string * Z) :=
  omap (fun p => match p with (k', f, i) => if bool_decide (k' = k) then Some (f, i) else None end)
    (map fst (map_to_list (names d))).
Definition texts_of (k : pkind) (d : disk) : list (string * Z) :=
  omap (fun p => match p with (k', f, i) => if bool_decide (k' = k) then Some (f, i) else None end)
    (map fst (map_to_list (texts d))).
(** Those of the kinds that have one name per file. *)
Definition whole_names (k : pkind) (d : disk) : list string :=
  omap (fun x => if x.2 =? 0 then Some x.1 else None) (names_of k d).
Definition whole_texts (k : pkind) (d : disk) : list string :=
  omap (fun x => if x.2 =? 0 then Some x.1 else None) (texts_of k d).
(** An abandoned temporary, under blocks/ or hydrated/. *)
Definition load_temp (p : cpath) (size : Z) : CM unit :=
  cmod (fun s => s <| orphanTemps ::= insert p size |> <| orphanBytes ::= Z.add size |>).
Definition load_temps (k : pkind) : CM unit :=
  let+ d := cget dsk in
  cforeach (names_of k d) (fun x =>
    match file_at d (k, x.1, x.2) with Some (_, n) => load_temp (k, x.1, x.2) (zlen (n_data n)) | None => cret tt end).
Definition load_text_temps (k : pkind) : CM unit :=
  let+ d := cget dsk in
  cforeach (texts_of k d) (fun x =>
    match texts d !! (k, x.1, x.2) with
    | Some b => load_temp (k, x.1, x.2) (Z.of_nat (String.length b)) | None => cret tt end).
(** reload. *)
Definition reload : CM unit :=
  let+ d := cget dsk in
  do+ load_temps KBlockTmp; do+ load_temps KScratch; do+ load_text_temps KSidecarTmp; do+ load_text_temps KKeyTmp;
  do+ cforeach (whole_texts KKey d) load_key;
  do+ cforeach (names_of KBlock d) load_block;
  do+ cforeach (whole_names KHydrated d) load_hydrated;
  do+ cforeach (whole_names KPart d) load_part;
  do+ cforeach (texts_of KBitmapTmp d) (fun x => do+ os_remove (KBitmapTmp, x.1, x.2); cret tt);
  cforeach (whole_texts KBitmap d) drop_bitmap.
(** New, once the directories exist. *)
Definition New (d : disk) (t : Z) : res cerr cache :=
  if BlockSize <=? 0 then Err (EMsg "cache: BlockSize must be positive")
  else if (Dir =? "")%string then Err (EMsg "cache: Dir must be set")
  else Ok (snd (reload (emptyCache d t))).
End Behind.
