(* ===== verification/CacheFrame.v ===== *)
(** * What the operations of the read cache leave alone

    [fixes f m]: running [m] does not change the part [f] of the state.  The
    system calls change nothing but the directory and the count of calls, so a
    part that does not look at those ([Blind]) is fixed by all of them.

    Each counter of the cache is meant to be a sum over its index.  [defect] is
    how far the counters are from those sums; no operation changes it. *)
From S2P Require Import Prelude CacheBits CacheState CacheRoom CacheWhole CacheBlocks CacheSub CacheBehind.
Open Scope Z_scope.

Definition fixes {A X} (f : cache -> X) (m : CM A) : Prop := forall s, f (m s).2 = f s.
(** Both results of a step, from a precondition. *)
Definition triple {A} (P : cache -> Prop) (m : CM A) (Q : A -> cache -> Prop) : Prop :=
  forall s, P s -> Q (m s).1 (m s).2.
Definition keeps {A} (P : cache -> Prop) (m : CM A) : Prop := triple P m (fun _ => P).

Section Rules.
Context {X : Type} (f : cache -> X).

Lemma fix_bind {A B} (m : CM A) (k : A -> CM B) : fixes f m -> (forall a, fixes f (k a)) -> fixes f (cbind m k).
Proof. intros Hm Hk s. unfold cbind. specialize (Hm s). destruct (m s) as [a s']. simpl in Hm. by rewrite (Hk a s'). Qed.
Lemma fix_then {A B} (m : CM A) (k : CM B) : fixes f m -> fixes f k -> fixes f (cthen m k).
Proof. intros Hm Hk s. unfold cthen. by rewrite Hk, Hm. Qed.
Lemma fix_ret {A} (a : A) : fixes f (cret a).
Proof. done. Qed.
Lemma fix_get {A} (g : cache -> A) : fixes f (cget g).
Proof. done. Qed.
(** A read is followed knowing what was read. *)
Lemma fix_read {A B} (g : cache -> A) (k : A -> CM B) :
  (forall s, f (k (g s) s).2 = f s) -> fixes f (cbind (cget g) k).
Proof. intros H s. apply H. Qed.
(** The same from one state, where something is known. *)
Lemma fix_then_at {A B} (m : CM A) (k : CM B) s : f (m s).2 = f s -> fixes f k -> f (cthen m k s).2 = f s.
Proof. intros Hm Hk. unfold cthen. by rewrite Hk. Qed.
Lemma fix_bind_at {A B} (m : CM A) (k : A -> CM B) s : f (m s).2 = f s -> (forall a, fixes f (k a)) -> f (cbind m k s).2 = f s.
Proof. intros Hm Hk. unfold cbind. destruct (m s) as [a s']. by rewrite (Hk a s'). Qed.
Lemma fix_at {A} (m : CM A) s : fixes f m -> f (m s).2 = f s.
Proof. intros H. apply H. Qed.
Lemma fix_mod g : (forall s, f (g s) = f s) -> fixes f (cmod g).
Proof. intros H s. apply H. Qed.
Lemma fix_foreach {A} (l : list A) (g : A -> CM unit) : (forall x, fixes f (g x)) -> fixes f (cforeach l g).
Proof. intros H. induction l; simpl; [done|]. by apply fix_then. Qed.
Lemma fix_if {A} (b : bool) (m n : CM A) : fixes f m -> fixes f n -> fixes f (if b then m else n).
Proof. by destruct b. Qed.
End Rules.

Section Triples.
Lemma triple_bind {A B} P (m : CM A) Q (k : A -> CM B) R :
  triple P m Q -> (forall a, triple (Q a) (k a) R) -> triple P (cbind m k) R.
Proof. intros Hm Hk s H. unfold cbind. specialize (Hm s H). destruct (m s) as [a s']. by apply (Hk a s'). Qed.
Lemma triple_then {A B} P (m : CM A) (Q : cache -> Prop) (k : CM B) R :
  triple P m (fun _ => Q) -> triple Q k R -> triple P (cthen m k) R.
Proof. intros Hm Hk s H. apply Hk. by apply (Hm s H). Qed.
Lemma triple_ret {A} (P : cache -> Prop) (a : A) (Q : A -> cache -> Prop) : (forall s, P s -> Q a s) -> triple P (cret a) Q.
Proof. intros H s. apply H. Qed.
Lemma triple_mod (P : cache -> Prop) g (Q : unit -> cache -> Prop) : (forall s, P s -> Q tt (g s)) -> triple P (cmod g) Q.
Proof. intros H s. apply H. Qed.
Lemma triple_read {A B} (P : cache -> Prop) (g : cache -> A) (k : A -> CM B) R :
  (forall a, triple (fun s => P s /\ g s = a) (k a) R) -> triple P (cbind (cget g) k) R.
Proof. intros H s Hs. by apply (H (g s) s). Qed.
Lemma triple_pre {A} (P P' : cache -> Prop) (m : CM A) Q : (forall s, P s -> P' s) -> triple P' m Q -> triple P m Q.
Proof. intros H Hm s Hs. apply Hm, H, Hs. Qed.
Lemma triple_post {A} P (m : CM A) (Q Q' : A -> cache -> Prop) : triple P m Q -> (forall a s, Q a s -> Q' a s) -> triple P m Q'.
Proof. intros Hm H s Hs. apply H, Hm, Hs. Qed.
Lemma keeps_bind {A B} P (m : CM A) (k : A -> CM B) : keeps P m -> (forall a, keeps P (k a)) -> keeps P (cbind m k).
Proof. intros Hm Hk. by eapply triple_bind. Qed.
Lemma keeps_then {A B} P (m : CM A) (k : CM B) : keeps P m -> keeps P k -> keeps P (cthen m k).
Proof. intros Hm Hk. by eapply triple_then. Qed.
Lemma keeps_foreach {A} P (l : list A) (g : A -> CM unit) : (forall x, keeps P (g x)) -> keeps P (cforeach l g).
Proof. intros H. induction l; simpl; [by apply triple_ret|]. eapply triple_then; [apply H|done]. Qed.
(** A property of a fixed part is kept. *)
Lemma fixes_keeps {A X} (f : cache -> X) (P : X -> Prop) (m : CM A) : fixes f m -> keeps (fun s => P (f s)) m.
Proof. intros H s Hs. by rewrite H. Qed.
End Triples.

(** A part of the state that looks neither at the directory nor at the counts
    of calls and pointers. *)
Class Blind {X} (f : cache -> X) : Prop := {
  blind_ticks : forall s g, f (s <| ticks ::= g |>) = f s;
  blind_ptr : forall s g, f (s <| next_ptr ::= g |>) = f s;
  blind_dsk : forall s g, f (s <| dsk ::= g |>) = f s
}.

Create HintDb fixes.
#[export] Hint Extern 0 (Blind _) => typeclasses eauto : fixes.
(** One step of a frame proof. *)
Ltac fix_step :=
  match goal with
  | |- fixes _ (match ?x with _ => _ end) => destruct x
  | |- fixes _ (cret _) => apply fix_ret
  | |- fixes _ (cget _) => apply fix_get
  | |- _ => solve [eauto 2 with fixes]
  | |- fixes _ (cbind _ _) => apply fix_bind; [|intros ?]
  | |- fixes _ (cthen _ _) => apply fix_then
  | |- fixes _ (cforeach _ _) => apply fix_foreach; intros ?
  | |- fixes _ (cmod _) => apply fix_mod; intros; reflexivity
  end.
Ltac fixing := repeat fix_step.

Section Syscalls.
Context {E : CacheEnv} {Cfg : Options} {X : Type} (f : cache -> X) {B : Blind f}.

Lemma fix_tick : fixes f tick.
Proof. intros s. apply blind_ticks. Qed.
Lemma fix_new_ptr : fixes f new_ptr.
Proof. intros s. apply blind_ptr. Qed.
Lemma fix_on_disk g : fixes f (on_disk g).
Proof. intros s. apply blind_dsk. Qed.
Hint Resolve fix_tick fix_new_ptr fix_on_disk : fixes.
Lemma fix_os_remove p : fixes f (os_remove p).
Proof. unfold os_remove. fixing. Qed.
Lemma fix_os_write p d : fixes f (os_write p d).
Proof. unfold os_write. fixing. Qed.
Lemma fix_os_write_text p d : fixes f (os_write_text p d).
Proof. unfold os_write_text. fixing. Qed.
Lemma fix_os_rename p q : fixes f (os_rename p q).
Proof. unfold os_rename. fixing. Qed.
Lemma fix_os_rename_text p q : fixes f (os_rename_text p q).
Proof. unfold os_rename_text. fixing. Qed.
Lemma fix_os_link p q : fixes f (os_link p q).
Proof. unfold os_link. fixing. Qed.
Lemma fix_os_open p : fixes f (os_open p).
Proof. unfold os_open. fixing. Qed.
Lemma fix_os_stat p : fixes f (os_stat p).
Proof. unfold os_stat. fixing. Qed.
Lemma fix_os_read_text p : fixes f (os_read_text p).
Proof. unfold os_read_text. fixing. Qed.
Lemma fix_f_read_at i o n : fixes f (f_read_at i o n).
Proof. unfold f_read_at. fixing. Qed.
Lemma fix_f_write_at i o b : fixes f (f_write_at i o b).
Proof. unfold f_write_at. fixing. Qed.
Lemma fix_f_truncate i n : fixes f (f_truncate i n).
Proof. unfold f_truncate. fixing. Qed.
Lemma fix_f_sync : fixes f f_sync.
Proof. unfold f_sync. fixing. Qed.
Lemma fix_os_create p : fixes f (os_create p).
Proof. unfold os_create. fixing. Qed.
Lemma fix_fresh_scratch : fixes f fresh_scratch.
Proof. unfold fresh_scratch. fixing. Qed.
Hint Resolve fix_os_remove fix_os_write fix_os_write_text fix_os_rename fix_os_rename_text fix_os_link fix_os_open
  fix_os_stat fix_os_read_text fix_f_read_at fix_f_write_at fix_f_truncate fix_f_sync fix_os_create fix_fresh_scratch : fixes.
Lemma fix_removeTarget p : fixes f (removeTarget p).
Proof. unfold removeTarget. fixing. Qed.
Lemma fix_rememberKey k : fixes f (rememberKey k).
Proof. unfold rememberKey. fixing. Qed.
Lemma fix_writeSidecar id p : fixes f (writeSidecar id p).
Proof. unfold writeSidecar. fixing. Qed.
Lemma fix_writePartBitmap fh n p : fixes f (writePartBitmap fh n p).
Proof. unfold writePartBitmap. fixing. Qed.
Lemma fix_removePartialBlock id : fixes f (removePartialBlock id).
Proof. unfold removePartialBlock. fixing. Qed.
Lemma fix_readInto p : fixes f (readInto p).
Proof. unfold readInto. fixing. Qed.
Lemma fix_write_subs i sub l : fixes f (write_subs i sub l).
Proof. induction l as [|[j b] l IH]; simpl; fixing. Qed.
Lemma fix_readPieces_loop i l acc : fixes f (readPieces_loop i l acc).
Proof. revert acc. induction l as [|p l IH]; intros acc; simpl; fixing. Qed.
Hint Resolve fix_readPieces_loop : fixes.
Lemma fix_readPieces o p l : fixes f (readPieces o p l).
Proof. unfold readPieces. fixing. Qed.
End Syscalls.

#[export] Hint Resolve fix_tick fix_new_ptr fix_on_disk fix_os_remove fix_os_write fix_os_write_text fix_os_rename
  fix_os_rename_text fix_os_link fix_os_open fix_os_stat fix_os_read_text fix_f_read_at fix_f_write_at fix_f_truncate
  fix_f_sync fix_os_create fix_fresh_scratch fix_removeTarget fix_rememberKey fix_writeSidecar fix_writePartBitmap
  fix_removePartialBlock fix_readInto fix_write_subs fix_readPieces_loop fix_readPieces : fixes.

(** ** Sums over a map *)

Definition msum {K A} `{Countable K} (v : A -> Z) (m : gmap K A) : Z := map_fold (fun _ x acc => v x + acc) 0 m.

Section Msum.
Context {K A : Type} `{Countable K} (v : A -> Z).

Lemma msum_empty : msum v (∅ : gmap K A) = 0.
Proof. apply map_fold_empty. Qed.
Lemma msum_insert (m : gmap K A) i x : m !! i = None -> msum v (<[i:=x]> m) = v x + msum v m.
Proof. intros Hi. unfold msum. rewrite map_fold_insert_L; [done|intros; lia|done]. Qed.
Lemma msum_delete (m : gmap K A) i x : m !! i = Some x -> msum v (delete i m) = msum v m - v x.
Proof. intros Hi. unfold msum. rewrite (map_fold_delete_L _ _ i x m); [lia|intros; lia|done]. Qed.
Lemma msum_replace (m : gmap K A) i x y : m !! i = Some x -> msum v (<[i:=y]> m) = msum v m - v x + v y.
Proof.
  intros Hi. rewrite <- insert_delete_eq, msum_insert by apply lookup_delete_eq.
  rewrite (msum_delete m i x) by done. lia.
Qed.
Lemma alter_id (m : gmap K A) i (g : A -> A) : m !! i = None -> alter g i m = m.
Proof.
  intros Hi. apply map_eq. intros j. destruct (decide (i = j)) as [<-|Hj].
  - by rewrite lookup_alter_eq, Hi.
  - by rewrite lookup_alter_ne.
Qed.
Lemma alter_insert_some (m : gmap K A) i x (g : A -> A) : m !! i = Some x -> alter g i m = <[i:=g x]> m.
Proof.
  intros Hi. apply map_eq. intros j. destruct (decide (i = j)) as [<-|Hj].
  - by rewrite lookup_alter_eq, Hi, lookup_insert_eq.
  - by rewrite lookup_alter_ne, lookup_insert_ne.
Qed.
Lemma msum_alter (m : gmap K A) i x g : m !! i = Some x -> msum v (alter g i m) = msum v m - v x + v (g x).
Proof. intros Hi. rewrite (alter_insert_some m i x g Hi). by apply msum_replace. Qed.
Lemma msum_alter_same (m : gmap K A) i g : (forall x, v (g x) = v x) -> msum v (alter g i m) = msum v m.
Proof.
  intros Hg. destruct (m !! i) as [x|] eqn:Hi; [rewrite (msum_alter m i x g Hi), Hg; lia|by rewrite alter_id].
Qed.
Lemma msum_map_same (m : gmap K A) (g : K -> A -> option A) :
  (forall i x, exists y, g i x = Some y /\ v y = v x) -> msum v (map_imap g m) = msum v m.
Proof.
  intros Hg. induction m as [|i x m Hi IH] using map_ind; [by rewrite map_imap_empty|].
  destruct (Hg i x) as (y & Hy & Hv). rewrite map_imap_insert, Hy, !msum_insert, IH, Hv; [done|done|].
  by rewrite map_lookup_imap, Hi.
Qed.
End Msum.

(** ** The defect *)

(** The descriptor an entry keeps. *)
Definition opens (m : blockMeta) : Z := b2z (bool_decide (is_Some (bm_f m))).

(** The defect of each counter, and beside it what is reserved, which has its
    owners outside the index. *)
Definition defect (s : cache) : (Z * Z * Z * Z * Z) * (Z * Z * Z) :=
  ((bytes s - msum bm_size (blocks s), openPartials s - msum opens (blocks s),
    wholeBytes s - msum o_size (objects s), partBytes s - msum wp_bytes (parts s),
    orphanBytes s - msum id (orphanTemps s)),
   (reservedBytes s, reservedEntries s, writeReserved s)).

#[export] Instance defect_blind : Blind defect.
Proof. by split. Qed.

Lemma defect_intro s t :
  bytes s - msum bm_size (blocks s) = bytes t - msum bm_size (blocks t) ->
  openPartials s - msum opens (blocks s) = openPartials t - msum opens (blocks t) ->
  wholeBytes s - msum o_size (objects s) = wholeBytes t - msum o_size (objects t) ->
  partBytes s - msum wp_bytes (parts s) = partBytes t - msum wp_bytes (parts t) ->
  orphanBytes s - msum id (orphanTemps s) = orphanBytes t - msum id (orphanTemps t) ->
  reservedBytes s = reservedBytes t -> reservedEntries s = reservedEntries t -> writeReserved s = writeReserved t ->
  defect s = defect t.
Proof. unfold defect. congruence. Qed.
Ltac vec := apply defect_intro; simpl; try lia.
(** More reserved by [b] bytes, [e] objects and [w] bytes of writes. *)
Definition shift (b e w : Z) (d : (Z * Z * Z * Z * Z) * (Z * Z * Z)) : (Z * Z * Z * Z * Z) * (Z * Z * Z) :=
  let '(x, (rb, re, wr)) := d in (x, (rb + b, re + e, wr + w)).
Lemma shift_0 d : shift 0 0 0 d = d.
Proof. destruct d as [x [[a b] c]]. simpl. by rewrite !Z.add_0_r. Qed.
Lemma shift_shift a b c a' b' c' d : shift a' b' c' (shift a b c d) = shift (a + a') (b + b') (c + c') d.
Proof. destruct d as [x [[p q] r]]. simpl. by rewrite !Z.add_assoc. Qed.

Lemma defect_upd_block id g s :
  (forall m, bm_size (g m) = bm_size m /\ opens (g m) = opens m) ->
  defect (upd_block id g s) = defect s.
Proof.
  intros Hg. vec; rewrite msum_alter_same; try done; intros m; destruct (Hg m) as (? & ?); done.
Qed.
Lemma defect_upd_file fh g s : defect (upd_file fh g s) = defect s.
Proof. done. Qed.
Lemma defect_upd_part fh g s : (forall p, wp_bytes (g p) = wp_bytes p) -> defect (upd_part fh g s) = defect s.
Proof. intros Hg. vec. by rewrite msum_alter_same. Qed.
Lemma defect_upd_object i g s : (forall o, o_size (g o) = o_size o) -> defect (upd_object i g s) = defect s.
Proof. intros Hg. vec. by rewrite msum_alter_same. Qed.

Lemma blocks_dropBlock id s : blocks (dropBlock id s) = delete id (blocks s).
Proof.
  unfold dropBlock. destruct (blocks s !! id) as [m|] eqn:Hm; [|by rewrite delete_id].
  destruct (mem m); [destruct (flushing m)|]; done.
Qed.
Lemma blocks_uncharge id s : blocks (uncharge id s) = delete id (blocks s).
Proof.
  unfold uncharge. destruct (blocks s !! id) as [m|] eqn:Hm; [by rewrite blocks_dropBlock|by rewrite delete_id].
Qed.
(** dropBlockLocked leaves everything but the entry and its counters. *)
Lemma dropBlock_rest id s :
  files (dropBlock id s) = files s /\ objects (dropBlock id s) = objects s /\ parts (dropBlock id s) = parts s
  /\ dsk (dropBlock id s) = dsk s /\ orphanTemps (dropBlock id s) = orphanTemps s
  /\ ticks (dropBlock id s) = ticks s.
Proof.
  unfold dropBlock. destruct (blocks s !! id) as [m|]; [|done].
  destruct (mem m); [destruct (flushing m)|]; done.
Qed.
Lemma uncharge_rest id s :
  files (uncharge id s) = files s /\ objects (uncharge id s) = objects s /\ parts (uncharge id s) = parts s
  /\ dsk (uncharge id s) = dsk s /\ orphanTemps (uncharge id s) = orphanTemps s
  /\ ticks (uncharge id s) = ticks s.
Proof.
  unfold uncharge. destruct (blocks s !! id) as [m|]; [|done].
  exact (dropBlock_rest id (s <| bytes ::= fun x => x - bm_size m |>)).
Qed.

Lemma defect_uncharge id s : defect (uncharge id s) = defect s.
Proof.
  unfold uncharge. destruct (blocks s !! id) as [m|] eqn:Hm; [|done].
  unfold dropBlock. simpl. rewrite Hm.
  assert (Hd : forall v : blockMeta -> Z, msum v (delete id (blocks s)) = msum v (blocks s) - v m)
    by (intros v; by apply msum_delete).
  destruct (mem m) as [d|] eqn:Hd'; [destruct (flushing m)|]; vec; rewrite Hd; unfold opens; lia.
Qed.
Lemma defect_insert_block id m s :
  blocks s !! id = None -> opens m = 0 ->
  defect (s <| blocks ::= insert id m |> <| bytes ::= Z.add (bm_size m) |> <| wb_pending ::= Z.add (mem_bytes m) |>)
  = defect s.
Proof.
  intros Hn Ho. vec; rewrite msum_insert by done; lia.
Qed.
Lemma defect_replace_block id m s : opens m = 0 -> defect (replace_block id m s) = defect s.
Proof.
  intros Ho. unfold replace_block. rewrite defect_insert_block; [apply defect_uncharge| |done].
  by rewrite blocks_uncharge, lookup_delete_eq.
Qed.

Lemma defect_release_mem id s : defect (release_mem id s) = defect s.
Proof.
  unfold release_mem. destruct (blocks s !! id) as [m|] eqn:Hm; [|done].
  vec; rewrite (msum_alter _ _ _ m) by done; unfold opens; simpl; lia.
Qed.
Lemma defect_promote id s : defect (promote id s) = defect s.
Proof.
  unfold promote. destruct (blocks s !! id) as [m|] eqn:Hm; [|done].
  vec; rewrite (msum_alter _ _ _ m) by done; unfold opens; simpl; lia.
Qed.
Lemma defect_keep_open id f s : defect (keep_open id f s) = defect s.
Proof.
  unfold keep_open. destruct (blocks s !! id) as [m|] eqn:Hm; [|done].
  destruct (bm_f m) eqn:Hf; [done|]. destruct (_ && _); [|done].
  vec; rewrite (msum_alter _ _ _ m) by done; unfold opens; simpl; rewrite ?Hf; simpl; lia.
Qed.
Lemma defect_noteClaim id w s : defect (noteClaim id w s) = defect s.
Proof. unfold noteClaim. by destruct (blocks s !! id). Qed.
Lemma defect_releaseObject i s : defect (releaseObject i s) = defect s.
Proof.
  unfold releaseObject. destruct (objects s !! i) as [o|] eqn:Ho; [|done].
  destruct (bool_decide _ && _); [|done]. vec. rewrite (msum_delete o_size _ i o) by done. lia.
Qed.
Lemma defect_detachWhole fh s : defect (detachWhole fh s) = defect s.
Proof.
  unfold detachWhole. destruct (files s !! fh) as [fs|]; [|done]. destruct (whole fs) as [i|]; [|done].
  rewrite defect_releaseObject. apply (defect_upd_object i). done.
Qed.
Lemma defect_attachWhole fh inf s : defect (attachWhole fh inf s) = defect s.
Proof.
  unfold attachWhole.
  set (s1 := match files s !! fh with Some fs => _ | None => s end).
  assert (H1 : defect s1 = defect s).
  { unfold s1. destruct (files s !! fh) as [fs|]; [|done]. destruct (whole fs); [|done].
    destruct (bool_decide _); [done|apply defect_detachWhole]. }
  rewrite defect_upd_file, defect_upd_object by done. rewrite <- H1.
  destruct (objects s1 !! inf_id inf) eqn:Ho; [done|]. vec. rewrite msum_insert by done. simpl. lia.
Qed.
Lemma defect_touchWhole fh s : defect (touchWhole fh s) = defect s.
Proof.
  unfold touchWhole. destruct (files s !! fh) as [fs|]; [|done]. destruct (whole fs); [|done].
  by rewrite defect_upd_object.
Qed.

(** ** The operations *)

Lemma fix_mod_eq {X} (f : cache -> X) g : (forall s, f (g s) = f s) -> fixes f (cmod g).
Proof. apply fix_mod. Qed.

#[local] Hint Extern 1 (fixes defect (cmod (uncharge _))) => (apply fix_mod_eq, defect_uncharge) : fixes.
#[local] Hint Extern 1 (fixes defect (cmod (detachWhole _))) => (apply fix_mod_eq, defect_detachWhole) : fixes.
#[local] Hint Extern 1 (fixes defect (cmod (touchWhole _))) => (apply fix_mod_eq, defect_touchWhole) : fixes.
#[local] Hint Extern 1 (fixes defect (cmod (attachWhole _ _))) => (apply fix_mod_eq; intros; apply defect_attachWhole) : fixes.
#[local] Hint Extern 1 (fixes defect (cmod (upd_block _ _))) => (apply fix_mod_eq; intros; by apply defect_upd_block) : fixes.
#[local] Hint Extern 1 (fixes defect (cmod (upd_part _ _))) => (apply fix_mod_eq; intros; by apply defect_upd_part) : fixes.
#[local] Hint Extern 1 (fixes defect (cmod (upd_object _ _))) => (apply fix_mod_eq; intros; by apply defect_upd_object) : fixes.

#[local] Hint Extern 1 (fixes defect (cmod (release_mem _))) => (apply fix_mod_eq, defect_release_mem) : fixes.
#[local] Hint Extern 1 (fixes defect (cmod (promote _))) => (apply fix_mod_eq, defect_promote) : fixes.
#[local] Hint Extern 1 (fixes defect (cmod (keep_open _ _))) => (apply fix_mod_eq; intros; apply defect_keep_open) : fixes.
#[local] Hint Extern 1 (fixes defect (cmod (noteClaim _ _))) => (apply fix_mod_eq; intros; apply defect_noteClaim) : fixes.

Section Ops.
Context {E : CacheEnv} {Cfg : Options}.
Notation FD := (fixes defect).

Lemma acct_forgetPart fh p r s :
  parts s !! fh = Some p -> defect (forgetPart fh p r s).2 = defect s.
Proof.
  intros Hp. unfold forgetPart. unfold cthen at 1. cbn [snd cmod].
  match goal with |- context [ (match r with true => ?x | false => ?y end) ?t ] =>
    assert (Hr : fixes defect (if r then x else y)) by (destruct r; fixing); rewrite (Hr t) end.
  rewrite Hp, bool_decide_eq_true_2, defect_upd_file by done. vec.
  rewrite (msum_delete wp_bytes _ fh p) by done. lia.
Qed.
Lemma acct_removeFileBlocks fh : FD (removeFileBlocks fh).
Proof.
  unfold removeFileBlocks. apply fix_read. intros s. apply fix_then_at; [|fixing].
  unfold id. destruct (files s !! fh) as [fs|]; [|done]. destruct (fs_part fs); [|done].
  destruct (parts s !! fh) eqn:Hp; [|done]. by apply acct_forgetPart.
Qed.
Lemma acct_discardTemp p : FD (discardTemp p).
Proof.
  unfold discardTemp. fixing. apply fix_mod. intros s. vec. unfold id.
  destruct (orphanTemps s !! p) as [o|] eqn:Ho; simpl.
  - rewrite (msum_replace _ _ _ o) by done. lia.
  - rewrite msum_insert by done. lia.
Qed.
Lemma acct_cleanTemp_loop l : FD (cleanTemp_loop l).
Proof.
  induction l as [|p l IH]; simpl; fixing. apply fix_mod. intros s. vec.
  destruct (orphanTemps s !! p) as [o|] eqn:Ho; simpl.
  - rewrite (msum_delete _ _ _ o) by done. unfold id. lia.
  - rewrite delete_id by done. lia.
Qed.
Hint Resolve acct_removeFileBlocks acct_discardTemp acct_cleanTemp_loop : fixes.
Lemma acct_cleanTemp : FD cleanTemp.
Proof. unfold cleanTemp. fixing. Qed.
Lemma acct_ensureFile fh k : FD (ensureFile fh k).
Proof. unfold ensureFile. fixing. Qed.
Hint Resolve acct_cleanTemp acct_ensureFile : fixes.

(** *** Eviction and admission *)

Lemma acct_drop_names l r : FD (drop_names l r).
Proof. revert r. induction l; intros r; simpl; fixing. Qed.
Hint Resolve acct_drop_names : fixes.
Lemma acct_evictObject i : FD (evictObject i).
Proof. unfold evictObject. fixing. Qed.
Lemma acct_evictPart fh : FD (evictPart fh).
Proof.
  unfold evictPart. apply fix_read. intros s. unfold id. destruct (parts s !! fh) as [p|] eqn:Hp; [|done].
  destruct (partProtected fh s); [done|]. apply fix_then_at; [by apply acct_forgetPart|fixing].
Qed.
Lemma acct_evictBlock id : FD (evictBlock id).
Proof. unfold evictBlock. fixing. Qed.
Hint Resolve acct_evictObject acct_evictPart acct_evictBlock : fixes.
Lemma acct_evictExpired x : FD (evictExpired x).
Proof. unfold evictExpired. fixing. Qed.
Lemma acct_evictOne x : FD (evictOne x).
Proof. unfold evictOne. fixing. Qed.
Hint Resolve acct_evictExpired acct_evictOne : fixes.
Lemma acct_cap_loop fuel n e x : FD (cap_loop fuel n e x).
Proof. induction fuel; simpl; fixing. Qed.
Lemma acct_free_loop fuel dir n x : FD (free_loop fuel dir n x).
Proof. induction fuel; simpl; fixing. Qed.
Lemma acct_reserve_loop fuel dir n : FD (reserve_loop fuel dir n).
Proof. induction fuel; simpl; fixing. Qed.
Hint Resolve acct_cap_loop acct_free_loop acct_reserve_loop : fixes.
Lemma acct_makeRoomFor a b c x : FD (makeRoomFor a b c x).
Proof. unfold makeRoomFor. fixing. apply fix_mod. intros s. by destruct a1. Qed.
Hint Resolve acct_makeRoomFor : fixes.
Lemma acct_blockRoom id o n z p : FD (blockRoom id o n z p).
Proof. unfold blockRoom. fixing. Qed.
Lemma acct_ReserveDisk dir n s :
  let '(r, s') := ReserveDisk dir n s in
  defect s' = match r with Ok _ => shift 0 0 n (defect s) | Err _ => defect s end.
Proof.
  unfold ReserveDisk. destruct (n <? 0); [done|]. destruct (Z.eqb_spec n 0) as [->|]; [by rewrite shift_0|].
  unfold cbind, cget. pose proof (acct_reserve_loop (S (evictable s)) dir n s) as H.
  destruct (reserve_loop _ dir n s) as [[u|e] s1]; cbn [snd] in H; [|done].
  transitivity (shift 0 0 n (defect s1)); [|by rewrite H].
  unfold defect, shift. simpl. by rewrite !Z.add_0_r, (Z.add_comm n).
Qed.
Lemma acct_releaseDisk n s : defect (releaseDisk n s).2 = shift 0 0 (- n) (defect s).
Proof. unfold defect, shift. simpl. by rewrite !Z.add_0_r. Qed.
Lemma acct_cleanAll fuel : FD (cleanAll fuel).
Proof. induction fuel; simpl; fixing. Qed.
Hint Resolve acct_cleanAll : fixes.
Lemma acct_GC : FD GC.
Proof. unfold GC, makeRoom. fixing. Qed.
Hint Resolve acct_blockRoom acct_GC : fixes.

(** *** Sparse files *)

(** The accounts with the sparse files beside them. *)
Definition with_parts (s : cache) := (defect s, parts s).
Instance with_parts_blind : Blind with_parts.
Proof. by split. Qed.
Lemma at_bind {A B} (m : CM A) (k : A -> CM B) s :
  fixes with_parts m -> (forall a s', with_parts s' = with_parts s -> defect (k a s').2 = defect s) ->
  defect (cbind m k s).2 = defect s.
Proof. intros Hm Hk. specialize (Hm s). unfold cbind. destruct (m s) as [a s']. by apply Hk. Qed.
Lemma at_then {A B} (m : CM A) (k : CM B) s :
  fixes with_parts m -> (forall s', with_parts s' = with_parts s -> defect (k s').2 = defect s) ->
  defect (cthen m k s).2 = defect s.
Proof. intros Hm Hk. specialize (Hm s). unfold cthen. by apply Hk. Qed.
Lemma with_parts_inv s s' : with_parts s' = with_parts s -> defect s' = defect s /\ parts s' = parts s.
Proof. unfold with_parts. intros [= Hd Hp]. split; [|done]. unfold defect. congruence. Qed.

Lemma acct_partFile fh ptr : FD (partFile fh ptr).
Proof. unfold partFile. fixing. Qed.
Lemma parts_ensureFile fh k : fixes with_parts (ensureFile fh k).
Proof. unfold ensureFile. fixing. Qed.
Lemma parts_sparse_file fh size bits : fixes with_parts (sparse_file fh size bits).
Proof. unfold sparse_file. fixing. Qed.
Hint Resolve acct_partFile parts_ensureFile parts_sparse_file : fixes.
Lemma acct_mount_part fh k p s : parts s !! fh = None -> wp_bytes p = 0 -> defect (mount_part fh k p s) = defect s.
Proof. intros Hn Hz. unfold mount_part. rewrite defect_upd_file. vec. rewrite msum_insert by done. lia. Qed.
Lemma acct_ensurePart k size : FD (ensurePart k size).
Proof.
  unfold ensurePart. apply fix_read. intros s. destruct (parts s !! key_hash k) as [p|] eqn:Hp; [by destruct (_ =? _)|].
  destruct (_ <=? 0); [done|].
  apply at_bind; [fixing|]. intros t s1 H1%with_parts_inv.
  rewrite <- (proj1 H1). apply at_bind; [fixing|]. intros [i|e] s2 H2%with_parts_inv; [|apply H2].
  rewrite <- (proj1 H2). apply at_bind; [fixing|]. intros ptr s3 H3%with_parts_inv.
  rewrite <- (proj1 H3). apply at_then; [fixing|]. intros s4 H4%with_parts_inv.
  rewrite <- (proj1 H4). apply fix_then_at; [|fixing].
  apply acct_mount_part; [|done]. by rewrite (proj2 H4), (proj2 H3), (proj2 H2), (proj2 H1).
Qed.
Lemma acct_notePartBlock fh ptr k idx n : FD (notePartBlock fh ptr k idx n).
Proof.
  unfold notePartBlock. apply fix_read. intros s. unfold part_live.
  destruct (parts s !! fh) as [p|] eqn:Hp; [|done]. destruct (bool_decide _); [|done].
  apply fix_then_at; [|fixing]. destruct (hasBlock p idx); [done|]. cbn [cmod snd].
  vec. rewrite (msum_alter _ _ _ p) by done. simpl. lia.
Qed.
Lemma acct_persistPart fh ptr c : FD (persistPart fh ptr c).
Proof. unfold persistPart. fixing. Qed.
Hint Resolve acct_ensurePart acct_notePartBlock acct_persistPart : fixes.
Lemma parts_sync : fixes with_parts f_sync.
Proof. fixing. Qed.
Lemma acct_finishPart k fh ptr : FD (finishPart k fh ptr).
Proof.
  unfold finishPart. apply fix_bind; [fixing|]. intros [i|[]]; try by fixing.
  apply fix_bind; [fixing|]. intros [u|e]; [|fixing].
  apply fix_bind; [fixing|]. intros [v|e]; [|fixing].
  apply fix_bind; [fixing|]. intros inf. apply fix_read. intros s. unfold id, part_live.
  destruct (parts s !! fh) as [p|] eqn:Hp; [|done]. destruct (bool_decide _); [|done].
  destruct (negb _); [done|]. destruct (_ || _); [done|].
  apply at_bind; [fixing|]. intros [w|e] s1 H1%with_parts_inv; [|apply H1].
  rewrite <- (proj1 H1). apply at_then; [fixing|]. intros s2 H2%with_parts_inv.
  rewrite <- (proj1 H2). apply fix_then_at; [|fixing].
  apply acct_forgetPart. by rewrite (proj2 H2), (proj2 H1).
Qed.
Hint Resolve acct_finishPart : fixes.
Lemma acct_settlePart k fh ptr idx n : FD (settlePart k fh ptr idx n).
Proof. unfold settlePart. fixing. Qed.
Hint Resolve acct_settlePart : fixes.
Lemma acct_holdFile k n : FD (holdFile k n).
Proof. unfold holdFile. fixing. Qed.
Lemma acct_partRoom fh n : FD (partRoom fh n).
Proof. unfold partRoom. fixing. Qed.
Hint Resolve acct_holdFile acct_partRoom : fixes.
Lemma acct_putPart k idx d n : FD (putPart k idx d n).
Proof. unfold putPart, releaseFile. fixing. Qed.
Lemma acct_adoptBlockIntoPart k idx : FD (adoptBlockIntoPart k idx).
Proof. unfold adoptBlockIntoPart. fixing. Qed.
Lemma acct_drop_flushed id : FD (drop_flushed id).
Proof. unfold drop_flushed. fixing. Qed.
Hint Resolve acct_putPart acct_adoptBlockIntoPart acct_drop_flushed : fixes.
Lemma acct_flushMemToPart id p d : FD (flushMemToPart id p d).
Proof. unfold flushMemToPart. fixing. Qed.
Lemma acct_closeParts : FD closeParts.
Proof. unfold closeParts, closePart. fixing. Qed.
Hint Resolve acct_flushMemToPart acct_closeParts : fixes.

(** *** Complete files *)

Lemma acct_OpenWhole k : FD (OpenWhole k).
Proof. unfold OpenWhole. fixing. Qed.
Lemma acct_closeWhole o : FD (closeWhole o).
Proof. unfold closeWhole. apply fix_mod. intros s. by rewrite defect_releaseObject, defect_upd_object. Qed.
Lemma acct_HydratedPath k : FD (HydratedPath k).
Proof. unfold HydratedPath. fixing. Qed.
Lemma acct_scheduleHydrate k : FD (scheduleHydrate k).
Proof. unfold scheduleHydrate. fixing. Qed.
Lemma acct_installTemp k t n p : FD (installTemp k t n p).
Proof. unfold installTemp. fixing. Qed.
Hint Resolve acct_OpenWhole acct_closeWhole acct_HydratedPath acct_scheduleHydrate acct_installTemp : fixes.
Lemma acct_installBody k src n p t i : FD (installBody k src n p t i).
Proof. unfold installBody. fixing. Qed.
Hint Resolve acct_installBody : fixes.
Lemma acct_installWhole k src n a p : FD (installWhole k src n a p).
Proof. unfold installWhole. fixing. Qed.
Lemma acct_unhold fh p : FD (unhold fh p).
Proof. unfold unhold. fixing. Qed.
Lemma acct_reserve n s : defect (reserve n s).2 = shift n 1 0 (defect s).
Proof. unfold defect, shift. simpl. by rewrite Z.add_0_r, (Z.add_comm n). Qed.
Lemma acct_unreserve n s : defect (unreserve n s).2 = shift (- n) (-1) 0 (defect s).
Proof. unfold defect, shift. simpl. by rewrite Z.add_0_r. Qed.
Hint Resolve acct_installWhole acct_unhold : fixes.
Lemma acct_remembered k m : FD m -> FD (remembered k m).
Proof. intros H. unfold remembered. fixing. Qed.
Lemma acct_begin_job k p n g s :
  let '(r, s') := begin_job k p n g s in
  defect s' = match r with Ok _ => shift n 1 0 (defect s) | Err _ => defect s end
  /\ forall j, r = Ok j -> j = MkJob k p n g None.
Proof.
  unfold begin_job. unfold cthen at 1. cbn [cmod snd]. unfold cbind.
  match goal with |- context [makeRoomFor ?a ?b ?c ?d ?t] => pose proof (acct_makeRoomFor a b c d t) as H end.
  destruct (makeRoomFor _ _ _ _ _) as [[u|e] s1]; unfold cthen; cbn [cret fst snd].
  - rewrite acct_reserve. split; [|by intros j [= <-]]. f_equal. exact H.
  - split; [|done]. rewrite (acct_unhold _ _ s1). exact H.
Qed.
Lemma acct_end_job j c s :
  defect (end_job j c s).2 = if c then defect s else shift (- j_size j) (-1) 0 (defect s).
Proof.
  unfold end_job. unfold cthen at 1.
  match goal with |- context [(match ?t with Some p => @?x p | None => ?y end) s] =>
    assert (H : defect ((match t with Some p => x p | None => y end) s).2 = defect s)
      by (destruct t; [apply acct_discardTemp|done]); set (s1 := ((match t with Some p => x p | None => y end) s).2) in * end.
  unfold cthen. pose proof (acct_unhold (key_hash (j_key j)) (j_file j) s1) as H1.
  destruct c; cbn [cret snd]; [by rewrite H1|]. by rewrite acct_unreserve, H1, H.
Qed.
(** What ends without a job any more has given its reservation back. *)
Definition job_gone (j : job) (s s' : cache) : Prop := defect s' = shift (- j_size j) (-1) 0 (defect s).
Lemma acct_hydrate_begin k s :
  let '(r, s') := hydrate_begin k s in
  match r with
  | Ok (Some j) => defect s' = shift (j_size j) 1 0 (defect s)
  | _ => defect s' = defect s
  end.
Proof.
  unfold hydrate_begin. unfold cbind at 1. cbn [cget]. unfold id.
  destruct (files s !! key_hash k) as [fs|]; [|done]. destruct (_ || _); [done|]. destruct (_ || _); [done|].
  unfold cbind. pose proof (acct_begin_job k (fs_ptr fs) (fs_size fs) (generation fs) s) as H.
  destruct (begin_job _ _ _ _ s) as [[j|e] s1]; destruct H as [H Hj]; [|done]. simpl.
  rewrite (Hj j eq_refl) in *. simpl. exact H.
Qed.
Lemma acct_merge_blocks k n l acc : FD (merge_blocks k n l acc).
Proof. revert acc. induction l; intros acc; simpl; fixing. Qed.
Hint Resolve acct_merge_blocks : fixes.
Lemma gone_end j j' s s0 : j_size j' = j_size j -> defect s0 = defect s -> job_gone j s (end_job j' false s0).2.
Proof. intros Hj H. unfold job_gone. by rewrite acct_end_job, H, Hj. Qed.
Lemma acct_hydrate_copy j s :
  let '(r, s') := hydrate_copy j s in
  match r with
  | Ok (Some j') => j_size j' = j_size j /\ j_temp j' <> None /\ defect s' = defect s
  | _ => job_gone j s s'
  end.
Proof.
  unfold hydrate_copy. unfold cbind at 1. cbn [fresh_scratch cbind cget cret]. unfold cbind at 1.
  set (tmp := (KScratch, "", next_ino (dsk s))).
  pose proof (fix_at defect (os_create tmp) s ltac:(fixing)) as H1.
  destruct (os_create tmp s) as [[i|e] s1]; cbn [snd] in H1; unfold cthen; cbn [cret]; [|by apply gone_end].
  unfold cbind at 1. cbn [j_key j_size upd].
  match goal with |- context [merge_blocks ?a ?b ?c ?d s1] => pose proof (acct_merge_blocks a b c d s1) as H2 end.
  rewrite H1 in H2.
  destruct (merge_blocks _ _ _ _ s1) as [[[data|]|e] s2]; cbn [snd] in H2; [|by apply gone_end|by apply gone_end].
  unfold cbind at 1.
  match goal with |- context [?m s2] => 
    match m with cbind _ _ => pose proof (fix_at defect m s2 ltac:(fixing)) as H3; destruct (m s2) as [[w|e] s3] end end;
    cbn [snd] in H3; rewrite H2 in H3; [|by apply gone_end]. done.
Qed.
Lemma acct_hydrate_publish j s : j_temp j <> None -> job_gone j s (hydrate_publish j s).2.
Proof.
  intros Hj. unfold hydrate_publish. unfold cbind at 1. cbn [cget]. unfold id.
  destruct (j_temp j) as [tmp|]; [|done]. destruct (job_stale j s); [by apply gone_end|].
  unfold cbind at 1. cbn [cget]. unfold cbind at 1.
  match goal with |- context [os_rename ?a ?b s] => pose proof (fix_os_rename defect a b s) as H1; destruct (os_rename a b s) as [[u|e] s1] end;
    cbn [snd] in H1; [|by apply gone_end].
  unfold cthen. cbn [cmod snd cret].
  unfold job_gone. rewrite acct_end_job, acct_unreserve, acct_removeFileBlocks, defect_touchWhole, defect_attachWhole. by rewrite H1.
Qed.
Lemma acct_hydrateDue : FD hydrateDue.
Proof. unfold hydrateDue. fixing. Qed.
Lemma acct_putWhole_begin k n s :
  let '(r, s') := putWhole_begin k n s in
  match r with
  | Ok j => defect s' = shift (j_size j) 1 0 (defect s)
  | Err _ => defect s' = defect s
  end.
Proof.
  unfold putWhole_begin. destruct (n <? 0); [done|]. unfold cbind at 1. cbn [cget]. destruct (wb_closed s); [done|].
  unfold cthen at 1. pose proof (acct_ensureFile (key_hash k) noKey s) as H0.
  destruct (ensureFile (key_hash k) noKey s) as [u s0]. cbn [snd] in *. unfold cbind at 1. cbn [cget].
  destruct (files s0 !! key_hash k) as [f|]; [|done].
  pose proof (acct_begin_job k (fs_ptr f) n (generation f) s0) as H.
  destruct (begin_job _ _ _ _ s0) as [[j|e] s1]; destruct H as [H Hj]; [|by rewrite H, H0].
  rewrite (Hj j eq_refl). simpl. by rewrite H, H0.
Qed.
Lemma acct_putWhole_copy j r b s :
  let '(x, s') := putWhole_copy j r b s in
  match x with
  | Ok j' => j_size j' = j_size j /\ j_temp j' <> None /\ defect s' = defect s
  | Err _ => job_gone j s s'
  end.
Proof.
  unfold putWhole_copy. unfold cbind at 1. cbn [fresh_scratch cbind cget cret]. unfold cbind at 1.
  set (tmp := (KScratch, "", next_ino (dsk s))).
  pose proof (fix_at defect (os_create tmp) s ltac:(fixing)) as H1.
  destruct (os_create tmp s) as [[i|e] s1]; cbn [snd] in H1; unfold cthen; cbn [cret]; [|by apply gone_end].
  unfold cbind at 1.
  match goal with |- context [os_write ?a ?d s1] => pose proof (fix_os_write defect a d s1) as H2; destruct (os_write a d s1) as [[w|e] s2] end;
    cbn [snd] in H2; rewrite H1 in H2; [|by apply gone_end].
  destruct (_ || _); [by apply gone_end|]. done.
Qed.
Lemma acct_putWhole_publish j s : j_temp j <> None -> job_gone j s (putWhole_publish j s).2.
Proof.
  intros Hj. unfold putWhole_publish. unfold cbind at 1. cbn [cget]. unfold id.
  destruct (j_temp j) as [tmp|]; [|done]. destruct (job_stale j s); [by apply gone_end|].
  unfold cbind at 1. pose proof (acct_installTemp (j_key j) tmp (j_size j) false s) as H1.
  destruct (installTemp _ _ _ _ s) as [[u|e] s1]; cbn [snd] in H1; [|by apply gone_end].
  unfold cthen. cbn [cret snd]. unfold job_gone.
  rewrite acct_end_job, (fix_rememberKey defect), acct_unreserve. by rewrite H1.
Qed.

(** *** Blocks *)

Lemma acct_touch_files fh idx : FD (cmod (touch_files fh idx)).
Proof.
  apply fix_mod. intros s. unfold touch_files. destruct (files s !! fh) as [fs|]; [|done].
  assert (H : forall s', defect s' = defect s ->
    defect (match fs_part fs, parts s !! fh with
            | Some _, Some p => if hasBlock p idx then upd_part fh (fun p => p <| wp_access := now s |> <| wp_hot := true |>) s' else s'
            | _, _ => s' end) = defect s).
  { intros s' <-. destruct (fs_part fs); [|done]. destruct (parts s !! fh); [|done].
    destruct (hasBlock _ _); [|done]. by apply defect_upd_part. }
  apply H. destruct (whole fs); [|done]. by apply defect_upd_object.
Qed.
Lemma acct_touch_block id : FD (cmod (touch_block id)).
Proof. apply fix_mod. intros s. by apply defect_upd_block. Qed.
Hint Resolve acct_touch_files acct_touch_block : fixes.
Lemma acct_forgetBlock id : FD (forgetBlock id).
Proof. unfold forgetBlock. fixing. Qed.
Hint Resolve acct_forgetBlock : fixes.
Lemma acct_readBlock k idx o n z : FD (readBlock k idx o n z).
Proof. unfold readBlock. fixing. Qed.
Lemma acct_locate k idx : FD (locate k idx).
Proof. unfold locate. fixing. Qed.
Lemma acct_locateRange k idx o n : FD (locateRange k idx o n).
Proof. unfold locateRange. fixing. Qed.
Hint Resolve acct_readBlock acct_locate acct_locateRange : fixes.
Lemma acct_Get k idx : FD (Get k idx).
Proof. unfold Get, countHit, countMiss. fixing. Qed.
Lemma acct_ReadAt k idx o n : FD (ReadAt k idx o n).
Proof. unfold ReadAt, countHit, countMiss. fixing. Qed.
Lemma acct_note_file k n : FD (note_file k n).
Proof. unfold note_file. fixing. Qed.
Lemma acct_inherit_pin id : FD (cmod (inherit_pin id)).
Proof.
  apply fix_mod. intros s. unfold inherit_pin. destruct (files s !! id.1); [|done]. destruct (_ || _); [|done].
  by apply defect_upd_block.
Qed.
Hint Resolve acct_note_file acct_inherit_pin : fixes.
Lemma acct_put k idx d n : FD (put k idx d n).
Proof.
  unfold put. fixing. apply fix_mod. intros s. by apply defect_replace_block.
Qed.
Hint Resolve acct_put : fixes.
Lemma acct_repin fh b s : defect (repin fh b s) = defect s.
Proof.
  vec; rewrite msum_map_same; try done; intros id m; eexists; (split; [reflexivity|]); by destruct (bool_decide _).
Qed.
Lemma acct_Pin k b : FD (Pin k b).
Proof. unfold Pin. fixing. apply fix_mod. intros s. apply acct_repin. Qed.
Lemma acct_SetUserPin k b : FD (SetUserPin k b).
Proof. unfold SetUserPin. fixing. apply fix_mod. intros s. apply acct_repin. Qed.
Lemma acct_forget_blocks l : FD (forget_blocks l).
Proof. induction l; simpl; fixing. Qed.
Hint Resolve acct_forget_blocks : fixes.
Lemma acct_forget_sparse fh : FD (forget_sparse fh).
Proof.
  unfold forget_sparse. apply fix_read. intros s. unfold id. destruct (files s !! fh) as [fs|]; [|done].
  destruct (parts s !! fh) as [p|] eqn:Hp; [|done]. destruct (bool_decide _); [|done].
  apply at_bind; [fixing|]. intros [u|e] s1 H1%with_parts_inv; [|apply H1].
  rewrite <- (proj1 H1). apply at_bind; [fixing|]. intros [v|e] s2 H2%with_parts_inv; [|apply H2].
  rewrite <- (proj1 H2). apply fix_then_at; [|fixing].
  apply acct_forgetPart. by rewrite (proj2 H2), (proj2 H1).
Qed.
Hint Resolve acct_forget_sparse : fixes.
Lemma acct_forgetFile k b : FD (forgetFile k b).
Proof. unfold forgetFile. fixing. Qed.

(** *** Partial blocks *)

Lemma acct_sweepClaims q : FD (sweepClaims q).
Proof. unfold sweepClaims, sweepBlock. fixing. Qed.
Hint Resolve acct_sweepClaims : fixes.
Lemma acct_claimBlock id a b : FD (claimBlock id a b).
Proof. unfold claimBlock. fixing. apply fix_mod. intros s. by apply defect_upd_block. Qed.
Hint Resolve acct_claimBlock : fixes.
Lemma acct_openPartialBlock id a b n : FD (openPartialBlock id a b n).
Proof. unfold openPartialBlock. fixing. Qed.
Lemma acct_dropPartial id : FD (dropPartial id).
Proof. unfold dropPartial. fixing. Qed.
Lemma acct_enqueue id : FD (enqueue id).
Proof. unfold enqueue. fixing. Qed.
Lemma acct_start_queue : FD (cmod start_queue).
Proof. apply fix_mod. intros s. unfold start_queue. by destruct (wb_queue s). Qed.
Hint Resolve acct_openPartialBlock acct_dropPartial acct_enqueue acct_start_queue : fixes.
Lemma acct_partialMeta id bl : FD (cmod (partialMeta id bl)).
Proof.
  apply fix_mod. intros s. unfold partialMeta. destruct (blocks s !! id) as [m|] eqn:Hm; [done|].
  vec; rewrite msum_insert by done; unfold opens; simpl; lia.
Qed.
Lemma acct_gain_sub id bl i h : FD (cmod (gain_sub id bl i h)).
Proof.
  apply fix_mod. intros s. unfold gain_sub, part_of. destruct (blocks s !! id) as [m|] eqn:Hm; [|done].
  destruct (bm_partial m) as [p|]; [|done]. destruct (p_has p i); [done|].
  destruct h; vec; rewrite (msum_alter _ _ _ m) by done; unfold opens; simpl; lia.
Qed.
Hint Resolve acct_partialMeta acct_gain_sub : fixes.
Lemma acct_touch_now id : FD (cmod (fun s => upd_block id (fun m => m <| bm_access := now s |>) s)).
Proof. apply fix_mod. intros s. by apply defect_upd_block. Qed.
Hint Resolve acct_touch_now : fixes.
Lemma acct_putRangeSync k idx o d n : FD (putRangeSync k idx o d n).
Proof. unfold putRangeSync. fixing. Qed.
Lemma acct_flushSubs id : FD (flushSubs id).
Proof. unfold flushSubs. fixing. Qed.
Lemma acct_hold_subs id bl o d : FD (hold_subs id bl o d).
Proof. unfold hold_subs. fixing. Qed.
Hint Resolve acct_putRangeSync acct_flushSubs acct_hold_subs : fixes.
Lemma acct_PutRange k idx o d n : FD (PutRange k idx o d n).
Proof. unfold PutRange. fixing. Qed.

(** *** Write-behind *)

Lemma acct_flush_begin id : FD (flush_begin id).
Proof. unfold flush_begin. fixing. Qed.
Lemma acct_flush_done f : FD (flush_done f).
Proof.
  unfold flush_done. apply fix_mod. intros s.
  set (s1 := match blocks s !! fl_id f with Some m => _ | None => s end).
  assert (H : defect s1 = defect s).
  { unfold s1. destruct (blocks s !! fl_id f); [|done]. destruct (_ =? _); [|done]. by apply defect_upd_block. }
  destruct (bool_decide _); exact H.
Qed.
Hint Resolve acct_flush_begin acct_flush_done : fixes.
Lemma acct_flush_end f : FD (flush_end f).
Proof. unfold flush_end. fixing. Qed.
Lemma acct_dequeue : FD dequeue.
Proof. unfold dequeue. fixing. Qed.
Hint Resolve acct_flush_end : fixes.
Lemma acct_PutAsync k idx d n : FD (PutAsync k idx d n).
Proof. unfold PutAsync. fixing. apply fix_mod. intros s. by apply defect_replace_block. Qed.
Lemma acct_close_begin : FD close_begin.
Proof. unfold close_begin. apply fix_mod. intros s. by destruct (wb_closed s). Qed.
Lemma acct_close_end : FD close_end.
Proof. unfold close_end, sweepAllClaims. fixing. Qed.
End Ops.
