(* ===== verification/CacheLinks.v ===== *)
(** * Complete files and the names that share them

    A complete file is charged once however many names link to it.  [linked]:
    the names an object lists are exactly the files that point to it.  Every
    operation keeps it; eviction relies on it to make progress. *)
From S2P Require Import Prelude CacheBits CacheState CacheRoom CacheWhole CacheBlocks CacheSub CacheBehind CacheFrame.
Open Scope Z_scope.

(** The links, from both ends; a file without a complete object and an object
    no file names do not matter. *)
Definition links (s : cache) : gmap string Z * gmap Z (gset string) :=
  (omap whole (files s), refs <$> objects s).
#[export] Instance links_blind : Blind links.
Proof. by split. Qed.
Definition linked (s : cache) : Prop :=
  forall fh i, (links s).1 !! fh = Some i <-> exists r, (links s).2 !! i = Some r /\ fh ∈ r.

Lemma linked_links s s' : links s' = links s -> linked s -> linked s'.
Proof. unfold linked. by intros ->. Qed.
Lemma keeps_linked {A} (m : CM A) : fixes links m -> keeps linked m.
Proof. intros H s Hs. eapply linked_links; [apply H|done]. Qed.

Lemma links_upd_file fh g s : (forall f, whole (g f) = whole f) -> links (upd_file fh g s) = links s.
Proof.
  intros Hg. unfold links, upd_file. simpl. f_equal. apply map_eq. intros j. rewrite !lookup_omap.
  destruct (decide (fh = j)) as [->|Hj]; [|by rewrite lookup_alter_ne].
  rewrite lookup_alter_eq. destruct (files s !! j); simpl; [by rewrite Hg|done].
Qed.
Lemma links_upd_object i g s : (forall o, refs (g o) = refs o) -> links (upd_object i g s) = links s.
Proof.
  intros Hg. unfold links, upd_object. simpl. f_equal. apply map_eq. intros j. rewrite !lookup_fmap.
  destruct (decide (i = j)) as [->|Hj]; [|by rewrite lookup_alter_ne].
  rewrite lookup_alter_eq. destruct (objects s !! j); simpl; [by rewrite Hg|done].
Qed.
Lemma links_new_file fh f s : files s !! fh = None -> whole f = None -> links (s <| files ::= insert fh f |>) = links s.
Proof.
  intros Hn Hf. unfold links. simpl. f_equal. apply map_eq. intros j. rewrite !lookup_omap.
  destruct (decide (fh = j)) as [->|Hj]; [|by rewrite lookup_insert_ne].
  rewrite lookup_insert_eq, Hn. simpl. by rewrite Hf.
Qed.
Lemma links_uncharge id s : links (uncharge id s) = links s.
Proof. unfold links. destruct (uncharge_rest id s) as (-> & -> & _). done. Qed.
Lemma links_touchWhole fh s : links (touchWhole fh s) = links s.
Proof.
  unfold touchWhole. destruct (files s !! fh) as [f|]; [|done]. destruct (whole f); [|done]. by apply links_upd_object.
Qed.

Lemma file_links fh i s :
  (links s).1 !! fh = Some i <-> exists f, files s !! fh = Some f /\ whole f = Some i.
Proof.
  unfold links. simpl. rewrite lookup_omap. destruct (files s !! fh) as [f|]; simpl; [|naive_solver].
  split; [eauto|]. by intros (? & [= <-] & ?).
Qed.
Lemma object_links i r s : (links s).2 !! i = Some r <-> exists o, objects s !! i = Some o /\ refs o = r.
Proof.
  unfold links. simpl. rewrite lookup_fmap. destruct (objects s !! i) as [o|]; simpl; [|naive_solver].
  split; [intros [= <-]; eauto|]. by intros (? & [= <-] & <-).
Qed.
Lemma linked_file s fh f i : linked s -> files s !! fh = Some f -> whole f = Some i ->
  exists o, objects s !! i = Some o /\ fh ∈ refs o.
Proof.
  intros H Hf Hw. destruct (proj1 (H fh i)) as (r & Hr & Hin); [apply file_links; eauto|].
  apply object_links in Hr as (o & Ho & <-). eauto.
Qed.
Lemma linked_object s i o fh : linked s -> objects s !! i = Some o -> fh ∈ refs o ->
  exists f, files s !! fh = Some f /\ whole f = Some i.
Proof. intros H Ho Hin. apply file_links, H. exists (refs o). split; [apply object_links; eauto|done]. Qed.

Lemma linked_releaseObject i s : linked s -> linked (releaseObject i s).
Proof.
  intros H. unfold releaseObject. destruct (objects s !! i) as [o|] eqn:Ho; [|done].
  destruct (bool_decide (refs o = ∅)) eqn:Hr; [|done]. apply bool_decide_eq_true in Hr.
  destruct (readers o =? 0); [|done]. simpl. intros fh j. rewrite (H fh j). unfold links. simpl.
  rewrite !lookup_fmap. destruct (decide (i = j)) as [<-|Hj]; [|by rewrite lookup_delete_ne].
  rewrite lookup_delete_eq, Ho. simpl. split; [|naive_solver].
  intros (r & [= <-] & Hin). rewrite Hr in Hin. by apply not_elem_of_empty in Hin.
Qed.
(** A file that gives up its object and is taken off its list. *)
Lemma linked_cut fh i s f : files s !! fh = Some f -> whole f = Some i -> linked s ->
  linked (upd_file fh (fun f => f <| whole := None |> <| hydrated := false |>)
            (upd_object i (fun o => o <| refs ::= fun r => r ∖ {[fh]} |>) s)).
Proof.
  intros Hf Hw H g j. unfold links. simpl. rewrite lookup_omap, lookup_fmap.
  specialize (H g j). rewrite file_links in H.
  destruct (decide (g = fh)) as [->|Hg].
  - rewrite lookup_alter_eq, Hf. simpl. split; [done|]. intros (r & Hr & Hin). exfalso.
    destruct (decide (j = i)) as [->|Hj].
    + rewrite lookup_alter_eq in Hr. destruct (objects s !! i); [|done]. simpl in Hr. injection Hr as <-.
      apply elem_of_difference in Hin as [_ Hin]. by apply Hin, elem_of_singleton.
    + rewrite lookup_alter_ne in Hr by done.
      destruct (proj2 H) as (f' & Hf' & Hw'); [|by simplify_eq].
      exists r. unfold links. simpl. by rewrite lookup_fmap.
  - rewrite lookup_alter_ne by done. change ((files s !! g) ≫= whole = Some j) with ((files s !! g) ≫= whole = Some j).
    assert (Hl : (files s !! g) ≫= whole = Some j <-> exists f, files s !! g = Some f /\ whole f = Some j).
    { destruct (files s !! g); simpl; naive_solver. }
    rewrite Hl, H. unfold links. simpl. rewrite lookup_fmap.
    destruct (decide (j = i)) as [->|Hj]; [|by rewrite lookup_alter_ne].
    rewrite lookup_alter_eq. destruct (objects s !! i) as [o|]; simpl; [|done].
    split; intros (r & [= <-] & Hin); eexists; (split; [reflexivity|]); set_solver.
Qed.
Lemma linked_detachWhole fh s : linked s -> linked (detachWhole fh s).
Proof.
  intros H. unfold detachWhole. destruct (files s !! fh) as [f|] eqn:Hf; [|done].
  destruct (whole f) as [i|] eqn:Hw.
  - by eapply linked_releaseObject, linked_cut.
  - eapply linked_links; [|done]. apply links_upd_file. intros f'. done.
Qed.
Lemma detachWhole_gone fh s : (links (detachWhole fh s)).1 !! fh = None.
Proof.
  unfold detachWhole. destruct (files s !! fh) as [f|] eqn:Hf.
  - destruct (whole f) as [i|] eqn:Hw.
    + assert (Hr : forall t, (links (releaseObject i t)).1 = (links t).1).
      { intros t. unfold releaseObject. destruct (objects t !! i); [|done]. by destruct (_ && _). }
      rewrite Hr. unfold links. simpl. rewrite lookup_omap, lookup_alter_eq, Hf. done.
    + unfold links. simpl. rewrite lookup_omap, lookup_alter_eq, Hf. done.
  - unfold links. simpl. by rewrite lookup_omap, Hf.
Qed.
(** A file without an object gets one and is put on its list. *)
Lemma linked_join fh i s n :
  is_Some (objects s !! i) -> is_Some (files s !! fh) ->
  (forall f j, files s !! fh = Some f -> whole f = Some j -> j = i) -> linked s ->
  linked (upd_file fh (fun f => f <| whole := Some i |> <| hydrated := true |> <| fs_size := n |>)
            (upd_object i (fun o => o <| refs ::= union {[fh]} |>) s)).
Proof.
  intros [o Ho] [f Hf] Hu H g j. unfold links. simpl. rewrite lookup_omap, lookup_fmap.
  destruct (decide (g = fh)) as [->|Hg].
  - rewrite lookup_alter_eq, Hf. simpl. split.
    + intros [= <-]. rewrite lookup_alter_eq, Ho. simpl. eexists. split; [reflexivity|]. set_solver.
    + intros (r & Hr & Hin). destruct (decide (j = i)) as [->|Hj]; [done|].
      rewrite lookup_alter_ne in Hr by done.
      assert (Hl : (links s).1 !! fh = Some j) by (apply H; exists r; unfold links; simpl; by rewrite lookup_fmap).
      apply file_links in Hl as (f' & Hf' & Hw). exfalso. apply Hj. by eapply Hu.
  - rewrite lookup_alter_ne by done.
    assert (Hl : (files s !! g) ≫= whole = Some j <-> (links s).1 !! g = Some j) by (unfold links; simpl; by rewrite lookup_omap).
    rewrite Hl, (H g j). unfold links. simpl. rewrite lookup_fmap.
    destruct (decide (j = i)) as [->|Hj]; [|by rewrite lookup_alter_ne].
    rewrite lookup_alter_eq. destruct (objects s !! i) as [o'|]; simpl; [|done].
    split; intros (r & [= <-] & Hin); eexists; (split; [reflexivity|]); set_solver.
Qed.
Lemma files_releaseObject i s : files (releaseObject i s) = files s.
Proof. unfold releaseObject. destruct (objects s !! i); [|done]. by destruct (_ && _). Qed.
Lemma files_detachWhole fh g s : is_Some (files s !! g) -> is_Some (files (detachWhole fh s) !! g).
Proof.
  intros H. unfold detachWhole. destruct (files s !! fh) as [f|]; [|done]. destruct (whole f).
  - rewrite files_releaseObject. simpl. by apply lookup_alter_is_Some.
  - simpl. by apply lookup_alter_is_Some.
Qed.
Lemma linked_attachWhole fh inf s : is_Some (files s !! fh) -> linked s -> linked (attachWhole fh inf s).
Proof.
  intros Hf H. unfold attachWhole.
  set (s1 := match files s !! fh with Some fs => _ | None => s end).
  assert (H1 : linked s1 /\ is_Some (files s1 !! fh)
    /\ forall f j, files s1 !! fh = Some f -> whole f = Some j -> j = inf_id inf).
  { unfold s1. destruct Hf as [f Hf]. rewrite Hf. destruct (whole f) as [j|] eqn:Hw.
    - destruct (decide (j = inf_id inf)) as [->|Hne].
      + rewrite bool_decide_eq_true_2 by done. split_and!; [done|by eexists|naive_solver].
      + rewrite bool_decide_eq_false_2 by done. split_and!.
        * by apply linked_detachWhole.
        * apply files_detachWhole. by eexists.
        * intros f' j' Hf' Hw'. exfalso. pose proof (detachWhole_gone fh s) as Hg.
          assert (Hl : (links (detachWhole fh s)).1 !! fh = Some j') by (apply file_links; eauto). by rewrite Hg in Hl.
    - split_and!; [done|by eexists|naive_solver]. }
  destruct H1 as (H1 & Hf1 & Hu). destruct (objects s1 !! inf_id inf) as [o|] eqn:Ho.
  - apply linked_join; [by eexists|done|done|done].
  - apply linked_join; simpl; [by rewrite lookup_insert_eq; eexists|done|done|].
    intros g j. rewrite (H1 g j). unfold links. simpl. rewrite fmap_insert.
    destruct (decide (j = inf_id inf)) as [->|Hne]; [|by rewrite lookup_insert_ne].
    rewrite lookup_insert_eq, lookup_fmap, Ho. simpl. split; [naive_solver|].
    intros (r & [= <-] & Hin). by apply not_elem_of_empty in Hin.
Qed.

(** ** The operations *)

Create HintDb keeps.
Ltac keep_step :=
  match goal with
  | |- keeps _ (match ?x with _ => _ end) => destruct x
  | |- keeps _ (cret _) => by apply triple_ret
  | |- _ => solve [eauto 2 with keeps]
  | |- keeps _ (cbind _ _) => apply keeps_bind; [|intros ?]
  | |- keeps _ (cthen _ _) => apply keeps_then
  | |- keeps _ (cforeach _ _) => apply keeps_foreach; intros ?
  end.
Ltac keeping := repeat keep_step.

Lemma keeps_links_mod g : (forall s, links (g s) = links s) -> keeps linked (cmod g).
Proof. intros H. apply keeps_linked, fix_mod, H. Qed.
#[export] Hint Extern 2 (keeps linked _) => (apply keeps_linked; solve [eauto 2 with fixes]) : keeps.
#[export] Hint Extern 1 (keeps linked (cget _)) => (intros ??; assumption) : keeps.
#[export] Hint Extern 1 (keeps linked (cmod (uncharge _))) => (apply keeps_links_mod, links_uncharge) : keeps.
#[export] Hint Extern 1 (keeps linked (cmod (touchWhole _))) => (apply keeps_links_mod, links_touchWhole) : keeps.
#[export] Hint Extern 1 (keeps linked (cmod (detachWhole _))) => (intros ??; by apply linked_detachWhole) : keeps.
#[export] Hint Extern 1 (keeps linked (cmod (upd_file _ _))) => (apply keeps_links_mod; intros; by apply links_upd_file) : keeps.
#[export] Hint Extern 1 (keeps linked (cmod (del_present _))) => (apply keeps_links_mod; intros; by apply links_upd_file) : keeps.
#[export] Hint Extern 1 (keeps linked (cmod (add_present _))) => (apply keeps_links_mod; intros; by apply links_upd_file) : keeps.
#[export] Hint Extern 1 (keeps linked (cmod (upd_object _ _))) => (apply keeps_links_mod; intros; by apply links_upd_object) : keeps.
#[export] Hint Extern 3 (keeps linked (cmod _)) => (apply keeps_links_mod; intros; reflexivity) : keeps.

Section Ops.
Context {E : CacheEnv} {Cfg : Options}.
Notation KL := (keeps linked).

Lemma link_forgetPart fh p r : KL (forgetPart fh p r).
Proof.
  unfold forgetPart. keeping. apply keeps_links_mod. intros s. rewrite links_upd_file; [|intros f; by destruct (bool_decide _)].
  destruct (parts s !! fh); [|done]. by destruct (bool_decide _).
Qed.
Hint Resolve link_forgetPart : keeps.
Lemma link_removeFileBlocks fh : KL (removeFileBlocks fh).
Proof. unfold removeFileBlocks. keeping. Qed.
Lemma link_discardTemp p : KL (discardTemp p).
Proof. unfold discardTemp. keeping. Qed.
Lemma link_cleanTemp_loop l : KL (cleanTemp_loop l).
Proof. induction l; simpl; keeping. Qed.
Hint Resolve link_removeFileBlocks link_discardTemp link_cleanTemp_loop : keeps.
Lemma link_cleanTemp : KL cleanTemp.
Proof. unfold cleanTemp. keeping. Qed.
Lemma fix_ensureFile fh k : fixes links (ensureFile fh k).
Proof.
  unfold ensureFile. apply fix_read. intros s. unfold id. destruct (files s !! fh) eqn:Hf; [done|].
  unfold cbind, new_ptr, cmod. cbn [snd].
  set (t := s <| next_ptr ::= Z.succ |>). transitivity (links t); [|done]. apply links_new_file; done.
Qed.
Lemma link_ensureFile fh k : KL (ensureFile fh k).
Proof. apply keeps_linked, fix_ensureFile. Qed.
Hint Resolve link_cleanTemp link_ensureFile : keeps.
Lemma link_drop_names l r : KL (drop_names l r).
Proof. revert r. induction l; intros r; simpl; keeping. Qed.
Hint Resolve link_drop_names : keeps.
Lemma link_evictObject i : KL (evictObject i).
Proof. unfold evictObject. keeping. Qed.
Lemma link_evictPart fh : KL (evictPart fh).
Proof. unfold evictPart. keeping. Qed.
Lemma link_evictBlock id : KL (evictBlock id).
Proof. unfold evictBlock. keeping. Qed.
Hint Resolve link_evictObject link_evictPart link_evictBlock : keeps.
Lemma link_evictExpired x : KL (evictExpired x).
Proof. unfold evictExpired. keeping. Qed.
Lemma link_evictOne x : KL (evictOne x).
Proof. unfold evictOne. keeping. Qed.
Hint Resolve link_evictExpired link_evictOne : keeps.
Lemma link_cap_loop fuel n e x : KL (cap_loop fuel n e x).
Proof. induction fuel; simpl; keeping. Qed.
Lemma link_free_loop fuel dir n x : KL (free_loop fuel dir n x).
Proof. induction fuel; simpl; keeping. Qed.
Lemma link_reserve_loop fuel dir n : KL (reserve_loop fuel dir n).
Proof. induction fuel; simpl; keeping. Qed.
Hint Resolve link_cap_loop link_free_loop link_reserve_loop : keeps.
Lemma link_makeRoomFor a b c x : KL (makeRoomFor a b c x).
Proof. unfold makeRoomFor. keeping. apply keeps_links_mod. intros s. by destruct a1. Qed.
Hint Resolve link_makeRoomFor : keeps.
Lemma link_blockRoom id o n z p : KL (blockRoom id o n z p).
Proof. unfold blockRoom. keeping. Qed.
Lemma link_ReserveDisk dir n : KL (ReserveDisk dir n).
Proof. unfold ReserveDisk. keeping. Qed.
Lemma link_releaseDisk n : KL (releaseDisk n).
Proof. unfold releaseDisk. keeping. Qed.
Lemma link_cleanAll fuel : KL (cleanAll fuel).
Proof. induction fuel; simpl; keeping. Qed.
Hint Resolve link_cleanAll : keeps.
Lemma link_GC : KL GC.
Proof. unfold GC, makeRoom. keeping. Qed.
Hint Resolve link_blockRoom link_ReserveDisk link_releaseDisk link_GC : keeps.

(** *** Sparse and complete files *)

Lemma link_partFile fh ptr : KL (partFile fh ptr).
Proof. unfold partFile. keeping. Qed.
Lemma link_sparse_file fh n b : KL (sparse_file fh n b).
Proof. unfold sparse_file. keeping. Qed.
Lemma link_mount_part fh k p : KL (cmod (mount_part fh k p)).
Proof. apply keeps_links_mod. intros s. unfold mount_part. by rewrite links_upd_file. Qed.
Hint Resolve link_partFile link_sparse_file link_mount_part : keeps.
Lemma link_ensurePart k n : KL (ensurePart k n).
Proof. unfold ensurePart. keeping. Qed.
Lemma link_notePartBlock fh ptr k idx n : KL (notePartBlock fh ptr k idx n).
Proof. unfold notePartBlock. keeping. Qed.
Lemma link_persistPart fh ptr c : KL (persistPart fh ptr c).
Proof. unfold persistPart. keeping. Qed.
Hint Resolve link_ensurePart link_notePartBlock link_persistPart : keeps.

(** A file stays in the index through what does not touch the files. *)
Definition has_file (fh : string) (s : cache) : Prop := linked s /\ is_Some (files s !! fh).
Lemma keeps_has_file {A} fh (m : CM A) : fixes (fun s => (files s, objects s)) m -> keeps (has_file fh) m.
Proof.
  intros H s [Hl Hf]. specialize (H s). injection H as H1 H2. split; [|by rewrite H1].
  eapply linked_links; [|done]. unfold links. by rewrite H1, H2.
Qed.
Instance fo_blind : Blind (fun s => (files s, objects s)).
Proof. by split. Qed.
Lemma has_file_upd fh g h : (forall f, whole (h f) = whole f) -> keeps (has_file fh) (cmod (upd_file g h)).
Proof.
  intros Hw s [Hl Hf]. split; [eapply linked_links; [by apply links_upd_file|done]|]. simpl. by apply lookup_alter_is_Some.
Qed.
(** Publication: from a file in the index, attach the object and drop the rest. *)
Lemma link_publish {A} fh inf (m : CM A) : KL m ->
  triple (has_file fh) (do+ cmod (attachWhole fh inf); m) (fun _ => linked).
Proof. intros Hm s [Hl Hf]. apply Hm. by apply linked_attachWhole. Qed.
Lemma triple_keep {A B} P (m : CM A) (k : A -> CM B) Q :
  keeps P m -> (forall a, triple P (k a) Q) -> triple P (cbind m k) Q.
Proof. intros Hm Hk. eapply triple_bind; [exact Hm|exact Hk]. Qed.
Lemma triple_keep_then {A B} P (m : CM A) (k : CM B) Q : keeps P m -> triple P k Q -> triple P (cthen m k) Q.
Proof. intros Hm Hk. eapply triple_then; [exact Hm|exact Hk]. Qed.
Lemma has_file_linked {A} fh (m : CM A) : KL m -> triple (has_file fh) m (fun _ => linked).
Proof. intros Hm s [Hl _]. by apply Hm. Qed.

Lemma fo_forgetPart fh p : fixes (fun s => objects s) (forgetPart fh p false).
Proof.
  unfold forgetPart. apply fix_then; [|done]. apply fix_mod. intros s. simpl.
  destruct (parts s !! fh); [|done]. by destruct (bool_decide _).
Qed.
Lemma has_file_forgetPart fh g p : keeps (has_file fh) (forgetPart g p false).
Proof.
  intros s [Hl Hf]. split; [by apply link_forgetPart|]. simpl. apply lookup_alter_is_Some.
  destruct (parts s !! g); [|done]. by destruct (bool_decide _).
Qed.
Lemma link_finishPart k fh ptr : KL (finishPart k fh ptr).
Proof.
  unfold finishPart. apply keeps_bind; [keeping|]. intros [i|[]]; try by keeping.
  apply keeps_bind; [keeping|]. intros [u|e]; [|keeping].
  apply keeps_bind; [keeping|]. intros [v|e]; [|keeping].
  apply keeps_bind; [keeping|]. intros inf s Hs. unfold cbind at 1. cbn [cget]. unfold id, part_live.
  destruct (parts s !! fh) as [p|]; [|done]. destruct (bool_decide _); [|done].
  destruct (negb _); [done|]. destruct (files s !! fh) as [f|] eqn:Hf; [|by rewrite bool_decide_eq_false_2].
  destruct (_ || _); [done|].
  assert (H0 : has_file fh s) by (split; [done|by eexists]). revert s H0 Hs Hf. 
  match goal with |- forall s, _ -> _ -> _ -> linked ((?m) s).2 => enough (H : triple (has_file fh) m (fun _ => linked)) by (intros s H0 _ _; by apply (H s)) end.
  apply triple_keep; [apply keeps_has_file; fixing|]. intros [w|e]; [|by intros s []].
  apply triple_keep_then; [apply keeps_has_file; fixing|].
  apply triple_keep_then; [apply has_file_forgetPart|].
  apply triple_keep_then; [by apply has_file_upd|].
  apply link_publish. keeping.
Qed.
Hint Resolve link_finishPart : keeps.
Lemma link_settlePart k fh ptr idx n : KL (settlePart k fh ptr idx n).
Proof. unfold settlePart. keeping. Qed.
Lemma link_holdFile k n : KL (holdFile k n).
Proof. unfold holdFile. keeping. Qed.
Lemma link_partRoom fh n : KL (partRoom fh n).
Proof. unfold partRoom. keeping. Qed.
Hint Resolve link_settlePart link_holdFile link_partRoom : keeps.
Lemma link_putPart k idx d n : KL (putPart k idx d n).
Proof. unfold putPart, releaseFile. keeping. Qed.
Lemma link_adoptBlockIntoPart k idx : KL (adoptBlockIntoPart k idx).
Proof. unfold adoptBlockIntoPart. keeping. Qed.
Lemma link_drop_flushed id : KL (drop_flushed id).
Proof. unfold drop_flushed. keeping. Qed.
Lemma link_release_mem id : KL (cmod (release_mem id)).
Proof. apply keeps_links_mod. intros s. unfold release_mem. by destruct (blocks s !! id). Qed.
Hint Resolve link_putPart link_adoptBlockIntoPart link_drop_flushed link_release_mem : keeps.
Lemma link_flushMemToPart id p d : KL (flushMemToPart id p d).
Proof. unfold flushMemToPart. keeping. Qed.
Lemma link_closeParts : KL closeParts.
Proof. unfold closeParts, closePart. keeping. Qed.
Lemma link_OpenWhole k : KL (OpenWhole k).
Proof. unfold OpenWhole. keeping. Qed.
Lemma link_closeWhole o : KL (closeWhole o).
Proof.
  intros s Hs. apply linked_releaseObject. eapply linked_links; [by apply links_upd_object|done].
Qed.
Lemma link_HydratedPath k : KL (HydratedPath k).
Proof. unfold HydratedPath. keeping. Qed.
Lemma link_scheduleHydrate k : KL (scheduleHydrate k).
Proof. unfold scheduleHydrate. keeping. Qed.
Hint Resolve link_flushMemToPart link_closeParts link_OpenWhole link_closeWhole link_HydratedPath link_scheduleHydrate : keeps.
Lemma ensureFile_has fh k : triple linked (ensureFile fh k) (fun _ => has_file fh).
Proof.
  intros s Hs. split; [by apply link_ensureFile|]. unfold ensureFile, cbind, cget, id.
  destruct (files s !! fh) eqn:Hf; simpl; [by rewrite Hf; eexists|]. by rewrite lookup_insert_eq; eexists.
Qed.
Lemma link_installTemp k t n p : KL (installTemp k t n p).
Proof.
  unfold installTemp. apply keeps_bind; [keeping|]. intros [inf|e]; [|keeping]. destruct (negb _); [keeping|].
  apply keeps_bind; [keeping|]. intros [u|e]; [|keeping].
  eapply triple_then; [apply ensureFile_has|].
  apply triple_keep_then; [by apply has_file_upd|]. apply link_publish. keeping.
Qed.
Hint Resolve link_installTemp : keeps.
Lemma link_installBody k src n p t i : KL (installBody k src n p t i).
Proof. unfold installBody. keeping. Qed.
Hint Resolve link_installBody : keeps.
Lemma link_installWhole k src n a p : KL (installWhole k src n a p).
Proof. unfold installWhole. keeping. Qed.
Hint Resolve link_installWhole : keeps.
Lemma link_remembered k m : KL m -> KL (remembered k m).
Proof. intros H. unfold remembered. keeping. Qed.
Lemma link_unhold fh p : KL (unhold fh p).
Proof. apply keeps_links_mod. intros s. apply links_upd_file. intros f. by destruct (bool_decide _). Qed.
Lemma link_reserve n : KL (reserve n).
Proof. unfold reserve. keeping. Qed.
Lemma link_unreserve n : KL (unreserve n).
Proof. unfold unreserve. keeping. Qed.
Hint Resolve link_unhold link_reserve link_unreserve : keeps.
Lemma link_begin_job k p n g : KL (begin_job k p n g).
Proof. unfold begin_job. keeping. Qed.
Lemma link_end_job j c : KL (end_job j c).
Proof. unfold end_job. keeping. Qed.
Hint Resolve link_begin_job link_end_job : keeps.
Lemma link_hydrate_begin k : KL (hydrate_begin k).
Proof. unfold hydrate_begin. keeping. Qed.
Lemma link_merge_blocks k n l acc : KL (merge_blocks k n l acc).
Proof. revert acc. induction l; intros acc; simpl; keeping. Qed.
Hint Resolve link_merge_blocks : keeps.
Lemma link_hydrate_copy j : KL (hydrate_copy j).
Proof. unfold hydrate_copy. keeping. Qed.
Lemma link_hydrate_publish j : KL (hydrate_publish j).
Proof.
  intros s Hs. unfold hydrate_publish, cbind at 1. cbn [cget]. unfold id.
  destruct (j_temp j) as [tmp|]; [|done]. destruct (job_stale j s) eqn:Hst; [by apply (link_end_job j false)|].
  assert (Hf : has_file (key_hash (j_key j)) s).
  { split; [done|]. unfold job_stale in Hst. apply orb_false_iff in Hst as [_ Hst].
    destruct (files s !! key_hash (j_key j)); [by eexists|done]. }
  clear Hst Hs. revert s Hf.
  match goal with |- forall s, _ -> linked ((?m) s).2 => change (triple (has_file (key_hash (j_key j))) m (fun _ => linked)) end.
  apply triple_keep; [apply keeps_has_file; fixing|]. intros inf.
  apply triple_keep; [apply keeps_has_file; fixing|]. intros [u|e]; [|apply has_file_linked; keeping].
  apply link_publish. keeping.
Qed.
Lemma link_hydrateDue : KL hydrateDue.
Proof. unfold hydrateDue. keeping. Qed.
Lemma link_putWhole_begin k n : KL (putWhole_begin k n).
Proof. unfold putWhole_begin. keeping. Qed.
Lemma link_putWhole_copy j r b : KL (putWhole_copy j r b).
Proof. unfold putWhole_copy. keeping. Qed.
Lemma link_putWhole_publish j : KL (putWhole_publish j).
Proof. unfold putWhole_publish. keeping. Qed.

(** *** Blocks *)

Lemma link_touch_files fh idx : KL (cmod (touch_files fh idx)).
Proof.
  apply keeps_links_mod. intros s. unfold touch_files. destruct (files s !! fh) as [fs|]; [|done].
  assert (H : forall s', links s' = links s ->
    links (match fs_part fs, parts s !! fh with
            | Some _, Some p => if hasBlock p idx then upd_part fh (fun p => p <| wp_access := now s |> <| wp_hot := true |>) s' else s'
            | _, _ => s' end) = links s).
  { intros s' <-. destruct (fs_part fs); [|done]. destruct (parts s !! fh); [|done]. by destruct (hasBlock _ _). }
  apply H. destruct (whole fs); [|done]. by apply links_upd_object.
Qed.
Lemma link_forgetBlock id : KL (forgetBlock id).
Proof. unfold forgetBlock. keeping. Qed.
Hint Resolve link_touch_files link_forgetBlock : keeps.
Lemma link_readBlock k idx o n z : KL (readBlock k idx o n z).
Proof. unfold readBlock. keeping. Qed.
Lemma link_locate k idx : KL (locate k idx).
Proof. unfold locate. keeping. Qed.
Lemma link_locateRange k idx o n : KL (locateRange k idx o n).
Proof. unfold locateRange. keeping. Qed.
Hint Resolve link_readBlock link_locate link_locateRange : keeps.
Lemma link_Get k idx : KL (Get k idx).
Proof. unfold Get, countHit, countMiss. keeping. Qed.
Lemma link_ReadAt k idx o n : KL (ReadAt k idx o n).
Proof. unfold ReadAt, countHit, countMiss. keeping. Qed.
Lemma link_note_file k n : KL (note_file k n).
Proof. unfold note_file. keeping. Qed.
Lemma link_inherit_pin id : KL (cmod (inherit_pin id)).
Proof.
  apply keeps_links_mod. intros s. unfold inherit_pin. destruct (files s !! id.1); [|done]. by destruct (_ || _).
Qed.
Hint Resolve link_note_file link_inherit_pin : keeps.
Lemma links_replace_block id m s : links (replace_block id m s) = links s.
Proof. rewrite <- (links_uncharge id s). done. Qed.
Lemma link_put k idx d n : KL (put k idx d n).
Proof. unfold put. keeping. apply keeps_links_mod. intros s. apply links_replace_block. Qed.
Lemma link_Pin k b : KL (Pin k b).
Proof. unfold Pin. keeping. Qed.
Lemma link_SetUserPin k b : KL (SetUserPin k b).
Proof. unfold SetUserPin. keeping. Qed.
Lemma link_forget_blocks l : KL (forget_blocks l).
Proof. induction l; simpl; keeping. Qed.
Lemma link_forget_sparse fh : KL (forget_sparse fh).
Proof. unfold forget_sparse. keeping. Qed.
Hint Resolve link_put link_forget_blocks link_forget_sparse : keeps.
(** No object lists a file that has none. *)
Definition unlinked_file (fh : string) (s : cache) : Prop := linked s /\ (links s).1 !! fh = None.
Lemma keeps_unlinked {A} fh (m : CM A) : fixes links m -> keeps (unlinked_file fh) m.
Proof. intros H s [Hl Hn]. split; [by eapply keeps_linked|by rewrite H]. Qed.
Lemma link_drop_file fh : triple (unlinked_file fh) (cmod (fun s => s <| files ::= delete fh |>)) (fun _ => linked).
Proof.
  intros s [Hl Hn] g i. cbn [cmod snd].
  assert (Eq : links (s <| files ::= delete fh |>) = links s).
  { unfold links. simpl. f_equal. apply map_eq. intros j. rewrite !lookup_omap.
    destruct (decide (fh = j)) as [<-|Hj]; [|by rewrite lookup_delete_ne].
    rewrite lookup_delete_eq. unfold links in Hn. simpl in Hn. rewrite lookup_omap in Hn. by rewrite Hn. }
  unfold linked in Hl. rewrite Eq. apply Hl.
Qed.
Lemma link_forgetFile k b : KL (forgetFile k b).
Proof.
  unfold forgetFile. apply keeps_then; [keeping|]. apply keeps_bind; [keeping|]. intros s. apply keeps_bind; [keeping|].
  intros n. apply keeps_bind; [keeping|]. intros [u1|e]; [|keeping]. apply keeps_bind; [keeping|]. intros [u2|e]; [|keeping].
  apply keeps_bind; [keeping|]. intros [u3|e]; [|keeping].
  eapply (triple_then _ _ (unlinked_file (key_hash k))).
  { intros t Ht. split; [by apply linked_detachWhole|apply detachWhole_gone]. }
  apply triple_keep; [apply keeps_unlinked; fixing|]. intros [u4|e]; [|by intros t []].
  apply triple_keep; [apply keeps_unlinked; fixing|]. intros [u5|e]; [|by intros t []].
  eapply triple_then; [apply link_drop_file|by intros t Ht].
Qed.
Hint Resolve link_forgetFile : keeps.

(** *** Partial blocks and write-behind *)

Lemma link_noteClaim id w : KL (cmod (noteClaim id w)).
Proof. apply keeps_links_mod. intros s. unfold noteClaim. by destruct (blocks s !! id). Qed.
Lemma link_keep_open id f : KL (cmod (keep_open id f)).
Proof. apply keeps_links_mod. intros s. unfold keep_open. destruct (blocks s !! id); [|done]. by destruct (_ && _). Qed.
Lemma link_promote id : KL (cmod (promote id)).
Proof. apply keeps_links_mod. intros s. unfold promote. by destruct (blocks s !! id). Qed.
Lemma link_partialMeta id bl : KL (cmod (partialMeta id bl)).
Proof. apply keeps_links_mod. intros s. unfold partialMeta. by destruct (blocks s !! id). Qed.
Lemma link_gain_sub id bl i h : KL (cmod (gain_sub id bl i h)).
Proof.
  apply keeps_links_mod. intros s. unfold gain_sub. destruct (part_of id s) as [p|]; [|done].
  destruct (p_has p i); [done|]. by destruct h.
Qed.
Hint Resolve link_noteClaim link_keep_open link_promote link_partialMeta link_gain_sub : keeps.
Lemma link_sweepClaims q : KL (sweepClaims q).
Proof. unfold sweepClaims, sweepBlock. keeping. Qed.
Lemma link_claimBlock id a b : KL (claimBlock id a b).
Proof. unfold claimBlock. keeping. Qed.
Hint Resolve link_sweepClaims link_claimBlock : keeps.
Lemma link_openPartialBlock id a b n : KL (openPartialBlock id a b n).
Proof. unfold openPartialBlock. keeping. Qed.
Lemma link_dropPartial id : KL (dropPartial id).
Proof. unfold dropPartial. keeping. Qed.
Lemma link_enqueue id : KL (enqueue id).
Proof. unfold enqueue. keeping. Qed.
Lemma link_start_queue : KL (cmod start_queue).
Proof. apply keeps_links_mod. intros s. unfold start_queue. by destruct (wb_queue s). Qed.
Hint Resolve link_openPartialBlock link_dropPartial link_enqueue link_start_queue : keeps.
Lemma link_putRangeSync k idx o d n : KL (putRangeSync k idx o d n).
Proof. unfold putRangeSync. keeping. Qed.
Lemma link_flushSubs id : KL (flushSubs id).
Proof. unfold flushSubs. keeping. Qed.
Lemma link_hold_subs id bl o d : KL (hold_subs id bl o d).
Proof. unfold hold_subs. keeping. Qed.
Hint Resolve link_putRangeSync link_flushSubs link_hold_subs : keeps.
Lemma link_PutRange k idx o d n : KL (PutRange k idx o d n).
Proof. unfold PutRange. keeping. Qed.
Lemma link_flush_begin id : KL (flush_begin id).
Proof. unfold flush_begin. keeping. Qed.
Lemma link_flush_done f : KL (flush_done f).
Proof.
  unfold flush_done. apply keeps_links_mod. intros s.
  set (s1 := match blocks s !! fl_id f with Some m => _ | None => s end).
  assert (H : links s1 = links s) by (unfold s1; destruct (blocks s !! fl_id f); [by destruct (_ =? _)|done]).
  destruct (bool_decide _); exact H.
Qed.
Hint Resolve link_flush_begin link_flush_done : keeps.
Lemma link_flush_end f : KL (flush_end f).
Proof. unfold flush_end. keeping. Qed.
Lemma link_dequeue : KL dequeue.
Proof. unfold dequeue. keeping. Qed.
Hint Resolve link_flush_end : keeps.
Lemma link_PutAsync k idx d n : KL (PutAsync k idx d n).
Proof. unfold PutAsync. keeping. apply keeps_links_mod. intros s. apply links_replace_block. Qed.
Lemma link_close_begin : KL close_begin.
Proof. unfold close_begin. apply keeps_links_mod. intros s. by destruct (wb_closed s). Qed.
Lemma link_close_end : KL close_end.
Proof. unfold close_end, sweepAllClaims. keeping. Qed.
End Ops.
