(* ===== verification/CacheCalls.v ===== *)
(** * The read cache as a system

    Its users call it, its workers flush and hydrate, streams install whole
    files, readers hold leases, writers hold reservations, and time passes.  A
    call is one step; work that runs without the lock is several, so calls of
    others come between.  The accounts hold after every run of steps, from any
    directory and under any failures of the operating system. *)
From S2P Require Import Prelude CacheBits CacheState CacheRoom CacheWhole CacheBlocks CacheSub CacheBehind CacheFrame CacheLinks.
Open Scope Z_scope.

Record sys := MkSys {
  sc : cache;
  hydrations : list job; streams : list job;    (* between begin and publication *)
  flights : list flight;
  leases : list Z; reservations : list Z
}.
#[export] Instance sys_eta : Settable sys := fun s =>
  MkSys (sc s) (hydrations s) (streams s) (flights s) (leases s) (reservations s).

Inductive ccall :=
| CRead (k : FileKey) (idx off n : Z) | CGet (k : FileKey) (idx : Z) | CHas (k : FileKey) (idx : Z)
| CHasRange (k : FileKey) (idx off n : Z) | CHydratedPath (k : FileKey)
| CPut (k : FileKey) (idx : Z) (data : list Z) (size : Z)
| CPutAsync (k : FileKey) (idx : Z) (data : list Z) (size : Z)
| CPutRange (k : FileKey) (idx off : Z) (data : list Z) (size : Z)
| CFlushBegin | CFlushEnd (n : nat) | CSweep (quiet : Z)
| CHydrateDue | CHydrate (k : FileKey) | CHydrateCopy (n : nat) | CHydratePublish (n : nat)
| CStream (k : FileKey) (size : Z) | CStreamCopy (n : nat) (r : list Z) (failed : bool) | CStreamPublish (n : nat)
| CAdopt (k : FileKey) (src : string) (size : Z) | CLink (k : FileKey) (src : string) (size : Z)
| CLinkPinned (k : FileKey) (src : string) (size : Z)
| COpenWhole (k : FileKey) | CCloseWhole (n : nat)
| CPin (k : FileKey) (b : bool) | CSetUserPin (k : FileKey) (b : bool)
| CForget (k : FileKey) | CForgetChecked (k : FileKey) | CGC
| CReserve (dir : string) (n : Z) | CRelease (n : nat)
| CClose | CCloseEnd
| CTime (t : Z) | COutside (name : string) (data : list Z).

Section Calls.
Context {E : CacheEnv} {Cfg : Options}.

Definition runs_op {A} (m : CM A) (s : sys) : sys := s <| sc := snd (m (sc s)) |>.
Definition outside (name : string) : cpath := (KOutside, name, 0).

Definition cstep (c : ccall) (s : sys) : sys :=
  match c with
  | CRead k idx off n => runs_op (ReadAt k idx off n) s
  | CGet k idx => runs_op (Get k idx) s
  | CHas k idx => runs_op (Has k idx) s
  | CHasRange k idx off n => runs_op (HasRange k idx off n) s
  | CHydratedPath k => runs_op (HydratedPath k) s
  | CPut k idx data size => runs_op (Put k idx data size) s
  | CPutAsync k idx data size => runs_op (PutAsync k idx data size) s
  | CPutRange k idx off data size => runs_op (PutRange k idx off data size) s
  | CFlushBegin =>
      let '(q, c1) := dequeue (sc s) in
      match q with
      | None => s <| sc := c1 |>
      | Some id => let '(f, c2) := flush_begin id c1 in
                   s <| sc := c2 |> <| flights ::= fun l => l ++ option_list f |>
      end
  | CFlushEnd n =>
      match flights s !! n with
      | Some f => runs_op (flush_end f) s <| flights ::= delete n |>
      | None => s
      end
  | CSweep quiet => runs_op (sweepClaims quiet) s
  | CHydrateDue => runs_op hydrateDue s
  | CHydrate k =>
      let '(r, c1) := hydrate_begin k (sc s) in
      match r with
      | Ok (Some j) => s <| sc := c1 |> <| hydrations ::= fun l => l ++ [j] |>
      | _ => s <| sc := c1 |>
      end
  | CHydrateCopy n =>
      match hydrations s !! n with
      | Some j =>
          if bool_decide (j_temp j = None) then
            let '(r, c1) := hydrate_copy j (sc s) in
            match r with
            | Ok (Some j') => s <| sc := c1 |> <| hydrations ::= insert n j' |>
            | _ => s <| sc := c1 |> <| hydrations ::= delete n |>
            end
          else s
      | None => s
      end
  | CHydratePublish n =>
      match hydrations s !! n with
      | Some j => if bool_decide (j_temp j = None) then s
                  else runs_op (hydrate_publish j) s <| hydrations ::= delete n |>
      | None => s
      end
  | CStream k size =>
      let '(r, c1) := putWhole_begin k size (sc s) in
      match r with
      | Ok j => s <| sc := c1 |> <| streams ::= fun l => l ++ [j] |>
      | Err _ => s <| sc := c1 |>
      end
  | CStreamCopy n r failed =>
      match streams s !! n with
      | Some j =>
          if bool_decide (j_temp j = None) then
            let '(x, c1) := putWhole_copy j r failed (sc s) in
            match x with
            | Ok j' => s <| sc := c1 |> <| streams ::= insert n j' |>
            | Err _ => s <| sc := c1 |> <| streams ::= delete n |>
            end
          else s
      | None => s
      end
  | CStreamPublish n =>
      match streams s !! n with
      | Some j => if bool_decide (j_temp j = None) then s
                  else runs_op (putWhole_publish j) s <| streams ::= delete n |>
      | None => s
      end
  | CAdopt k src size => runs_op (AdoptFile k (outside src) size) s
  | CLink k src size => runs_op (LinkFile k (outside src) size) s
  | CLinkPinned k src size => runs_op (LinkPinnedFile k (outside src) size) s
  | COpenWhole k =>
      let '(r, c1) := OpenWhole k (sc s) in
      match r with
      | Ok (_, o) => s <| sc := c1 |> <| leases ::= fun l => l ++ [o] |>
      | Err _ => s <| sc := c1 |>
      end
  | CCloseWhole n =>
      match leases s !! n with
      | Some o => runs_op (closeWhole o) s <| leases ::= delete n |>
      | None => s
      end
  | CPin k b => runs_op (Pin k b) s
  | CSetUserPin k b => runs_op (SetUserPin k b) s
  | CForget k => runs_op (Forget k) s
  | CForgetChecked k => runs_op (ForgetChecked k) s
  | CGC => runs_op GC s
  | CReserve dir n =>
      let '(r, c1) := ReserveDisk dir n (sc s) in
      match r with
      | Ok _ => s <| sc := c1 |> <| reservations ::= fun l => l ++ [n] |>
      | Err _ => s <| sc := c1 |>
      end
  | CRelease n =>
      match reservations s !! n with
      | Some w => runs_op (releaseDisk w) s <| reservations ::= delete n |>
      | None => s
      end
  | CClose => runs_op close_begin s
  | CCloseEnd =>
      if wb_closed (sc s) && bool_decide (flights s = []) && bool_decide (hydrations s = [])
         && bool_decide (default [] (wb_queue (sc s)) = [])
      then runs_op close_end s else s
  | CTime t => s <| sc ::= fun c => c <| now ::= Z.max t |> |>
  | COutside name data =>
      if bool_decide (names (dsk (sc s)) !! outside name = None) then
        s <| sc ::= fun c => c <| dsk ::= fresh_node (outside name) data (now c) |> |>
      else s
  end.

Definition run_calls (l : list ccall) (s : sys) : sys := foldl (fun s c => cstep c s) s l.
(** A cache just started over a directory. *)
Definition boot (d : disk) (t : Z) : sys := MkSys (snd (reload (emptyCache d t))) [] [] [] [] [].
End Calls.

(** ** What is owed to the work in progress *)

Definition lsum {A} (v : A -> Z) (l : list A) : Z := foldr (fun x acc => v x + acc) 0 l.
Lemma lsum_app {A} (v : A -> Z) l k : lsum v (l ++ k) = lsum v l + lsum v k.
Proof. induction l; simpl; lia. Qed.
Lemma lsum_delete {A} (v : A -> Z) l n x : l !! n = Some x -> lsum v (delete n l) = lsum v l - v x.
Proof.
  revert n. induction l as [|y l IH]; intros [|n] H; simplify_eq/=; [lia|]. change (delete (S n) (y :: l)) with (y :: delete n l).
  simpl. rewrite (IH n H). lia.
Qed.
Lemma lsum_insert {A} (v : A -> Z) l n x y : l !! n = Some x -> v y = v x -> lsum v (<[n:=y]> l) = lsum v l.
Proof. revert n. induction l as [|z l IH]; intros [|n] H Hv; simplify_eq/=; [lia|]. by rewrite (IH n). Qed.

Definition jobs (s : sys) : list job := hydrations s ++ streams s.
Definition owed (s : sys) : (Z * Z * Z * Z * Z) * (Z * Z * Z) :=
  ((0, 0, 0, 0, 0), (lsum j_size (jobs s), Z.of_nat (length (jobs s)), lsum id (reservations s))).
(** Every counter is the sum it stands for, and what is reserved belongs to a
    job or a writer. *)
Definition balanced (s : sys) : Prop := defect (sc s) = owed s /\ linked (sc s).

Section Balance.
Context {E : CacheEnv} {Cfg : Options}.

Lemma balanced_op {A} (m : CM A) s : fixes defect m -> keeps linked m -> balanced s -> balanced (runs_op m s).
Proof. intros H1 H2 [Hd Hl]. split; simpl; [by rewrite H1|by apply H2]. Qed.
Lemma length_delete_S {A} (l : list A) n x : l !! n = Some x -> Z.of_nat (length (delete n l)) = Z.of_nat (length l) - 1.
Proof. intros H. rewrite length_delete by (by eexists). apply lookup_lt_Some in H. lia. Qed.

Lemma triple_eq {A} (x : A) (a b c a' b' c' : Z) : a = a' -> b = b' -> c = c' -> (x, (a, b, c)) = (x, (a', b', c')).
Proof. by intros -> -> ->. Qed.
Lemma owed_hyd_delete s n j c :
  hydrations s !! n = Some j -> owed (s <| sc := c |> <| hydrations ::= delete n |>) = shift (- j_size j) (-1) 0 (owed s).
Proof.
  intros H. unfold owed, jobs, shift. simpl. rewrite !lsum_app, !length_app, !Nat2Z.inj_add.
  rewrite (lsum_delete _ _ _ j), (length_delete_S _ _ j), Z.add_0_r by done. apply triple_eq; lia.
Qed.
Lemma owed_str_delete s n j c :
  streams s !! n = Some j -> owed (s <| sc := c |> <| streams ::= delete n |>) = shift (- j_size j) (-1) 0 (owed s).
Proof.
  intros H. unfold owed, jobs, shift. simpl. rewrite !lsum_app, !length_app, !Nat2Z.inj_add.
  rewrite (lsum_delete _ _ _ j), (length_delete_S _ _ j), Z.add_0_r by done. apply triple_eq; lia.
Qed.
Lemma owed_hyd_insert s n j j' c :
  hydrations s !! n = Some j -> j_size j' = j_size j -> owed (s <| sc := c |> <| hydrations ::= insert n j' |>) = owed s.
Proof.
  intros H Hj. unfold owed, jobs. simpl. by rewrite !lsum_app, !length_app, (lsum_insert _ _ _ j), length_insert.
Qed.
Lemma owed_str_insert s n j j' c :
  streams s !! n = Some j -> j_size j' = j_size j -> owed (s <| sc := c |> <| streams ::= insert n j' |>) = owed s.
Proof.
  intros H Hj. unfold owed, jobs. simpl. by rewrite !lsum_app, !length_app, (lsum_insert _ _ _ j), length_insert.
Qed.
Lemma owed_hyd_add s j c : owed (s <| sc := c |> <| hydrations ::= fun l => l ++ [j] |>) = shift (j_size j) 1 0 (owed s).
Proof. unfold owed, jobs, shift. simpl. rewrite !lsum_app, !length_app, Z.add_0_r. simpl. apply triple_eq; lia. Qed.
Lemma owed_str_add s j c : owed (s <| sc := c |> <| streams ::= fun l => l ++ [j] |>) = shift (j_size j) 1 0 (owed s).
Proof. unfold owed, jobs, shift. simpl. rewrite !lsum_app, !length_app, Z.add_0_r. simpl. apply triple_eq; lia. Qed.

(** A step whose operation is told apart by its result. *)
Lemma balanced_hydrate k s : balanced s -> balanced (cstep (CHydrate k) s).
Proof.
  intros [Hd Hl]. cbn [cstep]. pose proof (acct_hydrate_begin k (sc s)) as H1. pose proof (link_hydrate_begin k (sc s) Hl) as H2.
  destruct (hydrate_begin k (sc s)) as [[[j|]|e] c1]; cbn [snd] in H2; split; try done.
  - rewrite owed_hyd_add, <- Hd. exact H1.
  - transitivity (defect (sc s)); [exact H1|exact Hd].
  - transitivity (defect (sc s)); [exact H1|exact Hd].
Qed.
Lemma balanced_hydrate_copy n s : balanced s -> balanced (cstep (CHydrateCopy n) s).
Proof.
  intros [Hd Hl]. cbn [cstep]. destruct (hydrations s !! n) as [j|] eqn:Hj; [|done].
  destruct (bool_decide _); [|done].
  pose proof (acct_hydrate_copy j (sc s)) as H1. pose proof (link_hydrate_copy j (sc s) Hl) as H2.
  destruct (hydrate_copy j (sc s)) as [[[j'|]|e] c1]; cbn [snd] in H2; split; try done.
  - destruct H1 as (Hsz & _ & H1). rewrite (owed_hyd_insert _ _ j), <- Hd by done. exact H1.
  - rewrite (owed_hyd_delete _ _ j), <- Hd by done. exact H1.
  - rewrite (owed_hyd_delete _ _ j), <- Hd by done. exact H1.
Qed.
Lemma balanced_hydrate_publish n s : balanced s -> balanced (cstep (CHydratePublish n) s).
Proof.
  intros [Hd Hl]. cbn [cstep]. destruct (hydrations s !! n) as [j|] eqn:Hj; [|done].
  case_bool_decide as Ht; [done|]. split; [|by apply link_hydrate_publish].
  etransitivity; [exact (acct_hydrate_publish j (sc s) Ht)|]. rewrite Hd. symmetry.
  exact (owed_hyd_delete s n j _ Hj).
Qed.
Lemma balanced_stream k size s : balanced s -> balanced (cstep (CStream k size) s).
Proof.
  intros [Hd Hl]. cbn [cstep]. pose proof (acct_putWhole_begin k size (sc s)) as H1.
  pose proof (link_putWhole_begin k size (sc s) Hl) as H2.
  destruct (putWhole_begin k size (sc s)) as [[j|e] c1]; cbn [snd] in H2; split; try done; [|transitivity (defect (sc s)); [exact H1|exact Hd]].
  rewrite owed_str_add, <- Hd. exact H1.
Qed.
Lemma balanced_stream_copy n r b s : balanced s -> balanced (cstep (CStreamCopy n r b) s).
Proof.
  intros [Hd Hl]. cbn [cstep]. destruct (streams s !! n) as [j|] eqn:Hj; [|done].
  destruct (bool_decide _); [|done].
  pose proof (acct_putWhole_copy j r b (sc s)) as H1. pose proof (link_putWhole_copy j r b (sc s) Hl) as H2.
  destruct (putWhole_copy j r b (sc s)) as [[j'|e] c1]; cbn [snd] in H2; split; try done.
  - destruct H1 as (Hsz & _ & H1). rewrite (owed_str_insert _ _ j), <- Hd by done. exact H1.
  - rewrite (owed_str_delete _ _ j), <- Hd by done. exact H1.
Qed.
Lemma balanced_stream_publish n s : balanced s -> balanced (cstep (CStreamPublish n) s).
Proof.
  intros [Hd Hl]. cbn [cstep]. destruct (streams s !! n) as [j|] eqn:Hj; [|done].
  case_bool_decide as Ht; [done|]. split; [|by apply link_putWhole_publish].
  etransitivity; [exact (acct_putWhole_publish j (sc s) Ht)|]. rewrite Hd. symmetry.
  exact (owed_str_delete s n j _ Hj).
Qed.
Lemma balanced_reserve dir n s : balanced s -> balanced (cstep (CReserve dir n) s).
Proof.
  intros [Hd Hl]. cbn [cstep]. pose proof (acct_ReserveDisk dir n (sc s)) as H1. pose proof (link_ReserveDisk dir n (sc s) Hl) as H2.
  destruct (ReserveDisk dir n (sc s)) as [[u|e] c1]; cbn [snd] in H2; split; try done; [|transitivity (defect (sc s)); [exact H1|exact Hd]].
  etransitivity; [exact H1|]. rewrite Hd. unfold owed, jobs, shift. simpl. rewrite !lsum_app. simpl. unfold id. apply triple_eq; lia.
Qed.
Lemma balanced_release n s : balanced s -> balanced (cstep (CRelease n) s).
Proof.
  intros [Hd Hl]. cbn [cstep]. destruct (reservations s !! n) as [w|] eqn:Hw; [|done].
  split; [|by apply link_releaseDisk]. etransitivity; [exact (acct_releaseDisk w (sc s))|]. rewrite Hd.
  unfold owed, jobs, shift. simpl. rewrite (lsum_delete _ _ _ w) by done. apply triple_eq; unfold id; lia.
Qed.

Lemma acct_Forget k : fixes defect (Forget k).
Proof. unfold Forget. apply fix_then; [apply acct_forgetFile|done]. Qed.
Lemma link_Forget k : keeps linked (Forget k).
Proof. unfold Forget. apply keeps_then; [apply link_forgetFile|by apply triple_ret]. Qed.
Lemma acct_Has k idx : fixes defect (Has k idx).
Proof. unfold Has. apply fix_bind; [apply acct_locate|done]. Qed.
Lemma link_Has k idx : keeps linked (Has k idx).
Proof. unfold Has. apply keeps_bind; [apply link_locate|intros a; by apply triple_ret]. Qed.
Lemma acct_HasRange k idx o n : fixes defect (HasRange k idx o n).
Proof. unfold HasRange. apply fix_bind; [apply acct_locateRange|done]. Qed.
Lemma link_HasRange k idx o n : keeps linked (HasRange k idx o n).
Proof. unfold HasRange. apply keeps_bind; [apply link_locateRange|intros a; by apply triple_ret]. Qed.

Lemma balanced_step c s : balanced s -> balanced (cstep c s).
Proof.
  intros H. destruct c.
  - apply balanced_op; [apply acct_ReadAt|apply link_ReadAt|done].
  - apply balanced_op; [apply acct_Get|apply link_Get|done].
  - apply balanced_op; [apply acct_Has|apply link_Has|done].
  - apply balanced_op; [apply acct_HasRange|apply link_HasRange|done].
  - apply balanced_op; [apply acct_HydratedPath|apply link_HydratedPath|done].
  - apply balanced_op; [apply acct_put|apply link_put|done].
  - apply balanced_op; [apply acct_PutAsync|apply link_PutAsync|done].
  - apply balanced_op; [apply acct_PutRange|apply link_PutRange|done].
  - cbn [cstep]. destruct H as [Hd Hl]. pose proof (acct_dequeue (sc s)) as H1. pose proof (link_dequeue (sc s) Hl) as L1.
    destruct (dequeue (sc s)) as [[id|] c1]; cbn [snd] in *; [|by split; [transitivity (defect (sc s))|]].
    pose proof (acct_flush_begin id c1) as H2. pose proof (link_flush_begin id c1 L1) as L2.
    destruct (flush_begin id c1) as [f c2]; cbn [snd] in *. split; [|done]. transitivity (defect c2); [done|]. by rewrite H2, H1, Hd.
  - cbn [cstep]. destruct (flights s !! n) as [f|]; [|done].
    apply (balanced_op (flush_end f) (s <| flights ::= delete n |>)); [apply acct_flush_end|apply link_flush_end|done].
  - apply balanced_op; [apply acct_sweepClaims|apply link_sweepClaims|done].
  - apply balanced_op; [apply acct_hydrateDue|apply link_hydrateDue|done].
  - by apply balanced_hydrate.
  - by apply balanced_hydrate_copy.
  - by apply balanced_hydrate_publish.
  - by apply balanced_stream.
  - by apply balanced_stream_copy.
  - by apply balanced_stream_publish.
  - apply balanced_op; [apply acct_remembered, acct_installWhole|apply link_remembered, link_installWhole|done].
  - apply balanced_op; [apply acct_remembered, acct_installWhole|apply link_remembered, link_installWhole|done].
  - apply balanced_op; [apply acct_remembered, acct_installWhole|apply link_remembered, link_installWhole|done].
  - cbn [cstep]. destruct H as [Hd Hl]. pose proof (acct_OpenWhole k (sc s)) as H1. pose proof (link_OpenWhole k (sc s) Hl) as L1.
    destruct (OpenWhole k (sc s)) as [[[i o]|e] c1]; cbn [snd] in *; by split; [transitivity (defect (sc s))|].
  - cbn [cstep]. destruct (leases s !! n) as [o|]; [|done].
    apply (balanced_op (closeWhole o) (s <| leases ::= delete n |>)); [apply acct_closeWhole|apply link_closeWhole|done].
  - apply balanced_op; [apply acct_Pin|apply link_Pin|done].
  - apply balanced_op; [apply acct_SetUserPin|apply link_SetUserPin|done].
  - apply balanced_op; [apply acct_Forget|apply link_Forget|done].
  - apply balanced_op; [apply acct_forgetFile|apply link_forgetFile|done].
  - apply balanced_op; [apply acct_GC|apply link_GC|done].
  - by apply balanced_reserve.
  - by apply balanced_release.
  - apply balanced_op; [apply acct_close_begin|apply link_close_begin|done].
  - cbn [cstep]. destruct (_ && _); [|done]. apply balanced_op; [apply acct_close_end|apply link_close_end|done].
  - done.
  - cbn [cstep]. by case_bool_decide.
Qed.
Lemma balanced_run l s : balanced s -> balanced (run_calls l s).
Proof. revert s. induction l as [|c l IH]; intros s H; [done|]. apply IH. by apply balanced_step. Qed.
End Balance.

(** ** A cache just started

    The walk of a directory meets every name once, so nothing it puts in the
    index replaces anything, and each counter grows by what is put in. *)
Section Boot.
Context {E : CacheEnv} {Cfg : Options}.

Definition level (s : cache) : Prop := defect s = ((0, 0, 0, 0, 0), (0, 0, 0)).

(** A walk over distinct things, each of which finds its own place empty. *)
Lemma each_new {A} (P : cache -> Prop) (absent : A -> cache -> Prop) (g : A -> CM unit) (l : list A) :
  NoDup l ->
  (forall x (l' : list A), x ∉ l' -> triple (fun s => P s /\ absent x s /\ forall y, y ∈ l' -> absent y s) (g x)
                       (fun _ s => P s /\ forall y, y ∈ l' -> absent y s)) ->
  triple (fun s => P s /\ forall x, x ∈ l -> absent x s) (cforeach l g) (fun _ => P).
Proof.
  intros Hnd Hg. induction Hnd as [|x l Hx Hnd IH]; simpl.
  - apply triple_ret. by intros s [H _].
  - eapply triple_then; [|exact IH]. eapply triple_pre; [|by apply (Hg x l)].
    intros s [H1 H2]. split_and!; [done|apply H2; left|intros y Hy; apply H2; by right].
Qed.

Lemma NoDup_picks {A B} (f : A -> option B) (l : list A) :
  (forall x y z, f x = Some z -> f y = Some z -> x = y) -> NoDup l -> NoDup (omap f l).
Proof.
  intros Hf Hl. induction Hl as [|x l Hx Hl IH]; simpl; [constructor|].
  destruct (f x) as [z|] eqn:Hz; [|done]. constructor; [|done].
  intros (y & Hy & Hyz)%list_elem_of_omap. apply Hx. by rewrite (Hf x y z).
Qed.
Lemma NoDup_names_of k d : NoDup (names_of k d).
Proof.
  unfold names_of. apply NoDup_picks; [|apply NoDup_fst_map_to_list].
  intros [[k1 f1] i1] [[k2 f2] i2] y H1 H2. repeat case_bool_decide; simplify_eq. done.
Qed.
Lemma NoDup_texts_of k d : NoDup (texts_of k d).
Proof.
  unfold texts_of. apply NoDup_picks; [|apply NoDup_fst_map_to_list].
  intros [[k1 f1] i1] [[k2 f2] i2] y H1 H2. repeat case_bool_decide; simplify_eq. done.
Qed.
Lemma NoDup_whole_names k d : NoDup (whole_names k d).
Proof.
  unfold whole_names. apply NoDup_picks; [|apply NoDup_names_of].
  intros [f1 i1] [f2 i2] y H1 H2. simpl in *. destruct (Z.eqb_spec i1 0), (Z.eqb_spec i2 0); simplify_eq. done.
Qed.

(** *** Abandoned temporaries *)

Definition clear_temps (ks : list pkind) (s : cache) : Prop :=
  level s /\ forall k f i, k ∈ ks -> orphanTemps s !! (k, f, i) = None.
Lemma level_load_temp p n s : level s -> orphanTemps s !! p = None -> level (load_temp p n s).2.
Proof.
  intros H Hp. unfold level. rewrite <- H. simpl. vec. rewrite msum_insert by done. unfold id. lia.
Qed.
Lemma clear_temp k ks f i n :
  k ∉ ks -> triple (fun s => clear_temps ks s /\ orphanTemps s !! (k, f, i) = None) (load_temp (k, f, i) n)
              (fun _ => clear_temps ks).
Proof.
  intros Hk s [[Hl Hs] Hn]. split; [by apply level_load_temp|]. intros k' f' i' Hk'. simpl.
  rewrite lookup_insert_ne; [by apply Hs|]. congruence.
Qed.
Lemma clear_temps_head k ks (g : string * Z -> CM unit) l :
  k ∉ ks -> NoDup l ->
  (forall x s, (g x s).2 = s \/ exists n, (g x s).2 = (load_temp (k, x.1, x.2) n s).2) ->
  triple (clear_temps (k :: ks)) (cforeach l g) (fun _ => clear_temps ks).
Proof.
  intros Hk Hl Hg. eapply triple_pre; [|apply (each_new (clear_temps ks) (fun x s => orphanTemps s !! (k, x.1, x.2) = None) g l Hl)].
  - intros s [H1 H2]. split; [split; [done|]|]; intros; apply H2; set_solver.
  - intros [f i] l' Hx s (Hc & Hn & Hr). destruct (Hg (f, i) s) as [->|[n ->]]; [done|]. split; [by apply clear_temp|].
    intros y Hy. simpl. rewrite lookup_insert_ne; [by apply Hr|]. intros [= H1 H2]. apply Hx. destruct y. simpl in *. by subst.
Qed.
Lemma clear_load_temps k ks : k ∉ ks -> triple (clear_temps (k :: ks)) (load_temps k) (fun _ => clear_temps ks).
Proof.
  intros Hk. unfold load_temps. apply triple_read. intros d. eapply triple_pre; [|apply clear_temps_head; [done|apply NoDup_names_of|]].
  - by intros s [].
  - intros x s. destruct (file_at d (k, x.1, x.2)) as [[i n]|]; [right; by eexists|by left].
Qed.
Lemma clear_load_text_temps k ks : k ∉ ks -> triple (clear_temps (k :: ks)) (load_text_temps k) (fun _ => clear_temps ks).
Proof.
  intros Hk. unfold load_text_temps. apply triple_read. intros d. eapply triple_pre; [|apply clear_temps_head; [done|apply NoDup_texts_of|]].
  - by intros s [].
  - intros x s. destruct (texts d !! (k, x.1, x.2)) as [b|]; [right; by eexists|by left].
Qed.

(** *** Entries *)

Definition no_entries (s : cache) := (blocks s, parts s).
Instance no_entries_blind : Blind no_entries.
Proof. by split. Qed.
Lemma rest_ensureFile {X} (f : cache -> X) {B : Blind f} fh k :
  (forall s g, f (s <| files ::= g |>) = f s) -> fixes f (ensureFile fh k).
Proof.
  intros Hf. unfold ensureFile. apply fix_read. intros s. unfold id. destruct (files s !! fh); [done|].
  apply (fix_bind f); [apply fix_new_ptr; exact B|intros a; apply fix_mod; intros t; apply Hf].
Qed.
Lemma rest_load_key {X} (f : cache -> X) {B : Blind f} fh :
  (forall s g, f (s <| files ::= g |>) = f s) -> fixes f (load_key fh).
Proof.
  intros Hf. unfold load_key. apply fix_bind; [apply fix_os_read_text; exact B|]. intros [b|e]; [|done].
  destruct (parseKey b); [|done]. case_bool_decide; [|done]. apply fix_then; [by apply rest_ensureFile|]. apply fix_mod; intros s; apply Hf.
Qed.
Lemma entries_load_temps k : fixes no_entries (load_temps k).
Proof. unfold load_temps. apply fix_read. intros s. apply fix_foreach. intros x. destruct (file_at _ _) as [[??]|]; [by apply fix_mod|done]. Qed.
Lemma entries_load_text_temps k : fixes no_entries (load_text_temps k).
Proof. unfold load_text_temps. apply fix_read. intros s. apply fix_foreach. intros x. destruct (texts _ !! _); [by apply fix_mod|done]. Qed.

Definition before_blocks (s : cache) : Prop := level s /\ parts s = ∅.
Lemma level_ensureFile fh k s : level s -> level (ensureFile fh k s).2.
Proof. unfold level. by rewrite (acct_ensureFile fh k s). Qed.
Lemma keep_level {A} (m : CM A) : fixes defect m -> keeps level m.
Proof. intros H s Hs. unfold level. by rewrite (H s). Qed.
Lemma opens_none m : bm_f m = None -> opens m = 0.
Proof. unfold opens. by intros ->. Qed.
(** Entering a block that is not there. *)
Lemma level_add_block id m s n :
  blocks s !! id = None -> opens m = 0 -> bm_size m = n -> level s -> level (s <| blocks ::= insert id m |> <| bytes ::= Z.add n |>).
Proof. intros Hn Ho <- H. unfold level. rewrite <- H. vec; rewrite msum_insert by done; lia. Qed.
Lemma blocks_add_block (id : blockID) (m : blockMeta) (s : cache) (l : list blockID) (n : Z) :
  id ∉ l -> (forall y, y ∈ l -> blocks s !! y = None) ->
  forall y, y ∈ l -> blocks (s <| blocks ::= insert id m |> <| bytes ::= Z.add n |>) !! y = None.
Proof. intros Hid H y Hy. simpl. rewrite lookup_insert_ne; [by apply H|]. by intros ->. Qed.

Definition entering (id : blockID) (l : list blockID) (s : cache) : Prop :=
  before_blocks s /\ blocks s !! id = None /\ forall y, y ∈ l -> blocks s !! y = None.
Definition entered (l : list blockID) (s : cache) : Prop := before_blocks s /\ forall y, y ∈ l -> blocks s !! y = None.
Lemma keep_entering {A} id l (m : CM A) : fixes defect m -> fixes no_entries m -> keeps (entering id l) m.
Proof.
  intros H1 H2 s ([Hl Hp] & Hi & Hy). specialize (H1 s). specialize (H2 s). injection H2 as Hb Hq.
  split; [split; [unfold level; by rewrite H1|by rewrite Hq]|]. rewrite Hb. done.
Qed.
Lemma entering_entered id l s : entering id l s -> entered l s.
Proof. by intros (H & _ & Hy). Qed.
Lemma load_block_ok id l : id ∉ l -> triple (entering id l) (load_block id) (fun _ => entered l).
Proof.
  intros Hid. unfold load_block. eapply triple_bind; [apply (keep_entering id l); done|]. intros d. cbn beta.
  destruct (file_at d _) as [[i n]|]; [|apply triple_ret, entering_entered].
  eapply triple_then; [apply (keep_entering id l); [apply acct_ensureFile|by apply rest_ensureFile]|].
  eapply triple_bind; [apply (keep_entering id l); [apply fix_os_read_text|apply fix_os_read_text]; apply _|]. intros raw. cbn beta.
  eapply triple_bind; [apply (keep_entering id l); [apply fix_new_ptr|apply fix_new_ptr]; apply _|]. intros ptr. cbn beta.
  assert (Hrm : triple (entering id l) (removePartialBlock id) (fun _ => entered l)).
  { eapply triple_post; [apply (keep_entering id l); apply fix_removePartialBlock; apply _|]. intros a s. apply entering_entered. }
  assert (Hin : forall m sz, opens m = 0 -> bm_size m = sz ->
    triple (entering id l) (cmod (fun s => s <| blocks ::= insert id m |> <| bytes ::= Z.add sz |>)) (fun _ => entered l)).
  { intros m sz Ho Hsz. apply triple_mod. intros s ([Hl Hp] & Hi & Hy).
    split; [split; [by apply level_add_block|done]|]. by apply blocks_add_block. }
  destruct raw as [raw|e].
  - destruct (decodePartial raw) as [pt|]; [|done]. destruct (negb _); [done|].
    apply triple_mod. intros s Hs. refine (Hin ((newMeta ptr (p_have pt * p_sub pt) (n_mtime n)) <| bm_partial := Some pt |>
      <| sidecarOn := true |> <| sidecarHave := p_have pt |> <| sidecarAt := now s |>) (p_have pt * p_sub pt) _ _ s Hs); [by apply opens_none|done].
  - eapply triple_then; [by apply Hin; [apply opens_none|]|]. intros s Hs. exact Hs.
Qed.
Lemma load_blocks_ok l : NoDup l ->
  triple (fun s => before_blocks s /\ blocks s = ∅) (cforeach l load_block) (fun _ => before_blocks).
Proof.
  intros Hl. eapply triple_pre; [|apply (each_new before_blocks (fun id s => blocks s !! id = None) load_block l Hl)].
  - intros s [H Hb]. split; [done|]. intros x _. by rewrite Hb, lookup_empty.
  - intros id l' Hid. apply load_block_ok, Hid.
Qed.

(** *** Complete and sparse files *)

Lemma parts_detachWhole fh s : parts (detachWhole fh s) = parts s.
Proof.
  unfold detachWhole. destruct (files s !! fh) as [fs|]; [|done]. destruct (whole fs) as [i|]; [|done].
  unfold releaseObject. destruct (objects _ !! i); [|done]. by destruct (_ && _).
Qed.
Lemma parts_attachWhole fh inf s : parts (attachWhole fh inf s) = parts s.
Proof.
  unfold attachWhole. set (s1 := match files s !! fh with Some fs => _ | None => s end).
  assert (H1 : parts s1 = parts s).
  { unfold s1. destruct (files s !! fh) as [fs|]; [|done]. destruct (whole fs); [|done].
    destruct (bool_decide _); [done|apply parts_detachWhole]. }
  rewrite <- H1. by destruct (objects s1 !! inf_id inf).
Qed.
Instance parts_blind : Blind parts.
Proof. by split. Qed.
Lemma acct_load_hydrated fh : fixes defect (load_hydrated fh).
Proof.
  unfold load_hydrated. apply fix_read. intros s. destruct (file_at _ _) as [[i n]|]; [|done].
  rewrite (fix_then defect); [done|apply acct_ensureFile|apply fix_mod; intros t; apply defect_attachWhole].
Qed.
Lemma parts_load_hydrated fh : fixes parts (load_hydrated fh).
Proof.
  unfold load_hydrated. apply fix_read. intros s. destruct (file_at _ _) as [[i n]|]; [|done].
  rewrite (fix_then parts); [done|by apply rest_ensureFile|apply fix_mod; intros t; apply parts_attachWhole].
Qed.
Lemma link_attach fh inf : triple (has_file fh) (cmod (attachWhole fh inf)) (fun _ => linked).
Proof. intros s [Hl Hf]. by apply linked_attachWhole. Qed.
Lemma link_load_hydrated fh : keeps linked (load_hydrated fh).
Proof.
  unfold load_hydrated. apply keeps_bind; [by intros s|]. intros d. destruct (file_at _ _) as [[i n]|]; [|by apply triple_ret].
  eapply triple_then; [apply ensureFile_has|apply link_attach].
Qed.

Definition placing (fh : string) (l : list string) (s : cache) : Prop :=
  level s /\ parts s !! fh = None /\ forall y, y ∈ l -> parts s !! y = None.
Definition placed (l : list string) (s : cache) : Prop := level s /\ forall y, y ∈ l -> parts s !! y = None.
Lemma keep_placing {A} fh l (m : CM A) : fixes defect m -> fixes parts m -> keeps (placing fh l) m.
Proof. intros H1 H2 s (Hl & Hi & Hy). specialize (H1 s). specialize (H2 s). unfold placing, level. by rewrite H1, H2. Qed.
Lemma keep_placed {A} l (m : CM A) : fixes defect m -> fixes parts m -> keeps (placed l) m.
Proof. intros H1 H2 s (Hl & Hy). specialize (H1 s). specialize (H2 s). unfold placed, level. by rewrite H1, H2. Qed.
Lemma placing_placed fh l s : placing fh l s -> placed l s.
Proof. by intros (H & _ & Hy). Qed.
Lemma adoptPart_ok fh l : fh ∉ l -> triple (placing fh l) (adoptPart fh) (fun _ => placed l).
Proof.
  intros Hfh. unfold adoptPart. apply triple_read. intros a. eapply triple_pre; [by intros s [H _]; apply H|].
  assert (Hno : triple (placing fh l) (cret false) (fun _ => placed l)) by (apply triple_ret, placing_placed).
  destruct (file_at _ _) as [[i n]|]; [|done]. destruct (is_hydrated fh a); [done|].
  eapply triple_bind; [apply (keep_placing fh l); apply fix_os_read_text; apply _|]. intros [raw|e]; [|done].
  destruct (decodePartBitmap raw BlockSize) as [[bits size]|]; [|done]. destruct (_ || _); [done|].
  eapply triple_then; [apply (keep_placing fh l); [apply acct_ensureFile|by apply rest_ensureFile]|].
  eapply triple_then; [apply (keep_placing fh l); by apply fix_mod|].
  destruct (p_full bits).
  - eapply triple_bind; [apply (keep_placing fh l); apply fix_os_rename; apply _|]. intros [u|e]; [|done].
    eapply triple_then; [apply (keep_placing fh l); apply fix_os_remove; apply _|].
    eapply triple_bind; [apply (keep_placing fh l); apply fix_os_stat; apply _|]. intros [inf|e]; [|done].
    eapply triple_then; [|by apply triple_ret; intros s H; apply H].
    eapply triple_post; [apply (keep_placing fh l); apply fix_mod; intros t; [apply defect_attachWhole|apply parts_attachWhole]|].
    intros u' s. apply placing_placed.
  - eapply triple_bind; [apply (keep_placing fh l); apply fix_new_ptr; apply _|]. intros ptr.
    eapply triple_then; [apply (keep_placing fh l); by apply fix_mod|].
    eapply triple_then; [|by apply triple_ret; intros s H; apply H].
    apply triple_mod. intros s (Hl & Hi & Hy). split.
    + unfold level. rewrite <- Hl. vec. rewrite msum_insert by done. simpl. lia.
    + intros y Hyl. simpl. rewrite lookup_insert_ne; [by apply Hy|]. by intros ->.
Qed.
Lemma load_part_ok fh l : fh ∉ l -> triple (placing fh l) (load_part fh) (fun _ => placed l).
Proof.
  intros Hfh. unfold load_part. eapply triple_bind; [by apply adoptPart_ok|]. intros [|]; [by apply triple_ret|].
  do 2 (eapply triple_then; [apply (keep_placed l); apply fix_os_remove; apply _|]). by apply triple_ret.
Qed.
Instance names_blind : Blind (fun s => (files s, objects s)).
Proof. by split. Qed.
Lemma link_adoptPart fh : keeps linked (adoptPart fh).
Proof.
  unfold adoptPart. apply keeps_bind; [by intros s|]. intros a.
  destruct (file_at _ _) as [[i n]|]; [|by apply triple_ret]. destruct (is_hydrated fh a); [by apply triple_ret|].
  apply keeps_bind; [keeping|]. intros [raw|e]; [|by apply triple_ret].
  destruct (decodePartBitmap raw BlockSize) as [[bits size]|]; [|by apply triple_ret]. destruct (_ || _); [by apply triple_ret|].
  eapply triple_then; [apply ensureFile_has|]. apply triple_keep_then; [by apply has_file_upd|].
  destruct (p_full bits).
  - apply triple_keep; [apply keeps_has_file; fixing|]. intros [u|e]; [|by apply has_file_linked, triple_ret].
    apply triple_keep_then; [apply keeps_has_file; fixing|].
    apply triple_keep; [apply keeps_has_file; fixing|]. intros [inf|e]; [|by apply has_file_linked, triple_ret].
    eapply triple_then; [apply link_attach|by apply triple_ret].
  - apply has_file_linked. keeping.
Qed.

(** *** The whole walk *)

Lemma link_load_key fh : keeps linked (load_key fh).
Proof. unfold load_key, load_file. keeping. apply keeps_linked, fix_ensureFile. Qed.
Lemma link_load_block id : keeps linked (load_block id).
Proof. unfold load_block, load_file, removePartialBlock. keeping; apply keeps_linked, fix_ensureFile. Qed.
Lemma link_load_part fh : keeps linked (load_part fh).
Proof. unfold load_part. apply keeps_bind; [apply link_adoptPart|]. intros [|]; keeping. Qed.
Lemma link_reload : keeps linked reload.
Proof.
  unfold reload, load_temps, load_text_temps, load_temp, drop_bitmap. keeping.
  - apply link_load_key.
  - apply link_load_block.
  - apply link_load_hydrated.
  - apply link_load_part.
Qed.
Lemma fix_triple {A X} (P : cache -> Prop) (f : cache -> X) (m : CM A) (Q : cache -> Prop) :
  fixes f m -> triple P m (fun _ => Q) -> forall x, triple (fun s => P s /\ f s = x) m (fun _ s => Q s /\ f s = x).
Proof. intros H1 H2 x s [Hs <-]. split; [by apply H2|apply H1]. Qed.
Definition walk_kinds : list pkind := [KBlockTmp; KScratch; KSidecarTmp; KKeyTmp].
Lemma level_reload : triple (fun s => clear_temps walk_kinds s /\ no_entries s = (∅, ∅)) reload (fun _ => level).
Proof.
  unfold reload. apply triple_read. intros d. eapply triple_pre; [intros s [H _]; exact H|].
  eapply triple_then; [apply fix_triple; [apply entries_load_temps|apply clear_load_temps; set_solver]|].
  eapply triple_then; [apply fix_triple; [apply entries_load_temps|apply clear_load_temps; set_solver]|].
  eapply triple_then; [apply fix_triple; [apply entries_load_text_temps|apply clear_load_text_temps; set_solver]|].
  eapply triple_then; [apply fix_triple; [apply entries_load_text_temps|apply clear_load_text_temps; set_solver]|].
  eapply triple_then.
  { apply fix_triple; [apply fix_foreach; intros x; by apply rest_load_key|].
    eapply triple_pre; [|apply (keep_level (cforeach (whole_texts KKey d) load_key))]; [by intros s [H _]|].
    apply fix_foreach. intros x. by apply rest_load_key. }
  eapply triple_then; [eapply triple_pre; [|apply load_blocks_ok, NoDup_names_of]|].
  { intros s [H [= Hb Hp]]. by split. }
  eapply triple_then; [eapply triple_pre; [|apply (fix_triple level parts _ level)]|].
  - intros s H. exact H.
  - apply fix_foreach. intros x. apply parts_load_hydrated.
  - apply keep_level, fix_foreach. intros x. apply acct_load_hydrated.
  - eapply triple_then; [eapply triple_pre; [|apply (each_new level (fun fh s => parts s !! fh = None) load_part _ (NoDup_whole_names _ _))]|].
    + intros s [H1 H2]. split; [done|]. intros x _. by rewrite H2, lookup_empty.
    + intros fh l Hfh. by apply load_part_ok.
    + apply keep_level. unfold drop_bitmap. fixing.
Qed.
Lemma balanced_boot d t : balanced (boot d t).
Proof.
  split.
  - apply (level_reload (emptyCache d t)). split; [|done]. split; [done|]. intros k f i _. done.
  - apply link_reload. intros fh i. unfold links. simpl. rewrite lookup_omap, lookup_empty. simpl. split; [done|].
    intros (r & Hr & _). by rewrite lookup_fmap, lookup_empty in Hr.
Qed.
End Boot.
