(* ===== verification/CacheSizes.v ===== *)
(** * Sizes in the read cache

    No entry has a negative size, and an entry's size covers what it holds in
    memory.  Every operation keeps this; with the accounts exact it makes
    eviction lower the totals that the caps bound. *)
From S2P Require Import Prelude CacheBits CacheState CacheRoom CacheWhole CacheBlocks CacheSub CacheBehind CacheFrame CacheLinks CacheCalls.
Open Scope Z_scope.

Definition entry_ok (m : blockMeta) : Prop := mem_bytes m <= bm_size m.
Definition stores (s : cache) := (blocks s, objects s, parts s, orphanTemps s).
Definition sized (s : cache) : Prop :=
  map_Forall (fun _ => entry_ok) (blocks s) /\ map_Forall (fun _ o => 0 <= o_size o) (objects s)
  /\ map_Forall (fun _ p => 0 <= wp_bytes p) (parts s) /\ map_Forall (fun _ n => 0 <= n) (orphanTemps s).
#[export] Instance stores_blind : Blind stores.
Proof. by split. Qed.

Lemma sized_stores s s' : stores s' = stores s -> sized s -> sized s'.
Proof. intros [= H1 H2 H3 H4]. unfold sized. by rewrite H1, H2, H3, H4. Qed.
Lemma keeps_sized {A} (m : CM A) : fixes stores m -> keeps sized m.
Proof. intros H s Hs. eapply sized_stores; [apply H|done]. Qed.
Lemma mem_nonneg m : 0 <= mem_bytes m.
Proof. unfold mem_bytes. destruct (mem m); unfold zlen; lia. Qed.
Lemma entry_nonneg m : entry_ok m -> 0 <= bm_size m.
Proof. unfold entry_ok. pose proof (mem_nonneg m). lia. Qed.

Section Parts.
Context {K A : Type} `{Countable K} (P : K -> A -> Prop).
Lemma forall_alter (m : gmap K A) i g : (forall j x, P j x -> P j (g x)) -> map_Forall P m -> map_Forall P (alter g i m).
Proof.
  intros Hg Hm j x. destruct (decide (i = j)) as [<-|Hj]; [|rewrite lookup_alter_ne by done; apply Hm].
  rewrite lookup_alter_eq. destruct (m !! i) as [y|] eqn:Hi; [|done]. intros [= <-]. by apply Hg, Hm.
Qed.
Lemma forall_delete (m : gmap K A) i : map_Forall P m -> map_Forall P (delete i m).
Proof. apply map_Forall_delete. Qed.
Lemma forall_insert (m : gmap K A) i x : P i x -> map_Forall P m -> map_Forall P (<[i:=x]> m).
Proof. by apply map_Forall_insert_2. Qed.
End Parts.

Lemma sized_block id g s : (forall m, entry_ok m -> entry_ok (g m)) -> sized s -> sized (upd_block id g s).
Proof. intros Hg (H1 & H2). split; [|done]. by apply forall_alter. Qed.
Lemma sized_object i g s : (forall o, 0 <= o_size o -> 0 <= o_size (g o)) -> sized s -> sized (upd_object i g s).
Proof. intros Hg (H1 & H2 & H3). split_and!; [done| |by apply H3..]. by apply forall_alter. Qed.
Lemma sized_part i g s : (forall p, 0 <= wp_bytes p -> 0 <= wp_bytes (g p)) -> sized s -> sized (upd_part i g s).
Proof. intros Hg (H1 & H2 & H3 & H4). split_and!; [done..| |done]. by apply forall_alter. Qed.
Lemma sized_delete_block id s s' :
  stores s' = (delete id (blocks s), objects s, parts s, orphanTemps s) -> sized s -> sized s'.
Proof. intros [= E1 E2 E3 E4] (H1 & H2). unfold sized. rewrite E1, E2, E3, E4. split; [by apply forall_delete|done]. Qed.
Lemma sized_uncharge id s : sized s -> sized (uncharge id s).
Proof.
  apply sized_delete_block with (id := id). unfold stores. destruct (uncharge_rest id s) as (_ & -> & -> & _ & -> & _).
  by rewrite blocks_uncharge.
Qed.
Lemma sized_insert_block id m s n w :
  entry_ok m -> sized s -> sized (s <| blocks ::= insert id m |> <| bytes ::= n |> <| wb_pending ::= w |>).
Proof. intros Hm (H1 & H2). split; [|done]. by apply forall_insert. Qed.
Lemma sized_replace_block id m s : entry_ok m -> sized s -> sized (replace_block id m s).
Proof. intros Hm H. apply (sized_insert_block id m (uncharge id s)); [done|]. by apply sized_uncharge. Qed.
Lemma sized_releaseObject i s : sized s -> sized (releaseObject i s).
Proof.
  intros H. unfold releaseObject. destruct (objects s !! i) as [o|]; [|done]. destruct (_ && _); [|done].
  destruct H as (H1 & H2 & H3). split_and!; [done| |by apply H3..]. by apply forall_delete.
Qed.
Lemma sized_detachWhole fh s : sized s -> sized (detachWhole fh s).
Proof.
  intros H. unfold detachWhole. destruct (files s !! fh) as [f|]; [|done]. destruct (whole f) as [i|]; [|done].
  apply sized_releaseObject. refine (sized_object i (fun o => o <| refs ::= fun r => r ∖ {[fh]} |>) s _ H). done.
Qed.
Lemma sized_attachWhole fh inf s : 0 <= inf_size inf -> sized s -> sized (attachWhole fh inf s).
Proof.
  intros Hn H. unfold attachWhole. set (s1 := match files s !! fh with Some fs => _ | None => s end).
  assert (H1 : sized s1).
  { unfold s1. destruct (files s !! fh) as [f|]; [|done]. destruct (whole f); [|done].
    destruct (bool_decide _); [done|by apply sized_detachWhole]. }
  set (s2 := match objects s1 !! inf_id inf with Some _ => s1 | None => _ end).
  assert (H2 : sized s2).
  { unfold s2. destruct (objects s1 !! inf_id inf); [done|]. destruct H1 as (? & H2 & ?).
    split_and!; [done|by apply forall_insert|tauto..]. }
  refine (sized_object (inf_id inf) (fun o => o <| refs ::= union {[fh]} |>) s2 _ H2). done.
Qed.
Lemma sized_touchWhole fh s : sized s -> sized (touchWhole fh s).
Proof.
  intros H. unfold touchWhole. destruct (files s !! fh) as [f|]; [|done]. destruct (whole f); [|done]. by apply sized_object.
Qed.
Lemma sized_release_mem id s : sized s -> sized (release_mem id s).
Proof.
  intros H. unfold release_mem. destruct (blocks s !! id) as [m|]; [|done].
  apply sized_block; [|exact H]. intros m' Hm'. exact (entry_nonneg m' Hm').
Qed.

Create HintDb sizes.
Ltac size_mod :=
  let s := fresh "s" in let H := fresh "H" in intros s H;
  first [exact H | apply sized_uncharge; exact H | apply sized_detachWhole; exact H | apply sized_touchWhole; exact H
        | apply sized_release_mem; exact H | apply sized_block; [intros ? Hm; exact Hm|exact H]
        | apply sized_object; [intros ? Ho; exact Ho|exact H] | apply sized_part; [intros ? Hp; exact Hp|exact H]].
Ltac size_step :=
  match goal with
  | |- keeps _ (match ?x with _ => _ end) => destruct x
  | |- keeps _ (cret _) => by apply triple_ret
  | |- keeps _ (cget _) => by intros ?
  | |- _ => solve [eauto 2 with sizes]
  | |- keeps _ (cbind _ _) => apply keeps_bind; [|intros ?]
  | |- keeps _ (cthen _ _) => apply keeps_then
  | |- keeps _ (cforeach _ _) => apply keeps_foreach; intros ?
  | |- keeps _ (cmod _) => solve [size_mod]
  end.
Ltac sizing := repeat size_step.
#[export] Hint Extern 2 (keeps sized _) => (apply keeps_sized; solve [eauto 2 with fixes]) : sizes.

(** What New demands of the options. *)
Class GoodOptions {Cfg : Options} : Prop := block_positive : 0 < BlockSize.

Section Ops.
Context {E : CacheEnv} {Cfg : Options}.
Notation KS := (keeps sized).

(** What stat(2) returns has a size. *)
Lemma keeps_stat {A} p (k : res cerr info -> CM A) :
  (forall inf, 0 <= inf_size inf -> KS (k (Ok inf))) -> (forall e, KS (k (Err e))) -> KS (cbind (os_stat p) k).
Proof.
  intros H1 H2. apply triple_bind with (Q := fun r s => sized s /\ match r with Ok inf => 0 <= inf_size inf | _ => True end).
  - intros s H. split; [by apply keeps_sized; [apply fix_os_stat; apply _|]|].
    unfold os_stat, cbind, tick, cget. destruct (io_fault _); [done|]. simpl. destruct (file_at _ p) as [[i n]|]; [|done].
    simpl. unfold zlen. lia.
  - intros [inf|e] s [H Hn]; [by apply H1|by apply H2].
Qed.

Lemma size_forgetPart fh p r : KS (forgetPart fh p r).
Proof.
  unfold forgetPart. sizing. intros s H. cbn [cmod snd].
  destruct (parts s !! fh) as [q|]; [|exact H]. destruct (bool_decide _); [|exact H].
  destruct H as (H1 & H2 & H3 & H4). split_and!; [done|done| |done]. by apply forall_delete.
Qed.
Hint Resolve size_forgetPart : sizes.
Lemma size_removeFileBlocks fh : KS (removeFileBlocks fh).
Proof. unfold removeFileBlocks. sizing. Qed.
Lemma size_discardTemp p : KS (discardTemp p).
Proof.
  unfold discardTemp. apply keeps_bind; [sizing|]. intros r. destruct (negb _); [sizing|].
  apply keeps_stat; [|sizing]. intros inf Hn s (H1 & H2 & H3 & H4). split_and!; [done..|]. by apply forall_insert.
Qed.
Lemma size_cleanTemp_loop l : KS (cleanTemp_loop l).
Proof.
  induction l; simpl; sizing. intros s (H1 & H2 & H3 & H4). split_and!; [done..|]. by apply forall_delete.
Qed.
Hint Resolve size_removeFileBlocks size_discardTemp size_cleanTemp_loop : sizes.
Lemma size_cleanTemp : KS cleanTemp.
Proof. unfold cleanTemp. sizing. Qed.
Lemma stores_ensureFile fh k : fixes stores (ensureFile fh k).
Proof. unfold ensureFile. fixing. Qed.
Lemma size_ensureFile fh k : KS (ensureFile fh k).
Proof. apply keeps_sized, stores_ensureFile. Qed.
Hint Resolve size_cleanTemp size_ensureFile : sizes.
Lemma size_drop_names l r : KS (drop_names l r).
Proof. revert r. induction l; intros r; simpl; sizing. Qed.
Hint Resolve size_drop_names : sizes.
Lemma size_evictObject i : KS (evictObject i).
Proof. unfold evictObject. sizing. Qed.
Lemma size_evictPart fh : KS (evictPart fh).
Proof. unfold evictPart. sizing. Qed.
Lemma size_evictBlock id : KS (evictBlock id).
Proof. unfold evictBlock. sizing. Qed.
Hint Resolve size_evictObject size_evictPart size_evictBlock : sizes.
Lemma size_evictExpired x : KS (evictExpired x).
Proof. unfold evictExpired. sizing. Qed.
Lemma size_evictOne x : KS (evictOne x).
Proof. unfold evictOne. sizing. Qed.
Hint Resolve size_evictExpired size_evictOne : sizes.
Lemma size_cap_loop fuel n e x : KS (cap_loop fuel n e x).
Proof. induction fuel; simpl; sizing. Qed.
Lemma size_free_loop fuel dir n x : KS (free_loop fuel dir n x).
Proof. induction fuel; simpl; sizing. Qed.
Lemma size_reserve_loop fuel dir n : KS (reserve_loop fuel dir n).
Proof. induction fuel; simpl; sizing. Qed.
Hint Resolve size_cap_loop size_free_loop size_reserve_loop : sizes.
Lemma size_makeRoomFor a b c x : KS (makeRoomFor a b c x).
Proof. unfold makeRoomFor. sizing. intros s H. by destruct a1. Qed.
Hint Resolve size_makeRoomFor : sizes.
Lemma size_blockRoom id o n z p : KS (blockRoom id o n z p).
Proof. unfold blockRoom. sizing. Qed.
Lemma size_ReserveDisk dir n : KS (ReserveDisk dir n).
Proof. unfold ReserveDisk. sizing. Qed.
Lemma size_releaseDisk n : KS (releaseDisk n).
Proof. unfold releaseDisk. sizing. Qed.
Lemma size_cleanAll fuel : KS (cleanAll fuel).
Proof. induction fuel; simpl; sizing. Qed.
Hint Resolve size_cleanAll : sizes.
Lemma size_GC : KS GC.
Proof. unfold GC, makeRoom. sizing. Qed.
Hint Resolve size_blockRoom size_ReserveDisk size_releaseDisk size_GC : sizes.

(** *** Sparse and complete files *)

Lemma size_partFile fh ptr : KS (partFile fh ptr).
Proof. unfold partFile. sizing. Qed.
Lemma size_sparse_file fh n b : KS (sparse_file fh n b).
Proof. unfold sparse_file. sizing. Qed.
Lemma size_mount_part fh k p : 0 <= wp_bytes p -> KS (cmod (mount_part fh k p)).
Proof. intros Hp s (H1 & H2 & H3 & H4). split_and!; [done..| |done]. by apply forall_insert. Qed.
Hint Resolve size_partFile size_sparse_file size_mount_part : sizes.
Lemma size_ensurePart k n : KS (ensurePart k n).
Proof. unfold ensurePart. sizing. by apply size_mount_part. Qed.
Lemma size_notePartBlock fh ptr k idx n : 0 <= n -> KS (notePartBlock fh ptr k idx n).
Proof.
  intros Hn. unfold notePartBlock. sizing. intros s H.
  refine (sized_part fh (fun p => p <| wp_bits ::= p_set idx |> <| wp_bytes ::= Z.add n |>) s _ H). intros q Hq. simpl. lia.
Qed.
Lemma size_persistPart fh ptr c : KS (persistPart fh ptr c).
Proof. unfold persistPart. sizing. Qed.
Hint Resolve size_ensurePart size_notePartBlock size_persistPart : sizes.

Lemma info_nonneg i n : 0 <= inf_size (info_of i n).
Proof. unfold info_of, zlen. simpl. lia. Qed.
Hint Resolve info_nonneg : sizes.
Lemma size_attach fh inf : 0 <= inf_size inf -> KS (cmod (attachWhole fh inf)).
Proof. intros Hn s. by apply sized_attachWhole. Qed.
(** Publication of what stat(2) measured. *)
Lemma keeps_known {A B} (P : A -> Prop) (g : cache -> A) (k : A -> CM B) :
  (forall s, P (g s)) -> (forall a, P a -> KS (k a)) -> KS (cbind (cget g) k).
Proof. intros Hg Hk s Hs. by apply (Hk (g s)). Qed.
Lemma size_finishPart k fh ptr : KS (finishPart k fh ptr).
Proof.
  unfold finishPart. apply keeps_bind; [sizing|]. intros [i|[]]; try by sizing.
  apply keeps_bind; [sizing|]. intros [u|e]; [|sizing]. apply keeps_bind; [sizing|]. intros [v|e]; [|sizing].
  apply (keeps_known (fun inf => 0 <= inf_size inf)); [intros s; apply info_nonneg|]. intros inf Hn.
  sizing. by apply size_attach.
Qed.
Hint Resolve size_finishPart : sizes.
Lemma size_settlePart k fh ptr idx n : 0 <= n -> KS (settlePart k fh ptr idx n).
Proof. intros Hn. unfold settlePart. apply keeps_bind; [by apply size_notePartBlock|]. intros r. sizing. Qed.
Lemma size_holdFile k n : KS (holdFile k n).
Proof. unfold holdFile. sizing. Qed.
Lemma size_partRoom fh n : KS (partRoom fh n).
Proof. unfold partRoom. sizing. Qed.
Hint Resolve size_settlePart size_holdFile size_partRoom : sizes.
Lemma size_putPart k idx d n : KS (putPart k idx d n).
Proof.
  unfold putPart, releaseFile. destruct (Z.leb_spec (blockLen idx n) 0); [sizing|]. sizing. apply size_settlePart. lia.
Qed.
Lemma size_adoptBlockIntoPart k idx : KS (adoptBlockIntoPart k idx).
Proof.
  unfold adoptBlockIntoPart. apply keeps_bind; [sizing|]. intros s. destruct (files s !! _) as [f|]; [|sizing].
  destruct (blocks s !! _) as [m|]; [|sizing]. destruct (_ || _); [sizing|].
  destruct (Z.leb_spec (blockLen idx (fs_size f)) 0); [sizing|]. sizing. apply size_settlePart. lia.
Qed.
Lemma size_drop_flushed id : KS (drop_flushed id).
Proof. unfold drop_flushed. sizing. Qed.
Lemma size_release_mem id : KS (cmod (release_mem id)).
Proof. intros s. apply sized_release_mem. Qed.
Hint Resolve size_putPart size_adoptBlockIntoPart size_drop_flushed size_release_mem : sizes.
Lemma size_flushMemToPart id p d : KS (flushMemToPart id p d).
Proof.
  unfold flushMemToPart. apply keeps_bind; [sizing|]. intros s. destruct (files s !! _) as [f|]; [|sizing].
  destruct (blocks s !! _) as [m|]; [|sizing]. destruct (_ || _); [sizing|].
  destruct (Z.eqb_spec (zlen d) (blockLen id.2 (fs_size f))); simpl; [|sizing]. sizing.
  apply size_settlePart. unfold zlen in *. lia.
Qed.
Lemma size_closeParts : KS closeParts.
Proof. unfold closeParts, closePart. sizing. Qed.
Lemma size_OpenWhole k : KS (OpenWhole k).
Proof. unfold OpenWhole. sizing. Qed.
Lemma size_closeWhole o : KS (closeWhole o).
Proof. intros s H. apply sized_releaseObject. by apply sized_object. Qed.
Lemma size_HydratedPath k : KS (HydratedPath k).
Proof. unfold HydratedPath. sizing. Qed.
Lemma size_scheduleHydrate k : KS (scheduleHydrate k).
Proof. unfold scheduleHydrate. sizing. Qed.
Hint Resolve size_flushMemToPart size_closeParts size_OpenWhole size_closeWhole size_HydratedPath size_scheduleHydrate : sizes.
Lemma size_installTemp k t n p : KS (installTemp k t n p).
Proof. unfold installTemp. apply keeps_stat; [|sizing]. intros inf Hn. sizing. by apply size_attach. Qed.
Hint Resolve size_installTemp : sizes.
Lemma size_installBody k src n p t i : KS (installBody k src n p t i).
Proof. unfold installBody. sizing. Qed.
Hint Resolve size_installBody : sizes.
Lemma size_installWhole k src n a p : KS (installWhole k src n a p).
Proof. unfold installWhole. sizing. Qed.
Hint Resolve size_installWhole : sizes.
Lemma size_remembered k m : KS m -> KS (remembered k m).
Proof. intros H. unfold remembered. sizing. Qed.
Lemma size_unhold fh p : KS (unhold fh p).
Proof. unfold unhold. sizing. Qed.
Lemma size_reserve n : KS (reserve n).
Proof. unfold reserve. sizing. Qed.
Lemma size_unreserve n : KS (unreserve n).
Proof. unfold unreserve. sizing. Qed.
Hint Resolve size_unhold size_reserve size_unreserve : sizes.
Lemma size_begin_job k p n g : KS (begin_job k p n g).
Proof. unfold begin_job. sizing. Qed.
Lemma size_end_job j c : KS (end_job j c).
Proof. unfold end_job. sizing. Qed.
Hint Resolve size_begin_job size_end_job : sizes.
Lemma size_hydrate_begin k : KS (hydrate_begin k).
Proof. unfold hydrate_begin. sizing. Qed.
Lemma size_merge_blocks k n l acc : KS (merge_blocks k n l acc).
Proof. revert acc. induction l; intros acc; simpl; sizing. Qed.
Hint Resolve size_merge_blocks : sizes.
Lemma size_hydrate_copy j : KS (hydrate_copy j).
Proof. unfold hydrate_copy. sizing. Qed.
Lemma size_hydrate_publish j : KS (hydrate_publish j).
Proof.
  unfold hydrate_publish. apply keeps_bind; [sizing|]. intros s. destruct (j_temp j) as [tmp|]; [|sizing].
  destruct (job_stale j s); [sizing|]. apply (keeps_known (fun inf => 0 <= inf_size inf)).
  { intros t. destruct (file_at _ _) as [[i n]|]; [apply info_nonneg|done]. }
  intros inf Hn. sizing. by apply size_attach.
Qed.
Lemma size_hydrateDue : KS hydrateDue.
Proof. unfold hydrateDue. sizing. Qed.
Lemma size_putWhole_begin k n : KS (putWhole_begin k n).
Proof. unfold putWhole_begin. sizing. Qed.
Lemma size_putWhole_copy j r b : KS (putWhole_copy j r b).
Proof. unfold putWhole_copy. sizing. Qed.
Lemma size_putWhole_publish j : KS (putWhole_publish j).
Proof. unfold putWhole_publish. sizing. Qed.

(** *** Blocks *)

Lemma sized_touch_files fh idx s : sized s -> sized (touch_files fh idx s).
Proof.
  intros H. unfold touch_files. destruct (files s !! fh) as [fs|]; [|done].
  assert (H1 : sized (match whole fs with
    | Some o => upd_object o (fun o => o <| o_access := now s |> <| o_hot := true |>) s | None => s end)).
  { destruct (whole fs); [|done]. by apply sized_object. }
  destruct (fs_part fs); [|done]. destruct (parts s !! fh); [|done]. destruct (hasBlock _ _); [|done]. by apply sized_part.
Qed.
Lemma size_touch_files fh idx : KS (cmod (touch_files fh idx)).
Proof. intros s. apply sized_touch_files. Qed.
Lemma size_forgetBlock id : KS (forgetBlock id).
Proof. unfold forgetBlock. sizing. Qed.
Hint Resolve size_touch_files size_forgetBlock : sizes.
Lemma size_readBlock k idx o n z : KS (readBlock k idx o n z).
Proof. unfold readBlock. sizing. Qed.
Lemma size_locate k idx : KS (locate k idx).
Proof. unfold locate. sizing. Qed.
Lemma size_locateRange k idx o n : KS (locateRange k idx o n).
Proof. unfold locateRange. sizing. Qed.
Hint Resolve size_readBlock size_locate size_locateRange : sizes.
Lemma size_Get k idx : KS (Get k idx).
Proof. unfold Get, countHit, countMiss. sizing. Qed.
Lemma size_ReadAt k idx o n : KS (ReadAt k idx o n).
Proof. unfold ReadAt, countHit, countMiss. sizing. Qed.
Lemma size_note_file k n : KS (note_file k n).
Proof. unfold note_file. sizing. Qed.
Lemma size_inherit_pin id : KS (cmod (inherit_pin id)).
Proof.
  intros s H. unfold inherit_pin. cbn [cmod snd]. destruct (files s !! id.1); [|done]. destruct (_ || _); [|done]. by apply sized_block.
Qed.
Hint Resolve size_note_file size_inherit_pin : sizes.
Lemma zlen_nonneg {A} (l : list A) : 0 <= zlen l.
Proof. unfold zlen. lia. Qed.
Lemma size_put k idx d n : KS (put k idx d n).
Proof. unfold put. sizing. intros s H. apply sized_replace_block; [apply zlen_nonneg|done]. Qed.
Lemma sized_repin fh b s : sized s -> sized (repin fh b s).
Proof.
  intros (H1 & H2). split; [|done]. intros id m. simpl. rewrite map_lookup_imap.
  destruct (blocks s !! id) as [m'|] eqn:Hm; [|done]. simpl. intros [= <-]. specialize (H1 id m' Hm).
  by destruct (bool_decide _).
Qed.
Lemma size_Pin k b : KS (Pin k b).
Proof. unfold Pin. sizing. intros s H. by apply sized_repin. Qed.
Lemma size_SetUserPin k b : KS (SetUserPin k b).
Proof. unfold SetUserPin. sizing. intros s H. by apply sized_repin. Qed.
Lemma size_forget_blocks l : KS (forget_blocks l).
Proof. induction l; simpl; sizing. Qed.
Lemma size_forget_sparse fh : KS (forget_sparse fh).
Proof. unfold forget_sparse. sizing. Qed.
Hint Resolve size_put size_forget_blocks size_forget_sparse : sizes.
Lemma size_forgetFile k b : KS (forgetFile k b).
Proof. unfold forgetFile. sizing. Qed.
Hint Resolve size_forgetFile : sizes.

(** *** Partial blocks and write-behind *)

Lemma subSize_pos : 0 < BlockSize -> 0 < subSize.
Proof.
  intros HB. unfold subSize, DefaultSubBlockSize.
  destruct (Z.leb_spec SubBlockSize 0) as [Hs|Hs]; destruct (_ || _); lia.
Qed.
Lemma range_checks_None idx off len size :
  0 <= len -> range_checks idx off len size = None -> 0 <= off /\ 0 < len /\ off + len <= blockLen idx size.
Proof.
  intros Hl. unfold range_checks. destruct (Z.leb_spec (blockLen idx size) 0); [done|].
  destruct (Z.ltb_spec off 0); [done|]. destruct (Z.ltb_spec (blockLen idx size) (off + len)); [done|]. simpl.
  destruct (_ || _); [done|]. destruct (Z.eqb_spec len 0); [done|]. lia.
Qed.
Lemma size_gain_sub id bl i h : 0 <= sub_len subSize bl i -> KS (cmod (gain_sub id bl i h)).
Proof.
  intros Hn s H. unfold gain_sub. cbn [cmod snd]. destruct (part_of id s) as [p|]; [|done].
  destruct (p_has p i); [done|].
  assert (Hm : forall b m, entry_ok m -> entry_ok ((match h with Some b => m <| subs ::= insert i b |> | None => m end)
            <| bm_partial := b |> <| bm_size := sub_len subSize bl i + bm_size m |>)).
  { unfold entry_ok, mem_bytes. intros b m. destruct h; simpl; lia. }
  destruct h; (refine (sized_block id _ s _ H); intros m Hm'; exact (Hm _ m Hm')).
Qed.
(** The sub-blocks of a range inside the block have lengths. *)
Lemma size_gains id bl off len h :
  0 <= off -> 0 < len -> off + len <= bl -> 0 < subSize ->
  KS (cforeach (range_subs off len) (fun i => cmod (gain_sub id bl i (h i)))).
Proof.
  intros Ho Hl Hb Hs. unfold range_subs.
  assert (Hr : forall i, i ∈ seqZ (off / subSize) ((off + len - 1) / subSize - off / subSize + 1) -> 0 <= sub_len subSize bl i).
  { intros i Hi%elem_of_seqZ. unfold sub_len. destruct (Z.ltb_spec bl ((i + 1) * subSize)); [|lia].
    assert (i <= (off + len - 1) / subSize) by lia.
    pose proof (Z.mul_div_le (off + len - 1) subSize Hs). nia. }
  revert Hr. generalize (seqZ (off / subSize) ((off + len - 1) / subSize - off / subSize + 1)). intros l Hr.
  induction l as [|i l IH]; simpl; [sizing|]. apply keeps_then; [apply size_gain_sub, Hr; left|].
  apply IH. intros j Hj. apply Hr. by right.
Qed.
Context {HB : GoodOptions}.
Lemma size_gains_checked idx fsize id off (d : list Z) h : range_checks idx off (zlen d) fsize = None ->
  KS (cforeach (range_subs off (zlen d)) (fun i => cmod (gain_sub id (blockLen idx fsize) i (h i)))).
Proof.
  intros Hc. apply range_checks_None in Hc as (H1 & H2 & H3); [|apply zlen_nonneg].
  apply size_gains; try done. by apply subSize_pos.
Qed.

Lemma size_noteClaim id w : KS (cmod (noteClaim id w)).
Proof. intros s H. unfold noteClaim. cbn [cmod snd]. by destruct (blocks s !! id). Qed.
Lemma size_keep_open id f : KS (cmod (keep_open id f)).
Proof.
  intros s H. unfold keep_open. cbn [cmod snd]. destruct (blocks s !! id); [|done]. destruct (_ && _); [|done].
  by apply sized_block.
Qed.
Lemma size_promote id : KS (cmod (promote id)).
Proof. intros s H. unfold promote. cbn [cmod snd]. destruct (blocks s !! id); [|done]. by apply sized_block. Qed.
Lemma size_partialMeta id bl : KS (cmod (partialMeta id bl)).
Proof.
  intros s H. unfold partialMeta. cbn [cmod snd]. destruct (blocks s !! id); [done|].
  destruct H as (H1 & H2). split; [|done]. by apply forall_insert.
Qed.
Hint Resolve size_noteClaim size_keep_open size_promote size_partialMeta : sizes.
Lemma size_sweepClaims q : KS (sweepClaims q).
Proof. unfold sweepClaims, sweepBlock. sizing. Qed.
Lemma size_claimBlock id a b : KS (claimBlock id a b).
Proof. unfold claimBlock. sizing. Qed.
Hint Resolve size_sweepClaims size_claimBlock : sizes.
Lemma size_openPartialBlock id a b n : KS (openPartialBlock id a b n).
Proof. unfold openPartialBlock. sizing. Qed.
Lemma size_dropPartial id : KS (dropPartial id).
Proof. unfold dropPartial. sizing. Qed.
Lemma size_enqueue id : KS (enqueue id).
Proof. unfold enqueue. sizing. Qed.
Lemma size_start_queue : KS (cmod start_queue).
Proof. intros s H. unfold start_queue. cbn [cmod snd]. by destruct (wb_queue s). Qed.
Hint Resolve size_openPartialBlock size_dropPartial size_enqueue size_start_queue : sizes.
Lemma size_putRangeSync k idx o d n : KS (putRangeSync k idx o d n).
Proof.
  unfold putRangeSync. cbv zeta. destruct (range_checks idx o (zlen d) n) eqn:Hc; [sizing|].
  assert (Hg : KS (cforeach (range_subs o (zlen d)) (fun i => cmod (gain_sub (key_hash k, idx) (blockLen idx n) i None))))
    by exact (size_gains_checked idx n _ o d (fun _ => None) Hc).
  sizing.
Qed.
Lemma size_flushSubs id : KS (flushSubs id).
Proof. unfold flushSubs. sizing. Qed.
Lemma size_hold_subs id idx n o d : range_checks idx o (zlen d) n = None -> KS (hold_subs id (blockLen idx n) o d).
Proof. intros Hc. unfold hold_subs. by apply (size_gains_checked idx n id o d (fun i => Some _)). Qed.
Hint Resolve size_putRangeSync size_flushSubs : sizes.
Lemma size_PutRange k idx o d n : KS (PutRange k idx o d n).
Proof.
  unfold PutRange. cbv zeta. destruct (range_checks idx o (zlen d) n) eqn:Hc; [sizing|].
  pose proof (size_hold_subs (key_hash k, idx) idx n o d Hc) as Hg. sizing.
Qed.
Lemma size_flush_begin id : KS (flush_begin id).
Proof. unfold flush_begin. sizing. Qed.
Lemma size_flush_done f : KS (flush_done f).
Proof.
  intros s H. unfold flush_done. cbn [cmod snd].
  set (s1 := match blocks s !! fl_id f with Some m => _ | None => s end).
  assert (H1 : sized s1).
  { unfold s1. destruct (blocks s !! fl_id f); [|done]. destruct (_ =? _); [|done]. by apply sized_block. }
  by destruct (bool_decide _).
Qed.
Hint Resolve size_flush_begin size_flush_done : sizes.
Lemma size_flush_end f : KS (flush_end f).
Proof. unfold flush_end. sizing. Qed.
Lemma size_dequeue : KS dequeue.
Proof. unfold dequeue. sizing. Qed.
Hint Resolve size_flush_end : sizes.
Lemma size_PutAsync k idx d n : KS (PutAsync k idx d n).
Proof. unfold PutAsync. sizing. intros s H. apply sized_replace_block; [|done]. unfold entry_ok, mem_bytes. simpl. lia. Qed.
Lemma size_close_begin : KS close_begin.
Proof. intros s H. unfold close_begin. cbn [cmod snd]. by destruct (wb_closed s). Qed.
Lemma size_close_end : KS close_end.
Proof. unfold close_end, sweepAllClaims. sizing. Qed.
End Ops.

(** ** In every run *)

Section Run.
Context {E : CacheEnv} {Cfg : Options} {HB : GoodOptions}.
Notation KS := (keeps sized).

Lemma decodePartial_have raw p : decodePartial raw = Some p -> 0 <= p_have p.
Proof.
  unfold decodePartial. intros H.
  repeat match type of H with
  | _ ≫= _ = Some _ => apply bind_Some in H as (? & _ & H)
  | match ?x with (_, _) => _ end = _ => destruct x
  end.
  destruct (_ || _); [done|]. unfold unpackBits in H. destruct (hex_decode _); [|done]. injection H as <-.
  simpl. unfold count_bits. lia.
Qed.
Lemma blockLen_nonneg i size : 0 <= blockLen i size.
Proof. unfold blockLen, BlockRange. simpl. destruct (Z.ltb_spec (if size <? i * BlockSize + BlockSize then size - i * BlockSize else BlockSize) 0); lia. Qed.
Lemma size_load_temp p n : 0 <= n -> KS (load_temp p n).
Proof. intros Hn s (H1 & H2 & H3 & H4). split_and!; [done..|]. by apply forall_insert. Qed.
Lemma size_load_file fh : KS (load_file fh).
Proof. apply size_ensureFile. Qed.
Hint Resolve size_load_file : sizes.
Lemma size_load_block id : KS (load_block id).
Proof.
  unfold load_block, removePartialBlock. apply keeps_bind; [by intros s|]. intros d. destruct (file_at _ _) as [[i n]|]; [|sizing].
  apply keeps_then; [sizing|]. apply keeps_bind; [sizing|]. intros raw. apply keeps_bind; [sizing|]. intros ptr.
  assert (Hin : forall m sz, mem m = None -> 0 <= bm_size m ->
    KS (cmod (fun s => s <| blocks ::= insert id m |> <| bytes ::= Z.add sz |>))).
  { intros m sz Hm Hs s (H1 & H2). split; [|done]. apply forall_insert; [|done]. unfold entry_ok, mem_bytes. by rewrite Hm. }
  destruct raw as [raw|e].
  - destruct (decodePartial raw) as [pt|] eqn:Hd; [|sizing]. apply decodePartial_have in Hd.
    destruct (Z.eqb_spec (p_sub pt) subSize) as [Hs|]; simpl; [|sizing]. pose proof (subSize_pos HB).
    assert (Hz : 0 <= p_have pt * p_sub pt) by nia.
    intros s (H1 & H2). split; [|done]. apply forall_insert; [exact Hz|done].
  - apply keeps_then; [apply Hin; [done|apply zlen_nonneg]|]. sizing.
Qed.
Lemma size_load_hydrated fh : KS (load_hydrated fh).
Proof.
  unfold load_hydrated. sizing. apply size_attach, info_nonneg.
Qed.
Lemma size_adoptPart fh : KS (adoptPart fh).
Proof.
  unfold adoptPart. apply keeps_bind; [by intros s|]. intros a. destruct (file_at _ _) as [[i n]|]; [|sizing].
  destruct (is_hydrated _ _); [sizing|]. apply keeps_bind; [sizing|]. intros [raw|e]; [|sizing].
  destruct (decodePartBitmap raw BlockSize) as [[bits size]|]; [|sizing]. destruct (_ || _); [sizing|].
  apply keeps_then; [sizing|]. apply keeps_then; [sizing|]. destruct (p_full bits).
  - apply keeps_bind; [sizing|]. intros [u|e]; [|sizing]. apply keeps_then; [sizing|]. apply keeps_stat; [|sizing].
    intros inf Hn. apply keeps_then; [by apply size_attach|sizing].
  - apply keeps_bind; [sizing|]. intros ptr. apply keeps_then; [sizing|]. apply keeps_then; [|sizing].
    intros s (H1 & H2 & H3 & H4). split_and!; [done..| |done]. apply forall_insert; [|done]. simpl.
    generalize (set_bits bits). intros l. induction l as [|x l IH]; simpl; [lia|]. pose proof (blockLen_nonneg x size). lia.
Qed.
Lemma size_reload : KS reload.
Proof.
  unfold reload, load_temps, load_text_temps, load_key, load_part, drop_bitmap. sizing;
    try (apply size_load_temp; first [apply zlen_nonneg|lia]).
  - apply size_load_block.
  - apply size_load_hydrated.
  - apply size_adoptPart.
Qed.

Lemma sized_op {A} (m : CM A) s : KS m -> sized (sc s) -> sized (sc (runs_op m s)).
Proof. intros Hm. apply Hm. Qed.
Lemma sized_step c s : sized (sc s) -> sized (sc (cstep c s)).
Proof.
  intros H. destruct c; try (apply sized_op; [|done]).
  - apply size_ReadAt.
  - apply size_Get.
  - unfold Has. apply keeps_bind; [apply size_locate|sizing].
  - unfold HasRange. apply keeps_bind; [apply size_locateRange|sizing].
  - apply size_HydratedPath.
  - apply size_put.
  - apply size_PutAsync.
  - apply size_PutRange.
  - cbn [cstep]. pose proof (size_dequeue (sc s) H) as H1. destruct (dequeue (sc s)) as [[id|] c1]; [|done].
    pose proof (size_flush_begin id c1 H1) as H2. by destruct (flush_begin id c1).
  - cbn [cstep]. destruct (flights s !! n) as [f|]; [|done]. by apply (size_flush_end f).
  - apply size_sweepClaims.
  - apply size_hydrateDue.
  - cbn [cstep]. pose proof (size_hydrate_begin k (sc s) H) as H1. by destruct (hydrate_begin k (sc s)) as [[[j|]|e] c1].
  - cbn [cstep]. destruct (hydrations s !! n) as [j|]; [|done]. destruct (bool_decide _); [|done].
    pose proof (size_hydrate_copy j (sc s) H) as H1. by destruct (hydrate_copy j (sc s)) as [[[j'|]|e] c1].
  - cbn [cstep]. destruct (hydrations s !! n) as [j|]; [|done]. destruct (bool_decide _); [done|]. by apply size_hydrate_publish.
  - cbn [cstep]. pose proof (size_putWhole_begin k size (sc s) H) as H1. by destruct (putWhole_begin k size (sc s)) as [[j|e] c1].
  - cbn [cstep]. destruct (streams s !! n) as [j|]; [|done]. destruct (bool_decide _); [|done].
    pose proof (size_putWhole_copy j r failed (sc s) H) as H1. by destruct (putWhole_copy j r failed (sc s)) as [[j'|e] c1].
  - cbn [cstep]. destruct (streams s !! n) as [j|]; [|done]. destruct (bool_decide _); [done|]. by apply size_putWhole_publish.
  - apply size_remembered, size_installWhole.
  - apply size_remembered, size_installWhole.
  - apply size_remembered, size_installWhole.
  - cbn [cstep]. pose proof (size_OpenWhole k (sc s) H) as H1. by destruct (OpenWhole k (sc s)) as [[[i o]|e] c1].
  - cbn [cstep]. destruct (leases s !! n) as [o|]; [|done]. by apply size_closeWhole.
  - apply size_Pin.
  - apply size_SetUserPin.
  - unfold Forget. apply keeps_then; [apply size_forgetFile|sizing].
  - apply size_forgetFile.
  - apply size_GC.
  - cbn [cstep]. pose proof (size_ReserveDisk dir n (sc s) H) as H1. by destruct (ReserveDisk dir n (sc s)) as [[u|e] c1].
  - cbn [cstep]. destruct (reservations s !! n) as [w|]; [|done]. by apply size_releaseDisk.
  - apply size_close_begin.
  - cbn [cstep]. destruct (_ && _); [|done]. by apply size_close_end.
  - exact H.
  - cbn [cstep]. by case_bool_decide.
Qed.
Lemma sized_run l s : sized (sc s) -> sized (sc (run_calls l s)).
Proof. revert s. induction l as [|c l IH]; intros s H; [done|]. apply IH. by apply sized_step. Qed.
Lemma sized_boot d t : sized (sc (boot d t)).
Proof. apply size_reload. by split_and!. Qed.
End Run.
