(* ===== verification/CacheInodes.v ===== *)
(** * Inode numbers in the read cache

    Every name points to an inode older than the next one to be made.  Every
    operation keeps this, so a file just written is reached by no other name. *)
From S2P Require Import Prelude CacheBits CacheState CacheRoom CacheWhole CacheBlocks CacheSub CacheBehind CacheFrame CacheLinks CacheCalls.
Open Scope Z_scope.

Definition fresh_disk (d : disk) : Prop := forall p i, names d !! p = Some i -> i < next_ino d.
Definition inodes_fresh (s : cache) : Prop := fresh_disk (dsk s).

Lemma fresh_delete p f d : fresh_disk d -> fresh_disk (d <| names ::= delete p |> <| texts ::= f |>).
Proof. intros H q i. simpl. rewrite lookup_delete_Some. intros [_ Hq]. by eapply H. Qed.
Lemma fresh_fresh_node p b t d : fresh_disk d -> fresh_disk (fresh_node p b t d).
Proof.
  intros H q i. unfold fresh_node. simpl. rewrite lookup_insert_Some. intros [[_ <-]|[_ Hq]]; [lia|]. apply H in Hq. lia.
Qed.
Lemma fresh_rename src dst i d : names d !! src = Some i -> fresh_disk d ->
  fresh_disk (d <| names ::= fun m => <[dst := i]> (delete src m) |>).
Proof.
  intros Hs H q j. simpl. rewrite lookup_insert_Some, lookup_delete_Some. intros [[_ <-]|(_ & _ & Hq)]; [by eapply H|by eapply H].
Qed.
Lemma fresh_link dst i d p : names d !! p = Some i -> fresh_disk d -> fresh_disk (d <| names ::= insert dst i |>).
Proof. intros Hs H q j. simpl. rewrite lookup_insert_Some. intros [[_ <-]|(_ & Hq)]; by eapply H. Qed.

Create HintDb inodes.
Ltac ino_step :=
  match goal with
  | |- keeps _ (match ?x with _ => _ end) => destruct x eqn:?
  | |- keeps _ (cret _) => by apply triple_ret
  | |- keeps _ (cget _) => by intros ?
  | |- _ => solve [eauto 2 with inodes]
  | |- keeps _ (cbind _ _) => apply keeps_bind; [|intros ?]
  | |- keeps _ (cthen _ _) => apply keeps_then
  | |- keeps _ (cforeach _ _) => apply keeps_foreach; intros ?
  | |- keeps _ (cmod _) => solve [intros ? H; exact H]
  end.
Ltac inoing := repeat ino_step.
Lemma keeps_dsk (g : cache -> cache) : (forall s, dsk (g s) = dsk s) -> keeps inodes_fresh (cmod g).
Proof. intros H s Hs. unfold inodes_fresh. simpl. by rewrite H. Qed.

Lemma dsk_uncharge id s : dsk (uncharge id s) = dsk s.
Proof. by destruct (uncharge_rest id s) as (_ & _ & _ & -> & _). Qed.
Lemma dsk_releaseObject i s : dsk (releaseObject i s) = dsk s.
Proof. unfold releaseObject. destruct (objects s !! i); [|done]. by destruct (_ && _). Qed.
Lemma dsk_detachWhole fh s : dsk (detachWhole fh s) = dsk s.
Proof.
  unfold detachWhole. destruct (files s !! fh) as [f|]; [|done]. destruct (whole f); [|done]. by rewrite dsk_releaseObject.
Qed.
Lemma dsk_attachWhole fh inf s : dsk (attachWhole fh inf s) = dsk s.
Proof.
  unfold attachWhole. set (s1 := match files s !! fh with Some fs => _ | None => s end).
  assert (H : dsk s1 = dsk s).
  { unfold s1. destruct (files s !! fh) as [f|]; [|done]. destruct (whole f); [|done].
    destruct (bool_decide _); [done|apply dsk_detachWhole]. }
  rewrite <- H. by destruct (objects s1 !! inf_id inf).
Qed.
Lemma dsk_touchWhole fh s : dsk (touchWhole fh s) = dsk s.
Proof. unfold touchWhole. destruct (files s !! fh) as [f|]; [|done]. by destruct (whole f). Qed.
Lemma dsk_release_mem id s : dsk (release_mem id s) = dsk s.
Proof. unfold release_mem. by destruct (blocks s !! id). Qed.
#[export] Hint Extern 1 (keeps inodes_fresh (cmod (uncharge _))) => (apply keeps_dsk, dsk_uncharge) : inodes.
#[export] Hint Extern 1 (keeps inodes_fresh (cmod (detachWhole _))) => (apply keeps_dsk, dsk_detachWhole) : inodes.
#[export] Hint Extern 1 (keeps inodes_fresh (cmod (attachWhole _ _))) => (apply keeps_dsk; intros; apply dsk_attachWhole) : inodes.
#[export] Hint Extern 1 (keeps inodes_fresh (cmod (touchWhole _))) => (apply keeps_dsk, dsk_touchWhole) : inodes.
#[export] Hint Extern 1 (keeps inodes_fresh (cmod (release_mem _))) => (apply keeps_dsk, dsk_release_mem) : inodes.

Section Ops.
Context {E : CacheEnv} {Cfg : Options}.
Notation KF := (keeps inodes_fresh).

(** *** System calls *)

Lemma ino_read {A B} (g : cache -> A) (k : A -> CM B) :
  (forall s, inodes_fresh s -> inodes_fresh (k (g s) s).2) -> KF (cbind (cget g) k).
Proof. intros H s. apply H. Qed.
Lemma ino_tick : KF tick.
Proof. by intros s. Qed.
Lemma ino_new_ptr : KF new_ptr.
Proof. by intros s. Qed.
Hint Resolve ino_tick ino_new_ptr : inodes.
Lemma ino_os_remove p : KF (os_remove p).
Proof. unfold os_remove. inoing. intros s H. by apply fresh_delete. Qed.
Lemma ino_os_write p b : KF (os_write p b).
Proof. unfold os_write. inoing; intros s H; by apply fresh_fresh_node. Qed.
Lemma ino_os_write_text p b : KF (os_write_text p b).
Proof. unfold os_write_text. inoing. Qed.
Lemma ino_os_rename p q : KF (os_rename p q).
Proof.
  intros s H. unfold os_rename, cbind, tick, cget. destruct (io_fault _); [done|]. simpl.
  destruct (names (dsk s) !! p) as [i|] eqn:Hi; [|done].
  case_bool_decide; [done|]. by eapply fresh_rename.
Qed.
Lemma ino_os_rename_text p q : KF (os_rename_text p q).
Proof. unfold os_rename_text. inoing. Qed.
Lemma ino_os_link p q : KF (os_link p q).
Proof.
  intros s H. unfold os_link, cbind, tick, cget. simpl. destruct (names (dsk s) !! p) as [i|] eqn:Hi; [|done].
  destruct (names (dsk s) !! q); [done|]. destruct (link_ok _); [|done]. by eapply fresh_link.
Qed.
Lemma ino_os_open p : KF (os_open p).
Proof. unfold os_open. inoing. Qed.
Lemma ino_os_stat p : KF (os_stat p).
Proof. unfold os_stat. inoing. Qed.
Lemma ino_os_read_text p : KF (os_read_text p).
Proof. unfold os_read_text. inoing. Qed.
Lemma ino_f_read_at i o n : KF (f_read_at i o n).
Proof. unfold f_read_at. inoing. Qed.
Lemma ino_f_write_at i o b : KF (f_write_at i o b).
Proof. unfold f_write_at. inoing. Qed.
Lemma ino_f_truncate i n : KF (f_truncate i n).
Proof. unfold f_truncate. inoing. Qed.
Lemma ino_f_sync : KF f_sync.
Proof. unfold f_sync. inoing. Qed.
Lemma ino_os_create p : KF (os_create p).
Proof. unfold os_create. inoing. intros s H. by apply fresh_fresh_node. Qed.
Lemma ino_fresh_scratch : KF fresh_scratch.
Proof. unfold fresh_scratch. inoing. Qed.
Hint Resolve ino_os_remove ino_os_write ino_os_write_text ino_os_rename ino_os_rename_text ino_os_link ino_os_open ino_os_stat
  ino_os_read_text ino_f_read_at ino_f_write_at ino_f_truncate ino_f_sync ino_os_create ino_fresh_scratch : inodes.
Lemma ino_removeTarget p : KF (removeTarget p).
Proof. unfold removeTarget. inoing. Qed.
Lemma ino_rememberKey k : KF (rememberKey k).
Proof. unfold rememberKey. inoing. Qed.
Lemma ino_writeSidecar id p : KF (writeSidecar id p).
Proof. unfold writeSidecar. inoing. Qed.
Lemma ino_writePartBitmap fh n p : KF (writePartBitmap fh n p).
Proof. unfold writePartBitmap. inoing. Qed.
Lemma ino_removePartialBlock id : KF (removePartialBlock id).
Proof. unfold removePartialBlock. inoing. Qed.
Lemma ino_readInto p : KF (readInto p).
Proof. unfold readInto. inoing. Qed.
Lemma ino_write_subs i sub l : KF (write_subs i sub l).
Proof. induction l as [|[j b] l IH]; simpl; inoing. Qed.
Lemma ino_readPieces_loop i l acc : KF (readPieces_loop i l acc).
Proof. revert acc. induction l as [|p l IH]; intros acc; simpl; inoing. Qed.
Hint Resolve ino_readPieces_loop : inodes.
Lemma ino_readPieces o p l : KF (readPieces o p l).
Proof. unfold readPieces. inoing. Qed.
Hint Resolve ino_removeTarget ino_rememberKey ino_writeSidecar ino_writePartBitmap ino_removePartialBlock ino_readInto
  ino_write_subs ino_readPieces : inodes.

(** *** Operations *)

Lemma ino_forgetPart fh p r : KF (forgetPart fh p r).
Proof.
  unfold forgetPart. inoing; apply keeps_dsk; intros s; simpl; (destruct (parts s !! fh); [|done]); by destruct (bool_decide _).
Qed.
Hint Resolve ino_forgetPart : inodes.
Lemma ino_removeFileBlocks fh : KF (removeFileBlocks fh).
Proof. unfold removeFileBlocks. inoing. Qed.
Lemma ino_discardTemp p : KF (discardTemp p).
Proof. unfold discardTemp. inoing. Qed.
Lemma ino_cleanTemp_loop l : KF (cleanTemp_loop l).
Proof. induction l; simpl; inoing. Qed.
Hint Resolve ino_removeFileBlocks ino_discardTemp ino_cleanTemp_loop : inodes.
Lemma ino_cleanTemp : KF cleanTemp.
Proof. unfold cleanTemp. inoing. Qed.

Lemma ino_ensureFile fh k : KF (ensureFile fh k).
Proof. unfold ensureFile. inoing. Qed.
Hint Resolve ino_cleanTemp ino_ensureFile : inodes.
Lemma ino_drop_names l r : KF (drop_names l r).
Proof. revert r. induction l; intros r; simpl; inoing. Qed.
Hint Resolve ino_drop_names : inodes.
Lemma ino_evictObject i : KF (evictObject i).
Proof. unfold evictObject. inoing. Qed.
Lemma ino_evictPart fh : KF (evictPart fh).
Proof. unfold evictPart. inoing. Qed.
Lemma ino_evictBlock id : KF (evictBlock id).
Proof. unfold evictBlock. inoing. Qed.
Hint Resolve ino_evictObject ino_evictPart ino_evictBlock : inodes.
Lemma ino_evictExpired x : KF (evictExpired x).
Proof. unfold evictExpired. inoing. Qed.
Lemma ino_evictOne x : KF (evictOne x).
Proof. unfold evictOne. inoing. Qed.
Hint Resolve ino_evictExpired ino_evictOne : inodes.
Lemma ino_cap_loop fuel n e x : KF (cap_loop fuel n e x).
Proof. induction fuel; simpl; inoing. Qed.
Lemma ino_free_loop fuel dir n x : KF (free_loop fuel dir n x).
Proof. induction fuel; simpl; inoing. Qed.
Lemma ino_reserve_loop fuel dir n : KF (reserve_loop fuel dir n).
Proof. induction fuel; simpl; inoing. Qed.
Hint Resolve ino_cap_loop ino_free_loop ino_reserve_loop : inodes.
Lemma ino_makeRoomFor a b c x : KF (makeRoomFor a b c x).
Proof. unfold makeRoomFor. inoing. apply keeps_dsk. intros s. by destruct a1. Qed.
Hint Resolve ino_makeRoomFor : inodes.
Lemma ino_blockRoom id o n z p : KF (blockRoom id o n z p).
Proof. unfold blockRoom. inoing. Qed.
Lemma ino_ReserveDisk dir n : KF (ReserveDisk dir n).
Proof. unfold ReserveDisk. inoing. Qed.
Lemma ino_releaseDisk n : KF (releaseDisk n).
Proof. unfold releaseDisk. inoing. Qed.
Lemma ino_cleanAll fuel : KF (cleanAll fuel).
Proof. induction fuel; simpl; inoing. Qed.
Hint Resolve ino_cleanAll : inodes.
Lemma ino_GC : KF GC.
Proof. unfold GC, makeRoom. inoing. Qed.
Hint Resolve ino_blockRoom ino_ReserveDisk ino_releaseDisk ino_GC : inodes.

(** *** Sparse and complete files *)

Lemma ino_partFile fh ptr : KF (partFile fh ptr).
Proof. unfold partFile. inoing. Qed.
Lemma ino_sparse_file fh n b : KF (sparse_file fh n b).
Proof. unfold sparse_file. inoing. Qed.
Lemma ino_mount_part fh k p : KF (cmod (mount_part fh k p)).
Proof. by apply keeps_dsk. Qed.
Hint Resolve ino_partFile ino_sparse_file ino_mount_part : inodes.
Lemma ino_ensurePart k n : KF (ensurePart k n).
Proof. unfold ensurePart. inoing. Qed.
Lemma ino_notePartBlock fh ptr k idx n : KF (notePartBlock fh ptr k idx n).
Proof. unfold notePartBlock. inoing. Qed.
Lemma ino_persistPart fh ptr c : KF (persistPart fh ptr c).
Proof. unfold persistPart. inoing. Qed.
Hint Resolve ino_ensurePart ino_notePartBlock ino_persistPart : inodes.

Lemma ino_finishPart k fh ptr : KF (finishPart k fh ptr).
Proof. unfold finishPart. inoing. Qed.
Hint Resolve ino_finishPart : inodes.
Lemma ino_settlePart k fh ptr idx n : KF (settlePart k fh ptr idx n).
Proof. unfold settlePart. inoing. Qed.
Lemma ino_holdFile k n : KF (holdFile k n).
Proof. unfold holdFile. inoing. Qed.
Lemma ino_partRoom fh n : KF (partRoom fh n).
Proof. unfold partRoom. inoing. Qed.
Hint Resolve ino_settlePart ino_holdFile ino_partRoom : inodes.
Lemma ino_putPart k idx d n : KF (putPart k idx d n).
Proof. unfold putPart, releaseFile. inoing. Qed.
Lemma ino_adoptBlockIntoPart k idx : KF (adoptBlockIntoPart k idx).
Proof. unfold adoptBlockIntoPart. inoing. Qed.
Lemma ino_drop_flushed id : KF (drop_flushed id).
Proof. unfold drop_flushed. inoing. Qed.
Lemma ino_release_mem id : KF (cmod (release_mem id)).
Proof. apply keeps_dsk, dsk_release_mem. Qed.
Hint Resolve ino_putPart ino_adoptBlockIntoPart ino_drop_flushed ino_release_mem : inodes.
Lemma ino_flushMemToPart id p d : KF (flushMemToPart id p d).
Proof. unfold flushMemToPart. inoing. Qed.
Lemma ino_closeParts : KF closeParts.
Proof. unfold closeParts, closePart. inoing. Qed.
Lemma ino_OpenWhole k : KF (OpenWhole k).
Proof. unfold OpenWhole. inoing. Qed.
Lemma ino_closeWhole o : KF (closeWhole o).
Proof. apply keeps_dsk. intros s. by rewrite dsk_releaseObject. Qed.
Lemma ino_HydratedPath k : KF (HydratedPath k).
Proof. unfold HydratedPath. inoing. Qed.
Lemma ino_scheduleHydrate k : KF (scheduleHydrate k).
Proof. unfold scheduleHydrate. inoing. Qed.
Hint Resolve ino_flushMemToPart ino_closeParts ino_OpenWhole ino_closeWhole ino_HydratedPath ino_scheduleHydrate : inodes.
Lemma ino_installTemp k t n p : KF (installTemp k t n p).
Proof. unfold installTemp. inoing. Qed.
Hint Resolve ino_installTemp : inodes.
Lemma ino_installBody k src n p t i : KF (installBody k src n p t i).
Proof. unfold installBody. inoing. Qed.
Hint Resolve ino_installBody : inodes.
Lemma ino_installWhole k src n a p : KF (installWhole k src n a p).
Proof. unfold installWhole. inoing. Qed.
Hint Resolve ino_installWhole : inodes.
Lemma ino_remembered k m : KF m -> KF (remembered k m).
Proof. intros H. unfold remembered. inoing. Qed.
Lemma ino_unhold fh p : KF (unhold fh p).
Proof. unfold unhold. inoing. Qed.
Lemma ino_reserve n : KF (reserve n).
Proof. unfold reserve. inoing. Qed.
Lemma ino_unreserve n : KF (unreserve n).
Proof. unfold unreserve. inoing. Qed.
Hint Resolve ino_unhold ino_reserve ino_unreserve : inodes.
Lemma ino_begin_job k p n g : KF (begin_job k p n g).
Proof. unfold begin_job. inoing. Qed.
Lemma ino_end_job j c : KF (end_job j c).
Proof. unfold end_job. inoing. Qed.
Hint Resolve ino_begin_job ino_end_job : inodes.
Lemma ino_hydrate_begin k : KF (hydrate_begin k).
Proof. unfold hydrate_begin. inoing. Qed.
Lemma ino_merge_blocks k n l acc : KF (merge_blocks k n l acc).
Proof. revert acc. induction l; intros acc; simpl; inoing. Qed.
Hint Resolve ino_merge_blocks : inodes.
Lemma ino_hydrate_copy j : KF (hydrate_copy j).
Proof. unfold hydrate_copy. inoing. Qed.
Lemma ino_hydrate_publish j : KF (hydrate_publish j).
Proof. unfold hydrate_publish. inoing. Qed.
Lemma ino_hydrateDue : KF hydrateDue.
Proof. unfold hydrateDue. inoing. Qed.
Lemma ino_putWhole_begin k n : KF (putWhole_begin k n).
Proof. unfold putWhole_begin. inoing. Qed.
Lemma ino_putWhole_copy j r b : KF (putWhole_copy j r b).
Proof. unfold putWhole_copy. inoing. Qed.
Lemma ino_putWhole_publish j : KF (putWhole_publish j).
Proof. unfold putWhole_publish. inoing. Qed.

(** *** Blocks *)

Lemma ino_touch_files fh idx : KF (cmod (touch_files fh idx)).
Proof.
  apply keeps_dsk. intros s. unfold touch_files. destruct (files s !! fh) as [fs|]; [|done].
  destruct (whole fs), (fs_part fs), (parts s !! fh) as [p|]; try done; by destruct (hasBlock p idx).
Qed.
Lemma ino_forgetBlock id : KF (forgetBlock id).
Proof. unfold forgetBlock. inoing. Qed.
Hint Resolve ino_touch_files ino_forgetBlock : inodes.
Lemma ino_readBlock k idx o n z : KF (readBlock k idx o n z).
Proof. unfold readBlock. inoing. Qed.
Lemma ino_locate k idx : KF (locate k idx).
Proof. unfold locate. inoing. Qed.
Lemma ino_locateRange k idx o n : KF (locateRange k idx o n).
Proof. unfold locateRange. inoing. Qed.
Hint Resolve ino_readBlock ino_locate ino_locateRange : inodes.
Lemma ino_Get k idx : KF (Get k idx).
Proof. unfold Get, countHit, countMiss. inoing. Qed.
Lemma ino_ReadAt k idx o n : KF (ReadAt k idx o n).
Proof. unfold ReadAt, countHit, countMiss. inoing. Qed.
Lemma ino_note_file k n : KF (note_file k n).
Proof. unfold note_file. inoing. Qed.
Lemma ino_inherit_pin id : KF (cmod (inherit_pin id)).
Proof. apply keeps_dsk. intros s. unfold inherit_pin. destruct (files s !! id.1); [|done]. by destruct (_ || _). Qed.
Hint Resolve ino_note_file ino_inherit_pin : inodes.
Lemma dsk_replace_block id m s : dsk (replace_block id m s) = dsk s.
Proof. exact (dsk_uncharge id s). Qed.
Lemma ino_put k idx d n : KF (put k idx d n).
Proof. unfold put. inoing; apply keeps_dsk; intros s; apply dsk_replace_block. Qed.
Lemma ino_Pin k b : KF (Pin k b).
Proof. unfold Pin. inoing. Qed.
Lemma ino_SetUserPin k b : KF (SetUserPin k b).
Proof. unfold SetUserPin. inoing. Qed.
Lemma ino_forget_blocks l : KF (forget_blocks l).
Proof. induction l; simpl; inoing. Qed.
Lemma ino_forget_sparse fh : KF (forget_sparse fh).
Proof. unfold forget_sparse. inoing. Qed.
Hint Resolve ino_put ino_forget_blocks ino_forget_sparse : inodes.
Lemma ino_forgetFile k b : KF (forgetFile k b).
Proof. unfold forgetFile. inoing. Qed.
Hint Resolve ino_forgetFile : inodes.

(** *** Partial blocks and write-behind *)

Lemma ino_noteClaim id w : KF (cmod (noteClaim id w)).
Proof. apply keeps_dsk. intros s. unfold noteClaim. by destruct (blocks s !! id). Qed.
Lemma ino_keep_open id f : KF (cmod (keep_open id f)).
Proof. apply keeps_dsk. intros s. unfold keep_open. destruct (blocks s !! id); [|done]. by destruct (_ && _). Qed.
Lemma ino_promote id : KF (cmod (promote id)).
Proof. apply keeps_dsk. intros s. unfold promote. by destruct (blocks s !! id). Qed.
Lemma ino_partialMeta id bl : KF (cmod (partialMeta id bl)).
Proof. apply keeps_dsk. intros s. unfold partialMeta. by destruct (blocks s !! id). Qed.
Lemma ino_gain_sub id bl i h : KF (cmod (gain_sub id bl i h)).
Proof.
  apply keeps_dsk. intros s. unfold gain_sub. destruct (part_of id s) as [p|]; [|done].
  destruct (p_has p i); [done|]. by destruct h.
Qed.
Hint Resolve ino_noteClaim ino_keep_open ino_promote ino_partialMeta ino_gain_sub : inodes.
Lemma ino_sweepClaims q : KF (sweepClaims q).
Proof. unfold sweepClaims, sweepBlock. inoing. Qed.
Lemma ino_claimBlock id a b : KF (claimBlock id a b).
Proof. unfold claimBlock. inoing. Qed.
Hint Resolve ino_sweepClaims ino_claimBlock : inodes.
Lemma ino_openPartialBlock id a b n : KF (openPartialBlock id a b n).
Proof. unfold openPartialBlock. inoing. Qed.
Lemma ino_dropPartial id : KF (dropPartial id).
Proof. unfold dropPartial. inoing. Qed.
Lemma ino_enqueue id : KF (enqueue id).
Proof. unfold enqueue. inoing. Qed.
Lemma ino_start_queue : KF (cmod start_queue).
Proof. apply keeps_dsk. intros s. unfold start_queue. by destruct (wb_queue s). Qed.
Hint Resolve ino_openPartialBlock ino_dropPartial ino_enqueue ino_start_queue : inodes.
Lemma ino_putRangeSync k idx o d n : KF (putRangeSync k idx o d n).
Proof. unfold putRangeSync. inoing. Qed.
Lemma ino_flushSubs id : KF (flushSubs id).
Proof. unfold flushSubs. inoing. Qed.
Lemma ino_hold_subs id bl o d : KF (hold_subs id bl o d).
Proof. unfold hold_subs. inoing. Qed.
Hint Resolve ino_putRangeSync ino_flushSubs ino_hold_subs : inodes.
Lemma ino_PutRange k idx o d n : KF (PutRange k idx o d n).
Proof. unfold PutRange. inoing. Qed.
Lemma ino_flush_begin id : KF (flush_begin id).
Proof. unfold flush_begin. inoing. Qed.
Lemma ino_flush_done f : KF (flush_done f).
Proof.
  unfold flush_done. apply keeps_dsk. intros s.
  set (s1 := match blocks s !! fl_id f with Some m => _ | None => s end).
  assert (H : dsk s1 = dsk s) by (unfold s1; destruct (blocks s !! fl_id f); [by destruct (_ =? _)|done]).
  destruct (bool_decide _); exact H.
Qed.
Hint Resolve ino_flush_begin ino_flush_done : inodes.
Lemma ino_flush_end f : KF (flush_end f).
Proof. unfold flush_end. inoing. Qed.
Lemma ino_dequeue : KF dequeue.
Proof. unfold dequeue. inoing. Qed.
Hint Resolve ino_flush_end : inodes.
Lemma ino_PutAsync k idx d n : KF (PutAsync k idx d n).
Proof. unfold PutAsync. inoing; apply keeps_dsk; intros s; apply dsk_replace_block. Qed.
Lemma ino_close_begin : KF close_begin.
Proof. apply keeps_dsk. intros s. by destruct (wb_closed s). Qed.
Lemma ino_close_end : KF close_end.
Proof. unfold close_end, sweepAllClaims. inoing. Qed.
End Ops.

(** ** In every run *)

Section Run.
Context {E : CacheEnv} {Cfg : Options}.
Notation KF := (keeps inodes_fresh).

Lemma ino_load_file fh : KF (load_file fh).
Proof. apply ino_ensureFile. Qed.
Hint Resolve ino_load_file ino_tick ino_new_ptr ino_os_remove ino_os_rename ino_os_stat ino_os_read_text : inodes.
Lemma ino_adoptPart fh : KF (adoptPart fh).
Proof. unfold adoptPart. inoing. Qed.
Hint Resolve ino_adoptPart : inodes.
Lemma ino_reload : KF reload.
Proof.
  unfold reload, load_temps, load_text_temps, load_temp, load_key, load_block, removePartialBlock, load_hydrated, load_part, drop_bitmap.
  inoing.
Qed.
Lemma fresh_op {A} (m : CM A) s : KF m -> inodes_fresh (sc s) -> inodes_fresh (sc (runs_op m s)).
Proof. intros Hm. apply Hm. Qed.
Lemma fresh_step c s : inodes_fresh (sc s) -> inodes_fresh (sc (cstep c s)).
Proof.
  intros H. destruct c; try (apply fresh_op; [|done]).
  - apply ino_ReadAt.
  - apply ino_Get.
  - unfold Has. apply keeps_bind; [apply ino_locate|inoing].
  - unfold HasRange. apply keeps_bind; [apply ino_locateRange|inoing].
  - apply ino_HydratedPath.
  - apply ino_put.
  - apply ino_PutAsync.
  - apply ino_PutRange.
  - cbn [cstep]. pose proof (ino_dequeue (sc s) H) as H1. destruct (dequeue (sc s)) as [[id|] c1]; [|done].
    pose proof (ino_flush_begin id c1 H1) as H2. by destruct (flush_begin id c1).
  - cbn [cstep]. destruct (flights s !! n) as [f|]; [|done]. by apply (ino_flush_end f).
  - apply ino_sweepClaims.
  - apply ino_hydrateDue.
  - cbn [cstep]. pose proof (ino_hydrate_begin k (sc s) H) as H1. by destruct (hydrate_begin k (sc s)) as [[[j|]|e] c1].
  - cbn [cstep]. destruct (hydrations s !! n) as [j|]; [|done]. destruct (bool_decide _); [|done].
    pose proof (ino_hydrate_copy j (sc s) H) as H1. by destruct (hydrate_copy j (sc s)) as [[[j'|]|e] c1].
  - cbn [cstep]. destruct (hydrations s !! n) as [j|]; [|done]. destruct (bool_decide _); [done|]. by apply ino_hydrate_publish.
  - cbn [cstep]. pose proof (ino_putWhole_begin k size (sc s) H) as H1. by destruct (putWhole_begin k size (sc s)) as [[j|e] c1].
  - cbn [cstep]. destruct (streams s !! n) as [j|]; [|done]. destruct (bool_decide _); [|done].
    pose proof (ino_putWhole_copy j r failed (sc s) H) as H1. by destruct (putWhole_copy j r failed (sc s)) as [[j'|e] c1].
  - cbn [cstep]. destruct (streams s !! n) as [j|]; [|done]. destruct (bool_decide _); [done|]. by apply ino_putWhole_publish.
  - apply ino_remembered, ino_installWhole.
  - apply ino_remembered, ino_installWhole.
  - apply ino_remembered, ino_installWhole.
  - cbn [cstep]. pose proof (ino_OpenWhole k (sc s) H) as H1. by destruct (OpenWhole k (sc s)) as [[[i o]|e] c1].
  - cbn [cstep]. destruct (leases s !! n) as [o|]; [|done]. by apply ino_closeWhole.
  - apply ino_Pin.
  - apply ino_SetUserPin.
  - unfold Forget. apply keeps_then; [apply ino_forgetFile|inoing].
  - apply ino_forgetFile.
  - apply ino_GC.
  - cbn [cstep]. pose proof (ino_ReserveDisk dir n (sc s) H) as H1. by destruct (ReserveDisk dir n (sc s)) as [[u|e] c1].
  - cbn [cstep]. destruct (reservations s !! n) as [w|]; [|done]. by apply ino_releaseDisk.
  - apply ino_close_begin.
  - cbn [cstep]. destruct (_ && _); [|done]. by apply ino_close_end.
  - exact H.
  - cbn [cstep]. case_bool_decide; [|done]. by apply fresh_fresh_node.
Qed.
Lemma fresh_run l s : inodes_fresh (sc s) -> inodes_fresh (sc (run_calls l s)).
Proof. revert s. induction l as [|c l IH]; intros s H; [done|]. apply IH. by apply fresh_step. Qed.
Lemma fresh_boot d t : fresh_disk d -> inodes_fresh (sc (boot d t)).
Proof. intros H. by apply ino_reload. Qed.
End Run.

(** * Versions of files

    The number of a file's state never returns, and its generation never goes
    back while that state is the file's: content that has changed under a job
    stays changed. *)
Definition older (s s' : cache) : Prop :=
  next_ptr s <= next_ptr s' /\ (wb_closed s = true -> wb_closed s' = true)
  /\ forall fh f', files s' !! fh = Some f' ->
       next_ptr s <= fs_ptr f' < next_ptr s'
       \/ exists f, files s !! fh = Some f /\ fs_ptr f' = fs_ptr f /\ generation f <= generation f'.
Lemma older_same s s' : files s' = files s -> next_ptr s' = next_ptr s -> wb_closed s' = wb_closed s -> older s s'.
Proof. intros H1 H2 H3. unfold older. rewrite H1, H2, H3. split_and!; [lia|done|]. intros fh f Hf. right. by exists f. Qed.
Lemma older_trans s1 s2 s3 : older s1 s2 -> older s2 s3 -> older s1 s3.
Proof.
  intros (N1 & W1 & F1) (N2 & W2 & F2). split_and!; [lia|auto|]. intros fh f3 H3.
  destruct (F2 fh f3 H3) as [?|(f2 & H2 & E2 & G2)]; [left; lia|].
  destruct (F1 fh f2 H2) as [?|(f1 & H1 & E1 & G1)]; [left; lia|]. right. exists f1. split_and!; [done|congruence|lia].
Qed.
Lemma older_upd_file fh g s :
  (forall f, fs_ptr (g f) = fs_ptr f /\ generation f <= generation (g f)) -> older s (upd_file fh g s).
Proof.
  intros Hg. split_and!; [done|done|]. intros fh' f'. unfold upd_file. simpl.
  destruct (decide (fh = fh')) as [->|Hne]; [|rewrite lookup_alter_ne by done; intros Hf; right; by exists f'].
  rewrite lookup_alter_eq. destruct (files s !! fh') as [f|]; [|done]. intros [= <-]. right. exists f. destruct (Hg f). done.
Qed.
Definition grows {A} (m : CM A) : Prop := forall s, older s (m s).2.
Lemma grows_bind {A B} (m : CM A) (k : A -> CM B) : grows m -> (forall a, grows (k a)) -> grows (cbind m k).
Proof. intros Hm Hk s. unfold cbind. specialize (Hm s). destruct (m s) as [a t]. eapply older_trans; [exact Hm|apply Hk]. Qed.
Lemma grows_seq {A B} (m : CM A) (k : CM B) : grows m -> grows k -> grows (cthen m k).
Proof. intros Hm Hk s. eapply older_trans; [apply Hm|apply Hk]. Qed.
Lemma grows_foreach {A} (l : list A) (g : A -> CM unit) : (forall y, grows (g y)) -> grows (cforeach l g).
Proof. intros H. induction l; simpl; [intros s; by apply older_same|by apply grows_seq]. Qed.
Lemma grows_mod g : (forall s, files (g s) = files s /\ next_ptr (g s) = next_ptr s /\ wb_closed (g s) = wb_closed s) -> grows (cmod g).
Proof. intros H s. destruct (H s) as (? & ? & ?). by apply older_same. Qed.
Lemma grows_file fh (g : fileState -> fileState) :
  (forall f, fs_ptr (g f) = fs_ptr f /\ generation f <= generation (g f)) -> grows (cmod (upd_file fh g)).
Proof. intros H s. by apply older_upd_file. Qed.

Create HintDb versions.
Ltac grow_step :=
  match goal with
  | |- grows (match ?x with _ => _ end) => destruct x eqn:?
  | |- grows (cret _) => intros ?; by apply older_same
  | |- grows (cget _) => intros ?; by apply older_same
  | |- _ => solve [eauto 2 with versions]
  | |- grows (cbind _ _) => apply grows_bind; [|intros ?]
  | |- grows (cthen _ _) => apply grows_seq
  | |- grows (cforeach _ _) => apply grows_foreach; intros ?
  | |- grows (cmod (upd_file _ _)) => solve [apply grows_file; intros ?; simpl; split; [done|lia]]
  | |- grows (cmod _) => solve [apply grows_mod; intros ?; done]
  | |- grows (on_disk _) => solve [apply grows_mod; intros ?; done]
  end.
Ltac growing := repeat grow_step.

Lemma grows_uncharge id : grows (cmod (uncharge id)).
Proof.
  apply grows_mod. intros s. unfold uncharge. destruct (blocks s !! id) as [m|]; [|done]. unfold dropBlock. simpl.
  destruct (blocks s !! id) as [m'|]; [|done]. destruct (mem m'); [destruct (flushing m')|]; done.
Qed.
Lemma older_releaseObject i s : older s (releaseObject i s).
Proof. unfold releaseObject. destruct (objects s !! i); [|by apply older_same]. destruct (_ && _); by apply older_same. Qed.
Lemma grows_detachWhole fh : grows (cmod (detachWhole fh)).
Proof.
  intros s. unfold detachWhole. cbn [cmod snd]. destruct (files s !! fh) as [f|]; [|by apply older_same]. destruct (whole f) as [i|].
  - eapply older_trans; [|apply older_releaseObject]. eapply older_trans; [|apply older_upd_file; intros g; simpl; split; [done|lia]].
    by apply older_same.
  - apply older_upd_file. intros g. simpl. split; [done|lia].
Qed.
Lemma grows_attachWhole fh inf : grows (cmod (attachWhole fh inf)).
Proof.
  intros s. unfold attachWhole. cbn [cmod snd]. set (s1 := match files s !! fh with Some fs => _ | None => s end).
  assert (H1 : older s s1).
  { unfold s1. destruct (files s !! fh) as [f|]; [|by apply older_same]. destruct (whole f); [|by apply older_same].
    destruct (bool_decide _); [by apply older_same|apply (grows_detachWhole fh s)]. }
  eapply older_trans; [exact H1|]. eapply older_trans; [|apply older_upd_file; intros g; simpl; split; [done|lia]].
  destruct (objects s1 !! inf_id inf); by apply older_same.
Qed.
Lemma grows_touchWhole fh : grows (cmod (touchWhole fh)).
Proof. apply grows_mod. intros s. unfold touchWhole. destruct (files s !! fh) as [f|]; [|done]. by destruct (whole f). Qed.
Lemma grows_release_mem id : grows (cmod (release_mem id)).
Proof. apply grows_mod. intros s. unfold release_mem. by destruct (blocks s !! id). Qed.
Lemma grows_del_present id : grows (cmod (del_present id)).
Proof. apply grows_file. intros f. simpl. split; [done|lia]. Qed.
Lemma grows_add_present id : grows (cmod (add_present id)).
Proof. apply grows_file. intros f. simpl. split; [done|lia]. Qed.
#[export] Hint Resolve grows_del_present grows_add_present grows_uncharge grows_detachWhole grows_attachWhole grows_touchWhole grows_release_mem : versions.

Section Versions.
Context {E : CacheEnv} {Cfg : Options}.
Notation KG := grows.

Lemma ver_tick : KG tick.
Proof. intros s. by apply older_same. Qed.
Lemma ver_new_ptr : KG new_ptr.
Proof. intros s. split_and!; [simpl; lia|done|]. intros fh f Hf. right. by exists f. Qed.
Hint Resolve ver_tick ver_new_ptr : versions.
Lemma ver_os_remove p : KG (os_remove p).
Proof. unfold os_remove. growing. Qed.
Lemma ver_os_write p b : KG (os_write p b).
Proof. unfold os_write. growing. Qed.
Lemma ver_os_write_text p b : KG (os_write_text p b).
Proof. unfold os_write_text. growing. Qed.
Lemma ver_os_rename p q : KG (os_rename p q).
Proof. unfold os_rename. growing. Qed.
Lemma ver_os_rename_text p q : KG (os_rename_text p q).
Proof. unfold os_rename_text. growing. Qed.
Lemma ver_os_link p q : KG (os_link p q).
Proof. unfold os_link. growing. Qed.
Lemma ver_os_open p : KG (os_open p).
Proof. unfold os_open. growing. Qed.
Lemma ver_os_stat p : KG (os_stat p).
Proof. unfold os_stat. growing. Qed.
Lemma ver_os_read_text p : KG (os_read_text p).
Proof. unfold os_read_text. growing. Qed.
Lemma ver_f_read_at i o n : KG (f_read_at i o n).
Proof. unfold f_read_at. growing. Qed.
Lemma ver_f_write_at i o b : KG (f_write_at i o b).
Proof. unfold f_write_at. growing. Qed.
Lemma ver_f_truncate i n : KG (f_truncate i n).
Proof. unfold f_truncate. growing. Qed.
Lemma ver_f_sync : KG f_sync.
Proof. unfold f_sync. growing. Qed.
Lemma ver_os_create p : KG (os_create p).
Proof. unfold os_create. growing. Qed.
Lemma ver_fresh_scratch : KG fresh_scratch.
Proof. unfold fresh_scratch. growing. Qed.
Hint Resolve ver_os_remove ver_os_write ver_os_write_text ver_os_rename ver_os_rename_text ver_os_link ver_os_open ver_os_stat
  ver_os_read_text ver_f_read_at ver_f_write_at ver_f_truncate ver_f_sync ver_os_create ver_fresh_scratch : versions.
Lemma ver_removeTarget p : KG (removeTarget p).
Proof. unfold removeTarget. growing. Qed.
Lemma ver_rememberKey k : KG (rememberKey k).
Proof. unfold rememberKey. growing. Qed.
Lemma ver_writeSidecar id p : KG (writeSidecar id p).
Proof. unfold writeSidecar. growing. Qed.
Lemma ver_writePartBitmap fh n p : KG (writePartBitmap fh n p).
Proof. unfold writePartBitmap. growing. Qed.
Lemma ver_removePartialBlock id : KG (removePartialBlock id).
Proof. unfold removePartialBlock. growing. Qed.
Lemma ver_readInto p : KG (readInto p).
Proof. unfold readInto. growing. Qed.
Lemma ver_write_subs i sub l : KG (write_subs i sub l).
Proof. induction l as [|[j b] l IH]; simpl; growing. Qed.
Lemma ver_readPieces_loop i l acc : KG (readPieces_loop i l acc).
Proof. revert acc. induction l as [|p l IH]; intros acc; simpl; growing. Qed.
Hint Resolve ver_readPieces_loop : versions.
Lemma ver_readPieces o p l : KG (readPieces o p l).
Proof. unfold readPieces. growing. Qed.
Hint Resolve ver_removeTarget ver_rememberKey ver_writeSidecar ver_writePartBitmap ver_removePartialBlock ver_readInto
  ver_write_subs ver_readPieces : versions.


Lemma ver_forgetPart fh p r : KG (forgetPart fh p r).
Proof.
  unfold forgetPart. growing; intros s; cbn [cmod snd];
    (eapply older_trans; [|apply older_upd_file; intros g; destruct (bool_decide _); simpl; split; [done|lia|done|lia]]);
    (destruct (parts s !! fh); [|by apply older_same]); destruct (bool_decide _); by apply older_same.
Qed.
Hint Resolve ver_forgetPart : versions.
Lemma ver_removeFileBlocks fh : KG (removeFileBlocks fh).
Proof. unfold removeFileBlocks. growing. Qed.
Lemma ver_discardTemp p : KG (discardTemp p).
Proof. unfold discardTemp. growing. Qed.
Lemma ver_cleanTemp_loop l : KG (cleanTemp_loop l).
Proof. induction l; simpl; growing. Qed.
Hint Resolve ver_removeFileBlocks ver_discardTemp ver_cleanTemp_loop : versions.
Lemma ver_cleanTemp : KG cleanTemp.
Proof. unfold cleanTemp. growing. Qed.

Lemma ver_ensureFile fh k : KG (ensureFile fh k).
Proof.
  intros s. unfold ensureFile, cbind, cget, id, new_ptr, cmod. destruct (files s !! fh) eqn:Hn; [by apply older_same|].
  cbn [snd]. split_and!; [simpl; lia|done|]. intros g f. simpl. rewrite lookup_insert_Some.
  intros [[<- <-]|[_ Hf]]; [left; simpl; lia|right; by exists f].
Qed.
Hint Resolve ver_cleanTemp ver_ensureFile : versions.
Lemma ver_drop_names l r : KG (drop_names l r).
Proof. revert r. induction l; intros r; simpl; growing. Qed.
Hint Resolve ver_drop_names : versions.
Lemma ver_evictObject i : KG (evictObject i).
Proof. unfold evictObject. growing. Qed.
Lemma ver_evictPart fh : KG (evictPart fh).
Proof. unfold evictPart. growing. Qed.
Lemma ver_evictBlock id : KG (evictBlock id).
Proof. unfold evictBlock. growing. Qed.
Hint Resolve ver_evictObject ver_evictPart ver_evictBlock : versions.
Lemma ver_evictExpired x : KG (evictExpired x).
Proof. unfold evictExpired. growing. Qed.
Lemma ver_evictOne x : KG (evictOne x).
Proof. unfold evictOne. growing. Qed.
Hint Resolve ver_evictExpired ver_evictOne : versions.
Lemma ver_cap_loop fuel n e x : KG (cap_loop fuel n e x).
Proof. induction fuel; simpl; growing. Qed.
Lemma ver_free_loop fuel dir n x : KG (free_loop fuel dir n x).
Proof. induction fuel; simpl; growing. Qed.
Lemma ver_reserve_loop fuel dir n : KG (reserve_loop fuel dir n).
Proof. induction fuel; simpl; growing. Qed.
Hint Resolve ver_cap_loop ver_free_loop ver_reserve_loop : versions.
Lemma ver_makeRoomFor a b c x : KG (makeRoomFor a b c x).
Proof. unfold makeRoomFor. growing. apply grows_mod. intros s. by destruct a1. Qed.
Hint Resolve ver_makeRoomFor : versions.
Lemma ver_blockRoom id o n z p : KG (blockRoom id o n z p).
Proof. unfold blockRoom. growing. Qed.
Lemma ver_ReserveDisk dir n : KG (ReserveDisk dir n).
Proof. unfold ReserveDisk. growing. Qed.
Lemma ver_releaseDisk n : KG (releaseDisk n).
Proof. unfold releaseDisk. growing. Qed.
Lemma ver_cleanAll fuel : KG (cleanAll fuel).
Proof. induction fuel; simpl; growing. Qed.
Hint Resolve ver_cleanAll : versions.
Lemma ver_GC : KG GC.
Proof. unfold GC, makeRoom. growing. Qed.
Hint Resolve ver_blockRoom ver_ReserveDisk ver_releaseDisk ver_GC : versions.

(** *** Sparse and complete files *)

Lemma ver_partFile fh ptr : KG (partFile fh ptr).
Proof. unfold partFile. growing. Qed.
Lemma ver_sparse_file fh n b : KG (sparse_file fh n b).
Proof. unfold sparse_file. growing. Qed.
Lemma ver_mount_part fh k p : KG (cmod (mount_part fh k p)).
Proof.
  intros s. unfold mount_part. cbn [cmod snd]. eapply older_trans; [|apply older_upd_file; intros f; simpl; split; [done|lia]].
  by apply older_same.
Qed.
Hint Resolve ver_partFile ver_sparse_file ver_mount_part : versions.
Lemma ver_ensurePart k n : KG (ensurePart k n).
Proof. unfold ensurePart. growing. Qed.
Lemma ver_notePartBlock fh ptr k idx n : KG (notePartBlock fh ptr k idx n).
Proof. unfold notePartBlock. growing. Qed.
Lemma ver_persistPart fh ptr c : KG (persistPart fh ptr c).
Proof. unfold persistPart. growing. Qed.
Hint Resolve ver_ensurePart ver_notePartBlock ver_persistPart : versions.

Lemma ver_finishPart k fh ptr : KG (finishPart k fh ptr).
Proof. unfold finishPart. growing. Qed.
Hint Resolve ver_finishPart : versions.
Lemma ver_settlePart k fh ptr idx n : KG (settlePart k fh ptr idx n).
Proof. unfold settlePart. growing. Qed.
Lemma ver_holdFile k n : KG (holdFile k n).
Proof. unfold holdFile. growing. Qed.
Lemma ver_partRoom fh n : KG (partRoom fh n).
Proof. unfold partRoom. growing. Qed.
Hint Resolve ver_settlePart ver_holdFile ver_partRoom : versions.
Lemma ver_putPart k idx d n : KG (putPart k idx d n).
Proof. unfold putPart, releaseFile. growing. Qed.
Lemma ver_adoptBlockIntoPart k idx : KG (adoptBlockIntoPart k idx).
Proof. unfold adoptBlockIntoPart. growing. Qed.
Lemma ver_drop_flushed id : KG (drop_flushed id).
Proof. unfold drop_flushed. growing. Qed.
Lemma ver_release_mem id : KG (cmod (release_mem id)).
Proof. apply grows_release_mem. Qed.
Hint Resolve ver_putPart ver_adoptBlockIntoPart ver_drop_flushed ver_release_mem : versions.
Lemma ver_flushMemToPart id p d : KG (flushMemToPart id p d).
Proof. unfold flushMemToPart. growing. Qed.
Lemma ver_closeParts : KG closeParts.
Proof. unfold closeParts, closePart. growing. Qed.
Lemma ver_OpenWhole k : KG (OpenWhole k).
Proof. unfold OpenWhole. growing. Qed.
Lemma ver_closeWhole o : KG (closeWhole o).
Proof. intros s. eapply older_trans; [|apply older_releaseObject]. by apply older_same. Qed.
Lemma ver_HydratedPath k : KG (HydratedPath k).
Proof. unfold HydratedPath. growing. Qed.
Lemma ver_scheduleHydrate k : KG (scheduleHydrate k).
Proof. unfold scheduleHydrate. growing. Qed.
Hint Resolve ver_flushMemToPart ver_closeParts ver_OpenWhole ver_closeWhole ver_HydratedPath ver_scheduleHydrate : versions.
Lemma ver_installTemp k t n p : KG (installTemp k t n p).
Proof. unfold installTemp. growing. Qed.
Hint Resolve ver_installTemp : versions.
Lemma ver_installBody k src n p t i : KG (installBody k src n p t i).
Proof. unfold installBody. growing. Qed.
Hint Resolve ver_installBody : versions.
Lemma ver_installWhole k src n a p : KG (installWhole k src n a p).
Proof. unfold installWhole. growing. Qed.
Hint Resolve ver_installWhole : versions.
Lemma ver_remembered k m : KG m -> KG (remembered k m).
Proof. intros H. unfold remembered. growing. Qed.
Lemma ver_unhold fh p : KG (unhold fh p).
Proof. unfold unhold. apply grows_file. intros f. destruct (bool_decide _); simpl; split; (done || lia). Qed.
Lemma ver_reserve n : KG (reserve n).
Proof. unfold reserve. growing. Qed.
Lemma ver_unreserve n : KG (unreserve n).
Proof. unfold unreserve. growing. Qed.
Hint Resolve ver_unhold ver_reserve ver_unreserve : versions.
Lemma ver_begin_job k p n g : KG (begin_job k p n g).
Proof. unfold begin_job. growing. Qed.
Lemma ver_end_job j c : KG (end_job j c).
Proof. unfold end_job. growing. Qed.
Hint Resolve ver_begin_job ver_end_job : versions.
Lemma ver_hydrate_begin k : KG (hydrate_begin k).
Proof. unfold hydrate_begin. growing. Qed.
Lemma ver_merge_blocks k n l acc : KG (merge_blocks k n l acc).
Proof. revert acc. induction l; intros acc; simpl; growing. Qed.
Hint Resolve ver_merge_blocks : versions.
Lemma ver_hydrate_copy j : KG (hydrate_copy j).
Proof. unfold hydrate_copy. growing. Qed.
Lemma ver_hydrate_publish j : KG (hydrate_publish j).
Proof. unfold hydrate_publish. growing. Qed.
Lemma ver_hydrateDue : KG hydrateDue.
Proof. unfold hydrateDue. growing. Qed.
Lemma ver_putWhole_begin k n : KG (putWhole_begin k n).
Proof. unfold putWhole_begin. growing. Qed.
Lemma ver_putWhole_copy j r b : KG (putWhole_copy j r b).
Proof. unfold putWhole_copy. growing. Qed.
Lemma ver_putWhole_publish j : KG (putWhole_publish j).
Proof. unfold putWhole_publish. growing. Qed.

(** *** Blocks *)

Lemma ver_touch_files fh idx : KG (cmod (touch_files fh idx)).
Proof.
  apply grows_mod. intros s. unfold touch_files. destruct (files s !! fh) as [fs|]; [|done].
  destruct (whole fs), (fs_part fs), (parts s !! fh) as [p|]; try done; by destruct (hasBlock p idx).
Qed.
Lemma ver_forgetBlock id : KG (forgetBlock id).
Proof. unfold forgetBlock. growing. Qed.
Hint Resolve ver_touch_files ver_forgetBlock : versions.
Lemma ver_readBlock k idx o n z : KG (readBlock k idx o n z).
Proof. unfold readBlock. growing. Qed.
Lemma ver_locate k idx : KG (locate k idx).
Proof. unfold locate. growing. Qed.
Lemma ver_locateRange k idx o n : KG (locateRange k idx o n).
Proof. unfold locateRange. growing. Qed.
Hint Resolve ver_readBlock ver_locate ver_locateRange : versions.
Lemma ver_Get k idx : KG (Get k idx).
Proof. unfold Get, countHit, countMiss. growing. Qed.
Lemma ver_ReadAt k idx o n : KG (ReadAt k idx o n).
Proof. unfold ReadAt, countHit, countMiss. growing. Qed.
Lemma ver_note_file k n : KG (note_file k n).
Proof. unfold note_file. growing. Qed.
Lemma ver_inherit_pin id : KG (cmod (inherit_pin id)).
Proof. apply grows_mod. intros s. unfold inherit_pin. destruct (files s !! id.1); [|done]. by destruct (_ || _). Qed.
Hint Resolve ver_note_file ver_inherit_pin : versions.
Lemma grows_replace_block id (m : cache -> blockMeta) : grows (cmod (fun s => replace_block id (m s) s)).
Proof. intros s. eapply older_trans; [apply (grows_uncharge id s)|]. by apply older_same. Qed.
Lemma ver_put k idx d n : KG (put k idx d n).
Proof. unfold put. growing; apply (grows_replace_block _ (fun s => newMeta _ (zlen d) (now s))). Qed.
Lemma ver_Pin k b : KG (Pin k b).
Proof. unfold Pin. growing. Qed.
Lemma ver_SetUserPin k b : KG (SetUserPin k b).
Proof. unfold SetUserPin. growing. Qed.
Lemma ver_forget_blocks l : KG (forget_blocks l).
Proof. induction l; simpl; growing. Qed.
Lemma ver_forget_sparse fh : KG (forget_sparse fh).
Proof. unfold forget_sparse. growing. Qed.
Hint Resolve ver_put ver_forget_blocks ver_forget_sparse : versions.
Lemma ver_drop_file fh : KG (cmod (fun s => s <| files ::= delete fh |>)).
Proof. intros s. split_and!; [done|done|]. intros g f. simpl. rewrite lookup_delete_Some. intros [_ Hf]. right. by exists f. Qed.
Hint Resolve ver_drop_file : versions.
Lemma ver_forgetFile k b : KG (forgetFile k b).
Proof. unfold forgetFile. growing. Qed.
Hint Resolve ver_forgetFile : versions.

(** *** Partial blocks and write-behind *)

Lemma ver_noteClaim id w : KG (cmod (noteClaim id w)).
Proof. apply grows_mod. intros s. unfold noteClaim. by destruct (blocks s !! id). Qed.
Lemma ver_keep_open id f : KG (cmod (keep_open id f)).
Proof. apply grows_mod. intros s. unfold keep_open. destruct (blocks s !! id); [|done]. by destruct (_ && _). Qed.
Lemma ver_promote id : KG (cmod (promote id)).
Proof. apply grows_mod. intros s. unfold promote. by destruct (blocks s !! id). Qed.
Lemma ver_partialMeta id bl : KG (cmod (partialMeta id bl)).
Proof.
  intros s. unfold partialMeta. cbn [cmod snd]. destruct (blocks s !! id); [by apply older_same|].
  split_and!; [simpl; lia|done|]. intros fh f Hf. right. by exists f.
Qed.
Lemma ver_gain_sub id bl i h : KG (cmod (gain_sub id bl i h)).
Proof.
  apply grows_mod. intros s. unfold gain_sub. destruct (part_of id s) as [p|]; [|done].
  destruct (p_has p i); [done|]. by destruct h.
Qed.
Hint Resolve ver_noteClaim ver_keep_open ver_promote ver_partialMeta ver_gain_sub : versions.
Lemma ver_sweepClaims q : KG (sweepClaims q).
Proof. unfold sweepClaims, sweepBlock. growing. Qed.
Lemma ver_claimBlock id a b : KG (claimBlock id a b).
Proof. unfold claimBlock. growing. Qed.
Hint Resolve ver_sweepClaims ver_claimBlock : versions.
Lemma ver_openPartialBlock id a b n : KG (openPartialBlock id a b n).
Proof. unfold openPartialBlock. growing. Qed.
Lemma ver_dropPartial id : KG (dropPartial id).
Proof. unfold dropPartial. growing. Qed.
Lemma ver_enqueue id : KG (enqueue id).
Proof. unfold enqueue. growing. Qed.
Lemma ver_start_queue : KG (cmod start_queue).
Proof. apply grows_mod. intros s. unfold start_queue. by destruct (wb_queue s). Qed.
Hint Resolve ver_openPartialBlock ver_dropPartial ver_enqueue ver_start_queue : versions.
Lemma ver_putRangeSync k idx o d n : KG (putRangeSync k idx o d n).
Proof. unfold putRangeSync. growing. Qed.
Lemma ver_flushSubs id : KG (flushSubs id).
Proof. unfold flushSubs. growing. Qed.
Lemma ver_hold_subs id bl o d : KG (hold_subs id bl o d).
Proof. unfold hold_subs. growing. Qed.
Hint Resolve ver_putRangeSync ver_flushSubs ver_hold_subs : versions.
Lemma ver_PutRange k idx o d n : KG (PutRange k idx o d n).
Proof. unfold PutRange. growing. Qed.
Lemma ver_flush_begin id : KG (flush_begin id).
Proof. unfold flush_begin. growing. Qed.
Lemma ver_flush_done f : KG (flush_done f).
Proof.
  unfold flush_done. apply grows_mod. intros s.
  set (s1 := match blocks s !! fl_id f with Some m => _ | None => s end).
  assert (H : files s1 = files s /\ next_ptr s1 = next_ptr s /\ wb_closed s1 = wb_closed s)
    by (unfold s1; destruct (blocks s !! fl_id f); [by destruct (_ =? _)|done]).
  destruct (bool_decide _); exact H.
Qed.
Hint Resolve ver_flush_begin ver_flush_done : versions.
Lemma ver_flush_end f : KG (flush_end f).
Proof. unfold flush_end. growing. Qed.
Lemma ver_dequeue : KG dequeue.
Proof. unfold dequeue. growing. Qed.
Hint Resolve ver_flush_end : versions.
Lemma ver_PutAsync k idx d n : KG (PutAsync k idx d n).
Proof. unfold PutAsync. growing. apply (grows_replace_block _ (fun s => (newMeta _ (zlen d) (now s)) <| mem := Some d |>)). Qed.
Lemma ver_close_begin : KG close_begin.
Proof.
  intros s. unfold close_begin. cbn [cmod snd]. destruct (wb_closed s) eqn:Hw; [by apply older_same|].
  split_and!; [done|done|]. intros fh f Hf. right. by exists f.
Qed.
Lemma ver_close_end : KG close_end.
Proof. unfold close_end, sweepAllClaims. growing. Qed.

(** *** Restart, and every step *)

Lemma ver_load_file fh : KG (load_file fh).
Proof. apply ver_ensureFile. Qed.
Hint Resolve ver_load_file : versions.
Lemma ver_adoptPart fh : KG (adoptPart fh).
Proof. unfold adoptPart. growing. Qed.
Hint Resolve ver_adoptPart : versions.
Lemma ver_reload : KG reload.
Proof.
  unfold reload, load_temps, load_text_temps, load_temp, load_key, load_block, removePartialBlock, load_hydrated, load_part, drop_bitmap.
  growing.
Qed.
Lemma older_step c s : older (sc s) (sc (cstep c s)).
Proof.
  destruct c.
  - apply ver_ReadAt.
  - apply ver_Get.
  - unfold Has. apply grows_bind; [apply ver_locate|growing].
  - unfold HasRange. apply grows_bind; [apply ver_locateRange|growing].
  - apply ver_HydratedPath.
  - apply ver_put.
  - apply ver_PutAsync.
  - apply ver_PutRange.
  - cbn [cstep]. pose proof (ver_dequeue (sc s)) as H1. destruct (dequeue (sc s)) as [[id|] c1]; [|exact H1].
    pose proof (ver_flush_begin id c1) as H2. destruct (flush_begin id c1) as [f c2]. by eapply older_trans.
  - cbn [cstep]. destruct (flights s !! n) as [f|]; [|by apply older_same]. apply (ver_flush_end f).
  - apply ver_sweepClaims.
  - apply ver_hydrateDue.
  - cbn [cstep]. pose proof (ver_hydrate_begin k (sc s)) as H1. by destruct (hydrate_begin k (sc s)) as [[[j|]|e] c1].
  - cbn [cstep]. destruct (hydrations s !! n) as [j|]; [|by apply older_same]. destruct (bool_decide _); [|by apply older_same].
    pose proof (ver_hydrate_copy j (sc s)) as H1. by destruct (hydrate_copy j (sc s)) as [[[j'|]|e] c1].
  - cbn [cstep]. destruct (hydrations s !! n) as [j|]; [|by apply older_same]. destruct (bool_decide _); [by apply older_same|]. apply ver_hydrate_publish.
  - cbn [cstep]. pose proof (ver_putWhole_begin k size (sc s)) as H1. by destruct (putWhole_begin k size (sc s)) as [[j|e] c1].
  - cbn [cstep]. destruct (streams s !! n) as [j|]; [|by apply older_same]. destruct (bool_decide _); [|by apply older_same].
    pose proof (ver_putWhole_copy j r failed (sc s)) as H1. by destruct (putWhole_copy j r failed (sc s)) as [[j'|e] c1].
  - cbn [cstep]. destruct (streams s !! n) as [j|]; [|by apply older_same]. destruct (bool_decide _); [by apply older_same|]. apply ver_putWhole_publish.
  - apply ver_remembered, ver_installWhole.
  - apply ver_remembered, ver_installWhole.
  - apply ver_remembered, ver_installWhole.
  - cbn [cstep]. pose proof (ver_OpenWhole k (sc s)) as H1. by destruct (OpenWhole k (sc s)) as [[[i o]|e] c1].
  - cbn [cstep]. destruct (leases s !! n) as [o|]; [|by apply older_same]. apply ver_closeWhole.
  - apply ver_Pin.
  - apply ver_SetUserPin.
  - unfold Forget. apply grows_seq; [apply ver_forgetFile|growing].
  - apply ver_forgetFile.
  - apply ver_GC.
  - cbn [cstep]. pose proof (ver_ReserveDisk dir n (sc s)) as H1. by destruct (ReserveDisk dir n (sc s)) as [[u|e] c1].
  - cbn [cstep]. destruct (reservations s !! n) as [w|]; [|by apply older_same]. apply ver_releaseDisk.
  - apply ver_close_begin.
  - cbn [cstep]. destruct (_ && _); [|by apply older_same]. apply ver_close_end.
  - by apply older_same.
  - cbn [cstep]. case_bool_decide; by apply older_same.
Qed.
Lemma older_run l s : older (sc s) (sc (run_calls l s)).
Proof.
  revert s. induction l as [|c l IH]; intros s; [by apply older_same|]. eapply older_trans; [apply older_step|apply IH].
Qed.
(** The numbers in use are below the next. *)
Definition ptrs_ok (s : cache) : Prop := forall fh f, files s !! fh = Some f -> fs_ptr f < next_ptr s.
Lemma ptrs_older s s' : older s s' -> ptrs_ok s -> ptrs_ok s'.
Proof.
  intros (Hn & _ & Hf) H fh f' Hf'. destruct (Hf fh f' Hf') as [[_ ?]|(f & Hf0 & -> & _)]; [done|]. apply H in Hf0. lia.
Qed.
Lemma ptrs_boot d t : ptrs_ok (sc (boot d t)).
Proof. eapply ptrs_older; [apply ver_reload|]. intros fh f. simpl. by rewrite lookup_empty. Qed.

(** *** Jobs *)

(** [j] was begun at this state or before it. *)
Definition begun (j : job) (s : cache) : Prop :=
  j_file j < next_ptr s
  /\ forall f, files s !! key_hash (j_key j) = Some f -> fs_ptr f = j_file j -> j_generation j <= generation f.
Lemma begun_older j s s' : older s s' -> begun j s -> begun j s'.
Proof.
  intros (Hn & _ & Hf) [Hj Hg]. split; [lia|]. intros f' Hf' Hp.
  destruct (Hf _ f' Hf') as [[? _]|(f & Hf0 & Hp' & Hle)]; [lia|]. specialize (Hg f Hf0 ltac:(congruence)). lia.
Qed.
Lemma stale_older j s s' : older s s' -> begun j s -> job_stale j s = true -> job_stale j s' = true.
Proof.
  intros (Hn & Hw & Hf) [Hj Hg]. unfold job_stale. rewrite !orb_true_iff. intros [H|H]; [left; by apply Hw|right].
  destruct (files s' !! key_hash (j_key j)) as [f'|] eqn:Hf'; [|done].
  destruct (Hf _ f' Hf') as [[? _]|(f & Hf0 & Hp & Hle)].
  - destruct (Z.eqb_spec (fs_ptr f') (j_file j)); [lia|done].
  - rewrite Hf0 in H. specialize (Hg f Hf0). rewrite Hp.
    destruct (Z.eqb_spec (fs_ptr f) (j_file j)) as [He|]; [|done]. specialize (Hg He). simpl in *.
    destruct (Z.eqb_spec (generation f) (j_generation j)); [done|]. destruct (Z.eqb_spec (generation f') (j_generation j)); [lia|done].
Qed.
Lemma begun_begin_job k f size gen s j : ptrs_ok s -> files s !! key_hash k = Some f -> generation f = gen ->
  (begin_job k (fs_ptr f) size gen s).1 = Ok j -> begun j (begin_job k (fs_ptr f) size gen s).2.
Proof.
  intros Hp Hf Hg Hj. eapply begun_older; [apply ver_begin_job|].
  assert (j = MkJob k (fs_ptr f) size gen None) as ->.
  { revert Hj. unfold begin_job, cthen, cbind. destruct (makeRoomFor _ _ _ _ _) as [[u|e] t]; simpl; congruence. }
  split; [by apply (Hp (key_hash k) f)|]. simpl. intros f' Hf' _. simplify_eq. lia.
Qed.
(** A job of either kind, from what it was begun on. *)
Definition starts (k : FileKey) (c : cache) (j : job) (c' : cache) : Prop :=
  (exists size, putWhole_begin k size c = (Ok j, c')) \/ hydrate_begin k c = (Ok (Some j), c').
Lemma starts_begun k c j c' : ptrs_ok c -> starts k c j c' -> begun j c' /\ j_key j = k /\ older c c'.
Proof.
  intros Hp [[size H]|H].
  - pose proof (ver_putWhole_begin k size c) as Ho. rewrite H in Ho. simpl in Ho.
    unfold putWhole_begin, cbind, cthen, cget in H. destruct (size <? 0); [done|]. destruct (wb_closed c); [done|].
    set (c0 := (ensureFile (key_hash k) noKey c).2) in H. pose proof (ver_ensureFile (key_hash k) noKey c) as Ho0. fold c0 in Ho0.
    destruct (files c0 !! key_hash k) as [f|] eqn:Hf; [|done].
    pose proof (begun_begin_job k f size (generation f) c0 j (ptrs_older _ _ Ho0 Hp) Hf eq_refl) as Hb. rewrite H in Hb.
    split_and!; [by apply Hb| |done]. clear -H. unfold begin_job, cthen, cbind, cret in H.
    destruct (makeRoomFor _ _ _ _ _) as [[u|e] t]; by simplify_eq/=.
  - pose proof (ver_hydrate_begin k c) as Ho. rewrite H in Ho. simpl in Ho.
    unfold hydrate_begin, cbind, cget in H. unfold id in H. destruct (files c !! key_hash k) as [f|] eqn:Hf; [|done].
    destruct (_ || _); [done|]. destruct (_ || _); [done|].
    pose proof (begun_begin_job k f (fs_size f) (generation f) c j Hp Hf eq_refl) as Hb.
    destruct (begin_job _ _ _ _ c) as [[j'|e] t] eqn:Hb'; [|done]. unfold cret in H. simplify_eq/=.
    split_and!; [by apply Hb| |done]. clear -Hb'. unfold begin_job, cthen, cbind, cret in Hb'.
    destruct (makeRoomFor _ _ _ _ _) as [[u|e] t']; by simplify_eq/=.
Qed.
End Versions.
