(* ===== verification/CacheEvict.v ===== *)
(** * Eviction and admission: what they promise
    (internal/cache/admission.go, blockcache.go, whole.go, sparse.go)

    Eviction never raises the totals and never takes what is pinned, held or
    leased.  Every eviction that reports success leaves less to evict, so the
    loops end; they give up only when nothing unprotected is left. *)
From S2P Require Import Prelude CacheBits CacheState CacheRoom CacheWhole CacheBlocks CacheSub CacheBehind CacheFrame CacheLinks CacheCalls CacheSizes.
Open Scope Z_scope.

(** ** The totals *)

Definition under (B N : Z) (s : cache) : Prop := sized s /\ total_bytes s <= B /\ total_objects s <= N.
Definition totals (s : cache) := (stores s, total_bytes s, total_objects s).
#[export] Instance totals_blind : Blind totals.
Proof. by split. Qed.
Lemma under_totals B N s s' : totals s' = totals s -> under B N s -> under B N s'.
Proof.
  intros H (Hs & Hb & Hn). pose proof (f_equal (fun x => x.1.1) H) as H1. pose proof (f_equal (fun x => x.1.2) H) as H2.
  pose proof (f_equal snd H) as H3. unfold totals in H1, H2, H3. cbn [fst snd] in H1, H2, H3.
  split; [by eapply sized_stores|]. by rewrite H2, H3.
Qed.
Lemma keeps_under {A} B N (m : CM A) : fixes totals m -> keeps (under B N) m.
Proof. intros H s Hs. eapply under_totals; [apply H|done]. Qed.

Lemma size_delete_Z {K A} `{Countable K} (m : gmap K A) i x : m !! i = Some x -> Z.of_nat (size (delete i m)) = Z.of_nat (size m) - 1.
Proof.
  intros Hi. assert (is_Some (m !! i)) by (by eexists). rewrite map_size_delete_Some by done.
  assert (size m <> 0)%nat by (by eapply map_size_ne_0_lookup_2). lia.
Qed.
Lemma under_uncharge B N id s : under B N s -> under B N (uncharge id s).
Proof.
  intros (Hs & Hb & Hn). split; [by apply sized_uncharge|]. unfold uncharge.
  destruct (blocks s !! id) as [m|] eqn:Hm; [|done]. pose proof (proj1 Hs id m Hm) as Hok. pose proof (mem_nonneg m) as H0. unfold entry_ok, mem_bytes in Hok, H0.
  unfold dropBlock. simpl. rewrite Hm. pose proof (size_delete_Z (blocks s) id m Hm).
  unfold total_bytes, total_objects in *. destruct (mem m) as [d|]; [destruct (flushing m)|]; simpl; lia.
Qed.
Lemma under_releaseObject B N i s : under B N s -> under B N (releaseObject i s).
Proof.
  intros (Hs & Hb & Hn). split; [by apply sized_releaseObject|]. unfold releaseObject.
  destruct (objects s !! i) as [o|] eqn:Ho; [|done]. destruct (_ && _); [|done].
  pose proof (proj1 (proj2 Hs) i o Ho) as Hz. simpl in Hz. pose proof (size_delete_Z (objects s) i o Ho).
  unfold total_bytes, total_objects in *. simpl. lia.
Qed.
Lemma under_alter_object B N i g s : (forall o, o_size (g o) = o_size o) -> under B N s -> under B N (upd_object i g s).
Proof.
  intros Hg (Hs & Hb & Hn). split.
  - apply sized_object; [|done]. intros o. by rewrite Hg.
  - unfold total_bytes, total_objects in *. simpl. enough (size (alter g i (objects s)) = size (objects s)) as -> by done.
    destruct (objects s !! i) as [o|] eqn:Ho; [|by rewrite alter_id].
    rewrite (alter_insert_some _ _ o) by done. apply map_size_insert_Some. by eexists.
Qed.
Lemma under_detachWhole B N fh s : under B N s -> under B N (detachWhole fh s).
Proof.
  intros H. unfold detachWhole. destruct (files s !! fh) as [f|]; [|done]. destruct (whole f) as [i|]; [|done].
  apply under_releaseObject. refine (under_alter_object B N i (fun o => o <| refs ::= fun r => r ∖ {[fh]} |>) s _ H). done.
Qed.

Section Totals.
Context {E : CacheEnv} {Cfg : Options} (B N : Z).
Notation KU := (keeps (under B N)).

Lemma under_forgetPart fh p s : parts s !! fh = Some p -> under B N s -> under B N (forgetPart fh p true s).2.
Proof.
  intros Hp (Hs & Hb & Hn). unfold forgetPart. unfold cthen at 1. cbn [cmod snd]. rewrite Hp, bool_decide_eq_true_2 by done.
  match goal with |- under _ _ (?m ?t).2 => assert (Hm : KU m) by (apply keeps_under; fixing); apply Hm end.
  split.
  - destruct Hs as (H1 & H2 & H3 & H4). split_and!; [done..| |done]. by apply forall_delete.
  - pose proof (proj1 (proj2 (proj2 Hs)) fh p Hp) as Hz. simpl in Hz. pose proof (size_delete_Z (parts s) fh p Hp).
    unfold total_bytes, total_objects in *. simpl. lia.
Qed.

Lemma under_cleanTemp_loop l : KU (cleanTemp_loop l).
Proof.
  induction l as [|p l IH]; simpl; [by apply triple_ret|]. apply keeps_bind; [apply keeps_under; fixing|]. intros r.
  destruct (rm_failed r); [done|]. apply keeps_then; [|by apply triple_ret]. intros s (Hs & Hb & Hn). cbn [cmod snd].
  destruct Hs as (H1 & H2 & H3 & H4). split; [split_and!; [done..|]; by apply forall_delete|].
  unfold total_bytes, total_objects in *. simpl. destruct (orphanTemps s !! p) as [n|] eqn:Hp; simpl.
  - specialize (H4 p n Hp). simpl in H4. pose proof (size_delete_Z (orphanTemps s) p n Hp). lia.
  - rewrite delete_id by done. lia.
Qed.
Lemma under_drop_names l r : KU (drop_names l r).
Proof.
  revert r. induction l as [|fh l IH]; intros r; simpl; [by apply triple_ret|].
  apply keeps_bind; [apply keeps_under; fixing|]. intros x. destruct (rm_failed x); [apply IH|].
  apply keeps_then; [|apply IH]. intros s. apply under_detachWhole.
Qed.
Lemma under_count_eviction : KU (cmod (fun s => s <| evictions ::= Z.succ |>)).
Proof. by intros s. Qed.
Lemma under_evictBlock id : KU (evictBlock id).
Proof.
  unfold evictBlock. apply keeps_bind; [apply keeps_under; fixing|]. intros r. destruct (rm_failed r); [by apply triple_ret|].
  apply keeps_then; [apply keeps_under; fixing|]. apply keeps_then; [intros s; apply under_uncharge|].
  apply keeps_then; [apply under_count_eviction|]. apply keeps_then; [by intros s|by apply triple_ret].
Qed.
Lemma under_evictObject i : KU (evictObject i).
Proof.
  unfold evictObject. apply keeps_bind; [by intros s|]. intros s. destruct (objects s !! i) as [o|]; [|by apply triple_ret].
  destruct (objectProtected o s); [by apply triple_ret|]. apply keeps_bind; [apply keeps_under; fixing|]. intros n.
  apply keeps_bind; [apply under_drop_names|]. intros []; [|by apply triple_ret].
  apply keeps_then; [apply under_count_eviction|by apply triple_ret].
Qed.
Lemma under_evictPart fh : KU (evictPart fh).
Proof.
  intros s H. unfold evictPart, cbind, cget, id. destruct (parts s !! fh) as [p|] eqn:Hp; [|done].
  destruct (partProtected fh s); [done|]. unfold cthen. apply under_count_eviction. by apply under_forgetPart.
Qed.
Lemma under_evictOne x : KU (evictOne x).
Proof.
  unfold evictOne, cleanTemp. apply keeps_bind.
  { apply keeps_bind; [apply keeps_under; fixing|]. intros n. apply keeps_bind; [by intros s|]. intros l. apply under_cleanTemp_loop. }
  intros []; [by apply triple_ret|]. apply keeps_bind; [apply keeps_under; fixing|]. intros n. apply keeps_bind; [by intros s|].
  intros [[[hot at_] [id|i|fh]]|]; [apply under_evictBlock|apply under_evictObject|apply under_evictPart|by apply triple_ret].
Qed.
Lemma under_free_loop fuel dir n x : KU (free_loop fuel dir n x).
Proof.
  induction fuel as [|fuel IH]; simpl; (apply keeps_bind; [apply keeps_under; fixing|]; intros t);
    (apply keeps_bind; [by intros s|]; intros d); (destruct (statfs t dir d); [|by apply triple_ret]);
    (apply keeps_bind; [by intros s|]; intros r); (destruct (free_enough _ _ _); [by apply triple_ret|]); [by apply triple_ret|].
  apply keeps_bind; [apply under_evictOne|]. intros []; [apply IH|by apply triple_ret].
Qed.
End Totals.

(** ** The choice of a victim *)

(** [a] goes before [b]. *)
Definition precedes (a b : standing) : bool := better (Some b) a.1.1 a.1.2.
Definition candidate (x : option blockID) (s : cache) (v : victim) : option standing :=
  match v with VBlock id => block_candidate x s id | VObject i => object_candidate s i | VPart fh => part_candidate s fh end.

Lemma consider_min (l : list standing) : forall best,
  match foldl consider best l with
  | None => best = None /\ l = []
  | Some v => (Some v = best \/ v ∈ l) /\ (forall b, best = Some b -> precedes b v = false) /\ forall c, c ∈ l -> precedes c v = false
  end.
Proof.
  assert (Hirr : forall c, precedes c c = false).
  { intros [[h a] v]. unfold precedes. simpl. destruct h; simpl; lia. }
  assert (Htr : forall a b c, precedes a b = true -> precedes a c = false -> precedes b c = false).
  { intros [[ha aa] va] [[hb ab] vb] [[hc ac] vc]. unfold precedes. simpl. destruct ha, hb, hc; simpl; lia. }
  assert (Htr' : forall a b c, precedes a b = false -> precedes b c = false -> precedes a c = false).
  { intros [[ha aa] va] [[hb ab] vb] [[hc ac] vc]. unfold precedes. simpl. destruct ha, hb, hc; simpl; lia. }
  induction l as [|c l IH]; intros best; simpl.
  - destruct best as [b|]; [|done]. split_and!; [by left|by intros ? [= <-]|]. by intros ? ?%elem_of_nil.
  - specialize (IH (consider best c)). destruct (foldl consider (consider best c) l) as [v|] eqn:Hv.
    + destruct IH as (H1 & H2 & H3).
      assert (Hc : precedes c v = false /\ (forall b, best = Some b -> precedes b v = false)).
      { unfold consider in H2. destruct c as [[h a] w]. destruct best as [b|].
        - destruct (better (Some b) h a) eqn:Hb.
          + specialize (H2 _ eq_refl). split; [done|]. intros b' [= <-]. by apply (Htr (h, a, w)).
          + specialize (H2 _ eq_refl). split; [by apply (Htr' _ b)|]. by intros b' [= <-].
        - by specialize (H2 _ eq_refl). }
      split_and!; [|exact (proj2 Hc)|].
      * destruct H1 as [H1|H1]; [|right; by right]. unfold consider in H1. destruct c as [[h a] w].
        destruct (better best h a); [right; injection H1 as ->; left|by left].
      * intros c' [->|Hc']%elem_of_cons; [exact (proj1 Hc)|by apply H3].
    + exfalso. destruct IH as [H _]. unfold consider in H. destruct c as [[h a] w]. destruct (better best h a) eqn:Hb; [done|]. by subst.
Qed.

Section Choice.
Context {E : CacheEnv}.

Lemma elem_of_keys {K A} `{Countable K} (m : gmap K A) i : i ∈ map fst (map_to_list m) <-> is_Some (m !! i).
Proof.
  rewrite list_elem_of_fmap. split.
  - intros ([j x] & -> & Hx). apply elem_of_map_to_list in Hx. by eexists.
  - intros [x Hx]. exists (i, x). split; [done|]. by apply elem_of_map_to_list.
Qed.
Lemma pick_victim_spec x n s :
  match pick_victim x n s with
  | None => forall v, candidate x s v = None
  | Some c => candidate x s c.2 = Some c /\ forall v c', candidate x s v = Some c' -> precedes c' c = false
  end.
Proof.
  unfold pick_victim. set (l := _ ++ _ ++ _).
  assert (Hin : forall v c, candidate x s v = Some c -> c ∈ l).
  { intros v c Hc. unfold l. rewrite !elem_of_app, !list_elem_of_omap. destruct v as [id|i|fh]; simpl in Hc.
    - left. exists id. split; [|done]. rewrite ord_blocks_perm. apply elem_of_keys. unfold block_candidate in Hc.
      destruct (blocks s !! id); [by eexists|done].
    - right. left. exists i. split; [|done]. rewrite ord_objects_perm. apply elem_of_keys. unfold object_candidate in Hc.
      destruct (objects s !! i); [by eexists|done].
    - right. right. exists fh. split; [|done]. rewrite ord_names_perm. apply elem_of_keys. unfold part_candidate in Hc.
      destruct (parts s !! fh); [by eexists|done]. }
  assert (Hout : forall c, c ∈ l -> candidate x s c.2 = Some c).
  { intros c. unfold l. rewrite !elem_of_app, !list_elem_of_omap. intros [(id & _ & H)|[(i & _ & H)|(fh & _ & H)]].
    - assert (c.2 = VBlock id) as -> by (unfold block_candidate in H; repeat case_match; by simplify_eq). done.
    - assert (c.2 = VObject i) as -> by (unfold object_candidate in H; repeat case_match; by simplify_eq). done.
    - assert (c.2 = VPart fh) as -> by (unfold part_candidate in H; repeat case_match; by simplify_eq). done. }
  pose proof (consider_min l None) as H. destruct (foldl consider None l) as [v|].
  - destruct H as ([H|H] & _ & H3); [done|]. split; [by apply Hout|]. intros w c' Hc. by apply H3, (Hin w).
  - destruct H as [_ H]. intros v. destruct (candidate x s v) as [c|] eqn:Hc; [|done]. apply Hin in Hc. rewrite H in Hc.
    by apply elem_of_nil in Hc.
Qed.
End Choice.

(** ** Progress *)

Definition nrefs (o : wholeObject) : Z := Z.of_nat (size (refs o)).
Definition left_to_evict (s : cache) : Z :=
  Z.of_nat (size (orphanTemps s)) + Z.of_nat (size (blocks s)) + msum nrefs (objects s) + Z.of_nat (size (parts s)).
#[export] Instance left_blind : Blind left_to_evict.
Proof. by split. Qed.
Lemma evictable_left s : Z.of_nat (evictable s) = left_to_evict s.
Proof.
  unfold evictable, left_to_evict.
  assert (H : Z.of_nat (map_fold (fun _ o acc => size (refs o) + acc)%nat 0%nat (objects s)) = msum nrefs (objects s)).
  { induction (objects s) as [|i o m Hi IH] using map_ind; [done|].
    rewrite msum_insert, map_fold_insert_L by (done || (intros; lia)). unfold nrefs at 1. lia. }
  lia.
Qed.
Lemma left_uncharge id m s : blocks s !! id = Some m -> left_to_evict (uncharge id s) = left_to_evict s - 1.
Proof.
  intros Hm. unfold left_to_evict. destruct (uncharge_rest id s) as (_ & -> & -> & _ & -> & _).
  rewrite blocks_uncharge, (size_delete_Z _ _ m) by done. lia.
Qed.
Lemma left_releaseObject i s : left_to_evict (releaseObject i s) = left_to_evict s.
Proof.
  unfold releaseObject. destruct (objects s !! i) as [o|] eqn:Ho; [|done]. destruct (bool_decide (refs o = ∅)) eqn:Hr; [|done].
  apply bool_decide_eq_true in Hr. destruct (readers o =? 0); [|done]. unfold left_to_evict. simpl.
  rewrite (msum_delete nrefs _ i o) by done. unfold nrefs at 2. rewrite Hr, size_empty. lia.
Qed.
(** A name taken off its object's list. *)
Lemma left_cut fh i s : left_to_evict (upd_object i (fun o => o <| refs ::= fun r => r ∖ {[fh]} |>) s)
  = left_to_evict s - match objects s !! i with Some o => b2z (bool_decide (fh ∈ refs o)) | None => 0 end.
Proof.
  unfold left_to_evict, upd_object. simpl. destruct (objects s !! i) as [o|] eqn:Ho; [|rewrite alter_id by done; lia].
  rewrite (msum_alter nrefs _ i o) by done. unfold nrefs at 2 3. simpl.
  case_bool_decide as Hin; simpl.
  - rewrite size_difference by set_solver. rewrite size_singleton.
    assert (size (refs o) <> 0)%nat by (intros Hz%size_empty_inv; set_solver). lia.
  - assert (refs o ∖ {[fh]} = refs o) as -> by set_solver. lia.
Qed.
Lemma left_detachWhole fh s : left_to_evict (detachWhole fh s) <= left_to_evict s.
Proof.
  unfold detachWhole. destruct (files s !! fh) as [f|]; [|done]. destruct (whole f) as [i|]; [|done].
  rewrite left_releaseObject. set (t := upd_object i _ s).
  change (left_to_evict (upd_file fh (fun f => f <| whole := None |> <| hydrated := false |>) t)) with (left_to_evict t).
  unfold t. rewrite left_cut. destruct (objects s !! i); [unfold b2z; destruct (bool_decide _)|]; lia.
Qed.
Lemma left_detachWhole_linked fh i f s : linked s -> files s !! fh = Some f -> whole f = Some i ->
  left_to_evict (detachWhole fh s) = left_to_evict s - 1.
Proof.
  intros Hl Hf Hw. destruct (linked_file _ _ _ _ Hl Hf Hw) as (o & Ho & Hin). unfold detachWhole. rewrite Hf, Hw, left_releaseObject.
  set (t := upd_object i _ s).
  change (left_to_evict (upd_file fh (fun f => f <| whole := None |> <| hydrated := false |>) t)) with (left_to_evict t).
  unfold t. rewrite left_cut, Ho, bool_decide_eq_true_2 by done. done.
Qed.

Section Progress.
Context {E : CacheEnv} {Cfg : Options}.

(** A success leaves less, a failure leaves what there was. *)
Definition progress (n : Z) (b : bool) (s : cache) : Prop := if b then left_to_evict s < n else left_to_evict s = n.
Lemma at_left {A} (m : CM A) n s : fixes left_to_evict m -> left_to_evict s = n -> left_to_evict (m s).2 = n.
Proof. intros H <-. apply H. Qed.

Lemma keep_left {A} (m : CM A) n : fixes left_to_evict m -> keeps (fun s => left_to_evict s = n) m.
Proof. intros H s. by apply at_left. Qed.
Lemma keep_left_le {A} (m : CM A) n : fixes left_to_evict m -> keeps (fun s => left_to_evict s <= n) m.
Proof. intros H s. by rewrite (H s). Qed.
Lemma keep_linked_left {A} (m : CM A) n : keeps linked m -> fixes left_to_evict m -> keeps (fun s => linked s /\ left_to_evict s = n) m.
Proof. intros H1 H s [Hl Hn]. split; [by apply H1|by apply at_left]. Qed.
Lemma progress_cleanTemp n : triple (fun s => left_to_evict s = n) cleanTemp (progress n).
Proof.
  unfold cleanTemp. eapply triple_bind; [apply (keep_left tick n); fixing|]. intros t.
  apply triple_read. intros l.
  assert (H : forall l', triple (fun s => left_to_evict s = n /\ forall p, p ∈ l' -> is_Some (orphanTemps s !! p))
                (cleanTemp_loop l') (progress n)).
  { induction l' as [|p l' IH]; simpl; [by apply triple_ret; intros s []|].
    apply triple_bind with (Q := fun _ s => left_to_evict s = n /\ forall q, q ∈ p :: l' -> is_Some (orphanTemps s !! q)).
    - intros s [Hn Hp]. assert (Ho : fixes orphanTemps (os_remove p)) by (apply fix_os_remove; by split).
      split; [by apply at_left; [fixing|]|]. by rewrite (Ho s).
    - intros r. destruct (rm_failed r).
      + eapply triple_pre; [|exact IH]. intros s [Hn Hp]. split; [done|]. intros q Hq. apply Hp. by right.
      + intros s [Hn Hp]. destruct (Hp p) as [k Hk]; [left|]. unfold progress. simpl. rewrite <- Hn. unfold left_to_evict. simpl.
        rewrite (size_delete_Z _ _ k) by done. lia. }
  eapply triple_pre; [|apply H]. intros s [Hn Hl]. split; [done|]. intros p Hp.
  assert (Hp' : p ∈ l) by (by rewrite <- (ord_paths_perm t l)). subst l. by apply elem_of_keys.
Qed.
Lemma progress_evictBlock id n :
  triple (fun s => left_to_evict s = n /\ is_Some (blocks s !! id)) (evictBlock id) (progress n).
Proof.
  unfold evictBlock.
  assert (Hb : Blind (fun s => (left_to_evict s, blocks s !! id))) by (by split).
  assert (Hk : forall p, keeps (fun s => left_to_evict s = n /\ is_Some (blocks s !! id)) (os_remove p)).
  { intros p s [Hn Hs]. pose proof (fix_os_remove _ p s) as H. cbn beta in H. injection H as H1 H2. by rewrite H1, H2. }
  eapply triple_bind; [apply Hk|]. intros r. destruct (rm_failed r); [by apply triple_ret; intros s []|].
  eapply triple_then; [apply Hk|]. intros s [Hn [m Hm]]. unfold progress. unfold cthen, cmod, cret. cbn [snd fst].
  change (left_to_evict (uncharge id s) < n). rewrite (left_uncharge id m) by done. lia.
Qed.
Lemma left_forgetPart fh p s : parts s !! fh = Some p -> left_to_evict (forgetPart fh p true s).2 = left_to_evict s - 1.
Proof.
  intros Hp. unfold forgetPart. unfold cthen at 1. cbn [cmod snd]. rewrite Hp, bool_decide_eq_true_2 by done.
  match goal with |- left_to_evict ((?m) ?t).2 = _ => rewrite (at_left m (left_to_evict t) t) by (done || fixing) end.
  unfold left_to_evict. simpl. rewrite (size_delete_Z _ _ p) by done. lia.
Qed.
Lemma progress_evictPart fh n : triple (fun s => left_to_evict s = n) (evictPart fh) (progress n).
Proof.
  intros s Hn. unfold evictPart, cbind, cget, id. destruct (parts s !! fh) as [p|] eqn:Hp; [|done].
  destruct (partProtected fh s); [done|]. unfold cthen, progress, cmod, cret. cbn [snd fst].
  change (left_to_evict (forgetPart fh p true s).2 < n). rewrite left_forgetPart by done. lia.
Qed.
Lemma left_drop_names l r n : triple (fun s => left_to_evict s <= n) (drop_names l r) (fun _ s => left_to_evict s <= n).
Proof.
  revert r. induction l as [|fh l IH]; intros r; simpl; [by apply triple_ret|].
  eapply triple_bind; [apply (keep_left_le (os_remove _) n); fixing|].
  intros x. destruct (rm_failed x); [apply IH|]. eapply triple_then; [|apply IH]. intros s Hs.
  pose proof (left_detachWhole fh s). simpl. lia.
Qed.
Lemma drop_names_true l s : (drop_names l true s).1 = true.
Proof.
  revert s. induction l as [|fh l IH]; intros s; simpl; [done|]. unfold cbind. destruct (os_remove _ s) as [x t].
  destruct (rm_failed x); [apply IH|]. unfold cthen. apply IH.
Qed.
(** The first name that goes takes its object's list down. *)
Lemma progress_drop_names l n :
  triple (fun s => linked s /\ left_to_evict s = n /\ forall fh, fh ∈ l -> is_Some ((links s).1 !! fh))
         (drop_names l false) (progress n).
Proof.
  induction l as [|fh l IH]; simpl; [by apply triple_ret; intros s (_ & ? & _)|].
  apply triple_bind with (Q := fun _ s => linked s /\ left_to_evict s = n /\ forall g, g ∈ fh :: l -> is_Some ((links s).1 !! g)).
  - intros s (Hl & Hn & Hg). pose proof (fix_os_remove links (hydratedPath fh) s) as H1.
    split_and!; [by eapply linked_links|by apply at_left; [fixing|]|]. by rewrite H1.
  - intros x. destruct (rm_failed x).
    + eapply triple_pre; [|exact IH]. intros s (Hl & Hn & Hg). split_and!; [done..|]. intros g Hg'. apply Hg. by right.
    + apply triple_then with (Q := fun s => left_to_evict s <= n - 1).
      * intros s (Hl & Hn & Hg). destruct (Hg fh) as [i Hi]; [left|]. apply file_links in Hi as (f & Hf & Hw). simpl.
        rewrite (left_detachWhole_linked fh i f s) by done. lia.
      * intros s Hs. pose proof (left_drop_names l true (n - 1) s Hs) as Hle. unfold progress. rewrite drop_names_true.
        cbn beta in Hle. lia.
Qed.
Lemma progress_evictObject i n : triple (fun s => linked s /\ left_to_evict s = n) (evictObject i) (progress n).
Proof.
  intros s [Hl Hn]. unfold evictObject, cbind, cget, id, tick. destruct (objects s !! i) as [o|] eqn:Ho; [|exact Hn].
  destruct (objectProtected o s); [exact Hn|].
  set (t := s <| ticks ::= Z.succ |>).
  assert (Hd : progress n (drop_names (ord_names (ticks s) (elements (refs o))) false t).1
                 (drop_names (ord_names (ticks s) (elements (refs o))) false t).2).
  { apply progress_drop_names. split_and!; [exact Hl|exact Hn|]. intros fh Hfh.
    rewrite ord_names_perm, elem_of_elements in Hfh. destruct (linked_object s i o fh Hl Ho Hfh) as (f & Hf & Hw).
    exists i. apply file_links. by exists f. }
  destruct (drop_names _ false t) as [[] u]; exact Hd.
Qed.
Lemma progress_evictOne x n : triple (fun s => linked s /\ left_to_evict s = n) (evictOne x) (progress n).
Proof.
  unfold evictOne. apply triple_bind with (Q := fun b s => linked s /\ progress n b s).
  { intros s [Hl Hn]. split; [by apply link_cleanTemp|by apply progress_cleanTemp]. }
  intros []; [by apply triple_ret; intros s []|]. unfold progress.
  eapply triple_bind; [apply (keep_linked_left tick n); [by intros s|fixing]|].
  intros t. apply triple_read. intros v. destruct v as [[[hot at_] w]|]; [|by apply triple_ret; intros s [[] _]].
  assert (Hc : forall s, pick_victim x t s = Some (hot, at_, w) -> candidate x s w = Some (hot, at_, w)).
  { intros s Hs. pose proof (pick_victim_spec x t s) as H. rewrite Hs in H. apply H. }
  destruct w as [id|i|fh].
  - eapply triple_pre; [|apply progress_evictBlock]. intros s [[_ Hn] Hv]. split; [done|]. apply Hc in Hv. simpl in Hv.
    unfold block_candidate in Hv. destruct (blocks s !! id); [by eexists|done].
  - eapply triple_pre; [|apply progress_evictObject]. by intros s [].
  - eapply triple_pre; [|apply progress_evictPart]. by intros s [[]].
Qed.
End Progress.

(** ** What eviction spares *)

(** Pins and uses of the files; eviction changes none. *)
Definition guards (s : cache) := (fun f => (pinned f, userPinned f, busy f)) <$> files s.
#[export] Instance guards_blind : Blind guards.
Proof. by split. Qed.
(** Whatever was pinned, held, leased or excepted is still there, as it was. *)
Definition spared (x : option blockID) (s s' : cache) : Prop :=
  guards s' = guards s
  /\ (forall id m, blocks s !! id = Some m -> block_protected x id m s = true -> blocks s' !! id = Some m)
  /\ (forall i o, objects s !! i = Some o -> objectProtected o s = true -> objects s' !! i = Some o)
  /\ (forall fh p, parts s !! fh = Some p -> partProtected fh s = true -> parts s' !! fh = Some p).

Lemma spared_refl x s : spared x s s.
Proof. by split_and!. Qed.
Lemma guards_file {X} (v : bool * bool * Z -> X) (d : X) fh s s' : guards s' = guards s ->
  match files s' !! fh with Some f => v (pinned f, userPinned f, busy f) | None => d end
  = match files s !! fh with Some f => v (pinned f, userPinned f, busy f) | None => d end.
Proof.
  intros H. pose proof (f_equal (fun m => m !! fh) H) as Hf. unfold guards in Hf. rewrite !lookup_fmap in Hf.
  destruct (files s' !! fh), (files s !! fh); simplify_eq/=; congruence.
Qed.
Lemma guards_busy fh s s' : guards s' = guards s -> file_busy fh s' = file_busy fh s.
Proof. apply (guards_file (fun g => 0 <? g.2) false). Qed.
Lemma guards_protected fh s s' : guards s' = guards s -> partProtected fh s' = partProtected fh s.
Proof. apply (guards_file (fun g => g.1.1 || g.1.2 || (0 <? g.2)) false). Qed.
Lemma guards_object o s s' : guards s' = guards s -> objectProtected o s' = objectProtected o s.
Proof.
  intros H. unfold objectProtected. f_equal. generalize (elements (refs o)). intros l.
  induction l as [|fh l IH]; simpl; [done|]. rewrite IH. f_equal. exact (guards_protected fh s s' H).
Qed.
Lemma guards_block x id m s s' : guards s' = guards s -> block_protected x id m s' = block_protected x id m s.
Proof. intros H. unfold block_protected. by rewrite (guards_busy _ _ _ H). Qed.
Lemma spared_trans x s s1 s2 : spared x s s1 -> spared x s1 s2 -> spared x s s2.
Proof.
  intros (G1 & B1 & O1 & P1) (G2 & B2 & O2 & P2). split_and!; [by rewrite G2| | |].
  - intros id m Hm Hp. apply B2; [by apply B1|]. by rewrite (guards_block x id m s s1 G1).
  - intros i o Ho Hp. apply O2; [by apply O1|]. by rewrite (guards_object o s s1 G1).
  - intros fh p Hp Hq. apply P2; [by apply P1|]. by rewrite (guards_protected fh s s1 G1).
Qed.
(** Steps that touch none of it. *)
Definition held_parts (s : cache) := (guards s, blocks s, objects s, parts s).
#[export] Instance held_blind : Blind held_parts.
Proof. by split. Qed.
Lemma spared_held x s s' : held_parts s' = held_parts s -> spared x s s'.
Proof.
  intros H. pose proof (f_equal (fun x => x.1.1.1) H) as H1. pose proof (f_equal (fun x => x.1.1.2) H) as H2.
  pose proof (f_equal (fun x => x.1.2) H) as H3. pose proof (f_equal snd H) as H4. unfold held_parts in *. cbn [fst snd] in *.
  split_and!; [done| | |]; [rewrite H2|rewrite H3|rewrite H4]; done.
Qed.
Lemma guards_upd_file fh g s : (forall f, (pinned (g f), userPinned (g f), busy (g f)) = (pinned f, userPinned f, busy f)) ->
  guards (upd_file fh g s) = guards s.
Proof.
  intros Hg. unfold guards, upd_file. simpl. apply map_eq. intros j. rewrite !lookup_fmap.
  destruct (decide (fh = j)) as [->|Hj]; [|by rewrite lookup_alter_ne].
  rewrite lookup_alter_eq. destruct (files s !! j) as [f|]; simpl; [by rewrite (Hg f)|done].
Qed.
Lemma spared_uncharge x id s : (forall m, blocks s !! id = Some m -> block_protected x id m s = false) -> spared x s (uncharge id s).
Proof.
  intros Hu. destruct (uncharge_rest id s) as (Hf & Ho & Hp & _). unfold spared, guards. rewrite Hf, Ho, Hp, blocks_uncharge.
  split_and!; [done| |done|done]. intros j m Hm Hq. rewrite lookup_delete_ne; [done|]. intros ->. by rewrite Hu in Hq.
Qed.
(** The name of an object that nothing protected goes. *)
Lemma releaseObject_rest i t : guards (releaseObject i t) = guards t /\ blocks (releaseObject i t) = blocks t
  /\ parts (releaseObject i t) = parts t /\ forall j, j <> i -> objects (releaseObject i t) !! j = objects t !! j.
Proof.
  unfold releaseObject. destruct (objects t !! i); [|done]. destruct (_ && _); [|done]. simpl.
  split_and!; [done..|]. intros j Hj. by rewrite lookup_delete_ne.
Qed.
Lemma spared_detachWhole x i fh s0 s :
  spared x s0 s -> (forall o, objects s0 !! i = Some o -> objectProtected o s0 = false) ->
  (forall j, files s !! fh ≫= whole = Some j -> j = i) -> spared x s0 (detachWhole fh s).
Proof.
  intros (G & B & O & P) Hu Hi. unfold detachWhole. destruct (files s !! fh) as [f|] eqn:Hf; [|by split_and!].
  destruct (whole f) as [j|] eqn:Hw.
  - assert (j = i) as -> by (apply Hi; done).
    match goal with |- spared x s0 (releaseObject i ?t) => destruct (releaseObject_rest i t) as (Q1 & Q2 & Q3 & Q4) end.
    split_and!; [by rewrite Q1, guards_upd_file|by rewrite Q2| |by rewrite Q3].
    intros j o Ho Hp. destruct (decide (j = i)) as [->|Hj]; [by rewrite (Hu o) in Hp|].
    rewrite Q4 by done. simpl. rewrite lookup_alter_ne by done. by apply O.
  - split_and!; [by rewrite guards_upd_file|done..].
Qed.

Section Spares.
Context {E : CacheEnv} {Cfg : Options} (x : option blockID).

Definition spares {A} (m : CM A) : Prop := forall s, linked s -> linked (m s).2 /\ spared x s (m s).2.
Lemma spares_bind {A B} (m : CM A) (k : A -> CM B) : spares m -> (forall a, spares (k a)) -> spares (cbind m k).
Proof.
  intros Hm Hk s Hs. unfold cbind. destruct (Hm s Hs) as [H1 H2]. destruct (m s) as [a t]. destruct (Hk a t H1) as [H3 H4].
  split; [done|]. by eapply spared_trans.
Qed.
Lemma spares_then {A B} (m : CM A) (k : CM B) : spares m -> spares k -> spares (cthen m k).
Proof.
  intros Hm Hk s Hs. unfold cthen. destruct (Hm s Hs) as [H1 H2]. destruct (Hk _ H1) as [H3 H4].
  split; [done|]. by eapply spared_trans.
Qed.
Lemma spares_ret {A} (a : A) : spares (cret a).
Proof. intros s Hs. split; [done|apply spared_refl]. Qed.
Lemma spares_get {A} (g : cache -> A) : spares (cget g).
Proof. intros s Hs. split; [done|apply spared_refl]. Qed.
(** What was read is known to what follows. *)
Lemma spares_read {A B} (g : cache -> A) (k : A -> CM B) :
  (forall s, linked s -> linked (k (g s) s).2 /\ spared x s (k (g s) s).2) -> spares (cbind (cget g) k).
Proof. intros H s. apply H. Qed.
Lemma spares_held {A} (m : CM A) : fixes held_parts m -> keeps linked m -> spares m.
Proof. intros H1 H2 s Hs. split; [by apply H2|]. apply spared_held, H1. Qed.
Lemma spares_foreach {A} (l : list A) (g : A -> CM unit) : (forall y, spares (g y)) -> spares (cforeach l g).
Proof. intros H. induction l; simpl; [apply spares_ret|by apply spares_then]. Qed.

Lemma spares_tick : spares tick.
Proof. apply spares_held; [fixing|keeping]. Qed.
Lemma spares_os_remove p : spares (os_remove p).
Proof. apply spares_held; [fixing|keeping]. Qed.
Lemma spares_cleanTemp : spares cleanTemp.
Proof.
  apply spares_held; [|apply link_cleanTemp]. unfold cleanTemp. fixing.
  generalize (ord_paths a a0). intros l. induction l as [|p l IH]; simpl; fixing.
Qed.
Lemma spares_evictBlock id s : linked s -> (forall m, blocks s !! id = Some m -> block_protected x id m s = false) ->
  linked (evictBlock id s).2 /\ spared x s (evictBlock id s).2.
Proof.
  intros Hl Hu. split; [by apply link_evictBlock|]. unfold evictBlock.
  assert (Hb : forall A (k : rmres -> CM A), (forall r t, held_parts t = held_parts s -> spared x s (k r t).2) -> forall p, spared x s (cbind (os_remove p) k s).2).
  { intros A k Hk p. unfold cbind. pose proof (fix_os_remove held_parts p s) as H. destruct (os_remove p s) as [r t]. by apply Hk. }
  apply Hb. intros r t Ht. destruct (rm_failed r); [by apply spared_held|].
  unfold cthen, cmod, cret. cbn [snd].
  set (t1 := (os_remove (sidecarPath id.1 id.2) t).2).
  assert (Ht1 : held_parts t1 = held_parts s) by (unfold t1; by rewrite (fix_os_remove held_parts)).
  assert (H1 : spared x s (uncharge id t1)).
  { eapply spared_trans; [by apply spared_held|]. apply spared_uncharge.
    pose proof (f_equal (fun y => y.1.1.2) Ht1) as Eb. pose proof (f_equal (fun y => y.1.1.1) Ht1) as Eg. unfold held_parts in Eb, Eg. cbn [fst snd] in Eb, Eg.
    intros m Hm. rewrite (guards_block x id m s t1 Eg). apply Hu. by rewrite <- Eb. }
  eapply spared_trans; [exact H1|]. apply spared_held. unfold held_parts, del_present. by rewrite guards_upd_file.
Qed.
(** The names in the list, if they have a complete file, have object [i]. *)
Definition names_only (i : Z) (l : list string) (s : cache) : Prop :=
  forall fh j, fh ∈ l -> files s !! fh ≫= whole = Some j -> j = i.
Lemma wholes_detachWhole fh g s : files (detachWhole fh s) !! g ≫= whole = if decide (fh = g) then None else files s !! g ≫= whole.
Proof.
  pose proof (detachWhole_gone fh s) as Hg. unfold links in Hg. simpl in Hg. rewrite lookup_omap in Hg.
  case_decide as Hd; [by subst|]. unfold detachWhole. destruct (files s !! fh) as [f|] eqn:Hf; [|done].
  destruct (whole f); [rewrite files_releaseObject|]; simpl; by rewrite lookup_alter_ne.
Qed.
Lemma held_eq s0 s t : held_parts t = held_parts s -> spared x s0 s -> spared x s0 t.
Proof. intros H Hs. eapply spared_trans; [done|]. by apply spared_held. Qed.
Lemma spares_drop_names i l s0 : (forall o, objects s0 !! i = Some o -> objectProtected o s0 = false) ->
  forall r s, names_only i l s -> spared x s0 s -> spared x s0 (drop_names l r s).2.
Proof.
  intros Hu. induction l as [|fh l IH]; intros r s Hn Hs; simpl; [done|]. unfold cbind.
  assert (Hb : Blind (fun s => (held_parts s, files s))) by (by split).
  pose proof (fix_os_remove _ (hydratedPath fh) s) as Ht.
  destruct (os_remove (hydratedPath fh) s) as [y t]. cbn [snd] in Ht.
  pose proof (f_equal fst Ht) as Hh. pose proof (f_equal snd Ht) as Hf. cbn [fst snd] in Hh, Hf.
  assert (Hst : spared x s0 t) by (by eapply held_eq; [apply Hh|]).
  destruct (rm_failed y).
  - apply IH; [|done]. intros g j Hg. rewrite Hf. apply Hn. by right.
  - unfold cthen. cbn [cmod snd]. apply IH.
    + intros g j Hg. rewrite wholes_detachWhole. case_decide; [done|]. rewrite Hf. apply Hn. by right.
    + apply (spared_detachWhole x i); [done..|]. intros j. rewrite Hf. apply Hn. left.
Qed.
Lemma spares_evictObject i : spares (evictObject i).
Proof.
  intros s Hl. split; [by apply link_evictObject|]. unfold evictObject, cbind, cget, id, tick.
  destruct (objects s !! i) as [o|] eqn:Ho; [|apply spared_refl]. destruct (objectProtected o s) eqn:Hp; [apply spared_refl|].
  set (t := s <| ticks ::= Z.succ |>).
  assert (Hd : spared x s (drop_names (ord_names (ticks s) (elements (refs o))) false t).2).
  { apply (spares_drop_names i); [intros o' Ho'; by simplify_eq| |by apply spared_held].
    intros fh j Hfh Hj. rewrite ord_names_perm, elem_of_elements in Hfh.
    destruct (linked_object s i o fh Hl Ho Hfh) as (f & Hf & Hw). unfold t in Hj. simpl in Hj. rewrite Hf in Hj. simpl in Hj. congruence. }
  destruct (drop_names _ false t) as [[] u]; exact Hd.
Qed.
Lemma spares_evictPart fh : spares (evictPart fh).
Proof.
  intros s Hl. split; [by apply link_evictPart|]. unfold evictPart, cbind, cget, id.
  destruct (parts s !! fh) as [p|] eqn:Hp; [|apply spared_refl]. destruct (partProtected fh s) eqn:Hq; [apply spared_refl|].
  unfold cthen, cmod, cret. cbn [snd]. 
  assert (Hd : spared x s (forgetPart fh p true s).2); [|exact Hd].
  unfold forgetPart. unfold cthen at 1. cbn [cmod snd]. rewrite Hp, bool_decide_eq_true_2 by done.
  match goal with |- spared x s ((?m) ?t).2 => assert (Hm : fixes held_parts m) by
    (apply fix_then; [apply fix_mod; intros u; unfold held_parts; by rewrite guards_upd_file|fixing]);
    apply (held_eq s t); [apply Hm|] end.
  split_and!; [rewrite guards_upd_file; [done|intros f; by destruct (bool_decide _)]|done|done|].
  intros g q Hg Hgp. simpl. rewrite lookup_delete_ne; [done|]. intros ->. by rewrite Hq in Hgp.
Qed.
Lemma spares_evictOne : spares (evictOne x).
Proof.
  unfold evictOne. apply spares_bind; [apply spares_cleanTemp|]. intros []; [apply spares_ret|].
  apply spares_bind; [apply spares_tick|]. intros t. apply spares_read. intros s Hl.
  pose proof (pick_victim_spec x t s) as Hv. destruct (pick_victim x t s) as [[[hot at_] w]|]; [|by apply spares_ret].
  destruct w as [id|i|fh]; [|by apply spares_evictObject|by apply spares_evictPart].
  apply spares_evictBlock; [done|]. intros m Hm. destruct Hv as [Hv _]. simpl in Hv. unfold block_candidate in Hv. rewrite Hm in Hv.
  by destruct (block_protected x id m s).
Qed.
Lemma spares_evictExpired : spares (evictExpired x).
Proof.
  unfold evictExpired. destruct (MaxAge <=? 0); [apply spares_ret|].
  apply spares_bind; [apply spares_get|]. intros cutoff. apply spares_bind; [apply spares_tick|]. intros n.
  apply spares_bind; [apply spares_get|]. intros ids. apply spares_then.
  { apply spares_foreach. intros id. apply spares_read. intros s Hl. unfold Datatypes.id.
    destruct (blocks s !! id) as [m|] eqn:Hm; [|by apply spares_ret].
    destruct (block_protected x id m s) eqn:Hp; [by apply spares_ret|]. destruct (negb _); [by apply spares_ret|].
    unfold cthen, cret. cbn [snd]. apply spares_evictBlock; [done|]. intros m' Hm'; by simplify_eq. }
  apply spares_bind; [apply spares_tick|]. intros n2. apply spares_bind; [apply spares_get|]. intros os. apply spares_then.
  { apply spares_foreach. intros i. apply spares_bind; [apply spares_get|]. intros [o|]; [|apply spares_ret].
    destruct (_ <? _); [|apply spares_ret]. apply spares_then; [apply spares_evictObject|apply spares_ret]. }
  apply spares_bind; [apply spares_tick|]. intros n3. apply spares_bind; [apply spares_get|]. intros ps.
  apply spares_foreach. intros fh. apply spares_bind; [apply spares_get|]. intros [p|]; [|apply spares_ret].
  destruct (_ <? _); [|apply spares_ret]. apply spares_then; [apply spares_evictPart|apply spares_ret].
Qed.
End Spares.

(** ** The loops *)

(** No abandoned temporary, and everything in the index is protected. *)
Definition nothing_to_evict (x : option blockID) (s : cache) : Prop :=
  orphanTemps s = ∅ /\ forall v, candidate x s v = None.

Section Loops.
Context {E : CacheEnv} {Cfg : Options} (x : option blockID).

Definition unlinks_work : Prop := forall n, rm_fault n = false.
Lemma removed : unlinks_work -> forall p s, rm_failed (os_remove p s).1 = false.
Proof.
  intros Hr p s. unfold os_remove, cbind, cthen, tick, cget. rewrite Hr. simpl.
  destruct (_ || _); done.
Qed.
Lemma candidate_held s s' v : held_parts s' = held_parts s -> candidate x s' v = candidate x s v.
Proof.
  intros H. pose proof (f_equal (fun x => x.1.1.1) H) as H1. pose proof (f_equal (fun x => x.1.1.2) H) as H2.
  pose proof (f_equal (fun x => x.1.2) H) as H3. pose proof (f_equal snd H) as H4. unfold held_parts in H1, H2, H3, H4. cbn [fst snd] in *.
  destruct v as [id|i|fh]; simpl.
  - unfold block_candidate. rewrite H2. destruct (blocks s !! id); [|done]. by rewrite (guards_block x id b s s').
  - unfold object_candidate. rewrite H3. destruct (objects s !! i); [|done]. by rewrite (guards_object w s s').
  - unfold part_candidate. rewrite H4. destruct (parts s !! fh); [|done]. by rewrite (guards_protected fh s s').
Qed.
(** Nothing was freed, although names can be unlinked: there was nothing. *)
Lemma evictOne_false s : unlinks_work -> (evictOne x s).1 = false ->
  nothing_to_evict x (evictOne x s).2 /\ exists n, (evictOne x s).2 = s <| ticks := n |>.
Proof.
  intros Hr. unfold evictOne, cbind, cthen, cget. 
  assert (Hc : (cleanTemp s).1 = false -> orphanTemps s = ∅ /\ (cleanTemp s).2 = s <| ticks ::= Z.succ |>).
  { unfold cleanTemp, cbind, tick, cget. cbn [fst snd].
    pose proof (ord_paths_perm (ticks s) (map fst (map_to_list (orphanTemps (s <| ticks ::= Z.succ |>))))) as Hp.
    destruct (ord_paths _ _) as [|p l].
    - intros _. split; [|done]. apply Permutation_nil in Hp. simpl in Hp. apply fmap_nil_inv in Hp.
      by apply map_to_list_empty_iff in Hp.
    - simpl. unfold cbind. pose proof (removed Hr p (s <| ticks ::= Z.succ |>)) as Hm.
      destruct (os_remove p _) as [r t]. cbn [fst] in Hm. rewrite Hm. unfold cthen. simpl. done. }
  destruct (cleanTemp s) as [[] t]; [done|]. destruct (Hc eq_refl) as [Ho Ht]. cbn [snd] in Ht. subst t.
  unfold tick. pose proof (pick_victim_spec x (ticks (s <| ticks ::= Z.succ |>)) (s <| ticks ::= Z.succ |> <| ticks ::= Z.succ |>)) as Hv.
  destruct (pick_victim _ _ _) as [[[hot at_] w]|].
  2: { intros _. split; [split; [exact Ho|exact Hv]|]. by eexists. }
  intros Hf. exfalso. set (t := s <| ticks ::= Z.succ |> <| ticks ::= Z.succ |>) in *. clearbody t. destruct Hv as [Hv _]. simpl in Hv.
  destruct w as [id|i|fh]; simpl in Hv; revert Hf.
  - unfold evictBlock, cbind. pose proof (removed Hr (blockPath id.1 id.2) t) as Hm. destruct (os_remove _ t) as [r u].
    cbn [fst] in Hm. by rewrite Hm.
  - unfold object_candidate in Hv. unfold evictObject, cbind, cget, tick. unfold id at 1 2. destruct (objects t !! i) as [o|]; [|done].
    destruct (bool_decide (refs o = ∅)) eqn:He; [done|]. destruct (objectProtected o t); [done|].
    apply bool_decide_eq_false in He.
    pose proof (ord_names_perm (ticks t) (elements (refs o))) as Hp.
    unfold id. destruct (ord_names _ _) as [|fh l].
    { apply Permutation_nil in Hp. apply elements_empty_inv in Hp. exfalso. apply He. by apply leibniz_equiv. }
    simpl. unfold cbind. pose proof (removed Hr (hydratedPath fh) (t <| ticks ::= Z.succ |>)) as Hm. destruct (os_remove _ _) as [r u].
    cbn [fst] in Hm. rewrite Hm. unfold cthen.
    pose proof (drop_names_true l (cmod (detachWhole fh) u).2) as Hd. destruct (drop_names l true _) as [b u']. cbn [fst] in Hd. by subst b.
  - unfold part_candidate in Hv. unfold evictPart, cbind, cget. unfold id at 1 2. destruct (parts t !! fh) as [p|]; [|done].
    unfold id. by destruct (partProtected fh t).
Qed.

(** What a failed attempt to make room shows. *)
Definition gave_up (over : cache -> bool) (s : cache) : Prop := unlinks_work -> nothing_to_evict x s /\ over s = true.
Definition over_caps (need entries : Z) (s : cache) : bool := overBytes need s || overObjects entries s.

Lemma cap_loop_spec need entries fuel : forall s, linked s -> (evictable s < fuel)%nat ->
  match (cap_loop fuel need entries x s).1 with
  | Ok _ => over_caps need entries (cap_loop fuel need entries x s).2 = false
  | Err e => e = ErrNoSpace /\ gave_up (over_caps need entries) (cap_loop fuel need entries x s).2
  end.
Proof.
  induction fuel as [|fuel IH]; intros s Hl Hf; [lia|]. simpl. unfold cbind, cget.
  destruct (negb (overBytes need s || overObjects entries s)) eqn:Ho; [by apply negb_true_iff in Ho|]. apply negb_false_iff in Ho.
  pose proof (progress_evictOne x (left_to_evict s) s (conj Hl eq_refl)) as Hp. pose proof (link_evictOne x s Hl) as Hl'.
  pose proof (evictOne_false s) as Hstuck. destruct (evictOne x s) as [[] t]; cbn [fst snd] in *.
  - apply IH; [done|]. unfold progress in Hp. pose proof (evictable_left s). pose proof (evictable_left t). lia.
  - split; [done|]. intros Hr. destruct (Hstuck Hr eq_refl) as [Hn [n ->]]. done.
Qed.
(** The error of a loop that watches the free space of a directory. *)
Lemma free_loop_spec dir n fuel : forall s, linked s -> (evictable s < fuel)%nat ->
  match (free_loop fuel dir n x s).1 with
  | Ok _ => True
  | Err ErrNoSpace => unlinks_work -> nothing_to_evict x (free_loop fuel dir n x s).2
  | Err e => e = ErrFreeSpace
  end.
Proof.
  induction fuel as [|fuel IH]; intros s Hl Hf; [lia|]. simpl. unfold cbind, tick, cget.
  destruct (statfs _ _ _) as [free|]; [|done]. destruct (free_enough _ _ _); [done|].
  set (s1 := s <| ticks ::= Z.succ |>).
  pose proof (progress_evictOne x (left_to_evict s1) s1 (conj Hl eq_refl)) as Hp. pose proof (link_evictOne x s1 Hl) as Hl'.
  pose proof (evictOne_false s1) as Hstuck. destruct (evictOne x s1) as [[] t]; cbn [fst snd] in *.
  - apply IH; [done|]. unfold progress in Hp. pose proof (evictable_left s1). pose proof (evictable_left t).
    assert (evictable s1 = evictable s) by done. lia.
  - intros Hr. by apply (Hstuck Hr eq_refl).
Qed.
Lemma spares_cap_loop fuel need entries : spares x (cap_loop fuel need entries x).
Proof.
  induction fuel as [|fuel IH]; simpl; (apply spares_bind; [apply spares_get|]; intros over); (destruct (negb over); [apply spares_ret|]);
    [apply spares_ret|]. apply spares_bind; [apply spares_evictOne|]. intros []; [apply IH|apply spares_ret].
Qed.
Lemma spares_free_loop fuel dir n : spares x (free_loop fuel dir n x).
Proof.
  induction fuel as [|fuel IH]; simpl; (apply spares_bind; [apply spares_tick|]; intros t); (apply spares_bind; [apply spares_get|]; intros d);
    (destruct (statfs t dir d); [|apply spares_ret]); (apply spares_bind; [apply spares_get|]; intros r);
    (destruct (free_enough _ _ _); [apply spares_ret|]); [apply spares_ret|].
  apply spares_bind; [apply spares_evictOne|]. intros []; [apply IH|apply spares_ret].
Qed.
Lemma spares_makeRoomFor need entries diskNeed : spares x (makeRoomFor need entries diskNeed x).
Proof.
  unfold makeRoomFor. apply spares_bind; [apply spares_get|]. intros t. apply spares_bind; [apply spares_get|]. intros expire.
  apply spares_then; [apply spares_held; [|apply keeps_links_mod]; [apply fix_mod|]; intros s; by destruct expire|].
  apply spares_bind; [apply spares_get|]. intros check. apply spares_then; [destruct expire; [apply spares_evictExpired|apply spares_ret]|].
  apply spares_bind; [apply spares_get|]. intros f. apply spares_bind; [apply spares_cap_loop|]. intros [u|e]; [|apply spares_ret].
  destruct check; [|apply spares_ret]. apply spares_bind; [apply spares_get|]. intros f2.
  apply spares_bind; [apply spares_free_loop|]. intros [v|e]; [|apply spares_ret].
  apply spares_then; [|apply spares_ret]. apply spares_held; [fixing|keeping].
Qed.
(** Admission: on success the caps hold with what was asked for added; it is
    refused only when all that is left is protected. *)
Lemma makeRoomFor_spec need entries diskNeed s : linked s -> sized s ->
  let '(r, s') := makeRoomFor need entries diskNeed x s in
  match r with
  | Ok _ => over_caps need entries s' = false
  | Err ErrNoSpace => unlinks_work -> nothing_to_evict x s'
  | Err e => e = ErrFreeSpace
  end.
Proof.
  intros Hl Hs. unfold makeRoomFor, cbind, cthen, cget, cmod. cbn [fst snd].
  set (expire := housekeepEvery <=? now s - lastExpire s). set (s0 := if expire then s <| lastExpire := now s |> else s).
  set (s1 := ((if expire then evictExpired x else cret tt) s0).2).
  assert (Hl0 : linked s0) by (unfold s0; by destruct expire). assert (Hs0 : sized s0) by (unfold s0; by destruct expire).
  assert (Hl1 : linked s1) by (unfold s1; destruct expire; [by apply link_evictExpired|done]).
  assert (Hs1 : sized s1) by (unfold s1; destruct expire; [by apply size_evictExpired|done]). clearbody s1.
  pose proof (cap_loop_spec need entries (S (evictable s1)) s1 Hl1 ltac:(lia)) as Hcap.
  pose proof (link_cap_loop (S (evictable s1)) need entries x s1 Hl1) as Hl2.
  pose proof (size_cap_loop (S (evictable s1)) need entries x s1 Hs1) as Hs2.
  destruct (cap_loop _ need entries x s1) as [[u|e] s2]; cbn [fst snd] in *.
  2: { destruct Hcap as [-> Hg]. intros Hr. by apply (Hg Hr). }
  match goal with |- context [if ?b then _ else _] => destruct b end; [|exact Hcap].
  pose proof (free_loop_spec Dir diskNeed (S (evictable s2)) s2 Hl2 ltac:(lia)) as Hfree.
  assert (Hu : under (total_bytes s2) (total_objects s2) s2) by (split; [done|lia]).
  pose proof (under_free_loop _ _ (S (evictable s2)) Dir diskNeed x s2 Hu) as (_ & Hb & Hn).
  destruct (free_loop _ Dir diskNeed x s2) as [[v|e] s3]; cbn [fst snd] in *; [|by destruct e].
  unfold over_caps, overBytes, overObjects, cret in *. cbn beta iota zeta.
  match goal with |- context [total_bytes ?t] => change (total_bytes t) with (total_bytes s3); change (total_objects t) with (total_objects s3) end.
  lia.
Qed.
End Loops.
