(* ===== verification/CacheRead.v ===== *)
(** * What storing a block does (internal/cache/blockcache.go, whole.go)

    A block that [Put] accepted is the block that [Get] returns: the write goes
    to a fresh file that is renamed into place, and what follows in [Put] leaves
    that file and the entry alone.  [Put] leaves the cache within its caps, and
    makes every job begun on the file's older content stale; a stale job
    publishes nothing.  For files kept sparse the same holds of the file's one
    sparse file and its presence bits. *)
From S2P Require Import Prelude CacheBits CacheState CacheRoom CacheWhole CacheBlocks CacheSub CacheBehind CacheFrame CacheLinks CacheCalls CacheSizes CacheInodes CacheEvict.
Open Scope Z_scope.

(** The block's file holds these bytes; its entry sends readers to the file. *)
Definition file_holds (p : cpath) (data : list Z) (d : disk) : Prop :=
  exists i n, names d !! p = Some i /\ nodes d !! i = Some n /\ n_data n = data.
Definition plain_entry (id : blockID) (len : Z) (s : cache) : Prop :=
  exists m, blocks s !! id = Some m /\ mem m = None /\ bm_partial m = None /\ bm_f m = None /\ bm_size m = len.
Definition stored (id : blockID) (data : list Z) (s : cache) : Prop :=
  file_holds (blockPath id.1 id.2) data (dsk s) /\ plain_entry id (zlen data) s.

Lemma plain_upd_block id j len g s :
  (forall m, mem (g m) = mem m /\ bm_partial (g m) = bm_partial m /\ bm_f (g m) = bm_f m /\ bm_size (g m) = bm_size m) ->
  plain_entry id len s -> plain_entry id len (upd_block j g s).
Proof.
  intros Hg (m & Hm & H1 & H2 & H3 & H4). unfold plain_entry, upd_block. simpl.
  destruct (decide (j = id)) as [->|Hj]; [|exists m; by rewrite lookup_alter_ne].
  exists (g m). rewrite lookup_alter_eq, Hm. destruct (Hg m) as (-> & -> & -> & ->). done.
Qed.

Section Read.
Context {E : CacheEnv} {Cfg : Options}.

(** *** The bytes reach the file *)

Lemma write_fresh p data : triple inodes_fresh (os_write p data) (fun r s => match r with
  | Ok i => names (dsk s) !! p = Some i /\ (exists n, nodes (dsk s) !! i = Some n /\ n_data n = data)
            /\ forall q, names (dsk s) !! q = Some i -> q = p
  | Err _ => True end).
Proof.
  intros s H. unfold os_write, cbind, cthen, tick, cget. destruct (io_fault _); [done|]. simpl.
  rewrite lookup_insert_eq. split_and!; [done|eexists; by rewrite lookup_insert_eq|].
  intros q Hq. apply lookup_insert_Some in Hq as [[<- _]|[_ Hq]]; [done|]. apply H in Hq. simpl in Hq. lia.
Qed.
Lemma rename_holds src dst data i :
  triple (fun s => names (dsk s) !! src = Some i /\ (exists n, nodes (dsk s) !! i = Some n /\ n_data n = data)
                   /\ forall q, names (dsk s) !! q = Some i -> q = src)
    (os_rename src dst) (fun r s => match r with Ok _ => file_holds dst data (dsk s) | Err _ => True end).
Proof.
  intros s (Hs & (n & Hn & Hd) & Hu). unfold os_rename, cbind, cthen, tick, cget. destruct (io_fault _); [done|]. simpl. rewrite Hs.
  case_bool_decide as Hb; [|]; cbn [fst snd].
  - exists i, n. done.
  - exists i, n. simpl. by rewrite lookup_insert_eq.
Qed.
Lemma remove_holds p q data : p <> q -> keeps (fun s => file_holds p data (dsk s)) (os_remove q).
Proof.
  intros Hpq s (i & n & Hp & Hn & Hd). unfold os_remove, cbind, cthen, tick, cget. simpl. destruct (rm_fault _); [by exists i, n|].
  destruct (_ || _); [|by exists i, n]. exists i, n. simpl. by rewrite lookup_delete_ne.
Qed.
Lemma write_text_holds p q b data : keeps (fun s => file_holds p data (dsk s)) (os_write_text q b).
Proof. intros s H. unfold os_write_text, cbind, cthen, tick, cget. by destruct (io_fault _). Qed.
Lemma rename_text_holds p q r data : keeps (fun s => file_holds p data (dsk s)) (os_rename_text q r).
Proof. intros s H. unfold os_rename_text, cbind, cthen, tick, cget. destruct (io_fault _); [done|]. simpl. by destruct (texts _ !! q). Qed.
Lemma rememberKey_holds fh idx k data : keeps (fun s => file_holds (blockPath fh idx) data (dsk s)) (rememberKey k).
Proof.
  unfold rememberKey. apply keeps_bind; [apply write_text_holds|]. intros [u|e]; [|by apply triple_ret].
  apply keeps_bind; [apply rename_text_holds|]. intros [v|e]; [by apply triple_ret|].
  apply keeps_then; [by apply remove_holds|by apply triple_ret].
Qed.

(** *** The entry *)

Instance blocks_blind : Blind blocks.
Proof. by split. Qed.
Lemma keeps_plain {A} id len (m : CM A) : fixes blocks m -> keeps (plain_entry id len) m.
Proof. intros H s (x & Hx). exists x. by rewrite (H s). Qed.
Lemma keeps_stored {A} id data (m : CM A) :
  keeps (fun s => file_holds (blockPath id.1 id.2) data (dsk s)) m -> keeps (plain_entry id (zlen data)) m -> keeps (stored id data) m.
Proof. intros H1 H2 s [Hf Hp]. split; [by apply H1|by apply H2]. Qed.
Lemma keeps_same_dsk p data (g : cache -> cache) : (forall s, dsk (g s) = dsk s) -> keeps (fun s => file_holds p data (dsk s)) (cmod g).
Proof. intros H s Hs. simpl. by rewrite H. Qed.

Lemma note_file_stored id data k size : keeps (stored id data) (note_file k size).
Proof.
  apply keeps_stored.
  - intros s H. unfold note_file, ensureFile, cthen, cbind, cget, cmod, new_ptr, cret. unfold Datatypes.id. simpl. by destruct (files s !! _).
  - apply keeps_plain. unfold note_file, ensureFile. fixing.
Qed.
Lemma inherit_pin_stored id data j : keeps (stored id data) (cmod (inherit_pin j)).
Proof.
  intros s [Hf Hp]. unfold inherit_pin. cbn [cmod snd]. destruct (files s !! j.1) as [f|]; [|done]. destruct (_ || _); [|done].
  split; [done|]. by apply plain_upd_block.
Qed.
Lemma replace_stored id data ptr :
  triple (fun s => file_holds (blockPath id.1 id.2) data (dsk s))
    (cmod (fun s => replace_block id (newMeta ptr (zlen data) (now s)) s)) (fun _ => stored id data).
Proof.
  intros s H. split; [by rewrite <- (dsk_replace_block id (newMeta ptr (zlen data) (now s)) s) in H|].
  eexists. simpl. rewrite lookup_insert_eq. done.
Qed.
Lemma put_stores k idx data size : wholeLayout size = false ->
  triple inodes_fresh (put k idx data size) (fun r s => match r with Ok _ => stored (key_hash k, idx) data s | Err _ => True end).
Proof.
  intros Hw. unfold put. destruct (_ <? _); [by apply triple_ret|]. rewrite Hw.
  set (id := (key_hash k, idx)). set (Q := fun r s => match r with Ok _ => stored id data s | Err _ => True end).
  eapply triple_bind; [apply ino_blockRoom|]. intros [u|e]; [|by apply triple_ret].
  eapply triple_bind; [apply write_fresh|]. intros [i|e]; [|done].
  eapply triple_bind; [apply rename_holds|]. intros [v|e]; [|done].
  apply triple_keep; [intros s H; exact H|]. intros had.
  apply triple_keep; [intros s H; exact H|]. intros ptr.
  eapply triple_then; [apply (replace_stored id)|].
  apply triple_keep; [apply note_file_stored|]. intros remember.
  apply triple_keep_then; [by apply keeps_stored; [apply keeps_same_dsk|apply keeps_plain, fix_mod]|].
  apply triple_keep_then; [apply inherit_pin_stored|].
  apply triple_keep; [by intros s|]. intros complete.
  apply triple_keep_then.
  { destruct remember; [|by apply triple_ret]. apply keeps_stored; [apply rememberKey_holds|apply keeps_plain; fixing]. }
  apply triple_keep_then.
  { destruct had; [|by apply triple_ret]. apply keeps_then; [|by apply triple_ret].
    apply keeps_stored; [by apply remove_holds|apply keeps_plain; fixing]. }
  apply triple_keep_then; [|by apply triple_ret].
  destruct complete; [|by apply triple_ret]. by apply keeps_stored; [apply keeps_same_dsk|apply keeps_plain, fix_mod].
Qed.

(** *** And comes back *)

Lemma touched_part fh idx j s : in_part fh idx s = None -> in_part fh idx (touch_files fh idx (touch_block j s)) = None.
Proof.
  unfold in_part, touch_files. change (files (touch_block j s)) with (files s). change (parts (touch_block j s)) with (parts s).
  destruct (files s !! fh) as [f|] eqn:Hf; [|intros _; change (files (touch_block j s)) with (files s); by rewrite Hf].
  intros H. assert (Hsame : forall t, (files t, parts t) = (files s, parts s) ->
    match files t !! fh, parts t !! fh with
    | Some fs, Some p => if bool_decide (is_Some (fs_part fs)) && hasBlock p idx then Some p else None
    | _, _ => None end = None).
  { intros t [= -> ->]. by rewrite Hf. }
  destruct (fs_part f) as [q|] eqn:Hq.
  - destruct (parts s !! fh) as [p|]; [|apply Hsame; by destruct (whole f)].
    rewrite bool_decide_eq_true_2 in H by (by eexists). simpl in H. destruct (hasBlock p idx); [done|]. apply Hsame. by destruct (whole f).
  - apply Hsame. by destruct (whole f).
Qed.
Lemma touched_stored fh idx id data s : stored id data s -> stored id data (touch_files fh idx (touch_block id s)).
Proof.
  intros [Hf Hp]. assert (Hp' : plain_entry id (zlen data) (touch_block id s)) by (by apply plain_upd_block).
  assert (Hk : blocks (touch_files fh idx (touch_block id s)) = blocks (touch_block id s)
               /\ dsk (touch_files fh idx (touch_block id s)) = dsk s).
  { unfold touch_files. change (files (touch_block id s)) with (files s). change (parts (touch_block id s)) with (parts s).
    destruct (files s !! fh) as [f|]; [|done].
    destruct (whole f), (fs_part f), (parts s !! fh) as [p|]; try done; by destruct (hasBlock p idx). }
  destruct Hk as [Hb Hd]. split; [by rewrite Hd|]. destruct Hp' as (m & Hm). exists m. by rewrite Hb.
Qed.
Lemma pread_all (data : list Z) : pread data 0 (zlen data) = data.
Proof. unfold pread, zlen. rewrite Nat2Z.id. simpl. by apply take_ge. Qed.
(** A read of the block: its bytes, or an error of the operating system. *)
Lemma readBlock_stored k idx data size s : stored (key_hash k, idx) data s -> in_part (key_hash k) idx s = None ->
  (forall b, (readBlock k idx 0 (zlen data) size s).1 = Ok b -> b = data)
  /\ ((forall n, io_fault n = None) -> (readBlock k idx 0 (zlen data) size s).1 = Ok data).
Proof.
  intros [(i & n & Hp & Hn & Hd) (m & Hm & Hmem & Hpart & Hfd & _)] Hin. unfold readBlock.
  destruct (Z.eqb_spec (zlen data) 0) as [Hz|Hz].
  { assert (data = []) as -> by (destruct data; [done|unfold zlen in Hz; simpl in Hz; lia]). split; [by intros b [= <-]|done]. }
  unfold os_open, f_read_at, cbind, cthen, tick, cget, cret, Datatypes.id. simpl. rewrite Hin.
  assert (Hm' : blocks s !! (key_hash k, idx) = Some m) by exact Hm. rewrite Hm', Hpart, Hmem, Hfd. simpl in *. rewrite Hp.
  assert (Hdata : data_of (dsk s) i = data) by (unfold data_of; by rewrite Hn).
  destruct (io_fault (ticks s)) as [c|] eqn:H1; simpl.
  { split; [|intros Hio; by rewrite Hio in H1].
    intros b. unfold forgetBlock, cbind, cget. destruct (blocks _ !! _); done. }
  destruct (io_fault (Z.succ (ticks s))) as [c|] eqn:H2; simpl.
  { split; [|intros Hio; by rewrite Hio in H2].
    intros b. unfold forgetBlock, cbind, cget. destruct (blocks _ !! _); done. }
  rewrite Hdata, pread_all. split; [by intros b [= <-]|done].
Qed.
Lemma get_stored k idx data s : stored (key_hash k, idx) data s -> in_part (key_hash k) idx s = None ->
  (forall b, (Get k idx s).1 = Some b -> b = data) /\ ((forall n, io_fault n = None) -> (Get k idx s).1 = Some data).
Proof.
  intros Hs Hin. pose proof (touched_stored (key_hash k) idx _ _ _ Hs) as Hs1.
  pose proof (touched_part _ _ (key_hash k, idx) _ Hin) as Hin1. unfold Get, locate, cbind, cthen, cget, cmod, cret. simpl.
  unfold Datatypes.id.
  destruct Hs as [_ (m & Hm & _ & Hpart & _ & Hlen)]. assert (Hm' : blocks s !! (key_hash k, idx) = Some m) by exact Hm. rewrite Hm', Hpart, Hlen.
  set (t := touch_files _ _ _) in *. set (size := size_of _ _).
  destruct (readBlock_stored k idx data size t Hs1 Hin1) as [H1 H2].
  destruct (readBlock k idx 0 (zlen data) size t) as [[b|e] u]; cbn [fst] in *.
  - split; [intros b' [= <-]; by apply H1|]. intros Hio. specialize (H2 Hio). by injection H2 as ->.
  - split; [done|]. intros Hio. by specialize (H2 Hio).
Qed.
End Read.

(** ** Within the caps *)

Section Caps.
Context {E : CacheEnv} {Cfg : Options} {HB : GoodOptions}.

(** Room for the new entry in place of the old one is room enough. *)
Lemma replace_total id m s :
  sized s -> mem_bytes m = 0 ->
  total_bytes (replace_block id m s)
    <= total_bytes s + match blocks s !! id with
                       | Some o => if flushing o && bool_decide (is_Some (mem o)) then bm_size m else bm_size m - bm_size o
                       | None => bm_size m end
  /\ total_objects (replace_block id m s)
    <= total_objects s + match blocks s !! id with
                         | Some o => if flushing o && bool_decide (is_Some (mem o)) then 1 else 0
                         | None => 1 end.
Proof.
  intros (Hs & _) Hm. pose proof (blocks_uncharge id s) as Hb.
  assert (Hsize : forall t, blocks t = delete id (blocks s) -> Z.of_nat (size (<[id:=m]> (blocks t))) =
    Z.of_nat (size (blocks s)) + match blocks s !! id with Some _ => 0 | None => 1 end).
  { intros t ->. rewrite map_size_insert, lookup_delete_eq. destruct (blocks s !! id) as [o|] eqn:Ho.
    - pose proof (size_delete_Z (blocks s) id o Ho). lia.
    - rewrite delete_id by done. lia. }
  specialize (Hsize _ Hb). unfold replace_block, total_bytes, total_objects. simpl. rewrite Hsize. clear Hsize Hb.
  destruct (uncharge_rest id s) as (_ & -> & -> & _ & -> & _). unfold uncharge.
  destruct (blocks s !! id) as [o|] eqn:Ho; [|lia]. pose proof (Hs id o Ho) as Hok. unfold entry_ok, mem_bytes in Hok.
  unfold dropBlock. simpl. rewrite Ho. destruct (mem o) as [d|].
  - rewrite (bool_decide_eq_true_2 (is_Some (Some d))) by (by eexists). pose proof (zlen_nonneg d). destruct (flushing o); simpl; lia.
  - rewrite (bool_decide_eq_false_2 (is_Some None)) by (by intros []). destruct (flushing o); simpl; lia.
Qed.
Definition within_caps (s : cache) : Prop :=
  (0 < MaxBytes -> total_bytes s <= MaxBytes) /\ (0 < MaxBlocks -> total_objects s <= MaxBlocks).
Definition settled (s : cache) : Prop := sized s /\ within_caps s.
Lemma keep_settled {A} (m : CM A) : fixes totals m -> keeps settled m.
Proof.
  intros H s [Hs Hc]. destruct (keeps_under (total_bytes s) (total_objects s) m H s) as (Hs' & Hb & Hn); [split; [done|lia]|].
  split; [done|]. destruct Hc as [H1 H2]. split; intros Hp; [specialize (H1 Hp)|specialize (H2 Hp)]; lia.
Qed.
Lemma settled_upd_block id g s : (forall m, bm_size (g m) = bm_size m /\ mem_bytes (g m) = mem_bytes m) -> settled s -> settled (upd_block id g s).
Proof.
  intros Hg [Hs Hc]. split; [apply sized_block; [|done]; intros m; unfold entry_ok; by destruct (Hg m) as [-> ->]|].
  enough (total_objects (upd_block id g s) = total_objects s) as E1.
  { unfold within_caps. rewrite E1. exact Hc. }
  unfold total_objects, upd_block. simpl. destruct (blocks s !! id) as [o|] eqn:Ho; [|by rewrite alter_id].
  rewrite (alter_insert_some _ _ o), map_size_insert_Some by (done || by eexists). done.
Qed.
(** After [blockRoom] for a whole block its entry can be replaced. *)
Lemma blockRoom_settles id n size ptr s : linked s -> sized s -> 0 <= n ->
  match (blockRoom id 0 n size false s).1 with
  | Ok _ => let s1 := (blockRoom id 0 n size false s).2 in
            forall t, stores t = stores s1 -> total_bytes t = total_bytes s1 -> total_objects t = total_objects s1 ->
            settled (replace_block id (newMeta ptr n (now t)) t)
  | Err _ => True
  end.
Proof.
  intros Hl Hs Hn. unfold blockRoom, cbind, cget. simpl.
  pose proof (makeRoomFor_spec (Some id) (block_need id 0 n size false s).1 (block_need id 0 n size false s).2 n s Hl Hs) as Hr.
  pose proof (spares_makeRoomFor (Some id) (block_need id 0 n size false s).1 (block_need id 0 n size false s).2 n s Hl) as [_ (_ & Hkeep & _)].
  pose proof (size_makeRoomFor (block_need id 0 n size false s).1 (block_need id 0 n size false s).2 n (Some id) s Hs) as Hs1.
  destruct (makeRoomFor _ _ _ _ s) as [[u|e] s1]; [|done]. cbn [fst snd] in *. intros t Ht Hb Ho.
  assert (Hst : sized t) by (by eapply sized_stores).
  assert (Hbt : blocks t = blocks s1) by exact (f_equal (fun x => x.1.1.1) Ht).
  split; [by apply sized_replace_block|].
  destruct (replace_total id (newMeta ptr n (now t)) t Hst eq_refl) as [H1 H2]. unfold within_caps, over_caps, overBytes, overObjects in *.
  rewrite Hbt, Hb in H1. rewrite Hbt, Ho in H2. unfold block_need in *. cbn [bm_size newMeta] in *. simpl in Hr.
  destruct (blocks s !! id) as [m|] eqn:Hm.
  - rewrite (Hkeep id m Hm) in H1, H2 by (unfold block_protected, excluded; rewrite bool_decide_eq_true_2 by done; by rewrite orb_true_r).
    destruct (flushing m && bool_decide (is_Some (mem m))); simpl in *; lia.
  - assert (Hx : forall o, blocks s1 !! id = Some o -> 0 <= bm_size o).
    { intros o Ho'. apply entry_nonneg. by apply (proj1 Hs1 id). }
    destruct (blocks s1 !! id) as [o|]; [specialize (Hx o eq_refl); destruct (flushing o && _)|]; simpl in *; lia.
Qed.

Definition room_for (id : blockID) (n : Z) (s : cache) : Prop :=
  forall ptr t, totals t = totals s -> settled (replace_block id (newMeta ptr n (now t)) t).
Lemma keep_room {A} id n (m : CM A) : fixes totals m -> keeps (room_for id n) m.
Proof. intros H s Hs ptr t Ht. apply Hs. by rewrite Ht, (H s). Qed.
Lemma note_file_settled k n : keeps settled (note_file k n).
Proof. apply keep_settled. unfold note_file, ensureFile. fixing. Qed.
Lemma put_settles k idx data n : wholeLayout n = false ->
  triple (fun s => linked s /\ sized s) (put k idx data n) (fun r s => match r with Ok _ => settled s | Err _ => True end).
Proof.
  intros Hw. unfold put. destruct (_ <? _); [by apply triple_ret|]. rewrite Hw. set (id := (key_hash k, idx)).
  apply triple_bind with (Q := fun r s => match r with Ok _ => room_for id (zlen data) s | Err _ => True end).
  { intros s [Hl Hs]. pose proof (fun p => blockRoom_settles id (zlen data) n p s Hl Hs (zlen_nonneg _)) as H.
    destruct (blockRoom _ _ _ _ _ s) as [[u|e] s1]; [|done]. cbn [fst snd] in *. intros ptr t Ht. apply H.
    - exact (f_equal (fun x => x.1.1) Ht).
    - exact (f_equal (fun x => x.1.2) Ht).
    - exact (f_equal snd Ht). }
  intros [u|e]; [|by apply triple_ret].
  apply triple_keep; [apply keep_room; fixing|]. intros [i|e]; [|done].
  apply triple_keep; [apply keep_room; fixing|]. intros [v|e]; [|done].
  apply triple_keep; [by apply keep_room|]. intros had. apply triple_keep; [apply keep_room; fixing|]. intros ptr.
  apply triple_then with (Q := settled); [intros s Hs; by apply Hs|].
  apply triple_keep; [apply note_file_settled|]. intros remember.
  apply triple_keep_then; [by apply keep_settled, fix_mod|].
  apply triple_keep_then.
  { intros s Hs. unfold inherit_pin. cbn [cmod snd]. destruct (files s !! _); [|done]. destruct (_ || _); [|done]. by apply settled_upd_block. }
  apply triple_keep; [by intros s|]. intros complete.
  apply triple_keep_then; [apply keep_settled; destruct remember; fixing|].
  apply triple_keep_then; [apply keep_settled; destruct had; fixing|].
  apply triple_keep_then; [|by apply triple_ret]. destruct complete; [|by apply triple_ret]. by apply keep_settled, fix_mod.
Qed.
End Caps.

(** ** Making room loses sparse files, and adds none *)

Section Shrink.
Context {E : CacheEnv} {Cfg : Options}.
Definition shrinks {A} (m : CM A) : Prop := forall s, parts (m s).2 ⊆ parts s.
Lemma shrinks_bind {A B} (m : CM A) (k : A -> CM B) : shrinks m -> (forall a, shrinks (k a)) -> shrinks (cbind m k).
Proof. intros Hm Hk s. unfold cbind. specialize (Hm s). destruct (m s) as [a t]. etrans; [apply (Hk a)|exact Hm]. Qed.
Lemma shrinks_then {A B} (m : CM A) (k : CM B) : shrinks m -> shrinks k -> shrinks (cthen m k).
Proof. intros Hm Hk s. unfold cthen. etrans; [apply Hk|apply Hm]. Qed.
Lemma shrinks_fix {A} (m : CM A) : fixes parts m -> shrinks m.
Proof. intros H s. by rewrite H. Qed.
Lemma shrinks_foreach {A} (l : list A) (g : A -> CM unit) : (forall x, shrinks (g x)) -> shrinks (cforeach l g).
Proof. intros H. induction l; simpl; [by intros s|]. by apply shrinks_then. Qed.
Lemma shrinks_mod g : (forall s, parts (g s) = parts s) -> shrinks (cmod g).
Proof. intros H s. cbn [cmod snd]. by rewrite H. Qed.
#[local] Instance only_parts_blind : Blind parts.
Proof. by split. Qed.
Ltac shrink_step :=
  match goal with
  | |- shrinks (match ?x with _ => _ end) => destruct x
  | |- shrinks (cret _) => by intros ?
  | |- shrinks (cget _) => by intros ?
  | |- shrinks (os_remove _) => apply shrinks_fix, fix_os_remove; apply _
  | |- shrinks tick => apply shrinks_fix, fix_tick; apply _
  | |- _ => solve [eauto 2]
  | |- shrinks (cbind _ _) => apply shrinks_bind; [|intros ?]
  | |- shrinks (cthen _ _) => apply shrinks_then
  | |- shrinks (cforeach _ _) => apply shrinks_foreach; intros ?
  | |- shrinks (cmod _) => solve [by apply shrinks_mod]
  end.
Ltac shrinking := repeat shrink_step.

Lemma shrink_forgetPart fh p r : shrinks (forgetPart fh p r).
Proof.
  unfold forgetPart. apply shrinks_then; [|shrinking]. intros s. cbn [cmod snd]. unfold upd_file. simpl.
  destruct (parts s !! fh); [|done]. destruct (bool_decide _); [apply delete_subseteq|done].
Qed.
Lemma parts_uncharge id s : parts (uncharge id s) = parts s.
Proof. by destruct (uncharge_rest id s) as (_ & _ & -> & _). Qed.
Hint Resolve shrink_forgetPart : core.
Lemma shrink_cleanTemp : shrinks cleanTemp.
Proof.
  unfold cleanTemp. shrinking. match goal with |- shrinks (cleanTemp_loop ?l) => generalize l end.
  intros l. induction l; simpl; shrinking.
Qed.
Lemma shrink_drop_names l r : shrinks (drop_names l r).
Proof. revert r. induction l; intros r; simpl; shrinking. apply shrinks_mod. intros s. apply parts_detachWhole. Qed.
Hint Resolve shrink_cleanTemp shrink_drop_names : core.
Lemma shrink_evictObject i : shrinks (evictObject i).
Proof. unfold evictObject. shrinking. Qed.
Lemma shrink_evictPart fh : shrinks (evictPart fh).
Proof. unfold evictPart. shrinking. Qed.
Lemma shrink_evictBlock id : shrinks (evictBlock id).
Proof. unfold evictBlock. shrinking. apply shrinks_mod. intros s. apply parts_uncharge. Qed.
Hint Resolve shrink_evictObject shrink_evictPart shrink_evictBlock : core.
Lemma shrink_evictExpired x : shrinks (evictExpired x).
Proof. unfold evictExpired. shrinking. Qed.
Lemma shrink_evictOne x : shrinks (evictOne x).
Proof. unfold evictOne. shrinking. Qed.
Hint Resolve shrink_evictExpired shrink_evictOne : core.
Lemma shrink_cap_loop fuel n e x : shrinks (cap_loop fuel n e x).
Proof. induction fuel; simpl; shrinking. Qed.
Lemma shrink_free_loop fuel dir n x : shrinks (free_loop fuel dir n x).
Proof. induction fuel; simpl; shrinking. Qed.
Hint Resolve shrink_cap_loop shrink_free_loop : core.
Lemma shrink_makeRoomFor a b c x : shrinks (makeRoomFor a b c x).
Proof. unfold makeRoomFor. shrinking. apply shrinks_mod. intros s. by destruct a1. Qed.
Hint Resolve shrink_makeRoomFor : core.
Lemma shrink_blockRoom id o n z p : shrinks (blockRoom id o n z p).
Proof. unfold blockRoom. shrinking. Qed.

(** The sparse file of [fh], if there is one, does not have the block. *)
Definition lacks (fh : string) (idx : Z) (s : cache) : Prop := forall p, parts s !! fh = Some p -> hasBlock p idx = false.
Lemma shrinks_lacks {A} fh idx (m : CM A) : shrinks m -> keeps (lacks fh idx) m.
Proof. intros H s Hs p Hp. apply Hs. by eapply lookup_weaken, H. Qed.
End Shrink.

(** ** A block of a large file comes back *)

Section SparseRead.
Context {E : CacheEnv} {Cfg : Options}.

Lemma pread_pwrite data off bs : pread (pwrite data off bs) off (zlen bs) = bs.
Proof.
  unfold pread, pwrite, zlen. set (o := Z.to_nat off). rewrite Nat2Z.id.
  assert (Hl : length (take o (data ++ replicate (o - length data) 0)) = o).
  { rewrite length_take, length_app, length_replicate. lia. }
  rewrite drop_app_length' by done. by rewrite take_app_length.
Qed.

Context (fh : string) (idx size : Z) (data : list Z).
(** As long as the file has a sparse file, that is open, has the file's length,
    and has the bytes at the block's place. *)
Definition placed (s : cache) : Prop := forall p, parts s !! fh = Some p ->
  (exists i, wp_f p = Some i /\ pread (data_of (dsk s) i) (idx * BlockSize) (zlen data) = data) /\ wp_size p = size.
(** And the file's length is known. *)
Definition sparse_holds (s : cache) : Prop :=
  placed s /\ (is_Some (parts s !! fh) -> forall n, fs_size <$> files s !! fh = Some n -> n = size).

(** It looks at the sparse files, at what they hold and at the file's length. *)
Definition seen (s : cache) := (parts s, nodes (dsk s), fs_size <$> files s !! fh).
Lemma seen_holds s s' : seen s' = seen s -> sparse_holds s -> sparse_holds s'.
Proof.
  intros H Hs. pose proof (f_equal (fun x => x.1.1) H) as E1. pose proof (f_equal (fun x => x.1.2) H) as E2.
  pose proof (f_equal snd H) as E3. unfold seen in E1, E2, E3. cbn [fst snd] in *. unfold sparse_holds, placed, data_of. rewrite E1, E2, E3. apply Hs.
Qed.
Lemma keeps_seen {A} (m : CM A) : fixes seen m -> keeps sparse_holds m.
Proof. intros H s Hs. exact (seen_holds s _ (H s) Hs). Qed.
Lemma seen_f_sync : fixes seen f_sync.
Proof. intros s. unfold f_sync, cbind, tick. by destruct (io_fault _). Qed.
Lemma seen_os_remove p : fixes seen (os_remove p).
Proof. intros s. unfold os_remove, cbind, cthen, tick, cget. simpl. destruct (rm_fault _); [done|]. by destruct (_ || _). Qed.
Lemma seen_os_rename p q : fixes seen (os_rename p q).
Proof.
  intros s. unfold os_rename, cbind, cthen, tick, cget. simpl. destruct (io_fault _); [done|]. destruct (names _ !! p); [|done].
  by case_bool_decide.
Qed.
Lemma seen_write_text p b : fixes seen (os_write_text p b).
Proof. intros s. unfold os_write_text, cbind, cthen, tick, cget. by destruct (io_fault _). Qed.
Lemma seen_rename_text p q : fixes seen (os_rename_text p q).
Proof. intros s. unfold os_rename_text, cbind, cthen, tick, cget. destruct (io_fault _); [done|]. simpl. by destruct (texts _ !! p). Qed.
Lemma seen_writePartBitmap g n b : fixes seen (writePartBitmap g n b).
Proof.
  unfold writePartBitmap. apply fix_bind; [apply seen_write_text|]. intros [u|e]; [|done].
  apply fix_bind; [apply seen_rename_text|]. intros [u'|e]; [done|]. apply fix_then; [apply seen_os_remove|done].
Qed.

(** An open sparse file stays as it is when asked for its descriptor. *)
Lemma partFile_holds ptr : keeps sparse_holds (partFile fh ptr).
Proof.
  intros s H. unfold partFile, cbind, cget. destruct (part_live fh ptr s) as [p|] eqn:Hp; [|done].
  unfold part_live in Hp. destruct (parts s !! fh) as [q|] eqn:Hq; [|done]. case_bool_decide; [|done]. injection Hp as ->.
  destruct (proj1 H p Hq) as [(i & Hi & _) _]. by rewrite Hi.
Qed.
Lemma seen_file s g f : (forall f, fs_size (g f) = fs_size f) -> seen (upd_file f g s) = seen s.
Proof.
  intros Hg. unfold seen, upd_file. simpl. f_equal. destruct (decide (f = fh)) as [->|Hn]; [|by rewrite lookup_alter_ne].
  rewrite lookup_alter_eq. destruct (files s !! fh); simpl; [by rewrite Hg|done].
Qed.
Lemma gone_holds {A} (m : CM A) : shrinks m -> triple (fun s => parts s !! fh = None) m (fun _ => sparse_holds).
Proof.
  intros Hm s Hs. assert (Hn : parts (m s).2 !! fh = None).
  { destruct (parts (m s).2 !! fh) as [p|] eqn:Hp; [|done]. eapply lookup_weaken in Hp; [|apply Hm]. congruence. }
  split; [intros p Hp; congruence|intros [p Hp]; congruence].
Qed.
Lemma shrink_removeFileBlocks g : shrinks (removeFileBlocks g).
Proof.
  assert (Hb : Blind parts) by (by split).
  unfold removeFileBlocks. apply shrinks_bind; [by intros s|]. intros s.
  apply shrinks_then.
  { destruct (files s !! g) as [f|]; [|by intros t]. destruct (fs_part f); [|by intros t].
    destruct (parts s !! g); [apply shrink_forgetPart|by intros t]. }
  apply shrinks_bind; [apply shrinks_fix, fix_tick; done|]. intros n. apply shrinks_bind; [by intros t|]. intros ids.
  apply shrinks_then; [|by apply shrinks_mod]. apply shrinks_foreach. intros id.
  apply shrinks_then; [apply shrinks_mod; intros t; apply parts_uncharge|].
  apply shrinks_then; [by apply shrinks_fix, fix_os_remove|]. apply shrinks_then; [by apply shrinks_fix, fix_os_remove|by intros t].
Qed.
Lemma parts_touchWhole g s : parts (touchWhole g s) = parts s.
Proof. unfold touchWhole. destruct (files s !! g) as [f|]; [|done]. by destruct (whole f). Qed.

(** Completing the file takes it out of the sparse files, or leaves it. *)
Lemma finishPart_holds k ptr : keeps sparse_holds (finishPart k fh ptr).
Proof.
  unfold finishPart. apply keeps_bind; [apply partFile_holds|]. intros [i|[]]; try by apply triple_ret.
  apply keeps_bind; [apply keeps_seen, seen_f_sync|]. intros [u|e]; [|by apply triple_ret].
  apply keeps_bind; [apply keeps_seen, seen_f_sync|]. intros [u'|e]; [|by apply triple_ret].
  apply keeps_bind; [by intros s|]. intros inf. apply triple_read. intros s0. unfold id.
  destruct (part_live fh ptr s0) as [p|] eqn:Hp; [|by apply triple_ret; intros s []].
  destruct (negb _); [by apply triple_ret; intros s []|]. destruct (_ || _); [by apply triple_ret; intros s []|].
  eapply triple_bind with (Q := fun _ s => sparse_holds s /\ parts s = parts s0).
  { intros s [H ->]. split; [by apply (keeps_seen _ (seen_os_rename _ _))|].
    by rewrite (fix_os_rename parts (B := ltac:(by split)) (partPath fh) (hydratedPath fh) s0). }
  intros [w|e]; [|by apply triple_ret; intros s []].
  eapply triple_then with (Q := fun s => parts s = parts s0).
  { intros s [_ <-]. apply (fix_os_remove parts (B := ltac:(by split))). }
  eapply triple_then with (Q := fun s => parts s !! fh = None).
  { intros s Hs. unfold part_live in Hp. unfold forgetPart, cthen, cmod. cbn [snd]. simpl. rewrite Hs.
    destruct (parts s0 !! fh) as [q|] eqn:Hq; [|done]. case_bool_decide as Hb; [|done]. injection Hp as ->.
    rewrite bool_decide_eq_true_2 by done. simpl. rewrite Hs. apply lookup_delete_eq. }
  apply gone_holds. repeat (apply shrinks_then; [apply shrinks_mod; intros s; try done; apply parts_attachWhole || apply parts_touchWhole|]).
  apply shrinks_then; [apply shrink_removeFileBlocks|by intros s].
Qed.
Lemma placed_part g s t : (forall p, wp_f (g p) = wp_f p /\ wp_size (g p) = wp_size p) ->
  parts t = alter g fh (parts s) -> nodes (dsk t) = nodes (dsk s) -> placed s -> placed t.
Proof.
  intros Hg E1 E2 H p. unfold data_of. rewrite E1, E2, lookup_alter_eq. destruct (parts s !! fh) as [q|] eqn:Hq; [|done].
  simpl. intros [= <-]. destruct (Hg q) as [-> ->]. by apply H.
Qed.
Lemma notePartBlock_holds ptr k i n :
  triple (fun s => placed s /\ is_Some (part_live fh ptr s)) (notePartBlock fh ptr k i n) (fun _ => sparse_holds).
Proof.
  unfold notePartBlock. apply triple_read. intros [p|]; [|apply triple_ret; intros s [[_ [q Hq]] Hn]; congruence].
  eapply triple_then with (Q := fun s => placed s /\ wp_size p = size).
  { intros s [[H _] Hp]. unfold part_live in Hp. destruct (parts s !! fh) as [q|] eqn:Hq; [|done]. case_bool_decide; [|done]. injection Hp as ->.
    split; [|exact (proj2 (H p Hq))]. destruct (hasBlock p i); [done|].
    refine (placed_part (fun p => p <| wp_bits ::= p_set i |> <| wp_bytes ::= Z.add n |>) s _ _ _ _ H); done. }
  apply triple_keep; [by intros s|]. intros t.
  apply triple_keep_then.
  { intros s [H Hp]. split; [|done]. refine (placed_part (fun p => p <| wp_access := t |>) s _ _ _ _ H); done. }
  eapply triple_then with (Q := sparse_holds).
  { intros s [H Hp]. split; [exact H|]. intros _ z. unfold upd_file, cmod. cbn [snd]. simpl. rewrite lookup_alter_eq.
    destruct (files s !! fh) as [f|]; simpl; [|done]. intros [= <-]. exact Hp. }
  apply keeps_bind; [by intros s|]. intros [q|]; [|by apply triple_ret]. destruct (p_full _); [by apply triple_ret|].
  destruct (negb _); [by apply triple_ret|]. apply keeps_then; [|by apply triple_ret].
  intros s [H Hf]. split.
  - refine (placed_part (fun x => x <| claimed := p_have (wp_bits x) |> <| claimedAt := t |>) s _ _ _ _ H); done.
  - intros [x Hx] z Hz. apply Hf; [|done]. simpl in Hx. rewrite lookup_alter_eq in Hx. destruct (parts s !! fh); [by eexists|done].
Qed.
Lemma settlePart_holds k ptr i n :
  triple (fun s => placed s /\ is_Some (part_live fh ptr s)) (settlePart k fh ptr i n) (fun _ => sparse_holds).
Proof.
  unfold settlePart. eapply triple_bind; [apply notePartBlock_holds|]. intros r. destruct r.2; [apply finishPart_holds|].
  destruct r.1 as [c|]; [|by apply triple_ret]. unfold persistPart. apply triple_keep; [by intros s|]. intros z.
  apply triple_keep; [apply partFile_holds|]. intros [f|[]]; try by apply triple_ret.
  apply triple_keep; [apply keeps_seen, seen_f_sync|]. intros [u|e]; [|by apply triple_ret].
  apply keeps_seen, seen_writePartBitmap.
Qed.
End SparseRead.

Section SparsePut.
Context {E : CacheEnv} {Cfg : Options}.
Lemma ensureFile_there fh k s : is_Some (files (ensureFile fh k s).2 !! fh).
Proof.
  unfold ensureFile, cbind, cget, id. destruct (files s !! fh) eqn:Hf; simpl; [by rewrite Hf; eexists|].
  rewrite lookup_insert_eq. by eexists.
Qed.

(** [ensurePart] answers with a sparse file of the length asked for. *)
Definition sized_part (fh : string) (ptr n : Z) (s : cache) : Prop := exists p, part_live fh ptr s = Some p /\ wp_size p = n.
Lemma ensurePart_sized k n : triple (fun _ => True) (ensurePart k n)
  (fun r s => match r with Ok ptr => sized_part (key_hash k) ptr n s | Err _ => True end).
Proof.
  unfold ensurePart. apply triple_read. intros [p|].
  - destruct (Z.eqb_spec (wp_size p) n) as [Hn|]; [|by apply triple_ret]. apply triple_ret. intros s [_ Hp]. exists p.
    unfold part_live. by rewrite Hp, bool_decide_eq_true_2.
  - destruct (_ <=? 0); [by apply triple_ret|]. eapply triple_pre with (P' := fun _ => True); [done|].
    apply triple_keep; [by intros s|]. intros t. apply triple_keep; [by intros s|]. intros [i|e]; [|by intros s].
    apply triple_keep; [by intros s|]. intros ptr. apply triple_keep_then; [by intros s|].
    apply triple_then with (Q := sized_part (key_hash k) ptr n); [|by apply triple_ret].
    intros s _. eexists. unfold mount_part, part_live, upd_file, cmod. cbn [snd]. simpl.
    by rewrite lookup_insert_eq, bool_decide_eq_true_2.
Qed.
(** Its descriptor. *)
Lemma partFile_sized fh ptr n : triple (sized_part fh ptr n) (partFile fh ptr)
  (fun r s => match r with Ok i => exists p, part_live fh ptr s = Some p /\ wp_size p = n /\ wp_f p = Some i | Err _ => True end).
Proof.
  intros s (p & Hp & Hsz). unfold partFile, cbind, cget. rewrite Hp. unfold part_live in *.
  destruct (parts s !! fh) as [q|] eqn:Hq; [|done]. case_bool_decide as Hb; [|done]. injection Hp as ->.
  destruct (wp_f p) as [i|] eqn:Hf; [simpl; exists p; by rewrite Hq, bool_decide_eq_true_2|].
  pose proof (fix_os_open parts (B := ltac:(by split)) (partPath fh) s) as Ho.
  destruct (os_open (partPath fh) s) as [[i|e] t]; cbn [fst snd] in *; [|done]. unfold cthen, cmod, cret, upd_part. cbn [fst snd]. simpl.
  rewrite Ho, lookup_alter_eq, Hq. simpl. rewrite bool_decide_eq_true_2 by done. by eexists.
Qed.

(** A Put that stores a block of a large file leaves it in the sparse file, for
    as long as there is one. *)
Lemma putPart_stores k idx data n : zlen data = blockLen idx n ->
  triple (lacks (key_hash k) idx) (putPart k idx data n)
    (fun r s => match r with Ok _ => sparse_holds (key_hash k) idx n data s | Err _ => True end).
Proof.
  intros Hd. unfold putPart. set (fh := key_hash k). destruct (_ <=? 0); [by apply triple_ret|]. rewrite Hd, Z.eqb_refl. simpl.
  apply triple_keep.
  { assert (Hp : fixes parts (holdFile k n)) by (assert (Blind parts) by (by split); unfold holdFile, ensureFile; fixing).
    intros s Hk. unfold lacks. by rewrite (Hp s). }
  intros remember.
  apply triple_bind with (Q := fun r s => match r with Ok _ => sparse_holds fh idx n data s | Err _ => True end).
  2:{ intros [u|e]; [|by intros s]. eapply triple_then with (Q := sparse_holds fh idx n data); [|by apply triple_ret].
      apply keeps_seen, fix_mod. intros s. by apply seen_file. }
  apply triple_bind with (Q := fun h _ => h = false).
  { intros s Hla. cbn [cget fst]. destruct (parts s !! fh) as [p|] eqn:Hp; [by apply Hla|done]. }
  intros have s ->. revert s. cbn beta iota. match goal with |- forall s, match (?m s).1 with _ => _ end => enough (H : triple (fun _ => True) m
    (fun r s => match r with Ok _ => sparse_holds fh idx n data s | Err _ => True end)) by (intros s; by apply H) end.
  apply triple_keep_then; [by intros s|]. apply triple_keep; [by intros s|]. intros [u|e]; [|by apply triple_ret].
  eapply triple_bind; [apply ensurePart_sized|]. intros [ptr|e]; [|by apply triple_ret].
  eapply triple_bind; [apply partFile_sized|]. intros [f|e]; [|by apply triple_ret].
  apply triple_bind with (Q := fun r s => match r with Ok _ => placed fh idx n data s /\ is_Some (part_live fh ptr s) | Err _ => True end).
  { intros s (p & Hp & Hsz & Hf). unfold f_write_at, cbind, tick, cget. destruct (io_fault _); [done|].
    unfold cthen, cret. cbn [fst snd]. split; [|by exists p]. unfold part_live in Hp.
    destruct (parts s !! fh) as [q|] eqn:Hq; [|done]. case_bool_decide; [|done]. injection Hp as ->.
    intros q Hq'. simpl in Hq'. assert (q = p) as -> by congruence.
    split; [|done]. exists f. split; [done|]. unfold data_of. simpl. rewrite lookup_insert_eq. simpl. apply pread_pwrite. }
  intros [v|e]; [|by intros s]. eapply triple_post; [apply settlePart_holds|]. by intros [] s H.
Qed.

(** *** And comes back *)

Lemma get_sparse k idx size data s p : in_part (key_hash k) idx s = Some p -> sparse_holds (key_hash k) idx size data s ->
  zlen data = blockLen idx size ->
  (forall m, blocks s !! (key_hash k, idx) = Some m -> bm_partial m = None -> bm_size m = zlen data) ->
  (forall b, (Get k idx s).1 = Some b -> b = data) /\ ((forall n, io_fault n = None) -> 0 < zlen data -> (Get k idx s).1 = Some data).
Proof.
  intros Hin Hs Hd Hm. set (fh := key_hash k) in *.
  assert (Hp : parts s !! fh = Some p).
  { unfold in_part in Hin. destruct (files s !! fh); [|done]. destruct (parts s !! fh); [|done]. destruct (_ && _); [|done]. congruence. }
  destruct (proj1 Hs p Hp) as [(i & Hi & Hread) Hsz].
  assert (Hso : size_of fh s = size).
  { unfold size_of. unfold in_part in Hin. destruct (files s !! fh) as [f|] eqn:Hf; [|done].
    apply (proj2 Hs); [by exists p|]. by rewrite Hf. }
  set (t := touch_files fh idx (touch_block (fh, idx) s)).
  assert (Ht : exists q, in_part fh idx t = Some q /\ wp_f q = Some i /\ parts t !! fh = Some q /\ dsk t = dsk s).
  { unfold t, touch_files. change (files (touch_block (fh, idx) s)) with (files s). change (parts (touch_block (fh, idx) s)) with (parts s).
    unfold in_part in *. destruct (files s !! fh) as [f|] eqn:Hf; [|done]. rewrite Hp in *.
    destruct (fs_part f) as [r|] eqn:Hr; [|by rewrite bool_decide_eq_false_2 in Hin by (by intros [])].
    destruct (hasBlock p idx) eqn:Hb; [|by rewrite andb_false_r in Hin].
    exists (p <| wp_access := now (touch_block (fh, idx) s) |> <| wp_hot := true |>).
    unfold upd_part. destruct (whole f); simpl; rewrite Hf, lookup_alter_eq, Hp; simpl; rewrite Hr;
      (rewrite bool_decide_eq_true_2 by (by eexists)); simpl; change (hasBlock _ idx) with (hasBlock p idx); rewrite Hb; done. }
  destruct Ht as (q & Hq & Hqf & Hqp & Hdk).
  assert (Hbody : forall z, (readBlock k idx 0 (zlen data) z t).1 = Ok data \/ exists e, (readBlock k idx 0 (zlen data) z t).1 = Err e /\ ~ (forall n, io_fault n = None)).
  { intros z. unfold readBlock. destruct (Z.eqb_spec (zlen data) 0) as [Hz|Hz].
    { left. destruct data; [done|]. unfold zlen in Hz. simpl in Hz. lia. }
    match goal with |- (?m t).1 = _ \/ _ => assert (Hrb : m t = f_read_at i (idx * BlockSize + 0) (zlen data) t) end.
    { unfold cbind at 1, cget at 1. fold fh. unfold Datatypes.id. rewrite Hq.
      unfold partFile, part_live, cbind, cget. by rewrite Hqp, bool_decide_eq_true_2, Hqf by done. }
    rewrite Hrb, Z.add_0_r. unfold f_read_at, cbind, tick, cget. destruct (io_fault (ticks t)) as [c|] eqn:Hio; simpl.
    - right. eexists. split; [done|]. intros Hn. by rewrite Hn in Hio.
    - left. by rewrite Hdk, Hread. }
  assert (Hloc : exists z, (locate k idx s) = (Some (zlen data, z), t) \/ (locate k idx s) = (None, t) /\ zlen data <= 0).
  { unfold locate, cbind, cthen, cget, cmod, cret. unfold Datatypes.id. fold fh. cbn [fst snd]. rewrite Hin.
    rewrite (bool_decide_eq_true_2 (is_Some (Some p))) by (by eexists). rewrite orb_true_r. simpl. rewrite Hso, <- Hd.
    exists size. destruct (Z.leb_spec (zlen data) 0) as [Hz|Hz].
    - destruct (blocks s !! (fh, idx)) as [m|] eqn:Hbm; [|by right]. destruct (bm_partial m) eqn:Hbp; [by right|].
      rewrite (Hm m eq_refl Hbp). by left.
    - left. destruct (blocks s !! (fh, idx)) as [m|] eqn:Hbm; [|done]. destruct (bm_partial m) eqn:Hbp; [done|].
      by rewrite (Hm m eq_refl Hbp). }
  unfold Get, cbind, cthen, cget, cmod, cret. destruct Hloc as [z [->|[-> Hz]]]; [|split; [done|intros _ ?; lia]].
  destruct (Hbody z) as [H|(e & H & Hio)]; destruct (readBlock _ _ _ _ _ t) as [[b|e'] u]; simpl in H; simplify_eq/=.
  - split; [by intros b' [= <-]|done].
  - split; [done|]. intros Hn. by destruct Hio.
Qed.
End SparsePut.

(** ** A block of a large file within the caps *)

Section SparseCaps.
Context {E : CacheEnv} {Cfg : Options} {HB : GoodOptions}.

(** While the file has a sparse file, the cache is within its caps. *)
Definition capped (fh : string) (s : cache) : Prop := is_Some (parts s !! fh) -> within_caps s.
(** What the caps and this look at. *)
Definition counted (s : cache) := (total_bytes s, total_objects s, dom (parts s)).
#[local] Instance counted_blind : Blind counted.
Proof. by split. Qed.
Lemma counted_capped fh s s' : counted s' = counted s -> capped fh s -> capped fh s'.
Proof.
  intros H Hs. pose proof (f_equal (fun x => x.1.1) H) as E1. pose proof (f_equal (fun x => x.1.2) H) as E2.
  pose proof (f_equal snd H) as E3. unfold counted in E1, E2, E3. cbn [fst snd] in *. unfold capped, within_caps.
  rewrite E1, E2, <- elem_of_dom, E3, elem_of_dom. exact Hs.
Qed.
Lemma keeps_capped {A} fh (m : CM A) : fixes counted m -> keeps (capped fh) m.
Proof. intros H s Hs. exact (counted_capped fh s _ (H s) Hs). Qed.
Lemma counted_part fh g s : counted (upd_part fh g s) = counted s.
Proof.
  unfold counted, upd_part, total_bytes, total_objects. simpl. rewrite dom_alter_L.
  enough (size (alter g fh (parts s)) = size (parts s)) as -> by done.
  destruct (parts s !! fh) as [p|] eqn:Hp; [|by rewrite alter_id]. rewrite (alter_insert_some _ _ p) by done.
  apply map_size_insert_Some. by eexists.
Qed.
Lemma counted_partFile fh ptr : fixes counted (partFile fh ptr).
Proof.
  unfold partFile. apply fix_bind; [done|]. intros [p|]; [|done]. destruct (wp_f p); [done|].
  apply fix_bind; [fixing|]. intros [i|e]; [|done]. apply fix_then; [|done]. apply fix_mod. intros s. apply counted_part.
Qed.
Lemma gone_capped {A} fh (m : CM A) : shrinks m -> triple (fun s => parts s !! fh = None) m (fun _ => capped fh).
Proof. intros Hm s Hs [p Hp]. eapply lookup_weaken in Hp; [|apply Hm]. congruence. Qed.

Lemma finishPart_capped k fh ptr : keeps (capped fh) (finishPart k fh ptr).
Proof.
  unfold finishPart. apply keeps_bind; [apply keeps_capped, counted_partFile|]. intros [i|[]]; try by apply triple_ret.
  apply keeps_bind; [apply keeps_capped; fixing|]. intros [u|e]; [|by apply triple_ret].
  apply keeps_bind; [apply keeps_capped; fixing|]. intros [u'|e]; [|by apply triple_ret].
  apply keeps_bind; [by intros s|]. intros inf. apply triple_read. intros s0. unfold id.
  destruct (part_live fh ptr s0) as [p|] eqn:Hp; [|by apply triple_ret; intros s []].
  destruct (negb _); [by apply triple_ret; intros s []|]. destruct (_ || _); [by apply triple_ret; intros s []|].
  eapply triple_bind with (Q := fun _ s => capped fh s /\ parts s = parts s0).
  { intros s [H ->]. split; [by apply (keeps_capped fh (os_rename (partPath fh) (hydratedPath fh)) ltac:(fixing))|].
    by rewrite (fix_os_rename parts (B := ltac:(by split)) (partPath fh) (hydratedPath fh) s0). }
  intros [w|e]; [|by apply triple_ret; intros s []].
  eapply triple_then with (Q := fun s => parts s = parts s0).
  { intros s [_ <-]. apply (fix_os_remove parts (B := ltac:(by split))). }
  eapply triple_then with (Q := fun s => parts s !! fh = None).
  { intros s Hs. unfold part_live in Hp. unfold forgetPart, cthen, cmod. cbn [snd]. simpl. rewrite Hs.
    destruct (parts s0 !! fh) as [q|] eqn:Hq; [|done]. case_bool_decide as Hb; [|done]. injection Hp as ->.
    rewrite bool_decide_eq_true_2 by done. simpl. rewrite Hs. apply lookup_delete_eq. }
  apply gone_capped. repeat (apply shrinks_then; [apply shrinks_mod; intros s; try done; apply parts_attachWhole || apply parts_touchWhole|]).
  apply shrinks_then; [apply shrink_removeFileBlocks|by intros s].
Qed.

(** Room for the block, and for a sparse file if there is none. *)
Definition part_room (fh : string) (n : Z) (s : cache) : Prop :=
  (0 < MaxBytes -> total_bytes s + n <= MaxBytes) /\
  (0 < MaxBlocks -> total_objects s + (if bool_decide (fh ∈ dom (parts s)) then 0 else 1) <= MaxBlocks).
Lemma counted_room fh n s s' : counted s' = counted s -> part_room fh n s -> part_room fh n s'.
Proof.
  intros H Hs. pose proof (f_equal (fun x => x.1.1) H) as E1. pose proof (f_equal (fun x => x.1.2) H) as E2.
  pose proof (f_equal snd H) as E3. unfold counted in E1, E2, E3. cbn [fst snd] in *. unfold part_room. by rewrite E1, E2, E3.
Qed.
Lemma keeps_room {A} fh n (m : CM A) : fixes counted m -> keeps (part_room fh n) m.
Proof. intros H s Hs. exact (counted_room fh n s _ (H s) Hs). Qed.

Lemma notePartBlock_capped fh ptr k idx n : 0 <= n -> triple (part_room fh n) (notePartBlock fh ptr k idx n) (fun _ => capped fh).
Proof.
  intros Hn. assert (Hroom : forall s, part_room fh n s -> capped fh s).
  { intros s [H1 H2] Hp. split; [intros H; specialize (H1 H); lia|intros H; specialize (H2 H)].
    destruct (bool_decide _); lia. }
  unfold notePartBlock. apply triple_read. intros [p|]; [|apply triple_ret; intros s [H _]; by apply Hroom].
  eapply triple_then with (Q := capped fh).
  { intros s [H _]. destruct (hasBlock p idx); [by apply Hroom|]. intros Hp. cbn [cmod snd] in *.
    match goal with |- within_caps (upd_part fh ?g ?t) => pose proof (counted_part fh g t) as Hc end.
    pose proof (f_equal (fun x => x.1.1) Hc) as E1. pose proof (f_equal (fun x => x.1.2) Hc) as E2. unfold counted in E1, E2. cbn [fst snd] in E1, E2.
    unfold within_caps. rewrite E1, E2. destruct H as [H1 H2].
    split; [intros H; specialize (H1 H)|intros H; specialize (H2 H)]; unfold total_bytes, total_objects in *; simpl in *;
      [lia|destruct (bool_decide _); lia]. }
  apply keeps_bind; [by intros s|]. intros t. apply keeps_then; [apply keeps_capped, fix_mod; intros s; apply counted_part|].
  apply keeps_then; [by apply keeps_capped, fix_mod|]. apply keeps_bind; [by intros s|]. intros [q|]; [|by apply triple_ret].
  destruct (p_full _); [by apply triple_ret|]. destruct (negb _); [by apply triple_ret|].
  apply keeps_then; [|by apply triple_ret]. apply keeps_capped, fix_mod. intros s. apply counted_part.
Qed.
Lemma ensurePart_room k size n : triple (part_room (key_hash k) n) (ensurePart k size)
  (fun r s => match r with Ok _ => part_room (key_hash k) n s | Err _ => True end).
Proof.
  unfold ensurePart. apply triple_read. intros [p|]; [destruct (_ =? _); [apply triple_ret; by intros s []|by apply triple_ret]|].
  destruct (_ <=? 0); [by apply triple_ret|].
  apply triple_keep.
  { by intros s. }
  intros t. apply triple_bind with (Q := fun r s => part_room (key_hash k) n s /\ parts s !! key_hash k = None).
  { intros s [H1 H2]. split; [by apply (keeps_room _ _ (sparse_file _ _ _) ltac:(unfold sparse_file; fixing))|].
    by rewrite (ltac:(assert (Blind parts) by (by split); unfold sparse_file; fixing) : fixes parts (sparse_file (key_hash k) size (newPartialTotal BlockSize (BlockCount size)))). }
  intros [i|e]; [|by apply triple_ret].
  apply triple_keep.
  { intros s [H1 H2]. split; [by apply (keeps_room _ _ new_ptr ltac:(fixing))|done]. }
  intros ptr. apply triple_keep_then.
  { intros s [H1 H2]. split; [apply (keeps_room _ _ (ensureFile (key_hash k) noKey) ltac:(unfold ensureFile; fixing) s H1)|].
    rewrite (ltac:(assert (Blind parts) by (by split); unfold ensureFile; fixing) : fixes parts (ensureFile (key_hash k) noKey)). done. }
  apply triple_then with (Q := part_room (key_hash k) n); [|by apply triple_ret].
  intros s [[H1 H2] Hnone]. unfold mount_part, upd_file, cmod, part_room, total_bytes, total_objects in *. cbn [snd]. simpl.
  rewrite map_size_insert_None by done. rewrite dom_insert_L. rewrite (bool_decide_eq_true_2 (key_hash k ∈ {[key_hash k]} ∪ _)) by set_solver.
  rewrite (bool_decide_eq_false_2 (key_hash k ∈ dom (parts s))) in H2 by (by apply not_elem_of_dom).
  split; [exact H1|]. intros H. specialize (H2 H). lia.
Qed.

(** The file is not counted as used less than not at all. *)
Definition uses_counted (fh : string) (s : cache) : Prop := forall f, files s !! fh = Some f -> 0 <= busy f.

Lemma partRoom_room fh n :
  triple (fun s => linked s /\ sized s /\ exists f, files s !! fh = Some f /\ 0 < busy f) (partRoom fh n)
    (fun r s => match r with Ok _ => part_room fh n s | Err _ => True end).
Proof.
  intros s (Hl & Hs & f & Hf & Hb). unfold partRoom, cbind, cget.
  match goal with |- context [makeRoomFor ?a ?b ?c ?x s] =>
    pose proof (makeRoomFor_spec x a b c s Hl Hs) as H; pose proof (spares_makeRoomFor x a b c s Hl) as (_ & _ & _ & _ & HP) end.
  destruct (makeRoomFor _ _ _ _ s) as [[u|e] s1]; [|done]. cbn [fst snd] in *.
  unfold over_caps, overBytes, overObjects in H. unfold part_room.
  assert (He : (if bool_decide (fh ∈ dom (parts s1)) then 0 else 1) <= match parts s !! fh with Some _ => 0 | None => 1 end).
  { destruct (parts s !! fh) as [p|] eqn:Hp; [|by case_bool_decide]. rewrite bool_decide_eq_true_2; [done|].
    apply elem_of_dom. exists p. apply HP; [done|]. unfold partProtected, file_protected. rewrite Hf.
    apply orb_true_iff. right. by apply Z.ltb_lt. }
  split; intros Hm; lia.
Qed.

Lemma putPart_settles k idx data n : zlen data = blockLen idx n ->
  triple (fun s => linked s /\ sized s /\ lacks (key_hash k) idx s /\ uses_counted (key_hash k) s) (putPart k idx data n)
    (fun r s => match r with Ok _ => capped (key_hash k) s | Err _ => True end).
Proof.
  intros Hd. unfold putPart. set (fh := key_hash k). destruct (Z.leb_spec (blockLen idx n) 0) as [|Hpos]; [by apply triple_ret|].
  rewrite Hd, Z.eqb_refl. simpl.
  set (ready := fun s => linked s /\ sized s /\ exists f, files s !! fh = Some f /\ 0 < busy f).
  apply triple_bind with (Q := fun _ s => ready s /\ lacks fh idx s).
  { intros s (Hl & Hs & Hk & Hu). pose proof (link_holdFile k n s Hl) as Hl'. pose proof (size_holdFile k n s Hs) as Hs'.
    assert (Hp : fixes parts (holdFile k n)) by (assert (Blind parts) by (by split); unfold holdFile, ensureFile; fixing).
    specialize (Hp s). split; [split_and!; [done..|]|unfold lacks; by rewrite Hp].
    unfold holdFile, cthen, cbind, cget, cmod, cret. cbn [snd]. simpl. rewrite lookup_alter_eq. fold fh.
    unfold ensureFile, cbind, cget, Datatypes.id. destruct (files s !! fh) as [f|] eqn:Hf; simpl.
    - rewrite Hf. eexists. split; [done|]. simpl. pose proof (Hu f Hf). lia.
    - rewrite lookup_insert_eq. eexists. split; [done|]. simpl. lia. }
  intros remember.
  apply triple_bind with (Q := fun r s => match r with Ok _ => capped fh s | Err _ => True end).
  2:{ intros [u|e]; [|by intros s]. eapply triple_then with (Q := capped fh); [by apply keeps_capped, fix_mod|by apply triple_ret]. }
  apply triple_bind with (Q := fun h s => h = false /\ ready s).
  { intros s [Hr Hla]. split; [|done]. cbn [cget fst]. destruct (parts s !! fh) as [p|] eqn:Hp; [by apply Hla|done]. }
  intros have s [-> Hr]. revert s Hr. cbn beta iota. match goal with |- forall s, _ -> match (?m s).1 with _ => _ end => enough (H : triple ready m
    (fun r s => match r with Ok _ => capped fh s | Err _ => True end)) by exact H end.
  apply triple_keep_then.
  { destruct remember; [|by apply triple_ret]. intros s (Hl & Hs & Hf). assert (Blind files) by (by split). split_and!.
    - apply keeps_linked; [fixing|done].
    - by apply keeps_sized; [fixing|].
    - by rewrite (fix_rememberKey files k s). }
  eapply triple_bind; [apply partRoom_room|]. intros [u|e]; [|by apply triple_ret].
  eapply triple_bind; [apply ensurePart_room|]. intros [ptr|e]; [|by apply triple_ret].
  apply triple_keep; [apply keeps_room, counted_partFile|]. intros [f|e]; [|by apply triple_ret].
  apply triple_keep; [apply keeps_room; fixing|]. intros [v|e]; [|by apply triple_ret].
  eapply triple_post with (Q := fun _ => capped fh); [|by intros [] s H].
  unfold settlePart. eapply triple_bind; [apply notePartBlock_capped; lia|]. intros r. destruct r.2; [apply finishPart_capped|].
  destruct r.1 as [c|]; [|by apply triple_ret]. unfold persistPart. apply keeps_bind; [by intros s|]. intros z.
  apply keeps_bind; [apply keeps_capped, counted_partFile|]. intros [g|[]]; try by apply triple_ret.
  apply keeps_capped. fixing.
Qed.
End SparseCaps.

(** ** Content that changed under a job *)

Section Stale.
Context {E : CacheEnv} {Cfg : Options}.

Definition late (j : job) (s : cache) : Prop := begun j s /\ job_stale j s = true.
Lemma keep_begun {A} j (m : CM A) : grows m -> keeps (begun j) m.
Proof. intros H s Hs. by eapply begun_older. Qed.
Lemma keep_late {A} j (m : CM A) : grows m -> keeps (late j) m.
Proof. intros H s [Hb Hs]. split; [by eapply begun_older|by eapply stale_older]. Qed.
(** Raising the generation of the file makes the job late. *)
Lemma bump_late j f g s : begun j s -> files s !! key_hash (j_key j) = Some f ->
  (forall f, fs_ptr (g f) = fs_ptr f /\ generation (g f) = Z.succ (generation f)) -> late j (upd_file (key_hash (j_key j)) g s).
Proof.
  intros Hb Hf Hg. split.
  - eapply begun_older; [|exact Hb]. apply older_upd_file. intros f'. destruct (Hg f') as [-> ->]. split; [done|lia].
  - unfold job_stale, upd_file. simpl. rewrite lookup_alter_eq, Hf. simpl. destruct (Hg f) as [Hp Hn]. rewrite Hp, Hn.
    destruct Hb as [_ Hb]. specialize (Hb f Hf).
    destruct (Z.eqb_spec (fs_ptr f) (j_file j)) as [He|]; [specialize (Hb He)|by rewrite orb_true_r].
    destruct (Z.eqb_spec (Z.succ (generation f)) (j_generation j)); [lia|by rewrite orb_true_r].
Qed.
(** The bookkeeping of a new block does. *)
Lemma note_file_late j n : triple (begun j) (note_file (j_key j) n) (fun _ => late j).
Proof.
  intros s Hb. unfold note_file, cthen, cbind, cget, cmod, cret. cbn [snd].
  set (s1 := (ensureFile (key_hash (j_key j)) (j_key j) s).2).
  destruct (ensureFile_there (key_hash (j_key j)) (j_key j) s) as [f Hf]. fold s1 in Hf.
  assert (Hb1 : begun j s1) by (eapply begun_older; [apply ver_ensureFile|done]). by apply (bump_late j f).
Qed.

(** The links hold whatever jobs, flights and leases there are. *)
Lemma linked_op {A} (m : CM A) s : keeps linked m -> linked (sc s) -> linked (sc (runs_op m s)).
Proof. intros Hm. apply Hm. Qed.
Lemma linked_step c s : linked (sc s) -> linked (sc (cstep c s)).
Proof.
  intros H. destruct c; try (apply linked_op; [|done]).
  - apply link_ReadAt. - apply link_Get. - apply link_Has. - apply link_HasRange. - apply link_HydratedPath.
  - apply link_put. - apply link_PutAsync. - apply link_PutRange.
  - cbn [cstep]. pose proof (link_dequeue (sc s) H) as H1. destruct (dequeue (sc s)) as [[id|] c1]; [|done].
    pose proof (link_flush_begin id c1 H1) as H2. by destruct (flush_begin id c1).
  - cbn [cstep]. destruct (flights s !! n) as [f|]; [|done]. by apply (link_flush_end f).
  - apply link_sweepClaims. - apply link_hydrateDue.
  - cbn [cstep]. pose proof (link_hydrate_begin k (sc s) H) as H1. by destruct (hydrate_begin k (sc s)) as [[[j|]|e] c1].
  - cbn [cstep]. destruct (hydrations s !! n) as [j|]; [|done]. destruct (bool_decide _); [|done].
    pose proof (link_hydrate_copy j (sc s) H) as H1. by destruct (hydrate_copy j (sc s)) as [[[j'|]|e] c1].
  - cbn [cstep]. destruct (hydrations s !! n) as [j|]; [|done]. destruct (bool_decide _); [done|]. by apply link_hydrate_publish.
  - cbn [cstep]. pose proof (link_putWhole_begin k size (sc s) H) as H1. by destruct (putWhole_begin k size (sc s)) as [[j|e] c1].
  - cbn [cstep]. destruct (streams s !! n) as [j|]; [|done]. destruct (bool_decide _); [|done].
    pose proof (link_putWhole_copy j r failed (sc s) H) as H1. by destruct (putWhole_copy j r failed (sc s)) as [[j'|e] c1].
  - cbn [cstep]. destruct (streams s !! n) as [j|]; [|done]. destruct (bool_decide _); [done|]. by apply link_putWhole_publish.
  - apply link_remembered, link_installWhole. - apply link_remembered, link_installWhole. - apply link_remembered, link_installWhole.
  - cbn [cstep]. pose proof (link_OpenWhole k (sc s) H) as H1. by destruct (OpenWhole k (sc s)) as [[[i o]|e] c1].
  - cbn [cstep]. destruct (leases s !! n) as [o|]; [|done]. by apply link_closeWhole.
  - apply link_Pin. - apply link_SetUserPin. - apply link_Forget. - apply link_forgetFile. - apply link_GC.
  - cbn [cstep]. pose proof (link_ReserveDisk dir n (sc s) H) as H1. by destruct (ReserveDisk dir n (sc s)) as [[u|e] c1].
  - cbn [cstep]. destruct (reservations s !! n) as [w|]; [|done]. by apply link_releaseDisk.
  - apply link_close_begin.
  - cbn [cstep]. destruct (_ && _); [|done]. by apply link_close_end.
  - exact H.
  - cbn [cstep]. by case_bool_decide.
Qed.
Lemma linked_calls l s : linked (sc s) -> linked (sc (run_calls l s)).
Proof. revert s. induction l as [|c l IH]; intros s H; [done|]. apply IH. by apply linked_step. Qed.
Lemma starts_linked k c j c' : linked c -> starts k c j c' -> linked c'.
Proof.
  intros Hl [[size H]|H]; [pose proof (link_putWhole_begin k size c Hl) as Hl'|pose proof (link_hydrate_begin k c Hl) as Hl'];
    by rewrite H in Hl'.
Qed.

(** *** A block of a large file *)

(** The file is known, and its sparse file is the one of the number. *)
Definition mounted (fh : string) (ptr : Z) (s : cache) : Prop := is_Some (part_live fh ptr s) /\ is_Some (files s !! fh).
Definition known_file (j : job) (s : cache) : Prop := begun j s /\ linked s /\ is_Some (files s !! key_hash (j_key j)).
Definition known_part (j : job) (ptr : Z) (s : cache) : Prop := begun j s /\ mounted (key_hash (j_key j)) ptr s.
#[local] Instance file_parts_blind : Blind (fun s => (files s, parts s)).
Proof. by split. Qed.
Lemma keep_known_part {A} j ptr (m : CM A) : grows m -> fixes (fun s => (files s, parts s)) m -> keeps (known_part j ptr) m.
Proof.
  intros Hg Hf s [Hb [Hp Hi]]. specialize (Hf s). injection Hf as E1 E2. split; [by eapply begun_older|].
  unfold mounted, part_live. by rewrite E1, E2.
Qed.
Lemma partFile_known j ptr : keeps (known_part j ptr) (partFile (key_hash (j_key j)) ptr).
Proof.
  intros s [Hb [Hp Hi]]. split; [eapply begun_older; [apply ver_partFile|done]|]. clear Hb.
  unfold partFile, cbind, cget. destruct Hp as [p Hp]. rewrite Hp. destruct (wp_f p); [by split; [eexists|]|].
  assert (Ho : fixes (fun s => (files s, parts s)) (os_open (partPath (key_hash (j_key j))))) by fixing. specialize (Ho s).
  destruct (os_open _ s) as [[i|e] t]; cbn [fst snd] in *; injection Ho as E1 E2; unfold mounted, part_live, upd_part, cthen, cmod, cret in *;
    cbn [snd] in *; simpl; rewrite ?E1, ?E2; [|by split; [eexists|]].
  rewrite lookup_alter_eq. destruct (parts s !! _) as [q|]; [|done]. simpl. split; [|done]. revert Hp. simpl.
  case_bool_decide; [intros _; by eexists|done].
Qed.
Lemma ensurePart_known j n : triple (known_file j) (ensurePart (j_key j) n)
  (fun r s => match r with Ok ptr => known_part j ptr s | Err _ => True end).
Proof.
  unfold ensurePart. apply triple_read. intros [p|].
  - destruct (wp_size p =? n); [|by apply triple_ret]. apply triple_ret. intros s [(Hb & _ & Hi) Hp]. split; [done|].
    split; [|done]. unfold part_live. rewrite Hp, bool_decide_eq_true_2 by done. by eexists.
  - destruct (_ <=? 0); [by apply triple_ret|]. eapply triple_pre; [intros s [H _]; exact H|].
    assert (Hk : forall A (m : CM A), grows m -> fixes (fun s => (files s, objects s)) m -> keeps (known_file j) m).
    { intros A m Hg Hf s (Hb & Hl & Hi). destruct (keeps_has_file (key_hash (j_key j)) m Hf s (conj Hl Hi)).
      split_and!; [by eapply begun_older|done|done]. }
    assert (Hfo : Blind (fun s : cache => (files s, objects s))) by (by split).
    apply triple_keep; [by intros s|]. intros t. apply triple_keep.
    { apply Hk; [apply ver_sparse_file|unfold sparse_file; fixing]. }
    intros [i|e]; [|done]. apply triple_keep; [apply Hk; [apply ver_new_ptr|fixing]|]. intros ptr.
    apply triple_then with (Q := known_file j).
    { intros s (Hb & Hl & Hi). split_and!; [eapply begun_older; [apply ver_ensureFile|done]|by apply (keeps_linked _ (fix_ensureFile _ _))|
        apply ensureFile_there]. }
    apply triple_then with (Q := known_part j ptr); [|by apply triple_ret].
    intros s (Hb & Hl & Hi). split; [eapply begun_older; [apply ver_mount_part|done]|].
    unfold mount_part, upd_file, cmod. cbn [snd]. split.
    + unfold part_live. simpl. rewrite lookup_insert_eq. simpl. rewrite bool_decide_eq_true_2 by done. by eexists.
    + simpl. by apply lookup_alter_is_Some.
Qed.
Lemma notePartBlock_late j ptr k idx n :
  triple (known_part j ptr) (notePartBlock (key_hash (j_key j)) ptr k idx n) (fun _ => late j).
Proof.
  unfold notePartBlock. apply triple_read. intros [p|]; [|apply triple_ret; intros s [[_ [[q Hq] _]] Hn]; congruence].
  eapply triple_pre; [intros s [H _]; exact H|].
  apply triple_then with (Q := fun s => begun j s /\ is_Some (files s !! key_hash (j_key j))).
  { intros s [Hb [_ Hi]]. destruct (hasBlock p idx); [done|]. split; [by eapply begun_older, Hb; apply older_same|done]. }
  apply triple_keep; [by intros s|]. intros t. apply triple_keep_then.
  { intros s [Hb Hi]. split; [by eapply begun_older, Hb; apply older_same|done]. }
  apply triple_then with (Q := late j).
  { intros s [Hb [f Hf]]. by apply (bump_late j f). }
  apply triple_keep; [by intros s|]. intros [q|]; [|by apply triple_ret]. destruct (p_full _); [by apply triple_ret|].
  destruct (negb _); [by apply triple_ret|]. apply triple_keep_then; [|by apply triple_ret].
  apply keep_late. intros s. by apply older_same.
Qed.
Lemma putPart_makes_late j idx data n :
  zlen data = blockLen idx n ->
  triple (fun s => begun j s /\ linked s /\ lacks (key_hash (j_key j)) idx s) (putPart (j_key j) idx data n)
    (fun r s => match r with Ok _ => late j s | Err _ => True end).
Proof.
  intros Hd. unfold putPart. destruct (_ <=? 0); [by apply triple_ret|]. rewrite Hd, Z.eqb_refl. simpl.
  apply triple_bind with (Q := fun _ s => known_file j s /\ lacks (key_hash (j_key j)) idx s).
  { intros s (Hb & Hl & Hk). pose proof (ver_holdFile (j_key j) n s) as Hv. pose proof (link_holdFile (j_key j) n s Hl) as Hl'.
    assert (Hp : fixes parts (holdFile (j_key j) n)).
    { assert (Blind parts) by (by split). unfold holdFile, ensureFile. fixing. }
    specialize (Hp s). split; [split_and!; [by eapply begun_older|done|]|unfold lacks; by rewrite Hp].
    unfold holdFile, cthen, cbind, cget, cmod, cret. cbn [snd]. simpl. apply lookup_alter_is_Some, ensureFile_there. }
  intros remember.
  apply triple_bind with (Q := fun r s => match r with Ok _ => late j s | Err _ => True end).
  2:{ intros [u|e]; [|done]. eapply triple_then with (Q := late j); [|by apply triple_ret].
      apply keep_late. unfold releaseFile. apply grows_file. intros f. simpl. split; [done|lia]. }
  apply triple_bind with (Q := fun h s => h = false /\ known_file j s).
  { intros s [Hk Hla]. split; [|done]. cbn [cget fst]. destruct (parts s !! _) as [p|] eqn:Hp; [by apply Hla|done]. }
  intros have s [-> Hk]. revert s Hk. change (triple (known_file j)
    (do+ (if remember then rememberKey (j_key j) else cret tt);
     try+ _u := partRoom (key_hash (j_key j)) (blockLen idx n) in
     try+ ptr := ensurePart (j_key j) n in
     try+ f := partFile (key_hash (j_key j)) ptr in
     try+ _v := f_write_at f (idx * BlockSize) data in
     settlePart (j_key j) (key_hash (j_key j)) ptr idx (blockLen idx n))
    (fun r s => match r with Ok _ => late j s | Err _ => True end)).
  apply triple_keep_then.
  { destruct remember; [|by apply triple_ret]. intros s (Hb & Hl & Hi).
    assert (Hfo : Blind (fun s : cache => (files s, objects s))) by (by split).
    destruct (keeps_has_file (key_hash (j_key j)) (rememberKey (j_key j)) ltac:(fixing) s (conj Hl Hi)).
    split_and!; [eapply begun_older; [apply ver_rememberKey|done]|done|done]. }
  apply triple_keep.
  { intros s (Hb & Hl & Hi). unfold partRoom, cbind, cget.
    match goal with |- context [makeRoomFor ?a ?b ?c ?x s] =>
      pose proof (spares_makeRoomFor x a b c s Hl) as (Hl' & HG & _); pose proof (ver_makeRoomFor a b c x s) as Hv end.
    split_and!; [by eapply begun_older|done|]. pose proof (f_equal (fun m => m !! key_hash (j_key j)) HG) as Hg. unfold guards in Hg.
    rewrite !lookup_fmap in Hg. destruct Hi as [f Hf]. rewrite Hf in Hg. by destruct (files _ !! _) in Hg |- *. }
  intros [u|e]; [|by apply triple_ret].
  eapply triple_bind; [apply ensurePart_known|]. intros [ptr|e]; [|by apply triple_ret].
  apply triple_keep; [apply partFile_known|]. intros [f|e]; [|done].
  apply triple_keep; [apply keep_known_part; [apply ver_f_write_at|fixing]|]. intros [v|e]; [|done].
  unfold settlePart. eapply triple_bind; [apply notePartBlock_late|]. intros r.
  eapply triple_post with (Q := fun _ => late j); [|by intros [] s H].
  destruct r.2; [apply keep_late, ver_finishPart|]. destruct r.1; [apply keep_late, ver_persistPart|by apply triple_ret].
Qed.

(** What a Put or PutAsync must find to store the block: of a large file, the
    sparse file without it, and all of its bytes. *)
Definition adds (k : FileKey) (idx : Z) (data : list Z) (n : Z) (s : cache) : Prop :=
  wholeLayout n = true -> zlen data = blockLen idx n /\ lacks (key_hash k) idx s.
Lemma shrinks_adds {A} k idx data n (m : CM A) : shrinks m -> keeps (adds k idx data n) m.
Proof. intros H s Hs Hw. destruct (Hs Hw). split; [done|]. by apply shrinks_lacks. Qed.

Lemma put_makes_late j idx data n :
  triple (fun s => begun j s /\ linked s /\ adds (j_key j) idx data n s) (put (j_key j) idx data n)
    (fun r s => match r with Ok _ => late j s | Err _ => True end).
Proof.
  unfold put. destruct (_ <? _); [by apply triple_ret|]. destruct (wholeLayout n) eqn:Hw.
  { intros s (Hb & Hl & Ha). destruct (Ha Hw) as [Hd Hla]. by apply (putPart_makes_late j idx data n Hd). }
  eapply triple_pre; [intros s [H _]; exact H|].
  apply triple_keep; [apply keep_begun, ver_blockRoom|]. intros [u|e]; [|by apply triple_ret].
  apply triple_keep; [apply keep_begun, ver_os_write|]. intros [i|e]; [|done].
  apply triple_keep; [apply keep_begun, ver_os_rename|]. intros [v|e]; [|done].
  apply triple_keep; [by intros s|]. intros had. apply triple_keep; [apply keep_begun, ver_new_ptr|]. intros ptr.
  apply triple_keep_then; [apply keep_begun, (grows_replace_block _ (fun s => newMeta ptr (zlen data) (now s)))|].
  eapply triple_bind; [apply note_file_late|]. intros remember.
  apply triple_keep_then; [apply keep_late, grows_add_present|].
  apply triple_keep_then; [apply keep_late, ver_inherit_pin|].
  apply triple_keep; [by intros s|]. intros complete.
  apply triple_keep_then; [destruct remember; [apply keep_late, ver_rememberKey|by apply triple_ret]|].
  apply triple_keep_then; [destruct had; [apply keep_late, grows_seq; [apply ver_os_remove|]; intros s; by apply older_same|by apply triple_ret]|].
  apply triple_keep_then; [destruct complete; [apply keep_late, ver_scheduleHydrate|by apply triple_ret]|by apply triple_ret].
Qed.
Lemma PutAsync_makes_late j idx data n :
  triple (fun s => begun j s /\ linked s /\ adds (j_key j) idx data n s) (PutAsync (j_key j) idx data n)
    (fun r s => match r with Ok _ => late j s | Err _ => True end).
Proof.
  unfold PutAsync. destruct (_ <? _); [apply put_makes_late|].
  apply triple_keep.
  { intros s (Hb & Hl & Ha). split_and!; [by apply (keep_begun j _ (ver_blockRoom _ _ _ _ _))|by apply link_blockRoom|
      by apply (shrinks_adds _ _ _ _ _ (shrink_blockRoom _ _ _ _ _))]. }
  intros [u|e]; [|by apply triple_ret]. apply triple_keep; [by intros s|]. intros s0.
  destruct (_ || _); [apply put_makes_late|]. eapply triple_pre; [intros s [H _]; exact H|].
  apply triple_keep; [apply keep_begun, ver_new_ptr|]. intros ptr.
  apply triple_keep_then; [apply keep_begun, (grows_replace_block _ (fun s => (newMeta ptr (zlen data) (now s)) <| mem := Some data |>))|].
  eapply triple_bind; [apply note_file_late|]. intros remember.
  eapply triple_post with (Q := fun _ => late j); [|by intros [] s H].
  apply keeps_then; [apply keep_late, grows_add_present|]. apply keeps_then; [apply keep_late, ver_inherit_pin|].
  apply keeps_then; [apply keep_late, ver_start_queue|].
  apply keeps_then; [destruct remember; [apply keep_late, ver_rememberKey|by apply triple_ret]|].
  apply keeps_bind; [apply keep_late, ver_enqueue|]. intros [].
  { apply keeps_then; by apply triple_ret. }
  apply keeps_then; [|by apply triple_ret]. apply keeps_bind; [apply keep_late, ver_flush_begin|].
  intros [f|]; [apply keep_late, ver_flush_end|by apply triple_ret].
Qed.

Lemma end_job_leaves j tmp s : j_temp j = Some tmp ->
  links (end_job j false s).2 = links s /\ objects (end_job j false s).2 = objects s
  /\ (forall p, p <> tmp -> names (dsk (end_job j false s).2) !! p = names (dsk s) !! p)
  /\ reservedBytes (end_job j false s).2 = reservedBytes s - j_size j.
Proof.
  intros Ht. unfold end_job, cthen. rewrite Ht. unfold unreserve, unhold, cmod. cbn [snd]. simpl.
  set (d := (discardTemp tmp s).2).
  assert (H : links d = links s /\ objects d = objects s /\ (forall p, p <> tmp -> names (dsk d) !! p = names (dsk s) !! p)
              /\ reservedBytes d = reservedBytes s).
  { unfold d, discardTemp, cbind, cthen, cmod, cret.
    assert (Hn : forall p, p <> tmp -> names (dsk (os_remove tmp s).2) !! p = names (dsk s) !! p).
    { intros p Hp. unfold os_remove, cbind, cthen, tick, cget, on_disk, cmod. simpl. destruct (rm_fault _); [done|].
      destruct (_ || _); [|done]. simpl. by rewrite lookup_delete_ne. }
    pose proof (fix_os_remove links tmp s) as Hl. pose proof (fix_os_remove objects (B := ltac:(by split)) tmp s) as Ho.
    pose proof (fix_os_remove reservedBytes (B := ltac:(by split)) tmp s) as Hr.
    destruct (os_remove tmp s) as [r s1]. cbn [snd] in *. destruct (negb (rm_failed r)); [done|].
    assert (Hs : exists t, (os_stat tmp s1).2 = s1 <| ticks := t |>).
    { unfold os_stat, cbind, tick, cget. simpl. destruct (io_fault _); [by eexists|]. destruct (file_at _ _) as [[i n]|]; by eexists. }
    destruct Hs as [t Hs]. destruct (os_stat tmp s1) as [[inf|e] s2]; cbn [snd] in *; subst s2; done. }
  destruct H as (H1 & H2 & H3 & H4). split_and!; [|done|done|lia].
  rewrite <- H1. apply links_upd_file. intros f. by destruct (bool_decide _).
Qed.
End Stale.
