(* ===== verification/CacheProps.v ===== *)
(** * The guarantees of the read cache

    What its users rely on, in every state a run of calls can reach, under any
    failures of the operating system; each followed by an instance on a small
    concrete cache.  At the end, two runs in which it serves zeros. *)
From S2P Require Import Prelude CacheBits CacheState CacheRoom CacheWhole CacheBlocks CacheSub CacheBehind CacheFrame CacheLinks CacheCalls CacheSizes CacheInodes CacheEvict CacheRead.
Open Scope Z_scope.

Section Guarantees.
Context {E : CacheEnv} {Cfg : Options}.

Lemma linked_run l d t : linked (sc (run_calls l (boot d t))).
Proof. apply (balanced_run l), balanced_boot. Qed.
Lemma ptrs_run l d t : ptrs_ok (sc (run_calls l (boot d t))).
Proof. eapply ptrs_older; [apply older_run|apply ptrs_boot]. Qed.

(** C16: after any run of calls from any directory, whatever fails, each counter
    the caps are enforced with is the sum it stands for (the sizes of the
    blocks, of the complete files counted once each, of the sparse files, of
    the abandoned temporaries, and the open descriptors), what is reserved
    belongs to the jobs and writers that have not returned it, and the names a
    complete file lists are exactly the files that point to it. *)
Theorem cache_accounts (l : list ccall) (d : disk) (t : Z) :
  let s := run_calls l (boot d t) in
  let c := sc s in
  bytes c = msum bm_size (blocks c) /\ wholeBytes c = msum o_size (objects c)
  /\ partBytes c = msum wp_bytes (parts c) /\ orphanBytes c = msum id (orphanTemps c)
  /\ openPartials c = msum opens (blocks c)
  /\ reservedBytes c = lsum j_size (jobs s) /\ reservedEntries c = Z.of_nat (length (jobs s))
  /\ writeReserved c = lsum id (reservations s)
  /\ forall fh i, files c !! fh ≫= whole = Some i <-> exists o, objects c !! i = Some o /\ fh ∈ refs o.
Proof.
  destruct (balanced_run l (boot d t) (balanced_boot d t)) as [Hd Hl]. cbv zeta.
  unfold defect, owed in Hd. injection Hd as H1 H2 H3 H4 H5 H6 H7 H8. split_and!; [lia..|].
  intros fh i. specialize (Hl fh i). unfold links in Hl. simpl in Hl. rewrite lookup_omap in Hl. rewrite Hl.
  setoid_rewrite lookup_fmap. split.
  - intros (r & Hr & Hin). destruct (objects _ !! i) as [o|]; simpl in Hr; [|done]. injection Hr as <-. by exists o.
  - intros (o & -> & Hin). by exists (refs o).
Qed.

(** C17: making room in any reachable state leaves the caps satisfied with the
    need added; or fails, and then, if names can be unlinked, nothing is left
    to evict but what is pinned, held, leased or excepted; or the free space
    could not be asked for.  The loops never stop early for want of steps. *)
Theorem room_within_caps (l : list ccall) (d : disk) (t need entries diskNeed : Z) (x : option blockID) :
  0 < BlockSize ->
  let '(r, s) := makeRoomFor need entries diskNeed x (sc (run_calls l (boot d t))) in
  match r with
  | Ok _ => (0 < MaxBytes -> total_bytes s + need <= MaxBytes) /\ (0 < MaxBlocks -> total_objects s + entries <= MaxBlocks)
  | Err ErrNoSpace => unlinks_work -> orphanTemps s = ∅ /\ forall v, candidate x s v = None
  | Err e => e = ErrFreeSpace
  end.
Proof.
  intros HB. pose proof (makeRoomFor_spec x need entries diskNeed _ (linked_run l d t)
    (sized_run (HB := HB) l _ (sized_boot (HB := HB) d t))) as H.
  destruct (makeRoomFor need entries diskNeed x _) as [[u|[]] s]; try exact H.
  unfold over_caps, overBytes, overObjects in H. lia.
Qed.

(** A read or a transfer uses the file. *)
Definition used (fh : string) (s : cache) : Prop := exists f, files s !! fh = Some f /\ 0 < busy f.
(** It is used, or pinned by a rule or by the user. *)
Definition kept_file (fh : string) (s : cache) : Prop :=
  exists f, files s !! fh = Some f /\ (pinned f = true \/ userPinned f = true \/ 0 < busy f).

Lemma used_busy fh s : used fh s -> file_busy fh s = true.
Proof. intros (f & Hf & Hb). unfold file_busy. rewrite Hf. by apply Z.ltb_lt. Qed.
Lemma kept_protected fh s : kept_file fh s -> partProtected fh s = true.
Proof.
  intros (f & Hf & Hk). unfold partProtected, file_protected. rewrite Hf.
  destruct Hk as [->|[->|Hb%Z.ltb_lt]]; [done|by rewrite orb_true_r|by rewrite Hb, orb_true_r].
Qed.

(** C20: making room never takes what is protected, in any reachable state and
    whatever is asked for: a block that is pinned, or of a file in use, or
    excepted, a complete file that has a reader or any of whose names is of a
    file pinned, user-pinned or in use, and a sparse file of such a file are
    still there, unchanged; and no pin or use is forgotten. *)
Theorem room_spares_protected (l : list ccall) (d : disk) (t need entries diskNeed : Z) (x : option blockID) :
  let s := sc (run_calls l (boot d t)) in
  let s' := (makeRoomFor need entries diskNeed x s).2 in
  guards s' = guards s
  /\ (forall id m, blocks s !! id = Some m -> bm_pinned m = true \/ used id.1 s \/ x = Some id -> blocks s' !! id = Some m)
  /\ (forall i o, objects s !! i = Some o -> 0 < readers o \/ (exists fh, fh ∈ refs o /\ kept_file fh s) -> objects s' !! i = Some o)
  /\ (forall fh p, parts s !! fh = Some p -> kept_file fh s -> parts s' !! fh = Some p).
Proof.
  intros s s'. destruct (spares_makeRoomFor x need entries diskNeed s (linked_run l d t)) as (_ & HG & HB & HO & HP).
  split; [exact HG|]. split; [|split].
  - intros id m Hm Hk. apply HB; [done|]. unfold block_protected, excluded.
    destruct Hk as [->|[Hu%used_busy| ->]]; [done|by rewrite Hu, orb_true_r|by rewrite bool_decide_eq_true_2, orb_true_r].
  - intros i o Ho Hk. apply HO; [done|]. unfold objectProtected. destruct Hk as [Hr%Z.ltb_lt|(fh & Hin & Hk)]; [by rewrite Hr|].
    apply orb_true_iff. right. apply existsb_exists. exists fh. split; [by apply list_elem_of_In, elem_of_elements|by apply kept_protected].
  - intros fh p Hp Hk%kept_protected. by apply HP.
Qed.

(** C34: the victim is one that may go, and no other that may go precedes it:
    what was hit since it was admitted goes after what was not, and of two
    alike the one used longest ago goes first, whatever the order in which the
    maps are walked; there is no victim only if nothing may go. *)
Theorem coldest_goes_first (x : option blockID) (n : Z) (s : cache) :
  match pick_victim x n s with
  | Some (hot, at_, v) =>
      candidate x s v = Some (hot, at_, v)
      /\ forall v' hot' at', candidate x s v' = Some (hot', at', v') ->
           (hot = true -> hot' = true) /\ (hot' = hot -> at_ <= at')
  | None => forall v, candidate x s v = None
  end.
Proof.
  pose proof (pick_victim_spec x n s) as H. destruct (pick_victim x n s) as [[[hot at_] v]|]; [|exact H].
  destruct H as [H1 H2]. split; [exact H1|]. intros v' hot' at' Hc. specialize (H2 v' _ Hc). unfold precedes, better in H2. simpl in H2.
  destruct hot, hot'; simpl in H2; split; try done; try lia; intros; try done; lia.
Qed.

(** C21: after a Put that succeeded, the cache is within its caps, as many bytes
    and as many entries: whenever the file is a small one; and for a large file
    when the call stored the block (its length is right and it was not there)
    and the file still has its sparse file, that is, the block did not complete
    it, the file's count of uses being none or more before. *)
Theorem put_within_caps (l : list ccall) (d : disk) (t : Z) (k : FileKey) (idx : Z) (data : list Z) (size : Z) (s : cache) :
  0 < BlockSize ->
  Put k idx data size (sc (run_calls l (boot d t))) = (Ok tt, s) ->
  (wholeLayout size = true -> adds k idx data size (sc (run_calls l (boot d t))) /\ is_Some (parts s !! key_hash k)
     /\ uses_counted (key_hash k) (sc (run_calls l (boot d t)))) ->
  (0 < MaxBytes -> total_bytes s <= MaxBytes) /\ (0 < MaxBlocks -> total_objects s <= MaxBlocks).
Proof.
  intros HB Hp Hlarge. pose proof (linked_run l d t) as Hl. pose proof (sized_run (HB := HB) l _ (sized_boot (HB := HB) d t)) as Hs.
  unfold Put in Hp. destruct (wholeLayout size) eqn:Hw.
  - destruct (Hlarge eq_refl) as (Ha & Hpart & Hu). destruct (Ha Hw) as [Hz Hla].
    pose proof (putPart_settles (HB := HB) k idx data size Hz _ (conj Hl (conj Hs (conj Hla Hu)))) as H.
    unfold put in Hp. rewrite Hw in Hp. destruct (_ <? _); [done|]. rewrite Hp in H. by apply H.
  - pose proof (put_settles k idx data size Hw _ (conj Hl Hs)) as H. rewrite Hp in H. by destruct H.
Qed.

(** Where the block a Put accepted is read from: its own file, unless a sparse
    file of the same key has it too; for a large file the sparse file, which the
    call put it into, and which is still there after it; a whole block of
    another length is not held beside it. *)
Definition kept_apart (k : FileKey) (idx : Z) (data : list Z) (size : Z) (before after : cache) : Prop :=
  if wholeLayout size then
    adds k idx data size before /\ is_Some (in_part (key_hash k) idx after)
    /\ forall m, blocks after !! (key_hash k, idx) = Some m -> bm_partial m = None -> bm_size m = zlen data
  else in_part (key_hash k) idx after = None.

(** C18: the bytes a Put accepted are the bytes a Get returns: never others, and
    all of them unless a read fails.  From a directory whose names are of inodes
    already made, for a small file whose key has no sparse file with the block
    (left from another size); and for a large file, when the call stored the
    block (its length is right and it was not there), the file is not complete
    by it, and no whole block of another length is held beside it. *)
Theorem put_then_get (l : list ccall) (d : disk) (t : Z) (k : FileKey) (idx : Z) (data : list Z) (size : Z) (s : cache) :
  fresh_disk d ->
  Put k idx data size (sc (run_calls l (boot d t))) = (Ok tt, s) ->
  kept_apart k idx data size (sc (run_calls l (boot d t))) s ->
  (forall b, (Get k idx s).1 = Some b -> b = data)
  /\ ((forall n, io_fault n = None) -> (Get k idx s).1 = Some data).
Proof.
  intros Hd Hp. unfold kept_apart. destruct (wholeLayout size) eqn:Hw.
  - intros (Ha & [p Hin] & Hm). destruct (Ha Hw) as [Hz Hla].
    pose proof (putPart_stores k idx data size Hz _ Hla) as H. unfold Put, put in Hp. rewrite Hw in Hp.
    destruct (_ <? _); [done|]. rewrite Hp in H. cbn [fst snd] in H.
    assert (Hpos : 0 < zlen data).
    { unfold putPart in Hp. destruct (Z.leb_spec (blockLen idx size) 0); [done|lia]. }
    destruct (get_sparse k idx size data s p Hin H Hz Hm) as [H1 H2]. split; [done|]. intros Hio. by apply H2.
  - intros Hin. pose proof (put_stores k idx data size Hw _ (fresh_run l _ (fresh_boot d t Hd))) as H.
    unfold Put in Hp. rewrite Hp in H. by apply get_stored.
Qed.

(** C19: a complete file is published only over the content it was made from:
    once a Put or a PutAsync has stored a block of the file after a stream or a
    hydration began, whatever is called before and after that, its publication
    is refused, every complete file and every name but its temporary's stays as
    it was, and its reservation is returned.  Small and large files alike; for a
    large one the call stored the block, that is, it was not turned away because
    the bytes are not the block's length or the block is already there. *)
Theorem superseded_is_not_published (l l1 l2 : list ccall) (d : disk) (t : Z) (k : FileKey) (j : job) (c : cache)
    (s1 s2 : sys) (idx : Z) (data : list Z) (size : Z) (async : bool) (tmp : cpath) :
  starts k (sc (run_calls l (boot d t))) j c ->
  sc s1 = c -> adds k idx data size (sc (run_calls l1 s1)) ->
  let stored := (if async then PutAsync k idx data size else Put k idx data size) (sc (run_calls l1 s1)) in
  stored.1 = Ok tt ->
  sc s2 = stored.2 ->
  let s := sc (run_calls l2 s2) in
  let late := j <| j_temp := Some tmp |> in
  (putWhole_publish late s).1 = Err ErrSuperseded
  /\ (exists msg, (hydrate_publish late s).1 = Err (EMsg msg))
  /\ forall s', s' = (putWhole_publish late s).2 \/ s' = (hydrate_publish late s).2 ->
     links s' = links s /\ objects s' = objects s
     /\ (forall p, p <> tmp -> names (dsk s') !! p = names (dsk s) !! p)
     /\ reservedBytes s' = reservedBytes s - j_size j.
Proof.
  intros Hst Ho Ha stored Hp Hs2 s jt. destruct (starts_begun _ _ _ _ (ptrs_run l d t) Hst) as (Hb & <- & _).
  assert (Hb1 : begun j (sc (run_calls l1 s1))) by (eapply begun_older; [apply older_run|by rewrite Ho]).
  assert (Hl1 : linked (sc (run_calls l1 s1))).
  { apply linked_calls. rewrite Ho. by eapply starts_linked, Hst; apply linked_run. }
  assert (Hl : CacheRead.late j (sc s2)).
  { rewrite Hs2. revert Hp. unfold stored. destruct async.
    - pose proof (PutAsync_makes_late j idx data size _ (conj Hb1 (conj Hl1 Ha))) as H. intros Hp. by rewrite Hp in H.
    - pose proof (put_makes_late j idx data size _ (conj Hb1 (conj Hl1 Ha))) as H. intros Hp. unfold Put in *. by rewrite Hp in H. }
  assert (Hlate : CacheRead.late j s) by (destruct Hl; split; [by eapply begun_older; [apply older_run|]|by eapply stale_older; [apply older_run|..]]).
  assert (Hs : job_stale jt s = true) by exact (proj2 Hlate). clearbody s.
  unfold putWhole_publish, hydrate_publish, cbind, cget, cthen, cret, id. simpl. rewrite Hs. simpl.
  split_and!; [done|by eexists|]. intros s' Hs'. assert (s' = (end_job jt false s).2) as -> by (by destruct Hs'). by apply (end_job_leaves jt).
Qed.

(** C33: what the cache writes beside its data is what a restart reads: the claim
    of a partial block, the claim of a sparse file with its size, and the name
    of a block file. *)
Theorem claims_read_back (p : partial) (size : Z) (fh : string) (idx : Z) :
  persistable p -> fits64 size -> p_total p = (size + p_sub p - 1) / p_sub p ->
  validFileHash fh = true -> fits64 idx ->
  decodePartial (encode p) = Some p
  /\ (0 < size -> decodePartBitmap (encodePartBitmap size p) (p_sub p) = Some (p, size))
  /\ parseBlockName (blockName fh idx) = Some (fh, idx).
Proof.
  intros Hp Hs Ht Hf Hi. split_and!; [by apply decode_encode|intros; by apply decode_encode_part|by apply parse_blockName].
Qed.
End Guarantees.

(** ** A small cache

    Blocks of 8 bytes in sub-blocks of 4, at most 64 bytes, nothing fails. *)
Section Demo.
#[local] Instance demo_options : Options := MkOptions "/c" 8 4 64 0 0 0 20 5.
#[local, program] Instance demo_os : CacheEnv := {|
  sha256_16 := fun s => s; io_fault := fun _ => None; rm_fault := fun _ => false; link_ok := fun _ => true;
  statfs := fun _ _ _ => Some 1000; busyFn := fun _ => false; ord_blocks := fun _ l => l; ord_objects := fun _ l => l;
  ord_names := fun _ l => l; ord_paths := fun _ l => l |}.
Solve Obligations with done.

Definition demo_key : FileKey := MkKey "r" "id" "v".
Definition bare_disk : disk := MkDisk ∅ ∅ ∅ 1.
Definition demo_bytes : list Z := [1; 2; 3; 4; 5; 6; 7; 8].
Definition first_calls : list ccall := [CPut demo_key 0 demo_bytes 16; CSetUserPin demo_key true].
#[local] Notation demo_cache := (sc (run_calls first_calls (boot bare_disk 10))).
Lemma ran {A} (m : A * cache) (a : A) : m.1 = a -> m = (a, m.2).
Proof. intros <-. by destruct m. Qed.
Lemma bare_fresh : fresh_disk bare_disk.
Proof. intros p i. simpl. by rewrite lookup_empty. Qed.

(** Room for 60 bytes: the only block is pinned, so there is none. *)
Lemma room_within_caps_witness : 0 < BlockSize /\
  let '(r, s) := makeRoomFor 60 1 60 None demo_cache in
  r = Err ErrNoSpace /\ (unlinks_work -> orphanTemps s = ∅ /\ forall v, candidate None s v = None).
Proof.
  apply conj; [reflexivity|]. pose proof (room_within_caps first_calls bare_disk 10 60 1 60 None eq_refl) as H.
  assert (Hr : (makeRoomFor 60 1 60 None demo_cache).1 = Err ErrNoSpace) by (vm_compute; reflexivity).
  destruct (makeRoomFor 60 1 60 None demo_cache) as [r s]. simpl in Hr. subst r. apply conj; [reflexivity|exact H].
Defined.
(** The pinned block stays, though there is no room. *)
Lemma room_spares_protected_witness :
  let id := (key_hash demo_key, 0) in
  exists m, blocks demo_cache !! id = Some m /\ bm_pinned m = true
    /\ blocks (makeRoomFor 60 1 60 None demo_cache).2 !! id = Some m.
Proof.
  destruct (blocks demo_cache !! (key_hash demo_key, 0)) as [m|] eqn:Hm; [|exfalso; revert Hm; vm_compute; discriminate].
  assert (Hp : bm_pinned m = true) by (revert Hm; vm_compute; intros [= <-]; reflexivity).
  exists m. apply conj; [exact Hm|]. apply conj; [exact Hp|].
  exact (proj1 (proj2 (room_spares_protected first_calls bare_disk 10 60 1 60 None)) _ _ Hm (or_introl Hp)).
Defined.
#[local] Notation after_put := (Put demo_key 1 demo_bytes 16 demo_cache).2.
#[local] Notation after_large := (Put demo_key 0 demo_bytes 24 (sc (run_calls [] (boot bare_disk 10)))).2.
Lemma put_within_caps_witness :
  (total_bytes after_put <= MaxBytes /\ total_bytes after_put = 16) /\ (total_bytes after_large <= MaxBytes /\ total_bytes after_large = 8).
Proof.
  assert (HB : 0 < BlockSize) by reflexivity. assert (HM : 0 < MaxBytes) by reflexivity. apply conj; (apply conj; [|vm_compute; reflexivity]).
  - refine (proj1 (put_within_caps first_calls bare_disk 10 demo_key 1 demo_bytes 16 after_put HB (ran _ _ ltac:(vm_compute; reflexivity)) _) HM).
    intros Hw. discriminate Hw.
  - refine (proj1 (put_within_caps [] bare_disk 10 demo_key 0 demo_bytes 24 after_large HB (ran _ _ ltac:(vm_compute; reflexivity)) _) HM).
    intros _. apply conj; [|apply conj].
    + intros _. apply conj; [reflexivity|]. intros p Hp'. revert Hp'. vm_compute. discriminate.
    + vm_compute. eexists. reflexivity.
    + intros f Hf. revert Hf. vm_compute. discriminate.
Defined.
(** A small file, and the first block of a large one. *)
Lemma put_then_get_witness :
  (Get demo_key 1 after_put).1 = Some demo_bytes
  /\ (Get demo_key 0 (Put demo_key 0 demo_bytes 24 (sc (run_calls [] (boot bare_disk 10)))).2).1 = Some demo_bytes.
Proof.
  assert (Hp : Put demo_key 1 demo_bytes 16 demo_cache = (Ok tt, after_put))
    by (apply ran; vm_compute; reflexivity).
  assert (Hin : in_part (key_hash demo_key) 1 after_put = None) by (vm_compute; reflexivity).
  assert (Hio : forall n, io_fault n = None) by reflexivity. apply conj.
  - destruct (put_then_get first_calls bare_disk 10 demo_key 1 demo_bytes 16 after_put bare_fresh Hp Hin) as [_ H]. exact (H Hio).
  - destruct (put_then_get [] bare_disk 10 demo_key 0 demo_bytes 24 _ bare_fresh (ran _ _ ltac:(vm_compute; reflexivity))) as [_ H]; [|exact (H Hio)].
    unfold kept_apart. replace (wholeLayout 24) with true by reflexivity. apply conj; [|apply conj].
    + intros _. apply conj; [reflexivity|]. intros p Hp'. revert Hp'. vm_compute. discriminate.
    + vm_compute. eexists. reflexivity.
    + intros m Hm. revert Hm. vm_compute. discriminate.
Defined.

(** A stream begins, a block of the same file is stored, the stream ends. *)
#[local] Notation stream_began := (putWhole_begin demo_key 16 demo_cache).
Definition demo_job : job := match stream_began.1 with Ok j => j | Err _ => MkJob demo_key 0 0 0 None end.
#[local] Notation streaming := (cstep (CStream demo_key 16) (run_calls first_calls (boot bare_disk 10))).
#[local] Notation overtaken := (cstep (CPut demo_key 1 demo_bytes 16) streaming).
Definition demo_temp : cpath := (KScratch, "", 9).
Lemma put_step k idx data n (s : sys) : sc (cstep (CPut k idx data n) s) = (put k idx data n (sc (run_calls [] s))).2.
Proof. reflexivity. Qed.
Lemma superseded_is_not_published_witness :
  starts demo_key demo_cache demo_job stream_began.2 /\ sc streaming = stream_began.2
  /\ (put demo_key 1 demo_bytes 16 (sc (run_calls [] streaming))).1 = Ok tt
  /\ (putWhole_publish (demo_job <| j_temp := Some demo_temp |>) (sc (run_calls [] overtaken))).1 = Err ErrSuperseded.
Proof.
  assert (H1 : starts demo_key demo_cache demo_job stream_began.2).
  { left. exists 16. apply ran. vm_compute. reflexivity. }
  assert (Ha : adds demo_key 1 demo_bytes 16 (sc (run_calls [] streaming))) by (intros Hw; discriminate Hw).
  assert (H2 : sc streaming = stream_began.2) by (vm_compute; reflexivity).
  assert (H3 : (put demo_key 1 demo_bytes 16 (sc (run_calls [] streaming))).1 = Ok tt) by (vm_compute; reflexivity).
  apply conj; [exact H1|]. apply conj; [exact H2|]. apply conj; [exact H3|].
  exact (proj1 (superseded_is_not_published first_calls [] [] bare_disk 10 demo_key demo_job stream_began.2 streaming overtaken
                  1 demo_bytes 16 false demo_temp H1 H2 Ha H3 (put_step _ _ _ _ _))).
Defined.
Definition demo_hash : string := "0123456789abcdef0123456789abcdef".
Lemma claims_read_back_witness :
  let p := p_set 1 (newPartialTotal 8 3) in
  persistable p /\ decodePartial (encode p) = Some p /\ parseBlockName (blockName demo_hash 7) = Some (demo_hash, 7).
Proof.
  set (p := p_set 1 (newPartialTotal 8 3)).
  assert (Hp : persistable p).
  { assert (W : WFp p) by (apply (p_set_wf (newPartialTotal 8 3) 1); [by apply newPartialTotal_wf|simpl; lia]).
    assert (Ht : 0 < p_total p) by reflexivity.
    assert (Hb : fits64 (p_sub p) /\ fits64 (p_total p)) by (unfold fits64, MaxInt64; simpl; lia).
    exact (conj W (conj Ht Hb)). }
  assert (Hf : fits64 20) by (unfold fits64, MaxInt64; lia). assert (Hi : fits64 7) by (unfold fits64, MaxInt64; lia).
  destruct (claims_read_back p 20 demo_hash 7 Hp Hf ltac:(vm_compute; reflexivity) ltac:(vm_compute; reflexivity) Hi) as (H1 & _ & H3).
  apply conj; [exact Hp|]. apply conj; [exact H1|exact H3].
Defined.

(** ** Zeros in place of data *)

(** a block completed by a synchronous PutRange while its other sub-blocks
    are in memory is promoted before they are written: reads return zeros for
    bytes that were stored and acknowledged. *)
Theorem sync_promotion_loses_bytes :
  let s := sc (run_calls [CPutRange demo_key 0 0 [1; 2; 3; 4] 8; CPutRange demo_key 0 4 [5; 6; 7; 8] 8] (boot bare_disk 10)) in
  (ReadAt demo_key 0 0 8 s).1 = Some [0; 0; 0; 0; 5; 6; 7; 8]
  /\ (ReadAt demo_key 0 0 8 (sc (run_calls [CFlushBegin]
        (run_calls [CPutRange demo_key 0 0 [1; 2; 3; 4] 8; CPutRange demo_key 0 4 [5; 6; 7; 8] 8] (boot bare_disk 10))))).1
     = Some [0; 0; 0; 0; 5; 6; 7; 8].
Proof. apply conj; vm_compute; reflexivity. Qed.

(** a sub-block stored after its file became complete makes a partial block
    that Get prefers to the complete file: it returns the zeros of the block
    file's holes as if they were data. *)
Theorem get_returns_holes :
  let s := sc (run_calls [COutside "x" [1; 2; 3; 4; 5; 6; 7; 8; 9; 10]; CLink demo_key "x" 10] (boot bare_disk 10)) in
  let s' := sc (run_calls [COutside "x" [1; 2; 3; 4; 5; 6; 7; 8; 9; 10]; CLink demo_key "x" 10;
                           CPutRange demo_key 0 4 [5; 6; 7; 8] 10; CFlushBegin] (boot bare_disk 10)) in
  (Get demo_key 0 s).1 = Some [1; 2; 3; 4; 5; 6; 7; 8] /\ (Get demo_key 0 s').1 = Some [0; 0; 0; 0; 5; 6; 7; 8].
Proof. apply conj; vm_compute; reflexivity. Qed.
End Demo.
